(* ===== verification/_CoqProject ===== *)
-Q . S2P
Prelude.v
Effects.v
FileTree.v
External.v
Json.v
Core.v
Cbor.v
Model.v
Canonical.v
Synthesizer.v
CheckerWire.v
Checker.v
Sandbox.v
Evidence.v
Contract.v
Events.v
Trace.v
Verification.v
Semantic.v
Fragments.v
Service.v
Protocol.v
Operations.v
Workspace.v
Oracle.v
Disk.v
Deployment.v
DeploymentSafety.v
StateStore.v
StateSafety.v
Text.v
EvidencePlane.v
EvidenceQuorum.v
EvidenceFiles.v
Stateful.v
Redis.v
ObjectStore.v
Postgres.v
StatefulSafety.v
RedisSafety.v
ObjectStoreSafety.v
WorkspaceFiles.v
Campaign.v
Folders.v
Ledger.v
Lifecycle.v
KeyFiles.v
Activation.v
Containers.v
ArtifactRegistry.v
Kubernetes.v
Reference.v
ActivationSafety.v
KubernetesSafety.v
ReferenceSafety.v
SandboxTime.v
Queue.v
Runners.v
