(* ===== verification/Prelude.v ===== *)
(** * Anasemble: a verification development

    Anasemble is a disaster-recovery control plane written in Rust: from signed
    fragments of evidence that survive the loss of a component it regenerates a
    finite-state machine, has an independent checker certify it, compiles it to
    WebAssembly, verifies the module in a sandbox and issues a certificate.  Around
    that core it stores and retrieves the evidence by quorum, scans for the lost
    component, queues recoveries, deploys images and restores state with a way back.
    The crates keep contracts, event logs, behavioural traces, semantic snapshots and
    verification reports, all digested in a canonical encoding and signed.

    ** Parts of the program, and the files that model them

    Sources are named below src/ (the control plane, src/src/*.rs) and src/crates/.

    Foundations:
    - [Prelude] (this file): results, loops, ordered maps ([BTreeMap]), stable sorting,
      machine integers, bytes, strings and UTF-8; automation.
    - [Effects]: code over a store that can fail, [op S E A], with a Hoare logic whose
      triples have a postcondition for results and one for errors.
    - [FileTree]: a directory tree, its traversal order and the bytes below a folder.
    - [Text]: the functions on [str] the sources use, IP addresses, URLs as a parameter.
    - [External]: the crates the sources call (sha2, hmac, hex, ed25519-dalek,
      chacha20poly1305, jiff, uuid) as type classes of operations, with their documented
      laws in separate classes, and one concrete instance of each ([Toy]).
    - [Json]: the data model of serde_json; serialisers generated by serde are the
      class [ToValue], readers [FromSlice] and [FromValue].
    - [Core]: anasemble-core budget.rs, ids.rs, lib.rs (digests), temporal.rs, json.rs.
    - [Cbor]: anasemble-core cbor.rs, the canonical CBOR encoder and decoder.
    - [Canonical]: src/canonical.rs.

    Regeneration:
    - [Model]: src/model.rs, errors, refusal codes, grammars, transitions, candidates and
      fragment contents; its Module [Fsm] is the specification the other files share: a
      machine is a partial step function, which may meet a piece of evidence.
    - [Synthesizer]: src/synthesizer.rs, fsm-v0 (construction from transitions) and
      fsm-v1 (exhaustive search under a budget).
    - [CheckerWire]: src/checker_wire.rs and the decoder of src/checker.rs.
    - [Checker]: src/checker.rs, the independent interpreter that certifies.
    - [Sandbox]: src/sandbox.rs, the compiler to WebAssembly and the verification run;
      wasm-encoder and wasmi are parameters, [exec] is the meaning of the instructions
      emitted.
    - [Fragments]: src/fragments.rs, keys, policies, signatures, collection of evidence;
      [KeyFiles]: its key files, written and read with their modes.
    - [Service]: src/service.rs, service manifests.
    - [Protocol]: src/protocol.rs, the pipeline [recover] and [run_with_mode];
      [WorkspaceFiles]: its readers of a workspace's files, and paths.
    - [Campaign]: src/campaign.rs and src/corpus.rs, recoveries of many workspaces.
    - [Oracle]: src/oracle.rs, the scan that attests the absence of the lost component.

    Records: [Evidence], [Contract], [Events], [Trace], [Semantic], [Verification], the
    crates of these names.

    Operations on stores:
    - [Operations]: src/operations.rs, jobs, leases, batches, reports, pruning, with
      [Workspace] (the scan of a workspace); proofs in [Queue] (one queue operation) and
      [Runners] (histories of operations).
    - [Disk]: a file system whose every writing call may fail or be the last one;
      [Deployment] (src/deployment.rs) and [StateStore] (src/state_store.rs) run on it,
      proofs in [DeploymentSafety] and [StateSafety].
    - [EvidencePlane]: src/evidence_plane.rs; proofs on retrieval in [EvidenceQuorum], on
      sealed and materialised evidence in [EvidenceFiles].
    - [Stateful]: src/stateful.rs, what its adapters share, the interface
      [TransactionalStateAdapter] and activation plans; [Postgres], [ObjectStore] and
      [Redis] are the adapters over the calls of the crates postgres, object_store and
      redis; proofs in [StatefulSafety], [RedisSafety] and [ObjectStoreSafety], which
      state what the commands do as documented and instantiate it in memory.
    - [Activation]: src/activation.rs, what its parts share and the sandbox for images;
      [Containers]: Docker activation; [ArtifactRegistry]: packaging, publishing and
      importing images; [Kubernetes]: activation behind a Service.  What docker and
      kubectl do is an operation on a state of any type; proofs in [ActivationSafety],
      [KubernetesSafety] and [SandboxTime], on a view of that state, with laws and an instance as above.
    - [Folders]: calls on trees of directories over [Disk], used by [Ledger]
      (src/ledger.rs) and [Lifecycle] (src/lifecycle.rs).
    - [Reference]: src/reference.rs, the integrated recovery that composes [Protocol],
      [Stateful] with its three adapters, [ArtifactRegistry] and [Kubernetes]; proofs in
      [ReferenceSafety], against contracts of the adapters.

    A state is a [Record] with the fields of the Rust struct, a fallible function
    returns [result], a method that changes its receiver returns the new value (or the
    pair of its result and the new value, where an error leaves a trace), code on an
    outside store is an [op] on its state, and code that can unwind returns
    [result (fault E)], where [Panics] is the panic.  Identifiers that the sources draw
    at random and instants are arguments.

    ** How the parts interact

    [Protocol.recover] validates a registry, has [Fragments.collect] authenticate and
    order the fragments, gives the part of the evidence its mode makes visible to
    [Synthesizer.reconstruct], sends the candidate through [CheckerWire] to
    [Checker.certify] together with all the evidence, and compiles and verifies it with
    [Sandbox].  [Evidence], [Contract], [Events], [Trace], [Semantic] and
    [Verification] all digest their unsigned parts with [Cbor.encode_canonical_cbor].
    [EvidencePlane] delivers the fragments a workspace holds, [Operations.run_batch]
    calls a recovery for each job it claims, [Deployment] installs the image of a
    certified candidate, and [Stateful.bind_activation_plan] binds snapshots and
    migrations of the state to the certificate of a recovery.
    [Reference.recover_and_activate] runs a recovery, restores three backends, publishes the
    candidate and activates it, undoing the restorations when a later step fails.

    ** What the theorems show

    - Regeneration: the search returns the one machine that meets the evidence, and
      decides within its budget (C1, C2); certification is exact and total (C3); compilation is
      correct (C6); end to end, a certified recovery returns WebAssembly that
      computes a machine meeting all the evidence, and recovery never unwinds (C4,
      C37); the absence scan finds exactly what is there (C39).
    - Collection: acceptance is characterised, does not depend on arrival order, and the
      cycle search decides and terminates (C5, C36, C8).
    - Encodings and records: the CBOR round trip (C40) and that of the wire
      format ([CheckerWire.checker_wire_roundtrip]);
      admission is characterised (C7); the
      recorded traces replay ([Trace.recorded_trace_replays]).
    - The queue: its store stays well formed, claiming picks the job it should, verdicts
      are final, one runner holds the lease, and
      a store with too many jobs is stuck (C9 to C12; [Runners.overfull_store_is_stuck]).
    - Deployment and state, for every failure point: an image is replaced as a whole,
      deploying is always possible again, rolling back undoes it, state is never lost,
      snapshots survive crashes (C13 to C18).
    - Stateful recovery: bound plans validate (C30), which PostgreSQL targets can
      be restored (C31), what a Redis or S3 restore, its rollback and its commit
      leave, and the restores that cannot succeed (C32 to C33).
    - Evidence plane: what is retrieved is replicated and exactly what the quorum
      stores (C34, C35).
    - Activation: a Docker activation can be interrupted anywhere and completed, a
      rollback restores what it replaced, the Service decides a Kubernetes activation; and
      the three situations the orchestrators do not get out of or should not get into
      (C19 to C23, and the lemmas
      [docker_gate_only_when_staging], [docker_rollback_strands] and [kubernetes_failed_rollout_blocks]).
    - The ledger and installations, for every failure point: an entry is recorded as a
      whole and recorded once, its name does not determine its inputs; an installation is
      all or nothing and is undone exactly, under the umask it needs
      (C24 to C27; [Ledger.ledger_persist_then_replay],
      [Lifecycle.interrupted_uninstall_is_stuck]).
    - The integrated recovery: one that fails gives the backends back what they had, or
      keeps what undoes it; the receipt of one that completes is accepted and rolls it back
      (C21, C22; [ReferenceSafety.commit_checks_first],
      [ReferenceSafety.fresh_target_stays]).
    - Workspaces and campaigns: whether a recovery is certified does not depend on how a
      directory lists its files, and the metrics of a campaign are those of its reports
      (C29, C28; [Campaign.linked_workspace_admitted]).

    ** Bounds and fuel

    Lists and strings have no length bound of their own; a theorem that needs a length to
    fit in [usize] says so.  Integers keep the bounds of their Rust type where an
    operation can pass them: [as_u32] wraps, [checked_add] fails, [saturating_add_u64]
    saturates.  Structural recursion suffices except for the depth-first search
    [Fragments.visit], whose fuel is one more than the number of nodes (the path never
    repeats a node, and C8 shows that it is never exhausted); for the CBOR decoder,
    whose depth limit (that of the source) bounds the recursion; for the directory scans,
    whose fuel is one more than the number of folders, each being visited once; and for
    [chunks], whose fuel is the length of the list.  [Activation.await_exit] has one turn
    for every 20 ms of the wall time, and two, which C38 shows are enough.  [Disk] takes a
    list of fates for the calls of a run: the empty list is the run without faults.

    ** Not modelled, and why

    Process and thread handling, clocks, random generators, terminal output and the
    network: what they give is an argument ([Protocol.Workspace], identifiers, instants,
    the calls of a client).  The code serde derives is the classes of [Json].  Zeroizing
    of secrets has no observable result in the model; what file modes do is in [Lifecycle],
    [KeyFiles] and [Reference].  The bodies
    of the crates called (postgres, object_store, redis, TLS, wasmi) are parameters.
    src/main.rs, src/brand.rs and src/bin/repo_check.rs, which parse arguments and print,
    write the brand's pictures and check the repository's texts, are glue over the parts
    above.  A workspace and the operator's files are taken not to change while a workflow
    reads them. *)
From stdpp Require Export base list strings gmap sorting.
From Stdlib Require Export ZArith Lia.
From Stdlib Require Export Ascii Sorted.
From Stdlib Require String.
#[global] Open Scope Z_scope.

(** [lia] with division and remainder. *)
Ltac zlia := Z.to_euclidean_division_equations; lia.

(** * Errors as values *)

(** [Result<A, E>] of the Rust sources. *)
Inductive result (E A : Type) : Type :=
| Ok (a : A)
| Err (e : E).
Arguments Ok {E A} a.
Arguments Err {E A} e.

#[export] Instance result_eq_dec {E A} `{EqDecision E, EqDecision A} : EqDecision (result E A).
Proof. solve_decision. Defined.

#[export] Instance result_ret {E} : MRet (result E) := fun A a => Ok a.
#[export] Instance result_bind {E} : MBind (result E) :=
  fun A B f m => match m with Ok a => f a | Err e => Err e end.

(** [map_err] of the standard library. *)
Definition map_err {E F A} (f : E -> F) (m : result E A) : result F A :=
  match m with Ok a => Ok a | Err e => Err (f e) end.

(** [Option::ok_or]. *)
Definition ok_or {E A} (o : option A) (e : E) : result E A :=
  match o with Some a => Ok a | None => Err e end.

(** [Result::is_err] and [Result::is_ok]. *)
Definition is_err {E A} (m : result E A) : bool :=
  match m with Ok _ => false | Err _ => true end.
Definition is_ok {E A} (m : result E A) : bool := negb (is_err m).

(** The [collect::<Result<Vec<_>, _>>] of an iterator: the first error wins. *)
Fixpoint collect_results {E A B} (f : A -> result E B) (l : list A) : result E (list B) :=
  match l with
  | [] => Ok []
  | x :: l' => y ← f x; ys ← collect_results f l'; Ok (y :: ys)
  end.

(** A [for] loop whose body may return early with an error. *)
Fixpoint for_each {E A S} (l : list A) (s : S) (body : A -> S -> result E S) : result E S :=
  match l with
  | [] => Ok s
  | x :: l' => s' ← body x s; for_each l' s' body
  end.

Lemma bind_Ok {E A B} (m : result E A) (f : A -> result E B) b :
  (m ≫= f) = Ok b <-> exists a, m = Ok a /\ f a = Ok b.
Proof. destruct m; simpl; naive_solver. Qed.

Lemma bind_pair_Ok {E A S B} (m : result E (A * S)) (f : A -> S -> result E B) b :
  ('(x, s) ← m; f x s) = Ok b <-> exists x s, m = Ok (x, s) /\ f x s = Ok b.
Proof. rewrite bind_Ok. split; [intros ([x s] & ?); eauto | intros (x & s & ?); by exists (x, s)]. Qed.

Lemma bind_Err {E A B} (m : result E A) (f : A -> result E B) e :
  (m ≫= f) = Err e <-> m = Err e \/ exists a, m = Ok a /\ f a = Err e.
Proof. destruct m; simpl; naive_solver. Qed.

Lemma map_err_Ok {E F A} (f : E -> F) (m : result E A) a :
  map_err f m = Ok a <-> m = Ok a.
Proof. destruct m; simpl; naive_solver. Qed.

Lemma ok_or_Ok {E A} (o : option A) (e : E) a : ok_or o e = Ok a <-> o = Some a.
Proof. destruct o; simpl; naive_solver. Qed.

Lemma collect_results_Ok {E A B} (f : A -> result E B) l ys :
  collect_results f l = Ok ys <-> Forall2 (fun x y => f x = Ok y) l ys.
Proof.
  revert ys. induction l as [|x l IH]; intros ys; simpl.
  - split; [intros [= <-]; constructor | inversion 1; done].
  - rewrite bind_Ok. split.
    + intros (y & Hy & Hrest). apply bind_Ok in Hrest as (ys' & Hys & [= <-]).
      constructor; [done | by apply IH].
    + inversion 1 as [|? y ? ys' Hy Hys]; subst. exists y. split; [done|].
      apply bind_Ok. exists ys'. split; [by apply IH | done].
Qed.

Lemma for_each_app {E A S} (l1 l2 : list A) (s : S) (body : A -> S -> result E S) :
  for_each (l1 ++ l2) s body = (s' ← for_each l1 s body; for_each l2 s' body).
Proof.
  revert s. induction l1 as [|x l1 IH]; intros s; [done|]. simpl.
  destruct (body x s); simpl; [apply IH | done].
Qed.

Lemma for_each_ext {E A S} (f g : A -> S -> result E S) l s :
  (forall x t, f x t = g x t) -> for_each l s f = for_each l s g.
Proof.
  intros Hext. revert s. induction l as [|x l IH]; intros s; simpl; [done|].
  rewrite Hext. destruct (g x s); simpl; [apply IH|done].
Qed.

(** Rule for loops: an invariant of the processed prefix. *)
Lemma for_each_inv {E A S} (P : list A -> S -> Prop) (body : A -> S -> result E S) l s s' :
  for_each l s body = Ok s' ->
  P [] s ->
  (forall pre x post t t', l = pre ++ x :: post -> P pre t -> body x t = Ok t' ->
     P (pre ++ [x]) t') ->
  P l s'.
Proof.
  intros Hrun H0 Hstep.
  cut (forall done_ todo t, l = done_ ++ todo -> P done_ t ->
         for_each todo t body = Ok s' -> P l s').
  { intros Hgen. by apply (Hgen [] l s). }
  clear Hrun H0. intros done_ todo. revert done_.
  induction todo as [|x todo IH]; intros done_ t Hl HP Hrun; simpl in Hrun.
  - injection Hrun as <-. by rewrite Hl, app_nil_r.
  - apply bind_Ok in Hrun as (t' & Hb & Hrun).
    apply (IH (done_ ++ [x]) t'); [by rewrite <- app_assoc | | done].
    by eapply Hstep.
Qed.

(** Inverts a successful run of a monadic definition, one bind at a time. *)
Ltac inv_ok :=
  repeat match goal with
  | H : (_ ≫= _) = Ok _ |- _ =>
      apply bind_Ok in H;
      let a := fresh "a" in let Ha := fresh "Ha" in destruct H as (a & Ha & H)
  | H : Err _ = Ok _ |- _ => discriminate H
  | H : Ok _ = Err _ |- _ => discriminate H
  | H : map_err _ _ = Ok _ |- _ => apply map_err_Ok in H
  | H : ok_or _ _ = Ok _ |- _ => apply ok_or_Ok in H
  | H : (if ?b then Err _ else _) = Ok _ |- _ =>
      let Hb := fresh "Hb" in destruct b eqn:Hb; [discriminate H|]
  end.

(** * Total orders ([Ord] of the standard library) *)

Class Ord (K : Type) := cmp : K -> K -> comparison.

Class OrdLaws (K : Type) `{Ord K} : Prop := {
  cmp_eq : forall a b, cmp a b = Eq <-> a = b;
  cmp_antisym : forall a b, cmp b a = CompOpp (cmp a b);
  cmp_lt_trans : forall a b c, cmp a b = Lt -> cmp b c = Lt -> cmp a c = Lt;
}.

Definition key_lt {K} `{Ord K} (a b : K) : Prop := cmp a b = Lt.
Definition key_le {K} `{Ord K} (a b : K) : Prop := cmp a b <> Gt.

#[export] Instance ord_Z : Ord Z := Z.compare.
#[export] Instance ord_Z_laws : OrdLaws Z.
Proof.
  split; unfold cmp, ord_Z.
  - apply Z.compare_eq_iff.
  - intros a b. apply Z.compare_antisym.
  - intros a b c. rewrite !Z.compare_lt_iff. lia.
Qed.

#[export] Instance ord_pair {A B} `{Ord A, Ord B} : Ord (A * B) :=
  fun x y => match cmp x.1 y.1 with Eq => cmp x.2 y.2 | c => c end.

Section OrdFacts.
Context {K : Type} `{OrdLaws K}.

Lemma cmp_refl a : cmp a a = Eq.
Proof. by apply cmp_eq. Qed.

Lemma cmp_gt_lt a b : cmp a b = Gt <-> cmp b a = Lt.
Proof. rewrite (cmp_antisym a b). destruct (cmp a b); simpl; naive_solver. Qed.

Lemma cmp_lt_neq a b : cmp a b = Lt -> a <> b.
Proof. intros Hlt ->. rewrite cmp_refl in Hlt. discriminate. Qed.

Lemma key_le_trans a b c : key_le a b -> key_le b c -> key_le a c.
Proof.
  unfold key_le. intros H1 H2 H3. apply cmp_gt_lt in H3.
  destruct (cmp a b) eqn:E1; [| |done].
  - apply cmp_eq in E1 as ->. apply cmp_gt_lt in H3. done.
  - apply H2. apply cmp_gt_lt. by eapply cmp_lt_trans.
Qed.

#[export] Instance key_lt_transitive : Transitive (key_lt (K := K)).
Proof. intros a b c. apply cmp_lt_trans. Qed.

#[export] Instance key_le_transitive : Transitive (key_le (K := K)).
Proof. intros a b c. apply key_le_trans. Qed.
End OrdFacts.

#[export] Instance ord_pair_laws {A B} `{OrdLaws A, OrdLaws B} : OrdLaws (A * B).
Proof.
  split; unfold cmp, ord_pair.
  - intros [a1 b1] [a2 b2]; simpl. destruct (cmp a1 a2) eqn:E.
    + apply cmp_eq in E as ->. rewrite cmp_eq. naive_solver.
    + split; [done|]. intros [= -> ->]. by rewrite cmp_refl in E.
    + split; [done|]. intros [= -> ->]. by rewrite cmp_refl in E.
  - intros [a1 b1] [a2 b2]; simpl. rewrite (cmp_antisym a1 a2).
    destruct (cmp a1 a2); simpl; [apply cmp_antisym | done | done].
  - intros [a1 b1] [a2 b2] [a3 b3]; simpl.
    destruct (cmp a1 a2) eqn:E1, (cmp a2 a3) eqn:E2; try done;
      repeat match goal with
      | E : cmp _ _ = Eq |- _ => apply cmp_eq in E; subst
      end; rewrite ?cmp_refl, ?E1, ?E2; try done.
    + apply cmp_lt_trans.
    + intros _ _. by rewrite (cmp_lt_trans _ _ _ E1 E2).
Qed.

(** Rust compares strings byte by byte. *)
#[export] Instance ord_string : Ord string := String.compare.

Lemma ascii_compare_trans a b c :
  Ascii.compare a b = Lt -> Ascii.compare b c = Lt -> Ascii.compare a c = Lt.
Proof.
  unfold Ascii.compare. rewrite !N.compare_lt_iff. lia.
Qed.

#[export] Instance ord_string_laws : OrdLaws string.
Proof.
  split; unfold cmp, ord_string.
  - intros a b. split; [apply String.compare_eq_iff|].
    intros ->. induction b as [|c b IH]; [done|]. simpl.
    unfold Ascii.compare. by rewrite N.compare_refl.
  - intros a b. apply String.compare_antisym.
  - intros a. induction a as [|x a IH]; intros [|y b] [|z c]; simpl; try done.
    destruct (Ascii.compare x y) eqn:E1, (Ascii.compare y z) eqn:E2; try done;
      repeat match goal with
      | E : Ascii.compare _ _ = Eq |- _ => apply Ascii.compare_eq_iff in E; subst
      end; rewrite ?E1, ?E2; try done.
    + replace (Ascii.compare z z) with Eq; [apply IH|].
      unfold Ascii.compare. by rewrite N.compare_refl.
    + intros _ _. by rewrite (ascii_compare_trans _ _ _ E1 E2).
Qed.

(** * Stable sorting ([sort], [sort_by], [sort_by_key]) *)

Section Sorting.
Context {A K : Type} `{Ord K} (key : A -> K).

Fixpoint sort_insert (x : A) (l : list A) : list A :=
  match l with
  | [] => [x]
  | y :: l' => match cmp (key x) (key y) with
               | Gt => y :: sort_insert x l'
               | _ => x :: l
               end
  end.

Definition sort_by_key (l : list A) : list A := foldr sort_insert [] l.

Definition sorted_by_key (l : list A) : Prop :=
  StronglySorted (fun x y => key_le (key x) (key y)) l.
Definition strictly_sorted_by_key (l : list A) : Prop :=
  StronglySorted (fun x y => key_lt (key x) (key y)) l.

Lemma sort_insert_perm x l : sort_insert x l ≡ₚ x :: l.
Proof.
  induction l as [|y l IH]; [done|]. simpl.
  destruct (cmp _ _); try done. rewrite IH. apply perm_swap.
Qed.

Lemma sort_by_key_perm l : sort_by_key l ≡ₚ l.
Proof. induction l as [|x l IH]; [done|]. simpl. by rewrite sort_insert_perm, IH. Qed.

Lemma sort_by_key_length l : length (sort_by_key l) = length l.
Proof. by rewrite sort_by_key_perm. Qed.

Lemma elem_of_sort_by_key x l : x ∈ sort_by_key l <-> x ∈ l.
Proof. by rewrite sort_by_key_perm. Qed.

Context `{!OrdLaws K}.

Lemma sort_insert_sorted x l : sorted_by_key l -> sorted_by_key (sort_insert x l).
Proof.
  induction 1 as [|y l Hl IH Hall]; simpl.
  - repeat constructor.
  - destruct (cmp (key x) (key y)) eqn:E.
    1,2: constructor; [by constructor|]; constructor; [unfold key_le; congruence|];
      eapply Forall_impl; [exact Hall|]; intros z Hz; simpl in Hz |- *;
      eapply key_le_trans; [|exact Hz]; unfold key_le; congruence.
    constructor; [exact IH|]. rewrite sort_insert_perm. constructor; [|done].
    unfold key_le. apply cmp_gt_lt in E. congruence.
Qed.

Lemma sort_by_key_sorted l : sorted_by_key (sort_by_key l).
Proof. induction l; simpl; [constructor | by apply sort_insert_sorted]. Qed.

(** Sorting a sorted list changes nothing (the sort is stable). *)
Lemma sort_by_key_id l : sorted_by_key l -> sort_by_key l = l.
Proof.
  induction 1 as [|y l Hl IH Hall]; [done|]. simpl. rewrite IH.
  destruct l as [|z l]; [done|]. simpl.
  inversion Hall as [|?? Hz]; subst. unfold key_le in Hz.
  by destruct (cmp (key y) (key z)).
Qed.

Lemma strictly_sorted_sorted l : strictly_sorted_by_key l -> sorted_by_key l.
Proof.
  induction 1 as [|y l Hl IH Hall]; constructor; [done|].
  eapply Forall_impl; [exact Hall|]. intros z Hz. unfold key_le, key_lt in *. congruence.
Qed.
End Sorting.

(** Two strictly sorted lists with the same elements are equal. *)
Lemma strictly_sorted_unique {A K} `{OrdLaws K} (key : A -> K) (l1 l2 : list A) :
  strictly_sorted_by_key key l1 -> strictly_sorted_by_key key l2 ->
  l1 ≡ₚ l2 -> l1 = l2.
Proof.
  intros H1. revert l2. induction H1 as [|x l1 Hl1 IH Hall1]; intros l2 H2 Hp.
  - by apply Permutation_nil_l in Hp.
  - destruct H2 as [|y l2 Hl2 Hall2].
    { symmetry in Hp. by apply Permutation_nil_l in Hp. }
    assert (x = y) as ->.
    { assert (Hx : x ∈ y :: l2) by (rewrite <- Hp; left).
      assert (Hy : y ∈ x :: l1) by (rewrite Hp; left).
      apply elem_of_cons in Hx as [|Hx]; [done|].
      apply elem_of_cons in Hy as [|Hy]; [done|].
      rewrite Forall_forall in Hall1, Hall2.
      pose proof (Hall1 y Hy) as E1. pose proof (Hall2 x Hx) as E2.
      unfold key_lt in E1, E2. pose proof (cmp_lt_trans _ _ _ E1 E2) as E3.
      rewrite cmp_refl in E3. discriminate. }
    f_equal. apply IH; [done|]. by apply Permutation_cons_inv in Hp.
Qed.

(** * Ordered maps ([BTreeMap]): association lists in strictly increasing key order *)

Section BTreeMap.
Context {K V : Type} `{Ord K}.

Definition btree_map : Type := list (K * V).

Fixpoint bt_get (k : K) (m : btree_map) : option V :=
  match m with
  | [] => None
  | (k', v') :: m' => match cmp k k' with
                      | Lt => None
                      | Eq => Some v'
                      | Gt => bt_get k m'
                      end
  end.

Fixpoint bt_insert (k : K) (v : V) (m : btree_map) : btree_map :=
  match m with
  | [] => [(k, v)]
  | (k', v') :: m' => match cmp k k' with
                      | Lt => (k, v) :: m
                      | Eq => (k, v) :: m'
                      | Gt => (k', v') :: bt_insert k v m'
                      end
  end.

(** [contains_key] *)
Definition bt_mem (k : K) (m : btree_map) : bool :=
  match bt_get k m with Some _ => true | None => false end.

(** [collect] into a map: later entries replace earlier ones. *)
Definition bt_from_list (l : list (K * V)) : btree_map :=
  foldl (fun m kv => bt_insert kv.1 kv.2 m) [] l.

Definition bt_sorted (m : btree_map) : Prop := strictly_sorted_by_key fst m.

Context `{!OrdLaws K}.

Lemma bt_get_insert_eq k v m : bt_get k (bt_insert k v m) = Some v.
Proof.
  induction m as [|[k' v'] m IH]; simpl; [by rewrite cmp_refl|].
  destruct (cmp k k') eqn:E; simpl; rewrite ?cmp_refl, ?E; done.
Qed.

Lemma bt_get_insert_ne k k' v m :
  bt_sorted m -> k <> k' -> bt_get k' (bt_insert k v m) = bt_get k' m.
Proof.
  intros Hs Hne. induction Hs as [|[k1 v1] m Hs IH Hall]; simpl.
  - destruct (cmp k' k) eqn:E; try done. by apply cmp_eq in E.
  - destruct (cmp k k1) eqn:E; simpl.
    + apply cmp_eq in E as <-. destruct (cmp k' k) eqn:E'; try done.
      apply cmp_eq in E'. congruence.
    + destruct (cmp k' k) eqn:E'; try done.
      * apply cmp_eq in E'. congruence.
      * by rewrite (cmp_lt_trans _ _ _ E' E).
    + by rewrite IH.
Qed.

Lemma bt_insert_keys k v m x :
  x ∈ bt_insert k v m -> x = (k, v) \/ x ∈ m.
Proof.
  induction m as [|[k' v'] m IH]; simpl; [set_solver|].
  destruct (cmp k k'); set_solver.
Qed.

Lemma bt_insert_sorted k v m : bt_sorted m -> bt_sorted (bt_insert k v m).
Proof.
  unfold bt_sorted, strictly_sorted_by_key.
  induction 1 as [|[k1 v1] m Hs IH Hall]; simpl.
  - repeat constructor.
  - destruct (cmp k k1) eqn:E.
    + apply cmp_eq in E as ->. by constructor.
    + constructor; [by constructor|]. constructor; [done|].
      eapply Forall_impl; [exact Hall|]. intros [k2 v2] Hlt.
      unfold key_lt in *. simpl in *. by eapply cmp_lt_trans.
    + constructor; [exact IH|]. apply Forall_forall. intros x Hx.
      apply bt_insert_keys in Hx as [->|Hx]; [by apply cmp_gt_lt|].
      rewrite Forall_forall in Hall. by apply Hall.
Qed.

Lemma bt_from_list_sorted_acc l m :
  bt_sorted m -> bt_sorted (foldl (fun m kv => bt_insert kv.1 kv.2 m) m l).
Proof.
  revert m. induction l as [|[k v] l IH]; intros m Hm; [done|]. simpl.
  by apply IH, bt_insert_sorted.
Qed.

Lemma bt_from_list_sorted l : bt_sorted (bt_from_list l).
Proof. apply bt_from_list_sorted_acc. constructor. Qed.

Lemma bt_get_elem k v m : bt_sorted m -> bt_get k m = Some v <-> (k, v) ∈ m.
Proof.
  induction 1 as [|[k1 v1] m Hs IH Hall]; simpl; [set_solver|].
  rewrite Forall_forall in Hall.
  destruct (cmp k k1) eqn:E.
  - apply cmp_eq in E as ->. split; [intros [= ->]; left|].
    intros [[= ->]|Hin]%elem_of_cons; [done|].
    specialize (Hall _ Hin). by apply cmp_lt_neq in Hall.
  - split; [done|]. intros [[= -> ->]|Hin]%elem_of_cons.
    + by rewrite cmp_refl in E.
    + specialize (Hall _ Hin). unfold key_lt in Hall. simpl in Hall.
      pose proof (cmp_lt_trans _ _ _ E Hall) as E'. by rewrite cmp_refl in E'.
  - rewrite IH. split; [by right|]. intros [[= -> ->]|Hin]%elem_of_cons; [|done].
    by rewrite cmp_refl in E.
Qed.

Lemma bt_get_None k m : bt_sorted m -> bt_get k m = None <-> k ∉ m.*1.
Proof.
  intros Hs. split.
  - intros Hn Hin. apply list_elem_of_fmap in Hin as ([k' v] & -> & Hin).
    apply (bt_get_elem _ _ _ Hs) in Hin. simpl in Hn. congruence.
  - intros Hn. destruct (bt_get k m) as [v|] eqn:E; [|done].
    apply (bt_get_elem _ _ _ Hs) in E. exfalso. apply Hn.
    apply list_elem_of_fmap. by exists (k, v).
Qed.

Lemma bt_sorted_NoDup m : bt_sorted m -> NoDup m.*1.
Proof.
  induction 1 as [|[k v] m Hs IH Hall]; simpl; constructor; [|done].
  intros Hin. apply list_elem_of_fmap in Hin as ([k' v'] & Heq & Hin). simpl in Heq. subst.
  rewrite Forall_forall in Hall. specialize (Hall _ Hin). by apply cmp_lt_neq in Hall.
Qed.

Lemma bt_get_Some_mem k v m : bt_get k m = Some v -> bt_mem k m = true.
Proof. unfold bt_mem. by intros ->. Qed.

(** Maps with the same lookups are equal. *)
Lemma bt_ext m1 m2 :
  bt_sorted m1 -> bt_sorted m2 ->
  (forall k, bt_get k m1 = bt_get k m2) -> m1 = m2.
Proof.
  intros H1 H2 Hext. apply (strictly_sorted_unique fst); [done..|].
  apply NoDup_Permutation.
  - apply (NoDup_fmap_1 fst). by apply bt_sorted_NoDup.
  - apply (NoDup_fmap_1 fst). by apply bt_sorted_NoDup.
  - intros [k v]. rewrite <- !bt_get_elem by done. by rewrite Hext.
Qed.

Lemma bt_insert_length_fresh k v m :
  bt_sorted m -> bt_get k m = None -> length (bt_insert k v m) = S (length m).
Proof.
  induction 1 as [|[k1 v1] m Hs IH Hall]; simpl; [done|].
  destruct (cmp k k1) eqn:E; simpl; [done..|]. intros Hn. by rewrite IH.
Qed.

(** Appending in increasing key order is what [bt_insert] does. *)
Lemma bt_insert_last k v m :
  bt_sorted m -> Forall (fun kv => cmp kv.1 k = Lt) m -> bt_insert k v m = m ++ [(k, v)].
Proof.
  intros Hs Hall. induction Hall as [|[k1 v1] m Hk1 Hall IH]; [done|]. simpl in *.
  inversion Hs; subst.
  assert (cmp k k1 = Gt) as -> by (by apply cmp_gt_lt). f_equal. by apply IH.
Qed.
End BTreeMap.
Arguments btree_map : clear implicits.

(** * Machine integers and bytes *)

Definition u8_max : Z := 255.
Definition u16_max : Z := 65535.
Definition u32_max : Z := 4294967295.
Definition u64_max : Z := 18446744073709551615.
Definition i32_max : Z := 2147483647.
Definition i64_max : Z := 9223372036854775807.
Definition i64_min : Z := -9223372036854775808.

Definition is_byte (b : Z) : Prop := 0 <= b < 256.
Definition is_u32 (z : Z) : Prop := 0 <= z <= u32_max.
Definition is_u64 (z : Z) : Prop := 0 <= z <= u64_max.
Definition is_i64 (z : Z) : Prop := i64_min <= z <= i64_max.

#[export] Instance is_byte_dec b : Decision (is_byte b).
Proof. unfold is_byte. apply _. Defined.

(** [as u32] of a [usize]. *)
Definition as_u32 (z : Z) : Z := z mod 2 ^ 32.
(** [saturating_add] on [u64]. *)
Definition saturating_add_u64 (a b : Z) : Z := Z.min (a + b) u64_max.
(** [checked_add] on an unsigned type with maximum [m]. *)
Definition checked_add (m a b : Z) : option Z :=
  if a + b <=? m then Some (a + b) else None.

(** [to_be_bytes] of an [n]-byte unsigned integer. *)
Fixpoint be_bytes (n : nat) (z : Z) : list Z :=
  match n with
  | O => []
  | S n' => be_bytes n' (z / 256) ++ [z mod 256]
  end.

(** [from_be_bytes]. *)
Definition be_value (bs : list Z) : Z := foldl (fun acc b => acc * 256 + b) 0 bs.

Lemma be_bytes_length n z : length (be_bytes n z) = n.
Proof.
  revert z. induction n as [|n IH]; intros z; [done|]. simpl.
  rewrite length_app, IH. simpl. lia.
Qed.

Lemma be_bytes_byte n z : Forall is_byte (be_bytes n z).
Proof.
  revert z. induction n as [|n IH]; intros z; simpl; [constructor|].
  apply Forall_app. split; [apply IH|]. apply Forall_singleton. unfold is_byte. zlia.
Qed.

Lemma be_value_bytes n z : be_value (be_bytes n z) = z mod 2 ^ (8 * Z.of_nat n).
Proof.
  unfold be_value. revert z. induction n as [|n IH]; intros z; [by rewrite Z.mod_1_r|].
  cbn [be_bytes]. rewrite foldl_app, IH. cbn [foldl].
  replace (8 * Z.of_nat (S n)) with (8 * Z.of_nat n + 8) by lia.
  rewrite Z.pow_add_r by lia. change (2 ^ 8) with 256.
  rewrite (Z.mul_comm (2 ^ _)), Z.rem_mul_r by lia. lia.
Qed.

Lemma be_value_bytes_small n z :
  0 <= z < 2 ^ (8 * Z.of_nat n) -> be_value (be_bytes n z) = z.
Proof. intros Hz. rewrite be_value_bytes. by apply Z.mod_small. Qed.

Lemma be_value_bound bs :
  Forall is_byte bs -> 0 <= be_value bs < 2 ^ (8 * Z.of_nat (length bs)).
Proof.
  unfold be_value. induction bs as [|b bs IH] using rev_ind; [simpl; lia|].
  intros [Hbs Hb]%Forall_app. inversion Hb as [|?? Hb']; subst. unfold is_byte in Hb'.
  rewrite foldl_app, length_app. simpl. specialize (IH Hbs).
  replace (8 * Z.of_nat (length bs + 1)) with (8 * Z.of_nat (length bs) + 8) by lia.
  rewrite Z.pow_add_r by lia. change (2 ^ 8) with 256. lia.
Qed.

Lemma be_bytes_value bs : Forall is_byte bs -> be_bytes (length bs) (be_value bs) = bs.
Proof.
  unfold be_value. induction bs as [|b bs IH] using rev_ind; [done|].
  intros [Hbs Hb]%Forall_app. inversion Hb as [|?? Hb']; subst. unfold is_byte in Hb'.
  rewrite foldl_app, length_app. simpl. rewrite Nat.add_1_r. cbn [be_bytes].
  rewrite Z.div_add_l, Z.div_small, Z.add_0_r, IH by (done || lia).
  by rewrite Z.add_comm, Z_mod_plus_full, Z.mod_small by lia.
Qed.

(** * Strings as byte sequences *)

Definition byte_of_ascii (c : ascii) : Z := Z.of_N (N_of_ascii c).
Definition ascii_of_byte (b : Z) : ascii := ascii_of_N (Z.to_N b).

(** [str::as_bytes] *)
Fixpoint bytes_of_string (s : string) : list Z :=
  match s with
  | String.EmptyString => []
  | String.String c s' => byte_of_ascii c :: bytes_of_string s'
  end.

Fixpoint string_of_bytes (bs : list Z) : string :=
  match bs with
  | [] => String.EmptyString
  | b :: bs' => String.String (ascii_of_byte b) (string_of_bytes bs')
  end.

(** [str::len] counts bytes. *)
Definition str_len (s : string) : Z := Z.of_nat (String.length s).
Definition str_is_empty (s : string) : bool := str_len s =? 0.

Lemma byte_of_ascii_byte c : is_byte (byte_of_ascii c).
Proof. unfold is_byte, byte_of_ascii. pose proof (N_ascii_bounded c). lia. Qed.

Lemma ascii_of_byte_of_ascii c : ascii_of_byte (byte_of_ascii c) = c.
Proof. unfold ascii_of_byte, byte_of_ascii. by rewrite N2Z.id, ascii_N_embedding. Qed.

Lemma byte_of_ascii_of_byte b : is_byte b -> byte_of_ascii (ascii_of_byte b) = b.
Proof.
  unfold is_byte, ascii_of_byte, byte_of_ascii. intros Hb.
  rewrite N_ascii_embedding by lia. lia.
Qed.

Lemma string_of_bytes_of_string s : string_of_bytes (bytes_of_string s) = s.
Proof. induction s as [|c s IH]; [done|]. simpl. by rewrite ascii_of_byte_of_ascii, IH. Qed.

Lemma bytes_of_string_of_bytes bs :
  Forall is_byte bs -> bytes_of_string (string_of_bytes bs) = bs.
Proof.
  induction 1 as [|b bs Hb _ IH]; [done|]. simpl. by rewrite byte_of_ascii_of_byte, IH.
Qed.

Lemma bytes_of_string_byte s : Forall is_byte (bytes_of_string s).
Proof. induction s; simpl; constructor; [apply byte_of_ascii_byte | done]. Qed.

Lemma bytes_of_string_length s : Z.of_nat (length (bytes_of_string s)) = str_len s.
Proof. unfold str_len. induction s as [|c s IH]; [done|]. simpl. lia. Qed.

Lemma bytes_of_string_inj s t : bytes_of_string s = bytes_of_string t -> s = t.
Proof.
  intros Heq. by rewrite <- (string_of_bytes_of_string s), Heq, string_of_bytes_of_string.
Qed.

Lemma string_app_bytes s t : bytes_of_string (s +:+ t) = bytes_of_string s ++ bytes_of_string t.
Proof. induction s as [|c s IH]; [done|]. simpl. by rewrite IH. Qed.

Lemma prefix_app p s : String.prefix p s = true -> exists t, s = p +:+ t.
Proof.
  revert s. induction p as [|c p IH]; intros s Hp; [by exists s|].
  destruct s as [|d s]; simpl in Hp; [done|].
  destruct (ascii_dec c d) as [->|]; [|done]. apply IH in Hp as [t ->]. by exists t.
Qed.

Lemma str_len_app s t : str_len (s +:+ t) = str_len s + str_len t.
Proof.
  unfold str_len. rewrite <- Nat2Z.inj_add. f_equal.
  induction s as [|c s IH]; [done|]. exact (f_equal S IH).
Qed.

Lemma str_len_nonneg s : 0 <= str_len s.
Proof. unfold str_len. lia. Qed.

(** ** UTF-8 ([str::from_utf8]) *)

Definition utf8_cont (b : Z) : bool := (128 <=? b) && (b <=? 191).
Definition in_range (lo hi b : Z) : bool := (lo <=? b) && (b <=? hi).

Fixpoint utf8_valid (bs : list Z) : bool :=
  match bs with
  | [] => true
  | b :: r =>
      if b <? 128 then utf8_valid r
      else if in_range 194 223 b then
        match r with c1 :: r1 => utf8_cont c1 && utf8_valid r1 | _ => false end
      else if in_range 224 239 b then
        match r with
        | c1 :: c2 :: r2 =>
            (if b =? 224 then in_range 160 191 c1
             else if b =? 237 then in_range 128 159 c1
             else utf8_cont c1) && utf8_cont c2 && utf8_valid r2
        | _ => false
        end
      else if in_range 240 244 b then
        match r with
        | c1 :: c2 :: c3 :: r3 =>
            (if b =? 240 then in_range 144 191 c1
             else if b =? 244 then in_range 128 143 c1
             else utf8_cont c1) && utf8_cont c2 && utf8_cont c3 && utf8_valid r3
        | _ => false
        end
      else false
  end.

(** Every Rust [String] holds valid UTF-8. *)
Definition utf8 (s : string) : Prop := utf8_valid (bytes_of_string s) = true.

#[export] Instance utf8_dec s : Decision (utf8 s).
Proof. unfold utf8. apply _. Defined.

(** [std::str::from_utf8] *)
Definition from_utf8 (bs : list Z) : option string :=
  if utf8_valid bs then Some (string_of_bytes bs) else None.

Lemma from_utf8_bytes s : utf8 s -> from_utf8 (bytes_of_string s) = Some s.
Proof. unfold from_utf8, utf8. intros ->. by rewrite string_of_bytes_of_string. Qed.

Lemma from_utf8_utf8 bs s :
  Forall is_byte bs -> from_utf8 bs = Some s -> utf8 s /\ bytes_of_string s = bs.
Proof.
  unfold from_utf8, utf8. intros Hb.
  destruct (utf8_valid bs) eqn:E; [|done]. intros [= <-].
  by rewrite bytes_of_string_of_bytes.
Qed.

(** ASCII predicates of [u8]. *)
Definition is_ascii_lowercase (b : Z) : bool := in_range 97 122 b.
Definition is_ascii_uppercase (b : Z) : bool := in_range 65 90 b.
Definition is_ascii_digit (b : Z) : bool := in_range 48 57 b.
Definition is_ascii_alphanumeric (b : Z) : bool :=
  is_ascii_lowercase b || is_ascii_uppercase b || is_ascii_digit b.
Definition is_ascii_graphic (b : Z) : bool := in_range 33 126 b.
Definition is_ascii_hexdigit (b : Z) : bool :=
  is_ascii_digit b || in_range 97 102 b || in_range 65 70 b.

(** * Generic list facts *)

Lemma Forall2_fmap_eq {A B C} (f : A -> C) (g : B -> C) l k :
  Forall2 (fun x y => f x = g y) l k -> f <$> l = g <$> k.
Proof. induction 1; simpl; [done|]. by f_equal. Qed.

Lemma length_Z_nonneg {A} (l : list A) : 0 <= Z.of_nat (length l).
Proof. lia. Qed.

(** [Vec::len] and [contains]. *)
Definition vec_len {A} (l : list A) : Z := Z.of_nat (length l).
Definition contains {A} `{EqDecision A} (x : A) (l : list A) : bool := bool_decide (x ∈ l).

Lemma contains_true {A} `{EqDecision A} (x : A) l : contains x l = true <-> x ∈ l.
Proof. unfold contains. by rewrite bool_decide_eq_true. Qed.

Lemma contains_false {A} `{EqDecision A} (x : A) l : contains x l = false <-> x ∉ l.
Proof. unfold contains. by rewrite bool_decide_eq_false. Qed.

(** [iter().any] and [iter().all]. *)
Definition any {A} (p : A -> bool) (l : list A) : bool := existsb p l.
Definition all {A} (p : A -> bool) (l : list A) : bool := forallb p l.

Lemma any_false {A} (p : A -> bool) l : any p l = false <-> Forall (fun x => p x = false) l.
Proof.
  unfold any. induction l as [|x l IH]; simpl; [by split|].
  rewrite orb_false_iff, IH, Forall_cons. done.
Qed.

Lemma any_true {A} (p : A -> bool) l : any p l = true <-> exists x, x ∈ l /\ p x = true.
Proof.
  unfold any. rewrite existsb_exists. split; intros (x & Hx & Hp); exists x;
    split; try done; by apply list_elem_of_In.
Qed.

Lemma all_true {A} (p : A -> bool) l : all p l = true <-> Forall (fun x => p x = true) l.
Proof.
  unfold all. rewrite forallb_forall, Forall_forall. by setoid_rewrite list_elem_of_In.
Qed.

(** [BTreeSet]: a strictly increasing list of keys. *)
Definition btree_set (K : Type) : Type := btree_map K ().
Definition set_from_list {K} `{Ord K} (l : list K) : btree_set K :=
  bt_from_list ((fun k => (k, ())) <$> l).

Section BTreeFromList.
Context {K V : Type} `{OrdLaws K}.

Lemma bt_insert_length_le k (v : V) m :
  (length (bt_insert k v m) <= S (length m))%nat.
Proof.
  induction m as [|[k' v'] m IH]; simpl; [done|]. destruct (cmp k k'); simpl; lia.
Qed.

Lemma bt_insert_length_mem k (v v0 : V) m :
  bt_get k m = Some v0 -> length (bt_insert k v m) = length m.
Proof.
  induction m as [|[k' v'] m IH]; simpl; [done|].
  destruct (cmp k k'); simpl; [done..|]. intros Hg. by rewrite IH.
Qed.

Lemma bt_get_insert k k' (v : V) m :
  bt_sorted m -> bt_get k' (bt_insert k v m) = match cmp k k' with Eq => Some v | _ => bt_get k' m end.
Proof.
  intros Hs. destruct (cmp k k') eqn:E.
  - apply cmp_eq in E as ->. apply bt_get_insert_eq.
  - apply bt_get_insert_ne; [done|]. by apply cmp_lt_neq.
  - apply bt_get_insert_ne; [done|]. apply cmp_gt_lt, cmp_lt_neq in E. congruence.
Qed.

Lemma bt_from_list_snoc l k (v : V) :
  bt_from_list (l ++ [(k, v)]) = bt_insert k v (bt_from_list l).
Proof. unfold bt_from_list. by rewrite foldl_app. Qed.

(** A list without duplicate keys is the map it builds. *)
Lemma bt_from_list_get (l : list (K * V)) k v :
  NoDup l.*1 -> bt_get k (bt_from_list l) = Some v <-> (k, v) ∈ l.
Proof.
  induction l as [|[k' v'] l IH] using rev_ind; [simpl; set_solver|].
  rewrite fmap_app, bt_from_list_snoc. intros (Hnd & Hni & _)%NoDup_app.
  rewrite bt_get_insert by apply bt_from_list_sorted.
  rewrite elem_of_app, list_elem_of_singleton.
  assert (k' ∉ l.*1) as Hk' by (intros Hin; apply (Hni _ Hin); by left).
  destruct (cmp k' k) eqn:E.
  - apply cmp_eq in E as ->. split; [intros [= ->]; by right|].
    intros [Hin|[= ->]]; [|done]. exfalso. apply Hk'. apply list_elem_of_fmap. by exists (k, v).
  - rewrite IH by done. split; [by left|]. intros [?|[= -> ->]]; [done|].
    by rewrite cmp_refl in E.
  - rewrite IH by done. split; [by left|]. intros [?|[= -> ->]]; [done|].
    by rewrite cmp_refl in E.
Qed.

Lemma bt_from_list_None (l : list (K * V)) k :
  bt_get k (bt_from_list l) = None <-> k ∉ l.*1.
Proof.
  induction l as [|[k' v'] l IH] using rev_ind; [simpl; set_solver|].
  rewrite bt_from_list_snoc, bt_get_insert by apply bt_from_list_sorted.
  rewrite fmap_app, elem_of_app. simpl. rewrite list_elem_of_singleton.
  destruct (cmp k' k) eqn:E; [apply cmp_eq in E as ->; naive_solver| |];
    (rewrite IH; split; [intros Hni [?| ->]; [done|by rewrite cmp_refl in E] | naive_solver]).
Qed.

Lemma bt_from_list_length_le (l : list (K * V)) :
  (length (bt_from_list l) <= length l)%nat.
Proof.
  induction l as [|[k v] l IH] using rev_ind; [done|].
  rewrite bt_from_list_snoc, length_app. simpl.
  pose proof (bt_insert_length_le k v (bt_from_list l)). lia.
Qed.

(** The map has as many entries as the list exactly when no key repeats. *)
Lemma bt_from_list_length (l : list (K * V)) :
  length (bt_from_list l) = length l <-> NoDup l.*1.
Proof.
  induction l as [|[k v] l IH] using rev_ind; [by split; [constructor|]|].
  rewrite bt_from_list_snoc, length_app, fmap_app, NoDup_app. simpl.
  pose proof (bt_from_list_length_le l) as Hle.
  destruct (bt_get k (bt_from_list l)) as [v0|] eqn:E.
  - rewrite (bt_insert_length_mem _ _ _ _ E). split; [lia|].
    intros (_ & Hni & _). exfalso.
    assert (bt_get k (bt_from_list l) = None) as En by
      (apply bt_from_list_None; intros Hin; apply (Hni _ Hin); by left).
    congruence.
  - rewrite bt_insert_length_fresh by (try done; apply bt_from_list_sorted).
    rewrite Nat.add_1_r. split.
    + intros [= Hlen]. apply bt_from_list_None in E. split; [by apply IH|].
      split; [|apply NoDup_singleton]. intros x Hx ->%list_elem_of_singleton. done.
    + intros (Hnd & _ & _). f_equal. by apply IH.
Qed.
End BTreeFromList.

Lemma set_from_list_length {K} `{OrdLaws K} (l : list K) :
  vec_len (set_from_list l) = vec_len l <-> NoDup l.
Proof.
  unfold vec_len, set_from_list. rewrite Nat2Z.inj_iff.
  pose proof (bt_from_list_length ((fun k => (k, ())) <$> l)) as Hl.
  rewrite length_fmap, <- list_fmap_compose in Hl. simpl in Hl.
  by rewrite list_fmap_id in Hl.
Qed.

Lemma sorted_NoDup_strict {A K} `{OrdLaws K} (key : A -> K) l :
  sorted_by_key key l -> NoDup (key <$> l) -> strictly_sorted_by_key key l.
Proof.
  induction 1 as [|x l Hl IH Hall]; [constructor|]. rewrite fmap_cons, NoDup_cons.
  intros [Hni Hnd]. constructor; [by apply IH|]. rewrite Forall_forall in Hall |- *.
  intros y Hy. specialize (Hall y Hy). unfold key_le in Hall. unfold key_lt.
  destruct (cmp (key x) (key y)) eqn:E; [|done..]. apply cmp_eq in E.
  exfalso. apply Hni, list_elem_of_fmap. eauto.
Qed.

(** Sorting elements with different keys does not depend on their order. *)
Lemma sort_by_key_unique {A K} `{OrdLaws K} (key : A -> K) (l l' : list A) :
  l ≡ₚ l' -> NoDup (key <$> l') -> sort_by_key key l = sort_by_key key l'.
Proof.
  intros Hp Hnd. assert (forall m, m ≡ₚ l' -> strictly_sorted_by_key key (sort_by_key key m)) as Hs.
  { intros m Hm. apply sorted_NoDup_strict; [exact (sort_by_key_sorted key m)|].
    by rewrite (sort_by_key_perm key m), Hm. }
  apply (strictly_sorted_unique key); [by apply Hs..|]. by rewrite !(sort_by_key_perm key).
Qed.

(** The set of a list does not depend on the order of its elements. *)
Lemma set_from_list_perm {K} `{OrdLaws K} (l l' : list K) :
  l ≡ₚ l' -> set_from_list l = set_from_list l'.
Proof.
  intros Hp. apply bt_ext; [apply bt_from_list_sorted..|]. intros k.
  assert (forall l0, bt_get k (set_from_list l0) = None <-> k ∉ l0) as Hn.
  { intros l0. unfold set_from_list. rewrite bt_from_list_None, <- list_fmap_compose.
    by rewrite list_fmap_id. }
  destruct (bt_get k (set_from_list l)) as [[]|] eqn:E1, (bt_get k (set_from_list l')) as [[]|] eqn:E2;
    try done; exfalso.
  - apply Hn in E2. rewrite <- Hp in E2. apply Hn in E2. congruence.
  - apply Hn in E1. rewrite Hp in E1. apply Hn in E1. congruence.
Qed.

(** [slice::chunks]: pieces of [n] elements, the last one shorter ([fuel] is the length). *)
Fixpoint chunks {A} (fuel n : nat) (l : list A) : list (list A) :=
  match fuel, l with
  | S fuel, _ :: _ => take n l :: chunks fuel n (drop n l)
  | _, _ => []
  end.

Lemma chunks_concat {A} fuel n (l : list A) :
  (0 < n)%nat -> (length l <= fuel)%nat -> List.concat (chunks fuel n l) = l.
Proof.
  intros Hn. revert l. induction fuel as [|fuel IH]; intros [|x l] Hf; try done.
  - simpl in Hf. lia.
  - cbn [chunks]. cbn [List.concat].
    rewrite IH; [by rewrite take_drop|]. rewrite length_drop. simpl in *. lia.
Qed.

(** Failures that unwind ([panic], out-of-range index) beside ordinary errors. *)
Inductive fault (E : Type) :=
| Panics
| Fails (e : E).
Arguments Panics {E}.
Arguments Fails {E} e.

#[export] Instance fault_eq_dec {E} `{EqDecision E} : EqDecision (fault E).
Proof. solve_decision. Defined.

(** A fallible step inside code that may also panic, and a panicking lookup. *)
Definition fails {E A} (m : result E A) : result (fault E) A := map_err Fails m.
Definition or_panic {E A} (o : option A) : result (fault E) A := ok_or o Panics.

(** * Automation *)

Create HintDb anasemble.
Create Rewrite HintDb anasemble_rw.
#[export] Hint Resolve be_bytes_byte bytes_of_string_byte byte_of_ascii_byte
  bt_insert_sorted bt_from_list_sorted str_len_nonneg length_Z_nonneg : anasemble.
#[export] Hint Rewrite @be_bytes_length bytes_of_string_length @length_app : anasemble_rw.

(** Splits every boolean conjunction or disjunction test in the context. *)
Ltac split_bools :=
  repeat match goal with
  | H : (_ && _) = true |- _ => apply andb_true_iff in H as [? ?]
  | H : (_ || _) = false |- _ => apply orb_false_iff in H as [? ?]
  | H : negb _ = true |- _ => apply negb_true_iff in H
  | H : negb _ = false |- _ => apply negb_false_iff in H
  | H : (_ <? _) = true |- _ => apply Z.ltb_lt in H
  | H : (_ <? _) = false |- _ => apply Z.ltb_ge in H
  | H : (_ <=? _) = true |- _ => apply Z.leb_le in H
  | H : (_ <=? _) = false |- _ => apply Z.leb_gt in H
  | H : (_ =? _) = true |- _ => apply Z.eqb_eq in H
  | H : (_ =? _) = false |- _ => apply Z.eqb_neq in H
  | H : bool_decide _ = true |- _ => apply bool_decide_eq_true in H
  | H : bool_decide _ = false |- _ => apply bool_decide_eq_false in H
  end.

(** Evaluates the integer tests of the goal that [lia] decides. *)
Ltac eval_tests :=
  repeat match goal with
  | |- context [?a <? ?b] =>
      first [rewrite (proj2 (Z.ltb_lt a b)) by lia | rewrite (proj2 (Z.ltb_ge a b)) by lia]
  | |- context [?a <=? ?b] =>
      first [rewrite (proj2 (Z.leb_le a b)) by lia | rewrite (proj2 (Z.leb_gt a b)) by lia]
  | |- context [?a =? ?b] =>
      first [rewrite (proj2 (Z.eqb_eq a b)) by lia | rewrite (proj2 (Z.eqb_neq a b)) by lia]
  end.
