(* ===== verification/Effects.v ===== *)
(** Code that reads and writes a store and can fail: a state and error monad in which
    an error keeps the writes made before it, and a Hoare logic for it whose triples
    have one postcondition for results and one for errors. *)
From S2P Require Import Prelude.

Definition op (S E A : Type) : Type := S -> result E A * S.

#[export] Instance op_ret {S E} : MRet (op S E) := fun A a s => (Ok a, s).
#[export] Instance op_bind {S E} : MBind (op S E) := fun A B f m s =>
  match m s with
  | (Ok a, s') => f a s'
  | (Err e, s') => (Err e, s')
  end.

(** A computation that does not touch the store, one that only reads it, and a write. *)
Definition lift {S E A} (r : result E A) : op S E A := fun s => (r, s).
Definition reads {S E A} (f : S -> result E A) : op S E A := fun s => (f s, s).
Definition writes {S E} (f : S -> S) : op S E () := fun s => (Ok (), f s).
Definition fail {S E A} (e : E) : op S E A := lift (Err e).

(** A [for] loop over a list, with local variables besides the store. *)
Fixpoint op_for {S E A T} (l : list A) (t : T) (body : A -> T -> op S E T) : op S E T :=
  match l with
  | [] => mret t
  | x :: l' => t' ← body x t; op_for l' t' body
  end.

(** * Running *)

Lemma run_bind {S E A B} (m : op S E A) (f : A -> op S E B) s a s' :
  m s = (Ok a, s') -> (m ≫= f) s = f a s'.
Proof. intros Hm. unfold mbind, op_bind. by rewrite Hm. Qed.

Lemma run_bind_Err {S E A B} (m : op S E A) (f : A -> op S E B) s e s' :
  m s = (Err e, s') -> (m ≫= f) s = (Err e, s').
Proof. intros Hm. unfold mbind, op_bind. by rewrite Hm. Qed.

Lemma run_bind_lift {S E A B} (r : result E A) (f : A -> op S E B) s a :
  r = Ok a -> (lift r ≫= f) s = f a s.
Proof. intros ->. done. Qed.

Lemma run_bind_Ok {S E A B} (m : op S E A) (f : A -> op S E B) s b s' :
  (m ≫= f) s = (Ok b, s') <-> exists a s1, m s = (Ok a, s1) /\ f a s1 = (Ok b, s').
Proof.
  unfold mbind, op_bind. destruct (m s) as [[a|e] s1]; split; try done.
  - intros Hf. by exists a, s1.
  - by intros (? & ? & [= <- <-] & ?).
  - by intros (? & ? & [=] & ?).
Qed.

(** * Triples *)

Section Triples.
Context {S E : Type}.
Implicit Types P R : S -> Prop.

Definition triple {A} P (m : op S E A) (Q : A -> S -> Prop) R : Prop :=
  forall s, P s -> match m s with (Ok a, s') => Q a s' | (Err _, s') => R s' end.

(** Keeping an assertion, whatever the outcome. *)
Definition keeps {A} P (m : op S E A) : Prop := triple P m (fun _ => P) P.

Lemma triple_ok {A} P (m : op S E A) Q R s a s' :
  triple P m Q R -> P s -> m s = (Ok a, s') -> Q a s'.
Proof. intros Ht Hs Hm. specialize (Ht s Hs). by rewrite Hm in Ht. Qed.

Lemma keeps_run {A} P (m : op S E A) s : keeps P m -> P s -> P (m s).2.
Proof. intros Hk Hs. specialize (Hk s Hs). by destruct (m s) as [[] ]. Qed.

Lemma triple_conseq {A} P P' (m : op S E A) Q Q' R R' :
  (forall s, P' s -> P s) -> (forall a s, Q a s -> Q' a s) -> (forall s, R s -> R' s) ->
  triple P m Q R -> triple P' m Q' R'.
Proof.
  intros HP HQ HR Ht s Hs. specialize (Ht s (HP s Hs)). destruct (m s) as [[] ]; eauto.
Qed.

Lemma triple_ret {A} (a : A) Q R : triple (Q a) (mret a) Q R.
Proof. by intros s Hs. Qed.

Lemma triple_bind {A B} P (m : op S E A) (f : A -> op S E B) M Q R :
  triple P m M R -> (forall a, triple (M a) (f a) Q R) -> triple P (m ≫= f) Q R.
Proof.
  intros Hm Hf s Hs. specialize (Hm s Hs). unfold mbind, op_bind.
  destruct (m s) as [[a|e] s']; [by apply Hf|done].
Qed.

Lemma triple_pre {A} (p : Prop) P (m : op S E A) Q R :
  (p -> triple P m Q R) -> triple (fun s => p /\ P s) m Q R.
Proof. intros Ht s [Hp Hs]. by apply Ht. Qed.

Lemma triple_lift {A} P (r : result E A) : triple P (lift r) (fun a s => r = Ok a /\ P s) P.
Proof. intros s Hs. simpl. by destruct r. Qed.

Lemma triple_reads {A} P (f : S -> result E A) :
  triple P (reads f) (fun a s => f s = Ok a /\ P s) P.
Proof. intros s Hs. unfold reads. by destruct (f s) eqn:Hf. Qed.

Lemma triple_fail {A} P (e : E) (Q : A -> S -> Prop) : triple P (fail e) Q P.
Proof. by intros s Hs. Qed.

(** Loops, by an invariant on the processed prefix. *)
Lemma triple_for {A T} (l : list A) (t : T) (body : A -> T -> op S E T)
  (I : list A -> T -> S -> Prop) R :
  (forall pre x post t, l = pre ++ x :: post ->
     triple (I pre t) (body x t) (fun t' => I (pre ++ [x]) t') R) ->
  triple (I [] t) (op_for l t body) (fun t' => I l t') R.
Proof.
  intros Hb. cut (forall todo pre t, l = pre ++ todo ->
    triple (I pre t) (op_for todo t body) (fun t' => I l t') R).
  { intros Hgen. by apply Hgen. }
  induction todo as [|x todo IH]; intros pre t0 Hl; simpl.
  - rewrite app_nil_r in Hl. subst. apply (triple_ret t0 (fun t' => I pre t')).
  - eapply triple_bind; [exact (Hb pre x todo t0 Hl)|]. intros t'. apply IH. by rewrite <- app_assoc.
Qed.

Lemma keeps_for {A T} P (l : list A) (t : T) (body : A -> T -> op S E T) :
  (forall x t, keeps P (body x t)) -> keeps P (op_for l t body).
Proof.
  intros Hb. apply (triple_for l t body (fun _ _ => P)). intros pre x post t' _. apply Hb.
Qed.

Lemma keeps_lift {A} P (r : result E A) : keeps P (lift r).
Proof. intros s Hs. simpl. by destruct r. Qed.

Lemma keeps_reads {A} P (f : S -> result E A) : keeps P (reads f).
Proof. intros s Hs. unfold reads. by destruct (f s). Qed.

Lemma keeps_ret {A} P (a : A) : keeps P (mret a).
Proof. by intros s Hs. Qed.

Lemma keeps_fail {A} P (e : E) : keeps P (fail (A := A) e).
Proof. by intros s Hs. Qed.

Lemma keeps_bind {A B} P (m : op S E A) (f : A -> op S E B) :
  keeps P m -> (forall a, keeps P (f a)) -> keeps P (m ≫= f).
Proof. intros Hm Hf. by eapply triple_bind. Qed.
End Triples.

(** * Views

    Computations on a store of which only a view matters: from every store with this
    view the computation ends with this result, in a store with that view. *)
Section Views.
Context {S V E : Type} (look : S -> V).

Definition takes {A} (p : op S E A) (v : V) (r : result E A) (w : V) : Prop :=
  forall s, look s = v -> exists s', p s = (r, s') /\ look s' = w.

Lemma takes_ret {A} (a : A) v : takes (mret a) v (Ok a) v.
Proof. intros s Hs. by exists s. Qed.
Lemma takes_lift {A} (r : result E A) v : takes (lift r) v r v.
Proof. intros s Hs. by exists s. Qed.
Lemma takes_fail {A} e v : takes (fail e : op S E A) v (Err e) v.
Proof. apply takes_lift. Qed.

Lemma takes_bind {A B} (p : op S E A) (k : A -> op S E B) v a w r x :
  takes p v (Ok a) w -> takes (k a) w r x -> takes (p ≫= k) v r x.
Proof.
  intros Hp Hk s Hs. destruct (Hp s Hs) as (s1 & Hr & Hs1). destruct (Hk s1 Hs1) as (s2 & Hr2 & Hs2).
  exists s2. split; [|done]. by rewrite (run_bind _ _ _ _ _ Hr).
Qed.

Lemma takes_bind_Err {A B} (p : op S E A) (k : A -> op S E B) v e w :
  takes p v (Err e) w -> takes (p ≫= k) v (Err e) w.
Proof.
  intros Hp s Hs. destruct (Hp s Hs) as (s1 & Hr & Hs1). exists s1. split; [|done]. by rewrite (run_bind_Err _ _ _ _ _ Hr).
Qed.

(** The same, with some error. *)
Definition errs {A} (p : op S E A) (v w : V) : Prop :=
  forall s, look s = v -> exists e s', p s = (Err e, s') /\ look s' = w.

Lemma errs_bind {A B} (p : op S E A) (k : A -> op S E B) v a w x :
  takes p v (Ok a) w -> errs (k a) w x -> errs (p ≫= k) v x.
Proof.
  intros Hp Hk s Hs. destruct (Hp s Hs) as (s1 & Hr & Hs1). destruct (Hk s1 Hs1) as (e & s2 & Hr2 & Hs2).
  exists e, s2. split; [|done]. by rewrite (run_bind _ _ _ _ _ Hr).
Qed.
Lemma errs_bind_Err {A B} (p : op S E A) (k : A -> op S E B) v w : errs p v w -> errs (p ≫= k) v w.
Proof.
  intros Hp s Hs. destruct (Hp s Hs) as (e & s1 & Hr & Hs1). exists e, s1. split; [|done].
  by rewrite (run_bind_Err _ _ _ _ _ Hr).
Qed.
Lemma takes_errs {A} (p : op S E A) v e w : takes p v (Err e) w -> errs p v w.
Proof. intros Hp s Hs. exists e. by apply Hp. Qed.

Lemma takes_assoc {A B C} (p : op S E A) (k : A -> op S E B) (l : B -> op S E C) v r w :
  takes (p ≫= fun a => k a ≫= l) v r w -> takes ((p ≫= k) ≫= l) v r w.
Proof.
  intros Hp s Hs. destruct (Hp s Hs) as (s1 & Hr & Hs1). exists s1. split; [|done]. rewrite <- Hr.
  unfold mbind, op_bind. by destruct (p s) as [[]].
Qed.
End Views.

Create HintDb keeps.
#[export] Hint Resolve keeps_ret keeps_lift keeps_reads keeps_fail : keeps.

(** Splits a sequence of operations that keep an assertion into its operations. *)
Ltac keeps_steps :=
  repeat match goal with
  | |- forall _, _ => intros ?
  | |- keeps _ (let _ := _ in _) => cbv zeta
  | |- keeps _ (_ ≫= _) => apply keeps_bind
  | |- keeps _ (match ?x with _ => _ end) => destruct x
  | |- keeps _ _ => solve [auto with keeps]
  end.

(** Steps through an operation whose triple is wanted: one bind, test or match at a
    time, naming what each computation that does not touch the store gave. *)
Ltac triple_step :=
  match goal with
  | |- triple _ (lift _ ≫= _) _ _ =>
      eapply triple_bind; [apply triple_lift|]; intros ?; cbv beta;
      apply triple_pre; intros ?
  | |- triple _ (reads _ ≫= _) _ _ =>
      eapply triple_bind; [apply triple_reads|]; intros ?; cbv beta
  | |- triple _ (fail _) _ _ => apply triple_fail
  | |- triple _ (if ?b then _ else _) _ _ => destruct b eqn:?
  end.
