(* ===== verification/FileTree.v ===== *)
(** Trees of files as the sources walk them: [fs::read_dir] with the metadata of each
    entry.  A path below the root is its list of names. *)
From S2P Require Import Prelude.

(** The texts of the operating system's errors. *)
Class OsErrorText := { not_found : string; already_exists : string }.

(** [metadata.len()] of a regular file is the length of what reading it returns. *)
#[warnings="-register-all"]
Inductive Node :=
| RegularFile (contents : list Z)
| Folder (entries : list (string * Node))
| SymbolicLink
| OtherEntry.

Section NodeInd.
Variable P : Node -> Prop.
Hypothesis HFile : forall contents, P (RegularFile contents).
Hypothesis HFolder : forall entries, Forall (fun e => P e.2) entries -> P (Folder entries).
Hypothesis HLink : P SymbolicLink.
Hypothesis HOther : P OtherEntry.

(** Induction with a hypothesis for each entry of a folder. *)
Fixpoint node_ind' (n : Node) : P n :=
  match n with
  | RegularFile contents => HFile contents
  | Folder entries =>
      HFolder entries ((fix go l : Forall (fun e : string * Node => P e.2) l :=
        match l with
        | [] => Forall_nil_2 _
        | e :: l' => Forall_cons_2 (fun e : string * Node => P e.2) e l' (node_ind' e.2) (go l')
        end) entries)
  | SymbolicLink => HLink
  | OtherEntry => HOther
  end.
End NodeInd.

Definition is_folder (n : Node) : bool := match n with Folder _ => true | _ => false end.

(** The folders of a tree, its entries at every depth, and the regular files it holds
    under their paths, in the order they are listed. *)
Fixpoint folders (n : Node) : nat :=
  match n with
  | Folder entries =>
      S ((fix go l := match l with [] => O | e :: l' => (folders e.2 + go l')%nat end) entries)
  | _ => O
  end.

Fixpoint entry_count (n : Node) : Z :=
  match n with
  | Folder entries =>
      (fix go l := match l with [] => 0 | e :: l' => 1 + entry_count e.2 + go l' end) entries
  | _ => 0
  end.

Fixpoint files_below (path : list string) (n : Node) : list (list string * list Z) :=
  match n with
  | RegularFile contents => [(path, contents)]
  | Folder entries =>
      (fix go l := match l with
                   | [] => []
                   | e :: l' => files_below (path ++ [e.1]) e.2 ++ go l'
                   end) entries
  | SymbolicLink | OtherEntry => []
  end.

(** Only folders and regular files. *)
Fixpoint plain (n : Node) : bool :=
  match n with
  | RegularFile _ => true
  | Folder entries => (fix go l := match l with [] => true | e :: l' => plain e.2 && go l' end) entries
  | SymbolicLink | OtherEntry => false
  end.

Definition total_bytes (files : list (list string * list Z)) : Z :=
  foldr (fun f acc => vec_len f.2 + acc) 0 files.

(** * The entries of a folder as lists *)

Definition files_of (path : list string) (entries : list (string * Node)) : list (list string * list Z) :=
  entries ≫= fun e => files_below (path ++ [e.1]) e.2.

Lemma files_below_folder path entries : files_below path (Folder entries) = files_of path entries.
Proof. simpl. unfold files_of. induction entries as [|e l IH]; [done|]. rewrite bind_cons. by f_equal. Qed.

Lemma plain_folder entries : plain (Folder entries) = true <-> Forall (fun e => plain e.2 = true) entries.
Proof.
  simpl. induction entries as [|e l IH]; [done|]. by rewrite andb_true_iff, Forall_cons, <- IH.
Qed.

Definition sum_entries (f : Node -> Z) (entries : list (string * Node)) : Z :=
  foldr (fun e acc => f e.2 + acc) 0 entries.

Lemma entry_count_folder entries :
  entry_count (Folder entries) = vec_len entries + sum_entries entry_count entries.
Proof.
  simpl. unfold vec_len. induction entries as [|e l IH]; [done|].
  unfold sum_entries in *. cbn [foldr length]. lia.
Qed.

Lemma folders_folder entries :
  folders (Folder entries) = S (sum_list_with (fun e => folders e.2) entries).
Proof. done. Qed.

Lemma entry_count_nonneg n : 0 <= entry_count n.
Proof.
  induction n as [|entries IH| |] using node_ind'; simpl; try lia.
  induction IH as [|e l He _ IH]; simpl; lia.
Qed.

(** A plain tree has at least as many entries as files. *)
Lemma files_count path n :
  vec_len (files_below path n) <= entry_count n + (if is_folder n then 0 else 1).
Proof.
  revert path. induction n as [c|entries IH| |] using node_ind'; intros path; simpl; unfold vec_len in *;
    simpl; try lia.
  induction IH as [|e l He _ IH]; simpl; [lia|]. rewrite length_app.
  specialize (He (path ++ [e.1])). destruct (is_folder e.2); lia.
Qed.

Lemma total_bytes_app l1 l2 : total_bytes (l1 ++ l2) = total_bytes l1 + total_bytes l2.
Proof. unfold total_bytes. induction l1 as [|f l1 IH]; [done|]. simpl. rewrite IH. lia. Qed.

Lemma total_bytes_nonneg l : 0 <= total_bytes l.
Proof. unfold total_bytes, vec_len. induction l; simpl; lia. Qed.

Lemma total_bytes_perm l1 l2 : l1 ≡ₚ l2 -> total_bytes l1 = total_bytes l2.
Proof. unfold total_bytes. induction 1; simpl; lia. Qed.

#[export] Instance total_bytes_proper : Proper ((≡ₚ) ==> eq) total_bytes.
Proof. intros l1 l2. apply total_bytes_perm. Qed.

#[export] Instance sum_entries_proper f : Proper ((≡ₚ) ==> eq) (sum_entries f).
Proof. unfold sum_entries. induction 1; simpl; lia. Qed.
