(* ===== verification/External.v ===== *)
(** External code the sources call, as parameters of the model: the sha2, hex,
    ed25519-dalek, chacha20poly1305, jiff and uuid crates.  Each class holds the
    operations; a [...Laws] class states the documented behaviour that a theorem
    may assume.  [Toy] gives one concrete instance of each, used by the witnesses
    to show that the assumptions can hold together. *)
From S2P Require Import Prelude.

(** sha2: the SHA-256 compression of a byte string. *)
Class Sha256 := sha256 : list Z -> list Z.
Class Sha256Laws `{Sha256} : Prop := {
  sha256_length : forall m, length (sha256 m) = 32%nat;
  sha256_bytes : forall m, Forall is_byte (sha256 m);
}.

(** hex: [hex::encode] and [hex::decode]. *)
Class Hex := {
  hex_encode : list Z -> string;
  hex_decode : string -> option (list Z);
}.
Class HexLaws `{Hex} : Prop := {
  hex_decode_encode : forall b, Forall is_byte b -> hex_decode (hex_encode b) = Some b;
  hex_decode_length : forall s b, hex_decode s = Some b -> str_len s = 2 * Z.of_nat (length b);
  hex_encode_length : forall b, str_len (hex_encode b) = 2 * Z.of_nat (length b);
  hex_encode_digits : forall b, Forall is_byte b ->
    Forall (fun c => is_ascii_digit c || in_range 97 102 c = true) (bytes_of_string (hex_encode b));
}.

(** hmac: the HMAC-SHA-256 tag of a message under a key of any length;
    [verify_slice] succeeds on the tag itself and nothing else. *)
Class Hmac := hmac_sha256 : list Z -> list Z -> list Z.
Class HmacLaws `{Hmac} : Prop := {
  hmac_length : forall k m, length (hmac_sha256 k m) = 32%nat;
  hmac_bytes : forall k m, Forall is_byte (hmac_sha256 k m);
}.

(** ed25519-dalek: keys, detached signatures, and the two verification entry points. *)
Class Ed25519 := {
  ed_public : list Z -> list Z;                       (* SigningKey::verifying_key *)
  ed_sign : list Z -> list Z -> list Z;               (* Signer::sign *)
  ed_key_ok : list Z -> bool;                         (* VerifyingKey::from_bytes succeeds *)
  ed_verify : list Z -> list Z -> list Z -> bool;     (* Verifier::verify *)
  ed_verify_strict : list Z -> list Z -> list Z -> bool;
}.
Class Ed25519Laws `{Ed25519} : Prop := {
  ed_sign_length : forall sk m, length (ed_sign sk m) = 64%nat;
  ed_sign_bytes : forall sk m, Forall is_byte (ed_sign sk m);
  ed_public_length : forall sk, length (ed_public sk) = 32%nat;
  ed_public_bytes : forall sk, Forall is_byte (ed_public sk);
  ed_public_ok : forall sk, ed_key_ok (ed_public sk) = true;
  ed_verify_sign : forall sk m, ed_verify (ed_public sk) m (ed_sign sk m) = true;
  ed_verify_strict_sign : forall sk m, ed_verify_strict (ed_public sk) m (ed_sign sk m) = true;
}.

(** chacha20poly1305: [encrypt] and [decrypt] take key, nonce, associated data, message. *)
Class Aead := {
  aead_encrypt : list Z -> list Z -> list Z -> list Z -> option (list Z);
  aead_decrypt : list Z -> list Z -> list Z -> list Z -> option (list Z);
}.
Class AeadLaws `{Aead} : Prop := {
  aead_bytes : forall k n a m c, aead_encrypt k n a m = Some c -> Forall is_byte c;
  aead_length : forall k n a m c, aead_encrypt k n a m = Some c ->
    Z.of_nat (length c) = Z.of_nat (length m) + 16;
  aead_decrypt_encrypt : forall k n a m c,
    aead_encrypt k n a m = Some c -> aead_decrypt k n a c = Some m;
}.

(** jiff: an instant is its nanosecond count. *)
Class Jiff := {
  ts_from_str : string -> option Z;       (* Timestamp::from_str *)
  ts_strptime : string -> option Z;       (* Timestamp::strptime, "%Y-%m-%dT%H:%M:%S%:z" *)
  ts_as_microsecond : Z -> Z;             (* Timestamp::as_microsecond *)
}.
Class JiffLaws `{Jiff} : Prop := {
  ts_as_microsecond_mono : forall a b, a <= b -> ts_as_microsecond a <= ts_as_microsecond b;
}.

(** uuid: identifiers with a version, a total order and a text form. *)
Class UuidLib := {
  Uuid : Type;
  uuid_eq_dec :: EqDecision Uuid;
  uuid_countable :: Countable Uuid;
  uuid_is_v7 : Uuid -> bool;              (* get_version() == Some(Version::SortRand) *)
  uuid_parse : string -> option Uuid;     (* Uuid::parse_str *)
  uuid_to_string : Uuid -> string;
}.
Class UuidLaws `{UuidLib} : Prop := {
  uuid_parse_to_string : forall u, uuid_parse (uuid_to_string u) = Some u;
}.

(** * One concrete instance of each class *)

Module Toy.
Definition pad (n : nat) (m : list Z) : list Z :=
  take n ((fun b => b mod 256) <$> m ++ replicate n 0).

Definition hex_digit (d : Z) : ascii := ascii_of_byte (if d <? 10 then 48 + d else 87 + d).
Definition hex_value (c : ascii) : option Z :=
  let b := byte_of_ascii c in
  if in_range 48 57 b then Some (b - 48)
  else if in_range 97 102 b then Some (b - 87)
  else if in_range 65 70 b then Some (b - 55)
  else None.
Fixpoint encode (bs : list Z) : string :=
  match bs with
  | [] => String.EmptyString
  | b :: r => String.String (hex_digit (b / 16)) (String.String (hex_digit (b mod 16)) (encode r))
  end.
Fixpoint decode (s : string) : option (list Z) :=
  match s with
  | String.EmptyString => Some []
  | String.String c (String.String d r) =>
      h ← hex_value c; l ← hex_value d; bs ← decode r; Some (h * 16 + l :: bs)
  | _ => None
  end.

(** A length-preserving checksum stands for the hash and the signature. *)
Definition mix (m : list Z) : Z := foldl (fun acc b => (acc * 131 + b + 7) mod 2 ^ 61) 1 m.

#[export] Instance sha : Sha256 := fun m => be_bytes 32 (mix m).
#[export] Instance hexi : Hex := {| hex_encode := encode; hex_decode := decode |}.
#[export] Instance hmac : Hmac := fun k m => be_bytes 32 (mix (pad 32 k ++ m)).
#[export] Instance ed : Ed25519 := {|
  ed_public := pad 32;
  ed_sign sk m := be_bytes 64 (mix (pad 32 sk ++ m));
  ed_key_ok pk := bool_decide (length pk = 32%nat);
  ed_verify pk m s := bool_decide (s = be_bytes 64 (mix (pk ++ m)));
  ed_verify_strict pk m s := bool_decide (s = be_bytes 64 (mix (pk ++ m)));
|}.
#[export] Instance aead : Aead := {|
  aead_encrypt k n a m :=
    if forallb (in_range 0 255) m then Some (m ++ be_bytes 16 (mix (k ++ n ++ a ++ m))) else None;
  aead_decrypt k n a c :=
    let m := take (length c - 16) c in
    if bool_decide (drop (length c - 16) c = be_bytes 16 (mix (k ++ n ++ a ++ m)))
    then Some m else None;
|}.
(** Instants as the decimal digits of the text, in microseconds. *)
Definition digits (s : string) : Z :=
  foldl (fun acc b => if is_ascii_digit b then acc * 10 + (b - 48) else acc) 0 (bytes_of_string s).
#[export] Instance jiff : Jiff := {|
  ts_from_str s := if str_is_empty s then None else Some (1000 * digits s);
  ts_strptime s := if str_is_empty s then None else Some (1000 * digits s);
  ts_as_microsecond t := t / 1000;
|}.
#[export] Instance uuid : UuidLib := {|
  Uuid := string;
  uuid_is_v7 u := negb (str_is_empty u);
  uuid_parse s := Some s;
  uuid_to_string u := u;
|}.

Lemma pad_length n m : length (pad n m) = n.
Proof. unfold pad. rewrite length_take, length_fmap, length_app, length_replicate. lia. Qed.

Lemma pad_bytes n m : Forall is_byte (pad n m).
Proof.
  unfold pad. apply Forall_take, Forall_fmap, Forall_true. intros b. unfold compose, is_byte.
  apply Z.mod_pos_bound. lia.
Qed.

#[export] Instance sha_laws : Sha256Laws.
Proof. split; intros m; [apply be_bytes_length | apply be_bytes_byte]. Qed.

#[export] Instance hmac_laws : HmacLaws.
Proof. split; intros k m; [apply be_bytes_length | apply be_bytes_byte]. Qed.

Lemma hex_digit_digit d :
  0 <= d < 16 -> let c := byte_of_ascii (hex_digit d) in is_ascii_digit c || in_range 97 102 c = true.
Proof.
  intros Hd.
  assert (forallb (fun d => let c := byte_of_ascii (hex_digit d) in is_ascii_digit c || in_range 97 102 c) (seqZ 0 16) = true)
    as Hall by (vm_compute; reflexivity).
  rewrite forallb_forall in Hall. apply (Hall d), list_elem_of_In, elem_of_seqZ. lia.
Qed.

Lemma hex_value_digit d : 0 <= d < 16 -> hex_value (hex_digit d) = Some d.
Proof.
  intros Hd.
  assert (forallb (fun d => bool_decide (hex_value (hex_digit d) = Some d)) (seqZ 0 16) = true)
    as Hall by (vm_compute; reflexivity).
  rewrite forallb_forall in Hall.
  apply (bool_decide_eq_true_1 _), Hall, list_elem_of_In, elem_of_seqZ. lia.
Qed.

Lemma decode_encode b : Forall is_byte b -> decode (encode b) = Some b.
Proof.
  induction 1 as [|x b Hx _ IH]; [done|]. unfold is_byte in Hx. simpl.
  rewrite !hex_value_digit by zlia. simpl. rewrite IH. simpl.
  f_equal. f_equal. zlia.
Qed.

Lemma decode_length n s b :
  (String.length s <= n)%nat -> decode s = Some b -> str_len s = 2 * Z.of_nat (length b).
Proof.
  revert s b. induction n as [|n IH]; intros [|c [|d s]] b Hn Hd; simpl in *; simplify_eq/=; try lia.
  - done.
  - done.
  - destruct (hex_value c); simplify_eq/=. destruct (hex_value d); simplify_eq/=.
    destruct (decode s) as [bs|] eqn:E; simplify_eq/=.
    apply IH in E; [|lia]. unfold str_len in *. simpl. lia.
Qed.

#[export] Instance hex_laws : HexLaws.
Proof.
  split; [apply decode_encode | | |].
  - intros s b. by apply (decode_length (String.length s)).
  - intros b. unfold hex_encode, hexi. induction b as [|x b IH]; [done|].
    unfold str_len in *. simpl. lia.
  - intros b. unfold hex_encode, hexi. induction 1 as [|x b Hx _ IH]; [constructor|].
    unfold is_byte in Hx. cbn [encode bytes_of_string].
    apply Forall_cons_2; [apply hex_digit_digit; zlia|].
    apply Forall_cons_2; [apply hex_digit_digit; zlia|done].
Qed.

#[export] Instance ed_laws : Ed25519Laws.
Proof.
  split; intros.
  - apply (be_bytes_length 64).
  - apply (be_bytes_byte 64).
  - apply pad_length.
  - apply pad_bytes.
  - apply bool_decide_eq_true, pad_length.
  - apply bool_decide_eq_true. reflexivity.
  - apply bool_decide_eq_true. reflexivity.
Qed.

#[export] Instance aead_laws : AeadLaws.
Proof.
  assert (Hsplit : forall k n a m c, aead_encrypt k n a m = Some c ->
            Forall is_byte m /\ c = m ++ be_bytes 16 (mix (k ++ n ++ a ++ m))).
  { intros k n a m c. simpl. destruct (forallb _ m) eqn:E; [|done]. intros [= <-].
    split; [|done]. apply Forall_forall. intros x Hx.
    rewrite forallb_forall in E. apply list_elem_of_In in Hx. specialize (E _ Hx).
    unfold in_range in E. unfold is_byte. lia. }
  split; intros k n a m c Hc; apply Hsplit in Hc as [Hm ->].
  - apply Forall_app. split; [done | apply be_bytes_byte].
  - rewrite length_app, be_bytes_length. lia.
  - unfold aead_decrypt, aead.
    rewrite length_app, be_bytes_length, Nat.add_sub, take_app_length, drop_app_length.
    by rewrite bool_decide_eq_true_2.
Qed.

#[export] Instance jiff_laws : JiffLaws.
Proof. split. intros a b Hab. simpl. apply Z.div_le_mono; lia. Qed.

#[export] Instance uuid_laws : UuidLaws.
Proof. by split. Qed.
End Toy.
