(* ===== verification/Json.v ===== *)
(** The serde_json data model: numbers, values, and their well-formedness.  The
    crate is built without [preserve_order], so an object is a [BTreeMap]. *)
From S2P Require Import Prelude.

(** [serde_json::Number]: an unsigned, a negative, or a double (its 64 bits). *)
Inductive number :=
| PosInt (n : Z)
| NegInt (z : Z)
| Float (bits : Z).

(** [serde_json::Value]. *)
#[warnings="-register-all"]
Inductive json :=
| Null
| Bool (b : bool)
| Number (n : number)
| String (s : string)
| Array (items : list json)
| Object (members : list (string * json)).

#[export] Instance number_eq_dec : EqDecision number.
Proof. solve_decision. Defined.

Section JsonInd.
Variable P : json -> Prop.
Hypothesis HNull : P Null.
Hypothesis HBool : forall b, P (Bool b).
Hypothesis HNumber : forall n, P (Number n).
Hypothesis HString : forall s, P (String s).
Hypothesis HArray : forall items, Forall P items -> P (Array items).
Hypothesis HObject : forall members, Forall (fun kv => P kv.2) members -> P (Object members).

(** Induction with hypotheses for the elements of arrays and objects. *)
Fixpoint json_ind' (v : json) : P v :=
  match v with
  | Null => HNull
  | Bool b => HBool b
  | Number n => HNumber n
  | String s => HString s
  | Array items =>
      HArray items ((fix go l : Forall P l :=
        match l with
        | [] => Forall_nil_2 P
        | x :: l' => Forall_cons_2 P x l' (json_ind' x) (go l')
        end) items)
  | Object members =>
      HObject members ((fix go l : Forall (fun kv : string * json => P kv.2) l :=
        match l with
        | [] => Forall_nil_2 _
        | kv :: l' => Forall_cons_2 (fun kv : string * json => P kv.2) kv l'
                        (json_ind' kv.2) (go l')
        end) members)
  end.
End JsonInd.

(** [f64]: the bit pattern of a double is finite unless its exponent is all ones. *)
Definition f64_is_finite (bits : Z) : bool := negb ((bits / 2 ^ 52) mod 2 ^ 11 =? 2047).
Definition f64_infinity : Z := 2047 * 2 ^ 52.

(** [as f64] of an integer: round to nearest, ties to even. *)
Definition f64_of_int (z : Z) : Z :=
  let sign := if z <? 0 then 2 ^ 63 else 0 in
  let a := Z.abs z in
  if a =? 0 then 0 else
  let e := Z.log2 a in
  let mant :=
    if e <=? 52 then a * 2 ^ (52 - e)
    else let s := e - 52 in
         let q := a / 2 ^ s in
         let r := a mod 2 ^ s in
         let half := 2 ^ (s - 1) in
         if (r <? half) || ((r =? half) && Z.even q) then q else q + 1 in
  sign + (e + 1022) * 2 ^ 52 + mant.

(** [Number::as_u64], [as_i64], [as_f64], [from_f64] and the integer conversions. *)
Definition as_u64 (n : number) : option Z :=
  match n with PosInt u => Some u | _ => None end.
Definition as_i64 (n : number) : option Z :=
  match n with
  | PosInt u => if u <=? i64_max then Some u else None
  | NegInt z => Some z
  | Float _ => None
  end.
Definition as_f64 (n : number) : option Z :=
  match n with
  | PosInt u => Some (f64_of_int u)
  | NegInt z => Some (f64_of_int z)
  | Float bits => Some bits
  end.
Definition number_from_f64 (bits : Z) : option number :=
  if f64_is_finite bits then Some (Float bits) else None.
Definition number_from_u64 (u : Z) : number := PosInt u.
Definition number_from_i64 (z : Z) : number := if z <? 0 then NegInt z else PosInt z.

(** [Value::as_str] *)
Definition as_str (v : json) : option string :=
  match v with String s => Some s | _ => None end.

(** The invariants that serde_json and [String] maintain. *)
Definition wf_number (n : number) : Prop :=
  match n with
  | PosInt u => is_u64 u
  | NegInt z => i64_min <= z < 0
  | Float bits => 0 <= bits < 2 ^ 64 /\ f64_is_finite bits = true
  end.

Fixpoint wf_json (v : json) : Prop :=
  match v with
  | Null | Bool _ => True
  | Number n => wf_number n
  | String s => utf8 s /\ str_len s <= u64_max
  | Array items => Z.of_nat (length items) <= u64_max /\
      (fix go l := match l with [] => True | x :: l' => wf_json x /\ go l' end) items
  | Object members => Z.of_nat (length members) <= u64_max /\ bt_sorted members /\
      (fix go l := match l with
                   | [] => True
                   | kv :: l' => (utf8 kv.1 /\ str_len kv.1 <= u64_max) /\ wf_json kv.2 /\ go l'
                   end) members
  end.

Lemma wf_json_array items :
  wf_json (Array items) <-> Z.of_nat (length items) <= u64_max /\ Forall wf_json items.
Proof.
  simpl. apply and_iff_compat_l. induction items as [|x l IH]; [done|].
  rewrite Forall_cons, <- IH. done.
Qed.

Lemma wf_json_object members :
  wf_json (Object members) <->
  Z.of_nat (length members) <= u64_max /\ bt_sorted members /\
  Forall (fun kv => (utf8 kv.1 /\ str_len kv.1 <= u64_max) /\ wf_json kv.2) members.
Proof.
  simpl. do 2 apply and_iff_compat_l. induction members as [|x l IH]; [done|].
  rewrite Forall_cons, <- IH. tauto.
Qed.

(** Nesting depth: a scalar has depth 0, a container one more than its members. *)
Fixpoint json_depth (v : json) : Z :=
  match v with
  | Array items =>
      (fix go l := match l with [] => 0 | x :: l' => Z.max (1 + json_depth x) (go l') end) items
  | Object members =>
      (fix go l := match l with
                   | [] => 0
                   | kv :: l' => Z.max (1 + json_depth kv.2) (go l')
                   end) members
  | _ => 0
  end.

Lemma json_depth_array items n :
  0 <= n -> Forall (fun x => json_depth x < n) items -> json_depth (Array items) < n + 1.
Proof.
  intros Hn Hall. induction Hall as [|x l Hx Hall IH]; cbn [json_depth] in *; lia.
Qed.

Lemma json_depth_object members n :
  0 <= n -> Forall (fun kv => json_depth kv.2 < n) members -> json_depth (Object members) < n + 1.
Proof.
  intros Hn Hall. induction Hall as [|x l Hx Hall IH]; cbn [json_depth] in *; lia.
Qed.

(** [serde::Serialize] into a [Value] ([serde_json::to_value]): generated code,
    so an operation of the serialised type.  [None] is a serialisation error. *)
Class ToValue (T : Type) := to_value : T -> option json.

(** [serde_json::to_vec] of a [Value]: the writer of the crate. *)
Class JsonText := json_to_vec : json -> list Z.

(** [serde_json::from_slice] and [from_value] at a type: generated code. *)
Class FromSlice (T : Type) := from_slice : list Z -> option T.
Class FromValue (T : Type) := from_value : json -> option T.

(** Reading back what was written gives the same value. *)
Class SerdeLaws (T : Type) `{JsonText, ToValue T, FromSlice T} : Prop :=
  from_slice_to_vec : forall (x : T) v, to_value x = Some v -> from_slice (json_to_vec v) = Some x.
Class ValueLaws (T : Type) `{ToValue T, FromValue T} : Prop :=
  from_value_to_value : forall (x : T) v, to_value x = Some v -> from_value v = Some x.
(** A serialised value is well formed, and determines what it came from. *)
Class ToValueLaws (T : Type) `{ToValue T} : Prop := {
  to_value_wf : forall (x : T) v, to_value x = Some v -> wf_json v;
  to_value_inj : forall (x y : T) v, to_value x = Some v -> to_value y = Some v -> x = y;
}.

(** A type whose serialisation cannot fail: structs of numbers, strings, options and
    vectors (no map with keys that are not strings, no path that is not UTF-8). *)
Class TotalValue (T : Type) `{ToValue T} : Prop :=
  to_value_total : forall x : T, is_Some (to_value x).

(** * Concrete serialisers, for witnesses *)
Module ToyJson.
(** A text of a tree that can be read back: a tag, then numbers and lengths as they
    are. *)
Definition string_tokens (s : string) : list Z := str_len s :: bytes_of_string s.

Fixpoint to_tokens (v : json) : list Z :=
  match v with
  | Null => [0]
  | Bool b => [1; Z.b2z b]
  | Number (PosInt n) => [2; n]
  | Number (NegInt n) => [3; n]
  | Number (Float bits) => [4; bits]
  | String s => 5 :: string_tokens s
  | Array items =>
      6 :: vec_len items ::
      (fix go l := match l with [] => [] | x :: l' => to_tokens x ++ go l' end) items
  | Object members =>
      7 :: vec_len members ::
      (fix go l := match l with
                   | [] => []
                   | kv :: l' => string_tokens kv.1 ++ to_tokens kv.2 ++ go l'
                   end) members
  end.

Definition read_string (ts : list Z) : option (string * list Z) :=
  match ts with
  | n :: r => Some (string_of_bytes (take (Z.to_nat n) r), drop (Z.to_nat n) r)
  | [] => None
  end.

Fixpoint read_many {A} (p : list Z -> option (A * list Z)) (n : nat) (ts : list Z)
  : option (list A * list Z) :=
  match n with
  | O => Some ([], ts)
  | S n => '(x, ts) ← p ts; '(l, ts) ← read_many p n ts; Some (x :: l, ts)
  end.

Fixpoint of_tokens (fuel : nat) (ts : list Z) : option (json * list Z) :=
  match fuel, ts with
  | S fuel, tag :: r =>
      if tag =? 0 then Some (Null, r) else
      if tag =? 5 then '(s, r) ← read_string r; Some (String s, r) else
      match r with
      | [] => None
      | n :: r =>
          if tag =? 1 then Some (Bool (n =? 1), r) else
          if tag =? 2 then Some (Number (PosInt n), r) else
          if tag =? 3 then Some (Number (NegInt n), r) else
          if tag =? 4 then Some (Number (Float n), r) else
          if tag =? 6 then '(l, r) ← read_many (of_tokens fuel) (Z.to_nat n) r; Some (Array l, r) else
          '(l, r) ← read_many (fun ts => '(k, ts) ← read_string ts;
                                         '(v, ts) ← of_tokens fuel ts; Some ((k, v), ts)) (Z.to_nat n) r;
          Some (Object l, r)
      end
  | _, _ => None
  end.

Definition of_text (ts : list Z) : option json :=
  match of_tokens (length ts) ts with Some (v, []) => Some v | _ => None end.

Lemma read_string_tokens s r : read_string (string_tokens s ++ r) = Some (s, r).
Proof.
  unfold string_tokens. cbn [app read_string]. rewrite <- bytes_of_string_length, Nat2Z.id.
  by rewrite take_app_length, drop_app_length, string_of_bytes_of_string.
Qed.

Lemma to_tokens_length v : (1 <= length (to_tokens v))%nat.
Proof. destruct v as [| |[]| | |]; simpl; lia. Qed.

Lemma of_tokens_to_tokens v :
  forall fuel r, (length (to_tokens v) <= fuel)%nat -> of_tokens fuel (to_tokens v ++ r) = Some (v, r).
Proof.
  induction v as [|b|n|s|items IH|members IH] using json_ind'; intros [|fuel] r Hf;
    try (exfalso; match goal with H : context [to_tokens ?v] |- _ =>
           pose proof (to_tokens_length v); lia end).
  - done.
  - by destruct b.
  - by destruct n.
  - cbn [to_tokens app of_tokens]. change (5 =? 0) with false. change (5 =? 5) with true. cbv iota.
    by rewrite read_string_tokens.
  - cbn [to_tokens app of_tokens] in *. change (6 =? _) with false at 1 2 3 4 5 6.
    change (6 =? 6) with true. cbv iota. unfold vec_len in *. rewrite Nat2Z.id.
    match goal with |- ('(_, _) ← ?m; _) = _ => cut (m = Some (items, r)); [by intros ->|] end.
    cbn [length] in Hf. apply le_S_n in Hf. clear -IH Hf.
    induction IH as [|x l Hx Hl IH]; cbn [read_many length]; [done|].
    cbn [length] in Hf. rewrite length_app in Hf.
    rewrite <- app_assoc, Hx by lia. cbn. rewrite IH by lia. done.
  - cbn [to_tokens app of_tokens] in *. change (7 =? _) with false at 1 2 3 4 5 6 7.
    cbv iota. unfold vec_len in *. rewrite Nat2Z.id.
    match goal with |- ('(_, _) ← ?m; _) = _ => cut (m = Some (members, r)); [by intros ->|] end.
    cbn [length] in Hf. apply le_S_n in Hf. clear -IH Hf.
    induction IH as [|[k x] l Hx Hl IH]; cbn [read_many length]; [done|].
    cbn [length fst snd] in *. rewrite !length_app in Hf.
    rewrite <- !app_assoc, read_string_tokens. cbn [mbind option_bind].
    rewrite Hx by lia. cbn [mbind option_bind]. by rewrite IH by lia.
Qed.

Lemma of_text_tokens v : of_text (to_tokens v) = Some v.
Proof.
  unfold of_text. pose proof (of_tokens_to_tokens v (length (to_tokens v)) []) as Ht.
  rewrite app_nil_r in Ht. by rewrite Ht.
Qed.

Definition text : JsonText := to_tokens.

(** The reader of a type from the one of its trees. *)
Definition from_text {T} (of_value : json -> option T) : FromSlice T := fun ts =>
  v ← of_text ts; of_value v.

Lemma from_text_laws {T} (tv : ToValue T) (of_value : json -> option T) :
  (forall x v, to_value x = Some v -> of_value v = Some x) ->
  @SerdeLaws T text tv (from_text of_value).
Proof.
  intros Hv x v Hx. unfold from_slice, from_text, json_to_vec, text.
  rewrite of_text_tokens. by apply Hv.
Qed.

(** Parts of readers. *)
Definition num (z : Z) : json := Number (PosInt z).
Definition tree_list {A} (tree : A -> json) (l : list A) : json := Array (tree <$> l).
Definition of_list {A} (of_value : json -> option A) (v : json) : option (list A) :=
  match v with Array items => mapM of_value items | _ => None end.

Lemma of_tree_list {A} (tree : A -> json) of_value l :
  (forall x, of_value (tree x) = Some x) -> of_list of_value (tree_list tree l) = Some l.
Proof.
  intros Hv. unfold of_list, tree_list. induction l as [|x l IH]; [done|].
  rewrite fmap_cons. cbn [mapM]. by rewrite Hv, IH.
Qed.

Section Table.
Context {T : Type} `{EqDecision T} (l : list (T * json)).

(** Serialises the values listed, each to the tree beside it. *)
Definition of_table : ToValue T := fun x => snd <$> (snd <$> list_find (fun p => p.1 = x) l).

Lemma of_table_elem x v : of_table x = Some v -> (x, v) ∈ l.
Proof.
  unfold of_table. destruct (list_find _ l) as [[i [y w]]|] eqn:E; [|done].
  apply list_find_Some in E as (Hi & <- & _). intros [= <-].
  by eapply list_elem_of_lookup_2.
Qed.

Lemma of_table_laws :
  NoDup l.*2 -> Forall wf_json l.*2 -> @ToValueLaws T of_table.
Proof.
  intros Hnd Hwf. split.
  - intros x v Hx. apply of_table_elem in Hx. rewrite Forall_forall in Hwf.
    apply Hwf, list_elem_of_fmap. by exists (x, v).
  - intros x y v Hx Hy. apply of_table_elem in Hx, Hy.
    apply list_elem_of_lookup_1 in Hx as [i Hi]. apply list_elem_of_lookup_1 in Hy as [j Hj].
    assert (i = j) as ->.
    { apply (NoDup_lookup l.*2 i j v Hnd); rewrite list_lookup_fmap;
        [by rewrite Hi|by rewrite Hj]. }
    congruence.
Qed.
End Table.
End ToyJson.
