(* ===== verification/Core.v ===== *)
(** crates/anasemble-core: errors, budgets, bounded text, UUIDv7 identifiers,
    digests and temporal cuts. *)
From S2P Require Import Prelude External Json.

(** ids.rs [IdError] and error.rs [CoreError]. *)
Inductive IdError :=
| NotUuidV7
| TextBound (limit : Z).

Inductive CoreError :=
| CoreJson                       (* a serde_json error *)
| CoreCbor (message : string)
| CoreId (e : IdError)
| InvalidDigest
| CoreBound
| CoreBudget.

#[export] Instance IdError_eq_dec : EqDecision IdError.
Proof. solve_decision. Defined.
#[export] Instance CoreError_eq_dec : EqDecision CoreError.
Proof. solve_decision. Defined.

(** lib.rs *)
Definition MAX_FRAME_BYTES : Z := 1048576.
Definition MAX_PAYLOAD_BYTES : Z := 524288.

(** * budget.rs *)
Module Budget.
Record Budget := {
  max_nodes : Z;
  max_edges : Z;
  max_depth : Z;
  max_bytes : Z;
  deadline_ms : Z;
}.

#[global] Instance Budget_eq_dec : EqDecision Budget.
Proof. solve_decision. Defined.

Definition new (max_nodes max_edges max_depth max_bytes deadline_ms : Z)
  : result CoreError Budget :=
  if (max_nodes =? 0) || (max_edges =? 0) || (max_depth =? 0)
     || (max_bytes =? 0) || (deadline_ms =? 0)
  then Err CoreBound
  else Ok {| max_nodes := max_nodes; max_edges := max_edges; max_depth := max_depth;
             max_bytes := max_bytes; deadline_ms := deadline_ms |}.

(** The literal of [standard()]; [standard_new] shows that [expect] cannot fail. *)
Definition standard : Budget :=
  {| max_nodes := 10000; max_edges := 20000; max_depth := 16;
     max_bytes := 8 * 1024 * 1024; deadline_ms := 5000 |}.

Definition would_exceed (self : Budget) (nodes edges depth bytes : Z) : bool :=
  (max_nodes self <? nodes) || (max_edges self <? edges)
  || (max_depth self <? depth) || (max_bytes self <? bytes).

(** The field types: four [u32] and one [u64], all positive once constructed. *)
Definition wf (b : Budget) : Prop :=
  0 < max_nodes b <= u32_max /\ 0 < max_edges b <= u32_max /\
  0 < max_depth b <= u32_max /\ 0 < max_bytes b <= u64_max /\
  0 < deadline_ms b <= u32_max.

Lemma standard_new : new 10000 20000 16 (8 * 1024 * 1024) 5000 = Ok standard.
Proof. reflexivity. Qed.

Lemma would_exceed_false b n e d y :
  would_exceed b n e d y = false <->
  n <= max_nodes b /\ e <= max_edges b /\ d <= max_depth b /\ y <= max_bytes b.
Proof. unfold would_exceed. rewrite !orb_false_iff, !Z.ltb_ge. tauto. Qed.
End Budget.

(** * ids.rs: bounded text *)
Definition MAX_BOUNDED_TEXT_BYTES : Z := 256.

(** The private field of [BoundedText]. *)
Record BoundedText := mk_text { as_text : string }.

#[export] Instance BoundedText_eq_dec : EqDecision BoundedText.
Proof. solve_decision. Defined.

Definition bounded_text_new (value : string) : result IdError BoundedText :=
  if str_is_empty value || (MAX_BOUNDED_TEXT_BYTES <? str_len value)
  then Err (TextBound MAX_BOUNDED_TEXT_BYTES)
  else Ok (mk_text value).

(** The invariant of the type: only [new] (and [TryFrom], which calls it) builds one. *)
Definition wf_text (t : BoundedText) : Prop :=
  0 < str_len (as_text t) <= MAX_BOUNDED_TEXT_BYTES.

Lemma bounded_text_new_ok s t :
  bounded_text_new s = Ok t <-> t = mk_text s /\ wf_text t.
Proof.
  unfold bounded_text_new, wf_text, str_is_empty. pose proof (str_len_nonneg s).
  destruct (_ || _) eqn:E.
  - split; [done|]. intros [-> Hwf]. simpl in Hwf. exfalso.
    apply orb_true_iff in E as [E|E]; split_bools; lia.
  - split_bools. split; [intros [= <-]; simpl; split; [done|lia]|]. by intros [-> _].
Qed.

Lemma bounded_text_new_wf s t : bounded_text_new s = Ok t -> as_text t = s /\ wf_text t.
Proof. rewrite bounded_text_new_ok. intros [-> ?]. done. Qed.

Lemma bounded_text_new_text t : wf_text t -> bounded_text_new (as_text t) = Ok t.
Proof. intros. apply bounded_text_new_ok. by destruct t. Qed.

(** [uuid_id!]: [from_uuid] and [from_str] of every identifier type. *)
Definition from_uuid `{UuidLib} (u : Uuid) : result IdError Uuid :=
  if negb (uuid_is_v7 u) then Err NotUuidV7 else Ok u.

Definition id_from_str `{UuidLib} (s : string) : result IdError Uuid :=
  u ← ok_or (uuid_parse s) NotUuidV7;
  from_uuid u.

(** * lib.rs: digests *)
Record Digest := mk_digest { digest_bytes : list Z }.

#[export] Instance Digest_eq_dec : EqDecision Digest.
Proof. solve_decision. Defined.

Definition wf_digest (d : Digest) : Prop :=
  length (digest_bytes d) = 32%nat /\ Forall is_byte (digest_bytes d).

Definition digest_sha256 `{Sha256} (bytes : list Z) : Digest := mk_digest (sha256 bytes).

Definition to_hex `{Hex} (d : Digest) : string := hex_encode (digest_bytes d).

(** [try_into] of a decoded byte vector into a fixed-size array. *)
Definition try_into_array (n : nat) (bytes : list Z) : option (list Z) :=
  if decide (length bytes = n) then Some bytes else None.

Definition digest_from_hex `{Hex} (value : string) : result CoreError Digest :=
  bytes ← ok_or (hex_decode value) InvalidDigest;
  bytes ← ok_or (try_into_array 32 bytes) InvalidDigest;
  Ok (mk_digest bytes).

Lemma try_into_array_Some n bs cs :
  try_into_array n bs = Some cs <-> cs = bs /\ length bs = n.
Proof. unfold try_into_array. case_decide; naive_solver. Qed.

Lemma digest_sha256_wf `{Sha256Laws} m : wf_digest (digest_sha256 m).
Proof. split; simpl; [apply sha256_length | apply sha256_bytes]. Qed.

Lemma digest_hex_roundtrip `{HexLaws} d :
  wf_digest d -> digest_from_hex (to_hex d) = Ok d.
Proof.
  intros [Hlen Hb]. unfold digest_from_hex, to_hex.
  rewrite hex_decode_encode by done. simpl.
  rewrite (proj2 (try_into_array_Some 32 _ _)) by done. by destruct d.
Qed.

(** A text accepted by [from_hex] has exactly 64 hex digits. *)
Lemma digest_from_hex_len `{HexLaws} s d :
  digest_from_hex s = Ok d -> str_len s = 64 /\ length (digest_bytes d) = 32%nat.
Proof.
  unfold digest_from_hex. intros Hd. inv_ok. simplify_eq.
  apply try_into_array_Some in Ha0 as [-> Hlen]. apply hex_decode_length in Ha. simpl. lia.
Qed.

(** * temporal.rs *)
Record TemporalCut := { valid_at : string; system_as_of : string }.

Inductive CompatibilityClass := Backward | Forward | Breaking | CompatUnknown.

#[export] Instance TemporalCut_eq_dec : EqDecision TemporalCut.
Proof. solve_decision. Defined.
#[export] Instance CompatibilityClass_eq_dec : EqDecision CompatibilityClass.
Proof. solve_decision. Defined.

(** * json.rs *)
Definition encode_json `{JsonText, ToValue T} (value : T) : result CoreError (list Z) :=
  canonical_tree ← ok_or (to_value value) CoreJson;
  Ok (json_to_vec canonical_tree).

Definition digest_hex `{Sha256, Hex, JsonText, ToValue T} (value : T) : result CoreError string :=
  bytes ← encode_json value;
  Ok (hex_encode (sha256 bytes)).

Definition bytes_digest `{Sha256, Hex} (value : list Z) : string := hex_encode (sha256 value).
