(* ===== verification/Cbor.v ===== *)
(** crates/anasemble-core/src/cbor.rs and json.rs: the canonical CBOR encoder and
    decoder.  Proved here: the encoder is injective on well-formed values, the
    decoder inverts it except on negative integers below -1, the decoder only
    builds well-formed values, and which non-canonical inputs it accepts. *)
From S2P Require Import Prelude External Json Core.

Definition MAX_CBOR_DEPTH : Z := 16.

(** * Encoder *)

Definition encode_len (out : list Z) (major len : Z) : list Z :=
  let major := Z.shiftl major 5 in
  if len <? 24 then out ++ [Z.lor major len]
  else if len <=? u8_max then out ++ [Z.lor major 24] ++ [len]
  else if len <=? u16_max then out ++ [Z.lor major 25] ++ be_bytes 2 len
  else if len <=? u32_max then out ++ [Z.lor major 26] ++ be_bytes 4 len
  else out ++ [Z.lor major 27] ++ be_bytes 8 len.

Definition encode_text (out : list Z) (text : string) : list Z :=
  encode_len out 3 (str_len text) ++ bytes_of_string text.

Definition encode_number (out : list Z) (n : number) : result CoreError (list Z) :=
  match as_u64 n with
  | Some value => Ok (encode_len out 0 value)
  | None =>
      match as_i64 n with
      | Some value =>
          if 0 <=? value then Ok (encode_len out 0 value)
          else Ok (encode_len out 1 (Z.abs value - 1))
      | None =>
          float ← ok_or (as_f64 n) (CoreCbor "JSON number is not a finite CBOR float");
          if negb (f64_is_finite float)
          then Err (CoreCbor "JSON number is not a finite CBOR float")
          else Ok (out ++ [0xfb] ++ be_bytes 8 float)
      end
  end.

Fixpoint encode_value (out : list Z) (value : json) (depth : Z) {struct value} : result CoreError (list Z) :=
  if MAX_CBOR_DEPTH <? depth then Err (CoreCbor "CBOR nesting exceeds depth bound") else
  match value with
  | Null => Ok (out ++ [0xf6])
  | Bool false => Ok (out ++ [0xf4])
  | Bool true => Ok (out ++ [0xf5])
  | Number n => encode_number out n
  | String text => Ok (encode_text out text)
  | Array items =>
      (fix go (out : list Z) (l : list json) {struct l} : result CoreError (list Z) :=
         match l with
         | [] => Ok out
         | item :: l' => out ← encode_value out item (depth + 1); go out l'
         end) (encode_len out 4 (Z.of_nat (length items))) items
  | Object members =>
      (fix go (out : list Z) (l : list (string * json)) {struct l} : result CoreError (list Z) :=
         match l with
         | [] => Ok out
         | kv :: l' =>
             out ← encode_value (encode_text out kv.1) kv.2 (depth + 1); go out l'
         end) (encode_len out 5 (Z.of_nat (length members))) members
  end.

(** [encode_canonical_cbor], after [serde_json::to_value]. *)
Definition encode_tree (tree : json) : result CoreError (list Z) :=
  out ← encode_value [] tree 0;
  if MAX_FRAME_BYTES <? Z.of_nat (length out) then Err CoreBound else Ok out.

Definition encode_canonical_cbor `{ToValue T} (value : T) : result CoreError (list Z) :=
  tree ← ok_or (to_value value) CoreJson;
  encode_tree tree.

Definition of_canonical_cbor `{Sha256, ToValue T} (value : T) : result CoreError Digest :=
  bytes ← encode_canonical_cbor value;
  Ok (digest_sha256 bytes).

(** * Decoder *)

Definition take_len (first : Z) (rest : list Z) : result CoreError (Z * list Z) :=
  let n := Z.land first 31 in
  if n <? 24 then Ok (n, rest)
  else if n =? 24 then
    match rest with
    | b :: rest' => Ok (b, rest')
    | [] => Err (CoreCbor "truncated CBOR")
    end
  else if n =? 25 then
    if (length rest <? 2)%nat then Err (CoreCbor "truncated CBOR")
    else Ok (be_value (take 2 rest), drop 2 rest)
  else if n =? 26 then
    if (length rest <? 4)%nat then Err (CoreCbor "truncated CBOR")
    else Ok (be_value (take 4 rest), drop 4 rest)
  else if n =? 27 then
    if (length rest <? 8)%nat then Err (CoreCbor "truncated CBOR")
    else Ok (be_value (take 8 rest), drop 8 rest)
  else Err (CoreCbor "indefinite CBOR is refused").

(** The source computes [-1_i64.checked_sub(n)...?]: a method call binds tighter
    than unary minus, so the value is [-(1 - n)]. *)
Definition decode_negative (n : Z) : result CoreError Z :=
  if i64_max <? n then Err (CoreCbor "negative out of range")
  else if (1 - n <? i64_min) || (i64_max <? 1 - n) then Err (CoreCbor "negative out of range")
  else Ok (- (1 - n)).

(** The two [for _ in 0..len] loops; [decode] is the recursive call. *)
Section Loops.
Variable decode : list Z -> result CoreError (json * list Z).

Fixpoint decode_items (len : nat) (rest : list Z) (items : list json)
  : result CoreError (json * list Z) :=
  match len with
  | O => Ok (Array items, rest)
  | S len' =>
      '(item, next) ← decode rest;
      decode_items len' next (items ++ [item])
  end.

Fixpoint decode_members (len : nat) (rest : list Z) (map : list (string * json))
  (last_key : option string) : result CoreError (json * list Z) :=
  match len with
  | O => Ok (Object map, rest)
  | S len' =>
      '(key, next) ← decode rest;
      key ← ok_or (as_str key) (CoreCbor "CBOR map key is not text");
      if (match last_key with
          | Some previous => match cmp key previous with Gt => false | _ => true end
          | None => false
          end)
      then Err (CoreCbor "CBOR map keys are not strictly sorted")
      else
        '(item, next) ← decode next;
        decode_members len' next (bt_insert key item map) (Some key)
  end.
End Loops.

Section Decode.
(** [decode_negative] is the source's treatment of major type 1; the proofs also
    use the decoder with the treatment RFC 8949 prescribes. *)
Variable negative : Z -> result CoreError Z.

(** [left] counts the levels still allowed: [MAX_CBOR_DEPTH + 1 - depth]. *)
Fixpoint decode_value_with (left : nat) (bytes : list Z) : result CoreError (json * list Z) :=
  match left with
  | O => Err (CoreCbor "CBOR nesting exceeds depth bound")
  | S left' =>
      match bytes with
      | [] => Err (CoreCbor "truncated CBOR")
      | first :: rest =>
          if first =? 0xf4 then Ok (Bool false, rest)
          else if first =? 0xf5 then Ok (Bool true, rest)
          else if first =? 0xf6 then Ok (Null, rest)
          else if first =? 0xfb then
            if (length rest <? 8)%nat then Err (CoreCbor "truncated CBOR float")
            else
              n ← ok_or (number_from_f64 (be_value (take 8 rest)))
                    (CoreCbor "non-finite CBOR float");
              Ok (Number n, drop 8 rest)
          else if Z.shiftr first 5 =? 0 then
            '(len, rest) ← take_len first rest;
            Ok (Number (number_from_u64 len), rest)
          else if Z.shiftr first 5 =? 1 then
            '(n, rest) ← take_len first rest;
            value ← negative n;
            Ok (Number (number_from_i64 value), rest)
          else if Z.shiftr first 5 =? 3 then
            '(len, rest) ← take_len first rest;
            if Z.of_nat (length rest) <? len then Err (CoreCbor "truncated CBOR text")
            else
              text ← ok_or (from_utf8 (take (Z.to_nat len) rest))
                       (CoreCbor "CBOR text is not UTF-8");
              Ok (String text, drop (Z.to_nat len) rest)
          else if Z.shiftr first 5 =? 4 then
            '(len, rest) ← take_len first rest;
            decode_items (decode_value_with left') (Z.to_nat len) rest []
          else if Z.shiftr first 5 =? 5 then
            '(len, rest) ← take_len first rest;
            decode_members (decode_value_with left') (Z.to_nat len) rest [] None
          else Err (CoreCbor "unsupported CBOR type")
      end
  end.

Definition decode_with (bytes : list Z) : result CoreError json :=
  '(value, rest) ← decode_value_with (S (Z.to_nat MAX_CBOR_DEPTH)) bytes;
  match rest with
  | [] => Ok value
  | _ :: _ => Err (CoreCbor "CBOR input has trailing bytes")
  end.
End Decode.

Definition decode_value (left : nat) (bytes : list Z) : result CoreError (json * list Z) :=
  decode_value_with decode_negative left bytes.

Definition decode_to_json (bytes : list Z) : result CoreError json :=
  decode_with decode_negative bytes.

(** The reading of major type 1 that RFC 8949 prescribes: [-1 - n]. *)
Definition rfc_negative (n : Z) : result CoreError Z :=
  if i64_max <? n then Err (CoreCbor "negative out of range") else Ok (-1 - n).

Example empty_map_is_a0 : encode_tree (Object []) = Ok [0xa0].
Proof. reflexivity. Qed.
Example sorted_keys_and_small_int :
  encode_tree (Object [("a", Number (PosInt 1))]) = Ok [0xa1; 0x61; 97; 0x01].
Proof. reflexivity. Qed.
Example round_trip_object :
  (bytes ← encode_tree (Object [("a", String "ok"); ("z", Array [Bool true; Null])]);
   decode_to_json bytes) = Ok (Object [("a", String "ok"); ("z", Array [Bool true; Null])]).
Proof. reflexivity. Qed.
Example refuses_indefinite_break : is_err (decode_to_json [0x9f; 0xff]) = true.
Proof. reflexivity. Qed.

(** * Facts about headers *)

Lemma header_bits m k :
  0 <= m <= 5 -> 0 <= k < 32 ->
  Z.shiftr (Z.lor (Z.shiftl m 5) k) 5 = m /\ Z.land (Z.lor (Z.shiftl m 5) k) 31 = k /\
  0 <= Z.lor (Z.shiftl m 5) k < 192.
Proof.
  intros Hm Hk.
  set (ok := fun m k => let h := Z.lor (Z.shiftl m 5) k in
    (Z.shiftr h 5 =? m) && (Z.land h 31 =? k) && (0 <=? h) && (h <? 192)).
  assert (forallb (fun m => forallb (ok m) (seqZ 0 32)) (seqZ 0 6) = true) as Hall
    by (vm_compute; reflexivity).
  rewrite forallb_forall in Hall. specialize (Hall m).
  rewrite <- list_elem_of_In, elem_of_seqZ in Hall. specialize (Hall ltac:(lia)).
  rewrite forallb_forall in Hall. specialize (Hall k).
  rewrite <- list_elem_of_In, elem_of_seqZ in Hall. specialize (Hall ltac:(lia)).
  unfold ok in Hall. cbv zeta in Hall. split_bools. lia.
Qed.

(** What [encode_len] appends: a header byte of the major type and the length
    bytes, which [take_len] reads back. *)
Lemma encode_len_spec out m len :
  0 <= m <= 5 -> is_u64 len ->
  exists first tail,
    encode_len out m len = out ++ first :: tail /\
    Z.shiftr first 5 = m /\ 0 <= first < 192 /\
    forall rest, take_len first (tail ++ rest) = Ok (len, rest).
Proof.
  intros Hm Hlen. unfold is_u64, u64_max in Hlen. unfold encode_len.
  assert (Hmk : forall (k : Z) (tl : list Z), 0 <= k < 32 ->
    (forall first rest, Z.land first 31 = k -> take_len first (tl ++ rest) = Ok (len, rest)) ->
    exists first tail, out ++ Z.lor (Z.shiftl m 5) k :: tl = out ++ first :: tail /\
      Z.shiftr first 5 = m /\ 0 <= first < 192 /\
      forall rest, take_len first (tail ++ rest) = Ok (len, rest)).
  { intros k tl Hk Htake. pose proof (header_bits m k Hm Hk) as (H1 & H2 & H3).
    exists (Z.lor (Z.shiftl m 5) k), tl. repeat split; try done; try lia. auto. }
  assert (Hbe : forall n, 0 <= len < 2 ^ (8 * Z.of_nat n) -> forall rest,
    ((length (be_bytes n len ++ rest) <? n)%nat = false) /\
    be_value (take n (be_bytes n len ++ rest)) = len /\
    drop n (be_bytes n len ++ rest) = rest).
  { intros n Hn rest. rewrite length_app, be_bytes_length.
    rewrite take_app_length', drop_app_length' by (symmetry; apply be_bytes_length).
    repeat split; [apply Nat.ltb_ge; lia | by apply be_value_bytes_small]. }
  destruct (len <? 24) eqn:E1; [|destruct (len <=? u8_max) eqn:E2;
    [|destruct (len <=? u16_max) eqn:E3; [|destruct (len <=? u32_max) eqn:E4]]];
    unfold u8_max, u16_max, u32_max in *; split_bools.
  - apply Hmk; [lia|]. intros first rest Hf. unfold take_len. rewrite Hf.
    by rewrite (proj2 (Z.ltb_lt len 24)).
  - apply Hmk; [lia|]. intros first rest Hf. unfold take_len. by rewrite Hf.
  - apply Hmk; [lia|]. intros first rest Hf. unfold take_len. rewrite Hf.
    cbn [Z.ltb Z.compare Pos.compare Pos.compare_cont Z.eqb Pos.eqb].
    destruct (Hbe 2%nat ltac:(simpl; lia) rest) as (-> & -> & ->). done.
  - apply Hmk; [lia|]. intros first rest Hf. unfold take_len. rewrite Hf.
    cbn [Z.ltb Z.compare Pos.compare Pos.compare_cont Z.eqb Pos.eqb].
    destruct (Hbe 4%nat ltac:(simpl; lia) rest) as (-> & -> & ->). done.
  - apply Hmk; [lia|]. intros first rest Hf. unfold take_len. rewrite Hf.
    cbn [Z.ltb Z.compare Pos.compare Pos.compare_cont Z.eqb Pos.eqb].
    destruct (Hbe 8%nat ltac:(simpl; lia) rest) as (-> & -> & ->). done.
Qed.

Lemma encode_value_array out items d :
  encode_value out (Array items) d =
  if MAX_CBOR_DEPTH <? d then Err (CoreCbor "CBOR nesting exceeds depth bound") else
  for_each items (encode_len out 4 (Z.of_nat (length items)))
    (fun item out => encode_value out item (d + 1)).
Proof.
  simpl. destruct (_ <? _); [done|]. generalize (encode_len out 4 (Z.of_nat (length items))).
  induction items as [|x l IH]; intros o; [done|]. simpl.
  destruct (encode_value o x (d + 1)); simpl; [apply IH | done].
Qed.

Lemma encode_value_object out members d :
  encode_value out (Object members) d =
  if MAX_CBOR_DEPTH <? d then Err (CoreCbor "CBOR nesting exceeds depth bound") else
  for_each members (encode_len out 5 (Z.of_nat (length members)))
    (fun kv out => encode_value (encode_text out kv.1) kv.2 (d + 1)).
Proof.
  simpl. destruct (_ <? _); [done|]. generalize (encode_len out 5 (Z.of_nat (length members))).
  induction members as [|x l IH]; intros o; [done|]. simpl.
  destruct (encode_value (encode_text o x.1) x.2 (d + 1)); simpl; [apply IH | done].
Qed.

(** * Decoding what was encoded *)

(** Every negative integer of a value satisfies [Q]. *)
Fixpoint negatives (Q : Z -> Prop) (v : json) : Prop :=
  match v with
  | Number (NegInt z) => Q z
  | Array items => (fix go l := match l with [] => True | x :: l' => negatives Q x /\ go l' end) items
  | Object members =>
      (fix go l := match l with [] => True | kv :: l' => negatives Q kv.2 /\ go l' end) members
  | _ => True
  end.

Lemma negatives_array Q items : negatives Q (Array items) <-> Forall (negatives Q) items.
Proof. simpl. induction items as [|x l IH]; [done|]. by rewrite Forall_cons, <- IH. Qed.

Lemma negatives_object Q members :
  negatives Q (Object members) <-> Forall (fun kv => negatives Q kv.2) members.
Proof. simpl. induction members as [|x l IH]; [done|]. by rewrite Forall_cons, <- IH. Qed.

Lemma negatives_True v : negatives (fun _ => True) v.
Proof.
  induction v using json_ind'; try done.
  - by destruct n.
  - by apply negatives_array.
  - by apply negatives_object.
Qed.

Section RoundTrip.
Variable negative : Z -> result CoreError Z.
Variable Q : Z -> Prop.
Hypothesis negative_inverts : forall z, i64_min <= z < 0 -> Q z -> negative (Z.abs z - 1) = Ok z.

Let decode := decode_value_with negative.

(** The bytes [e] are an encoding of [v] that a decoder with [left] levels reads. *)
Definition encodes (left : nat) (v : json) (e : list Z) : Prop :=
  forall rest, decode left (e ++ rest) = Ok (v, rest).

Lemma decode_major left m first tail rest :
  0 <= first < 192 -> Z.shiftr first 5 = m ->
  decode (S left) (first :: tail ++ rest) =
    (if m =? 0 then
       '(len, r) ← take_len first (tail ++ rest); Ok (Number (number_from_u64 len), r)
     else if m =? 1 then
       '(n, r) ← take_len first (tail ++ rest);
       value ← negative n; Ok (Number (number_from_i64 value), r)
     else if m =? 3 then
       '(len, r) ← take_len first (tail ++ rest);
       if Z.of_nat (length r) <? len then Err (CoreCbor "truncated CBOR text")
       else text ← ok_or (from_utf8 (take (Z.to_nat len) r)) (CoreCbor "CBOR text is not UTF-8");
            Ok (String text, drop (Z.to_nat len) r)
     else if m =? 4 then
       '(len, r) ← take_len first (tail ++ rest);
       decode_items (decode left) (Z.to_nat len) r []
     else if m =? 5 then
       '(len, r) ← take_len first (tail ++ rest);
       decode_members (decode left) (Z.to_nat len) r [] None
     else Err (CoreCbor "unsupported CBOR type")).
Proof.
  intros Hf Hm. unfold decode at 1. cbn [decode_value_with].
  rewrite (proj2 (Z.eqb_neq first 0xf4)), (proj2 (Z.eqb_neq first 0xf5)),
    (proj2 (Z.eqb_neq first 0xf6)), (proj2 (Z.eqb_neq first 0xfb)) by lia.
  by rewrite Hm.
Qed.

Lemma encode_text_spec out s left :
  utf8 s -> str_len s <= u64_max ->
  exists e, encode_text out s = out ++ e /\ encodes (S left) (String s) e.
Proof.
  intros Hs Hl. pose proof (str_len_nonneg s) as Hnn. unfold encode_text.
  destruct (encode_len_spec out 3 (str_len s)) as (first & tail & -> & Hm & Hf & Htake);
    [lia | by split|].
  exists (first :: tail ++ bytes_of_string s). split.
  { by rewrite <- app_assoc. }
  intros rest. cbn [app]. rewrite <- app_assoc.
  rewrite (decode_major left 3) by done. cbn [Z.eqb Pos.eqb].
  rewrite Htake. cbn.
  pose proof (bytes_of_string_length s) as Hlen.
  rewrite (proj2 (Z.ltb_ge _ _)) by (rewrite length_app; lia).
  replace (Z.to_nat (str_len s)) with (length (bytes_of_string s)) by lia.
  rewrite take_app_length, drop_app_length, from_utf8_bytes by done. done.
Qed.

Lemma encode_number_spec out n out' left :
  wf_number n -> negatives Q (Number n) -> encode_number out n = Ok out' ->
  exists e, out' = out ++ e /\ encodes (S left) (Number n) e.
Proof.
  intros Hwf Hq He. destruct n as [u|z|bits]; unfold encode_number in He; cbn in He, Hwf, Hq.
  - destruct (encode_len_spec out 0 u) as (first & tail & Heq & Hm & Hf & Htake); [lia|done|].
    rewrite Heq in He. injection He as <-. exists (first :: tail). split; [done|].
    intros rest. cbn [app]. rewrite (decode_major left 0) by done. cbn. by rewrite Htake.
  - assert ((0 <=? z) = false) as Hz by (apply Z.leb_gt; lia). rewrite Hz in He.
    unfold i64_min in Hwf.
    destruct (encode_len_spec out 1 (Z.abs z - 1)) as (first & tail & Heq & Hm & Hf & Htake);
      [lia | unfold is_u64, u64_max; lia|].
    rewrite Heq in He. injection He as <-. exists (first :: tail). split; [done|].
    intros rest. cbn [app]. rewrite (decode_major left 1) by done. cbn [Z.eqb Pos.eqb].
    rewrite Htake. cbn. rewrite negative_inverts by (unfold i64_min; auto; lia). cbn.
    unfold number_from_i64. by rewrite (proj2 (Z.ltb_lt z 0)) by lia.
  - destruct Hwf as [Hb Hfin]. rewrite Hfin in He. cbn in He. injection He as <-.
    exists (0xfb :: be_bytes 8 bits). split; [done|]. intros rest.
    unfold decode. cbn [decode_value_with app Z.eqb Pos.eqb].
    rewrite length_app, be_bytes_length.
    rewrite (proj2 (Nat.ltb_ge _ _)) by lia.
    rewrite take_app_length', drop_app_length' by (symmetry; apply be_bytes_length).
    rewrite be_value_bytes_small by done. unfold number_from_f64. by rewrite Hfin.
Qed.

Lemma decode_items_spec left es items rest acc :
  Forall2 (encodes left) items es ->
  decode_items (decode left) (length items) (concat es ++ rest) acc
  = Ok (Array (acc ++ items), rest).
Proof.
  intros Hall. revert acc. induction Hall as [|x e items es Hx Hall IH]; intros acc; cbn.
  - by rewrite app_nil_r.
  - rewrite <- app_assoc, Hx. cbn. rewrite IH. by rewrite <- app_assoc.
Qed.

(** Items written one after another are read back one after another. *)
Lemma encode_items_spec left d (items : list json) out out' :
  Forall (fun x => forall o o', encode_value o x d = Ok o' ->
            exists e, o' = o ++ e /\ encodes left x e) items ->
  for_each items out (fun item out => encode_value out item d) = Ok out' ->
  exists es, out' = out ++ concat es /\ Forall2 (encodes left) items es.
Proof.
  intros Hall. revert out. induction Hall as [|x items Hx Hall IH]; intros out Hrun; simpl in Hrun.
  - injection Hrun as <-. exists []. by rewrite app_nil_r.
  - inv_ok. apply Hx in Ha as (e & -> & He). apply IH in Hrun as (es & -> & Hes).
    exists (e :: es). simpl. rewrite <- app_assoc. auto.
Qed.

Lemma decode_members_spec left es members rest acc last :
  Forall2 (fun kv e => exists ek ev, e = ek ++ ev /\
             encodes left (String kv.1) ek /\ encodes left kv.2 ev) members es ->
  bt_sorted (acc ++ members) ->
  match last with Some k => exists acc' v, acc = acc' ++ [(k, v)] | None => True end ->
  decode_members (decode left) (length members) (concat es ++ rest) acc last
  = Ok (Object (acc ++ members), rest).
Proof.
  intros Hall. revert acc last.
  induction Hall as [|[k v] e members es (ek & ev & -> & Hk & Hv) Hall IH];
    intros acc last Hs Hlast; cbn.
  - by rewrite app_nil_r.
  - rewrite <- !app_assoc, Hk. cbn.
    assert (Hlt : Forall (fun kv => cmp kv.1 k = Lt) acc).
    { apply StronglySorted_app in Hs as (Hs1 & _ & _).
      apply Forall_forall. intros x Hx. apply (Hs1 x (k, v)); [done | left]. }
    replace (match last with Some _ => _ | None => false end) with false.
    + rewrite Hv. cbn. rewrite bt_insert_last.
      * rewrite IH; [by rewrite <- app_assoc | by rewrite <- app_assoc | eauto].
      * by apply StronglySorted_app in Hs as (_ & Hs & _).
      * done.
    + destruct last as [k0|]; [|done]. destruct Hlast as (acc' & v0 & ->).
      rewrite Forall_app in Hlt. destruct Hlt as [_ Hlt]. inversion Hlt as [|?? Hc]; subst.
      simpl in Hc. apply cmp_gt_lt in Hc. by rewrite Hc.
Qed.

Lemma encode_members_spec left d members out out' :
  Forall (fun kv => (utf8 kv.1 /\ str_len kv.1 <= u64_max) /\
            forall o o', encode_value o kv.2 d = Ok o' ->
            exists e, o' = o ++ e /\ encodes (S left) kv.2 e) members ->
  for_each members out (fun kv out => encode_value (encode_text out kv.1) kv.2 d) = Ok out' ->
  exists es, out' = out ++ concat es /\
    Forall2 (fun kv e => exists ek ev, e = ek ++ ev /\
      encodes (S left) (String kv.1) ek /\ encodes (S left) kv.2 ev) members es.
Proof.
  intros Hall. revert out.
  induction Hall as [|[k v] members [[Hu Hl] Hx] Hall IH]; intros out Hrun; simpl in Hrun.
  - injection Hrun as <-. exists []. by rewrite app_nil_r.
  - inv_ok. simpl in *.
    destruct (encode_text_spec out k left Hu Hl) as (ek & Hek & Hk). rewrite Hek in Ha.
    apply Hx in Ha as (ev & -> & Hv). apply IH in Hrun as (es & -> & Hes).
    exists ((ek ++ ev) :: es). simpl. rewrite <- !app_assoc. split; [done|].
    constructor; [|done]. exists ek, ev. auto.
Qed.

Lemma encode_value_spec v : forall out d out' left,
  wf_json v -> negatives Q v -> 0 <= d -> left = Z.to_nat (MAX_CBOR_DEPTH + 1 - d) ->
  encode_value out v d = Ok out' ->
  exists e, out' = out ++ e /\ encodes left v e.
Proof.
  induction v as [|b|n|s|items IH|members IH] using json_ind';
    intros out d out' left Hwf Hq Hd Hleft He;
    (assert ((MAX_CBOR_DEPTH <? d) = false) as Hdep
      by (destruct (MAX_CBOR_DEPTH <? d) eqn:E; [|done];
          rewrite ?encode_value_array, ?encode_value_object in He; simpl in He;
          rewrite E in He; discriminate));
    assert (exists left', left = S left' /\ left' = Z.to_nat (MAX_CBOR_DEPTH + 1 - (d + 1)))
      as (left' & -> & Hleft')
      by (unfold MAX_CBOR_DEPTH in *; split_bools; eexists; split; [|reflexivity]; lia).
  1-4: simpl in He; rewrite Hdep in He.
  - injection He as <-. by exists [0xf6].
  - destruct b; injection He as <-; [by exists [0xf5] | by exists [0xf4]].
  - by apply encode_number_spec.
  - injection He as <-. destruct Hwf. by apply encode_text_spec.
  - rewrite encode_value_array, Hdep in He. apply wf_json_array in Hwf as [Hlen Hwf].
    apply negatives_array in Hq.
    destruct (encode_len_spec out 4 (Z.of_nat (length items)))
      as (first & tail & Heq & Hm & Hf & Htake); [lia | split; [lia|done]|].
    rewrite Heq in He.
    apply (encode_items_spec left') in He as (es & -> & Hes).
    + exists (first :: tail ++ concat es). split; [by rewrite <- app_assoc|].
      intros rest. cbn [app]. rewrite <- app_assoc, (decode_major left' 4) by done.
      cbn [Z.eqb Pos.eqb]. rewrite Htake. cbn. rewrite Nat2Z.id. by apply decode_items_spec.
    + rewrite Forall_forall in *. intros x Hx o o' Ho.
      apply (IH x Hx o (d + 1) o'); [by apply Hwf | by apply Hq | lia | done | done].
  - rewrite encode_value_object, Hdep in He. apply wf_json_object in Hwf as (Hlen & Hs & Hwf).
    apply negatives_object in Hq.
    destruct (encode_len_spec out 5 (Z.of_nat (length members)))
      as (first & tail & Heq & Hm & Hf & Htake); [lia | split; [lia|done]|].
    rewrite Heq in He. destruct members as [|kv0 members0] eqn:Emem.
    { simpl in He. injection He as <-. exists (first :: tail). split; [done|].
      intros rest. cbn [app]. rewrite (decode_major left' 5) by done.
      cbn [Z.eqb Pos.eqb]. rewrite Htake. done. }
    rewrite <- Emem in *.
    assert (exists left'', left' = S left'') as [left'' ->].
    { rewrite Emem in He. simpl in He. apply bind_Ok in He as (o & Ho & _).
      destruct (MAX_CBOR_DEPTH <? d + 1) eqn:E.
      - exfalso. destruct kv0.2; simpl in Ho; rewrite E in Ho; discriminate.
      - exists (Z.to_nat (MAX_CBOR_DEPTH - (d + 1))). unfold MAX_CBOR_DEPTH in *.
        split_bools. lia. }
    apply (encode_members_spec left'') in He as (es & -> & Hes).
    + exists (first :: tail ++ concat es). split; [by rewrite <- app_assoc|].
      intros rest. cbn [app]. rewrite <- app_assoc, (decode_major (S left'') 5) by done.
      cbn [Z.eqb Pos.eqb]. rewrite Htake. cbn [mbind result_bind]. rewrite Nat2Z.id.
      by apply (decode_members_spec (S left'') es members rest [] None).
    + rewrite Forall_forall in *. intros x Hx. specialize (Hwf x Hx) as [Hk Hv].
      split; [done|]. intros o o' Ho.
      apply (IH x Hx o (d + 1) o'); [done | by apply Hq | lia | done | done].
Qed.

Lemma encode_tree_decode v bytes :
  wf_json v -> negatives Q v -> encode_tree v = Ok bytes ->
  decode_with negative bytes = Ok v.
Proof.
  intros Hwf Hq He. unfold encode_tree in He. inv_ok. simplify_eq.
  apply (encode_value_spec v [] 0 _ (S (Z.to_nat MAX_CBOR_DEPTH))) in Ha
    as (e & -> & He); try done.
  unfold encodes, decode in He. specialize (He []). rewrite app_nil_r in He.
  unfold decode_with. cbn [app]. by rewrite He.
Qed.
End RoundTrip.

(** * The decoder only builds well-formed values *)

Section DecodeWf.
Variable negative : Z -> result CoreError Z.
Hypothesis negative_i64 : forall n value, 0 <= n -> negative n = Ok value -> is_i64 value.

(** A decoded value is well formed, uses at most [left - 1] levels, and at least
    one byte was consumed. *)
Definition decodes_well (left : nat) (decode : list Z -> result CoreError (json * list Z)) : Prop :=
  forall bytes v rest, Forall is_byte bytes -> decode bytes = Ok (v, rest) ->
  wf_json v /\ json_depth v < Z.of_nat left /\ Forall is_byte rest /\
  (length rest < length bytes)%nat.

Lemma take_len_wf first rest len rest' :
  Forall is_byte rest -> is_byte first -> take_len first rest = Ok (len, rest') ->
  is_u64 len /\ Forall is_byte rest' /\ (length rest' <= length rest)%nat.
Proof.
  intros Hr Hf. unfold take_len, is_u64, u64_max.
  assert (Hfix : forall n, (length rest <? n)%nat = false ->
    0 <= be_value (take n rest) < 2 ^ (8 * Z.of_nat n) /\ Forall is_byte (drop n rest) /\
    (length (drop n rest) <= length rest)%nat).
  { intros n Hn. apply Nat.ltb_ge in Hn. repeat split.
    1,2: pose proof (be_value_bound (take n rest) (Forall_take _ _ _ Hr)) as Hb;
         rewrite length_take_le in Hb by done; lia.
    - by apply Forall_drop.
    - rewrite length_drop. lia. }
  assert (0 <= Z.land first 31) by (apply Z.land_nonneg; lia).
  destruct (Z.land first 31 <? 24) eqn:E1; [intros [= <- <-]; split_bools; repeat split; auto; lia|].
  destruct (Z.land first 31 =? 24); [destruct rest as [|b rest0]; [done|]; intros [= <- <-];
    inversion Hr as [|?? Hb]; subst; unfold is_byte in Hb; simpl; repeat split; auto; lia|].
  destruct (Z.land first 31 =? 25); [|destruct (Z.land first 31 =? 26);
    [|destruct (Z.land first 31 =? 27); [|done]]];
    (destruct (length rest <? _)%nat eqn:E; [done|]; intros [= <- <-];
     apply Hfix in E as (Hb & Hd & Hl); simpl in Hb; repeat split; auto; lia).
Qed.

Lemma decode_items_wf left decode len bytes items v rest :
  decodes_well left decode -> Forall is_byte bytes -> Forall wf_json items ->
  Forall (fun x => json_depth x < Z.of_nat left) items ->
  Z.of_nat (length items + len) <= u64_max ->
  decode_items decode len bytes items = Ok (v, rest) ->
  wf_json v /\ json_depth v < Z.of_nat (S left) /\ Forall is_byte rest /\
  (length rest <= length bytes)%nat.
Proof.
  intros Hdec. revert bytes items. induction len as [|len IH]; intros bytes items Hb Hw Hd Hl; simpl.
  - intros [= <- <-]. split; [apply wf_json_array; split; [lia | done]|].
    split; [|done]. rewrite Nat2Z.inj_succ. apply json_depth_array; [lia | done].
  - intros Hrun. inv_ok. destruct a as [item next].
    apply Hdec in Ha as (Hw1 & Hd1 & Hb1 & Hl1); [|done].
    apply IH in Hrun as (? & ? & ? & ?); [| done | | | rewrite length_app; simpl; lia].
    + repeat split; try done; lia.
    + by apply Forall_app_2; [|constructor].
    + by apply Forall_app_2; [|constructor].
Qed.

(** [last] is an upper bound of the keys inserted so far. *)
Definition last_bounds (last : option string) (map : list (string * json)) : Prop :=
  match last with
  | None => map = []
  | Some k => Forall (fun kv => key_le kv.1 k) map
  end.

Lemma decode_members_wf left decode len bytes map last v rest :
  decodes_well left decode -> Forall is_byte bytes -> bt_sorted map ->
  last_bounds last map ->
  Forall (fun kv => (utf8 kv.1 /\ str_len kv.1 <= u64_max) /\ wf_json kv.2) map ->
  Forall (fun kv => json_depth kv.2 < Z.of_nat left) map ->
  Z.of_nat (length map + len) <= u64_max ->
  decode_members decode len bytes map last = Ok (v, rest) ->
  wf_json v /\ json_depth v < Z.of_nat (S left) /\ Forall is_byte rest /\
  (length rest <= length bytes)%nat.
Proof.
  intros Hdec. revert bytes map last.
  induction len as [|len IH]; intros bytes map last Hb Hs Hlast Hw Hd Hl; simpl.
  - intros [= <- <-]. split; [apply wf_json_object; split; [lia | done]|].
    split; [|done]. rewrite Nat2Z.inj_succ. apply json_depth_object; [lia | done].
  - intros Hrun. apply bind_Ok in Hrun as ([kv next] & Ha & Hrun).
    apply bind_Ok in Hrun as (key & Hkey & Hrun). apply ok_or_Ok in Hkey.
    destruct kv as [| | |key'| |]; simpl in Hkey; try done. injection Hkey as ->.
    destruct (match last with Some _ => _ | None => false end) eqn:Hcmp; [done|].
    apply bind_Ok in Hrun as ([item next2] & Ha0 & Hrun).
    apply Hdec in Ha as (Hw1 & _ & Hb1 & Hl1); [|done].
    apply Hdec in Ha0 as (Hw2 & Hd2 & Hb2 & Hl2); [|done].
    assert (Hlt : Forall (fun kv => cmp kv.1 key = Lt) map).
    { destruct last as [prev|]; simpl in Hlast; [|by subst].
      eapply Forall_impl; [exact Hlast|]. intros kv Hle. unfold key_le in Hle.
      destruct (cmp key prev) eqn:E; try done. apply cmp_gt_lt in E.
      destruct (cmp kv.1 prev) eqn:E2; try done.
      - apply cmp_eq in E2. by rewrite E2.
      - by apply (cmp_lt_trans _ prev). }
    rewrite bt_insert_last in Hrun by done.
    apply IH in Hrun as (? & ? & ? & ?); [repeat split; try done; lia| done | | | | |].
    + rewrite <- bt_insert_last by done. by apply bt_insert_sorted.
    + simpl. apply Forall_app_2.
      * eapply Forall_impl; [exact Hlt|]. intros kv Hkv. unfold key_le. congruence.
      * constructor; [|done]. unfold key_le. simpl. by rewrite cmp_refl.
    + by apply Forall_app_2; [|constructor].
    + by apply Forall_app_2; [|constructor].
    + rewrite length_app. simpl. lia.
Qed.

Lemma decode_value_wf left : decodes_well left (decode_value_with negative left).
Proof.
  induction left as [|left IH]; intros bytes v rest Hb Hrun; [done|].
  destruct bytes as [|first bytes]; [done|].
  inversion Hb as [|?? Hf Hb']; subst. cbn [decode_value_with] in Hrun.
  destruct (first =? 0xf4); [injection Hrun as <- <-; simpl; repeat split; auto; lia|].
  destruct (first =? 0xf5); [injection Hrun as <- <-; simpl; repeat split; auto; lia|].
  destruct (first =? 0xf6); [injection Hrun as <- <-; simpl; repeat split; auto; lia|].
  destruct (first =? 0xfb).
  { destruct (length bytes <? 8)%nat eqn:E; [done|]. apply Nat.ltb_ge in E. inv_ok.
    unfold number_from_f64 in Ha. destruct (f64_is_finite _) eqn:Ef; [|done].
    injection Ha as <-. injection Hrun as <- <-.
    pose proof (be_value_bound (take 8 bytes) (Forall_take _ _ _ Hb')) as Hv.
    rewrite length_take_le in Hv by done. simpl in Hv.
    cbn [wf_json wf_number json_depth]. rewrite Ef.
    repeat split; try lia; [by apply Forall_drop | rewrite length_drop; simpl; lia]. }
  repeat (match type of Hrun with (if ?b then _ else _) = _ => destruct b end);
    try done; apply bind_Ok in Hrun as ([len rest1] & Ht & Hrun);
    apply take_len_wf in Ht as (Hl & Hb1 & Hlen1); try done.
  - injection Hrun as <- <-. simpl. repeat split; auto; try lia; apply Hl.
  - inv_ok. injection Hrun as <- <-. destruct Hl.
    apply negative_i64 in Ha; [|done]. unfold is_i64, i64_min, i64_max in Ha.
    unfold number_from_i64. destruct (a <? 0) eqn:E; split_bools; simpl;
      unfold is_u64, u64_max, i64_min; repeat split; auto; lia.
  - destruct (_ <? _) eqn:E; [done|]. split_bools. inv_ok. injection Hrun as <- <-.
    apply from_utf8_utf8 in Ha as [Hu Hbytes]; [|by apply Forall_take].
    cbn [wf_json json_depth]. unfold is_u64 in Hl.
    pose proof (bytes_of_string_length a) as Hsl. rewrite Hbytes, length_take_le in Hsl by lia.
    repeat split; try done; try lia; [by apply Forall_drop | rewrite length_drop; simpl; lia].
  - unfold is_u64 in Hl.
    apply (decode_items_wf left) in Hrun as (? & ? & ? & ?); try done; [|simpl; lia].
    repeat split; try done; simpl; lia.
  - unfold is_u64 in Hl.
    apply (decode_members_wf left) in Hrun as (? & ? & ? & ?); try done; [| constructor | simpl; lia].
    repeat split; try done; simpl; lia.
Qed.
End DecodeWf.

Lemma decode_negative_i64 n value : 0 <= n -> decode_negative n = Ok value -> is_i64 value.
Proof.
  intros Hn. unfold decode_negative, is_i64. destruct (i64_max <? n) eqn:E; [done|].
  destruct (_ || _) eqn:E2; [done|]. intros [= <-]. unfold i64_min, i64_max in *. split_bools. lia.
Qed.

Lemma rfc_negative_inverts z : i64_min <= z < 0 -> rfc_negative (Z.abs z - 1) = Ok z.
Proof.
  intros Hz. unfold rfc_negative, i64_min, i64_max in *.
  rewrite (proj2 (Z.ltb_ge _ _)) by lia. f_equal. lia.
Qed.

Lemma decode_negative_minus_one z :
  i64_min <= z < 0 -> z = -1 -> decode_negative (Z.abs z - 1) = Ok z.
Proof. by intros _ ->. Qed.

(** The canonical preimage determines the value: used wherever a digest or a
    signature is computed over canonical CBOR. *)
Lemma encode_tree_inj v1 v2 bytes :
  wf_json v1 -> wf_json v2 -> encode_tree v1 = Ok bytes -> encode_tree v2 = Ok bytes -> v1 = v2.
Proof.
  intros H1 H2 E1 E2.
  apply (encode_tree_decode rfc_negative (fun _ => True)) in E1;
    [|auto using rfc_negative_inverts | done | apply negatives_True].
  apply (encode_tree_decode rfc_negative (fun _ => True)) in E2;
    [|auto using rfc_negative_inverts | done | apply negatives_True].
  congruence.
Qed.

(** * Properties *)

(** C40: what the encoder writes, the decoder reads back unchanged, for every
    well-formed value within the depth and frame bounds whose negative integers
    are all -1 (see [cbor_negative_misread] for the others). *)
Theorem cbor_roundtrip v bytes :
  wf_json v -> negatives (fun z => z = -1) v -> encode_tree v = Ok bytes ->
  decode_to_json bytes = Ok v.
Proof.
  intros Hwf Hneg. apply encode_tree_decode with (Q := fun z => z = -1); [|done..].
  apply decode_negative_minus_one.
Qed.

Example cbor_roundtrip_witness :
  exists bytes, encode_tree (Object [("a", Array [Number (NegInt (-1)); Null])]) = Ok bytes /\
  decode_to_json bytes = Ok (Object [("a", Array [Number (NegInt (-1)); Null])]).
Proof.
  eexists. split; [vm_compute; reflexivity|].
  apply cbor_roundtrip; [|simpl; tauto | vm_compute; reflexivity].
  apply wf_json_object. split; [unfold u64_max; simpl; lia|]. split; [repeat constructor|].
  apply Forall_singleton. split; [split; vm_compute; [reflexivity | discriminate]|].
  apply wf_json_array. split; [unfold u64_max; simpl; lia|].
  repeat apply Forall_cons_2; [|exact I | apply Forall_nil_2].
  simpl. unfold i64_min. lia.
Defined.

(** the canonical encoding is injective on well-formed values, so a digest or
    signature over the encoded bytes binds exactly one value. *)
Theorem cbor_injective v1 v2 bytes :
  wf_json v1 -> wf_json v2 -> encode_tree v1 = Ok bytes -> encode_tree v2 = Ok bytes -> v1 = v2.
Proof. apply encode_tree_inj. Qed.

Example cbor_injective_witness :
  wf_json (Number (NegInt (-5))) /\ Number (NegInt (-5)) = Number (NegInt (-5)).
Proof.
  assert (wf_json (Number (NegInt (-5)))) by (simpl; unfold i64_min; lia).
  split; [done|]. by apply (cbor_injective _ _ [0x24]).
Defined.

(** the decoder reads every encoded negative integer below -1 as a different,
    non-negative number: [-2] comes back as [0], [-3] as [1], and so on. *)
Theorem cbor_negative_misread z :
  i64_min <= z < -1 ->
  exists bytes, encode_tree (Number (NegInt z)) = Ok bytes /\
                decode_to_json bytes = Ok (Number (PosInt (- z - 2))).
Proof.
  intros Hz. unfold i64_min in Hz.
  destruct (encode_len_spec [] 1 (Z.abs z - 1)) as (first & tail & Heq & Hm & Hf & Htake);
    [lia | unfold is_u64, u64_max; lia|].
  assert (He : encode_value [] (Number (NegInt z)) 0 = Ok (first :: tail)).
  { cbn. rewrite (proj2 (Z.leb_gt 0 z)) by lia. by rewrite Heq. }
  assert (Hlen : (length (first :: tail) <= 9)%nat).
  { cbn [app] in Heq. rewrite <- Heq. unfold encode_len.
    repeat destruct (_ <? _); repeat destruct (_ <=? _);
      rewrite ?length_app, ?be_bytes_length; simpl; lia. }
  exists (first :: tail). split.
  - unfold encode_tree. rewrite He. cbn [mbind result_bind]. unfold MAX_FRAME_BYTES.
    by rewrite (proj2 (Z.ltb_ge _ _)) by lia.
  - unfold decode_to_json, decode_with.
    pose proof (decode_major decode_negative (Z.to_nat MAX_CBOR_DEPTH) 1 first tail [] Hf Hm) as Hd.
    rewrite app_nil_r in Hd. rewrite Hd. cbn [Z.eqb Pos.eqb].
    specialize (Htake []). rewrite app_nil_r in Htake. rewrite Htake. cbn [mbind result_bind].
    unfold decode_negative, i64_max, i64_min.
    rewrite (proj2 (Z.ltb_ge _ _)) by lia. rewrite (proj2 (orb_false_iff _ _)) by (split; lia).
    cbn [mbind result_bind]. unfold number_from_i64.
    rewrite (proj2 (Z.ltb_ge _ _)) by lia. do 3 f_equal. lia.
Qed.

Example cbor_negative_misread_witness :
  exists bytes, encode_tree (Number (NegInt (-2))) = Ok bytes /\
                decode_to_json bytes = Ok (Number (PosInt 0)).
Proof. apply (cbor_negative_misread (-2)). unfold i64_min. lia. Defined.

(** Every value the decoder accepts is well formed (strict key order, valid
    UTF-8, numbers in range, finite doubles) and nested at most 16 levels. *)
Theorem cbor_decode_wf bytes v :
  Forall is_byte bytes -> decode_to_json bytes = Ok v ->
  wf_json v /\ json_depth v <= MAX_CBOR_DEPTH.
Proof.
  intros Hb Hrun. unfold decode_to_json, decode_with in Hrun.
  apply bind_Ok in Hrun as ([w rest] & Hd & Hrun). destruct rest; [|done]. injection Hrun as <-.
  apply (decode_value_wf _ decode_negative_i64) in Hd as (Hw & Hdep & _); [|done].
  unfold MAX_CBOR_DEPTH in *. split; [done | lia].
Qed.

Example cbor_decode_wf_witness :
  wf_json (Array [Number (PosInt 3)]) /\ json_depth (Array [Number (PosInt 3)]) <= MAX_CBOR_DEPTH.
Proof.
  apply (cbor_decode_wf [0x81; 0x03]); [|reflexivity].
  repeat (apply Forall_cons; split; [unfold is_byte; lia|]). apply Forall_nil. exact I.
Defined.

(** The decoder also accepts lengths that are not in their shortest form, so
    accepted bytes need not be canonical: one value has several accepted encodings,
    of which the encoder produces only the first. *)
Theorem cbor_accepts_noncanonical n :
  0 <= n < 24 ->
  encode_tree (Number (PosInt n)) = Ok [n] /\
  decode_to_json [n] = Ok (Number (PosInt n)) /\
  decode_to_json [0x18; n] = Ok (Number (PosInt n)) /\
  decode_to_json [0x19; 0; n] = Ok (Number (PosInt n)).
Proof.
  intros Hn.
  set (ok := fun n => bool_decide (encode_tree (Number (PosInt n)) = Ok [n]) &&
    match decode_to_json [n], decode_to_json [0x18; n], decode_to_json [0x19; 0; n] with
    | Ok (Number (PosInt a)), Ok (Number (PosInt b)), Ok (Number (PosInt c)) =>
        (a =? n) && (b =? n) && (c =? n)
    | _, _, _ => false
    end).
  assert (forallb ok (seqZ 0 24) = true) as Hall by (vm_compute; reflexivity).
  rewrite forallb_forall in Hall. specialize (Hall n).
  rewrite <- list_elem_of_In, elem_of_seqZ in Hall. specialize (Hall ltac:(lia)).
  unfold ok in Hall. apply andb_true_iff in Hall as [H1 H2].
  apply bool_decide_eq_true in H1. split; [done|].
  repeat case_match; try done. split_bools. by subst.
Qed.

Example cbor_accepts_noncanonical_witness :
  decode_to_json [0x18; 1] = Ok (Number (PosInt 1)).
Proof. apply (cbor_accepts_noncanonical 1). lia. Defined.
