(* ===== verification/Model.v ===== *)
(** src/model.rs: errors and refusal codes, grammars, transitions, candidates and
    fragment contents.  [Fsm] is the abstract specification shared by the
    synthesizer, the checker and the sandbox: a finite-state machine as a partial
    step function, and what it means for it to meet a piece of evidence. *)
From S2P Require Import Prelude.

(** The payloads of [Io] and [Json] are the wrapped errors' texts. *)
Inductive Error :=
| InvalidRegistry (message : string)
| InvalidEvidence (message : string)
| InsufficientEvidence (message : string)
| ContradictoryEvidence (message : string)
| ArtifactPresent (message : string)
| SearchExhausted (message : string)
| CheckerRejected (message : string)
| ExternalStateUncertain (message : string)
| Io (error : string)
| Json (error : string).

#[export] Instance Error_eq_dec : EqDecision Error.
Proof. solve_decision. Defined.

(** [Display for Error] *)
Definition fmt (self : Error) : string :=
  match self with
  | InvalidRegistry message | InvalidEvidence message | InsufficientEvidence message
  | ContradictoryEvidence message | ArtifactPresent message | SearchExhausted message
  | CheckerRejected message | ExternalStateUncertain message => message
  | Io error => "I/O error: " +:+ error
  | Json error => "JSON error: " +:+ error
  end.

Module RefusalCode.
Inductive RefusalCode :=
| InvalidRegistry
| InvalidEvidence
| InsufficientEvidence
| ContradictoryEvidence
| ArtifactPresent
| SearchExhausted
| CheckerRejected
| InternalError.

#[global] Instance RefusalCode_eq_dec : EqDecision RefusalCode.
Proof. solve_decision. Defined.
End RefusalCode.

Definition refusal_code (self : Error) : RefusalCode.RefusalCode :=
  match self with
  | InvalidRegistry _ | Io _ | Json _ | ExternalStateUncertain _ => RefusalCode.InvalidRegistry
  | InvalidEvidence _ => RefusalCode.InvalidEvidence
  | InsufficientEvidence _ => RefusalCode.InsufficientEvidence
  | ContradictoryEvidence _ => RefusalCode.ContradictoryEvidence
  | ArtifactPresent _ => RefusalCode.ArtifactPresent
  | SearchExhausted _ => RefusalCode.SearchExhausted
  | CheckerRejected _ => RefusalCode.CheckerRejected
  end.

Definition validate_symbols (name : string) (values : list string) : result Error () :=
  if bool_decide (values = []) || any str_is_empty values then
    Err (InvalidRegistry (name +:+ " must contain non-empty symbols"))
  else if negb (vec_len (set_from_list values) =? vec_len values) then
    Err (InvalidRegistry (name +:+ " contains duplicate symbols"))
  else if any (fun value => 256 <? str_len value) values then
    Err (InvalidRegistry (name +:+ " contains a symbol longer than 256 bytes"))
  else Ok ().

(** A symbol list that passes validation. *)
Definition symbols_ok (values : list string) : Prop :=
  values <> [] /\ NoDup values /\ Forall (fun v => 0 < str_len v <= 256) values.

Lemma validate_symbols_ok name values :
  validate_symbols name values = Ok () <-> symbols_ok values.
Proof.
  unfold validate_symbols, symbols_ok, str_is_empty. split.
  - intros H. inv_ok. split_bools.
    rewrite any_false in *. apply set_from_list_length in Hb0.
    split; [done|]. split; [done|].
    apply Forall_forall. intros v Hv. rewrite Forall_forall in *.
    match goal with H1 : forall x, x ∈ values -> (str_len x =? 0) = false |- _ => specialize (H1 v Hv) end.
    specialize (Hb1 v Hv). pose proof (str_len_nonneg v). split_bools. lia.
  - intros (Hne & Hnd & Hall). rewrite bool_decide_eq_false_2 by done.
    rewrite (proj2 (any_false _ _)).
    2:{ eapply Forall_impl; [exact Hall|]. intros v Hv. simpl in *. by apply Z.eqb_neq; lia. }
    rewrite (proj2 (set_from_list_length _) Hnd), Z.eqb_refl. simpl.
    rewrite (proj2 (any_false _ _)); [done|].
    eapply Forall_impl; [exact Hall|]. intros v Hv. simpl in *. apply Z.ltb_ge; lia.
Qed.

Module Grammar.
Record Grammar := {
  version : string;
  inputs : list string;
  outputs : list string;
  states : list string;
  initial_state : string;
  max_candidates : Z;
}.

#[global] Instance Grammar_eq_dec : EqDecision Grammar.
Proof. solve_decision. Defined.

Definition validate (self : Grammar) : result Error () :=
  _ ← validate_symbols "inputs" (inputs self);
  _ ← validate_symbols "outputs" (outputs self);
  _ ← validate_symbols "states" (states self);
  if (64 <? vec_len (inputs self)) || (64 <? vec_len (outputs self))
     || (64 <? vec_len (states self))
  then Err (InvalidRegistry "grammar symbol domains exceed the fsm-v1 maximum of 64") else
  cells ← ok_or (let c := vec_len (states self) * vec_len (inputs self) in
                 if c <=? u64_max then Some c else None)
            (InvalidRegistry "grammar cell count overflow");
  if 256 <? cells then Err (InvalidRegistry "grammar transition table exceeds 256 cells") else
  if str_is_empty (version self) then Err (InvalidRegistry "grammar version is empty") else
  if negb (contains (initial_state self) (states self)) then
    Err (InvalidRegistry "initial state is not declared") else
  if negb ((1 <=? max_candidates self) && (max_candidates self <=? 1000000)) then
    Err (InvalidRegistry "max_candidates must be between 1 and 1000000")
  else Ok ().

Definition ok (g : Grammar) : Prop :=
  (symbols_ok (inputs g) /\ vec_len (inputs g) <= 64) /\
  (symbols_ok (outputs g) /\ vec_len (outputs g) <= 64) /\
  (symbols_ok (states g) /\ vec_len (states g) <= 64) /\
  vec_len (states g) * vec_len (inputs g) <= 256 /\
  0 < str_len (version g) /\
  initial_state g ∈ states g /\
  1 <= max_candidates g <= 1000000.

Lemma grammar_validate_ok g : validate g = Ok () <-> ok g.
Proof.
  unfold validate, ok. split.
  - intros H.
    apply bind_Ok in H as ([] & Hi%validate_symbols_ok & H).
    apply bind_Ok in H as ([] & Ho%validate_symbols_ok & H).
    apply bind_Ok in H as ([] & Hs%validate_symbols_ok & H).
    inv_ok. unfold str_is_empty in *. pose proof (str_len_nonneg (version g)).
    destruct (_ <=? u64_max); [|done]. simplify_eq. split_bools.
    apply contains_true in Hb2. split_and!; try done; lia.
  - intros ((Hi & Hi64) & (Ho & Ho64) & (Hs & Hs64) & Hc & Hv & Hin & Hm).
    rewrite !(proj2 (validate_symbols_ok _ _)) by done. cbn [mbind result_bind].
    unfold str_is_empty, u64_max. rewrite (proj2 (contains_true _ _)) by done.
    eval_tests. cbn [orb mbind result_bind ok_or]. eval_tests. done.
Qed.
End Grammar.

Module Transition.
Record Transition := {
  state : string;
  input : string;
  next_state : string;
  output : string;
}.

#[global] Instance Transition_eq_dec : EqDecision Transition.
Proof. solve_decision. Defined.

Definition validate (self : Transition) (grammar : Grammar.Grammar) : result Error () :=
  if negb (contains (state self) (Grammar.states grammar))
     || negb (contains (next_state self) (Grammar.states grammar))
  then Err (InvalidEvidence "transition contains an unknown state") else
  if negb (contains (input self) (Grammar.inputs grammar))
     || negb (contains (output self) (Grammar.outputs grammar))
  then Err (InvalidEvidence "transition contains an unknown input or output")
  else Ok ().

(** The cell of the table it fills, and what it puts there. *)
Definition key (t : Transition) : string * string := (state t, input t).
Definition effect (t : Transition) : string * string := (next_state t, output t).

Definition ok (g : Grammar.Grammar) (t : Transition) : Prop :=
  state t ∈ Grammar.states g /\ next_state t ∈ Grammar.states g /\
  input t ∈ Grammar.inputs g /\ output t ∈ Grammar.outputs g.

Lemma transition_validate_ok g t : validate t g = Ok () <-> ok g t.
Proof.
  unfold validate, ok, contains. repeat case_bool_decide; simpl; split; intros; try done; tauto.
Qed.
End Transition.

Module Candidate.
Record Candidate := {
  component : string;
  interface_version : string;
  grammar : Grammar.Grammar;
  transitions : list Transition.Transition;
}.

#[global] Instance Candidate_eq_dec : EqDecision Candidate.
Proof. solve_decision. Defined.
End Candidate.

Inductive TraceRole := Training | HeldOut.

#[export] Instance TraceRole_eq_dec : EqDecision TraceRole.
Proof. solve_decision. Defined.

Module FragmentContent.
Inductive FragmentContent :=
| Transition (state input next_state output : string)
| StatePolicy (states : list string) (initial_state : string)
| Trace (role : TraceRole) (initial_state : string) (inputs outputs : list string)
| NegativeCase (initial_state : string) (inputs forbidden_outputs : list string)
| MetamorphicProperty (initial_state input : string) (repetitions : Z).

#[global] Instance FragmentContent_eq_dec : EqDecision FragmentContent.
Proof. solve_decision. Defined.

Definition transition (self : FragmentContent) : option Transition.Transition :=
  match self with
  | Transition state input next_state output =>
      Some {| Transition.state := state; Transition.input := input;
              Transition.next_state := next_state; Transition.output := output |}
  | _ => None
  end.
End FragmentContent.

(** The cells and the choices of a grammar: [flat_map] of two vectors into pairs. *)
Definition pairs (xs ys : list string) : list (string * string) :=
  xs ≫= fun x => (fun y => (x, y)) <$> ys.

Lemma elem_of_pairs xs ys x y : (x, y) ∈ pairs xs ys <-> x ∈ xs /\ y ∈ ys.
Proof.
  unfold pairs. rewrite list_elem_of_bind. split.
  - intros (x' & (y' & [= -> ->] & Hy)%list_elem_of_fmap & Hx). done.
  - intros [Hx Hy]. exists x. split; [|done]. apply list_elem_of_fmap. eauto.
Qed.

Lemma pairs_length xs ys : length (pairs xs ys) = (length xs * length ys)%nat.
Proof.
  unfold pairs. induction xs as [|x xs IH]; [done|].
  rewrite bind_cons, length_app, length_fmap, IH. simpl. lia.
Qed.

Lemma pairs_NoDup xs ys : NoDup xs -> NoDup ys -> NoDup (pairs xs ys).
Proof.
  intros Hx Hy. induction Hx as [|x xs Hni Hx IH]; [constructor|].
  unfold pairs. rewrite bind_cons. apply NoDup_app. split; [|split; [|exact IH]].
  - by apply NoDup_fmap_2; [intros ? ? [=]|].
  - intros p (y & -> & _)%list_elem_of_fmap Hin. apply Hni.
    by apply elem_of_pairs in Hin as [? _].
Qed.

(** * The specification: machines and the evidence they meet *)
Module Fsm.
(** [None]: no such cell. *)
Definition machine : Type := string -> string -> option (string * string).

Fixpoint run (d : machine) (s : string) (inputs : list string) : option (list string) :=
  match inputs with
  | [] => Some []
  | i :: rest => '(s', o) ← d s i; outs ← run d s' rest; Some (o :: outs)
  end.

(** One more [input] after the first changes neither state nor output. *)
Definition stable (d : machine) (s i : string) : Prop :=
  exists s' o, d s i = Some (s', o) /\ d s' i = Some (s', o).

Definition meets (d : machine) (g : Grammar.Grammar) (c : FragmentContent.FragmentContent) : Prop :=
  match c with
  | FragmentContent.Transition s i s' o => d s i = Some (s', o)
  | FragmentContent.StatePolicy states init =>
      states = Grammar.states g /\ init = Grammar.initial_state g
  | FragmentContent.Trace _ s ins outs => run d s ins = Some outs
  | FragmentContent.NegativeCase s ins bad => exists outs, run d s ins = Some outs /\ outs <> bad
  | FragmentContent.MetamorphicProperty s i n => 2 <= n /\ stable d s i
  end.

(** Total and closed over the declared symbols. *)
Definition total (d : machine) (g : Grammar.Grammar) : Prop :=
  forall s i, s ∈ Grammar.states g -> i ∈ Grammar.inputs g ->
    exists s' o, d s i = Some (s', o) /\ s' ∈ Grammar.states g /\ o ∈ Grammar.outputs g.

(** ... and defined nowhere else. *)
Definition confined (d : machine) (g : Grammar.Grammar) : Prop :=
  forall s i r, d s i = Some r -> s ∈ Grammar.states g /\ i ∈ Grammar.inputs g.

Definition implements (d : machine) (g : Grammar.Grammar) : Prop := total d g /\ confined d g.

(** The machine of a list of transitions: the last one for a cell counts. *)
Definition of_transitions (ts : list Transition.Transition) : machine := fun s i =>
  bt_get (s, i) (bt_from_list ((fun t => (Transition.key t, Transition.effect t)) <$> ts)).

Lemma run_length d s ins outs : run d s ins = Some outs -> length outs = length ins.
Proof.
  revert s outs. induction ins as [|i ins IH]; intros s outs; simpl; [by intros [= <-]|].
  destruct (d s i) as [[s' o]|]; simpl; [|done].
  destruct (run d s' ins) eqn:E; simpl; [|done]. intros [= <-]. simpl. f_equal. by eapply IH.
Qed.

Lemma run_total d g s ins :
  total d g -> s ∈ Grammar.states g -> Forall (fun i => i ∈ Grammar.inputs g) ins ->
  exists outs, run d s ins = Some outs.
Proof.
  intros Ht Hs Hins. revert s Hs. induction Hins as [|i ins Hi _ IH]; intros s Hs; simpl; [eauto|].
  destruct (Ht s i Hs Hi) as (s' & o & -> & Hs' & _). simpl.
  destruct (IH s' Hs') as [outs ->]. simpl. eauto.
Qed.

Lemma run_ext d d' s ins : (forall s i, d s i = d' s i) -> run d s ins = run d' s ins.
Proof.
  intros Hext. revert s. induction ins as [|i ins IH]; intros s; simpl; [done|].
  rewrite Hext. destruct (d' s i) as [[s' o]|]; simpl; [|done]. by rewrite IH.
Qed.

Lemma implements_ext d d' g :
  (forall s i, d s i = d' s i) -> implements d g -> implements d' g.
Proof.
  intros Hext [Ht Hc]. split.
  - intros s i Hs Hi. destruct (Ht s i Hs Hi) as (s' & o & Hd & Hr). exists s', o.
    by rewrite <- Hext.
  - intros s i r Hr. apply (Hc s i r). by rewrite Hext.
Qed.

(** Evidence is about the machine, not about how it is written down. *)
Lemma meets_ext d d' g c : (forall s i, d s i = d' s i) -> meets d g c -> meets d' g c.
Proof.
  intros Hext. destruct c as [s i s' o|sts init|r s ins outs|s ins bad|s i n]; simpl.
  - by rewrite Hext.
  - done.
  - by rewrite (run_ext d d').
  - by setoid_rewrite (run_ext d d').
  - intros [Hn (s' & o & H1 & H2)]. split; [done|]. exists s', o. by rewrite <- !Hext.
Qed.

(** With distinct cells, the machine is exactly the list read as a relation. *)
Lemma of_transitions_spec ts s i s' o :
  NoDup (Transition.key <$> ts) ->
  of_transitions ts s i = Some (s', o) <->
  {| Transition.state := s; Transition.input := i;
     Transition.next_state := s'; Transition.output := o |} ∈ ts.
Proof.
  intros Hnd. unfold of_transitions. rewrite bt_from_list_get.
  2:{ by rewrite <- list_fmap_compose. }
  rewrite list_elem_of_fmap. split.
  - intros ([] & Heq & Hin). unfold Transition.key, Transition.effect in Heq.
    simpl in Heq. by simplify_eq.
  - intros Hin. eexists. by split; [|exact Hin].
Qed.

Lemma of_transitions_None ts s i :
  of_transitions ts s i = None <-> (s, i) ∉ Transition.key <$> ts.
Proof.
  unfold of_transitions. by rewrite bt_from_list_None, <- list_fmap_compose.
Qed.

(** Valid transitions with distinct cells, one per cell, are a total machine. *)
Lemma of_transitions_implements g ts :
  Grammar.ok g -> Forall (Transition.ok g) ts -> NoDup (Transition.key <$> ts) ->
  vec_len ts = vec_len (Grammar.states g) * vec_len (Grammar.inputs g) ->
  implements (of_transitions ts) g.
Proof.
  intros (((_ & Hi & _) & _) & _ & ((_ & Hs & _) & _) & _) Hok Hnd Hlen.
  rewrite Forall_forall in Hok.
  assert (Hsub : Transition.key <$> ts ⊆+ pairs (Grammar.states g) (Grammar.inputs g)).
  { apply NoDup_submseteq; [done|]. intros k (t & -> & Ht)%list_elem_of_fmap.
    destruct (Hok _ Ht) as (? & _ & ? & _). by apply elem_of_pairs. }
  apply submseteq_length_Permutation in Hsub.
  2:{ rewrite length_fmap, pairs_length. unfold vec_len in Hlen. lia. }
  split.
  - intros s i Hs' Hi'. assert (Hin : (s, i) ∈ Transition.key <$> ts)
      by (rewrite Hsub; by apply elem_of_pairs).
    apply list_elem_of_fmap in Hin as ([s0 i0 s' o] & [= -> ->] & Hin).
    exists s', o. split; [by apply of_transitions_spec|].
    by destruct (Hok _ Hin) as (_ & ? & _ & ?).
  - intros s i r Hr. apply elem_of_pairs. rewrite <- Hsub.
    destruct (decide ((s, i) ∈ Transition.key <$> ts)) as [|Hni]; [done|].
    apply of_transitions_None in Hni. congruence.
Qed.
End Fsm.
