(* ===== verification/Canonical.v ===== *)
(** src/canonical.rs: canonical JSON bytes and digests with the control plane's errors. *)
From stdpp Require Import pretty.
From S2P Require Import Prelude External Json Core Model.

(** The text of a [serde_json] error: the crate's. *)
Class SerdeErrorText := serde_error_text : string.

(** The [Display] of core errors, as their [#[error]] attributes give it. *)
Definition id_error_fmt (error : IdError) : string :=
  match error with
  | NotUuidV7 => "identifier must be UUIDv7"
  | TextBound limit => "bounded text must be non-empty and at most " +:+ pretty limit +:+ " bytes"
  end.

Definition core_error_fmt `{SerdeErrorText} (error : CoreError) : string :=
  match error with
  | CoreJson => "canonical JSON encoding failed: " +:+ serde_error_text
  | CoreCbor message => message
  | CoreId e => id_error_fmt e
  | InvalidDigest => "digest must be 32-byte lowercase hex"
  | CoreBound => "input exceeded a configured bound"
  | CoreBudget => "budget exhausted"
  end.

Definition map_core `{SerdeErrorText} (error : CoreError) : Error :=
  match error with
  | CoreJson => Model.Json serde_error_text
  | other => InvalidEvidence (core_error_fmt other)
  end.

Section Canonical.
Context `{SerdeErrorText, JsonText, Sha256, Hex}.

Definition encode `{!ToValue T} (value : T) : result Error (list Z) :=
  map_err map_core (encode_json value).

Definition digest `{!ToValue T} (value : T) : result Error string :=
  map_err map_core (digest_hex value).

Definition bytes_digest (value : list Z) : string := Core.bytes_digest value.

(** The digest of a value is that of its bytes. *)
Lemma digest_encode `{!ToValue T} (value : T) :
  digest value = (bytes ← encode value; Ok (bytes_digest bytes)).
Proof. unfold digest, encode, digest_hex. by destruct (encode_json value). Qed.

Lemma encode_Ok `{!ToValue T} (x : T) bytes :
  encode x = Ok bytes <-> exists v, to_value x = Some v /\ bytes = json_to_vec v.
Proof.
  unfold encode, encode_json. destruct (to_value x) as [v|]; simpl.
  - split; [intros [= <-]; eauto|]. by intros (? & [= <-] & ->).
  - split; [done|]. by intros (? & ? & _).
Qed.

Lemma from_slice_encode `{!ToValue T, !FromSlice T, !SerdeLaws T} (x : T) bytes :
  encode x = Ok bytes -> from_slice bytes = Some x.
Proof. intros (v & Hv & ->)%encode_Ok. by apply from_slice_to_vec. Qed.

Lemma digest_bytes `{!ToValue T} (x : T) d :
  digest x = Ok d -> exists bytes, encode x = Ok bytes /\ d = bytes_digest bytes.
Proof. rewrite digest_encode. intros Hd. inv_ok. injection Hd as <-. eauto. Qed.

(** Digests are 64 hexadecimal digits. *)
Lemma bytes_digest_hex `{!Sha256Laws, !HexLaws} bytes :
  str_len (bytes_digest bytes) = 64 /\ is_Some (hex_decode (bytes_digest bytes)).
Proof.
  unfold bytes_digest, Core.bytes_digest. split.
  - rewrite hex_encode_length, sha256_length. done.
  - rewrite hex_decode_encode by apply sha256_bytes. by eexists.
Qed.
End Canonical.
