(* ===== verification/Synthesizer.v ===== *)
(** src/synthesizer.rs: the exhaustive search of grammar version fsm-v1, the
    direct construction of fsm-v0, and the evaluation of evidence on a candidate
    table.  The search is related to [scan], a single pass over the explicit list
    of all candidate tables. *)
From S2P Require Import Prelude Model.
Import Model.

(** * Evaluation *)

(** [BTreeMap<(&str, &str), (&str, &str)>] *)
Definition table : Type := btree_map (string * string) (string * string).

Definition execute (t : table) (initial_state : string) (inputs : list string)
  : result Error (list string) :=
  st ← for_each inputs (initial_state, []) (fun input st =>
    cell ← ok_or (bt_get (st.1, input) t) (InvalidEvidence "trace uses an unknown symbol");
    Ok (cell.1, st.2 ++ [cell.2]));
  Ok st.2.

(** The loop [for _ in 1..repetitions]. *)
Fixpoint idempotent_loop (t : table) (stable : string * string) (state input : string) (n : nat)
  : result Error bool :=
  match n with
  | O => Ok true
  | S n' =>
      cell ← ok_or (bt_get (state, input) t) (InvalidEvidence "property uses an unknown symbol");
      if negb (bool_decide (cell.1 = stable.1)) || negb (bool_decide (cell.2 = stable.2))
      then Ok false
      else idempotent_loop t stable cell.1 input n'
  end.

Definition idempotent (t : table) (initial_state input : string) (repetitions : Z)
  : result Error bool :=
  stable ← ok_or (bt_get (initial_state, input) t)
             (InvalidEvidence "property uses an unknown symbol");
  idempotent_loop t stable stable.1 input (Z.to_nat (repetitions - 1)).

Definition table_of (transitions : list Transition.Transition) : table :=
  bt_from_list ((fun item => (Transition.key item, Transition.effect item)) <$> transitions).

(** The loop of [satisfies], with its early returns. *)
Fixpoint satisfies_loop (t : table) (grammar : Grammar.Grammar)
  (contents : list FragmentContent.FragmentContent) : result Error bool :=
  match contents with
  | [] => Ok true
  | content :: rest =>
      match content with
      | FragmentContent.Transition state input next_state output =>
          if bool_decide (bt_get (state, input) t = Some (next_state, output))
          then satisfies_loop t grammar rest else Ok false
      | FragmentContent.Trace Training initial_state inputs outputs =>
          observed ← execute t initial_state inputs;
          if bool_decide (observed = outputs) then satisfies_loop t grammar rest else Ok false
      | FragmentContent.NegativeCase initial_state inputs forbidden_outputs =>
          observed ← execute t initial_state inputs;
          if bool_decide (observed = forbidden_outputs) then Ok false
          else satisfies_loop t grammar rest
      | FragmentContent.MetamorphicProperty initial_state input repetitions =>
          if repetitions <? 2 then Ok false else
          same ← idempotent t initial_state input repetitions;
          if negb same then Ok false else satisfies_loop t grammar rest
      | FragmentContent.StatePolicy states initial_state =>
          if negb (bool_decide (states = Grammar.states grammar))
             || negb (bool_decide (initial_state = Grammar.initial_state grammar))
          then Ok false else satisfies_loop t grammar rest
      | FragmentContent.Trace HeldOut _ _ _ => satisfies_loop t grammar rest
      end
  end.

Definition satisfies (transitions : list Transition.Transition) (grammar : Grammar.Grammar)
  (contents : list FragmentContent.FragmentContent) : result Error bool :=
  satisfies_loop (table_of transitions) grammar contents.

(** * fsm-v1 *)

Record search := {
  assignment : list Transition.Transition;
  examined : Z;
  solutions : list (list Transition.Transition);
}.

Definition push (t : Transition.Transition) (s : search) : search :=
  {| assignment := assignment s ++ [t]; examined := examined s; solutions := solutions s |}.
Definition pop (s : search) : search :=
  {| assignment := removelast (assignment s); examined := examined s; solutions := solutions s |}.

(** [cells] is the part of the slice from [index] on. *)
Fixpoint enumerate (cells choices : list (string * string)) (grammar : Grammar.Grammar)
  (contents : list FragmentContent.FragmentContent) (s : search) : result Error search :=
  if 1 <? vec_len (solutions s) then Ok s else
  match cells with
  | [] =>
      n ← ok_or (checked_add u64_max (examined s) 1)
            (SearchExhausted "candidate counter overflow");
      if Grammar.max_candidates grammar <? n
      then Err (SearchExhausted "search budget exhausted") else
      sat ← satisfies (assignment s) grammar contents;
      Ok {| assignment := assignment s; examined := n;
            solutions := if (sat : bool) then solutions s ++ [assignment s] else solutions s |}
  | (state, input) :: cells' =>
      (fix each (todo : list (string * string)) (s : search) : result Error search :=
         match todo with
         | [] => Ok s
         | (next_state, output) :: todo' =>
             s ← enumerate cells' choices grammar contents
                   (push {| Transition.state := state; Transition.input := input;
                            Transition.next_state := next_state; Transition.output := output |} s);
             let s := pop s in
             if 1 <? vec_len (solutions s) then Ok s else each todo' s
         end) choices s
  end.

Definition reconstruct_v1 (component interface_version : string) (grammar : Grammar.Grammar)
  (contents : list FragmentContent.FragmentContent) : result Error (Candidate.Candidate * Z) :=
  let cells := pairs (Grammar.states grammar) (Grammar.inputs grammar) in
  let choices := pairs (Grammar.states grammar) (Grammar.outputs grammar) in
  s ← enumerate cells choices grammar contents
        {| assignment := []; examined := 0; solutions := [] |};
  match solutions s with
  | [] => Err (ContradictoryEvidence "no candidate satisfies the normalized evidence")
  | [transitions] =>
      Ok ({| Candidate.component := component; Candidate.interface_version := interface_version;
             Candidate.grammar := grammar; Candidate.transitions := transitions |}, examined s)
  | _ => Err (InsufficientEvidence "evidence admits multiple candidates")
  end.

(** * fsm-v0 *)

Definition obligation_map : Type := btree_map (string * string) Transition.Transition.

Definition add_obligation (grammar : Grammar.Grammar) (t : Transition.Transition)
  (obligations : obligation_map) : result Error obligation_map :=
  _ ← Transition.validate t grammar;
  match bt_get (Transition.key t) obligations with
  | Some previous =>
      if negb (bool_decide (previous = t))
      then Err (ContradictoryEvidence "contradictory transition obligations")
      else Ok (bt_insert (Transition.key t) t obligations)
  | None => Ok (bt_insert (Transition.key t) t obligations)
  end.

(** The body of the two inner loops, for one choice of a cell. *)
Definition try_choice (grammar : Grammar.Grammar) (required : Transition.Transition)
  (choice : string * string) (st : Z * list Transition.Transition)
  : result Error (Z * list Transition.Transition) :=
  let examined := st.1 + 1 in
  if Grammar.max_candidates grammar <? examined
  then Err (SearchExhausted "search budget exhausted") else
  Ok (examined,
      if bool_decide (choice.1 = Transition.next_state required)
         && bool_decide (choice.2 = Transition.output required)
      then st.2 ++ [required] else st.2).

(** Indexing [obligations[&key]] panics on a missing key. *)
Definition reconstruct_v0 (component interface_version : string) (grammar : Grammar.Grammar)
  (contents : list FragmentContent.FragmentContent)
  : result (fault Error) (Candidate.Candidate * Z) :=
  obligations ← fails (for_each (omap FragmentContent.transition contents) []
                         (add_obligation grammar));
  let expected := vec_len (Grammar.states grammar) * vec_len (Grammar.inputs grammar) in
  if negb (vec_len obligations =? expected)
  then Err (Fails (InsufficientEvidence "transition contract is not behaviorally complete")) else
  st ← for_each (Grammar.states grammar) (0, []) (fun state st =>
    for_each (Grammar.inputs grammar) st (fun input st =>
      required ← or_panic (bt_get (state, input) obligations);
      for_each (Grammar.states grammar) st (fun next_state st =>
        for_each (Grammar.outputs grammar) st (fun output st =>
          fails (try_choice grammar required (next_state, output) st)))));
  Ok ({| Candidate.component := component; Candidate.interface_version := interface_version;
         Candidate.grammar := grammar; Candidate.transitions := st.2 |}, st.1).

Definition reconstruct (component interface_version : string) (grammar : Grammar.Grammar)
  (contents : list FragmentContent.FragmentContent)
  : result (fault Error) (Candidate.Candidate * Z) :=
  if String.eqb (Grammar.version grammar) "fsm-v0"
  then reconstruct_v0 component interface_version grammar contents
  else if String.eqb (Grammar.version grammar) "fsm-v1"
  then fails (reconstruct_v1 component interface_version grammar contents)
  else Err (Fails (InvalidRegistry "unsupported grammar version")).

(** * Evaluation meets the specification *)

(** The machine a table stands for. *)
Definition machine_of (t : table) : Fsm.machine := fun s i => bt_get (s, i) t.

Lemma machine_of_table_of ts s i :
  machine_of (table_of ts) s i = Fsm.of_transitions ts s i.
Proof. reflexivity. Qed.

Lemma execute_run t s ins :
  execute t s ins =
  match Fsm.run (machine_of t) s ins with
  | Some outs => Ok outs
  | None => Err (InvalidEvidence "trace uses an unknown symbol")
  end.
Proof.
  unfold execute.
  assert (Hgen : forall acc,
    (st ← for_each ins (s, acc) (fun input st =>
       cell ← ok_or (bt_get (st.1, input) t) (InvalidEvidence "trace uses an unknown symbol");
       Ok (cell.1, st.2 ++ [cell.2])); Ok st.2) =
    match Fsm.run (machine_of t) s ins with
    | Some outs => Ok (acc ++ outs)
    | None => Err (InvalidEvidence "trace uses an unknown symbol")
    end); [|by rewrite (Hgen []); destruct (Fsm.run _ _ _)].
  revert s. induction ins as [|i ins IH]; intros s acc; simpl; [by rewrite app_nil_r|].
  change (machine_of t s i) with (bt_get (s, i) t). destruct (bt_get (s, i) t) as [[s' o]|]; simpl; [|done].
  rewrite IH. destruct (Fsm.run _ s' ins) as [outs|]; simpl; [|done].
  by rewrite <- app_assoc.
Qed.

(** After the first repetition the loop only revisits the same cell. *)
Lemma idempotent_loop_spec t s' o i n :
  idempotent_loop t (s', o) s' i n =
  match n with
  | O => Ok true
  | S _ => match bt_get (s', i) t with
           | Some c => Ok (bool_decide (c = (s', o)))
           | None => Err (InvalidEvidence "property uses an unknown symbol")
           end
  end.
Proof.
  induction n as [|n IH]; [done|]. cbn [idempotent_loop].
  destruct (bt_get (s', i) t) as [[s2 o2]|] eqn:E; [|done]. cbn.
  destruct (decide (s2 = s')) as [->|Hs].
  - destruct (decide (o2 = o)) as [->|Ho].
    + rewrite !bool_decide_eq_true_2 by done. cbn. rewrite IH.
      destruct n; [done|]. rewrite bool_decide_eq_true_2; done.
    + rewrite bool_decide_eq_true_2, !bool_decide_eq_false_2 by congruence. done.
  - rewrite (bool_decide_eq_false_2 (s2 = s')) by done. cbn.
    rewrite bool_decide_eq_false_2 by congruence. done.
Qed.

Lemma idempotent_stable t s i n :
  2 <= n -> idempotent t s i n = Ok true <-> Fsm.stable (machine_of t) s i.
Proof.
  intros Hn. unfold idempotent, Fsm.stable, machine_of.
  destruct (bt_get (s, i) t) as [[s' o]|] eqn:E; cbn.
  - rewrite idempotent_loop_spec. destruct (Z.to_nat (n - 1)) as [|k] eqn:Ek; [lia|].
    split.
    + destruct (bt_get (s', i) t) as [c|] eqn:E'; [|done]. intros [= Hc%bool_decide_eq_true].
      subst. eauto.
    + intros (s2 & o2 & [= <- <-] & ->). by rewrite bool_decide_eq_true_2.
  - split; [done|]. by intros (? & ? & ? & _).
Qed.

(** Held-out traces are not used by the search. *)
Definition binding (c : FragmentContent.FragmentContent) : Prop :=
  match c with FragmentContent.Trace HeldOut _ _ _ => False | _ => True end.

Lemma satisfies_true ts g cs :
  satisfies ts g cs = Ok true <->
  Forall (fun c => binding c -> Fsm.meets (Fsm.of_transitions ts) g c) cs.
Proof.
  unfold satisfies. induction cs as [|c cs IH]; [by split|].
  rewrite Forall_cons. destruct c as [s i s' o|sts init|[|] s ins outs|s ins bad|s i n];
    cbn [satisfies_loop binding Fsm.meets].
  - rewrite <- machine_of_table_of. unfold machine_of. case_bool_decide; [tauto|].
    split; [done|]. intros [Hc _]. by specialize (Hc I).
  - destruct (decide (sts = Grammar.states g)), (decide (init = Grammar.initial_state g));
      [rewrite !bool_decide_eq_true_2 by done; cbn; tauto|..];
      repeat case_bool_decide; cbn; try done; split; try done; intros [Hc _];
      destruct (Hc I); done.
  - rewrite execute_run. setoid_rewrite <- IH. unfold Fsm.meets.
    change (machine_of (table_of ts)) with (Fsm.of_transitions ts).
    destruct (Fsm.run _ s ins) as [obs|]; cbn.
    + case_bool_decide; [subst; tauto|]. split; [done|]. intros [Hc _].
      specialize (Hc I). congruence.
    + split; [done|]. intros [Hc _]. by specialize (Hc I).
  - tauto.
  - rewrite execute_run.
    change (machine_of (table_of ts)) with (Fsm.of_transitions ts).
    destruct (Fsm.run _ s ins) as [obs|]; cbn.
    + case_bool_decide.
      * split; [done|]. intros [Hc _]. destruct (Hc I) as (? & ? & ?). congruence.
      * rewrite IH. split; [|tauto]. intros ?. split; [|done]. eauto.
    + split; [done|]. intros [Hc _]. by destruct (Hc I) as (? & ? & ?).
  - destruct (n <? 2) eqn:En; split_bools.
    { split; [done|]. intros [Hc _]. destruct (Hc I). lia. }
    pose proof (idempotent_stable (table_of ts) s i n ltac:(lia)) as Hi.
    change (machine_of (table_of ts)) with (Fsm.of_transitions ts) in Hi.
    rewrite <- Hi. destruct (idempotent _ _ _ _) as [[|]|]; cbn.
    + rewrite IH. intuition lia.
    + split; [done|]. intros [Hc _]. destruct (Hc I). done.
    + split; [done|]. intros [Hc _]. destruct (Hc I). done.
Qed.

(** Evidence that only names declared symbols. *)
Definition scoped (g : Grammar.Grammar) (c : FragmentContent.FragmentContent) : Prop :=
  match c with
  | FragmentContent.Trace Training s ins _ | FragmentContent.NegativeCase s ins _ =>
      s ∈ Grammar.states g /\ Forall (fun i => i ∈ Grammar.inputs g) ins
  | FragmentContent.MetamorphicProperty s i _ =>
      s ∈ Grammar.states g /\ i ∈ Grammar.inputs g
  | _ => True
  end.

(** On a total table, scoped evidence is always decided. *)
Lemma satisfies_decides ts g cs :
  Fsm.total (Fsm.of_transitions ts) g -> Forall (scoped g) cs ->
  exists b, satisfies ts g cs = Ok b.
Proof.
  intros Ht. unfold satisfies.
  induction 1 as [|c cs Hc _ IH]; [by exists true|].
  destruct c as [s i s' o|sts init|[|] s ins outs|s ins bad|s i n]; cbn [satisfies_loop].
  - case_bool_decide; eauto.
  - destruct (_ || _); eauto.
  - rewrite execute_run. destruct Hc as [Hs Hins].
    destruct (Fsm.run_total _ _ _ _ Ht Hs Hins) as [obs Hobs].
    change (machine_of (table_of ts)) with (Fsm.of_transitions ts). rewrite Hobs. cbn.
    case_bool_decide; eauto.
  - eauto.
  - rewrite execute_run. destruct Hc as [Hs Hins].
    destruct (Fsm.run_total _ _ _ _ Ht Hs Hins) as [obs Hobs].
    change (machine_of (table_of ts)) with (Fsm.of_transitions ts). rewrite Hobs. cbn.
    case_bool_decide; eauto.
  - destruct (n <? 2); [eauto|]. destruct Hc as [Hs Hi]. unfold idempotent.
    destruct (Ht s i Hs Hi) as (s1 & o1 & E1 & Hs1 & _).
    rewrite <- machine_of_table_of in E1. unfold machine_of in E1. rewrite E1. cbn.
    rewrite idempotent_loop_spec.
    destruct (Ht s1 i Hs1 Hi) as (s2 & o2 & E2 & _ & _).
    rewrite <- machine_of_table_of in E2. unfold machine_of in E2.
    destruct (Z.to_nat (n - 1)); [by cbn; eauto|]. rewrite E2. cbn.
    destruct (negb _); eauto.
Qed.

(** * The search visits every table in order *)

(** All ways to fill the cells, in the order of the recursion. *)
Fixpoint assignments (cells choices : list (string * string)) : list (list Transition.Transition) :=
  match cells with
  | [] => [[]]
  | cell :: cells' =>
      choices ≫= fun choice =>
        cons {| Transition.state := cell.1; Transition.input := cell.2;
                Transition.next_state := choice.1; Transition.output := choice.2 |}
          <$> assignments cells' choices
  end.

(** One leaf of the search. *)
Definition visit (grammar : Grammar.Grammar) (contents : list FragmentContent.FragmentContent)
  (ts : list Transition.Transition) (st : Z * list (list Transition.Transition))
  : result Error (Z * list (list Transition.Transition)) :=
  if 1 <? vec_len st.2 then Ok st else
  n ← ok_or (checked_add u64_max st.1 1) (SearchExhausted "candidate counter overflow");
  if Grammar.max_candidates grammar <? n
  then Err (SearchExhausted "search budget exhausted") else
  sat ← satisfies ts grammar contents;
  Ok (n, if (sat : bool) then st.2 ++ [ts] else st.2).

Lemma visit_done g cs ts st : (1 <? vec_len st.2) = true -> visit g cs ts st = Ok st.
Proof. unfold visit. by intros ->. Qed.

Lemma fmap_app_cons {A} (a : list A) (t : A) (l : list (list A)) :
  app a ∘ cons t <$> l = app (a ++ [t]) <$> l.
Proof. apply list_fmap_ext. intros i x _. cbn. by rewrite <- app_assoc. Qed.

Section Enumerate.
Variable (grammar : Grammar.Grammar) (contents : list FragmentContent.FragmentContent).

Definition scan (tables : list (list Transition.Transition))
  (st : Z * list (list Transition.Transition)) : result Error (Z * list (list Transition.Transition)) :=
  for_each tables st (visit grammar contents).

Lemma scan_app l1 l2 st : scan (l1 ++ l2) st = (st ← scan l1 st; scan l2 st).
Proof. apply for_each_app. Qed.

Lemma scan_done tables st : (1 <? vec_len st.2) = true -> scan tables st = Ok st.
Proof.
  intros Hd. unfold scan. induction tables as [|t tables IH]; [done|]. simpl.
  rewrite visit_done by done. cbn. apply IH.
Qed.

Lemma enumerate_scan cells choices s :
  enumerate cells choices grammar contents s =
  (st ← scan (app (assignment s) <$> assignments cells choices) (examined s, solutions s);
   Ok {| assignment := assignment s; examined := st.1; solutions := st.2 |}).
Proof.
  revert s. induction cells as [|[cs ci] cells IH]; intros s; cbn [enumerate].
  - destruct (1 <? vec_len (solutions s)) eqn:Hd.
    { rewrite scan_done by done. by destruct s. }
    cbn [assignments fmap list_fmap scan for_each]. unfold visit. cbn [fst snd].
    rewrite Hd, app_nil_r.
    destruct (checked_add _ _ _) as [n|]; cbn; [|done].
    destruct (Grammar.max_candidates grammar <? n); [done|].
    by destruct (satisfies _ _ _) as [[|]|].
  - destruct (1 <? vec_len (solutions s)) eqn:Hd.
    { rewrite scan_done by done. by destruct s. }
    clear Hd. cbn [assignments]. generalize choices at 2 4. intros todo.
    revert s. induction todo as [|[n o] todo IHt]; intros s; [by destruct s|].
    cbn [fst snd]. rewrite IH. rewrite bind_cons, fmap_app, scan_app.
    unfold push. cbn [assignment examined solutions].
    rewrite <- list_fmap_compose.
    rewrite fmap_app_cons.
    destruct (scan _ _) as [st|e]; [|done]. cbn [mbind result_bind].
    unfold pop. cbn [assignment examined solutions]. rewrite removelast_last.
    destruct (1 <? vec_len st.2) eqn:Hd.
    + rewrite scan_done by (destruct st; done). by destruct st.
    + rewrite IHt. cbn [assignment examined solutions]. by destruct st.
Qed.
End Enumerate.

(** ** The tables of a grammar *)

Lemma elem_of_assignments cells choices t :
  t ∈ assignments cells choices <->
  Transition.key <$> t = cells /\ Forall (fun x => Transition.effect x ∈ choices) t.
Proof.
  revert t. induction cells as [|[s i] cells IH]; intros t; cbn [assignments].
  - rewrite list_elem_of_singleton. split; [by intros ->|]. intros [Ht _].
    by apply fmap_nil_inv in Ht.
  - rewrite list_elem_of_bind. split.
    + intros ([s' o] & (t' & -> & Ht)%list_elem_of_fmap & Hc).
      apply IH in Ht as [<- Hall]. split; [done|]. by constructor.
    + intros [Hk Hall]. destruct t as [|x t]; [done|]. rewrite fmap_cons in Hk.
      injection Hk as Hs Hi Hk. inversion Hall as [|?? Hx Hall']; subst.
      exists (Transition.effect x). split; [|done]. apply list_elem_of_fmap. exists t.
      split; [by destruct x | by apply IH].
Qed.

Lemma assignments_length cells choices :
  length (assignments cells choices) = (length choices ^ length cells)%nat.
Proof.
  induction cells as [|c cells IH]; [done|]. cbn [assignments length Nat.pow]. rewrite <- IH.
  generalize (assignments cells choices) as l. intros l. clear IH.
  induction choices as [|ch choices IHc]; [done|].
  rewrite bind_cons, length_app, length_fmap, IHc. simpl. lia.
Qed.

Lemma assignments_NoDup cells choices : NoDup choices -> NoDup (assignments cells choices).
Proof.
  intros Hnd. induction cells as [|c cells IH]; cbn [assignments]; [apply NoDup_singleton|].
  revert IH. generalize (assignments cells choices) as l. intros l Hl.
  induction Hnd as [|ch choices Hni Hnd IHc]; [constructor|].
  rewrite bind_cons. apply NoDup_app. split; [|split; [|exact IHc]].
  - by apply NoDup_fmap_2; [intros ? ? [=]|].
  - intros t (t' & -> & _)%list_elem_of_fmap Hin. apply Hni.
    apply list_elem_of_bind in Hin as ([s o] & (t'' & Heq & _)%list_elem_of_fmap & Hin).
    destruct ch. simpl in Heq. by simplify_eq.
Qed.

Definition tables (g : Grammar.Grammar) : list (list Transition.Transition) :=
  assignments (pairs (Grammar.states g) (Grammar.inputs g))
              (pairs (Grammar.states g) (Grammar.outputs g)).

Lemma tables_length g :
  vec_len (tables g) =
  (vec_len (Grammar.states g) * vec_len (Grammar.outputs g))
    ^ (vec_len (Grammar.states g) * vec_len (Grammar.inputs g)).
Proof.
  unfold tables, vec_len. rewrite assignments_length, !pairs_length.
  by rewrite Nat2Z.inj_pow, !Nat2Z.inj_mul.
Qed.

Lemma tables_NoDup g : Grammar.ok g -> NoDup (tables g).
Proof.
  intros (_ & ((_ & Ho & _) & _) & ((_ & Hs & _) & _) & _).
  by apply assignments_NoDup, pairs_NoDup.
Qed.

Lemma tables_cells_NoDup g t : Grammar.ok g -> t ∈ tables g -> NoDup (Transition.key <$> t).
Proof.
  intros (((_ & Hi & _) & _) & _ & ((_ & Hs & _) & _) & _) Ht.
  apply elem_of_assignments in Ht as [-> _]. by apply pairs_NoDup.
Qed.

Lemma tables_implement g t : Grammar.ok g -> t ∈ tables g -> Fsm.implements (Fsm.of_transitions t) g.
Proof.
  intros Hg Ht. pose proof (tables_cells_NoDup _ _ Hg Ht) as Hnd.
  apply elem_of_assignments in Ht as [Hk Hall]. split.
  - intros s i Hs Hi. assert (Hin : (s, i) ∈ Transition.key <$> t)
      by (rewrite Hk; by apply elem_of_pairs).
    apply list_elem_of_fmap in Hin as ([s0 i0 s' o] & [= -> ->] & Hin).
    exists s', o. split; [by apply Fsm.of_transitions_spec|].
    rewrite Forall_forall in Hall. apply Hall in Hin. by apply elem_of_pairs in Hin.
  - intros s i r Hr. apply elem_of_pairs. rewrite <- Hk.
    destruct (decide ((s, i) ∈ Transition.key <$> t)) as [|Hni]; [done|].
    apply Fsm.of_transitions_None in Hni. congruence.
Qed.

(** Every machine over the grammar is one of the tables. *)
Definition tabulate (d : Fsm.machine) (cells : list (string * string)) : list Transition.Transition :=
  (fun cell =>
     let r := default cell (d cell.1 cell.2) in
     {| Transition.state := cell.1; Transition.input := cell.2;
        Transition.next_state := r.1; Transition.output := r.2 |}) <$> cells.

Lemma tabulate_key d cells : Transition.key <$> tabulate d cells = cells.
Proof.
  unfold tabulate. rewrite <- list_fmap_compose. unfold compose, Transition.key. simpl.
  induction cells as [|[s i] cells IH]; [done|]. rewrite fmap_cons. by rewrite IH.
Qed.

Lemma tabulate_tables d g :
  Grammar.ok g -> Fsm.implements d g ->
  exists t, t ∈ tables g /\ forall s i, Fsm.of_transitions t s i = d s i.
Proof.
  intros Hg [Ht Hc]. set (cells := pairs (Grammar.states g) (Grammar.inputs g)).
  assert (Hin : tabulate d cells ∈ tables g).
  { apply elem_of_assignments. split; [apply tabulate_key|].
    apply Forall_fmap, Forall_forall. intros [s i] [Hs Hi]%elem_of_pairs.
    destruct (Ht s i Hs Hi) as (s' & o & Hd & Hs' & Ho).
    unfold compose, Transition.effect. simpl. rewrite Hd. simpl. by apply elem_of_pairs. }
  exists (tabulate d cells). split; [done|]. intros s i.
  destruct (decide ((s, i) ∈ cells)) as [Hcell|Hcell].
  - pose proof Hcell as [Hs Hi]%elem_of_pairs.
    destruct (Ht s i Hs Hi) as (s' & o & Hd & _ & _). rewrite Hd.
    apply Fsm.of_transitions_spec; [by apply (tables_cells_NoDup g)|].
    apply list_elem_of_fmap. exists (s, i). simpl. by rewrite Hd.
  - assert (Fsm.of_transitions (tabulate d cells) s i = None) as ->
      by (apply Fsm.of_transitions_None; by rewrite tabulate_key).
    destruct (d s i) eqn:E; [|done]. exfalso. apply Hcell, elem_of_pairs. by eapply Hc.
Qed.

(** ** What a scan returns *)

Section Scan.
Variable (grammar : Grammar.Grammar) (contents : list FragmentContent.FragmentContent).

Definition accepted (t : list Transition.Transition) : Prop :=
  satisfies t grammar contents = Ok true.
#[local] Instance accepted_dec t : Decision (accepted t).
Proof. unfold accepted. apply _. Defined.

Definition admitted (ts : list (list Transition.Transition)) : list (list Transition.Transition) :=
  filter accepted ts.

Lemma elem_of_admitted t ts : t ∈ admitted ts <-> accepted t /\ t ∈ ts.
Proof. apply list_elem_of_filter. Qed.

Lemma admitted_NoDup ts : NoDup ts -> NoDup (admitted ts).
Proof. apply NoDup_filter. Qed.

Lemma visit_open t ex sols :
  vec_len sols <= 1 -> 0 <= ex < u64_max ->
  visit grammar contents t (ex, sols) =
  if Grammar.max_candidates grammar <? ex + 1
  then Err (SearchExhausted "search budget exhausted")
  else sat ← satisfies t grammar contents;
       Ok (ex + 1, if (sat : bool) then sols ++ [t] else sols).
Proof.
  intros Hs Hex. unfold visit, checked_add. cbn [fst snd]. eval_tests. done.
Qed.

(** A scan that ends with at most one solution has looked at everything. *)
Lemma scan_exhaustive ts ex sols ex' sols' :
  Grammar.max_candidates grammar <= 1000000 -> 0 <= ex <= 1000000 -> vec_len sols <= 1 ->
  scan grammar contents ts (ex, sols) = Ok (ex', sols') -> vec_len sols' <= 1 ->
  sols' = sols ++ admitted ts /\ ex' = ex + vec_len ts /\
  (ts <> [] -> ex' <= Grammar.max_candidates grammar).
Proof.
  intros Hmax. revert ex sols. induction ts as [|t ts IH]; intros ex sols Hex Hs Hrun Hs'.
  - injection Hrun as <- <-. rewrite app_nil_r. unfold vec_len. simpl. split_and!; [done|lia|done].
  - cbn [scan for_each] in Hrun. rewrite visit_open in Hrun by (unfold u64_max; lia).
    destruct (_ <? _) eqn:Hb; [done|]. split_bools.
    destruct (satisfies t grammar contents) as [sat|] eqn:Hsat; [|done].
    cbn [mbind result_bind] in Hrun. fold (scan grammar contents) in Hrun.
    destruct (decide (vec_len (if sat then sols ++ [t] else sols) <= 1)) as [Hle|Hgt].
    + apply IH in Hrun as (-> & -> & Hbound); [|lia|done|done].
      unfold admitted. rewrite filter_cons. unfold accepted at 1. unfold vec_len. cbn [length].
      split_and!; [|lia|].
      * destruct sat; [rewrite decide_True by done; by rewrite <- app_assoc|].
        by rewrite decide_False by congruence.
      * intros _. destruct ts; [cbn; lia|]. specialize (Hbound ltac:(done)).
        unfold vec_len in Hbound. lia.
    + change (scan grammar contents ts (ex + 1, if sat then sols ++ [t] else sols)
              = Ok (ex', sols')) in Hrun.
      rewrite scan_done in Hrun by (cbn; apply Z.ltb_lt; lia).
      injection Hrun as <- <-. lia.
Qed.

(** When every table is decided, the outcome depends only on the tables the
    budget reaches. *)
Lemma scan_outcome ts ex sols :
  Grammar.max_candidates grammar <= 1000000 ->
  0 <= ex <= Grammar.max_candidates grammar -> vec_len sols <= 1 ->
  Forall (fun t => exists b, satisfies t grammar contents = Ok b) ts ->
  let seen := sols ++ admitted (take (Z.to_nat (Grammar.max_candidates grammar - ex)) ts) in
  if 1 <? vec_len seen then exists ex', scan grammar contents ts (ex, sols) = Ok (ex', take 2 seen)
  else if Grammar.max_candidates grammar <? ex + vec_len ts
  then scan grammar contents ts (ex, sols) = Err (SearchExhausted "search budget exhausted")
  else scan grammar contents ts (ex, sols) = Ok (ex + vec_len ts, seen).
Proof.
  intros Hmax Hex Hs Hall. revert ex sols Hex Hs.
  induction Hall as [|t ts [sat Hsat] _ IH]; intros ex sols Hex Hs seen; subst seen.
  - rewrite take_nil. unfold admitted. cbn [filter list_filter]. rewrite app_nil_r.
    unfold vec_len at 2 3. cbn [length]. eval_tests. by rewrite Z.add_0_r.
  - cbn [scan for_each]. rewrite visit_open by (unfold u64_max; lia).
    destruct (decide (ex = Grammar.max_candidates grammar)) as [->|Hne].
    { rewrite Z.sub_diag. cbn [Z.to_nat take]. unfold admitted. cbn [filter list_filter].
      rewrite app_nil_r. unfold vec_len at 2. cbn [length]. eval_tests. done. }
    replace (Z.to_nat (Grammar.max_candidates grammar - ex)) with
      (S (Z.to_nat (Grammar.max_candidates grammar - (ex + 1)))) by lia.
    cbn [take]. rewrite Hsat.
    replace (Grammar.max_candidates grammar <? ex + 1) with false
      by (symmetry; apply Z.ltb_ge; lia).
    cbn [mbind result_bind]. fold (scan grammar contents).
    replace (ex + vec_len (t :: ts)) with (ex + 1 + vec_len ts) by (unfold vec_len; cbn; lia).
    assert (Hcons : forall l, sols ++ admitted (t :: l) =
              (if sat then sols ++ [t] else sols) ++ admitted l).
    { intros l. unfold admitted. rewrite filter_cons. unfold accepted at 1.
      destruct sat; [rewrite decide_True by done; by rewrite <- app_assoc|].
      by rewrite decide_False by congruence. }
    rewrite Hcons.
    destruct (decide (vec_len (if sat then sols ++ [t] else sols) <= 1)) as [Hle|Hgt].
    + apply IH; [lia|done].
    + destruct sat; [|lia]. unfold vec_len in Hs, Hgt. rewrite length_app in Hgt. cbn in Hgt.
      destruct sols as [|s0 [|]]; cbn in Hs, Hgt; try lia.
      replace (1 <? _) with true by (symmetry; apply Z.ltb_lt; unfold vec_len; cbn; lia).
      exists (ex + 1).
      change (scan grammar contents ts (ex + 1, [s0; t]) = Ok (ex + 1, [s0; t])).
      by rewrite scan_done.
Qed.
End Scan.

Lemma meets_table g t d cs :
  (forall s i, Fsm.of_transitions t s i = d s i) ->
  satisfies t g cs = Ok true <-> Forall (fun c => binding c -> Fsm.meets d g c) cs.
Proof.
  intros Hext. rewrite satisfies_true. apply Forall_iff. intros c.
  split; intros Hc Hb; eapply Fsm.meets_ext; try apply (Hc Hb); intros s i; by rewrite Hext.
Qed.

Lemma enumerate_root g cs :
  enumerate (pairs (Grammar.states g) (Grammar.inputs g)) (pairs (Grammar.states g) (Grammar.outputs g))
    g cs {| assignment := []; examined := 0; solutions := [] |} =
  (st ← scan g cs (tables g) (0, []); Ok {| assignment := []; examined := st.1; solutions := st.2 |}).
Proof.
  rewrite enumerate_scan. cbn [assignment examined solutions].
  replace (app [] <$> _) with (tables g); [done|].
  symmetry. apply (list_fmap_id (tables g)).
Qed.

(** A table contained in another table of the grammar is that table. *)
Lemma tables_sub_eq g t t' :
  Grammar.ok g -> t ∈ tables g -> t' ∈ tables g -> (forall x, x ∈ t -> x ∈ t') -> t = t'.
Proof.
  intros Hg Ht Ht' Hsub.
  pose proof (tables_cells_NoDup _ _ Hg Ht) as Hnd.
  pose proof (tables_cells_NoDup _ _ Hg Ht') as Hnd'.
  apply elem_of_assignments in Ht as [Hk _]. apply elem_of_assignments in Ht' as [Hk' _].
  rewrite <- Hk' in Hk. clear Hk'.
  revert t' Hk Hsub Hnd'. induction t as [|x t IH]; intros [|y t'] Hk Hsub Hnd'; try done.
  rewrite !fmap_cons in Hk. injection Hk as Hks Hki Hk.
  rewrite fmap_cons in Hnd, Hnd'. inversion Hnd as [|?? Hni Hnd1]; inversion Hnd' as [|?? Hni' Hnd1']; subst.
  assert (x = y) as ->.
  { pose proof (Hsub x ltac:(left)) as [->|Hin]%elem_of_cons; [done|]. exfalso. apply Hni'.
    apply list_elem_of_fmap. exists x. split; [|done]. unfold Transition.key. by rewrite Hks, Hki. }
  f_equal. apply IH; try done. intros x Hx.
  pose proof (Hsub x ltac:(by right)) as [->|Hin]%elem_of_cons; [|done].
  exfalso. apply Hni. apply list_elem_of_fmap. by exists y.
Qed.

(** Two tables of a grammar with the same machine are the same table. *)
Lemma tables_inj g t t' :
  Grammar.ok g -> t ∈ tables g -> t' ∈ tables g ->
  (forall s i, Fsm.of_transitions t s i = Fsm.of_transitions t' s i) -> t = t'.
Proof.
  intros Hg Ht Ht' Hext. apply (tables_sub_eq g); [done..|]. intros [s i s' o] Hin.
  apply Fsm.of_transitions_spec; [by apply (tables_cells_NoDup g)|]. rewrite <- Hext.
  apply Fsm.of_transitions_spec; [by apply (tables_cells_NoDup g)|done].
Qed.

(** Different tables disagree at a cell. *)
Lemma tables_differ g t t' :
  Grammar.ok g -> t ∈ tables g -> t' ∈ tables g -> t <> t' ->
  exists s i, Fsm.of_transitions t s i <> Fsm.of_transitions t' s i.
Proof.
  intros Hg Ht Ht' Hne.
  set (cells := pairs (Grammar.states g) (Grammar.inputs g)).
  destruct (decide (Forall (fun cell =>
    Fsm.of_transitions t cell.1 cell.2 = Fsm.of_transitions t' cell.1 cell.2) cells)) as [Hall|Hex].
  - exfalso. apply Hne, (tables_inj g); [done..|]. intros s i.
    destruct (decide ((s, i) ∈ cells)) as [Hin|Hni].
    { rewrite Forall_forall in Hall. by apply (Hall _ Hin). }
    apply elem_of_assignments in Ht as [Hk _]. apply elem_of_assignments in Ht' as [Hk' _].
    etransitivity; [|symmetry]; apply Fsm.of_transitions_None; by rewrite ?Hk, ?Hk'.
  - apply not_Forall_Exists in Hex; [|apply _].
    apply Exists_exists in Hex as ([s i] & _ & Hne'). by exists s, i.
Qed.

(** ** fsm-v0: the loops *)

Lemma for_each_pairs {E S} (f : string * string -> S -> result E S) xs ys st :
  for_each xs st (fun x st => for_each ys st (fun y st => f (x, y) st)) =
  for_each (pairs xs ys) st f.
Proof.
  revert st. induction xs as [|x xs IH]; intros st; [done|].
  unfold pairs. rewrite bind_cons, for_each_app. cbn [for_each].
  replace (for_each ((fun y => (x, y)) <$> ys) st f)
    with (for_each ys st (fun y st => f (x, y) st)).
  { destruct (for_each ys st _); cbn; [apply IH|done]. }
  clear IH. revert st. induction ys as [|y ys IHy]; intros st; [done|]. cbn.
  destruct (f (x, y) st); cbn; [apply IHy|done].
Qed.

(** The map built from the transition contents. *)
Definition obligations_of (ts : list Transition.Transition) (m : obligation_map) : Prop :=
  bt_sorted m /\ forall k t, bt_get k m = Some t <-> Transition.key t = k /\ t ∈ ts.

Lemma add_obligation_ok g t ts m m' :
  obligations_of ts m -> add_obligation g t m = Ok m' ->
  Transition.ok g t /\ obligations_of (ts ++ [t]) m'.
Proof.
  intros [Hs Hm]. unfold add_obligation.
  destruct (Transition.validate t g) as [[]|] eqn:Hv; [|done]. cbn [mbind result_bind].
  apply Transition.transition_validate_ok in Hv.
  assert (Hins : (forall p, bt_get (Transition.key t) m = Some p -> p = t) ->
                 obligations_of (ts ++ [t]) (bt_insert (Transition.key t) t m)).
  { intros Hp. split; [by apply bt_insert_sorted|]. intros k u.
    rewrite elem_of_app, list_elem_of_singleton. destruct (decide (Transition.key t = k)) as [<-|Hne].
    - rewrite bt_get_insert_eq. split; [intros [= ->]; auto|]. intros [Hk [Hin| ->]]; [|done].
      f_equal. symmetry. apply Hp, Hm. auto.
    - rewrite bt_get_insert_ne by done. rewrite Hm. split; [tauto|].
      intros [Hk [Hin| ->]]; done. }
  destruct (bt_get (Transition.key t) m) as [p|] eqn:Hget.
  - case_bool_decide; [|done]. intros [= <-]. split; [done|]. apply Hins. by intros ? [= <-].
  - intros [= <-]. split; [done|]. by apply Hins.
Qed.

Lemma add_obligation_err g t ts m e :
  obligations_of ts m -> add_obligation g t m = Err e ->
  (exists msg, e = InvalidEvidence msg /\ ~ Transition.ok g t) \/
  (exists msg p, e = ContradictoryEvidence msg /\ p ∈ ts /\
     Transition.key p = Transition.key t /\ p <> t).
Proof.
  intros [_ Hm]. unfold add_obligation.
  destruct (Transition.validate t g) as [[]|e'] eqn:Hv; cbn [mbind result_bind].
  - destruct (bt_get (Transition.key t) m) as [p|] eqn:Hget; [|done].
    case_bool_decide; [done|]. intros [= <-]. apply Hm in Hget as [Hk Hin]. right. eauto 10.
  - intros [= ->]. left.
    assert (~ Transition.ok g t) by (rewrite <- Transition.transition_validate_ok; congruence).
    unfold Transition.validate in Hv. repeat case_match; simplify_eq; eauto.
Qed.

Lemma add_obligations g ts :
  match for_each ts [] (add_obligation g) with
  | Ok m => Forall (Transition.ok g) ts /\ obligations_of ts m
  | Err (InvalidEvidence _) => exists t, t ∈ ts /\ ~ Transition.ok g t
  | Err (ContradictoryEvidence _) =>
      exists t t', t ∈ ts /\ t' ∈ ts /\ Transition.key t = Transition.key t' /\ t <> t'
  | Err _ => False
  end.
Proof.
  induction ts as [|t ts IH] using rev_ind.
  { split; [constructor|]. split; [constructor|]. intros k t. set_solver. }
  rewrite for_each_app. destruct (for_each ts [] (add_obligation g)) as [m|e].
  - destruct IH as [Hall Hm]. cbn. destruct (add_obligation g t m) as [m'|e] eqn:Ha; cbn.
    + apply (add_obligation_ok _ _ ts) in Ha as [Hok Hm']; [|done].
      split; [|done]. apply Forall_app. split; [done|]. by constructor.
    + apply (add_obligation_err _ _ ts) in Ha as [(msg & -> & Hok)|(msg & p & -> & Hp & Hk & Hne)];
        [| |done]; setoid_rewrite elem_of_app; setoid_rewrite list_elem_of_singleton.
      * exists t. auto.
      * exists p, t. auto.
  - cbn. destruct e; try done; setoid_rewrite elem_of_app.
    + destruct IH as (u & Hu & Hok). eauto.
    + destruct IH as (u & u' & Hu & Hu' & Hk). eauto 10.
Qed.

(** A complete map has an entry for every cell, otherwise one is missing. *)
Lemma obligations_complete g ts m :
  Grammar.ok g -> Forall (Transition.ok g) ts -> obligations_of ts m ->
  let cells := pairs (Grammar.states g) (Grammar.inputs g) in
  if vec_len m =? vec_len (Grammar.states g) * vec_len (Grammar.inputs g)
  then forall k, k ∈ cells -> exists t, bt_get k m = Some t
  else exists k, k ∈ cells /\ bt_get k m = None.
Proof.
  intros (((_ & Hi & _) & _) & _ & ((_ & Hst & _) & _) & _) Hok [Hs Hm] cells.
  assert (Hcells : vec_len (Grammar.states g) * vec_len (Grammar.inputs g) = vec_len cells).
  { unfold vec_len, cells. rewrite pairs_length. lia. }
  rewrite Hcells. pose proof (bt_sorted_NoDup _ Hs) as Hnd.
  assert (Hsub : m.*1 ⊆+ cells).
  { apply NoDup_submseteq; [done|]. intros k Hk.
    apply list_elem_of_fmap in Hk as ([k' t] & -> & Hin).
    apply bt_get_elem in Hin; [|done]. apply Hm in Hin as [<- Hin].
    rewrite Forall_forall in Hok. destruct (Hok _ Hin) as (? & _ & ? & _).
    by apply elem_of_pairs. }
  destruct (vec_len m =? vec_len cells) eqn:E; split_bools.
  - intros k Hk. destruct (bt_get k m) as [t|] eqn:Hget; [eauto|].
    apply bt_get_None in Hget; [|done]. exfalso. apply Hget.
    apply submseteq_length_Permutation in Hsub as ->; [done|].
    rewrite length_fmap. unfold vec_len in E. lia.
  - destruct (decide (Forall (fun k => k ∈ m.*1) cells)) as [Hall|Hex].
    + exfalso. apply E. rewrite Forall_forall in Hall.
      assert (Hsub' : cells ⊆+ m.*1) by (apply NoDup_submseteq; [by apply pairs_NoDup|done]).
      apply submseteq_length in Hsub. apply submseteq_length in Hsub'.
      rewrite length_fmap in *. unfold vec_len. lia.
    + apply not_Forall_Exists in Hex; [|apply _].
      apply Exists_exists in Hex as (k & Hk & Hni). exists k. split; [done|].
      by apply bt_get_None.
Qed.

Lemma try_choice_required g req ex acc :
  try_choice g req (Transition.effect req) (ex, acc) =
  if Grammar.max_candidates g <? ex + 1
  then Err (SearchExhausted "search budget exhausted") else Ok (ex + 1, acc ++ [req]).
Proof. unfold try_choice. cbn [fst snd]. by rewrite !bool_decide_eq_true_2 by done. Qed.

Lemma try_choices g req choices ex acc :
  Transition.effect req ∈ choices -> NoDup choices ->
  for_each choices (ex, acc) (fun ch st => fails (E := Error) (try_choice g req ch st)) =
  if Grammar.max_candidates g <? ex + vec_len choices
  then Err (Fails (SearchExhausted "search budget exhausted"))
  else Ok (ex + vec_len choices, acc ++ [req]).
Proof.
  intros Hin Hnd.
  assert (Hskip : forall l ex acc, Transition.effect req ∉ l -> ex <= Grammar.max_candidates g ->
    for_each l (ex, acc) (fun ch st => fails (E := Error) (try_choice g req ch st)) =
    if Grammar.max_candidates g <? ex + vec_len l
    then Err (Fails (SearchExhausted "search budget exhausted"))
    else Ok (ex + vec_len l, acc)).
  { clear. induction l as [|ch l IH]; intros ex acc Hni Hex.
    - unfold vec_len. cbn. eval_tests. by rewrite Z.add_0_r.
    - unfold try_choice. cbn [for_each fst snd].
      replace (ex + vec_len (ch :: l)) with (ex + 1 + vec_len l) by (unfold vec_len; cbn; lia).
      destruct (Grammar.max_candidates g <? ex + 1) eqn:Hb; split_bools.
      + unfold vec_len. eval_tests. done.
      + cbn. replace (bool_decide _ && bool_decide _) with false; [apply IH; [set_solver|lia]|].
        symmetry. apply andb_false_iff. destruct ch as [n o].
        destruct (decide (n = Transition.next_state req)) as [->|Hn];
          [right | left; by apply bool_decide_eq_false_2].
        apply bool_decide_eq_false_2. cbn. intros ->. apply Hni. left. }
  apply list_elem_of_split in Hin as (l1 & l2 & ->).
  apply NoDup_app in Hnd as (_ & Hni1 & Hnd2). apply NoDup_cons in Hnd2 as [Hni2 _].
  destruct (decide (ex <= Grammar.max_candidates g)) as [Hex|Hex].
  2:{ destruct l1 as [|ch l1]; cbn [for_each app]; unfold try_choice, vec_len; cbn [fst snd length];
      eval_tests; done. }
  rewrite for_each_app, Hskip; [|intros Hin; by apply (Hni1 _ Hin); left|done].
  replace (ex + vec_len (l1 ++ Transition.effect req :: l2)) with (ex + vec_len l1 + 1 + vec_len l2)
    by (unfold vec_len; rewrite length_app; cbn; lia).
  assert (0 <= vec_len l1 /\ 0 <= vec_len l2) as [] by (unfold vec_len; lia).
  destruct (Grammar.max_candidates g <? ex + vec_len l1) eqn:Hb; split_bools.
  { cbn [fails map_err mbind result_bind]. eval_tests. done. }
  cbn [mbind result_bind for_each]. rewrite try_choice_required.
  destruct (Grammar.max_candidates g <? ex + vec_len l1 + 1) eqn:Hb'; split_bools.
  { cbn [fails map_err mbind result_bind]. eval_tests. done. }
  cbn [fails map_err mbind result_bind]. by rewrite Hskip by (done || lia).
Qed.

Lemma choose_all g (m : obligation_map) (cells choices : list (string * string)) ex acc :
  NoDup choices -> choices <> [] -> ex <= Grammar.max_candidates g ->
  Forall (fun k => exists t, bt_get k m = Some t /\ Transition.effect t ∈ choices) cells ->
  for_each cells (ex, acc) (fun k st =>
    required ← or_panic (bt_get k m);
    for_each choices st (fun ch st => fails (E := Error) (try_choice g required ch st))) =
  if Grammar.max_candidates g <? ex + vec_len cells * vec_len choices
  then Err (Fails (SearchExhausted "search budget exhausted"))
  else Ok (ex + vec_len cells * vec_len choices, acc ++ omap (fun k => bt_get k m) cells).
Proof.
  intros Hnd Hne Hex Hall. revert ex acc Hex.
  induction Hall as [|k cells (t & Hget & Hin) _ IH]; intros ex acc Hex.
  - unfold vec_len. cbn. eval_tests. by rewrite Z.add_0_r, app_nil_r.
  - cbn [for_each omap list_omap]. rewrite Hget. cbn [or_panic ok_or mbind result_bind].
    rewrite try_choices by done.
    replace (ex + vec_len (k :: cells) * vec_len choices)
      with (ex + vec_len choices + vec_len cells * vec_len choices) by (unfold vec_len; cbn; lia).
    assert (0 <= vec_len cells * vec_len choices) by (unfold vec_len; lia).
    destruct (Grammar.max_candidates g <? ex + vec_len choices) eqn:Hb; split_bools.
    { cbn [fails map_err mbind result_bind]. eval_tests. done. }
    cbn [mbind result_bind]. rewrite IH by done.
    destruct (_ <? _); [done|]. by rewrite <- app_assoc.
Qed.

(** The whole of fsm-v0, once the obligations are known to be complete. *)
Lemma reconstruct_v0_eq comp ver g cs m :
  Grammar.ok g -> Forall (Transition.ok g) (omap FragmentContent.transition cs) ->
  for_each (omap FragmentContent.transition cs) [] (add_obligation g) = Ok m ->
  obligations_of (omap FragmentContent.transition cs) m ->
  let cells := pairs (Grammar.states g) (Grammar.inputs g) in
  let n := vec_len cells * (vec_len (Grammar.states g) * vec_len (Grammar.outputs g)) in
  (forall k, k ∈ cells -> exists t, bt_get k m = Some t) ->
  vec_len m = vec_len (Grammar.states g) * vec_len (Grammar.inputs g) ->
  reconstruct_v0 comp ver g cs =
  if Grammar.max_candidates g <? n then Err (Fails (SearchExhausted "search budget exhausted"))
  else Ok ({| Candidate.component := comp; Candidate.interface_version := ver;
              Candidate.grammar := g;
              Candidate.transitions := omap (fun k => bt_get k m) cells |}, n).
Proof.
  intros Hg Hok Hm [_ Hob] cells n Hall Hlen. unfold reconstruct_v0. rewrite Hm.
  cbn [fails map_err mbind result_bind]. rewrite Hlen, Z.eqb_refl. cbn [negb].
  pose proof Hg as (_ & ((Hone & Hout & _) & _) & ((Hsne & Hst & _) & _) & _ & _ & _ & Hmax).
  set (choices := pairs (Grammar.states g) (Grammar.outputs g)).
  assert (Hch : vec_len choices = vec_len (Grammar.states g) * vec_len (Grammar.outputs g))
    by (unfold vec_len, choices; rewrite pairs_length; lia).
  assert (Hrun : forall f st, for_each (Grammar.states g) st (fun state st =>
      for_each (Grammar.inputs g) st (fun input st =>
        required ← or_panic (bt_get (state, input) m);
        for_each (Grammar.states g) st (fun next_state st =>
          for_each (Grammar.outputs g) st (fun output st => f required (next_state, output) st)))) =
    for_each cells st (fun k st =>
      required ← or_panic (E := Error) (bt_get k m);
      for_each choices st (f required : _ -> Z * list Transition.Transition -> _))).
  { intros f st. unfold cells. rewrite <- for_each_pairs.
    apply for_each_ext. intros s st'. apply for_each_ext. intros i st''.
    destruct (or_panic _) as [req|]; [|done]. cbn [mbind result_bind].
    apply (for_each_pairs (f req)). }
  rewrite (Hrun (fun req ch st => fails (try_choice g req ch st))).
  rewrite choose_all; [ | by apply pairs_NoDup | | lia | ].
  - rewrite Hch, Z.add_0_l. subst n. destruct (_ <? _); [done|]. by rewrite app_nil_l.
  - destruct (Grammar.states g) as [|s sts]; [done|]. by destruct (Grammar.outputs g).
  - apply Forall_forall. intros k Hk. destruct (Hall k Hk) as [t Ht]. exists t. split; [done|].
    apply Hob in Ht as [_ Ht]. rewrite Forall_forall in Hok.
    destruct (Hok _ Ht) as (_ & ? & _ & ?). by apply elem_of_pairs.
Qed.

Lemma omap_keys (ts : list Transition.Transition) (m : obligation_map) (cells : list (string * string)) :
  obligations_of ts m -> (forall k, k ∈ cells -> exists t, bt_get k m = Some t) ->
  let l := omap (fun k => bt_get k m) cells in
  Transition.key <$> l = cells /\ (forall t, t ∈ l <-> Transition.key t ∈ cells /\ t ∈ ts).
Proof.
  intros [_ Hob] Hall l. split.
  - subst l. induction cells as [|k cells IH]; [done|].
    destruct (Hall k ltac:(left)) as [t Ht]. cbn [omap list_omap]. rewrite Ht, fmap_cons.
    apply Hob in Ht as [-> _]. f_equal. apply IH. intros k' Hk'. apply Hall. by right.
  - intros t. unfold l. rewrite list_elem_of_omap. split.
    + intros (k & Hk & Ht). apply Hob in Ht as [<- Ht]. done.
    + intros [Hk Ht]. exists (Transition.key t). split; [done|]. by apply Hob.
Qed.

Lemma reconstruct_v0_ok comp ver g cs c n :
  Grammar.ok g -> reconstruct_v0 comp ver g cs = Ok (c, n) ->
  let ts := omap FragmentContent.transition cs in
  let cells := pairs (Grammar.states g) (Grammar.inputs g) in
  (Candidate.component c = comp /\ Candidate.interface_version c = ver /\ Candidate.grammar c = g) /\
  Forall (Transition.ok g) ts /\
  Transition.key <$> Candidate.transitions c = cells /\
  (forall t, t ∈ Candidate.transitions c <-> t ∈ ts) /\
  n = vec_len cells * (vec_len (Grammar.states g) * vec_len (Grammar.outputs g)) /\
  n <= Grammar.max_candidates g.
Proof.
  intros Hg Hrun ts cells. pose proof (add_obligations g ts) as Hadd.
  destruct (for_each ts [] (add_obligation g)) as [m|e] eqn:Hm.
  2:{ unfold reconstruct_v0 in Hrun. fold ts in Hrun. by rewrite Hm in Hrun. }
  destruct Hadd as [Hok Hob]. pose proof (obligations_complete g ts m Hg Hok Hob) as Hcomp.
  cbv zeta in Hcomp. fold cells in Hcomp. destruct (_ =? _) eqn:Hlen in Hcomp.
  2:{ unfold reconstruct_v0 in Hrun. fold ts in Hrun. rewrite Hm in Hrun.
      cbn [fails map_err mbind result_bind] in Hrun. by rewrite Hlen in Hrun. }
  apply Z.eqb_eq in Hlen.
  rewrite (reconstruct_v0_eq comp ver g cs m Hg Hok Hm Hob Hcomp Hlen) in Hrun.
  destruct (_ <? _) eqn:Hb; split_bools; [done|]. injection Hrun as <- <-.
  cbn [Candidate.component Candidate.interface_version Candidate.grammar Candidate.transitions].
  destruct (omap_keys ts m cells Hob Hcomp) as [Hk Hin].
  split_and!; try done. intros t. fold cells. rewrite Hin. split; [tauto|]. intros Ht. split; [|done].
  rewrite Forall_forall in Hok. destruct (Hok _ Ht) as (? & _ & ? & _). by apply elem_of_pairs.
Qed.

(** A candidate of the search is the only accepted table. *)
Lemma reconstruct_v1_ok comp ver g cs c n :
  Grammar.ok g -> reconstruct_v1 comp ver g cs = Ok (c, n) ->
  (Candidate.component c = comp /\ Candidate.interface_version c = ver /\ Candidate.grammar c = g) /\
  admitted g cs (tables g) = [Candidate.transitions c] /\
  n = vec_len (tables g) /\ n <= Grammar.max_candidates g.
Proof.
  intros Hg Hrun. unfold reconstruct_v1 in Hrun. rewrite enumerate_root in Hrun.
  destruct (scan g cs (tables g) (0, [])) as [[ex sols]|] eqn:Hscan; [|done].
  cbn [mbind result_bind solutions examined fst snd] in Hrun.
  destruct sols as [|t [|]]; [done| |done]. injection Hrun as <- <-.
  pose proof Hg as (_ & _ & _ & _ & _ & _ & Hmax).
  apply scan_exhaustive in Hscan as (Hsols & Hex & Hbound);
    [|lia|lia|by cbn|by cbn]. cbn [app] in Hsols. rewrite Z.add_0_l in Hex.
  split_and!; [done.. | | ].
  - by rewrite Hex.
  - apply Hbound. intros Hnil. rewrite Hnil in Hsols. done.
Qed.

Lemma reconstruct_v0_total comp ver g cs :
  Grammar.ok g -> reconstruct_v0 comp ver g cs <> Err Panics.
Proof.
  intros Hg. pose proof (add_obligations g (omap FragmentContent.transition cs)) as Hadd.
  destruct (for_each (omap FragmentContent.transition cs) [] (add_obligation g)) as [m|e] eqn:Hm.
  2:{ unfold reconstruct_v0. by rewrite Hm. }
  destruct Hadd as [Hok Hob]. pose proof (obligations_complete g _ m Hg Hok Hob) as Hcomp.
  cbv zeta in Hcomp. destruct (_ =? _) eqn:Hlen in Hcomp.
  - apply Z.eqb_eq in Hlen. rewrite (reconstruct_v0_eq comp ver g cs m Hg Hok Hm Hob Hcomp Hlen).
    by destruct (_ <? _).
  - unfold reconstruct_v0. rewrite Hm. cbn [fails map_err mbind result_bind]. by rewrite Hlen.
Qed.

Lemma reconstruct_total comp ver g cs :
  Grammar.ok g -> reconstruct comp ver g cs <> Err Panics.
Proof.
  intros Hg. unfold reconstruct. destruct (String.eqb _ _); [by apply reconstruct_v0_total|].
  destruct (String.eqb _ _); [|done]. by destruct (reconstruct_v1 _ _ _ _).
Qed.

(** Either version returns a candidate for the component asked for. *)
Lemma reconstruct_identity comp ver g cs c n :
  Grammar.ok g -> reconstruct comp ver g cs = Ok (c, n) ->
  Candidate.component c = comp /\ Candidate.interface_version c = ver /\ Candidate.grammar c = g.
Proof.
  intros Hg. unfold reconstruct. destruct (String.eqb _ _).
  - intros Hr. by apply reconstruct_v0_ok in Hr as (? & _).
  - destruct (String.eqb _ _); [|done]. intros Hr. unfold fails in Hr.
    apply map_err_Ok, reconstruct_v1_ok in Hr as (? & _); done.
Qed.

(** * Properties *)

(** C1: when the fsm-v1 search returns a candidate, that candidate is a total
    machine over the grammar that meets all the evidence used by the search, every
    other machine over the grammar that meets it behaves the same everywhere, and
    the search has examined all of the tables, within its budget. *)
Theorem reconstruct_v1_unique comp ver g cs c n :
  Grammar.ok g -> reconstruct_v1 comp ver g cs = Ok (c, n) ->
  let d := Fsm.of_transitions (Candidate.transitions c) in
  (Candidate.component c = comp /\ Candidate.interface_version c = ver /\ Candidate.grammar c = g) /\
  Fsm.implements d g /\
  Forall (fun x => binding x -> Fsm.meets d g x) cs /\
  (forall d', Fsm.implements d' g -> Forall (fun x => binding x -> Fsm.meets d' g x) cs ->
     forall s i, d' s i = d s i) /\
  n = (vec_len (Grammar.states g) * vec_len (Grammar.outputs g))
        ^ (vec_len (Grammar.states g) * vec_len (Grammar.inputs g)) /\
  n <= Grammar.max_candidates g.
Proof.
  intros Hg Hrun d. apply reconstruct_v1_ok in Hrun as (Hid & Hadm & Hn & Hbound); [|done].
  assert (Honly : forall t', accepted g cs t' /\ t' ∈ tables g <-> t' = Candidate.transitions c).
  { intros t'. by rewrite <- elem_of_admitted, Hadm, list_elem_of_singleton. }
  destruct (proj2 (Honly _) eq_refl) as [Hacc Hin].
  split_and!; [apply Hid.. | by apply tables_implement | by apply satisfies_true | | |done].
  - intros d' Hd' Hall s i. destruct (tabulate_tables d' g Hg Hd') as (t' & Ht' & Hext).
    assert (t' = Candidate.transitions c) as ->
      by (apply Honly; split; [by apply (meets_table g t' d')|done]).
    by rewrite <- Hext.
  - by rewrite Hn, tables_length.
Qed.

(** A one-state, one-input grammar with two outputs, and evidence for it. *)
Definition tiny : Grammar.Grammar :=
  {| Grammar.version := "fsm-v1"; Grammar.inputs := ["i"]; Grammar.outputs := ["x"; "y"];
     Grammar.states := ["s"]; Grammar.initial_state := "s"; Grammar.max_candidates := 10 |}.
Definition tiny_evidence : list FragmentContent.FragmentContent :=
  [FragmentContent.Trace Training "s" ["i"; "i"] ["y"; "y"];
   FragmentContent.NegativeCase "s" ["i"] ["x"];
   FragmentContent.MetamorphicProperty "s" "i" 3].

Lemma tiny_ok : Grammar.ok tiny.
Proof. by apply Grammar.grammar_validate_ok. Qed.

Example reconstruct_v1_unique_witness :
  exists c, reconstruct_v1 "c" "1" tiny tiny_evidence = Ok (c, 2) /\
  Fsm.meets (Fsm.of_transitions (Candidate.transitions c)) tiny
    (FragmentContent.Trace Training "s" ["i"; "i"] ["y"; "y"]).
Proof.
  eexists. split; [vm_compute; reflexivity|].
  edestruct (reconstruct_v1_unique "c" "1" tiny tiny_evidence) as (_ & _ & Hall & _);
    [apply tiny_ok | vm_compute; reflexivity|].
  inversion Hall as [|?? H1 _]. by apply H1.
Defined.

(** C2: within the budget and for evidence over declared symbols, the fsm-v1
    search always decides: a candidate, or no machine over the grammar meets the
    evidence (contradictory), or two that differ both meet it (insufficient). *)
Theorem reconstruct_v1_decides comp ver g cs :
  Grammar.ok g -> Forall (scoped g) cs ->
  (vec_len (Grammar.states g) * vec_len (Grammar.outputs g))
    ^ (vec_len (Grammar.states g) * vec_len (Grammar.inputs g)) <= Grammar.max_candidates g ->
  let meeting d := Fsm.implements d g /\ Forall (fun x => binding x -> Fsm.meets d g x) cs in
  match reconstruct_v1 comp ver g cs with
  | Ok (c, _) => meeting (Fsm.of_transitions (Candidate.transitions c))
  | Err (ContradictoryEvidence _) => forall d, ~ meeting d
  | Err (InsufficientEvidence _) =>
      exists d1 d2 s i, meeting d1 /\ meeting d2 /\ d1 s i <> d2 s i
  | Err _ => False
  end.
Proof.
  intros Hg Hsc Hbudget meeting. rewrite <- tables_length in Hbudget.
  pose proof Hg as (_ & _ & _ & _ & _ & _ & Hmax).
  assert (Hdec : Forall (fun t => exists b, satisfies t g cs = Ok b) (tables g)).
  { apply Forall_forall. intros t Ht. apply satisfies_decides; [|done].
    by apply tables_implement. }
  assert (Hmeet : forall t, t ∈ admitted g cs (tables g) -> meeting (Fsm.of_transitions t)).
  { intros t [Hacc Ht]%elem_of_admitted. split; [by apply tables_implement|].
    by apply satisfies_true. }
  pose proof (scan_outcome g cs (tables g) 0 [] ltac:(lia) ltac:(lia) ltac:(by cbn) Hdec) as Hout.
  cbv zeta in Hout. rewrite take_ge in Hout by (unfold vec_len in Hbudget; lia).
  cbn [app] in Hout. rewrite Z.add_0_l in Hout.
  rewrite (proj2 (Z.ltb_ge (Grammar.max_candidates g) (vec_len (tables g)))) in Hout by lia.
  unfold reconstruct_v1. rewrite enumerate_root.
  destruct (admitted g cs (tables g)) as [|t1 [|t2 rest]] eqn:Hadm.
  - cbn in Hout. rewrite Hout. cbn.
    intros d [Hd Hall]. destruct (tabulate_tables d g Hg Hd) as (t & Ht & Hext).
    assert (Hin : t ∈ admitted g cs (tables g))
      by (apply elem_of_admitted; split; [by apply (meets_table g t d)|done]).
    rewrite Hadm in Hin. set_solver.
  - cbn in Hout. rewrite Hout. cbn.
    apply Hmeet. left.
  - replace (1 <? vec_len (t1 :: t2 :: rest)) with true in Hout
      by (symmetry; apply Z.ltb_lt; unfold vec_len; cbn; lia).
    destruct Hout as [ex' ->]. cbn.
    assert (Hne : t1 <> t2).
    { pose proof (admitted_NoDup g cs _ (tables_NoDup g Hg)) as Hnd. rewrite Hadm in Hnd. inversion Hnd as [|?? Hni]. set_solver. }
    assert (Hin : forall t, t ∈ t1 :: t2 :: rest -> t ∈ tables g)
      by (intros t; rewrite <- Hadm, elem_of_admitted; tauto).
    destruct (tables_differ g t1 t2) as (s & i & Hdiff); [done | apply Hin; set_solver.. | done |].
    exists (Fsm.of_transitions t1), (Fsm.of_transitions t2), s, i.
    split_and!; [apply Hmeet; set_solver.. | done].
Qed.

Example reconstruct_v1_decides_witness :
  reconstruct_v1 "c" "1" tiny [] = Err (InsufficientEvidence "evidence admits multiple candidates") /\
  exists d1 d2 s i, Fsm.implements d1 tiny /\ Fsm.implements d2 tiny /\ d1 s i <> d2 s i.
Proof.
  split; [vm_compute; reflexivity|].
  pose proof (reconstruct_v1_decides "c" "1" tiny [] tiny_ok ltac:(constructor) ltac:(done)) as H.
  assert (reconstruct_v1 "c" "1" tiny [] =
    Err (InsufficientEvidence "evidence admits multiple candidates")) as E by (vm_compute; reflexivity).
  rewrite E in H. destruct H as (d1 & d2 & s & i & [H1 _] & [H2 _] & Hd). eauto 10.
Defined.

(** With more tables than the budget, the search never claims an answer it has
    not checked: it reports ambiguity if two of the tables it reaches are accepted,
    and otherwise that the budget is exhausted, never a candidate. *)
Theorem reconstruct_v1_exhausts comp ver g cs :
  Grammar.ok g -> Forall (scoped g) cs -> Grammar.max_candidates g < vec_len (tables g) ->
  let reached := take (Z.to_nat (Grammar.max_candidates g)) (tables g) in
  reconstruct_v1 comp ver g cs =
  if 1 <? vec_len (admitted g cs reached)
  then Err (InsufficientEvidence "evidence admits multiple candidates")
  else Err (SearchExhausted "search budget exhausted").
Proof.
  intros Hg Hsc Hbudget reached. pose proof Hg as (_ & _ & _ & _ & _ & _ & Hmax).
  assert (Hdec : Forall (fun t => exists b, satisfies t g cs = Ok b) (tables g)).
  { apply Forall_forall. intros t Ht. apply satisfies_decides; [|done].
    by apply tables_implement. }
  pose proof (scan_outcome g cs (tables g) 0 [] ltac:(lia) ltac:(lia) ltac:(by cbn) Hdec) as Hout.
  cbv zeta in Hout. cbn [app] in Hout. rewrite Z.sub_0_r, Z.add_0_l in Hout. fold reached in Hout.
  rewrite (proj2 (Z.ltb_lt (Grammar.max_candidates g) (vec_len (tables g)))) in Hout by lia.
  unfold reconstruct_v1. rewrite enumerate_root.
  destruct (1 <? vec_len (admitted g cs reached)) eqn:Htwo; [|by rewrite Hout].
  destruct Hout as [ex' ->]. cbn [mbind result_bind solutions snd].
  destruct (admitted g cs reached) as [|? [|]]; done.
Qed.

(** Two states: 256 tables. *)
Definition small : Grammar.Grammar :=
  {| Grammar.version := "fsm-v1"; Grammar.inputs := ["i"; "j"]; Grammar.outputs := ["x"; "y"];
     Grammar.states := ["s"; "t"]; Grammar.initial_state := "s"; Grammar.max_candidates := 5 |}.

Lemma small_ok : Grammar.ok small.
Proof. by apply Grammar.grammar_validate_ok. Qed.

Example reconstruct_v1_exhausts_witness :
  reconstruct_v1 "c" "1" small [FragmentContent.Transition "s" "i" "t" "y"] =
  Err (SearchExhausted "search budget exhausted").
Proof.
  assert (H : admitted small [FragmentContent.Transition "s" "i" "t" "y"]
    (take (Z.to_nat (Grammar.max_candidates small)) (tables small)) = []) by (vm_compute; reflexivity).
  rewrite (reconstruct_v1_exhausts "c" "1" small [FragmentContent.Transition "s" "i" "t" "y"]);
    [|apply small_ok | repeat constructor | vm_compute; reflexivity].
  by rewrite H.
Defined.

(** Fsm-v0 returns exactly the machine written out in the transition evidence,
    one transition per cell in grammar order, never panics, and each of its errors
    means what it says. *)
Theorem reconstruct_v0_spec comp ver g cs :
  Grammar.ok g ->
  let ts := omap FragmentContent.transition cs in
  let cells := pairs (Grammar.states g) (Grammar.inputs g) in
  let n := vec_len cells * (vec_len (Grammar.states g) * vec_len (Grammar.outputs g)) in
  match reconstruct_v0 comp ver g cs with
  | Ok (c, examined) =>
      (Candidate.component c = comp /\ Candidate.interface_version c = ver /\ Candidate.grammar c = g) /\
      Forall (Transition.ok g) ts /\
      Transition.key <$> Candidate.transitions c = cells /\
      (forall t, t ∈ Candidate.transitions c <-> t ∈ ts) /\
      examined = n /\ n <= Grammar.max_candidates g
  | Err Panics => False
  | Err (Fails (InvalidEvidence _)) => exists t, t ∈ ts /\ ~ Transition.ok g t
  | Err (Fails (ContradictoryEvidence _)) =>
      exists t t', t ∈ ts /\ t' ∈ ts /\ Transition.key t = Transition.key t' /\ t <> t'
  | Err (Fails (InsufficientEvidence _)) => exists k, k ∈ cells /\ k ∉ Transition.key <$> ts
  | Err (Fails (SearchExhausted _)) => Grammar.max_candidates g < n
  | Err (Fails _) => False
  end.
Proof.
  intros Hg ts cells n. pose proof (reconstruct_v0_ok comp ver g cs) as Hsound.
  pose proof (add_obligations g ts) as Hadd.
  destruct (for_each ts [] (add_obligation g)) as [m|e] eqn:Hm.
  2:{ unfold reconstruct_v0. fold ts. rewrite Hm. by destruct e. }
  destruct Hadd as [Hok Hob]. pose proof (obligations_complete g ts m Hg Hok Hob) as Hcomp.
  cbv zeta in Hcomp. fold cells in Hcomp. destruct (_ =? _) eqn:Hlen in Hcomp.
  - apply Z.eqb_eq in Hlen.
    destruct (reconstruct_v0 comp ver g cs) as [[c examined]|e] eqn:Hrun.
    { destruct (Hsound c examined Hg eq_refl) as (? & ? & ? & ? & -> & ?). cbv zeta in *; tauto. }
    rewrite (reconstruct_v0_eq comp ver g cs m Hg Hok Hm Hob Hcomp Hlen) in Hrun.
    destruct (_ <? _) eqn:Hb in Hrun; split_bools; [|done]. by injection Hrun as <-.
  - unfold reconstruct_v0. fold ts. rewrite Hm. cbn [fails map_err mbind result_bind].
    rewrite Hlen. cbn [negb]. destruct Hcomp as (k & Hk & Hnone). exists k. split; [done|].
    intros (t & -> & Ht)%list_elem_of_fmap. destruct Hob as [_ Hob].
    rewrite (proj2 (Hob (Transition.key t) t)) in Hnone by done. done.
Qed.

Example reconstruct_v0_spec_witness :
  Forall (Transition.ok tiny) (omap FragmentContent.transition [FragmentContent.Transition "s" "i" "s" "x"]).
Proof.
  pose proof (reconstruct_v0_spec "c" "1" tiny [FragmentContent.Transition "s" "i" "s" "x"] tiny_ok) as H.
  cbv zeta in H.
  assert (exists c n, reconstruct_v0 "c" "1" tiny [FragmentContent.Transition "s" "i" "s" "x"] = Ok (c, n))
    as (c & n & E) by (do 2 eexists; vm_compute; reflexivity).
  rewrite E in H. apply H.
Defined.

(** The two grammar versions agree: whenever both reconstruct a candidate from
    the same evidence, it is the same candidate. *)
Theorem reconstruct_versions_agree comp ver g cs c0 n0 c1 n1 :
  Grammar.ok g ->
  reconstruct_v0 comp ver g cs = Ok (c0, n0) -> reconstruct_v1 comp ver g cs = Ok (c1, n1) ->
  c0 = c1.
Proof.
  intros Hg H0 H1.
  apply reconstruct_v0_ok in H0 as ((Hc0 & Hv0 & Hg0) & Hok & Hk & Hin0 & _); [|done].
  apply reconstruct_v1_ok in H1 as ((Hc1 & Hv1 & Hg1) & Hadm & _); [|done].
  destruct (proj1 (elem_of_admitted g cs (Candidate.transitions c1) (tables g)))
    as [Hacc Ht1]; [rewrite Hadm; left|].
  assert (Ht0 : Candidate.transitions c0 ∈ tables g).
  { apply elem_of_assignments. split; [done|]. apply Forall_forall. intros t Ht%Hin0.
    rewrite Forall_forall in Hok. destruct (Hok _ Ht) as (_ & ? & _ & ?). by apply elem_of_pairs. }
  assert (Candidate.transitions c0 = Candidate.transitions c1) as Heq.
  { apply (tables_sub_eq g); [done..|]. intros t Ht. apply Hin0 in Ht.
    apply list_elem_of_omap in Ht as (x & Hx & Htr).
    apply satisfies_true in Hacc. rewrite Forall_forall in Hacc. specialize (Hacc _ Hx).
    destruct x; cbn in Htr; try done. injection Htr as <-.
    apply Fsm.of_transitions_spec; [by apply (tables_cells_NoDup g)|]. by apply Hacc. }
  destruct c0, c1. cbn in *. by subst.
Qed.

Example reconstruct_versions_agree_witness :
  exists c, reconstruct_v0 "c" "1" tiny [FragmentContent.Transition "s" "i" "s" "x"] = Ok (c, 2) /\
            reconstruct_v1 "c" "1" tiny [FragmentContent.Transition "s" "i" "s" "x"] = Ok (c, 2).
Proof.
  eexists. split; [vm_compute; reflexivity|].
  destruct (reconstruct_v1 "c" "1" tiny [FragmentContent.Transition "s" "i" "s" "x"]) as [[c n]|] eqn:E1;
    [|vm_compute in E1; discriminate E1].
  assert (n = 2) as -> by (vm_compute in E1; congruence).
  rewrite <- (reconstruct_versions_agree "c" "1" tiny
    [FragmentContent.Transition "s" "i" "s" "x"] _ 2 c 2 tiny_ok ltac:(vm_compute; reflexivity) E1).
  reflexivity.
Defined.
