(* ===== verification/CheckerWire.v ===== *)
(** src/checker_wire.rs and the decoder of src/checker.rs: the length-prefixed
    binary form in which a candidate travels to the checker. *)
From S2P Require Import Prelude Model.
Import Model.

Definition MAGIC : list Z := bytes_of_string "ANCKM1" ++ [0; 0].

(** * Encoder *)

Definition push_len (output : list Z) (value : Z) : result Error (list Z) :=
  value ← ok_or (if value <=? u32_max then Some value else None)
            (CheckerRejected "checker wire value is too large");
  Ok (output ++ be_bytes 4 value).

Definition push_string (output : list Z) (value : string) : result Error (list Z) :=
  output ← push_len output (str_len value);
  Ok (output ++ bytes_of_string value).

Definition push_strings (output : list Z) (values : list string) : result Error (list Z) :=
  output ← push_len output (vec_len values);
  for_each values output (fun value output => push_string output value).

Definition encode_candidate (candidate : Candidate.Candidate) : result Error (list Z) :=
  let grammar := Candidate.grammar candidate in
  output ← push_string MAGIC (Candidate.component candidate);
  output ← push_string output (Candidate.interface_version candidate);
  output ← push_string output (Grammar.version grammar);
  output ← push_strings output (Grammar.inputs grammar);
  output ← push_strings output (Grammar.outputs grammar);
  output ← push_strings output (Grammar.states grammar);
  output ← push_string output (Grammar.initial_state grammar);
  let output := output ++ be_bytes 8 (Grammar.max_candidates grammar) in
  output ← push_len output (vec_len (Candidate.transitions candidate));
  for_each (Candidate.transitions candidate) output (fun transition output =>
    output ← push_string output (Transition.state transition);
    output ← push_string output (Transition.input transition);
    output ← push_string output (Transition.next_state transition);
    push_string output (Transition.output transition)).

(** * Decoder *)

Module Reader.
Record Reader := { input : list Z; offset : Z }.

Definition take (self : Reader) (length : Z) : result Error (list Z * Reader) :=
  end_ ← ok_or (match checked_add u64_max (offset self) length with
                | Some end_ => if end_ <=? vec_len (input self) then Some end_ else None
                | None => None
                end) (CheckerRejected "checker wire is truncated");
  Ok (list.take (Z.to_nat length) (list.drop (Z.to_nat (offset self)) (input self)),
      {| input := input self; offset := end_ |}).

(** [usize::try_from] of a [u32] cannot fail on 64-bit targets. *)
Definition length (self : Reader) : result Error (Z * Reader) :=
  '(bytes, self) ← take self 4;
  Ok (be_value bytes, self).

Definition string (self : Reader) : result Error (String.string * Reader) :=
  '(n, self) ← length self;
  if 65536 <? n then Err (CheckerRejected "checker wire string is too large") else
  '(bytes, self) ← take self n;
  text ← ok_or (from_utf8 bytes) (CheckerRejected "checker wire string is not UTF-8");
  Ok (text, self).

(** [(0..count).map(|_| read()).collect()], and the loop that pushes. *)
Fixpoint repeat {A} (read : Reader -> result Error (A * Reader)) (count : nat) (self : Reader)
  : result Error (list A * Reader) :=
  match count with
  | O => Ok ([], self)
  | S count' =>
      '(x, self) ← read self;
      '(xs, self) ← repeat read count' self;
      Ok (x :: xs, self)
  end.

Definition strings (self : Reader) : result Error (list String.string * Reader) :=
  '(count, self) ← length self;
  if 65536 <? count then Err (CheckerRejected "checker wire vector is too large")
  else repeat string (Z.to_nat count) self.

(** The struct literal of the transition loop. *)
Definition transition (self : Reader) : result Error (Transition.Transition * Reader) :=
  '(state, self) ← string self;
  '(input, self) ← string self;
  '(next_state, self) ← string self;
  '(output, self) ← string self;
  Ok ({| Transition.state := state; Transition.input := input;
         Transition.next_state := next_state; Transition.output := output |}, self).
End Reader.

Definition decode_candidate (bytes : list Z) : result Error Candidate.Candidate :=
  let reader := {| Reader.input := bytes; Reader.offset := 0 |} in
  '(magic, reader) ← Reader.take reader 8;
  if negb (bool_decide (magic = MAGIC))
  then Err (CheckerRejected "checker wire magic mismatch") else
  '(component, reader) ← Reader.string reader;
  '(interface_version, reader) ← Reader.string reader;
  '(version, reader) ← Reader.string reader;
  '(inputs, reader) ← Reader.strings reader;
  '(outputs, reader) ← Reader.strings reader;
  '(states, reader) ← Reader.strings reader;
  '(initial_state, reader) ← Reader.string reader;
  '(max_candidates, reader) ← Reader.take reader 8;
  '(count, reader) ← Reader.length reader;
  if 256 <? count
  then Err (CheckerRejected "checker wire transition count exceeds the DSL bound") else
  '(transitions, reader) ← Reader.repeat Reader.transition (Z.to_nat count) reader;
  if negb (Reader.offset reader =? vec_len bytes)
  then Err (CheckerRejected "checker wire has trailing data") else
  Ok {| Candidate.component := component;
        Candidate.interface_version := interface_version;
        Candidate.grammar :=
          {| Grammar.version := version; Grammar.inputs := inputs; Grammar.outputs := outputs;
             Grammar.states := states; Grammar.initial_state := initial_state;
             Grammar.max_candidates := be_value max_candidates |};
        Candidate.transitions := transitions |}.

(** * The wire format *)

Definition wire_string (s : string) : list Z := be_bytes 4 (str_len s) ++ bytes_of_string s.
Definition wire_vec {A} (enc : A -> list Z) (xs : list A) : list Z :=
  be_bytes 4 (vec_len xs) ++ concat (enc <$> xs).
Definition wire_transition (t : Transition.Transition) : list Z :=
  wire_string (Transition.state t) ++ wire_string (Transition.input t) ++
  wire_string (Transition.next_state t) ++ wire_string (Transition.output t).
Definition wire_candidate (c : Candidate.Candidate) : list Z :=
  let g := Candidate.grammar c in
  MAGIC ++ wire_string (Candidate.component c) ++ wire_string (Candidate.interface_version c) ++
  wire_string (Grammar.version g) ++ wire_vec wire_string (Grammar.inputs g) ++
  wire_vec wire_string (Grammar.outputs g) ++ wire_vec wire_string (Grammar.states g) ++
  wire_string (Grammar.initial_state g) ++ be_bytes 8 (Grammar.max_candidates g) ++
  wire_vec wire_transition (Candidate.transitions c).

(** What the decoder accepts: Rust strings within the wire limits. *)
Definition string_fits (s : string) : Prop := utf8 s /\ str_len s <= 65536.
Definition strings_fit (ss : list string) : Prop := vec_len ss <= 65536 /\ Forall string_fits ss.
Definition transition_fits (t : Transition.Transition) : Prop :=
  string_fits (Transition.state t) /\ string_fits (Transition.input t) /\
  string_fits (Transition.next_state t) /\ string_fits (Transition.output t).
Definition candidate_fits (c : Candidate.Candidate) : Prop :=
  let g := Candidate.grammar c in
  (string_fits (Candidate.component c) /\ string_fits (Candidate.interface_version c)) /\
  (string_fits (Grammar.version g) /\ strings_fit (Grammar.inputs g) /\
   strings_fit (Grammar.outputs g) /\ strings_fit (Grammar.states g) /\
   string_fits (Grammar.initial_state g) /\ is_u64 (Grammar.max_candidates g)) /\
  vec_len (Candidate.transitions c) <= 256 /\ Forall transition_fits (Candidate.transitions c).

Lemma wire_vec_bytes {A} (enc : A -> list Z) xs :
  (forall x, Forall is_byte (enc x)) -> Forall is_byte (wire_vec enc xs).
Proof.
  intros Henc. apply Forall_app. split; [apply be_bytes_byte|].
  induction xs; cbn; [constructor|]. by apply Forall_app.
Qed.

Lemma wire_string_bytes s : Forall is_byte (wire_string s).
Proof. apply Forall_app. split; [apply be_bytes_byte | apply bytes_of_string_byte]. Qed.

Lemma wire_transition_bytes t : Forall is_byte (wire_transition t).
Proof. unfold wire_transition. rewrite !Forall_app. auto using wire_string_bytes. Qed.

#[export] Hint Resolve wire_vec_bytes wire_string_bytes wire_transition_bytes : anasemble.

Lemma wire_candidate_bytes c : Forall is_byte (wire_candidate c).
Proof.
  unfold wire_candidate. rewrite !Forall_app. split_and!; auto with anasemble.
  change MAGIC with [65; 78; 67; 75; 77; 49; 0; 0].
  repeat (apply Forall_cons_2; [unfold is_byte; lia|]). apply Forall_nil_2.
Qed.

(** ** The encoder writes the format *)

Lemma push_len_ok out n : n <= u32_max -> push_len out n = Ok (out ++ be_bytes 4 n).
Proof. intros Hn. unfold push_len. by rewrite (proj2 (Z.leb_le _ _)). Qed.

Lemma push_string_ok out s : str_len s <= 65536 -> push_string out s = Ok (out ++ wire_string s).
Proof.
  intros Hs. unfold push_string. rewrite push_len_ok by (unfold u32_max; lia).
  cbn [mbind result_bind]. by rewrite <- app_assoc.
Qed.

Lemma push_all {A} (enc : A -> list Z) (push : A -> list Z -> result Error (list Z)) xs out :
  Forall (fun x => forall out, push x out = Ok (out ++ enc x)) xs ->
  for_each xs out push = Ok (out ++ concat (enc <$> xs)).
Proof.
  intros Hall. revert out. induction Hall as [|x xs Hx _ IH]; intros out; cbn; [by rewrite app_nil_r|].
  rewrite Hx. cbn. rewrite IH. by rewrite <- app_assoc.
Qed.

Lemma push_strings_ok out ss : strings_fit ss -> push_strings out ss = Ok (out ++ wire_vec wire_string ss).
Proof.
  intros [Hn Hall]. unfold push_strings. rewrite push_len_ok by (unfold u32_max; lia).
  cbn [mbind result_bind]. rewrite (push_all wire_string); [by rewrite <- app_assoc|].
  eapply Forall_impl; [exact Hall|]. intros s [_ Hs] out'. by apply push_string_ok.
Qed.

Lemma encode_candidate_wire c : candidate_fits c -> encode_candidate c = Ok (wire_candidate c).
Proof.
  intros ((Hc & Hv) & (Hver & Hin & Hout & Hst & Hinit & Hmax) & Hn & Hts).
  unfold encode_candidate.
  repeat (first [rewrite push_string_ok by (apply Hc || apply Hv || apply Hver || apply Hinit)
                |rewrite push_strings_ok by done]; cbn [mbind result_bind]).
  rewrite push_len_ok by (unfold u32_max; lia). cbn [mbind result_bind].
  rewrite (push_all wire_transition).
  - unfold wire_candidate, wire_vec. by rewrite <- !app_assoc.
  - eapply Forall_impl; [exact Hts|]. intros t (H1 & H2 & H3 & H4) out'.
    destruct H1, H2, H3, H4. rewrite !push_string_ok by done. cbn [mbind result_bind].
    rewrite push_string_ok by done. cbn [mbind result_bind].
    rewrite push_string_ok by done. cbn [mbind result_bind].
    rewrite push_string_ok by done. unfold wire_transition. by rewrite <- !app_assoc.
Qed.

(** ** The decoder reads the format, and nothing else *)

Definition rest (r : Reader.Reader) : list Z := drop (Z.to_nat (Reader.offset r)) (Reader.input r).

(** A reader over a vector of bytes that fits in memory. *)
Definition wf_reader (r : Reader.Reader) : Prop :=
  0 <= Reader.offset r <= vec_len (Reader.input r) /\ vec_len (Reader.input r) <= u64_max /\
  Forall is_byte (Reader.input r).

(** [r'] is [r] after reading [bs]. *)
Definition consumes (r : Reader.Reader) (bs : list Z) (r' : Reader.Reader) : Prop :=
  Reader.input r' = Reader.input r /\ Reader.offset r' = Reader.offset r + vec_len bs /\
  rest r = bs ++ rest r'.

Lemma consumes_nil r r' : consumes r [] r' <-> r' = r.
Proof.
  unfold consumes. split; [|intros ->; unfold vec_len; simpl; split_and!; [done|lia|done]].
  intros (Hi & Ho & _). destruct r, r'. unfold vec_len in Ho. simpl in *. f_equal; [done|lia].
Qed.

Lemma rest_drop r n :
  wf_reader r -> 0 <= n ->
  rest {| Reader.input := Reader.input r; Reader.offset := Reader.offset r + n |} =
  drop (Z.to_nat n) (rest r).
Proof.
  intros [Hr _] Hn. unfold rest. simpl. rewrite drop_drop. f_equal. lia.
Qed.

Lemma rest_length r : wf_reader r -> vec_len (rest r) = vec_len (Reader.input r) - Reader.offset r.
Proof. intros [Hr _]. unfold rest, vec_len in *. rewrite length_drop. lia. Qed.

Lemma rest_bytes r : wf_reader r -> Forall is_byte (rest r).
Proof. intros (_ & _ & Hb). unfold rest. by apply Forall_drop. Qed.

Lemma consumes_wf r bs r' : wf_reader r -> consumes r bs r' -> wf_reader r' /\ Forall is_byte bs.
Proof.
  intros Hr (Hi & Ho & Hrest). pose proof (rest_bytes r Hr) as Hb. rewrite Hrest in Hb.
  apply Forall_app in Hb as [Hbs _]. split; [|done].
  pose proof (rest_length r Hr) as Hlen. rewrite Hrest in Hlen. unfold vec_len in Hlen.
  rewrite length_app in Hlen. destruct Hr as (H1 & H2 & H3).
  unfold wf_reader, vec_len in *. rewrite Hi, Ho. split_and!; [lia|lia|lia|done].
Qed.

Lemma consumes_app r a b r' :
  wf_reader r -> consumes r (a ++ b) r' <-> exists m, consumes r a m /\ consumes m b r'.
Proof.
  intros Hr. unfold consumes, vec_len. rewrite length_app. split.
  - intros (Hi & Ho & Hrest).
    exists {| Reader.input := Reader.input r; Reader.offset := Reader.offset r + vec_len a |}.
    rewrite rest_drop, Hrest by (done || unfold vec_len; lia). unfold vec_len. simpl.
    rewrite Nat2Z.id, <- app_assoc, drop_app_length. split_and!; try done. lia.
  - intros (m & (Hi1 & Ho1 & Hr1) & (Hi2 & Ho2 & Hr2)).
    split_and!; [congruence | lia | by rewrite Hr1, Hr2, <- app_assoc].
Qed.

Lemma take_iff r n bs r' :
  wf_reader r -> 0 <= n <= u64_max ->
  Reader.take r n = Ok (bs, r') <-> consumes r bs r' /\ vec_len bs = n.
Proof.
  intros Hr Hn. pose proof Hr as (Hoff & Hlen & _). unfold Reader.take, checked_add.
  pose proof (rest_length r Hr) as Hrl.
  destruct (decide (Reader.offset r + n <= vec_len (Reader.input r))) as [Hfit|Hshort].
  - rewrite !(proj2 (Z.leb_le _ _)) by lia. cbn [ok_or mbind result_bind]. split.
    + intros [= <- <-]. fold (rest r).
      assert (vec_len (take (Z.to_nat n) (rest r)) = n) as Hl
        by (unfold vec_len in *; rewrite length_take; lia).
      split; [|done]. unfold consumes. rewrite Hl, rest_drop, take_drop by (done || lia). done.
    + intros [(Hi & Ho & Hrest) Hl]. fold (rest r). rewrite Hrest. unfold vec_len in Hl.
      replace (Z.to_nat n) with (length bs) by lia. rewrite take_app_length.
      destruct r' as [i o]. simpl in *. subst. by unfold vec_len.
  - split; [|intros [(Hi & Ho & Hrest) Hl]].
    + destruct (_ <=? u64_max); [|done]. by rewrite (proj2 (Z.leb_gt _ _)) by lia.
    + exfalso. rewrite Hrest in Hrl. unfold vec_len in *. rewrite length_app in Hrl. lia.
Qed.

(** [read] accepts exactly the encodings of the values that satisfy [ok]. *)
Definition reads {A} (read : Reader.Reader -> result Error (A * Reader.Reader))
  (enc : A -> list Z) (ok : A -> Prop) : Prop :=
  forall r x r', wf_reader r -> read r = Ok (x, r') <-> ok x /\ consumes r (enc x) r'.

Lemma length_reads : reads Reader.length (be_bytes 4) is_u32.
Proof.
  intros r x r' Hr. unfold Reader.length. rewrite bind_pair_Ok. split.
  - intros (bs & m & Ht & [= <- <-]). apply take_iff in Ht as [Hc Hl]; [|done|unfold u64_max; lia].
    apply consumes_wf in Hc as Hbs; [|done]. destruct Hbs as [_ Hbs]. unfold vec_len in Hl.
    pose proof (be_value_bound bs Hbs) as Hv. replace (length bs) with 4%nat in Hv by lia.
    split; [unfold is_u32, u32_max; simpl in Hv; lia|].
    replace 4%nat with (length bs) by lia. by rewrite be_bytes_value.
  - intros [Hx Hc]. exists (be_bytes 4 x), r'. split.
    + apply take_iff; [done|unfold u64_max; lia|]. split; [done|].
      unfold vec_len. by rewrite be_bytes_length.
    + rewrite be_value_bytes_small; [done|]. unfold is_u32, u32_max in Hx. simpl. lia.
Qed.

Lemma string_reads : reads Reader.string wire_string string_fits.
Proof.
  intros r x r' Hr. unfold Reader.string. rewrite bind_pair_Ok. split.
  - intros (n & m & Hn & Hrun). apply length_reads in Hn as [Hn Hc1]; [|done].
    apply consumes_wf in Hc1 as Hm; [|done]. destruct Hm as [Hm _].
    destruct (65536 <? n) eqn:Hbig; [done|]. split_bools.
    apply bind_pair_Ok in Hrun as (bs & m' & Ht & Hrun). unfold is_u32 in Hn.
    apply take_iff in Ht as [Hc2 Hl]; [|done|unfold u64_max; lia].
    apply bind_Ok in Hrun as (s & Hs & [= <- <-]). apply ok_or_Ok in Hs.
    apply consumes_wf in Hc2 as Hbs; [|done]. destruct Hbs as [_ Hbs].
    apply from_utf8_utf8 in Hs as [Hu Hbytes]; [|done].
    assert (str_len s = n) as Hsl by (rewrite <- bytes_of_string_length, Hbytes; done).
    split; [split; [done|lia]|]. unfold wire_string. apply consumes_app; [done|].
    exists m. by rewrite Hsl, Hbytes.
  - intros [[Hu Hsl] Hc]. unfold wire_string in Hc. apply consumes_app in Hc as (m & Hc1 & Hc2); [|done].
    apply consumes_wf in Hc1 as Hm; [|done]. destruct Hm as [Hm _].
    pose proof (str_len_nonneg x). exists (str_len x), m. split.
    { apply length_reads; [done|]. split; [unfold is_u32, u32_max; lia|done]. }
    rewrite (proj2 (Z.ltb_ge _ _)) by lia. apply bind_pair_Ok. exists (bytes_of_string x), r'. split.
    + apply take_iff; [done|unfold u64_max; lia|]. split; [done|]. apply bytes_of_string_length.
    + by rewrite from_utf8_bytes.
Qed.

Section Repeat.
Context {A} (read : Reader.Reader -> result Error (A * Reader.Reader))
  (enc : A -> list Z) (ok : A -> Prop) (Hread : reads read enc ok).

Lemma repeat_iff n r xs r' :
  wf_reader r ->
  Reader.repeat read n r = Ok (xs, r') <->
  length xs = n /\ Forall ok xs /\ consumes r (concat (enc <$> xs)) r'.
Proof.
  revert r xs r'. induction n as [|n IH]; intros r xs r' Hr; cbn [Reader.repeat].
  - split.
    + intros [= <- <-]. split_and!; [done|constructor|by apply consumes_nil].
    + intros (Hl & _ & Hc). destruct xs; [|done]. apply consumes_nil in Hc as ->. done.
  - rewrite bind_pair_Ok. split.
    + intros (x & m & Hx & Hrun). apply Hread in Hx as [Hok Hc1]; [|done].
      apply consumes_wf in Hc1 as Hm; [|done]. destruct Hm as [Hm _].
      apply bind_pair_Ok in Hrun as (ys & m' & Hys & [= <- <-]).
      apply IH in Hys as (Hl & Hall & Hc2); [|done].
      split_and!; [by rewrite <- Hl | by constructor | cbn; apply consumes_app; eauto].
    + intros (Hl & Hall & Hc). destruct xs as [|x xs]; [done|]. injection Hl as Hl.
      inversion Hall as [|?? Hok Hall']; subst. cbn in Hc.
      apply consumes_app in Hc as (m & Hc1 & Hc2); [|done].
      apply consumes_wf in Hc1 as Hm; [|done]. destruct Hm as [Hm _].
      exists x, m. split; [by apply Hread|]. apply bind_pair_Ok. exists xs, r'. split; [|done].
      by apply IH.
Qed.

(** A counted sequence, with the bound the caller checks. *)
Lemma vec_iff (bound : Z) r xs r' :
  wf_reader r -> 0 <= bound <= u32_max ->
  (exists n m, Reader.length r = Ok (n, m) /\ n <= bound /\
     Reader.repeat read (Z.to_nat n) m = Ok (xs, r')) <->
  (vec_len xs <= bound /\ Forall ok xs) /\ consumes r (wire_vec enc xs) r'.
Proof.
  intros Hr Hbound. unfold wire_vec. split.
  - intros (n & m & Hn & Hle & Hrun). apply length_reads in Hn as [Hn Hc1]; [|done].
    apply consumes_wf in Hc1 as Hm; [|done]. destruct Hm as [Hm _].
    apply repeat_iff in Hrun as (Hl & Hall & Hc2); [|done]. unfold is_u32 in Hn.
    assert (vec_len xs = n) as Hv by (unfold vec_len; lia).
    split; [split; [lia|done]|]. apply consumes_app; [done|]. exists m. by rewrite Hv.
  - intros [[Hle Hall] Hc]. apply consumes_app in Hc as (m & Hc1 & Hc2); [|done].
    apply consumes_wf in Hc1 as Hm; [|done]. destruct Hm as [Hm _].
    exists (vec_len xs), m. split; [|split; [done|]].
    + apply length_reads; [done|]. split; [|done]. unfold is_u32, vec_len in *. lia.
    + apply repeat_iff; [done|]. split_and!; [unfold vec_len; lia|done..].
Qed.
End Repeat.

Lemma strings_reads : reads Reader.strings (wire_vec wire_string) strings_fit.
Proof.
  intros r xs r' Hr. unfold strings_fit.
  rewrite <- (vec_iff Reader.string wire_string string_fits string_reads 65536)
    by (done || unfold u32_max; lia).
  unfold Reader.strings. rewrite bind_pair_Ok. split.
  - intros (n & m & Hn & Hrun). destruct (_ <? n) eqn:E; [done|]. split_bools. eauto.
  - intros (n & m & Hn & Hle & Hrun). exists n, m. split; [done|].
    by rewrite (proj2 (Z.ltb_ge _ _)).
Qed.

(** Splits the next read off a run, keeping what it consumed. *)
Ltac read_next lem H :=
  let x := fresh "x" in let m := fresh "m" in let Hx := fresh "Hx" in
  let Hc := fresh "Hc" in let Hok := fresh "Hok" in let Hm := fresh "Hm" in
  apply bind_pair_Ok in H as (x & m & Hx & H);
  apply lem in Hx as [Hok Hc]; [|done];
  pose proof Hc as Hm; apply consumes_wf in Hm as [Hm _]; [|done].
(** Splits the next part off what was consumed, and runs the read on it. *)
Ltac consume_next H :=
  let m := fresh "m" in let Hc := fresh "Hc" in let Hm := fresh "Hm" in
  apply consumes_app in H as (m & Hc & H); [|done];
  pose proof Hc as Hm; apply consumes_wf in Hm as [Hm _]; [|done].
Ltac run_next lem :=
  apply bind_pair_Ok; do 2 eexists;
  split; [apply lem; [done|split; [|eassumption]; eassumption]|]; cbv beta.
Ltac chain_consumes :=
  repeat (apply consumes_app; [done|]; eexists; split; [eassumption|]); try eassumption.

Lemma transition_reads : reads Reader.transition wire_transition transition_fits.
Proof.
  intros r t r' Hr. unfold Reader.transition, wire_transition, transition_fits. split.
  - intros H. do 4 read_next string_reads H. injection H as <- <-.
    cbn [Transition.state Transition.input Transition.next_state Transition.output].
    split; [by split_and!|]. chain_consumes.
  - intros [(Hf1 & Hf2 & Hf3 & Hf4) Hc]. do 3 consume_next Hc.
    do 4 run_next string_reads. by destruct t.
Qed.

Lemma magic_length : vec_len MAGIC = 8.
Proof. reflexivity. Qed.

Lemma u64_reads r bs r' :
  wf_reader r -> Reader.take r 8 = Ok (bs, r') <->
  is_u64 (be_value bs) /\ bs = be_bytes 8 (be_value bs) /\ consumes r bs r'.
Proof.
  intros Hr. rewrite take_iff by (done || unfold u64_max; lia). split.
  - intros [Hc Hl]. apply consumes_wf in Hc as Hbs; [|done]. destruct Hbs as [_ Hbs].
    pose proof (be_value_bound bs Hbs) as Hv. unfold vec_len in Hl.
    replace (length bs) with 8%nat in Hv by lia.
    split; [unfold is_u64, u64_max; simpl in Hv; lia|]. split; [|done].
    replace 8%nat with (length bs) by lia. by rewrite be_bytes_value.
  - intros (_ & Hbs & Hc). split; [done|]. rewrite Hbs. unfold vec_len. by rewrite be_bytes_length.
Qed.

(** The decoder accepts exactly the encodings of candidates that fit. *)
Lemma decode_candidate_iff bytes c :
  Forall is_byte bytes -> vec_len bytes <= u64_max ->
  decode_candidate bytes = Ok c <-> candidate_fits c /\ bytes = wire_candidate c.
Proof.
  intros Hb Hlen. unfold decode_candidate, candidate_fits, wire_candidate.
  set (r := {| Reader.input := bytes; Reader.offset := 0 |}).
  assert (Hr : wf_reader r) by (unfold wf_reader, vec_len in *; simpl; split_and!; try done; lia).
  assert (Hend : forall bs r', consumes r bs r' -> Reader.offset r' = vec_len bytes <-> bytes = bs).
  { intros bs r' (Hi & Ho & Hrest). change (rest r) with bytes in Hrest. simpl in Ho. split.
    - intros He. unfold rest in Hrest. rewrite Hi, He in Hrest. unfold vec_len in Hrest.
      rewrite Nat2Z.id, drop_all, app_nil_r in Hrest. done.
    - intros ->. lia. }
  split.
  - intros H. apply bind_pair_Ok in H as (magic & m0 & H0 & H).
    apply take_iff in H0 as [H0 _]; [|done|unfold u64_max; lia].
    case_bool_decide; [subst magic|done]. cbn [negb] in H.
    pose proof H0 as Hm0. apply consumes_wf in Hm0 as [Hm0 _]; [|done].
    do 3 read_next string_reads H. do 3 read_next strings_reads H. read_next string_reads H.
    apply bind_pair_Ok in H as (bs & m8 & H8 & H). apply u64_reads in H8 as (Hu & Hbs & H8); [|done].
    pose proof H8 as Hm8. apply consumes_wf in Hm8 as [Hm8 _]; [|done].
    apply bind_pair_Ok in H as (n & m9 & Hn & H). destruct (256 <? n) eqn:Hle; [done|]. split_bools.
    apply bind_pair_Ok in H as (ts & r' & Hts & H).
    assert (Hvec : (vec_len ts <= 256 /\ Forall transition_fits ts) /\
                   consumes m8 (wire_vec wire_transition ts) r').
    { apply (vec_iff _ _ _ transition_reads 256); [done|unfold u32_max; lia|]. eauto. }
    destruct Hvec as [[Hnt Hall] Hcv].
    destruct (negb _) eqn:Hoff; [done|]. split_bools. injection H as <-. cbn -[wire_string be_bytes MAGIC app wire_vec].
    split; [by split_and!|]. apply (Hend _ r'); [|done].
    rewrite Hbs in H8. chain_consumes.
  - intros [((Hf1 & Hf2) & (Hf3 & Hf4 & Hf5 & Hf6 & Hf7 & Hf8) & Hf9 & Hf10) Hbytes].
    set (r' := {| Reader.input := bytes; Reader.offset := vec_len bytes |}).
    assert (Hc : consumes r bytes r').
    { unfold consumes, rest. simpl. split_and!; [done|lia|]. unfold vec_len.
      by rewrite Nat2Z.id, drop_all, app_nil_r. }
    rewrite Hbytes in Hc at 1. do 9 consume_next Hc.
    apply bind_pair_Ok. exists MAGIC, m. split; [apply take_iff; [done|unfold u64_max; lia|done]|].
    rewrite bool_decide_eq_true_2 by done. cbn [negb].
    do 3 run_next string_reads. do 3 run_next strings_reads. run_next string_reads.
    apply bind_pair_Ok. exists (be_bytes 8 (Grammar.max_candidates (Candidate.grammar c))), m7.
    assert (Hv : be_value (be_bytes 8 (Grammar.max_candidates (Candidate.grammar c))) =
                 Grammar.max_candidates (Candidate.grammar c)).
    { apply be_value_bytes_small. unfold is_u64, u64_max in Hf8. simpl. lia. }
    split; [apply u64_reads; [done|]; rewrite Hv; by split_and!|].
    assert (Hvec : exists n m, Reader.length m7 = Ok (n, m) /\ n <= 256 /\
      Reader.repeat Reader.transition (Z.to_nat n) m = Ok (Candidate.transitions c, r')).
    { apply (vec_iff _ _ _ transition_reads 256); [done|unfold u32_max; lia|done]. }
    destruct Hvec as (n & mn & Hn & Hle & Hrun).
    apply bind_pair_Ok. exists n, mn. split; [done|]. rewrite (proj2 (Z.ltb_ge _ _)) by lia.
    apply bind_pair_Ok. exists (Candidate.transitions c), r'. split; [done|].
    cbn -[be_bytes be_value]. rewrite Z.eqb_refl, Hv. cbn. by destruct c as [? ? [] ?].
Qed.

(** * Properties *)

(** The checker decodes exactly what the synthesizer side encoded, for every
    candidate within the limits of the wire format. *)
Theorem checker_wire_roundtrip c bytes :
  candidate_fits c -> vec_len bytes <= u64_max ->
  encode_candidate c = Ok bytes -> decode_candidate bytes = Ok c.
Proof.
  intros Hfit Hlen. rewrite encode_candidate_wire by done. intros [= <-].
  apply decode_candidate_iff; [apply wire_candidate_bytes | done | done].
Qed.

(** the format is canonical: whatever bytes the decoder accepts are the ones
    the encoder produces for the decoded candidate, so two different byte strings
    never carry the same candidate past the checker. *)
Theorem checker_wire_canonical bytes c :
  Forall is_byte bytes -> vec_len bytes <= u64_max ->
  decode_candidate bytes = Ok c -> candidate_fits c /\ encode_candidate c = Ok bytes.
Proof.
  intros Hb Hlen Hdec. apply decode_candidate_iff in Hdec as [Hfit ->]; [|done..].
  split; [done|]. by apply encode_candidate_wire.
Qed.

(** A candidate for the witnesses. *)
Definition sample : Candidate.Candidate :=
  {| Candidate.component := "svc"; Candidate.interface_version := "1";
     Candidate.grammar :=
       {| Grammar.version := "fsm-v1"; Grammar.inputs := ["i"]; Grammar.outputs := ["x"];
          Grammar.states := ["s"]; Grammar.initial_state := "s"; Grammar.max_candidates := 10 |};
     Candidate.transitions :=
       [{| Transition.state := "s"; Transition.input := "i"; Transition.next_state := "s";
           Transition.output := "x" |}] |}.

Lemma string_fits_check s : utf8 s -> (str_len s <=? 65536) = true -> string_fits s.
Proof. intros Hu Hl. split; [done|]. by apply Z.leb_le. Qed.

Lemma sample_fits : candidate_fits sample.
Proof.
  assert (forall s, In s ["svc"; "1"; "fsm-v1"; "i"; "x"; "s"] -> string_fits s) as Hall.
  { intros s Hs. simpl in Hs. repeat destruct Hs as [<-|Hs]; try done;
      apply string_fits_check; vm_compute; reflexivity. }
  unfold candidate_fits, strings_fit, transition_fits, is_u64, u64_max, vec_len. simpl.
  repeat first [apply conj | apply Forall_cons_2 | apply Forall_nil_2 | lia]; apply Hall; simpl; tauto.
Qed.

Example checker_wire_roundtrip_witness :
  exists bytes, encode_candidate sample = Ok bytes /\ decode_candidate bytes = Ok sample.
Proof.
  eexists. split; [vm_compute; reflexivity|].
  apply checker_wire_roundtrip; [apply sample_fits | vm_compute; discriminate | vm_compute; reflexivity].
Defined.

Example checker_wire_canonical_witness :
  candidate_fits sample /\ encode_candidate sample = Ok (wire_candidate sample).
Proof.
  apply checker_wire_canonical; [apply wire_candidate_bytes | unfold u64_max; vm_compute; discriminate |].
  vm_compute. reflexivity.
Defined.
