(* ===== verification/Checker.v ===== *)
(** src/checker.rs: the independent interpreter that certifies a candidate.  It
    decodes the wire form, rebuilds the table as a map of maps, and replays every
    obligation.  [certify_iff] states exactly when it certifies. *)
From S2P Require Import Prelude Model CheckerWire.
Import Model.

Record Coverage := {
  mandatory_obligations : Z;
  passed_obligations : Z;
  held_out_traces : Z;
  passed_held_out_traces : Z;
  passed_negative_cases : Z;
  passed_metamorphic_properties : Z;
  uncovered_obligations : Z;
}.

(** [BTreeMap<String, BTreeMap<String, (String, String)>>] *)
Definition row : Type := btree_map string (string * string).
Definition table : Type := btree_map string row.

Definition lookup (t : table) (state input : string) : option (string * string) :=
  transitions ← bt_get state t; bt_get input transitions.

(** The walk of a trace; [unknown] is the error of a missing cell. *)
Definition walk (unknown : Error) (t : table) (initial_state : string) (inputs : list string)
  : result Error (list string) :=
  st ← for_each inputs (initial_state, []) (fun input st =>
    cell ← ok_or (lookup t st.1 input) unknown;
    Ok (cell.1, st.2 ++ [cell.2]));
  Ok st.2.

Definition run_trace (t : table) (initial_state : string) (inputs : list string)
  : result Error (list string) :=
  walk (CheckerRejected "obligation uses an unknown symbol") t initial_state inputs.

Fixpoint check_idempotent_loop (t : table) (stable : string * string) (state input : string)
  (n : nat) : result Error bool :=
  match n with
  | O => Ok true
  | S n' =>
      cell ← ok_or (lookup t state input) (CheckerRejected "property uses an unknown symbol");
      if negb (bool_decide (cell.1 = stable.1)) || negb (bool_decide (cell.2 = stable.2))
      then Ok false
      else check_idempotent_loop t stable cell.1 input n'
  end.

Definition check_idempotent (t : table) (initial_state input : string) (repetitions : Z)
  : result Error bool :=
  stable ← ok_or (lookup t initial_state input) (CheckerRejected "property uses an unknown symbol");
  check_idempotent_loop t stable stable.1 input (Z.to_nat (repetitions - 1)).

(** [map_err(|error| Error::CheckerRejected(error.to_string()))] *)
Definition rejected {A} (m : result Error A) : result Error A :=
  map_err (fun error => CheckerRejected (fmt error)) m.

Definition add_transition (grammar : Grammar.Grammar) (transition : Transition.Transition)
  (t : table) : result Error table :=
  _ ← rejected (Transition.validate transition grammar);
  state_table ← ok_or (bt_get (Transition.state transition) t)
                  (CheckerRejected "candidate has an unknown state");
  let t := bt_insert (Transition.state transition)
             (bt_insert (Transition.input transition) (Transition.effect transition) state_table) t in
  if bt_mem (Transition.input transition) state_table
  then Err (CheckerRejected "candidate has duplicate transitions")
  else Ok t.

Definition empty_table (grammar : Grammar.Grammar) : table :=
  bt_from_list ((fun state => (state, [])) <$> Grammar.states grammar).

(** The five counters of the obligation loop. *)
Record counts := {
  passed : Z;
  trace_count : Z;
  state_policy_count : Z;
  negative_count : Z;
  metamorphic_count : Z;
}.

(** The body of the obligation loop.  [table[state]] panics on a missing key. *)
Definition check_content (grammar : Grammar.Grammar) (t : table)
  (content : FragmentContent.FragmentContent) (n : counts) : result (fault Error) counts :=
  match content with
  | FragmentContent.Transition state input next_state output =>
      _ ← fails (rejected (Transition.validate
            {| Transition.state := state; Transition.input := input;
               Transition.next_state := next_state; Transition.output := output |} grammar));
      transitions ← or_panic (bt_get state t);
      if negb (bool_decide (bt_get input transitions = Some (next_state, output)))
      then Err (Fails (CheckerRejected "candidate violates a mandatory transition")) else
      Ok {| passed := passed n + 1; trace_count := trace_count n;
            state_policy_count := state_policy_count n; negative_count := negative_count n;
            metamorphic_count := metamorphic_count n |}
  | FragmentContent.Trace HeldOut initial_state inputs outputs =>
      if negb (vec_len inputs =? vec_len outputs) || negb (bt_mem initial_state t)
      then Err (Fails (CheckerRejected "held-out trace is malformed")) else
      observed ← fails (walk (CheckerRejected "held-out trace uses an unknown input")
                          t initial_state inputs);
      if negb (bool_decide (observed = outputs))
      then Err (Fails (CheckerRejected "candidate violates a held-out trace")) else
      Ok {| passed := passed n; trace_count := trace_count n + 1;
            state_policy_count := state_policy_count n; negative_count := negative_count n;
            metamorphic_count := metamorphic_count n |}
  | FragmentContent.Trace Training _ _ _ => Ok n
  | FragmentContent.NegativeCase initial_state inputs forbidden_outputs =>
      observed ← fails (run_trace t initial_state inputs);
      if bool_decide (observed = forbidden_outputs)
      then Err (Fails (CheckerRejected "candidate violates a mandatory negative case")) else
      Ok {| passed := passed n; trace_count := trace_count n;
            state_policy_count := state_policy_count n; negative_count := negative_count n + 1;
            metamorphic_count := metamorphic_count n |}
  | FragmentContent.MetamorphicProperty initial_state input repetitions =>
      violated ← (if repetitions <? 2 then Ok true else
                  same ← fails (check_idempotent t initial_state input repetitions);
                  Ok (negb same));
      if (violated : bool)
      then Err (Fails (CheckerRejected "candidate violates a metamorphic property")) else
      Ok {| passed := passed n; trace_count := trace_count n;
            state_policy_count := state_policy_count n; negative_count := negative_count n;
            metamorphic_count := metamorphic_count n + 1 |}
  | FragmentContent.StatePolicy states initial_state =>
      if negb (bool_decide (states = Grammar.states grammar))
         || negb (bool_decide (initial_state = Grammar.initial_state grammar))
      then Err (Fails (CheckerRejected "candidate grammar violates the state policy")) else
      Ok {| passed := passed n; trace_count := trace_count n;
            state_policy_count := state_policy_count n + 1; negative_count := negative_count n;
            metamorphic_count := metamorphic_count n |}
  end.

Definition no_counts : counts :=
  {| passed := 0; trace_count := 0; state_policy_count := 0; negative_count := 0;
     metamorphic_count := 0 |}.

Definition certify (candidate_json : list Z) (expected_component expected_interface_version : string)
  (contents : list FragmentContent.FragmentContent) : result (fault Error) Coverage :=
  candidate ← fails (decode_candidate candidate_json);
  let grammar := Candidate.grammar candidate in
  _ ← fails (rejected (Grammar.validate grammar));
  if negb (bool_decide (Candidate.component candidate = expected_component))
     || negb (bool_decide (Candidate.interface_version candidate = expected_interface_version))
  then Err (Fails (CheckerRejected "candidate identity does not match the recovery target")) else
  t ← fails (for_each (Candidate.transitions candidate) (empty_table grammar) (add_transition grammar));
  let expected := vec_len (Grammar.states grammar) * vec_len (Grammar.inputs grammar) in
  if negb (foldr Z.add 0 ((fun kv => vec_len kv.2) <$> t) =? expected)
  then Err (Fails (CheckerRejected "candidate transition table is not total")) else
  n ← for_each contents no_counts (check_content grammar t);
  if negb (passed n =? expected)
  then Err (Fails (CheckerRejected "checker lacks a complete transition contract")) else
  if trace_count n =? 0
  then Err (Fails (CheckerRejected "checker requires a held-out trace")) else
  if negb (state_policy_count n =? 1)
  then Err (Fails (CheckerRejected "checker requires exactly one matching state policy")) else
  Ok {| mandatory_obligations := expected;
        passed_obligations := passed n;
        held_out_traces := trace_count n;
        passed_held_out_traces := trace_count n;
        passed_negative_cases := negative_count n;
        passed_metamorphic_properties := metamorphic_count n;
        uncovered_obligations := 0 |}.

(** * Evaluation meets the specification *)

Lemma walk_run unknown t s ins :
  walk unknown t s ins =
  match Fsm.run (lookup t) s ins with Some outs => Ok outs | None => Err unknown end.
Proof.
  unfold walk.
  assert (Hgen : forall acc,
    (st ← for_each ins (s, acc) (fun input st =>
       cell ← ok_or (lookup t st.1 input) unknown; Ok (cell.1, st.2 ++ [cell.2])); Ok st.2) =
    match Fsm.run (lookup t) s ins with Some outs => Ok (acc ++ outs) | None => Err unknown end);
    [|by rewrite (Hgen []); destruct (Fsm.run _ _ _)].
  revert s. induction ins as [|i ins IH]; intros s acc; cbn; [by rewrite app_nil_r|].
  destruct (lookup t s i) as [[s' o]|]; cbn; [|done].
  rewrite IH. destruct (Fsm.run _ s' ins) as [outs|]; cbn; [|done].
  by rewrite <- app_assoc.
Qed.

Lemma check_idempotent_loop_spec t s' o i n :
  check_idempotent_loop t (s', o) s' i n =
  match n with
  | O => Ok true
  | S _ => match lookup t s' i with
           | Some c => Ok (bool_decide (c = (s', o)))
           | None => Err (CheckerRejected "property uses an unknown symbol")
           end
  end.
Proof.
  induction n as [|n IH]; [done|]. cbn [check_idempotent_loop].
  destruct (lookup t s' i) as [[s2 o2]|] eqn:E; [|done]. cbn.
  destruct (decide (s2 = s')) as [->|Hs].
  - destruct (decide (o2 = o)) as [->|Ho].
    + rewrite !bool_decide_eq_true_2 by done. cbn. rewrite IH.
      destruct n; [done|]. rewrite bool_decide_eq_true_2; done.
    + rewrite bool_decide_eq_true_2, !bool_decide_eq_false_2 by congruence. done.
  - rewrite (bool_decide_eq_false_2 (s2 = s')) by done. cbn.
    rewrite bool_decide_eq_false_2 by congruence. done.
Qed.

(** What one obligation requires of a machine before it is certified. *)
Definition certifiable (d : Fsm.machine) (g : Grammar.Grammar)
  (c : FragmentContent.FragmentContent) : Prop :=
  match c with
  | FragmentContent.Trace Training _ _ _ => True
  | FragmentContent.Trace HeldOut s _ _ => s ∈ Grammar.states g /\ Fsm.meets d g c
  | _ => Fsm.meets d g c
  end.

(** The counters after one more obligation. *)
Definition count (c : FragmentContent.FragmentContent) (n : counts) : counts :=
  let one b := if b : bool then 1 else 0 in
  {| passed := passed n + one (match c with FragmentContent.Transition _ _ _ _ => true | _ => false end);
     trace_count := trace_count n +
       one (match c with FragmentContent.Trace HeldOut _ _ _ => true | _ => false end);
     state_policy_count := state_policy_count n +
       one (match c with FragmentContent.StatePolicy _ _ => true | _ => false end);
     negative_count := negative_count n +
       one (match c with FragmentContent.NegativeCase _ _ _ => true | _ => false end);
     metamorphic_count := metamorphic_count n +
       one (match c with FragmentContent.MetamorphicProperty _ _ _ => true | _ => false end) |}.

Section CheckContent.
Context (g : Grammar.Grammar) (t : table).
Hypothesis Hdom : forall s, is_Some (bt_get s t) <-> s ∈ Grammar.states g.
Hypothesis Himpl : Fsm.implements (lookup t) g.

Lemma check_idempotent_stable s i n :
  2 <= n -> check_idempotent t s i n = Ok true <-> Fsm.stable (lookup t) s i.
Proof.
  intros Hn. unfold check_idempotent, Fsm.stable.
  destruct (lookup t s i) as [[s' o]|] eqn:E; cbn.
  - rewrite check_idempotent_loop_spec. destruct (Z.to_nat (n - 1)) as [|k] eqn:Ek; [lia|]. split.
    + destruct (lookup t s' i) as [c|] eqn:E'; [|done]. intros [= Hc%bool_decide_eq_true].
      subst. eauto.
    + intros (s2 & o2 & [= <- <-] & ->). by rewrite bool_decide_eq_true_2.
  - split; [done|]. by intros (? & ? & ? & _).
Qed.

Lemma check_content_ok c n n' :
  check_content g t c n = Ok n' <-> certifiable (lookup t) g c /\ n' = count c n.
Proof.
  destruct n as [p tc sp nc mc].
  destruct c as [s i s' o|sts init|[|] s ins outs|s ins bad|s i k];
    cbn [check_content certifiable Fsm.meets]; unfold count;
    cbn [passed trace_count state_policy_count negative_count metamorphic_count]; rewrite ?Z.add_0_r.
  - split.
    + intros H. apply bind_Ok in H as ([] & _ & H). apply bind_Ok in H as (r & Hr & H).
      apply ok_or_Ok in Hr. case_bool_decide as Hget; [|done]. injection H as <-.
      unfold lookup. by rewrite Hr.
    + intros [Hl ->]. destruct (proj2 Himpl _ _ _ Hl) as [Hs Hi].
      destruct (proj1 Himpl s i Hs Hi) as (s2 & o2 & Hl2 & Hs2 & Ho2).
      rewrite Hl in Hl2. injection Hl2 as <- <-.
      rewrite (proj2 (Transition.transition_validate_ok _ _)) by (by split_and!). cbn.
      unfold lookup in Hl. destruct (bt_get s t) as [r|]; [|done]. cbn in Hl |- *.
      by rewrite bool_decide_eq_true_2.
  - destruct (decide (sts = Grammar.states g)) as [->|Hs];
      [|rewrite bool_decide_eq_false_2 by done; split; [done|by intros [[]]]].
    destruct (decide (init = Grammar.initial_state g)) as [->|Hi];
      [|rewrite (bool_decide_eq_false_2 (init = _)) by done; rewrite orb_true_r; split;
        [done|by intros [[]]]].
    rewrite !bool_decide_eq_true_2 by done. cbn. split; [intros [= <-]; done | by intros [_ ->]].
  - split; [intros [= <-]; done | by intros [_ ->]].
  - rewrite walk_run. split.
    + intros H. destruct (_ || _) eqn:Hb; [done|]. split_bools.
      destruct (Fsm.run (lookup t) s ins) as [obs|]; [|done]. cbn in H.
      case_bool_decide; [|done]. cbn in H. injection H as <-. subst obs. split; [|done]. split; [|done].
      apply Hdom. unfold bt_mem in *. destruct (bt_get s t); [eauto|done].
    + intros [[Hs Hrun] ->]. apply Hdom in Hs as [r Hr]. rewrite Hrun.
      rewrite (bt_get_Some_mem _ _ _ Hr). apply Fsm.run_length in Hrun.
      unfold vec_len. rewrite Hrun, Z.eqb_refl. cbn. by rewrite bool_decide_eq_true_2.
  - unfold run_trace. rewrite walk_run. destruct (Fsm.run (lookup t) s ins) as [obs|]; cbn.
    + case_bool_decide.
      * split; [done|]. intros [(? & [= <-] & ?) _]. done.
      * split; [intros [= <-]; eauto|]. by intros [_ ->].
    + split; [done|]. by intros [(? & ? & _) _].
  - destruct (k <? 2) eqn:Hk; split_bools; cbn.
    { split; [done|]. intros [[? _] _]. lia. }
    rewrite <- (check_idempotent_stable s i k) by lia.
    destruct (check_idempotent t s i k) as [[|]|]; cbn.
    + split; [intros [= <-]; done|]. by intros [_ ->].
    + split; [done|]. by intros [[_ ?] _].
    + split; [done|]. by intros [[_ ?] _].
Qed.

Lemma check_contents_ok cs n n' :
  for_each cs n (check_content g t) = Ok n' <->
  Forall (certifiable (lookup t) g) cs /\ n' = foldl (fun n c => count c n) n cs.
Proof.
  revert n. induction cs as [|c cs IH]; intros n; cbn [for_each foldl].
  - split; [intros [= <-]; done | by intros [_ ->]].
  - rewrite bind_Ok, Forall_cons. split.
    + intros (m & Hm & Hrest). apply check_content_ok in Hm as [Hc ->].
      apply IH in Hrest as [Hcs ->]. done.
    + intros [[Hc Hcs] ->]. exists (count c n). split; [by apply check_content_ok|]. by apply IH.
Qed.
End CheckContent.

(** * The table built from the transitions *)

Definition entries (t : table) : Z := foldr Z.add 0 ((fun kv => vec_len kv.2) <$> t).

Record built (g : Grammar.Grammar) (pre : list Transition.Transition) (t : table) : Prop := {
  built_sorted : bt_sorted t;
  built_rows : forall s r, bt_get s t = Some r -> bt_sorted r;
  built_dom : forall s, is_Some (bt_get s t) <-> s ∈ Grammar.states g;
  built_lookup : forall s i, lookup t s i = Fsm.of_transitions pre s i;
  built_entries : entries t = vec_len pre;
}.

Lemma entries_insert s r r0 (t : table) :
  bt_get s t = Some r0 -> entries (bt_insert s r t) = entries t - vec_len r0 + vec_len r.
Proof.
  unfold entries. induction t as [|[s' r'] t IH]; cbn; [done|].
  destruct (cmp s s') eqn:E; cbn; [intros [= ->]; lia | done|]. intros Hg. rewrite IH by done. lia.
Qed.

Lemma empty_table_built g : NoDup (Grammar.states g) -> built g [] (empty_table g).
Proof.
  intros Hnd.
  assert (Hget : forall s r, bt_get s (empty_table g) = Some r <-> s ∈ Grammar.states g /\ r = []).
  { intros s r. unfold empty_table. rewrite bt_from_list_get.
    2:{ rewrite <- list_fmap_compose. unfold compose. simpl. by rewrite list_fmap_id. }
    rewrite list_elem_of_fmap. split; [intros (s' & [= -> ->] & Hs); done | intros [Hs ->]; eauto]. }
  assert (Hsorted : bt_sorted (empty_table g)) by apply bt_from_list_sorted.
  split; [done | | | |].
  - intros s r [_ ->]%Hget. constructor.
  - intros s. unfold is_Some. setoid_rewrite Hget. naive_solver.
  - intros s i. unfold lookup, Fsm.of_transitions. destruct (bt_get s _) as [r|] eqn:E; [|done].
    by apply Hget in E as [_ ->].
  - unfold entries, vec_len at 2. cbn [length Z.of_nat].
    assert (Hall : Forall (fun kv => kv.2 = []) (empty_table g)).
    { apply Forall_forall. intros [s r] Hin. apply bt_get_elem in Hin; [|done].
      by apply Hget in Hin as [_ ->]. }
    clear Hget Hsorted. induction Hall as [|kv t Hkv _ IH]; [done|]. cbn. rewrite Hkv. exact IH.
Qed.

Lemma of_transitions_snoc pre x s i :
  Fsm.of_transitions (pre ++ [x]) s i =
  if decide (Transition.key x = (s, i)) then Some (Transition.effect x)
  else Fsm.of_transitions pre s i.
Proof.
  unfold Fsm.of_transitions. rewrite fmap_app. cbn [fmap list_fmap].
  rewrite bt_from_list_snoc. case_decide as Hk.
  - rewrite <- Hk. apply bt_get_insert_eq.
  - by apply bt_get_insert_ne; [apply bt_from_list_sorted|].
Qed.

Lemma add_transition_built g pre x t :
  built g pre t -> Transition.ok g x -> Transition.key x ∉ Transition.key <$> pre ->
  exists t', add_transition g x t = Ok t' /\ built g (pre ++ [x]) t'.
Proof.
  intros [Hs Hrows Hdom Hlook Hent] Hok Hfresh. unfold add_transition, rejected.
  rewrite (proj2 (Transition.transition_validate_ok _ _)) by done. cbn [map_err mbind result_bind].
  destruct (proj2 (Hdom (Transition.state x)) (proj1 Hok)) as [r Hr]. rewrite Hr.
  cbn [ok_or mbind result_bind].
  assert (Hnone : bt_get (Transition.input x) r = None).
  { apply Fsm.of_transitions_None in Hfresh. rewrite <- Hlook in Hfresh.
    unfold lookup in Hfresh. by rewrite Hr in Hfresh. }
  unfold bt_mem. rewrite Hnone. eexists. split; [done|].
  pose proof (Hrows _ _ Hr) as Hrs.
  assert (Hget : forall s, bt_get s (bt_insert (Transition.state x)
            (bt_insert (Transition.input x) (Transition.effect x) r) t) =
          if decide (s = Transition.state x) then Some (bt_insert (Transition.input x) (Transition.effect x) r)
          else bt_get s t).
  { intros s. case_decide as E; [subst; apply bt_get_insert_eq|].
    by apply bt_get_insert_ne; [|congruence]. }
  split.
  - by apply bt_insert_sorted.
  - intros s r'. rewrite Hget. case_decide; [intros [= <-]; by apply bt_insert_sorted | apply Hrows].
  - intros s. rewrite Hget. case_decide as E; [|apply Hdom]. subst. split; [|eauto].
    intros _. apply Hok.
  - intros s i. rewrite of_transitions_snoc, <- Hlook. unfold lookup. rewrite Hget.
    unfold Transition.key. case_decide as E.
    + subst. cbn. destruct (decide (Transition.input x = i)) as [->|Hi].
      * rewrite decide_True by done. apply bt_get_insert_eq.
      * rewrite decide_False by congruence. rewrite Hr. cbn. by apply bt_get_insert_ne.
    + rewrite decide_False by congruence. done.
  - rewrite (entries_insert _ _ r) by done. rewrite Hent. unfold vec_len.
    rewrite length_app, bt_insert_length_fresh by done. cbn. lia.
Qed.

Lemma add_transition_fails g pre x t t' :
  built g pre t -> add_transition g x t = Ok t' ->
  Transition.ok g x /\ Transition.key x ∉ Transition.key <$> pre.
Proof.
  intros [Hs Hrows Hdom Hlook Hent] H. unfold add_transition, rejected in H.
  apply bind_Ok in H as ([] & Hv%map_err_Ok & H). apply Transition.transition_validate_ok in Hv. split; [done|].
  apply bind_Ok in H as (r & Hr%ok_or_Ok & H).
  destruct (bt_mem (Transition.input x) r) eqn:Hm; [done|].
  apply Fsm.of_transitions_None. rewrite <- Hlook. unfold lookup. rewrite Hr. cbn.
  unfold bt_mem in Hm. by destruct (bt_get _ r).
Qed.

(** The loop succeeds exactly on valid transitions with distinct cells. *)
Lemma build_iff g ts :
  NoDup (Grammar.states g) ->
  (exists t, for_each ts (empty_table g) (add_transition g) = Ok t /\ built g ts t) /\
    Forall (Transition.ok g) ts /\ NoDup (Transition.key <$> ts) \/
  (forall t, for_each ts (empty_table g) (add_transition g) <> Ok t) /\
    ~ (Forall (Transition.ok g) ts /\ NoDup (Transition.key <$> ts)).
Proof.
  intros Hnd. induction ts as [|x ts IH] using rev_ind.
  { left. split; [|split; constructor]. eexists. split; [done|]. by apply empty_table_built. }
  rewrite Forall_app, fmap_app, NoDup_app. setoid_rewrite for_each_app.
  destruct IH as [[(t & Ht & Hb) [Hok Hkeys]]|[Hno Hbad]].
  - rewrite Ht. cbn [mbind result_bind for_each].
    destruct (decide (Transition.ok g x /\ Transition.key x ∉ Transition.key <$> ts)) as [[Hx Hf]|Hx].
    + left. destruct (add_transition_built g ts x t Hb Hx Hf) as (t' & Ht' & Hb').
      rewrite Ht'. cbn. split; [eauto|]. split; [split; [done|by constructor]|].
      split; [done|]. split; [|apply NoDup_singleton].
      intros k Hk ->%list_elem_of_singleton. done.
    + right. split.
      * intros t'. destruct (add_transition g x t) as [t2|] eqn:Ha; [|done].
        by apply (add_transition_fails g ts) in Ha.
      * intros ((_ & Hx1) & _ & Hx2 & _). apply Hx. inversion Hx1; subst. split; [done|].
        intros Hin. apply (Hx2 _ Hin). left.
  - right. split.
    + intros t'. destruct (for_each ts _ _) as [t|] eqn:E; [|done]. by destruct (Hno t).
    + tauto.
Qed.

(** * When a candidate is certified *)

(** The number of obligations of a kind. *)
Definition transitions_in (cs : list FragmentContent.FragmentContent) : Z :=
  vec_len (omap FragmentContent.transition cs).
Definition held_out_in (cs : list FragmentContent.FragmentContent) : Z :=
  vec_len (filter (fun c => match c with FragmentContent.Trace HeldOut _ _ _ => true | _ => false end = true) cs).
Definition policies_in (cs : list FragmentContent.FragmentContent) : Z :=
  vec_len (filter (fun c => match c with FragmentContent.StatePolicy _ _ => true | _ => false end = true) cs).

Lemma counts_in cs n :
  let m := foldl (fun n c => count c n) n cs in
  passed m = passed n + transitions_in cs /\ trace_count m = trace_count n + held_out_in cs /\
  state_policy_count m = state_policy_count n + policies_in cs.
Proof.
  revert n. induction cs as [|c cs IH]; intros n; cbn [foldl].
  - unfold transitions_in, held_out_in, policies_in, vec_len. cbn. lia.
  - specialize (IH (count c n)). cbv zeta in IH |- *. destruct IH as (-> & -> & ->).
    unfold transitions_in, held_out_in, policies_in, vec_len in *.
    destruct c as [| |[|]| |]; cbn [omap list_omap FragmentContent.transition];
      rewrite !filter_cons; cbn [count passed trace_count state_policy_count];
      repeat case_decide; try done; cbn [length]; lia.
Qed.

(** The obligations of certification, on the decoded candidate. *)
Definition certified (c : Candidate.Candidate) (comp ver : string)
  (cs : list FragmentContent.FragmentContent) : Prop :=
  let g := Candidate.grammar c in
  let ts := Candidate.transitions c in
  Grammar.ok g /\
  (Candidate.component c = comp /\ Candidate.interface_version c = ver) /\
  (Forall (Transition.ok g) ts /\ NoDup (Transition.key <$> ts) /\
   vec_len ts = vec_len (Grammar.states g) * vec_len (Grammar.inputs g)) /\
  Forall (certifiable (Fsm.of_transitions ts) g) cs /\
  transitions_in cs = vec_len (Grammar.states g) * vec_len (Grammar.inputs g) /\
  held_out_in cs <> 0 /\ policies_in cs = 1.

Lemma certifiable_ext d d' g c :
  (forall s i, d s i = d' s i) -> certifiable d g c -> certifiable d' g c.
Proof.
  intros Hext. destruct c as [| |[|]| |]; cbn [certifiable]; try done;
    try (by apply Fsm.meets_ext). intros [Hs Hm]. split; [done|]. by eapply Fsm.meets_ext.
Qed.

Lemma rejected_unit_Ok (m : result Error ()) : rejected m = Ok () <-> m = Ok ().
Proof. unfold rejected. apply map_err_Ok. Qed.

Lemma fails_Ok {A} (m : result Error A) a : fails m = Ok a <-> m = Ok a.
Proof. unfold fails. apply map_err_Ok. Qed.

Lemma certify_certified bytes comp ver cs :
  (exists cov, certify bytes comp ver cs = Ok cov) <->
  exists c, decode_candidate bytes = Ok c /\ certified c comp ver cs.
Proof.
  unfold certify, certified. split.
  - intros [cov H]. apply bind_Ok in H as (c & Hc%fails_Ok & H). exists c. split; [done|].
    apply bind_Ok in H as ([] & Hg & H). rewrite fails_Ok, rejected_unit_Ok in Hg.
    pose proof (proj1 (Grammar.grammar_validate_ok _) Hg) as Hgok.
    destruct (_ || _) eqn:Hid; [done|]. split_bools.
    apply bind_Ok in H as (t & Ht%fails_Ok & H).
    destruct (build_iff (Candidate.grammar c) (Candidate.transitions c)) as
      [[(t' & Ht' & Hb) [Hok Hnd]]|[Hno _]]; [apply Hgok | | by destruct (Hno t)].
    assert (t' = t) as -> by congruence. destruct Hb as [_ _ Hdom Hlook Hent].
    unfold entries in Hent. rewrite Hent in H. destruct (negb _) eqn:Hlen in H; [done|]. split_bools.
    assert (Himpl : Fsm.implements (lookup t) (Candidate.grammar c)).
    { apply (Fsm.implements_ext (Fsm.of_transitions (Candidate.transitions c))).
      - intros s i. by rewrite Hlook.
      - by apply Fsm.of_transitions_implements. }
    apply bind_Ok in H as (n & Hn & H). apply check_contents_ok in Hn as [Hall ->]; [|done..].
    destruct (counts_in cs no_counts) as (Hp & Htr & Hsp). cbv zeta in Hp, Htr, Hsp.
    rewrite Hp, Htr, Hsp in H. cbn [passed trace_count state_policy_count no_counts] in H.
    rewrite !Z.add_0_l in H. destruct (negb (_ =? _)) eqn:E1 in H; [done|].
    destruct (held_out_in cs =? 0) eqn:E2; [done|].
    destruct (negb (_ =? _)) eqn:E3 in H; [done|]. split_bools.
    split_and!; try done. eapply Forall_impl; [exact Hall|]. intros x. by apply certifiable_ext.
  - intros (c & Hc & Hgok & [Hcomp Hver] & (Hok & Hnd & Hlen) & Hall & H1 & H2 & H3).
    rewrite Hc. cbn [fails map_err mbind result_bind].
    rewrite (proj2 (Grammar.grammar_validate_ok _) Hgok). cbn [rejected map_err mbind result_bind].
    rewrite !bool_decide_eq_true_2 by done. cbn [negb orb].
    destruct (build_iff (Candidate.grammar c) (Candidate.transitions c)) as
      [[(t & Ht & Hb) _]|[_ Hbad]]; [apply Hgok | | by destruct Hbad].
    rewrite Ht. cbn [fails map_err mbind result_bind].
    destruct Hb as [_ _ Hdom Hlook Hent]. unfold entries in Hent. rewrite Hent, Hlen, Z.eqb_refl.
    cbn [negb].
    assert (Himpl : Fsm.implements (lookup t) (Candidate.grammar c)).
    { apply (Fsm.implements_ext (Fsm.of_transitions (Candidate.transitions c))).
      - intros s i. by rewrite Hlook.
      - by apply Fsm.of_transitions_implements. }
    assert (Hall' : Forall (certifiable (lookup t) (Candidate.grammar c)) cs).
    { eapply Forall_impl; [exact Hall|]. intros x. apply certifiable_ext. intros s i. by rewrite Hlook. }
    rewrite (proj2 (check_contents_ok (Candidate.grammar c) t Hdom Himpl cs no_counts _)
      (conj Hall' eq_refl)).
    cbn [mbind result_bind].
    destruct (counts_in cs no_counts) as (Hp & Htr & Hsp). cbv zeta in Hp, Htr, Hsp.
    rewrite Hp, Htr, Hsp. cbn [passed trace_count state_policy_count no_counts].
    rewrite !Z.add_0_l, H1, H3, Z.eqb_refl. rewrite (proj2 (Z.eqb_neq _ _) H2). cbn. eauto.
Qed.

Lemma check_content_no_panic g t c n :
  (forall s, is_Some (bt_get s t) <-> s ∈ Grammar.states g) -> check_content g t c n <> Err Panics.
Proof.
  intros Hdom. destruct c as [s i s' o|sts init|[|] s ins outs|s ins bad|s i k]; cbn [check_content].
  - destruct (rejected _) as [[]|e] eqn:Hv; [|done]. rewrite rejected_unit_Ok in Hv.
    apply Transition.transition_validate_ok in Hv as [Hs _]. apply Hdom in Hs as [r Hr]. cbn in Hr |- *.
    rewrite Hr. cbn.
    by case_bool_decide.
  - by destruct (_ || _).
  - done.
  - destruct (_ || _); [done|]. destruct (walk _ _ _ _); [|done]. cbn. by case_bool_decide.
  - destruct (run_trace _ _ _); [|done]. cbn. by case_bool_decide.
  - destruct (k <? 2); [done|]. destruct (check_idempotent _ _ _ _) as [[|]|]; done.
Qed.

(** A candidate with two cells. *)
Definition two_cells : Candidate.Candidate :=
  {| Candidate.component := "svc"; Candidate.interface_version := "1";
     Candidate.grammar :=
       {| Grammar.version := "fsm-v1"; Grammar.inputs := ["i"; "j"]; Grammar.outputs := ["x"];
          Grammar.states := ["s"]; Grammar.initial_state := "s"; Grammar.max_candidates := 10 |};
     Candidate.transitions :=
       [{| Transition.state := "s"; Transition.input := "i"; Transition.next_state := "s";
           Transition.output := "x" |};
        {| Transition.state := "s"; Transition.input := "j"; Transition.next_state := "s";
           Transition.output := "x" |}] |}.

Lemma certify_total bytes comp ver cs : certify bytes comp ver cs <> Err Panics.
Proof.
  unfold certify. destruct (decode_candidate bytes) as [c|e]; [|done]. cbn [fails map_err mbind result_bind].
  destruct (rejected _) as [[]|e] eqn:Hg; [|done]. cbn [map_err mbind result_bind].
  rewrite rejected_unit_Ok in Hg. apply Grammar.grammar_validate_ok in Hg.
  destruct (_ || _); [done|].
  destruct (build_iff (Candidate.grammar c) (Candidate.transitions c)) as
    [[(t & Ht & Hb) _]|[Hno _]]; [apply Hg | |].
  2:{ destruct (for_each (Candidate.transitions c) _ _) as [t|e]; [by destruct (Hno t)|done]. }
  rewrite Ht. cbn [fails map_err mbind result_bind]. destruct (negb _); [done|].
  assert (Hloop : forall n, for_each cs n (check_content (Candidate.grammar c) t) <> Err Panics).
  { induction cs as [|x cs IH]; intros n; cbn [for_each]; [done|].
    pose proof (check_content_no_panic _ t x n (built_dom _ _ _ Hb)) as Hx.
    destruct (check_content _ t x n) as [n'|e]; [apply IH|]. cbn. congruence. }
  specialize (Hloop no_counts). destruct (for_each cs _ _) as [n|e]; cbn [mbind result_bind].
  - repeat (destruct (negb _) || destruct (_ =? _)); done.
  - congruence.
Qed.

(** * Properties *)

(** C3: the checker certifies a byte string exactly when it decodes to a candidate
    for the expected target whose grammar is valid, whose table is a total
    deterministic machine, and which meets every obligation it replays, with a
    complete count of transition obligations, a held-out trace and one policy. *)
Theorem certify_iff bytes comp ver cs :
  (exists cov, certify bytes comp ver cs = Ok cov) <->
  exists c, decode_candidate bytes = Ok c /\ certified c comp ver cs.
Proof. apply certify_certified. Qed.

(** certification never panics, whatever the bytes and the evidence. *)
Theorem certify_no_panic bytes comp ver cs : certify bytes comp ver cs <> Err Panics.
Proof. apply certify_total. Qed.

(** the completeness check counts obligations, not cells: repeating one
    transition obligation passes for a two-cell machine although the other cell has
    no obligation, and the coverage report says that nothing is uncovered. *)
Theorem certify_counts_repeats :
  let cs := [FragmentContent.Transition "s" "i" "s" "x"; FragmentContent.Transition "s" "i" "s" "x";
             FragmentContent.Trace HeldOut "s" [] []; FragmentContent.StatePolicy ["s"] "s"] in
  (exists cov, certify (wire_candidate two_cells) "svc" "1" cs = Ok cov /\
     mandatory_obligations cov = 2 /\ passed_obligations cov = 2 /\ uncovered_obligations cov = 0) /\
  ("s", "j") ∈ pairs (Grammar.states (Candidate.grammar two_cells)) (Grammar.inputs (Candidate.grammar two_cells)) /\
  forall t, t ∈ omap FragmentContent.transition cs -> Transition.key t <> ("s", "j").
Proof.
  intros cs. split; [|split].
  - eexists. split; [vm_compute; reflexivity|done].
  - apply elem_of_pairs. cbn. set_solver.
  - intros t. cbn. set_solver.
Qed.
