(* ===== verification/Sandbox.v ===== *)
(** src/sandbox.rs: compilation of a candidate to a WebAssembly step function and
    its verification in a fuel-limited engine.  The encoder (wasm-encoder) and the
    engine (wasmi) are parameters; [exec] gives the WebAssembly meaning of the
    instructions the compiler emits and [typed] their validation rules. *)
From S2P Require Import Prelude External Core Model.
Import Model.

(** * The code of a module *)

Inductive valtype := I32 | I64.

Inductive instruction :=
| LocalGet (local : Z)
| I32Const (value : Z)
| I32Eq
| I32And
| If_ (result : valtype)
| I64Const (value : Z)
| Else
| End_.

(** [EncodedModule::section] in the order of the calls. *)
Inductive section :=
| Types (types : list (list valtype * list valtype))
| Functions (functions : list Z)
| Exports (exports : list (string * Z))      (* functions only *)
| Code (bodies : list (list instruction)).

(** wasm-encoder: [Module::finish]. *)
Class WasmEncoder := finish : list section -> list Z.

Definition index_of (values : list string) (value : string) : result Error Z :=
  match list_find (fun item => item = value) values with
  | Some (index, _) =>
      if Z.of_nat index <=? i32_max then Ok (Z.of_nat index)
      else Err (InvalidEvidence "candidate uses an unknown DSL symbol")
  | None => Err (InvalidEvidence "candidate uses an unknown DSL symbol")
  end.

(** [(next_state << 32) | output] on [i64]; both indices are non-negative [i32]s. *)
Definition pack (next_state output : Z) : Z := Z.lor (Z.shiftl next_state 32) output.

(** One iteration of the loop of [compile]. *)
Definition compile_transition (grammar : Grammar.Grammar) (transition : Transition.Transition)
  (function : list instruction) : result Error (list instruction) :=
  state ← index_of (Grammar.states grammar) (Transition.state transition);
  input ← index_of (Grammar.inputs grammar) (Transition.input transition);
  let function := function ++ [LocalGet 0; I32Const state; I32Eq; LocalGet 1; I32Const input; I32Eq;
                               I32And; If_ I64] in
  next_state ← index_of (Grammar.states grammar) (Transition.next_state transition);
  output ← index_of (Grammar.outputs grammar) (Transition.output transition);
  Ok (function ++ [I64Const (pack next_state output); Else]).

Definition compile_body (candidate : Candidate.Candidate) : result Error (list instruction) :=
  function ← for_each (Candidate.transitions candidate) []
               (compile_transition (Candidate.grammar candidate));
  let function := function ++ [I64Const (-1)] in
  let function := function ++ replicate (length (Candidate.transitions candidate)) End_ in
  Ok (function ++ [End_]).

Definition step_module (body : list instruction) : list section :=
  [Types [([I32; I32], [I64])]; Functions [0]; Exports [("step", 0)]; Code [body]].

Definition compile `{WasmEncoder} (candidate : Candidate.Candidate) : result Error (list Z) :=
  body ← compile_body candidate;
  Ok (finish (step_module body)).

(** * The engine *)

Record StoreLimits := {
  memory_size : Z;
  instances : Z;
  memories : Z;
  tables : Z;
  trap_on_grow_failure : bool;
}.

(** wasmi, with the errors as their texts.  [get_step] is
    [get_typed_func::<(i32, i32), i64>("step")]. *)
Class Wasmi := {
  WModule : Type; WStore : Type; WInstance : Type; WFunc : Type;
  module_new : list Z -> result string WModule;
  module_imports : WModule -> Z;
  store_new : StoreLimits -> WStore;
  set_fuel : WStore -> Z -> result string WStore;
  instantiate_and_start : WStore -> WModule -> result string (WInstance * WStore);
  get_step : WInstance -> WStore -> result string WFunc;
  call : WFunc -> WStore -> Z * Z -> result string Z * WStore;
}.

Record SandboxEvidence := {
  engine : string;
  module_digest : string;
  imports : Z;
  fuel_per_call : Z;
  memory_limit_bytes : Z;
  verified_executions : Z;
}.

Definition FUEL : Z := 10000.
Definition MEMORY : Z := 65536.

Section Verify.
Context `{Sha256, Hex, Wasmi}.

Definition load_module (wasm : list Z) : result Error WModule :=
  if 1048576 <? vec_len wasm
  then Err (SearchExhausted "WebAssembly module exceeds the 1 MiB sandbox bound") else
  map_err (fun error => CheckerRejected ("invalid WebAssembly: " +:+ error)) (module_new wasm).

(** The loop of [verify]: the store is threaded through the calls. *)
Definition verify_transition (grammar : Grammar.Grammar) (step : WFunc)
  (transition : Transition.Transition) (store : WStore) : result Error WStore :=
  store ← map_err CheckerRejected (set_fuel store FUEL);
  state ← index_of (Grammar.states grammar) (Transition.state transition);
  input ← index_of (Grammar.inputs grammar) (Transition.input transition);
  let '(observed, store) := call step store (state, input) in
  observed ← map_err (fun error => CheckerRejected ("sandbox execution failed: " +:+ error)) observed;
  next_state ← index_of (Grammar.states grammar) (Transition.next_state transition);
  output ← index_of (Grammar.outputs grammar) (Transition.output transition);
  if negb (observed =? pack next_state output)
  then Err (CheckerRejected "sandbox behavior disagrees with the certified candidate")
  else Ok store.

Definition verify (candidate : Candidate.Candidate) (wasm : list Z) : result Error SandboxEvidence :=
  module ← load_module wasm;
  let imports := module_imports module in
  if negb (imports =? 0)
  then Err (CheckerRejected "candidate WebAssembly requests ambient capabilities") else
  let store := store_new {| memory_size := MEMORY; instances := 1; memories := 1; tables := 0;
                            trap_on_grow_failure := false |} in
  store ← map_err CheckerRejected (set_fuel store FUEL);
  '(instance, store) ← map_err (fun error => CheckerRejected ("sandbox instantiation failed: " +:+ error))
                         (instantiate_and_start store module);
  step ← map_err (fun error => CheckerRejected ("sandbox ABI mismatch: " +:+ error))
           (get_step instance store);
  _ ← for_each (Candidate.transitions candidate) store
        (verify_transition (Candidate.grammar candidate) step);
  Ok {| engine := "wasmi-1.1.0"; module_digest := bytes_digest wasm; imports := imports;
        fuel_per_call := FUEL; memory_limit_bytes := MEMORY;
        verified_executions := vec_len (Candidate.transitions candidate) |}.

Definition rejects_capabilities (wasm : list Z) : result Error () :=
  module ← load_module wasm;
  if 0 <? module_imports module
  then Err (CheckerRejected "candidate WebAssembly requests ambient capabilities")
  else Ok ().

Definition execute_untrusted_step (wasm : list Z) (state input fuel : Z) : result Error Z :=
  module ← load_module wasm;
  if 0 <? module_imports module
  then Err (CheckerRejected "candidate WebAssembly requests ambient capabilities") else
  let store := store_new {| memory_size := 65536; instances := 1; memories := 1; tables := 0;
                            trap_on_grow_failure := true |} in
  store ← map_err CheckerRejected (set_fuel store fuel);
  '(instance, store) ← map_err (fun error => CheckerRejected ("sandbox instantiation failed: " +:+ error))
                         (instantiate_and_start store module);
  step ← map_err (fun error => CheckerRejected ("sandbox ABI mismatch: " +:+ error))
           (get_step instance store);
  map_err (fun error => SearchExhausted ("sandbox fuel or execution bound reached: " +:+ error))
    (call step store (state, input)).1.
End Verify.

(** * The meaning of the emitted code *)

(** Where control is: executing, or skipping to the matching [else] or [end]
    through [n] nested blocks. *)
Inductive mode :=
| Exec
| SkipElse (n : nat)
| SkipEnd (n : nat).

(** The value stack after a function body on two [i32] arguments; [None]: stuck. *)
Fixpoint exec (args : Z * Z) (m : mode) (stack : list Z) (code : list instruction) : option (list Z) :=
  match code with
  | [] => Some stack
  | instr :: code' =>
      match m with
      | Exec =>
          match instr, stack with
          | LocalGet 0, _ => exec args Exec (args.1 :: stack) code'
          | LocalGet 1, _ => exec args Exec (args.2 :: stack) code'
          | I32Const v, _ | I64Const v, _ => exec args Exec (v :: stack) code'
          | I32Eq, b :: a :: stack' => exec args Exec ((if a =? b then 1 else 0) :: stack') code'
          | I32And, b :: a :: stack' => exec args Exec (Z.land a b :: stack') code'
          | If_ _, c :: stack' =>
              exec args (if c =? 0 then SkipElse 0 else Exec) stack' code'
          | Else, _ => exec args (SkipEnd 0) stack code'
          | End_, _ => exec args Exec stack code'
          | _, _ => None
          end
      | SkipElse n =>
          match instr with
          | If_ _ => exec args (SkipElse (S n)) stack code'
          | Else => exec args (match n with O => Exec | S _ => SkipElse n end) stack code'
          | End_ => exec args (match n with O => Exec | S n' => SkipElse n' end) stack code'
          | _ => exec args m stack code'
          end
      | SkipEnd n =>
          match instr with
          | If_ _ => exec args (SkipEnd (S n)) stack code'
          | End_ => exec args (match n with O => Exec | S n' => SkipEnd n' end) stack code'
          | _ => exec args m stack code'
          end
      end
  end.

(** The result of the step function. *)
Definition step_result (body : list instruction) (args : Z * Z) : option Z :=
  stack ← exec args Exec [] body; head stack.

(** Validation: operand types, and for each open block the operands below it and
    whether its [else] is still to come. *)
Fixpoint typed (operands : list valtype) (blocks : list (list valtype * bool))
  (code : list instruction) : bool :=
  match code with
  | [] => false
  | instr :: code' =>
      match instr, operands with
      | LocalGet l, _ => (0 <=? l) && (l <? 2) && typed (I32 :: operands) blocks code'
      | I32Const v, _ => (- 2 ^ 31 <=? v) && (v <? 2 ^ 31) && typed (I32 :: operands) blocks code'
      | I64Const v, _ => (i64_min <=? v) && (v <=? i64_max) && typed (I64 :: operands) blocks code'
      | I32Eq, I32 :: I32 :: ops | I32And, I32 :: I32 :: ops => typed (I32 :: ops) blocks code'
      | If_ I64, I32 :: ops => typed [] ((ops, true) :: blocks) code'
      | Else, [I64] =>
          match blocks with
          | (ops, true) :: blocks' => typed [] ((ops, false) :: blocks') code'
          | _ => false
          end
      | End_, [I64] =>
          match blocks with
          | (ops, false) :: blocks' => typed (I64 :: ops) blocks' code'
          | [] => match code' with [] => true | _ => false end
          | _ => false
          end
      | _, _ => false
      end
  end.

(** What the sandbox relies on: the engine accepts a validated import-free module of
    permitted size, and runs its step function as WebAssembly prescribes when the
    fuel covers every instruction, whatever was called before. *)
Class WasmiLaws `{WasmEncoder, Wasmi} := {
  hosts : WStore -> WFunc -> list instruction -> Z -> Prop;
  wasmi_load : forall body, typed [] [] body = true ->
    vec_len (finish (step_module body)) <= 1048576 ->
    exists m, module_new (finish (step_module body)) = Ok m /\ module_imports m = 0 /\
    forall limits fuel, 1 <= instances limits -> 0 < fuel ->
    exists st i st' f, set_fuel (store_new limits) fuel = Ok st /\
      instantiate_and_start st m = Ok (i, st') /\ get_step i st' = Ok f /\
      exists left, hosts st' f body left;
  wasmi_fuel : forall st f body left fuel, hosts st f body left ->
    exists st', set_fuel st fuel = Ok st' /\ hosts st' f body fuel;
  wasmi_call : forall st f body fuel args v, hosts st f body fuel ->
    vec_len body <= fuel -> step_result body args = Some v ->
    exists st' left, call f st args = (Ok v, st') /\ hosts st' f body left;
}.

(** * The emitted code is a dispatch over the cells *)

Definition cell_code (cell : Z * Z * Z) : list instruction :=
  [LocalGet 0; I32Const cell.1.1; I32Eq; LocalGet 1; I32Const cell.1.2; I32Eq; I32And; If_ I64;
   I64Const cell.2; Else].

Definition chain (cells : list (Z * Z * Z)) : list instruction := concat (cell_code <$> cells).

(** The first cell for the arguments, or -1. *)
Fixpoint dispatch (cells : list (Z * Z * Z)) (args : Z * Z) : Z :=
  match cells with
  | [] => -1
  | cell :: cells' => if (args.1 =? cell.1.1) && (args.2 =? cell.1.2) then cell.2 else dispatch cells' args
  end.

Lemma exec_skip_chain args k stack cells code :
  exec args (SkipEnd k) stack (chain cells ++ code) =
  exec args (SkipEnd (length cells + k)) stack code.
Proof.
  revert k. induction cells as [|c cells IH]; intros k; [done|].
  unfold chain. cbn. fold (chain cells). rewrite IH. f_equal. f_equal. lia.
Qed.

Lemma exec_skip_ends args k stack code :
  exec args (SkipEnd k) stack (replicate k End_ ++ code) = exec args (SkipEnd 0) stack code.
Proof. induction k as [|k IH]; [done|]. cbn. apply IH. Qed.

Lemma exec_ends args k stack code :
  exec args Exec stack (replicate k End_ ++ code) = exec args Exec stack code.
Proof. induction k as [|k IH]; [done|]. cbn. apply IH. Qed.

Lemma exec_chain args p cells :
  exec args Exec [] (chain cells ++ I64Const (-1) :: replicate (length cells + p) End_ ++ [End_]) =
  Some [dispatch cells args].
Proof.
  revert p. induction cells as [|[[s i] v] cells IH]; intros p.
  - cbn [chain concat fmap list_fmap app length plus exec]. by rewrite exec_ends.
  - unfold chain. cbn [fmap list_fmap concat app cell_code exec dispatch fst snd].
    fold (chain cells). cbn [length].
    replace (Z.land (if args.1 =? s then 1 else 0) (if args.2 =? i then 1 else 0))
      with (if (args.1 =? s) && (args.2 =? i) then 1 else 0)
      by (destruct (args.1 =? s), (args.2 =? i); reflexivity).
    destruct ((args.1 =? s) && (args.2 =? i)); cbn [Z.eqb Pos.eqb exec].
    + rewrite exec_skip_chain. cbn [exec].
      replace (replicate (S (length cells) + p) End_)
        with (replicate (length cells + 0) End_ ++ replicate (S p) End_)
        by (rewrite <- replicate_add; f_equal; lia).
      rewrite <- app_assoc, exec_skip_ends. cbn [replicate app exec]. by rewrite exec_ends.
    + replace (S (length cells) + p)%nat with (length cells + S p)%nat by lia. apply IH.
Qed.

Lemma typed_chain cells blocks :
  Forall (fun c => (0 <= c.1.1 <= i32_max /\ 0 <= c.1.2 <= i32_max) /\ is_i64 c.2) cells ->
  Forall (fun b => b = ([], false)) blocks ->
  typed [] blocks (chain cells ++ I64Const (-1) :: replicate (length cells + length blocks) End_ ++ [End_])
  = true.
Proof.
  intros Hcells. revert blocks.
  induction Hcells as [|[[s i] v] cells [[Hs Hi] Hv] _ IH]; intros blocks Hb.
  - cbn [chain concat fmap list_fmap app length plus typed]. cbn [Z.leb andb].
    induction Hb as [|b blocks -> _ IHb]; [done|]. cbn. exact IHb.
  - unfold chain. cbn [fmap list_fmap concat app cell_code typed fst snd]. fold (chain cells).
    unfold is_i64 in Hv. unfold i32_max in *. cbn in Hs, Hi, Hv.
    eval_tests. cbn [andb length].
    specialize (IH (([], false) :: blocks) ltac:(by constructor)). cbn [length] in IH.
    by replace (S (length cells) + length blocks)%nat with (length cells + S (length blocks))%nat by lia.
Qed.

(** ** The cells of a candidate *)

Lemma index_of_ok values value n :
  index_of values value = Ok n <->
  n <= i32_max /\ 0 <= n /\ values !! Z.to_nat n = Some value /\
  forall m, (m < Z.to_nat n)%nat -> values !! m <> Some value.
Proof.
  unfold index_of. split.
  - destruct (list_find _ values) as [[k x]|] eqn:E; [|done].
    apply list_find_Some in E as (Hk & -> & Hfirst). destruct (_ <=? _) eqn:Hle; [|done].
    intros [= <-]. split_bools. rewrite Nat2Z.id. split_and!; try done; [lia|].
    intros m Hm Hm'. by apply (Hfirst m value).
  - intros (Hle & Hnn & Hk & Hfirst).
    assert (list_find (fun item => item = value) values = Some (Z.to_nat n, value)) as ->.
    { apply list_find_Some. split_and!; [done|done|]. intros m x Hm Hlt ->. by apply (Hfirst m). }
    rewrite Z2Nat.id by lia. by rewrite (proj2 (Z.leb_le _ _)).
Qed.

Lemma index_of_elem values value :
  vec_len values <= 64 -> value ∈ values -> exists n, index_of values value = Ok n /\ 0 <= n < 64.
Proof.
  intros Hlen Hin. unfold index_of.
  destruct (list_find _ values) as [[k x]|] eqn:E.
  - apply list_find_Some in E as (Hk & -> & _). apply lookup_lt_Some in Hk. unfold vec_len in Hlen.
    unfold i32_max. eval_tests. exists (Z.of_nat k). split; [done|lia].
  - exfalso. apply list_find_None in E. rewrite Forall_forall in E. by apply (E value).
Qed.

Lemma index_of_inj values v w n : index_of values v = Ok n -> index_of values w = Ok n -> v = w.
Proof. rewrite !index_of_ok. intros (_ & _ & Hv & _) (_ & _ & Hw & _). congruence. Qed.

(** The cell a transition compiles to. *)
Definition cell_of (g : Grammar.Grammar) (t : Transition.Transition) (cell : Z * Z * Z) : Prop :=
  exists n o, index_of (Grammar.states g) (Transition.state t) = Ok cell.1.1 /\
    index_of (Grammar.inputs g) (Transition.input t) = Ok cell.1.2 /\
    index_of (Grammar.states g) (Transition.next_state t) = Ok n /\
    index_of (Grammar.outputs g) (Transition.output t) = Ok o /\
    (0 <= n < 64 /\ 0 <= o < 64) /\ cell.2 = pack n o.

Lemma cell_of_exists g t : Grammar.ok g -> Transition.ok g t -> exists cell, cell_of g t cell.
Proof.
  intros ((_ & Hi) & (_ & Ho) & (_ & Hs) & _) (H1 & H2 & H3 & H4).
  destruct (index_of_elem _ _ Hs H1) as (s & E1 & _).
  destruct (index_of_elem _ _ Hi H3) as (i & E2 & _).
  destruct (index_of_elem _ _ Hs H2) as (n & E3 & ?).
  destruct (index_of_elem _ _ Ho H4) as (o & E4 & ?).
  exists (s, i, pack n o), n, o. done.
Qed.

Lemma compile_transition_cell g t cell code :
  cell_of g t cell -> compile_transition g t code = Ok (code ++ cell_code cell).
Proof.
  intros (n & o & E1 & E2 & E3 & E4 & _ & Hv). unfold compile_transition.
  rewrite E1, E2, E3, E4. cbn. rewrite <- app_assoc. unfold cell_code. by rewrite Hv.
Qed.

Lemma compile_body_chain c cells :
  Forall2 (cell_of (Candidate.grammar c)) (Candidate.transitions c) cells ->
  compile_body c =
  Ok (chain cells ++ I64Const (-1) :: replicate (length cells) End_ ++ [End_]).
Proof.
  intros Hall. unfold compile_body.
  assert (Hrun : forall code, for_each (Candidate.transitions c) code
    (compile_transition (Candidate.grammar c)) = Ok (code ++ chain cells)).
  { induction Hall as [|t cell ts cells Ht _ IH]; intros code; [by rewrite app_nil_r|].
    cbn [for_each]. rewrite (compile_transition_cell _ _ cell) by done. cbn [mbind result_bind].
    rewrite IH. unfold chain. cbn [fmap list_fmap concat]. by rewrite <- app_assoc. }
  rewrite Hrun. cbn [mbind result_bind]. rewrite app_nil_l.
  rewrite (Forall2_length _ _ _ Hall), <- !app_assoc. done.
Qed.

Lemma cells_exist c :
  Grammar.ok (Candidate.grammar c) -> Forall (Transition.ok (Candidate.grammar c)) (Candidate.transitions c) ->
  exists cells, Forall2 (cell_of (Candidate.grammar c)) (Candidate.transitions c) cells.
Proof.
  intros Hg Hok. induction Hok as [|t ts Ht _ IH]; [by exists []|].
  destruct (cell_of_exists _ _ Hg Ht) as [cell Hc]. destruct IH as [cells Hcs].
  exists (cell :: cells). by constructor.
Qed.

Lemma pack_value n o : 0 <= n < 64 -> 0 <= o < 64 -> pack n o = n * 2 ^ 32 + o.
Proof.
  intros Hn Ho. unfold pack. rewrite Z.shiftl_mul_pow2 by lia.
  rewrite <- Z.lxor_lor, <- Z.add_nocarry_lxor; try done;
    apply Z.bits_inj'; intros k Hk; rewrite Z.land_spec, Z.bits_0;
    destruct (decide (k < 32)).
  - by rewrite Z.mul_pow2_bits_low by lia.
  - rewrite (Z.bits_above_log2 o k); [apply andb_false_r|lia|].
    destruct (decide (o = 0)) as [->|]; [cbn; lia|]. apply Z.log2_lt_pow2; [lia|].
    apply (Z.lt_le_trans _ (2 ^ 6)); [lia|]. apply Z.pow_le_mono_r; lia.
  - by rewrite Z.mul_pow2_bits_low by lia.
  - rewrite (Z.bits_above_log2 o k); [apply andb_false_r|lia|].
    destruct (decide (o = 0)) as [->|]; [cbn; lia|]. apply Z.log2_lt_pow2; [lia|].
    apply (Z.lt_le_trans _ (2 ^ 6)); [lia|]. apply Z.pow_le_mono_r; lia.
Qed.

(** Dispatch finds the transition of a cell, and nothing for other arguments. *)
Lemma dispatch_hit g ts cells t cell :
  Forall2 (cell_of g) ts cells -> NoDup (Transition.key <$> ts) -> t ∈ ts -> cell_of g t cell ->
  dispatch cells cell.1 = cell.2.
Proof.
  intros Hall Hnd Ht Hcell. induction Hall as [|t' [[s' i'] v'] ts cells Hc' Hall IH]; [set_solver|].
  rewrite fmap_cons in Hnd. inversion Hnd as [|?? Hni Hnd']; subst. cbn [dispatch fst snd].
  destruct ((cell.1.1 =? s') && (cell.1.2 =? i')) eqn:E.
  - split_bools. subst s' i'. destruct Hcell as (n & o & E1 & E2 & E3 & E4 & _ & Hv).
    destruct Hc' as (n' & o' & E1' & E2' & E3' & E4' & _ & Hv'). cbn in *.
    assert (Transition.key t = Transition.key t') as Hk.
    { unfold Transition.key. f_equal; by eapply index_of_inj. }
    apply elem_of_cons in Ht as [->|Ht]; [congruence|]. exfalso. apply Hni. rewrite <- Hk.
    by apply list_elem_of_fmap_2.
  - apply elem_of_cons in Ht as [->|Ht]; [|by apply IH]. exfalso.
    destruct Hcell as (n & o & E1 & E2 & _). destruct Hc' as (n' & o' & E1' & E2' & _).
    cbn in *. rewrite E1 in E1'. rewrite E2 in E2'. injection E1' as <-. injection E2' as <-.
    by rewrite !Z.eqb_refl in E.
Qed.

Lemma dispatch_miss g ts cells a b :
  Forall2 (cell_of g) ts cells ->
  (forall t, t ∈ ts -> index_of (Grammar.states g) (Transition.state t) = Ok a ->
     index_of (Grammar.inputs g) (Transition.input t) = Ok b -> False) ->
  dispatch cells (a, b) = -1.
Proof.
  intros Hall. induction Hall as [|t' [[s' i'] v'] ts cells Hc' Hall IH]; intros Hno; [done|].
  cbn [dispatch fst snd]. destruct ((a =? s') && (b =? i')) eqn:E.
  - exfalso. split_bools. subst. destruct Hc' as (n' & o' & E1' & E2' & _).
    apply (Hno t'); [left|done..].
  - apply IH. intros t Ht. apply Hno. by right.
Qed.

Lemma chain_length cells : vec_len (chain cells) = 10 * vec_len cells.
Proof.
  unfold vec_len, chain. induction cells as [|c cells IH]; [done|].
  cbn [fmap list_fmap concat]. rewrite length_app. cbn [length cell_code]. lia.
Qed.

Lemma body_length cells :
  vec_len (chain cells ++ I64Const (-1) :: replicate (length cells) End_ ++ [End_]) =
  11 * vec_len cells + 2.
Proof.
  pose proof (chain_length cells) as Hc. unfold vec_len in *. rewrite length_app. cbn [length].
  rewrite length_app, length_replicate. cbn [length]. lia.
Qed.

Lemma body_typed g ts cells :
  Forall2 (cell_of g) ts cells ->
  typed [] [] (chain cells ++ I64Const (-1) :: replicate (length cells) End_ ++ [End_]) = true.
Proof.
  intros Hall. replace (replicate (length cells) End_)
    with (replicate (length cells + length (@nil (list valtype * bool))) End_)
    by (cbn; by rewrite Nat.add_0_r).
  apply typed_chain; [|constructor]. induction Hall as [|t [[s i] v] ts cells Hc _ IH]; constructor; [|done].
  destruct Hc as (n & o & (H1 & H1' & _)%index_of_ok & (H2 & H2' & _)%index_of_ok & _ & _ & [Hn Ho] & Hv).
  cbn [fst snd] in *. split; [done|]. rewrite Hv, pack_value by done.
  unfold is_i64, i64_min, i64_max. lia.
Qed.

Lemma body_result cells args :
  step_result (chain cells ++ I64Const (-1) :: replicate (length cells) End_ ++ [End_]) args =
  Some (dispatch cells args).
Proof.
  unfold step_result. pose proof (exec_chain args 0 cells) as He. rewrite Nat.add_0_r in He.
  by rewrite He.
Qed.

(** The result expected for a transition is what its cell holds. *)
Lemma verify_loop `{WasmiLaws} g step body cells ts ts0 cells0 store left :
  Forall2 (cell_of g) ts0 cells0 -> NoDup (Transition.key <$> ts0) ->
  body = chain cells0 ++ I64Const (-1) :: replicate (length cells0) End_ ++ [End_] ->
  vec_len body <= FUEL -> Forall2 (cell_of g) ts cells -> (forall t, t ∈ ts -> t ∈ ts0) ->
  hosts store step body left ->
  exists store', for_each ts store (verify_transition g step) = Ok store'.
Proof.
  intros Hall0 Hnd Hbody Hfuel Hall. revert store left.
  induction Hall as [|t cell ts cells Hc _ IH]; intros store left Hin Hh; [by eexists|].
  assert (Hstep : exists st' left', verify_transition g step t store = Ok st' /\ hosts st' step body left').
  { unfold verify_transition.
    destruct (wasmi_fuel _ _ _ _ FUEL Hh) as (st1 & -> & Hh1). cbn [map_err mbind result_bind].
    pose proof (dispatch_hit g ts0 cells0 t cell Hall0 Hnd (Hin t ltac:(left)) Hc) as Hd.
    pose proof Hc as (n & o & E1 & E2 & E3 & E4 & _ & Hv).
    rewrite E1. cbn [mbind result_bind]. rewrite E2. cbn [mbind result_bind].
    destruct (wasmi_call _ _ _ _ (cell.1.1, cell.1.2) cell.2 Hh1 Hfuel) as (st2 & left2 & -> & Hh2).
    { rewrite Hbody, body_result, <- Hd. by destruct cell as [[] ?]. }
    cbn [map_err mbind result_bind]. rewrite E3. cbn [mbind result_bind]. rewrite E4.
    cbn [mbind result_bind]. rewrite Hv, Z.eqb_refl. cbn [negb]. eauto. }
  destruct Hstep as (st2 & left2 & Hstep & Hh2). cbn [for_each]. rewrite Hstep. cbn [mbind result_bind].
  apply (IH st2 left2); [|done]. intros u Hu. apply Hin. by right.
Qed.

(** One concrete encoder and engine, for the witnesses. *)
Module ToyWasm.
Definition code_of (i : instruction) : Z * Z :=
  match i with
  | LocalGet l => (0, l) | I32Const v => (1, v) | I32Eq => (2, 0) | I32And => (3, 0)
  | If_ I32 => (4, 0) | If_ I64 => (4, 1) | I64Const v => (5, v) | Else => (6, 0) | End_ => (7, 0)
  end.
Definition of_code (c : Z * Z) : option instruction :=
  if c.1 =? 0 then Some (LocalGet c.2) else if c.1 =? 1 then Some (I32Const c.2)
  else if c.1 =? 2 then Some I32Eq else if c.1 =? 3 then Some I32And
  else if c.1 =? 4 then Some (If_ (if c.2 =? 0 then I32 else I64))
  else if c.1 =? 5 then Some (I64Const c.2) else if c.1 =? 6 then Some Else
  else if c.1 =? 7 then Some End_ else None.
Fixpoint flatten (l : list instruction) : list Z :=
  match l with [] => [] | i :: l' => (code_of i).1 :: (code_of i).2 :: flatten l' end.
Fixpoint parse (l : list Z) : option (list instruction) :=
  match l with
  | [] => Some []
  | a :: b :: l' => i ← of_code (a, b); r ← parse l'; Some (i :: r)
  | _ => None
  end.
Lemma parse_flatten l : parse (flatten l) = Some l.
Proof. induction l as [|i l IH]; [done|]. cbn. rewrite IH. by destruct i as [| | | |[]| | |]. Qed.

#[export] Instance encoder : WasmEncoder := fun secs =>
  match secs with [_; _; _; Code [body]] => flatten body | _ => [] end.
#[export] Instance wasmi : Wasmi := {|
  WModule := list instruction; WStore := Z; WInstance := list instruction; WFunc := list instruction;
  module_new bytes := match parse bytes with
                      | Some b => if typed [] [] b then Ok b else Err "invalid"
                      | None => Err "malformed" end;
  module_imports _ := 0;
  store_new _ := 0;
  set_fuel _ fuel := Ok fuel;
  instantiate_and_start st m := Ok (m, st);
  get_step i _ := Ok i;
  call f st args :=
    if vec_len f <=? st then
      match step_result f args with Some v => (Ok v, st - vec_len f) | None => (Err "trap", st) end
    else (Err "fuel", 0);
|}.
#[export] Instance wasmi_laws : WasmiLaws.
Proof.
  refine {| hosts st f body left := f = body /\ left = st |}.
  - intros body Ht _. exists body. unfold module_new, wasmi, finish, encoder, step_module.
    rewrite parse_flatten, Ht. split; [done|]. split; [done|]. intros lim fuel _ _.
    exists fuel, body, fuel, body. split_and!; try done. by exists fuel.
  - intros st f body left fuel [-> _]. by exists fuel.
  - intros st f body fuel args v [-> ->] Hle Hv. exists (st - vec_len body), (st - vec_len body).
    cbn. by rewrite (proj2 (Z.leb_le _ _) Hle), Hv.
Defined.
End ToyWasm.

(** A two-state machine. *)
Definition toggle : Candidate.Candidate :=
  {| Candidate.component := "svc"; Candidate.interface_version := "1";
     Candidate.grammar :=
       {| Grammar.version := "fsm-v1"; Grammar.inputs := ["i"]; Grammar.outputs := ["x"; "y"];
          Grammar.states := ["s"; "t"]; Grammar.initial_state := "s"; Grammar.max_candidates := 100 |};
     Candidate.transitions :=
       [{| Transition.state := "s"; Transition.input := "i"; Transition.next_state := "t";
           Transition.output := "y" |};
        {| Transition.state := "t"; Transition.input := "i"; Transition.next_state := "s";
           Transition.output := "x" |}] |}.

Lemma toggle_ok :
  Grammar.ok (Candidate.grammar toggle) /\
  Forall (Transition.ok (Candidate.grammar toggle)) (Candidate.transitions toggle) /\
  NoDup (Transition.key <$> Candidate.transitions toggle).
Proof.
  split; [by apply Grammar.grammar_validate_ok|]. split.
  - repeat apply Forall_cons_2; [by apply Transition.transition_validate_ok.. | apply Forall_nil_2].
  - apply (bool_decide_eq_true_1 _). vm_compute. reflexivity.
Qed.

(** A body computes a machine on symbol indices: the packed next state and output
    for a defined cell, and -1 elsewhere. *)
Definition computes (body : list instruction) (g : Grammar.Grammar) (d : Fsm.machine) : Prop :=
  (forall s i s' o, d s i = Some (s', o) ->
     exists a b n m, index_of (Grammar.states g) s = Ok a /\ index_of (Grammar.inputs g) i = Ok b /\
       index_of (Grammar.states g) s' = Ok n /\ index_of (Grammar.outputs g) o = Ok m /\
       step_result body (a, b) = Some (n * 2 ^ 32 + m)) /\
  (forall a b,
     (forall s i, index_of (Grammar.states g) s = Ok a -> index_of (Grammar.inputs g) i = Ok b ->
        d s i = None) ->
     step_result body (a, b) = Some (-1)).

Lemma compile_body_computes c :
  let g := Candidate.grammar c in
  let d := Fsm.of_transitions (Candidate.transitions c) in
  Grammar.ok g -> Forall (Transition.ok g) (Candidate.transitions c) ->
  NoDup (Transition.key <$> Candidate.transitions c) ->
  exists body, compile_body c = Ok body /\ typed [] [] body = true /\
    vec_len body = 11 * vec_len (Candidate.transitions c) + 2 /\ computes body g d.
Proof.
  intros g d Hg Hok Hnd. destruct (cells_exist c Hg Hok) as [cells Hall].
  eexists. split; [by apply compile_body_chain|]. split; [by eapply body_typed|].
  split; [rewrite body_length; unfold vec_len; by rewrite (Forall2_length _ _ _ Hall)|]. split.
  - intros s i s' o Hd. apply Fsm.of_transitions_spec in Hd; [|done].
    rewrite Forall_forall in Hok. destruct (cell_of_exists g _ Hg (Hok _ Hd)) as [cell Hc].
    pose proof (dispatch_hit g _ _ _ _ Hall Hnd Hd Hc) as Hdisp.
    destruct Hc as (n & m & E1 & E2 & E3 & E4 & [Hn Hm] & Hv). cbn in E1, E2, E3, E4.
    exists cell.1.1, cell.1.2, n, m. rewrite body_result. split_and!; try done.
    rewrite <- pack_value, <- Hv, <- Hdisp by done. by destruct cell as [[] ?].
  - intros a b Hno. rewrite body_result. f_equal. apply (dispatch_miss g _ _ _ _ Hall).
    intros [s i s' o] Ht Ha Hb. specialize (Hno s i Ha Hb).
    assert (d s i = Some (s', o)) by (by apply Fsm.of_transitions_spec). congruence.
Qed.

(** * Properties *)

(** C6: the compiler emits a well-typed body whose size is linear in the table,
    and whose step function is the candidate's machine on symbol indices: it returns
    the packed next state and output for a declared cell, and -1 elsewhere. *)
Theorem sandbox_compile_correct c :
  let g := Candidate.grammar c in
  let d := Fsm.of_transitions (Candidate.transitions c) in
  Grammar.ok g -> Forall (Transition.ok g) (Candidate.transitions c) ->
  NoDup (Transition.key <$> Candidate.transitions c) ->
  exists body, compile_body c = Ok body /\ typed [] [] body = true /\
    vec_len body = 11 * vec_len (Candidate.transitions c) + 2 /\
    (forall s i s' o, d s i = Some (s', o) ->
       exists a b n m, index_of (Grammar.states g) s = Ok a /\ index_of (Grammar.inputs g) i = Ok b /\
         index_of (Grammar.states g) s' = Ok n /\ index_of (Grammar.outputs g) o = Ok m /\
         step_result body (a, b) = Some (n * 2 ^ 32 + m)) /\
    (forall a b,
       (forall s i, index_of (Grammar.states g) s = Ok a -> index_of (Grammar.inputs g) i = Ok b ->
          d s i = None) ->
       step_result body (a, b) = Some (-1)).
Proof. apply compile_body_computes. Qed.

(** on an engine that implements WebAssembly, the sandbox accepts the module
    compiled from any total candidate, within its fuel of 10000 units per call. *)
Theorem sandbox_accepts_compiled `{Sha256, Hex, WasmiLaws} c wasm :
  Grammar.ok (Candidate.grammar c) ->
  Forall (Transition.ok (Candidate.grammar c)) (Candidate.transitions c) ->
  NoDup (Transition.key <$> Candidate.transitions c) -> vec_len (Candidate.transitions c) <= 256 ->
  compile c = Ok wasm -> vec_len wasm <= 1048576 ->
  exists evidence, verify c wasm = Ok evidence /\
    verified_executions evidence = vec_len (Candidate.transitions c) /\ imports evidence = 0.
Proof.
  intros Hg Hok Hnd Hn Hcomp Hsize. destruct (cells_exist c Hg Hok) as [cells Hall].
  unfold compile in Hcomp. rewrite (compile_body_chain c cells Hall) in Hcomp.
  cbn [mbind result_bind] in Hcomp. injection Hcomp as <-.
  assert (Hlen : vec_len cells = vec_len (Candidate.transitions c))
    by (unfold vec_len; by rewrite (Forall2_length _ _ _ Hall)).
  destruct (wasmi_load _ (body_typed _ _ _ Hall) Hsize) as (m & Hm & Hi & Hinst).
  unfold verify, load_module. rewrite (proj2 (Z.ltb_ge _ _)), Hm by lia.
  cbn [map_err mbind result_bind]. rewrite Hi. cbn [Z.eqb negb].
  destruct (Hinst {| memory_size := MEMORY; instances := 1; memories := 1; tables := 0;
    trap_on_grow_failure := false |} FUEL) as (st & i & st' & f & -> & Hst & Hf & left & Hh);
    [cbn; lia|unfold FUEL; lia|].
  cbn [map_err mbind result_bind]. rewrite Hst. cbn [map_err mbind result_bind]. rewrite Hf.
  cbn [map_err mbind result_bind].
  destruct (verify_loop (Candidate.grammar c) f _ cells (Candidate.transitions c)
    (Candidate.transitions c) cells st' left Hall Hnd eq_refl) as [st2 ->]; [|done|auto|done|].
  { rewrite body_length. unfold FUEL. lia. }
  cbn [mbind result_bind]. eexists. split; [done|]. by split.
Qed.

Example sandbox_compile_correct_witness :
  exists body, compile_body toggle = Ok body /\ step_result body (0, 0) = Some (1 * 2 ^ 32 + 1).
Proof.
  destruct toggle_ok as (Hg & Hok & Hnd).
  destruct (sandbox_compile_correct toggle Hg Hok Hnd) as (body & Hb & _ & _ & Hstep & _).
  exists body. split; [exact Hb|].
  destruct (Hstep "s" "i" "t" "y" eq_refl) as (a & b & n & m & Ha & Hi & Hn & Hm & Hr).
  injection Ha as <-. injection Hi as <-. injection Hn as <-. injection Hm as <-. exact Hr.
Defined.

Example sandbox_accepts_compiled_witness :
  exists wasm evidence, @compile ToyWasm.encoder toggle = Ok wasm /\
  @verify Toy.sha Toy.hexi ToyWasm.wasmi toggle wasm = Ok evidence /\ verified_executions evidence = 2.
Proof.
  destruct toggle_ok as (Hg & Hok & Hnd).
  destruct (@compile ToyWasm.encoder toggle) as [wasm|] eqn:Hc; [|vm_compute in Hc; discriminate Hc].
  destruct (@sandbox_accepts_compiled Toy.sha Toy.hexi ToyWasm.encoder ToyWasm.wasmi ToyWasm.wasmi_laws
    toggle wasm Hg Hok Hnd) as (ev & Hv & He & _); [vm_compute; discriminate | exact Hc | |].
  - vm_compute in Hc. injection Hc as <-. vm_compute. discriminate.
  - exists wasm, ev. auto.
Defined.
