(* ===== verification/Evidence.v ===== *)
(** crates/anasemble-evidence: generic evidence envelopes, Ed25519 signatures, key
    status, the replay window, XChaCha20-Poly1305 seals, provenance records and
    the admission pipeline. *)
From S2P Require Import Prelude External Json Core Cbor.

Definition MAX_LABELS : Z := 32.
Definition MAX_MEDIA_TYPE_BYTES : Z := 256.
Definition SCHEMA_VERSION : Z := 1.

(** error.rs *)
Inductive EvidenceError :=
| EvCore (e : CoreError)
| EvId (e : IdError)
| Rejected (reason : string)
| Crypto (reason : string)
| Timestamp.

#[export] Instance EvidenceError_eq_dec : EqDecision EvidenceError.
Proof. solve_decision. Defined.

(** * envelope.rs *)

Inductive EvidenceKind :=
| Declared | Observed | Executed | State | Contractual | Verified | Derived | Inferred
| Negative | Contradictory.

Inductive TrustLevel :=
| Unverified | Authenticated | IntegrityVerified | IndependentlyCorroborated | Certified | Revoked.

#[export] Instance EvidenceKind_eq_dec : EqDecision EvidenceKind.
Proof. solve_decision. Defined.
#[export] Instance TrustLevel_eq_dec : EqDecision TrustLevel.
Proof. solve_decision. Defined.

Definition parse_time `{Jiff} (value : string) : result EvidenceError Z :=
  ok_or (ts_from_str value) Timestamp.

Module ValidInterval.
Record ValidInterval := { start : string; end_ : option string }.

#[global] Instance ValidInterval_eq_dec : EqDecision ValidInterval.
Proof. solve_decision. Defined.

Definition validate `{Jiff} (self : ValidInterval) : result EvidenceError () :=
  start ← parse_time (start self);
  match end_ self with
  | Some end_ =>
      end_ ← parse_time end_;
      if ts_as_microsecond end_ <=? ts_as_microsecond start
      then Err (Rejected "valid interval is empty") else Ok ()
  | None => Ok ()
  end.
End ValidInterval.

Record SourceIdentity := { source_kind : BoundedText; source_instance : BoundedText }.
Record SubjectRef := { entity_type : BoundedText; canonical_external_identity : BoundedText }.
Record CollectionContext := { checkpoint : BoundedText }.

Inductive PayloadClass := ClassMetadata | ClassEncryptedObject | ClassRedacted | ClassForbidden.

Inductive RedactablePayload :=
| Metadata (bytes_hex : string)
| EncryptedObject (key_id : BoundedText) (nonce_hex ciphertext_hex : string)
| Redacted (reason : BoundedText).

#[export] Instance SourceIdentity_eq_dec : EqDecision SourceIdentity.
Proof. solve_decision. Defined.
#[export] Instance SubjectRef_eq_dec : EqDecision SubjectRef.
Proof. solve_decision. Defined.
#[export] Instance CollectionContext_eq_dec : EqDecision CollectionContext.
Proof. solve_decision. Defined.
#[export] Instance RedactablePayload_eq_dec : EqDecision RedactablePayload.
Proof. solve_decision. Defined.
#[export] Instance PayloadClass_eq_dec : EqDecision PayloadClass.
Proof. solve_decision. Defined.

Definition payload_class (self : RedactablePayload) : PayloadClass :=
  match self with
  | Metadata _ => ClassMetadata
  | EncryptedObject _ _ _ => ClassEncryptedObject
  | Redacted _ => ClassRedacted
  end.

Record SignatureBlock := { algorithm : BoundedText; key_id : BoundedText; value : string }.

#[export] Instance SignatureBlock_eq_dec : EqDecision SignatureBlock.
Proof. solve_decision. Defined.

Record EvidenceEnvelopeV1 `{UuidLib} := {
  schema_version : Z;
  observation_id : Uuid;
  tenant_id : Uuid;
  source : SourceIdentity;
  subject : SubjectRef;
  kind : EvidenceKind;
  trust : TrustLevel;
  observed_at : string;
  source_time : option string;
  valid : ValidInterval.ValidInterval;
  received_at : string;
  payload_media_type : string;
  payload_digest : Digest;
  payload : RedactablePayload;
  predecessor : option Digest;
  collection : CollectionContext;
  labels : btree_map string string;
  signature : SignatureBlock;
}.

(** The fields of [UnsignedEnvelope]: all of them but the signature. *)
Record UnsignedEnvelope `{UuidLib} := {
  u_schema_version : Z;
  u_observation_id : Uuid;
  u_tenant_id : Uuid;
  u_source : SourceIdentity;
  u_subject : SubjectRef;
  u_kind : EvidenceKind;
  u_trust : TrustLevel;
  u_observed_at : string;
  u_source_time : option string;
  u_valid : ValidInterval.ValidInterval;
  u_received_at : string;
  u_payload_media_type : string;
  u_payload_digest : Digest;
  u_payload : RedactablePayload;
  u_predecessor : option Digest;
  u_collection : CollectionContext;
  u_labels : btree_map string string;
}.

#[export] Instance UnsignedEnvelope_eq_dec `{UuidLib} : EqDecision UnsignedEnvelope.
Proof. solve_decision. Defined.

Definition unsigned `{UuidLib} (self : EvidenceEnvelopeV1) : UnsignedEnvelope :=
  {| u_schema_version := schema_version self; u_observation_id := observation_id self;
     u_tenant_id := tenant_id self; u_source := source self; u_subject := subject self;
     u_kind := kind self; u_trust := trust self; u_observed_at := observed_at self;
     u_source_time := source_time self; u_valid := valid self; u_received_at := received_at self;
     u_payload_media_type := payload_media_type self; u_payload_digest := payload_digest self;
     u_payload := payload self; u_predecessor := predecessor self;
     u_collection := collection self; u_labels := labels self |}.

(** The two assignments of [sign]. *)
Definition with_trust `{UuidLib} (t : TrustLevel) (e : EvidenceEnvelopeV1) : EvidenceEnvelopeV1 :=
  {| schema_version := schema_version e; observation_id := observation_id e; tenant_id := tenant_id e;
     source := source e; subject := subject e; kind := kind e; trust := t;
     observed_at := observed_at e; source_time := source_time e; valid := valid e;
     received_at := received_at e; payload_media_type := payload_media_type e;
     payload_digest := payload_digest e; payload := payload e; predecessor := predecessor e;
     collection := collection e; labels := labels e; signature := signature e |}.
Definition with_signature `{UuidLib} (s : SignatureBlock) (e : EvidenceEnvelopeV1) : EvidenceEnvelopeV1 :=
  {| schema_version := schema_version e; observation_id := observation_id e; tenant_id := tenant_id e;
     source := source e; subject := subject e; kind := kind e; trust := trust e;
     observed_at := observed_at e; source_time := source_time e; valid := valid e;
     received_at := received_at e; payload_media_type := payload_media_type e;
     payload_digest := payload_digest e; payload := payload e; predecessor := predecessor e;
     collection := collection e; labels := labels e; signature := s |}.

Section Envelope.
Context `{UuidLib, Sha256, Hex, Ed25519, Jiff, !ToValue UnsignedEnvelope}.

Definition canonical_cbor (self : EvidenceEnvelopeV1) : result EvidenceError (list Z) :=
  map_err EvCore (encode_canonical_cbor (unsigned self)).

Definition digest (self : EvidenceEnvelopeV1) : result EvidenceError Digest :=
  bytes ← canonical_cbor self;
  Ok (digest_sha256 bytes).

Definition sign (self : EvidenceEnvelopeV1) (key_id : string) (secret : list Z)
  : result EvidenceError EvidenceEnvelopeV1 :=
  key_id ← map_err EvId (bounded_text_new key_id);
  let self := with_trust IntegrityVerified self in
  algorithm ← map_err EvId (bounded_text_new "ed25519");
  let self := with_signature {| algorithm := algorithm; key_id := key_id; value := "" |} self in
  preimage ← canonical_cbor self;
  let signature := ed_sign secret preimage in
  Ok (with_signature {| algorithm := algorithm; key_id := key_id; value := hex_encode signature |} self).

Definition verify_ed25519 (self : EvidenceEnvelopeV1) (public : list Z) : result EvidenceError () :=
  if negb (bool_decide (as_text (algorithm (signature self)) = "ed25519"))
  then Err (Crypto "unsupported signature algorithm") else
  bytes ← ok_or (hex_decode (value (signature self))) (Crypto "signature is not hex");
  bytes ← ok_or (try_into_array 64 bytes) (Crypto "signature is not 64 bytes");
  if negb (ed_key_ok public) then Err (Crypto "public key is invalid") else
  message ← canonical_cbor self;
  if negb (ed_verify public message bytes)
  then Err (Crypto "signature verification failed") else Ok ().

Definition check_bounds (self : EvidenceEnvelopeV1) : result EvidenceError () :=
  if negb (schema_version self =? SCHEMA_VERSION)
  then Err (Rejected "unsupported schema version") else
  _ ← ValidInterval.validate (valid self);
  _ ← parse_time (observed_at self);
  _ ← parse_time (received_at self);
  _ ← match source_time self with
      | Some source_time => _ ← parse_time source_time; Ok ()
      | None => Ok ()
      end;
  if str_is_empty (payload_media_type self)
     || (MAX_MEDIA_TYPE_BYTES <? str_len (payload_media_type self))
  then Err (Rejected "media type is missing or oversized") else
  if (MAX_LABELS <? vec_len (labels self))
     || any (fun kv => str_is_empty kv.1 || (256 <? str_len kv.1) || (256 <? str_len kv.2)) (labels self)
  then Err (Rejected "labels exceed policy") else
  match payload self with
  | Metadata bytes_hex =>
      bytes ← ok_or (hex_decode bytes_hex) (Rejected "payload is not hex");
      if MAX_PAYLOAD_BYTES <? vec_len bytes then Err (Rejected "payload exceeds size limit") else
      if negb (bool_decide (digest_sha256 bytes = payload_digest self))
      then Err (Rejected "payload digest mismatch") else Ok ()
  | EncryptedObject _ _ ciphertext_hex =>
      bytes ← ok_or (hex_decode ciphertext_hex) (Rejected "ciphertext is not hex");
      if MAX_PAYLOAD_BYTES <? vec_len bytes then Err (Rejected "payload exceeds size limit")
      else Ok ()
  | Redacted _ => Ok ()
  end.
End Envelope.

(** * keys.rs *)

Record SigningKey := { signing_key_id : string; secret : list Z }.

Definition signing_public_bytes `{Ed25519} (self : SigningKey) : list Z := ed_public (secret self).

Module PublicKeyRecord.
Record PublicKeyRecord := {
  key_id : string;
  public_key_hex : string;
  not_before : string;
  not_after : string;
  revoked_at : option string;
}.
End PublicKeyRecord.

Module KeyStatus.
Inductive KeyStatus := Valid | Expired | Revoked | Unknown.

#[global] Instance KeyStatus_eq_dec : EqDecision KeyStatus.
Proof. solve_decision. Defined.
End KeyStatus.

Definition status_at `{Jiff} (self : PublicKeyRecord.PublicKeyRecord) (verification_time : string)
  : result EvidenceError KeyStatus.KeyStatus :=
  now ← parse_time verification_time;
  not_before ← parse_time (PublicKeyRecord.not_before self);
  not_after ← parse_time (PublicKeyRecord.not_after self);
  let in_interval :=
    if (ts_as_microsecond now <? ts_as_microsecond not_before)
       || (ts_as_microsecond not_after <=? ts_as_microsecond now)
    then Ok KeyStatus.Expired else Ok KeyStatus.Valid in
  match PublicKeyRecord.revoked_at self with
  | Some revoked_at =>
      revoked ← parse_time revoked_at;
      if ts_as_microsecond revoked <=? ts_as_microsecond now then Ok KeyStatus.Revoked else in_interval
  | None => in_interval
  end.

Definition public_bytes `{Hex} (self : PublicKeyRecord.PublicKeyRecord) : result EvidenceError (list Z) :=
  bytes ← ok_or (hex_decode (PublicKeyRecord.public_key_hex self)) (Crypto "public key is not hex");
  ok_or (try_into_array 32 bytes) (Crypto "public key is not 32 bytes").

Module ReplayWindow.
Record ReplayWindow `{UuidLib} := { seen : gset Uuid; max_entries : Z }.

Section Window.
Context `{UuidLib}.

Definition new (max_entries : Z) : ReplayWindow := {| seen := ∅; max_entries := max_entries |}.

(** The result and the window afterwards. *)
Definition accept (self : ReplayWindow) (observation_id : Uuid)
  : result EvidenceError () * ReplayWindow :=
  if bool_decide (observation_id ∈ seen self)
  then (Err (Rejected "replayed observation"), self) else
  let self := {| seen := {[ observation_id ]} ∪ seen self; max_entries := max_entries self |} in
  if max_entries self <? Z.of_nat (size (seen self))
  then (Err (Rejected "replay window exhausted"), self)
  else (Ok (), self).

Definition len (self : ReplayWindow) : Z := Z.of_nat (size (seen self)).
Definition is_empty (self : ReplayWindow) : bool := bool_decide (seen self = ∅).
End Window.
End ReplayWindow.

(** * seal.rs *)

Record SealedPayload := {
  version : string;
  sealed_key_id : BoundedText;
  nonce_hex : string;
  ciphertext_hex : string;
  sealed_payload_digest : Digest;
}.

Definition seal_aad (key_id : BoundedText) : list Z :=
  bytes_of_string ("evidence-seal-v1:" +:+ as_text key_id).

Definition seal_payload `{Sha256, Hex, Aead} (plaintext : list Z) (key_id : string)
  (secret nonce : list Z) : result EvidenceError SealedPayload :=
  if bool_decide (plaintext = []) || (MAX_PAYLOAD_BYTES <? vec_len plaintext)
  then Err (Rejected "payload exceeds size limit") else
  key_id ← map_err EvId (bounded_text_new key_id);
  ciphertext ← ok_or (aead_encrypt secret nonce (seal_aad key_id) plaintext)
                 (Crypto "evidence encryption failed");
  Ok {| version := "evidence-seal-v1"; sealed_key_id := key_id; nonce_hex := hex_encode nonce;
        ciphertext_hex := hex_encode ciphertext; sealed_payload_digest := digest_sha256 plaintext |}.

Definition unseal_payload `{Sha256, Hex, Aead} (sealed : SealedPayload) (secret : list Z)
  : result EvidenceError (list Z) :=
  if negb (bool_decide (version sealed = "evidence-seal-v1"))
  then Err (Rejected "evidence seal version is invalid") else
  nonce ← ok_or (hex_decode (nonce_hex sealed)) (Crypto "nonce is not hex");
  nonce ← ok_or (try_into_array 24 nonce) (Crypto "nonce is not 24 bytes");
  ciphertext ← ok_or (hex_decode (ciphertext_hex sealed)) (Crypto "ciphertext is not hex");
  if MAX_PAYLOAD_BYTES <? vec_len ciphertext then Err (Rejected "payload exceeds size limit") else
  plaintext ← ok_or (aead_decrypt secret nonce (seal_aad (sealed_key_id sealed)) ciphertext)
                (Crypto "evidence authentication failed");
  if negb (bool_decide (digest_sha256 plaintext = sealed_payload_digest sealed))
  then Err (Rejected "payload digest mismatch")
  else Ok plaintext.

(** * provenance.rs *)

Record ProvenanceNode `{UuidLib} := {
  node_digest : Digest; node_kind : BoundedText; node_observation_id : option Uuid;
}.
Record ProvenanceEdge := { from : Digest; to : Digest; relation : BoundedText }.

Inductive ProvenanceEventKind := EventAccepted | EventRejected | KeyRevoked | Invalidated.

Record ProvenanceEvent := {
  event_kind : ProvenanceEventKind; recorded_at : string; event_subject : Digest;
  event_reason : option BoundedText;
}.

(** * validate.rs *)

Module RejectionReason.
Inductive RejectionReason :=
| SizeLimit | SchemaVersion | TenantBinding | Signature | Replay | Timestamp | Payload | Labels
| Redaction | Taxonomy.

#[global] Instance RejectionReason_eq_dec : EqDecision RejectionReason.
Proof. solve_decision. Defined.
End RejectionReason.

Inductive AdmissionDecision :=
| Accept
| Reject (reason : RejectionReason.RejectionReason).

#[export] Instance AdmissionDecision_eq_dec : EqDecision AdmissionDecision.
Proof. solve_decision. Defined.

Definition map_reason (reason : RejectionReason.RejectionReason) : EvidenceError :=
  match reason with
  | RejectionReason.SizeLimit => Rejected "envelope exceeds size limit"
  | RejectionReason.SchemaVersion => Rejected "unsupported schema version"
  | RejectionReason.TenantBinding => Rejected "tenant binding mismatch"
  | RejectionReason.Signature => Rejected "signature or key is invalid"
  | RejectionReason.Replay => Rejected "replayed observation"
  | RejectionReason.Timestamp => Rejected "timestamp is invalid"
  | RejectionReason.Payload => Rejected "payload digest or media type failed"
  | RejectionReason.Labels => Rejected "labels exceed policy"
  | RejectionReason.Redaction => Rejected "payload class is forbidden"
  | RejectionReason.Taxonomy => Rejected "kind and trust are inadmissible"
  end.

(** One [Read::read]: some bytes (none: end of file) or an I/O error; after the
    last of them the reader is at its end. *)
Fixpoint read_bounded_frame_loop (reads : list (option (list Z))) (limit : Z) (buf : list Z)
  : result EvidenceError (list Z) :=
  match reads with
  | [] => Ok buf
  | None :: _ => Err (Rejected "envelope read failed")
  | Some chunk :: reads' =>
      if vec_len chunk =? 0 then Ok buf else
      if limit <? saturating_add_u64 (vec_len buf) (vec_len chunk)
      then Err (Rejected "envelope exceeds size limit")
      else read_bounded_frame_loop reads' limit (buf ++ chunk)
  end.

Definition read_bounded_frame (reads : list (option (list Z))) (limit : Z)
  : result EvidenceError (list Z) :=
  buf ← read_bounded_frame_loop reads limit [];
  if bool_decide (buf = []) then Err (Rejected "envelope exceeds size limit") else Ok buf.

Section Admission.
Context `{UuidLib, Sha256, Hex, Ed25519, Jiff, !ToValue UnsignedEnvelope}.
Context `{!FromSlice EvidenceEnvelopeV1, !FromValue EvidenceEnvelopeV1}.

Definition decode_envelope (frame : list Z) : result EvidenceError EvidenceEnvelopeV1 :=
  if bool_decide (head frame = Some 123)
  then ok_or (from_slice frame) (Rejected "envelope JSON is invalid") else
  value ← map_err (fun _ => Rejected "envelope CBOR is invalid") (decode_to_json frame);
  ok_or (from_value value) (Rejected "envelope CBOR is invalid").

(** The decision and the replay window afterwards. *)
Definition admit_envelope (envelope : EvidenceEnvelopeV1) (authenticated_tenant : Uuid)
  (keys : btree_map string PublicKeyRecord.PublicKeyRecord) (replay : ReplayWindow.ReplayWindow)
  (verification_time : string) : AdmissionDecision * ReplayWindow.ReplayWindow :=
  if negb (schema_version envelope =? 1) then (Reject RejectionReason.SchemaVersion, replay) else
  if negb (bool_decide (tenant_id envelope = authenticated_tenant))
  then (Reject RejectionReason.TenantBinding, replay) else
  match bt_get (as_text (key_id (signature envelope))) keys with
  | None => (Reject RejectionReason.Signature, replay)
  | Some key =>
      match status_at key verification_time with
      | Ok KeyStatus.Revoked | Ok KeyStatus.Expired | Ok KeyStatus.Unknown => (Reject RejectionReason.Signature, replay)
      | Err _ => (Reject RejectionReason.Timestamp, replay)
      | Ok KeyStatus.Valid =>
          match public_bytes key with
          | Err _ => (Reject RejectionReason.Signature, replay)
          | Ok public =>
              if is_err (verify_ed25519 envelope public)
              then (Reject RejectionReason.Signature, replay) else
              let '(accepted, replay) := ReplayWindow.accept replay (observation_id envelope) in
              if is_err accepted then (Reject RejectionReason.Replay, replay) else
              if is_err (check_bounds envelope) then
                if is_err (ValidInterval.validate (valid envelope))
                   || is_err (parse_time (observed_at envelope))
                then (Reject RejectionReason.Timestamp, replay) else
                if bool_decide (payload_class (payload envelope) = ClassForbidden)
                then (Reject RejectionReason.Redaction, replay)
                else (Reject RejectionReason.Payload, replay)
              else if MAX_LABELS <? vec_len (labels envelope)
              then (Reject RejectionReason.Labels, replay) else
              if bool_decide (kind envelope = Verified)
                 && negb (bool_decide (trust envelope = Certified)
                          || bool_decide (trust envelope = IndependentlyCorroborated)
                          || bool_decide (trust envelope = IntegrityVerified))
              then (Reject RejectionReason.Taxonomy, replay)
              else (Accept, replay)
          end
      end
  end.

Definition validate_envelope (frame : list Z) (authenticated_tenant : Uuid)
  (keys : btree_map string PublicKeyRecord.PublicKeyRecord) (replay : ReplayWindow.ReplayWindow)
  (verification_time : string)
  : result EvidenceError EvidenceEnvelopeV1 * ReplayWindow.ReplayWindow :=
  if (MAX_FRAME_BYTES <? vec_len frame) || bool_decide (frame = [])
  then (Err (Rejected "envelope exceeds size limit"), replay) else
  match decode_envelope frame with
  | Err e => (Err e, replay)
  | Ok envelope =>
      match admit_envelope envelope authenticated_tenant keys replay verification_time with
      | (Accept, replay) => (Ok envelope, replay)
      | (Reject reason, replay) => (Err (map_reason reason), replay)
      end
  end.
End Admission.

(** * Lemmas *)

Lemma uuid_size_insert `{UuidLib} (id : Uuid) (s : gset Uuid) :
  id ∉ s -> size ({[ id ]} ∪ s) = S (size s).
Proof. intros Hni. rewrite size_union by set_solver. by rewrite size_singleton. Qed.

Section EnvelopeFacts.
Context `{UuidLib, Sha256, Hex, Ed25519, Jiff, !ToValue UnsignedEnvelope}.

(** The signature is not part of its own preimage. *)
Lemma canonical_cbor_signature s e : canonical_cbor (with_signature s e) = canonical_cbor e.
Proof. reflexivity. Qed.

Lemma canonical_cbor_inj `{!ToValueLaws UnsignedEnvelope} e1 e2 bytes :
  canonical_cbor e1 = Ok bytes -> canonical_cbor e2 = Ok bytes -> unsigned e1 = unsigned e2.
Proof.
  unfold canonical_cbor, encode_canonical_cbor. intros E1 E2.
  apply map_err_Ok, bind_Ok in E1 as (v1 & Hv1%ok_or_Ok & E1).
  apply map_err_Ok, bind_Ok in E2 as (v2 & Hv2%ok_or_Ok & E2).
  assert (v1 = v2) as -> by (by eapply encode_tree_inj; [eapply to_value_wf..| |]).
  by eapply to_value_inj.
Qed.

Lemma verify_ed25519_sign `{!HexLaws, !Ed25519Laws} e id sk e' :
  sign e id sk = Ok e' -> verify_ed25519 e' (ed_public sk) = Ok ().
Proof.
  unfold sign. intros H'. apply bind_Ok in H' as (kid & _ & H').
  apply bind_Ok in H' as (alg & Halg%map_err_Ok & H').
  apply bounded_text_new_wf in Halg as [Halg _].
  apply bind_Ok in H' as (pre & Hpre & [= <-]).
  unfold verify_ed25519. cbn [signature with_signature algorithm value]. rewrite Halg.
  rewrite bool_decide_eq_true_2 by done. cbn [negb].
  rewrite hex_decode_encode by apply ed_sign_bytes. cbn [ok_or mbind result_bind].
  rewrite (proj2 (try_into_array_Some 64 _ (ed_sign sk pre))) by (split; [done | apply ed_sign_length]).
  cbn [ok_or mbind result_bind]. rewrite ed_public_ok. cbn [negb].
  rewrite canonical_cbor_signature. rewrite canonical_cbor_signature in Hpre |- *.
  rewrite Hpre. cbn [mbind result_bind]. by rewrite ed_verify_sign.
Qed.
End EnvelopeFacts.

Section AdmissionFacts.
Context `{UuidLib, Sha256, Hex, Ed25519, Jiff, !ToValue UnsignedEnvelope}.
Context `{!FromSlice EvidenceEnvelopeV1, !FromValue EvidenceEnvelopeV1}.

(** What admission requires of an envelope before it looks at the window. *)
Definition authentic (e : EvidenceEnvelopeV1) (tenant : Uuid)
  (keys : btree_map string PublicKeyRecord.PublicKeyRecord) (now : string) : Prop :=
  schema_version e = 1 /\ tenant_id e = tenant /\
  exists key public, bt_get (as_text (key_id (signature e))) keys = Some key /\
    status_at key now = Ok KeyStatus.Valid /\ public_bytes key = Ok public /\
    verify_ed25519 e public = Ok ().

Definition well_formed (e : EvidenceEnvelopeV1) : Prop :=
  check_bounds e = Ok () /\
  (kind e = Verified ->
   trust e = Certified \/ trust e = IndependentlyCorroborated \/ trust e = IntegrityVerified).

Lemma check_bounds_labels e : check_bounds e = Ok () -> vec_len (labels e) <= MAX_LABELS.
Proof.
  unfold check_bounds. intros H'. inv_ok. split_bools. done.
Qed.

Lemma admit_cases e tenant keys r now :
  match admit_envelope e tenant keys r now with
  | (Accept, r') =>
      authentic e tenant keys now /\ ReplayWindow.accept r (observation_id e) = (Ok (), r') /\ well_formed e
  | (Reject reason, r') =>
      ~ (authentic e tenant keys now /\ is_ok (ReplayWindow.accept r (observation_id e)).1 = true /\ well_formed e) /\
      (r' = r \/ authentic e tenant keys now /\ r' = (ReplayWindow.accept r (observation_id e)).2) /\
      reason <> RejectionReason.SizeLimit /\ reason <> RejectionReason.Labels /\
      reason <> RejectionReason.Redaction
  end.
Proof.
  unfold admit_envelope.
  destruct (schema_version e =? 1) eqn:Hv; split_bools; cbn [negb].
  2:{ split_and!; try done; [|by left]. intros [[? _] _]. done. }
  case_bool_decide as Ht; cbn [negb].
  2:{ split_and!; try done; [|by left]. intros [(_ & ? & _) _]. done. }
  destruct (bt_get _ keys) as [key|] eqn:Hk.
  2:{ split_and!; try done; [|by left]. intros [(_ & _ & ? & ? & ? & _) _]. congruence. }
  destruct (status_at key now) as [st|err] eqn:Hst.
  2:{ split_and!; try done; [|by left]. intros [(_ & _ & k & ? & ? & ? & _) _]. congruence. }
  assert (Hbad : st <> KeyStatus.Valid -> ~ authentic e tenant keys now).
  { intros Hne (_ & _ & k & ? & ? & ? & _). congruence. }
  destruct st; try (split_and!; try done; [intros [Ha _]; by apply Hbad|by left]). clear Hbad.
  destruct (public_bytes key) as [public|err] eqn:Hp.
  2:{ split_and!; try done; [|by left]. intros [(_ & _ & k & ? & ? & ? & ? & _) _]. congruence. }
  destruct (verify_ed25519 e public) as [[]|err] eqn:Hver; cbn [is_err].
  2:{ split_and!; try done; [|by left]. intros [(_ & _ & k & p & ? & ? & ? & ?) _].
      assert (p = public) by congruence. congruence. }
  assert (Hauth : authentic e tenant keys now) by (split_and!; [done..|]; by exists key, public).
  destruct (ReplayWindow.accept r (observation_id e)) as [[[]|err] r'] eqn:Hacc; cbn [is_err].
  2:{ split_and!; try done; [|by right]. by intros (_ & ? & _). }
  destruct (check_bounds e) as [[]|err] eqn:Hb; cbn [is_err].
  2:{ assert (Hnot : ~ well_formed e) by (intros [? _]; congruence).
      assert (Hclass : payload_class (payload e) <> ClassForbidden) by (by destruct (payload e)).
      rewrite (bool_decide_eq_false_2 _ Hclass).
      destruct (_ || _); (split_and!; try done; [|by right]); by intros (_ & _ & ?). }
  rewrite (proj2 (Z.ltb_ge _ _)) by (by apply check_bounds_labels).
  destruct (bool_decide (kind e = Verified) && _) eqn:Htax.
  - split_bools. split_and!; try done; [|by right]. intros (_ & _ & _ & Htrust).
    destruct (Htrust ltac:(done)) as [?|[?|?]]; done.
  - split_and!; try done. split; [done|]. intros Hkind. rewrite (bool_decide_eq_true_2 _ Hkind) in Htax.
    cbn [andb] in Htax. apply negb_false_iff in Htax.
    apply orb_true_iff in Htax as [Htax|?]; [apply orb_true_iff in Htax as [?|?]|];
      repeat match goal with E : bool_decide _ = true |- _ => apply bool_decide_eq_true in E end; auto.
Qed.

(** A sequence of submissions, threading the window. *)
Fixpoint admit_all (es : list EvidenceEnvelopeV1) (tenant : Uuid)
  (keys : btree_map string PublicKeyRecord.PublicKeyRecord) (r : ReplayWindow.ReplayWindow)
  (now : string) : list (EvidenceEnvelopeV1 * AdmissionDecision) :=
  match es with
  | [] => []
  | e :: es' =>
      let '(d, r) := admit_envelope e tenant keys r now in (e, d) :: admit_all es' tenant keys r now
  end.

Definition accepted_ids (l : list (EvidenceEnvelopeV1 * AdmissionDecision)) : list Uuid :=
  (fun p => observation_id p.1) <$> filter (fun p => p.2 = Accept) l.

Lemma accept_seen r id res r' :
  ReplayWindow.accept r id = (res, r') ->
  ReplayWindow.seen r' = {[ id ]} ∪ ReplayWindow.seen r /\
  ReplayWindow.max_entries r' = ReplayWindow.max_entries r /\
  (res = Ok () -> id ∉ ReplayWindow.seen r).
Proof.
  unfold ReplayWindow.accept. case_bool_decide as Hin.
  - intros [= <- <-]. split_and!; [set_solver|done|done].
  - destruct (_ <? _); intros [= <- <-]; cbn; done.
Qed.

Lemma admit_all_fresh es tenant keys r now :
  NoDup (accepted_ids (admit_all es tenant keys r now)) /\
  forall id, id ∈ accepted_ids (admit_all es tenant keys r now) -> id ∉ ReplayWindow.seen r.
Proof.
  revert r. induction es as [|e es IH]; intros r; [split; [constructor|set_solver]|].
  cbn [admit_all]. pose proof (admit_cases e tenant keys r now) as Hcase.
  destruct (admit_envelope e tenant keys r now) as [d r'].
  destruct (IH r') as [Hnd Hfresh]. unfold accepted_ids. rewrite filter_cons. cbn [snd].
  destruct d as [|reason].
  - rewrite decide_True by done. cbn [fmap list_fmap fst]. fold (accepted_ids (admit_all es tenant keys r' now)).
    destruct Hcase as (_ & Hacc & _). apply accept_seen in Hacc as (Hseen & _ & Hni).
    specialize (Hni eq_refl). split.
    + constructor; [|done]. intros Hin. apply Hfresh in Hin. rewrite Hseen in Hin. set_solver.
    + intros id [->|Hin]%elem_of_cons; [done|]. apply Hfresh in Hin. rewrite Hseen in Hin. set_solver.
  - rewrite decide_False by done. fold (accepted_ids (admit_all es tenant keys r' now)).
    split; [done|]. intros id Hin. apply Hfresh in Hin.
    destruct Hcase as (_ & [->|[_ ->]] & _); [done|].
    destruct (ReplayWindow.accept r (observation_id e)) as [res r2] eqn:Hacc.
    apply accept_seen in Hacc as (Hseen & _). cbn in Hin. rewrite Hseen in Hin. set_solver.
Qed.
End AdmissionFacts.

Lemma seal_payload_ok `{Sha256, Hex, Aead} plaintext id secret nonce sealed :
  seal_payload plaintext id secret nonce = Ok sealed ->
  exists kid c, aead_encrypt secret nonce (seal_aad kid) plaintext = Some c /\
    sealed = {| version := "evidence-seal-v1"; sealed_key_id := kid; nonce_hex := hex_encode nonce;
                ciphertext_hex := hex_encode c; sealed_payload_digest := digest_sha256 plaintext |}.
Proof.
  unfold seal_payload. destruct (_ || _); [done|]. intros Hs.
  apply bind_Ok in Hs as (kid & _ & Hs). apply bind_Ok in Hs as (c & Hc%ok_or_Ok & [= <-]). eauto.
Qed.

(** * Properties *)

(** signing then verifying with the matching public key succeeds; signing only
    changes the trust level and the signature. *)
Theorem envelope_sign_verify
  `{UuidLib, Sha256, HexLaws, Ed25519Laws, Jiff, !ToValue UnsignedEnvelope} e id sk e' :
  sign e id sk = Ok e' ->
  verify_ed25519 e' (ed_public sk) = Ok () /\ trust e' = IntegrityVerified /\
  as_text (key_id (signature e')) = id /\
  unsigned e' = unsigned (with_trust IntegrityVerified e).
Proof.
  intros Hs. split; [by eapply verify_ed25519_sign|].
  unfold sign in Hs. apply bind_Ok in Hs as (kid & Hkid%map_err_Ok & Hs).
  apply bind_Ok in Hs as (alg & _ & Hs). apply bind_Ok in Hs as (pre & _ & [= <-]).
  apply bounded_text_new_wf in Hkid as [Hkid _]. done.
Qed.

(** what an envelope's signature and digest are computed over determines every
    field but the signature block itself, so no signed field can change under a
    valid signature; the signature block, its key id included, is not covered. *)
Theorem envelope_preimage_binds
  `{UuidLib, Sha256, Hex, Ed25519, Jiff, ToValueLaws UnsignedEnvelope} e1 e2 bytes :
  canonical_cbor e1 = Ok bytes ->
  canonical_cbor e2 = Ok bytes <-> unsigned e1 = unsigned e2.
Proof.
  intros E1. split; [by apply canonical_cbor_inj|].
  unfold canonical_cbor in *. by intros <-.
Qed.

(** C7: an envelope is accepted exactly when it is authentic (schema, tenant, a key
    of the registry valid at the time, its signature), its observation is new to a
    window with room, its fields are within bounds and its kind suits its trust. *)
Theorem admit_accepts_iff
  `{UuidLib, Sha256, Hex, Ed25519, Jiff, !ToValue UnsignedEnvelope,
    !FromSlice EvidenceEnvelopeV1, !FromValue EvidenceEnvelopeV1} e tenant keys r now :
  (admit_envelope e tenant keys r now).1 = Accept <->
  authentic e tenant keys now /\
  ((observation_id e ∉ ReplayWindow.seen r) /\
   Z.of_nat (size (ReplayWindow.seen r)) < ReplayWindow.max_entries r) /\
  well_formed e.
Proof.
  assert (Hacc : is_ok (ReplayWindow.accept r (observation_id e)).1 = true <->
    (observation_id e ∉ ReplayWindow.seen r) /\
    Z.of_nat (size (ReplayWindow.seen r)) < ReplayWindow.max_entries r).
  { unfold ReplayWindow.accept. case_bool_decide as Hin; cbn; [naive_solver|].
    rewrite uuid_size_insert by done. destruct (_ <? _) eqn:E; cbn; split_bools;
      split; try done; [intros [_ ?]; lia | intros _; split; [done|lia]]. }
  pose proof (admit_cases e tenant keys r now) as Hcase.
  destruct (admit_envelope e tenant keys r now) as [[|reason] r']; cbn [fst].
  - destruct Hcase as (Ha & Hr & Hw). split; [|done]. intros _. split; [done|]. split; [|done].
    apply Hacc. by rewrite Hr.
  - split; [done|]. intros (Ha & Hr & Hw). exfalso. apply (proj1 Hcase). by rewrite Hacc.
Qed.

(** Over any sequence of submissions an observation id is accepted at most
    once, and never if the window had already seen it. *)
Theorem admit_accepts_once
  `{UuidLib, Sha256, Hex, Ed25519, Jiff, !ToValue UnsignedEnvelope,
    !FromSlice EvidenceEnvelopeV1, !FromValue EvidenceEnvelopeV1} es tenant keys r now :
  NoDup (accepted_ids (admit_all es tenant keys r now)) /\
  forall id, id ∈ accepted_ids (admit_all es tenant keys r now) -> id ∉ ReplayWindow.seen r.
Proof. apply admit_all_fresh. Qed.

(** Three of the rejection reasons are never given: frame size is checked
    before, label limits are part of the field bounds, and no payload has the
    forbidden class. *)
Theorem admit_unused_reasons
  `{UuidLib, Sha256, Hex, Ed25519, Jiff, !ToValue UnsignedEnvelope,
    !FromSlice EvidenceEnvelopeV1, !FromValue EvidenceEnvelopeV1} e tenant keys r now :
  (admit_envelope e tenant keys r now).1 <> Reject RejectionReason.SizeLimit /\
  (admit_envelope e tenant keys r now).1 <> Reject RejectionReason.Labels /\
  (admit_envelope e tenant keys r now).1 <> Reject RejectionReason.Redaction.
Proof.
  pose proof (admit_cases e tenant keys r now) as Hcase.
  destruct (admit_envelope e tenant keys r now) as [[|reason] r']; cbn [fst]; [done|].
  destruct Hcase as (_ & _ & ? & ? & ?). split_and!; congruence.
Qed.

(** the replay window is not bounded by its limit: an id that is refused because
    the window is exhausted is remembered all the same, so the set grows with every
    distinct id ever submitted. *)
Theorem replay_window_grows `{UuidLib} (ids : list Uuid) (max : Z) :
  NoDup ids ->
  let r := foldl (fun r id => (ReplayWindow.accept r id).2) (ReplayWindow.new max) ids in
  ReplayWindow.len r = vec_len ids /\ ReplayWindow.max_entries r = max.
Proof.
  intros Hnd. cbv zeta.
  assert (Hgen : forall r, (forall id, id ∈ ids -> id ∉ ReplayWindow.seen r) ->
    let r' := foldl (fun r id => (ReplayWindow.accept r id).2) r ids in
    ReplayWindow.len r' = ReplayWindow.len r + vec_len ids /\
    ReplayWindow.max_entries r' = ReplayWindow.max_entries r).
  { induction Hnd as [|id ids Hni Hnd IH]; intros r Hfresh; cbn [foldl].
    - split; [|done]. unfold vec_len. cbn. lia.
    - destruct (ReplayWindow.accept r id) as [res r2] eqn:Hacc. cbn [snd].
      apply accept_seen in Hacc as (Hseen & Hmax & _).
      destruct (IH r2) as [Hlen Hm]; [rewrite Hseen; set_solver|]. cbv zeta.
      rewrite Hlen, Hm, Hmax. split; [|done]. unfold ReplayWindow.len. rewrite Hseen.
      rewrite uuid_size_insert by set_solver. unfold vec_len. cbn [length]. lia. }
  destruct (Hgen (ReplayWindow.new max)) as [Hlen Hm]; [set_solver|]. split; [|done].
  rewrite Hlen. unfold ReplayWindow.len, ReplayWindow.new. cbn. rewrite size_empty. lia.
Qed.

(** Unsealing what was sealed with the same key returns the plaintext, for
    plaintexts that leave room for the authentication tag. *)
Theorem seal_roundtrip `{Sha256, HexLaws, AeadLaws} plaintext id secret nonce sealed :
  length nonce = 24%nat -> Forall is_byte nonce ->
  vec_len plaintext + 16 <= MAX_PAYLOAD_BYTES ->
  seal_payload plaintext id secret nonce = Ok sealed -> unseal_payload sealed secret = Ok plaintext.
Proof.
  intros Hn Hnb Hlen Hs.
  apply seal_payload_ok in Hs as (kid & c & Hc & ->). apply aead_length in Hc as Hclen.
  unfold unseal_payload. cbn [version nonce_hex ciphertext_hex sealed_key_id sealed_payload_digest].
  rewrite bool_decide_eq_true_2 by done. cbn [negb].
  rewrite (hex_decode_encode nonce) by done. cbn [ok_or mbind result_bind].
  rewrite (proj2 (try_into_array_Some 24 _ nonce)) by done. cbn [ok_or mbind result_bind].
  rewrite (hex_decode_encode c) by (by eapply aead_bytes). cbn [ok_or mbind result_bind].
  unfold vec_len in *. rewrite (proj2 (Z.ltb_ge _ _)) by lia.
  rewrite (aead_decrypt_encrypt _ _ _ _ _ Hc). cbn [ok_or mbind result_bind].
  by rewrite bool_decide_eq_true_2.
Qed.

(** plaintexts within 16 bytes of the limit are sealed but can never be
    unsealed: the limit is applied to the ciphertext on the way back. *)
Theorem seal_without_room_is_lost `{Sha256, HexLaws, AeadLaws} plaintext id secret nonce sealed :
  length nonce = 24%nat -> Forall is_byte nonce ->
  MAX_PAYLOAD_BYTES < vec_len plaintext + 16 ->
  seal_payload plaintext id secret nonce = Ok sealed ->
  unseal_payload sealed secret = Err (Rejected "payload exceeds size limit").
Proof.
  intros Hn Hnb Hlen Hs.
  apply seal_payload_ok in Hs as (kid & c & Hc & ->). apply aead_length in Hc as Hclen.
  unfold unseal_payload. cbn [version nonce_hex ciphertext_hex sealed_key_id sealed_payload_digest].
  rewrite bool_decide_eq_true_2 by done. cbn [negb].
  rewrite (hex_decode_encode nonce) by done. cbn [ok_or mbind result_bind].
  rewrite (proj2 (try_into_array_Some 24 _ nonce)) by done. cbn [ok_or mbind result_bind].
  rewrite (hex_decode_encode c) by (by eapply aead_bytes). cbn [ok_or mbind result_bind].
  unfold vec_len in *. by rewrite (proj2 (Z.ltb_lt _ _)) by lia.
Qed.

(** * Witnesses *)
Module EvidenceWitness.
#[local] Existing Instances Toy.sha Toy.hexi Toy.ed Toy.aead Toy.jiff Toy.uuid.
#[local] Existing Instances Toy.hex_laws Toy.ed_laws Toy.aead_laws.

Definition t (s : string) : BoundedText := mk_text s.

Definition sample : EvidenceEnvelopeV1 :=
  {| schema_version := 1; observation_id := "o1"; tenant_id := "t1";
     source := {| source_kind := t "github"; source_instance := t "github.com" |};
     subject := {| entity_type := t "repository"; canonical_external_identity := t "github.com:1" |};
     kind := Observed; trust := IntegrityVerified; observed_at := "2026"; source_time := None;
     valid := {| ValidInterval.start := "2026"; ValidInterval.end_ := None |};
     received_at := "2026"; payload_media_type := "application/json";
     payload_digest := digest_sha256 [1; 2]; payload := Metadata (hex_encode [1; 2]);
     predecessor := None; collection := {| checkpoint := t "0" |}; labels := [];
     signature := {| algorithm := t "ed25519"; key_id := t "k"; value := "" |} |}.

#[local] Instance serialise : ToValue UnsignedEnvelope :=
  ToyJson.of_table [(unsigned sample, Array [Null; Bool true]);
                    (unsigned (with_trust Certified sample), Array [Null; Bool false])].
#[local] Instance serialise_laws : ToValueLaws UnsignedEnvelope.
Proof.
  apply ToyJson.of_table_laws.
  - apply NoDup_cons. split; [|apply NoDup_singleton]. rewrite list_elem_of_singleton. done.
  - repeat apply Forall_cons_2; [.. | apply Forall_nil_2];
      (apply wf_json_array; split; [unfold u64_max; simpl; lia|]; repeat constructor).
Qed.

Example envelope_sign_verify_witness :
  exists e', sign sample "k" [7; 8] = Ok e' /\ verify_ed25519 e' (ed_public [7; 8]) = Ok ().
Proof.
  eexists. split; [vm_compute; reflexivity|].
  apply (envelope_sign_verify sample "k" [7; 8]). vm_compute. reflexivity.
Defined.

Example envelope_preimage_binds_witness :
  exists bytes, canonical_cbor sample = Ok bytes /\
    canonical_cbor (with_trust Certified sample) <> Ok bytes.
Proof.
  eexists. split; [vm_compute; reflexivity|]. intros Heq.
  pose proof (proj1 (envelope_preimage_binds sample (with_trust Certified sample) _ eq_refl) Heq) as E.
  discriminate E.
Defined.

Definition ids : list Uuid := ["a"; "b"; "c"] : list string.

Example replay_window_grows_witness :
  ReplayWindow.len (foldl (fun r id => (ReplayWindow.accept r id).2) (ReplayWindow.new 1) ids) = 3.
Proof.
  apply (replay_window_grows ids 1).
  apply (bool_decide_eq_true_1 (@NoDup string ids)). vm_compute. reflexivity.
Defined.

Lemma byte_list_check l : forallb (fun b => (0 <=? b) && (b <? 256)) l = true -> Forall is_byte l.
Proof.
  intros Hall. apply Forall_forall. intros x Hx. rewrite forallb_forall in Hall.
  apply list_elem_of_In in Hx. specialize (Hall x Hx). unfold is_byte. split_bools. lia.
Qed.

Example seal_roundtrip_witness :
  exists sealed, seal_payload [104; 105] "rk" [9; 9] (replicate 24 3) = Ok sealed /\
    unseal_payload sealed [9; 9] = Ok [104; 105].
Proof.
  eexists. split; [vm_compute; reflexivity|].
  apply (seal_roundtrip [104; 105] "rk" [9; 9] (replicate 24 3)).
  - reflexivity.
  - apply byte_list_check. reflexivity.
  - unfold MAX_PAYLOAD_BYTES, vec_len. simpl. lia.
  - vm_compute. reflexivity.
Defined.

Lemma seal_as_ok n :
  (0 < n)%nat -> Z.of_nat n <= MAX_PAYLOAD_BYTES ->
  exists sealed, seal_payload (replicate n 65) "rk" [9; 9] (replicate 24 3) = Ok sealed.
Proof.
  intros Hn Hle. unfold seal_payload. rewrite bool_decide_eq_false_2 by (by destruct n; [lia|]).
  unfold vec_len. rewrite length_replicate, (proj2 (Z.ltb_ge _ _)) by lia. cbn [orb].
  assert (Hb : forall n, forallb (in_range 0 255) (replicate n 65) = true)
    by (intros k; induction k; simpl; auto).
  cbn [bounded_text_new]. unfold aead_encrypt, Toy.aead. rewrite Hb. cbn. eauto.
Qed.

Example seal_without_room_is_lost_witness :
  exists sealed,
    seal_payload (replicate (Z.to_nat 524285) 65) "rk" [9; 9] (replicate 24 3) = Ok sealed /\
    unseal_payload sealed [9; 9] = Err (Rejected "payload exceeds size limit").
Proof.
  destruct (seal_as_ok (Z.to_nat 524285)) as [sealed Hs];
    [lia | unfold MAX_PAYLOAD_BYTES; lia |].
  exists sealed. split; [exact Hs|].
  apply (seal_without_room_is_lost (replicate (Z.to_nat 524285) 65) "rk" [9; 9] (replicate 24 3)).
  - reflexivity.
  - apply byte_list_check. reflexivity.
  - unfold vec_len. rewrite length_replicate. unfold MAX_PAYLOAD_BYTES. lia.
  - exact Hs.
Defined.
End EvidenceWitness.
