(* ===== verification/Contract.v ===== *)
(** crates/anasemble-contract: versioned contracts, the rules for a genesis and for
    a breaking version, and the digest bound into them. *)
From S2P Require Import Prelude External Json Core Cbor.

Definition SCHEMA_VERSION : Z := 1.

Inductive ContractError :=
| Core (e : CoreError)
| Id (e : IdError)
| Protocol (message : string).

#[export] Instance ContractError_eq_dec : EqDecision ContractError.
Proof. solve_decision. Defined.

Record ContractV1 `{UuidLib} := {
  schema_version : Z;
  contract_id : Uuid;
  version : BoundedText;
  predecessor : option Uuid;
  compatibility : CompatibilityClass;
  migration_obligations : list BoundedText;
  digest : Digest;
}.

Record UnsignedContract `{UuidLib} := {
  u_schema_version : Z;
  u_contract_id : Uuid;
  u_version : BoundedText;
  u_predecessor : option Uuid;
  u_compatibility : CompatibilityClass;
  u_migration_obligations : list BoundedText;
}.

#[export] Instance UnsignedContract_eq_dec `{UuidLib} : EqDecision UnsignedContract.
Proof. solve_decision. Defined.

Definition unsigned `{UuidLib} (self : ContractV1) : UnsignedContract :=
  {| u_schema_version := schema_version self; u_contract_id := contract_id self;
     u_version := version self; u_predecessor := predecessor self;
     u_compatibility := compatibility self;
     u_migration_obligations := migration_obligations self |}.

Section Contract.
Context `{UuidLib, Sha256, !ToValue UnsignedContract}.

Definition compute_digest (self : ContractV1) : result ContractError Digest :=
  bytes ← map_err Core (encode_canonical_cbor (unsigned self));
  Ok (digest_sha256 bytes).

(** [id] is the identifier drawn by [ContractId::generate]. *)
Definition new (id : Uuid) (version : string) (predecessor : option Uuid)
  (compatibility : CompatibilityClass) (migration_obligations : list BoundedText)
  : result ContractError ContractV1 :=
  if bool_decide (predecessor = None) && negb (bool_decide (compatibility = Backward))
  then Err (Protocol "genesis contract must be backward compatible with itself") else
  if bool_decide (compatibility = Breaking) && bool_decide (migration_obligations = [])
  then Err (Protocol "breaking change requires a migration obligation") else
  version ← map_err Id (bounded_text_new version);
  let contract := {| schema_version := SCHEMA_VERSION; contract_id := id; version := version;
                     predecessor := predecessor; compatibility := compatibility;
                     migration_obligations := migration_obligations;
                     digest := digest_sha256 [] |} in
  digest ← compute_digest contract;
  Ok {| schema_version := SCHEMA_VERSION; contract_id := id; version := version;
        predecessor := predecessor; compatibility := compatibility;
        migration_obligations := migration_obligations; digest := digest |}.

Definition independent_contract_digest (contract : ContractV1) : result ContractError Digest :=
  compute_digest contract.
End Contract.

(** The rules a contract obeys. *)
Definition lawful `{UuidLib} (c : ContractV1) : Prop :=
  schema_version c = SCHEMA_VERSION /\ wf_text (version c) /\
  (predecessor c = None -> compatibility c = Backward) /\
  (compatibility c = Breaking -> migration_obligations c <> []).

Lemma compute_digest_unsigned `{UuidLib, Sha256, !ToValue UnsignedContract} c1 c2 :
  unsigned c1 = unsigned c2 -> compute_digest c1 = compute_digest c2.
Proof. unfold compute_digest. by intros ->. Qed.

(** * Properties *)

(** A contract is constructed exactly when it obeys the rules (a genesis is
    backward compatible, a breaking version lists an obligation, the version text is
    bounded) and can be encoded; it carries its arguments, and the independent
    checker recomputes the digest bound into it. *)
Theorem contract_new_iff `{UuidLib, Sha256, !ToValue UnsignedContract} id ver pred compat obls c :
  new id ver pred compat obls = Ok c <->
  lawful c /\ contract_id c = id /\ as_text (version c) = ver /\ predecessor c = pred /\
  compatibility c = compat /\ migration_obligations c = obls /\
  independent_contract_digest c = Ok (digest c).
Proof.
  unfold new, independent_contract_digest, lawful. split.
  - intros Hn. destruct (_ && _) eqn:E1 in Hn; [done|]. destruct (_ && _) eqn:E2 in Hn; [done|].
    apply bind_Ok in Hn as (v & Hv%map_err_Ok & Hn). apply bind_Ok in Hn as (d & Hd & [= <-]).
    apply bounded_text_new_wf in Hv as [Hv Hwf].
    cbn [schema_version contract_id version predecessor compatibility migration_obligations digest].
    split_and!; try done.
    + intros ->. apply andb_false_iff in E1 as [E1|E1]; split_bools; [done|by destruct compat].
    + intros -> ->. done.
  - intros ((Hs & Hv & Hg & Hb) & <- & <- & <- & <- & <- & Hd).
    destruct (bool_decide (predecessor c = None) && _) eqn:E1.
    { split_bools. by rewrite Hg in *. }
    destruct (bool_decide (compatibility c = Breaking) && _) eqn:E2.
    { split_bools. by destruct Hb. }
    rewrite bounded_text_new_text by done. cbn [map_err mbind result_bind].
    rewrite (compute_digest_unsigned _ c) by (unfold unsigned; by rewrite Hs).
    rewrite Hd. cbn [mbind result_bind]. rewrite <- Hs. by destruct c.
Qed.
