(* ===== verification/Events.v ===== *)
(** crates/anasemble-events: signed reconstruction events and the append-only log
    that refuses gaps. *)
From S2P Require Import Prelude External Json Core Cbor Evidence.

Definition SCHEMA_VERSION : Z := 1.

Inductive EventError :=
| Core (e : CoreError)
| Id (e : IdError)
| Evidence (e : EvidenceError)
| Gap (message : string)
| Crypto (message : string).

#[export] Instance EventError_eq_dec : EqDecision EventError.
Proof. solve_decision. Defined.

Inductive ReconstructionEventKind :=
| ReconstructionStarted | EvidenceAccepted | EvidenceRejected | Canonicalised | CandidateProduced
| VerificationClaimEvaluated | Certified | Refused | StateRestorePlanned | StateRestoreApplied
| StateRestoreRolledBack | ActivationStaged | ActivationCommitted | ActivationRolledBack
| RunCompleted.

#[export] Instance ReconstructionEventKind_eq_dec : EqDecision ReconstructionEventKind.
Proof. solve_decision. Defined.

Record ReconstructionEventV1 `{UuidLib} := {
  schema_version : Z;
  run_id : Uuid;
  sequence : Z;
  predecessor : option Digest;
  timestamp : string;
  actor : BoundedText;
  kind : ReconstructionEventKind;
  payload_digest : Digest;
  signature : SignatureBlock;
}.

Record UnsignedEvent `{UuidLib} := {
  u_schema_version : Z;
  u_run_id : Uuid;
  u_sequence : Z;
  u_predecessor : option Digest;
  u_timestamp : string;
  u_actor : BoundedText;
  u_kind : ReconstructionEventKind;
  u_payload_digest : Digest;
}.

#[export] Instance UnsignedEvent_eq_dec `{UuidLib} : EqDecision UnsignedEvent.
Proof. solve_decision. Defined.

Definition unsigned `{UuidLib} (self : ReconstructionEventV1) : UnsignedEvent :=
  {| u_schema_version := schema_version self; u_run_id := run_id self;
     u_sequence := sequence self; u_predecessor := predecessor self;
     u_timestamp := timestamp self; u_actor := actor self; u_kind := kind self;
     u_payload_digest := payload_digest self |}.

Definition with_signature `{UuidLib} (s : SignatureBlock) (e : ReconstructionEventV1)
  : ReconstructionEventV1 :=
  {| schema_version := schema_version e; run_id := run_id e; sequence := sequence e;
     predecessor := predecessor e; timestamp := timestamp e; actor := actor e; kind := kind e;
     payload_digest := payload_digest e; signature := s |}.

(** [EventLog]: the events in order. *)
Definition EventLog `{UuidLib} : Type := list ReconstructionEventV1.

Section Events.
Context `{UuidLib, Sha256, Hex, Ed25519, !ToValue UnsignedEvent}.

Definition canonical_cbor (self : ReconstructionEventV1) : result EventError (list Z) :=
  map_err Core (encode_canonical_cbor (unsigned self)).

Definition digest (self : ReconstructionEventV1) : result EventError Digest :=
  bytes ← canonical_cbor self;
  Ok (digest_sha256 bytes).

Definition sign (self : ReconstructionEventV1) (signing : SigningKey)
  : result EventError ReconstructionEventV1 :=
  algorithm ← map_err Id (bounded_text_new "ed25519");
  key_id ← map_err Id (bounded_text_new (signing_key_id signing));
  let self := with_signature {| algorithm := algorithm; key_id := key_id; value := "" |} self in
  preimage ← canonical_cbor self;
  Ok (with_signature {| algorithm := algorithm; key_id := key_id;
                        value := hex_encode (ed_sign (secret signing) preimage) |} self).

Definition verify (self : ReconstructionEventV1) (public : list Z) : result EventError () :=
  if negb (bool_decide (as_text (algorithm (signature self)) = "ed25519"))
  then Err (Crypto "unsupported signature algorithm") else
  bytes ← ok_or (hex_decode (value (signature self))) (Crypto "signature is not hex");
  bytes ← ok_or (try_into_array 64 bytes) (Crypto "signature is not 64 bytes");
  if negb (ed_key_ok public) then Err (Crypto "public key is invalid") else
  message ← canonical_cbor self;
  if ed_verify public message bytes then Ok () else Err (Crypto "signature verification failed").

Definition new : EventLog := [].

(** [last().map(digest).transpose()?] *)
Definition expected_predecessor (self : EventLog) : result EventError (option Digest) :=
  match last self with
  | Some previous => d ← digest previous; Ok (Some d)
  | None => Ok None
  end.

(** The appended event, or the error, and the log afterwards. *)
Definition append (self : EventLog) (event : ReconstructionEventV1) (signing : SigningKey)
  (public : list Z) : result EventError ReconstructionEventV1 * EventLog :=
  let outcome :=
    if negb (schema_version event =? SCHEMA_VERSION) then Err (Gap "unsupported event schema") else
    let expected_seq := vec_len self + 1 in
    if negb (sequence event =? expected_seq) then Err (Gap "event sequence gap") else
    expected_pred ← expected_predecessor self;
    if negb (bool_decide (predecessor event = expected_pred))
    then Err (Gap "event predecessor mismatch") else
    event ← sign event signing;
    _ ← verify event public;
    Ok event in
  match outcome with
  | Ok event => (Ok event, self ++ [event])
  | Err e => (Err e, self)
  end.

Definition head (self : EventLog) : option (Uuid * Z) :=
  (fun event => (run_id event, sequence event)) <$> last self.

Definition events (self : EventLog) : list ReconstructionEventV1 := self.

(** * The chain *)

(** Event [i] has sequence [i + 1] and the digest of event [i - 1], and verifies. *)
Definition chained (public : list Z) (log : EventLog) : Prop :=
  forall i e, log !! i = Some e ->
    schema_version e = SCHEMA_VERSION /\ sequence e = Z.of_nat i + 1 /\
    verify e public = Ok () /\
    match i with
    | O => predecessor e = None
    | S j => exists p d, log !! j = Some p /\ digest p = Ok d /\ predecessor e = Some d
    end.

(** The logs reachable by appends, whatever events are offered and keys sign. *)
Inductive reachable (public : list Z) : EventLog -> Prop :=
| reach_new : reachable public new
| reach_append log event signing :
    reachable public log -> reachable public (append log event signing public).2.

Lemma sign_unsigned e k e' : sign e k = Ok e' -> unsigned e' = unsigned e.
Proof.
  unfold sign. intros Hs. inv_ok. by injection Hs as <-.
Qed.

Lemma append_ok log e k public e' log' :
  append log e k public = (Ok e', log') ->
  log' = log ++ [e'] /\ unsigned e' = unsigned e /\ schema_version e = SCHEMA_VERSION /\
  sequence e = vec_len log + 1 /\ expected_predecessor log = Ok (predecessor e) /\
  verify e' public = Ok ().
Proof.
  unfold append. intros Ha.
  destruct (negb (schema_version e =? _)) eqn:E1; [done|].
  destruct (negb (sequence e =? _)) eqn:E2; [done|].
  destruct (expected_predecessor log) as [pred|] eqn:E3; [|done]. cbn [mbind result_bind] in Ha.
  destruct (negb (bool_decide _)) eqn:E4; [done|].
  destruct (sign e k) as [s|] eqn:E5; [|done]. cbn [mbind result_bind] in Ha.
  destruct (verify s public) as [[]|] eqn:E6; [|done]. cbn [mbind result_bind] in Ha.
  injection Ha as <- <-. split_bools. split_and!; try done; [by eapply sign_unsigned|congruence].
Qed.

Lemma append_chained public log e k :
  chained public log -> chained public (append log e k public).2.
Proof.
  intros Hc. destruct (append log e k public) as [[e'|err] log'] eqn:Ha; cbn [snd].
  2:{ unfold append in Ha. by case_match; simplify_eq. }
  apply append_ok in Ha as (-> & Hu & Hs & Hseq & Hpred & Hv). unfold unsigned in Hu. simplify_eq.
  intros i x Hi. apply lookup_app_Some in Hi as [Hi|[Hle Hi]].
  - destruct (Hc i x Hi) as (? & ? & ? & Hp). split_and!; try done.
    destruct i as [|j]; [done|]. destruct Hp as (p & d & Hj & ? & ?). exists p, d.
    split_and!; try done. by apply lookup_app_l_Some.
  - apply list_lookup_singleton_Some in Hi as [Hi <-].
    assert (i = length log) as -> by lia. unfold vec_len in Hseq.
    split_and!; [congruence|congruence|done|].
    unfold expected_predecessor in Hpred. destruct (length log) as [|j] eqn:Hlen.
    + apply nil_length_inv in Hlen as ->. cbn in Hpred. congruence.
    + destruct (last log) as [p|] eqn:Hlast.
      * cbn in Hpred. destruct (digest p) as [d|] eqn:Hd; [|done]. cbn in Hpred.
        exists p, d. split_and!; try done; [|congruence].
        apply lookup_app_l_Some. rewrite last_lookup, Hlen in Hlast. done.
      * apply last_None in Hlast as ->. done.
Qed.
End Events.

Section SignFacts.
Context `{UuidLib, Sha256, HexLaws, Ed25519Laws, !ToValue UnsignedEvent}.

Lemma verify_sign e k e' : sign e k = Ok e' -> verify e' (ed_public (secret k)) = Ok ().
Proof.
  unfold sign. intros Hs. apply bind_Ok in Hs as (alg & Halg%map_err_Ok & Hs).
  apply bounded_text_new_wf in Halg as [Halg _]. apply bind_Ok in Hs as (kid & _ & Hs).
  apply bind_Ok in Hs as (pre & Hpre & [= <-]).
  unfold verify. cbn [signature with_signature algorithm value]. rewrite Halg.
  rewrite bool_decide_eq_true_2 by done. cbn [negb].
  rewrite hex_decode_encode by apply ed_sign_bytes. cbn [ok_or mbind result_bind].
  rewrite (proj2 (try_into_array_Some 64 _ (ed_sign (secret k) pre)))
    by (split; [done | apply ed_sign_length]).
  cbn [ok_or mbind result_bind]. rewrite ed_public_ok. cbn [negb].
  change (canonical_cbor (with_signature _ _)) with (canonical_cbor e).
  change (canonical_cbor (with_signature _ _)) with (canonical_cbor e) in Hpre.
  rewrite Hpre. cbn [mbind result_bind]. by rewrite ed_verify_sign.
Qed.

Lemma canonical_cbor_err e err : canonical_cbor e = Err err -> forall m, err <> Crypto m.
Proof.
  unfold canonical_cbor. destruct (encode_canonical_cbor _); [done|]. by intros [= <-] m.
Qed.

Lemma sign_err e k err : sign e k = Err err -> forall m, err <> Crypto m.
Proof.
  unfold sign. destruct (bounded_text_new _); [|by intros [= <-]]. cbn [map_err mbind result_bind].
  destruct (bounded_text_new _); [|by intros [= <-]]. cbn [map_err mbind result_bind].
  destruct (canonical_cbor _) eqn:E; [done|]. intros [= <-]. by eapply canonical_cbor_err.
Qed.

Lemma expected_predecessor_err log err :
  expected_predecessor log = Err err -> forall m, err <> Crypto m.
Proof.
  unfold expected_predecessor, digest. destruct (last log) as [p|]; [|done].
  destruct (canonical_cbor p) eqn:E; cbn; [done|]. intros [= <-]. by eapply canonical_cbor_err.
Qed.
End SignFacts.

(** * Properties *)

(** In every log built by appends, event i carries sequence i+1 and the digest
    of the event before it (none for the first), and its signature verifies: no gap,
    fork or reordering can be appended. *)
Theorem event_log_chained
  `{UuidLib, Sha256, Hex, Ed25519, !ToValue UnsignedEvent} public log :
  reachable public log -> chained public log.
Proof.
  induction 1 as [|log e k _ IH]; [by intros i e|]. by apply append_chained.
Qed.

(** an append either fails and leaves the log as it was, or adds the event at
    the end with nothing but its signature changed and moves the resume cursor to
    it; signing with the key pair of the log always passes the signature check. *)
Theorem event_append_outcome
  `{UuidLib, Sha256, HexLaws, Ed25519Laws, !ToValue UnsignedEvent} log e k :
  match append log e k (ed_public (secret k)) with
  | (Err err, log') => log' = log /\ (forall m, err <> Crypto m)
  | (Ok e', log') =>
      log' = log ++ [e'] /\ unsigned e' = unsigned e /\ head log' = Some (run_id e, sequence e) /\
      sequence e = vec_len log + 1
  end.
Proof.
  destruct (append log e k (ed_public (secret k))) as [[e'|err] log'] eqn:Ha.
  - apply append_ok in Ha as (-> & Hu & _ & Hseq & _). split_and!; try done.
    unfold head. rewrite last_snoc. cbn. unfold unsigned in Hu. congruence.
  - unfold append in Ha. destruct (negb (schema_version e =? _)); [by simplify_eq|].
    destruct (negb (sequence e =? _)); [by simplify_eq|].
    destruct (expected_predecessor log) as [pred|err'] eqn:E3; cbn [mbind result_bind] in Ha.
    2:{ simplify_eq. split; [done|]. by eapply expected_predecessor_err. }
    destruct (negb (bool_decide _)); [by simplify_eq|].
    destruct (sign e k) as [s|err'] eqn:E5; cbn [mbind result_bind] in Ha.
    2:{ simplify_eq. split; [done|]. by eapply sign_err. }
    rewrite (verify_sign _ _ _ E5) in Ha. by simplify_eq.
Qed.

(** * Witnesses *)
Module EventsWitness.
#[local] Existing Instances Toy.sha Toy.hexi Toy.ed Toy.uuid Toy.hex_laws Toy.ed_laws.

Definition key : SigningKey := {| signing_key_id := "k"; secret := [5; 6] |}.

Definition first : ReconstructionEventV1 :=
  {| schema_version := 1; run_id := "r"; sequence := 1; predecessor := None; timestamp := "2026";
     actor := mk_text "engine"; kind := ReconstructionStarted; payload_digest := digest_sha256 [1];
     signature := {| algorithm := mk_text "none"; key_id := mk_text "none"; value := "" |} |}.

#[local] Instance serialise : ToValue UnsignedEvent :=
  ToyJson.of_table [(unsigned first, Array [Number (PosInt 1)])].

Definition log1 : EventLog := (append new first key (ed_public (secret key))).2.

Definition second : ReconstructionEventV1 :=
  {| schema_version := 1; run_id := "r"; sequence := 2;
     predecessor := match last log1 with Some e => match digest e with Ok d => Some d | Err _ => None end
                    | None => None end;
     timestamp := "2027"; actor := mk_text "engine"; kind := RunCompleted;
     payload_digest := digest_sha256 [2];
     signature := {| algorithm := mk_text "none"; key_id := mk_text "none"; value := "" |} |}.

Example event_log_chained_witness :
  length log1 = 1%nat /\ chained (ed_public (secret key)) log1.
Proof.
  split; [vm_compute; reflexivity|].
  apply event_log_chained. apply reach_append. apply reach_new.
Defined.

Example event_append_outcome_witness :
  exists e', append new first key (ed_public (secret key)) = (Ok e', log1) /\ sequence e' = 1.
Proof.
  pose proof (event_append_outcome new first key) as H.
  destruct (append new first key (ed_public (secret key))) as [[e'|err] log'] eqn:E.
  - exists e'. destruct H as (Hlog & Hu & _). split.
    + unfold log1. rewrite E. reflexivity.
    + assert (u_sequence (unsigned e') = u_sequence (unsigned first)) as Hs by (rewrite Hu; reflexivity).
      exact Hs.
  - exfalso. vm_compute in E. discriminate E.
Defined.
End EventsWitness.
