(* ===== verification/Trace.v ===== *)
(** crates/anasemble-trace: recording, partitioning, redacting, replaying and signing
    of behavioural traces. *)
From S2P Require Import Prelude External Json Core Cbor Evidence.

Definition SCHEMA_VERSION : Z := 1.
Definition PURE_CAPABILITY : string := "pure".

Inductive TraceError :=
| Core (e : CoreError)
| Id (e : IdError)
| Protocol (message : string)
| Crypto (message : string)
| BudgetExhausted
| SideEffectDenied (capability : string).

#[export] Instance TraceError_eq_dec : EqDecision TraceError.
Proof. solve_decision. Defined.

Module TraceStep.
Record TraceStep := {
  index : Z;
  input_digest : Digest;
  output_digest : Digest;
  before_state : Digest;
  after_state : Digest;
  logical_clock : Z;
  causal_parents : list Z;
  capability : BoundedText;
}.

#[global] Instance TraceStep_eq_dec : EqDecision TraceStep.
Proof. solve_decision. Defined.
End TraceStep.

Module SideEffectClaim.
Record SideEffectClaim := { capability : BoundedText; payload_digest : Digest }.

#[global] Instance SideEffectClaim_eq_dec : EqDecision SideEffectClaim.
Proof. solve_decision. Defined.
End SideEffectClaim.

Record CoverageClaim := { trained_steps : Z; held_out_steps : Z }.

#[export] Instance CoverageClaim_eq_dec : EqDecision CoverageClaim.
Proof. solve_decision. Defined.

Record TraceV1 `{UuidLib} := {
  schema_version : Z;
  trace_id : Uuid;
  contract_ref : BoundedText;
  initial_state : Digest;
  steps : list TraceStep.TraceStep;
  side_effect_claims : list SideEffectClaim.SideEffectClaim;
  terminal_state : Digest;
  coverage : CoverageClaim;
  digest : Digest;
}.

Record UnsignedTrace `{UuidLib} := {
  u_schema_version : Z;
  u_trace_id : Uuid;
  u_contract_ref : BoundedText;
  u_initial_state : Digest;
  u_steps : list TraceStep.TraceStep;
  u_side_effect_claims : list SideEffectClaim.SideEffectClaim;
  u_terminal_state : Digest;
  u_coverage : CoverageClaim;
}.

#[export] Instance UnsignedTrace_eq_dec `{UuidLib} : EqDecision UnsignedTrace.
Proof. solve_decision. Defined.

Definition unsigned `{UuidLib} (self : TraceV1) : UnsignedTrace :=
  {| u_schema_version := schema_version self; u_trace_id := trace_id self;
     u_contract_ref := contract_ref self; u_initial_state := initial_state self;
     u_steps := steps self; u_side_effect_claims := side_effect_claims self;
     u_terminal_state := terminal_state self; u_coverage := coverage self |}.

Definition with_digest `{UuidLib} (d : Digest) (t : TraceV1) : TraceV1 :=
  {| schema_version := schema_version t; trace_id := trace_id t; contract_ref := contract_ref t;
     initial_state := initial_state t; steps := steps t;
     side_effect_claims := side_effect_claims t; terminal_state := terminal_state t;
     coverage := coverage t; digest := d |}.

Module Recorder.
Record Recorder `{UuidLib} := {
  trace_id : Uuid;
  contract_ref : BoundedText;
  initial_state : Digest;
  steps : list TraceStep.TraceStep;
  side_effects : list SideEffectClaim.SideEffectClaim;
  last_clock : option Z;
  last_state : Digest;
}.
End Recorder.

Record ReplayReport := { report_terminal_state : Digest; trace_digest : Digest }.

(** [Replayer]: the mocks by capability name. *)
Definition Replayer : Type := btree_map string Digest.

Definition is_pure (capability : BoundedText) : bool :=
  bool_decide (as_text capability = PURE_CAPABILITY).

Section Trace.
Context `{UuidLib, Sha256, Hex, Ed25519, !ToValue UnsignedTrace}.

Definition compute_digest (self : TraceV1) : result TraceError Digest :=
  bytes ← map_err Core (encode_canonical_cbor (unsigned self));
  Ok (digest_sha256 bytes).

Definition bind_digest (self : TraceV1) : result TraceError TraceV1 :=
  d ← compute_digest self;
  Ok (with_digest d self).

(** [id] is the identifier drawn by [TraceId::generate]. *)
Definition recorder_new (id : Uuid) (contract_ref : string) (initial_state : Digest)
  : result TraceError Recorder.Recorder :=
  contract_ref ← map_err Id (bounded_text_new contract_ref);
  Ok {| Recorder.trace_id := id; Recorder.contract_ref := contract_ref;
        Recorder.initial_state := initial_state; Recorder.steps := [];
        Recorder.side_effects := []; Recorder.last_clock := None;
        Recorder.last_state := initial_state |}.

Definition record_step (self : Recorder.Recorder) (input_digest output_digest after_state : Digest)
  (logical_clock : Z) (causal_parents : list Z) (capability : string) (budget : Budget.Budget)
  : result TraceError Recorder.Recorder :=
  if Budget.max_nodes budget <=? as_u32 (vec_len (Recorder.steps self))
  then Err BudgetExhausted else
  if match Recorder.last_clock self with Some clock => logical_clock <=? clock | None => false end
  then Err (Protocol "logical clock must increase") else
  let index := vec_len (Recorder.steps self) in
  if any (fun parent => index <=? parent) causal_parents
  then Err (Protocol "causal parent is not prior") else
  capability ← map_err Id (bounded_text_new capability);
  Ok {| Recorder.trace_id := Recorder.trace_id self;
        Recorder.contract_ref := Recorder.contract_ref self;
        Recorder.initial_state := Recorder.initial_state self;
        Recorder.steps := Recorder.steps self ++
          [{| TraceStep.index := index; TraceStep.input_digest := input_digest;
              TraceStep.output_digest := output_digest;
              TraceStep.before_state := Recorder.last_state self;
              TraceStep.after_state := after_state; TraceStep.logical_clock := logical_clock;
              TraceStep.causal_parents := causal_parents; TraceStep.capability := capability |}];
        Recorder.side_effects :=
          if is_pure capability then Recorder.side_effects self
          else Recorder.side_effects self ++
               [{| SideEffectClaim.capability := capability;
                   SideEffectClaim.payload_digest := output_digest |}];
        Recorder.last_clock := Some logical_clock;
        Recorder.last_state := after_state |}.

(** [u32::try_from(...).expect(...)] *)
Definition expect_u32 (n : Z) : result (fault TraceError) Z :=
  or_panic (if n <=? u32_max then Some n else None).

Definition finish (self : Recorder.Recorder) : result (fault TraceError) TraceV1 :=
  if bool_decide (Recorder.steps self = [])
  then Err (Fails (Protocol "trace has no steps")) else
  trained ← expect_u32 (vec_len (Recorder.steps self));
  fails (bind_digest
    {| schema_version := SCHEMA_VERSION; trace_id := Recorder.trace_id self;
       contract_ref := Recorder.contract_ref self;
       initial_state := Recorder.initial_state self; steps := Recorder.steps self;
       side_effect_claims := Recorder.side_effects self;
       terminal_state := Recorder.last_state self;
       coverage := {| trained_steps := trained; held_out_steps := 0 |};
       digest := digest_sha256 [] |}).

Definition redacted : BoundedText := mk_text "redacted".

Definition redact_step (step : TraceStep.TraceStep) : TraceStep.TraceStep :=
  if is_pure (TraceStep.capability step) then step else
  {| TraceStep.index := TraceStep.index step; TraceStep.input_digest := TraceStep.input_digest step;
     TraceStep.output_digest := TraceStep.output_digest step;
     TraceStep.before_state := TraceStep.before_state step;
     TraceStep.after_state := TraceStep.after_state step;
     TraceStep.logical_clock := TraceStep.logical_clock step;
     TraceStep.causal_parents := TraceStep.causal_parents step;
     TraceStep.capability := redacted |}.

(** [None]: the [expect] on the re-encoding panics. *)
Definition redact (trace : TraceV1) : option TraceV1 :=
  let trace :=
    {| schema_version := schema_version trace; trace_id := trace_id trace;
       contract_ref := contract_ref trace; initial_state := initial_state trace;
       steps := redact_step <$> steps trace;
       side_effect_claims :=
         (fun claim => {| SideEffectClaim.capability := redacted;
                          SideEffectClaim.payload_digest := SideEffectClaim.payload_digest claim |})
         <$> side_effect_claims trace;
       terminal_state := terminal_state trace; coverage := coverage trace; digest := digest trace |} in
  match bind_digest trace with Ok t => Some t | Err _ => None end.

Definition partition_held_out (trace : TraceV1) : result (fault TraceError) (TraceV1 * TraceV1) :=
  if vec_len (steps trace) <? 2
  then Err (Fails (Protocol "held-out partition needs at least two steps")) else
  let split := (length (steps trace) - 1)%nat in
  let train_steps := take split (steps trace) in
  trained ← expect_u32 (vec_len train_steps);
  let train :=
    {| schema_version := schema_version trace; trace_id := trace_id trace;
       contract_ref := contract_ref trace; initial_state := initial_state trace;
       steps := train_steps; side_effect_claims := side_effect_claims trace;
       terminal_state :=
         match last train_steps with Some step => TraceStep.after_state step
         | None => initial_state trace end;
       coverage := {| trained_steps := trained; held_out_steps := 1 |};
       digest := digest trace |} in
  held_step ← or_panic (steps trace !! split);
  let held :=
    {| schema_version := schema_version trace; trace_id := trace_id trace;
       contract_ref := contract_ref trace; initial_state := TraceStep.before_state held_step;
       steps := [held_step]; side_effect_claims := side_effect_claims trace;
       terminal_state := terminal_state trace;
       coverage := {| trained_steps := trained; held_out_steps := 1 |};
       digest := digest trace |} in
  train ← fails (bind_digest train);
  held ← fails (bind_digest held);
  Ok (train, held).

Definition replayer_new : Replayer := [].

Definition mock (self : Replayer) (capability : string) (output_digest : Digest)
  : result TraceError Replayer :=
  capability ← map_err Id (bounded_text_new capability);
  Ok (bt_insert (as_text capability) output_digest self).

(** The body of the loop of [replay]: the state and the indices seen. *)
Definition replay_step (self : Replayer) (step : TraceStep.TraceStep) (st : Digest * btree_set Z)
  : result TraceError (Digest * btree_set Z) :=
  if bt_mem (TraceStep.index step) st.2 then Err (Protocol "duplicate step index") else
  let seen := bt_insert (TraceStep.index step) () st.2 in
  if negb (bool_decide (TraceStep.before_state step = st.1))
  then Err (Protocol "step state is not contiguous") else
  _ ← (if is_pure (TraceStep.capability step) then Ok () else
       match bt_get (as_text (TraceStep.capability step)) self with
       | Some expected =>
           if bool_decide (expected = TraceStep.output_digest step) then Ok ()
           else Err (Protocol "mock output digest mismatch")
       | None => Err (SideEffectDenied (as_text (TraceStep.capability step)))
       end);
  Ok (TraceStep.after_state step, seen).

Definition replay (self : Replayer) (trace : TraceV1) (budget : Budget.Budget)
  : result TraceError ReplayReport :=
  if negb (schema_version trace =? SCHEMA_VERSION)
  then Err (Protocol "unsupported trace schema") else
  if Budget.max_nodes budget <? as_u32 (vec_len (steps trace)) then Err BudgetExhausted else
  d ← compute_digest trace;
  if negb (bool_decide (d = digest trace)) then Err (Protocol "trace digest mismatch") else
  st ← for_each (steps trace) (initial_state trace, []) (replay_step self);
  if negb (bool_decide (st.1 = terminal_state trace))
  then Err (Protocol "terminal state mismatch") else
  Ok {| report_terminal_state := st.1; trace_digest := digest trace |}.

Definition sign_trace (trace : TraceV1) (signing : SigningKey) : result TraceError SignatureBlock :=
  algorithm ← map_err Id (bounded_text_new "ed25519");
  key_id ← map_err Id (bounded_text_new (signing_key_id signing));
  Ok {| algorithm := algorithm; key_id := key_id;
        value := hex_encode (ed_sign (secret signing) (digest_bytes (digest trace))) |}.

Definition verify_trace (trace : TraceV1) (signature : SignatureBlock) (public : list Z)
  : result TraceError () :=
  if negb (bool_decide (as_text (algorithm signature) = "ed25519"))
  then Err (Crypto "unsupported signature algorithm") else
  d ← compute_digest trace;
  if negb (bool_decide (d = digest trace)) then Err (Protocol "trace digest mismatch") else
  bytes ← ok_or (hex_decode (value signature)) (Crypto "signature is not hex");
  bytes ← ok_or (try_into_array 64 bytes) (Crypto "signature is not 64 bytes");
  if negb (ed_key_ok public) then Err (Crypto "public key is invalid") else
  if ed_verify public (digest_bytes (digest trace)) bytes then Ok ()
  else Err (Crypto "signature verification failed").

Definition independent_trace_digest (trace : TraceV1) : result TraceError Digest :=
  let steps := sort_by_key TraceStep.index (steps trace) in
  bytes ← map_err Core (encode_canonical_cbor
    {| u_schema_version := schema_version trace; u_trace_id := trace_id trace;
       u_contract_ref := contract_ref trace; u_initial_state := initial_state trace;
       u_steps := steps; u_side_effect_claims := side_effect_claims trace;
       u_terminal_state := terminal_state trace; u_coverage := coverage trace |});
  Ok (digest_sha256 bytes).

(** * What replay requires *)

(** The states of consecutive steps join up, from [s] to [s']. *)
Fixpoint contiguous (s : Digest) (l : list TraceStep.TraceStep) (s' : Digest) : Prop :=
  match l with
  | [] => s = s'
  | x :: l' => TraceStep.before_state x = s /\ contiguous (TraceStep.after_state x) l' s'
  end.

(** A step may run: it is pure, or a mock stands for its capability. *)
Definition permitted (r : Replayer) (x : TraceStep.TraceStep) : Prop :=
  as_text (TraceStep.capability x) = PURE_CAPABILITY \/
  bt_get (as_text (TraceStep.capability x)) r = Some (TraceStep.output_digest x).

Definition replayable (r : Replayer) (t : TraceV1) : Prop :=
  NoDup (TraceStep.index <$> steps t) /\
  contiguous (initial_state t) (steps t) (terminal_state t) /\
  Forall (permitted r) (steps t).

Lemma contiguous_app s l1 l2 s' :
  contiguous s (l1 ++ l2) s' <-> exists m, contiguous s l1 m /\ contiguous m l2 s'.
Proof.
  revert s. induction l1 as [|x l1 IH]; intros s; cbn.
  - split; [eauto | by intros (m & -> & ?)].
  - rewrite IH. naive_solver.
Qed.

Lemma replay_step_ok r x s (seen : btree_set Z) st' :
  replay_step r x (s, seen) = Ok st' <->
  bt_get (TraceStep.index x) seen = None /\ TraceStep.before_state x = s /\ permitted r x /\
  st' = (TraceStep.after_state x, bt_insert (TraceStep.index x) () seen).
Proof.
  unfold replay_step, permitted, is_pure, bt_mem. cbn [fst snd].
  destruct (bt_get (TraceStep.index x) seen); [split; [done|by intros [? _]]|].
  destruct (decide (TraceStep.before_state x = s)) as [Hs|Hs].
  2:{ rewrite bool_decide_eq_false_2 by done. split; [done|]. by intros (_ & ? & _). }
  rewrite bool_decide_eq_true_2 by done. cbn [negb].
  destruct (decide (as_text (TraceStep.capability x) = PURE_CAPABILITY)) as [Hp|Hp].
  - rewrite bool_decide_eq_true_2 by done. cbn. split; [intros [= <-]; auto|]. by intros (_ & _ & _ & ->).
  - rewrite bool_decide_eq_false_2 by done. destruct (bt_get _ r) as [d|].
    + destruct (decide (d = TraceStep.output_digest x)) as [->|Hd].
      * rewrite bool_decide_eq_true_2 by done. cbn. split; [intros [= <-]; auto|].
        by intros (_ & _ & _ & ->).
      * rewrite bool_decide_eq_false_2 by done. cbn. split; [done|].
        intros (_ & _ & [?|?] & _); congruence.
    + cbn. split; [done|]. by intros (_ & _ & [?|?] & _).
Qed.

Lemma replay_steps_ok r l s (seen : btree_set Z) s' :
  bt_sorted seen ->
  (exists seen', for_each l (s, seen) (replay_step r) = Ok (s', seen')) <->
  (NoDup (TraceStep.index <$> l) /\ forall i, i ∈ TraceStep.index <$> l -> bt_get i seen = None) /\
  contiguous s l s' /\ Forall (permitted r) l.
Proof.
  intros Hseen. revert s seen Hseen. induction l as [|x l IH]; intros s seen Hseen.
  - cbn. split.
    + intros (? & [= <- <-]). split_and!; [constructor|by intros i Hi; inversion Hi|done|constructor].
    + intros (_ & <- & _). eauto.
  - cbn [for_each contiguous]. rewrite fmap_cons, NoDup_cons, Forall_cons. split.
    + intros (seen' & Hrun). apply bind_Ok in Hrun as (st & Hx & Hrun).
      apply replay_step_ok in Hx as (Hfresh & Hb & Hp & ->).
      destruct (proj1 (IH (TraceStep.after_state x) (bt_insert (TraceStep.index x) () seen)
        (bt_insert_sorted _ _ _ Hseen)) (ex_intro _ _ Hrun)) as ((Hnd & Hni) & Hc & Hall).
      split_and!; try done.
      * intros Hin. apply Hni in Hin. by rewrite bt_get_insert_eq in Hin.
      * intros i [->|Hi]%elem_of_cons; [done|]. pose proof (Hni i Hi) as Hn.
        rewrite bt_get_insert in Hn by done. by destruct (cmp _ i).
    + intros (((Hni & Hnd) & Hfresh) & (Hb & Hc) & Hp & Hall).
      rewrite (proj2 (replay_step_ok r x s seen _)
        (conj (Hfresh _ ltac:(left)) (conj Hb (conj Hp eq_refl)))).
      cbn [mbind result_bind]. apply IH; [by apply bt_insert_sorted|]. split_and!; try done.
      intros i Hi. rewrite bt_get_insert_ne; [apply Hfresh; by right|done|].
      intros Heq. apply Hni. by rewrite Heq.
Qed.

Lemma replay_ok_iff r t b rep :
  replay r t b = Ok rep <->
  schema_version t = SCHEMA_VERSION /\ as_u32 (vec_len (steps t)) <= Budget.max_nodes b /\
  compute_digest t = Ok (digest t) /\ replayable r t /\
  rep = {| report_terminal_state := terminal_state t; trace_digest := digest t |}.
Proof.
  unfold replay, replayable. pose proof (replay_steps_ok r (steps t) (initial_state t) []) as Hsteps.
  split.
  - intros Hr. destruct (negb (_ =? _)) eqn:E1 in Hr; [done|].
    destruct (_ <? _) eqn:E2 in Hr; [done|]. apply bind_Ok in Hr as (d & Hd & Hr).
    destruct (negb (bool_decide _)) eqn:E3 in Hr; [done|]. apply bind_Ok in Hr as ([s seen] & Hrun & Hr).
    cbn [fst snd] in Hr. destruct (negb (bool_decide _)) eqn:E4 in Hr; [done|]. injection Hr as <-.
    split_bools. subst. destruct (proj1 (Hsteps (terminal_state t) ltac:(constructor)))
      as ((Hnd & _) & Hc & Hall); [eauto|]. by split_and!.
  - intros (Hs & Hb & Hd & (Hnd & Hc & Hall) & ->). rewrite Hs. cbn [Z.eqb Pos.eqb negb SCHEMA_VERSION].
    rewrite (proj2 (Z.ltb_ge _ _)) by lia. rewrite Hd. cbn [mbind result_bind].
    rewrite bool_decide_eq_true_2 by done. cbn [negb].
    destruct (proj2 (Hsteps (terminal_state t) ltac:(constructor))) as (seen & Hrun); [by split_and!|].
    assert (for_each (steps t) (initial_state t, []) (replay_step r) = Ok (terminal_state t, seen))
      as -> by exact Hrun.
    cbn [mbind result_bind fst]. by rewrite bool_decide_eq_true_2.
Qed.

(** * Recording *)

Inductive recorded : Recorder.Recorder -> Prop :=
| recorded_new id ref init r : recorder_new id ref init = Ok r -> recorded r
| recorded_step r inp out after clock parents cap b r' :
    recorded r -> record_step r inp out after clock parents cap b = Ok r' -> recorded r'.

(** The claim a step with a side effect leaves. *)
Definition claim_of (x : TraceStep.TraceStep) : option SideEffectClaim.SideEffectClaim :=
  if is_pure (TraceStep.capability x) then None
  else Some {| SideEffectClaim.capability := TraceStep.capability x;
               SideEffectClaim.payload_digest := TraceStep.output_digest x |}.

Record recorder_ok (r : Recorder.Recorder) : Prop := {
  rec_index : forall i x, Recorder.steps r !! i = Some x -> TraceStep.index x = Z.of_nat i;
  rec_parents : forall x p, x ∈ Recorder.steps r -> p ∈ TraceStep.causal_parents x -> p < TraceStep.index x;
  rec_clock : StronglySorted Z.lt (TraceStep.logical_clock <$> Recorder.steps r) /\
    match Recorder.last_clock r with
    | Some c => Forall (fun x => TraceStep.logical_clock x <= c) (Recorder.steps r)
    | None => Recorder.steps r = []
    end;
  rec_states : contiguous (Recorder.initial_state r) (Recorder.steps r) (Recorder.last_state r);
  rec_claims : Recorder.side_effects r = omap claim_of (Recorder.steps r);
}.

Lemma StronglySorted_snoc {A} (R : A -> A -> Prop) l x :
  StronglySorted R l -> Forall (fun y => R y x) l -> StronglySorted R (l ++ [x]).
Proof.
  induction 1 as [|y l Hl IH Hy]; intros Hx; cbn; [repeat constructor|].
  inversion Hx; subst. constructor; [by apply IH|]. by apply Forall_app_2; [|constructor].
Qed.

Lemma recorded_ok r : recorded r -> recorder_ok r.
Proof.
  induction 1 as [id ref init r Hn|r inp out after clock parents cap b r' _ IH Hs].
  - unfold recorder_new in Hn. apply bind_Ok in Hn as (v & _ & [= <-]). split; cbn; try done.
    + intros x p Hx. inversion Hx.
    + split; [constructor|done].
  - unfold record_step in Hs. destruct (_ <=? _) eqn:E1 in Hs; [done|].
    destruct (match Recorder.last_clock r with Some _ => _ | None => _ end) eqn:E2; [done|].
    destruct (any _ _) eqn:E3; [done|]. apply bind_Ok in Hs as (v & Hv & [= <-]).
    destruct IH as [Hi Hp [Hc Hl] Hst Hcl].
    split; cbn [Recorder.steps Recorder.last_clock Recorder.last_state Recorder.initial_state
                Recorder.side_effects].
    + intros i x [Hx|[Hle Hx]]%lookup_app_Some; [by apply Hi|].
      apply list_lookup_singleton_Some in Hx as [Hx <-]. cbn. unfold vec_len. lia.
    + intros x p [Hx|Hx]%elem_of_app; [by apply Hp|].
      apply list_elem_of_singleton in Hx as ->. cbn. intros Hin.
      rewrite any_false, Forall_forall in E3. specialize (E3 p Hin). cbn in E3. split_bools. lia.
    + rewrite fmap_app. split.
      * apply StronglySorted_snoc; [done|]. apply Forall_fmap, Forall_forall. intros x Hx. cbn.
        destruct (Recorder.last_clock r) as [c|]; [|rewrite Hl in Hx; inversion Hx].
        rewrite Forall_forall in Hl. specialize (Hl x Hx). split_bools. lia.
      * apply Forall_app_2; [|by constructor].
        destruct (Recorder.last_clock r) as [c|]; [|rewrite Hl; constructor].
        eapply Forall_impl; [exact Hl|]. intros x Hx. cbn in Hx. split_bools. lia.
    + apply contiguous_app. exists (Recorder.last_state r). by repeat split.
    + rewrite omap_app, <- Hcl. cbn. unfold claim_of. cbn.
      destruct (is_pure v); cbn; [by rewrite app_nil_r|done].
Qed.

Lemma recorded_indices r : recorder_ok r ->
  NoDup (TraceStep.index <$> Recorder.steps r) /\
  sort_by_key TraceStep.index (Recorder.steps r) = Recorder.steps r.
Proof.
  intros Hr. split.
  - apply NoDup_alt. intros i j x Hi Hj. rewrite !list_lookup_fmap in Hi, Hj.
    destruct (Recorder.steps r !! i) as [a|] eqn:Ea; [|done].
    destruct (Recorder.steps r !! j) as [b|] eqn:Eb; [|done]. cbn in Hi, Hj.
    apply (rec_index _ Hr) in Ea, Eb. assert (TraceStep.index a = TraceStep.index b) by congruence. lia.
  - apply sort_by_key_id. pose proof (rec_index _ Hr) as Hi. revert Hi.
    cut (forall k l, (forall i x, l !! i = Some x -> TraceStep.index x = Z.of_nat (k + i)) ->
           sorted_by_key TraceStep.index l).
    { intros Hgen Hi. by apply (Hgen 0%nat). }
    intros k l. revert k. induction l as [|x l IH]; intros k Hl; [constructor|].
    constructor.
    + apply (IH (S k)). intros i y Hy. rewrite (Hl (S i) y) by done. f_equal. lia.
    + apply Forall_forall. intros y Hy. apply list_elem_of_lookup_1 in Hy as [i Hy].
      unfold key_le. rewrite (Hl 0%nat x), (Hl (S i) y) by done.
      unfold cmp, ord_Z. apply Z.compare_le_iff. lia.
Qed.

Lemma bind_digest_ok t t' :
  bind_digest t = Ok t' <-> compute_digest t = Ok (digest t') /\ t' = with_digest (digest t') t.
Proof.
  unfold bind_digest. rewrite bind_Ok. split.
  - by intros (d & Hd & [= <-]).
  - intros [Hd Ht]. exists (digest t'). split; [done|]. by rewrite <- Ht.
Qed.

Lemma finish_ok r t :
  finish r = Ok t ->
  (schema_version t = SCHEMA_VERSION /\ initial_state t = Recorder.initial_state r /\
   steps t = Recorder.steps r /\ terminal_state t = Recorder.last_state r /\
   side_effect_claims t = Recorder.side_effects r /\
   coverage t = {| trained_steps := vec_len (steps t); held_out_steps := 0 |}) /\
  steps t <> [] /\ compute_digest t = Ok (digest t).
Proof.
  unfold finish. destruct (bool_decide _) eqn:E; [done|]. split_bools. intros Hf.
  apply bind_Ok in Hf as (n & Hn & Hf). unfold expect_u32, or_panic in Hn. apply ok_or_Ok in Hn.
  destruct (_ <=? _); [|done]. injection Hn as <-.
  unfold fails in Hf. apply map_err_Ok, bind_digest_ok in Hf as [Hd Ht]. rewrite Ht.
  cbn [with_digest schema_version initial_state steps terminal_state side_effect_claims coverage digest].
  split; [by split_and!|]. split; [done|]. exact Hd.
Qed.
Lemma as_u32_small n : 0 <= n < 2 ^ 32 -> as_u32 n = n.
Proof. intros Hn. unfold as_u32. by apply Z.mod_small. Qed.

Lemma contiguous_last s l s' : contiguous s l s' ->
  match last l with Some y => TraceStep.after_state y | None => s end = s'.
Proof.
  revert s. induction l as [|x l IH]; intros s; cbn; [done|]. intros [_ Hc].
  apply IH in Hc. rewrite last_cons. by destruct (last l).
Qed.

(** Both parts of a partition, before their digests are bound. *)
Lemma partition_ok t train held :
  partition_held_out t = Ok (train, held) ->
  exists l x n, steps t = l ++ [x] /\ l <> [] /\
  train = with_digest (digest train)
    {| schema_version := schema_version t; trace_id := trace_id t; contract_ref := contract_ref t;
       initial_state := initial_state t; steps := l; side_effect_claims := side_effect_claims t;
       terminal_state := match last l with Some y => TraceStep.after_state y | None => initial_state t end;
       coverage := {| trained_steps := n; held_out_steps := 1 |}; digest := digest t |} /\
  compute_digest train = Ok (digest train) /\
  held = with_digest (digest held)
    {| schema_version := schema_version t; trace_id := trace_id t; contract_ref := contract_ref t;
       initial_state := TraceStep.before_state x; steps := [x];
       side_effect_claims := side_effect_claims t; terminal_state := terminal_state t;
       coverage := {| trained_steps := n; held_out_steps := 1 |}; digest := digest t |} /\
  compute_digest held = Ok (digest held).
Proof.
  unfold partition_held_out. destruct (_ <? 2) eqn:E; [done|]. split_bools. unfold vec_len in E.
  destruct (exists_last (l := steps t)) as (l & x & Hst); [by intros Hn; rewrite Hn in E|].
  rewrite Hst, length_app in *. cbn [length] in *. rewrite Nat.add_sub.
  rewrite take_app_length, lookup_app_r, Nat.sub_diag by lia. cbn [lookup list_lookup or_panic ok_or].
  intros Hp. apply bind_Ok in Hp as (n & _ & Hp). cbn [mbind result_bind] in Hp.
  apply bind_Ok in Hp as (tr & Htr & Hp). apply bind_Ok in Hp as (he & Hhe & [= <- <-]).
  unfold fails in Htr, Hhe. apply map_err_Ok in Htr, Hhe. exists l, x, n.
  pose proof (proj1 (bind_digest_ok _ _) Htr) as [Hd1 Ht1].
  pose proof (proj1 (bind_digest_ok _ _) Hhe) as [Hd2 Ht2].
  split_and!; [done| |exact Ht1|rewrite Ht1 at 1; exact Hd1|exact Ht2|rewrite Ht2 at 1; exact Hd2].
  intros ->. cbn in E. lia.
Qed.
(** * Redaction *)

Lemma redact_ok t t' :
  redact t = Some t' ->
  compute_digest t' = Ok (digest t') /\ schema_version t' = schema_version t /\
  initial_state t' = initial_state t /\ terminal_state t' = terminal_state t /\
  steps t' = redact_step <$> steps t.
Proof.
  unfold redact. destruct (bind_digest _) as [u|] eqn:Hb; [|done]. intros [= <-].
  pose proof (proj1 (bind_digest_ok _ _) Hb) as [Hd Ht].
  split; [rewrite Ht at 1; exact Hd|]. by rewrite Ht.
Qed.

Lemma redact_contiguous s l s' : contiguous s (redact_step <$> l) s' <-> contiguous s l s'.
Proof.
  revert s. induction l as [|x l IH]; intros s; [done|]. cbn [contiguous fmap list_fmap].
  unfold redact_step at 1 2. destruct (is_pure _); cbn; by rewrite IH.
Qed.

Lemma redact_index (l : list TraceStep.TraceStep) : TraceStep.index <$> (redact_step <$> l) = TraceStep.index <$> l.
Proof.
  rewrite <- list_fmap_compose. apply list_fmap_ext. intros i x _. cbn.
  unfold redact_step. by destruct (is_pure _).
Qed.

(** A redacted step runs when it was pure or its output is the mock of [redacted]. *)
Lemma redact_permitted r x :
  permitted r (redact_step x) <->
  is_pure (TraceStep.capability x) = true \/ bt_get "redacted" r = Some (TraceStep.output_digest x).
Proof.
  unfold permitted, redact_step. destruct (is_pure (TraceStep.capability x)) eqn:E.
  - unfold is_pure in E. split_bools. tauto.
  - cbn. naive_solver.
Qed.
End Trace.

(** * Properties *)

(** Replay succeeds exactly on an untampered trace within the node budget whose
    step indices are distinct, whose states join up from the initial to the terminal
    state, and whose side effects are all covered by mocks with the recorded outputs;
    it reports the terminal state. *)
Theorem replay_iff `{UuidLib, Sha256, !ToValue UnsignedTrace} r t b rep :
  replay r t b = Ok rep <->
  schema_version t = SCHEMA_VERSION /\ as_u32 (vec_len (steps t)) <= Budget.max_nodes b /\
  compute_digest t = Ok (digest t) /\ replayable r t /\
  rep = {| report_terminal_state := terminal_state t; trace_digest := digest t |}.
Proof. apply replay_ok_iff. Qed.

(** A recorded trace replays to the state the recorder ended in, with an empty
    replayer if all its steps are pure and otherwise exactly with one that mocks every
    side effect; its independent digest is the one bound into it. *)
Theorem recorded_trace_replays `{UuidLib, Sha256, !ToValue UnsignedTrace} rec t b :
  recorded rec -> finish rec = Ok t -> as_u32 (vec_len (steps t)) <= Budget.max_nodes b ->
  (forall r, replay r t b = Ok {| report_terminal_state := Recorder.last_state rec; trace_digest := digest t |}
             <-> Forall (permitted r) (steps t)) /\
  independent_trace_digest t = Ok (digest t) /\
  side_effect_claims t = omap claim_of (steps t).
Proof.
  intros Hrec Hf Hb. apply recorded_ok in Hrec. destruct (recorded_indices rec Hrec) as [Hnd Hsort].
  apply finish_ok in Hf as ((Hs & Hi & Hst & Hter & Hcl & Hcov) & _ & Hd). split_and!.
  - intros r. rewrite replay_ok_iff. unfold replayable. rewrite Hst, Hi, Hter. split.
    + by intros (_ & _ & _ & (_ & _ & ?) & _).
    + intros Hp. rewrite <- Hst at 1. split_and!; try done. apply (rec_states _ Hrec).
  - unfold independent_trace_digest. rewrite Hst, Hsort, <- Hst. exact Hd.
  - rewrite Hcl, Hst. apply (rec_claims _ Hrec).
Qed.

(** splitting a replayable trace keeps both parts replayable with the same
    replayer and budget; the held-out part is the last step, starts where training
    ends, and together they are the original steps. *)
Theorem partition_replays `{UuidLib, Sha256, !ToValue UnsignedTrace} r t b rep train held :
  replay r t b = Ok rep -> vec_len (steps t) <= u32_max ->
  partition_held_out t = Ok (train, held) ->
  steps t = steps train ++ steps held /\ length (steps held) = 1%nat /\
  terminal_state train = initial_state held /\
  is_ok (replay r train b) = true /\ is_ok (replay r held b) = true.
Proof.
  intros Hr Hlen Hp. apply replay_ok_iff in Hr as (Hs & Hb & _ & (Hnd & Hc & Hall) & _).
  destruct (partition_ok _ _ _ Hp) as (l & x & n & Hsteps & Hne & Htr & Hdt & Hhe & Hdh).
  rewrite Hsteps in *. unfold vec_len in Hlen, Hb. rewrite length_app in Hlen, Hb. cbn in Hlen, Hb.
  assert (1 <= length l)%nat by (destruct l; cbn; [done|lia]).
  rewrite as_u32_small in Hb by (unfold u32_max in Hlen; lia).
  apply contiguous_app in Hc as (m & Hcl & Hx & Hm). cbn in Hm.
  rewrite fmap_app, NoDup_app in Hnd. destruct Hnd as (Hnd & _ & _).
  apply Forall_app in Hall as [Hl Hxp].
  assert (match last l with Some y => TraceStep.after_state y | None => initial_state t end = m) as Hlast.
  { by apply contiguous_last. }
  assert (steps train = l /\ steps held = [x] /\ terminal_state train = m /\ initial_state held = m /\
          initial_state train = initial_state t /\ terminal_state held = terminal_state t /\
          schema_version train = schema_version t /\ schema_version held = schema_version t)
    as (Etr & Ehe & Ett & Eih & Eit & Eth & Est & Esh).
  { rewrite Htr, Hhe. cbn. by rewrite Hlast, Hx. }
  assert (forall u, compute_digest u = Ok (digest u) -> schema_version u = SCHEMA_VERSION ->
            as_u32 (vec_len (steps u)) <= Budget.max_nodes b -> replayable r u ->
            is_ok (replay r u b) = true) as Hok.
  { intros u ????. erewrite (proj2 (replay_ok_iff r u b _)); [done|by split_and!]. }
  split_and!; [by rewrite Etr, Ehe|by rewrite Ehe|by rewrite Ett, Eih| |]; apply Hok; try congruence.
  - rewrite Etr. unfold vec_len. rewrite as_u32_small by (unfold u32_max in Hlen; lia). lia.
  - unfold replayable. by rewrite Etr, Ett, Eit.
  - rewrite Ehe. change (vec_len [x]) with 1. rewrite as_u32_small by lia. lia.
  - unfold replayable. rewrite Ehe, Eih, Eth. cbn. split_and!; [apply NoDup_singleton|done..].
Qed.

(** redaction keeps a trace well formed and bound to its digest but merges all
    its capabilities into one, so the redacted trace of a replayable one replays
    exactly when all its side effects had the same output. *)
Theorem redacted_replays_iff `{UuidLib, Sha256, !ToValue UnsignedTrace} r t b rep t' :
  replay r t b = Ok rep -> redact t = Some t' ->
  (exists r', is_ok (replay r' t' b) = true) <->
  exists d, Forall (fun x => is_pure (TraceStep.capability x) = true \/ TraceStep.output_digest x = d) (steps t).
Proof.
  intros Hr Hred. apply replay_ok_iff in Hr as (Hs & Hb & _ & (Hnd & Hc & _) & _).
  apply redact_ok in Hred as (Hd & Hs' & Hi & Ht & Hst). split.
  - intros (r' & Hr'). destruct (replay r' t' b) as [rep'|] eqn:E; [|done].
    apply replay_ok_iff in E as (_ & _ & _ & (_ & _ & Hp) & _).
    rewrite Hst, Forall_fmap in Hp. exists (default (digest t) (bt_get "redacted" r')).
    eapply Forall_impl; [exact Hp|]. intros x [?|Hx]%redact_permitted; [by left|right]. by rewrite Hx.
  - intros (d & Hall). exists [("redacted", d)].
    erewrite (proj2 (replay_ok_iff [("redacted", d)] t' b _)); [done|]. rewrite Hs', Hst.
    unfold vec_len in *. rewrite length_fmap.
    split_and!; try done. unfold replayable. rewrite Hst, Hi, Ht, redact_index, redact_contiguous.
    split_and!; try done. apply Forall_fmap. eapply Forall_impl; [exact Hall|].
    intros x Hx. apply redact_permitted. destruct Hx as [?| ->]; [by left|by right].
Qed.

(** * Witnesses *)
Module TraceWitness.
#[local] Existing Instances Toy.sha Toy.hexi Toy.ed Toy.uuid.

(** Serialises the step indices of a trace. *)
#[local] Instance serialise : ToValue UnsignedTrace :=
  fun u => Some (Array ((fun x => Number (PosInt (TraceStep.index x))) <$> u_steps u)).

Definition state (n : Z) : Digest := digest_sha256 [n].

Definition id1 : @Uuid Toy.uuid := "t1".

(** One pure step and one that calls a capability. *)
Definition recording : result TraceError Recorder.Recorder :=
  r ← recorder_new id1 "contract:v1" (state 0);
  r ← record_step r (state 10) (state 20) (state 1) 1 [] "pure" Budget.standard;
  record_step r (state 11) (state 21) (state 2) 2 [0] "payment.capture" Budget.standard.

Definition recorder : Recorder.Recorder :=
  match recording with Ok r => r
  | Err _ => {| Recorder.trace_id := id1; Recorder.contract_ref := mk_text ""; Recorder.initial_state := state 0;
                Recorder.steps := []; Recorder.side_effects := []; Recorder.last_clock := None;
                Recorder.last_state := state 0 |} end.

Lemma recorder_recorded : recorded recorder.
Proof.
  assert (recording = Ok recorder) as Hrec by (vm_compute; reflexivity). unfold recording in Hrec.
  apply bind_Ok in Hrec as (r0 & H0 & Hrec). apply bind_Ok in Hrec as (r1 & H1 & H2).
  eapply recorded_step; [eapply recorded_step; [eapply recorded_new|]|]; eassumption.
Qed.

Definition sample : TraceV1 :=
  match finish recorder with Ok t => t
  | Err _ => {| schema_version := 0; trace_id := id1; contract_ref := mk_text ""; initial_state := state 0;
                steps := []; side_effect_claims := []; terminal_state := state 0;
                coverage := {| trained_steps := 0; held_out_steps := 0 |}; digest := state 0 |} end.

Definition mocked : Replayer := [("payment.capture", state 21)].

Lemma sample_finished : finish recorder = Ok sample.
Proof. vm_compute. reflexivity. Qed.

Lemma sample_replays :
  replay mocked sample Budget.standard = Ok {| report_terminal_state := state 2; trace_digest := digest sample |}.
Proof. vm_compute. reflexivity. Qed.

Example recorded_trace_replays_witness :
  length (steps sample) = 2%nat /\ independent_trace_digest sample = Ok (digest sample).
Proof.
  split; [vm_compute; reflexivity|].
  apply (recorded_trace_replays recorder sample Budget.standard recorder_recorded sample_finished).
  vm_compute. discriminate.
Defined.

Example partition_replays_witness :
  exists train held, partition_held_out sample = Ok (train, held) /\
  is_ok (replay mocked train Budget.standard) = true /\ is_ok (replay mocked held Budget.standard) = true.
Proof.
  destruct (partition_held_out sample) as [[train held]|] eqn:E; [|vm_compute in E; discriminate E].
  exists train, held. split; [reflexivity|].
  apply (partition_replays mocked sample Budget.standard _ train held sample_replays); [|exact E].
  vm_compute. discriminate.
Defined.

Example redacted_replays_iff_witness :
  exists t' r', redact sample = Some t' /\ is_ok (replay r' t' Budget.standard) = true.
Proof.
  destruct (redact sample) as [t'|] eqn:E; [|vm_compute in E; discriminate E].
  assert (Forall (fun x => is_pure (TraceStep.capability x) = true \/ TraceStep.output_digest x = state 21)
            (steps sample)) as Hall.
  { vm_compute. apply Forall_cons_2; [by left|]. apply Forall_cons_2; [by right|]. constructor. }
  destruct (proj2 (redacted_replays_iff mocked sample Budget.standard _ t' sample_replays E)
              (ex_intro _ _ Hall)) as [r' Hr'].
  exists t', r'. split; [reflexivity|exact Hr'].
Defined.
End TraceWitness.
