(* ===== verification/Verification.v ===== *)
(** crates/anasemble-verification: addressed claims, the digest-equality verifier, and
    certificates signed over a report. *)
From S2P Require Import Prelude External Json Core Cbor Evidence.
From S2P Require Contract.

Definition SCHEMA_VERSION : Z := 1.

#[local] Existing Instances Contract.ContractError_eq_dec Contract.UnsignedContract_eq_dec.

Inductive VerificationError :=
| Core (e : CoreError)
| Id (e : IdError)
| Contract (e : Contract.ContractError)
| Protocol (message : string)
| Crypto (message : string)
| BudgetExhausted.

#[export] Instance VerificationError_eq_dec : EqDecision VerificationError.
Proof. solve_decision. Defined.

Inductive ClaimStatus := Proven | Falsified | Unknown | NotApplicable.

#[export] Instance ClaimStatus_eq_dec : EqDecision ClaimStatus.
Proof. solve_decision. Defined.

Record VerificationClaim `{UuidLib} := {
  claim_id : Uuid;
  statement : BoundedText;
  status : ClaimStatus;
  evidence : list Digest;
}.

#[export] Instance VerificationClaim_eq_dec `{UuidLib} : EqDecision VerificationClaim.
Proof. solve_decision. Defined.

Record EvidenceSet := { roots : list Digest }.

Record VerificationReport `{UuidLib} := {
  schema_version : Z;
  oracle_id : BoundedText;
  oracle_version : BoundedText;
  claims : list VerificationClaim;
  evidence_roots : list Digest;
  budget : Budget.Budget;
  truncated : bool;
  digest : Digest;
}.

Record UnsignedReport `{UuidLib} := {
  u_schema_version : Z;
  u_oracle_id : BoundedText;
  u_oracle_version : BoundedText;
  u_claims : list VerificationClaim;
  u_evidence_roots : list Digest;
  u_budget : Budget.Budget;
  u_truncated : bool;
}.

Definition unsigned `{UuidLib} (self : VerificationReport) : UnsignedReport :=
  {| u_schema_version := schema_version self; u_oracle_id := oracle_id self;
     u_oracle_version := oracle_version self; u_claims := claims self;
     u_evidence_roots := evidence_roots self; u_budget := budget self;
     u_truncated := truncated self |}.

Definition with_digest `{UuidLib} (d : Digest) (r : VerificationReport) : VerificationReport :=
  {| schema_version := schema_version r; oracle_id := oracle_id r;
     oracle_version := oracle_version r; claims := claims r; evidence_roots := evidence_roots r;
     budget := budget r; truncated := truncated r; digest := d |}.

Record CertificateV1 `{UuidLib} := {
  certificate_id : Uuid;
  report_digest : Digest;
  signature : SignatureBlock;
}.

Module DigestCandidate.
Record DigestCandidate := { digest : Digest }.
End DigestCandidate.

Module DigestEqualityVerifier.
Record DigestEqualityVerifier := { oracle_id : string; oracle_version : string }.
End DigestEqualityVerifier.

Section Verification.
Context `{UuidLib, Sha256, Hex, Ed25519, !ToValue Contract.UnsignedContract, !ToValue UnsignedReport}.

Definition compute_digest (self : VerificationReport) : result VerificationError Digest :=
  bytes ← map_err Core (encode_canonical_cbor (unsigned self));
  Ok (digest_sha256 bytes).

Definition bind_digest (self : VerificationReport) : result VerificationError VerificationReport :=
  d ← compute_digest self;
  Ok (with_digest d self).

(** [id] is the identifier drawn by [ClaimId::generate]. *)
Definition verify (id : Uuid) (self : DigestEqualityVerifier.DigestEqualityVerifier)
  (contract : Contract.ContractV1) (candidate : DigestCandidate.DigestCandidate)
  (evidence : EvidenceSet) (budget : Budget.Budget) : result VerificationError VerificationReport :=
  if Budget.max_nodes budget <? 1 then Err BudgetExhausted else
  d ← map_err Contract (Contract.compute_digest contract);
  if negb (bool_decide (d = Contract.digest contract))
  then Err (Protocol "contract digest mismatch") else
  let status := if bool_decide (DigestCandidate.digest candidate = Contract.digest contract)
                then Proven else Falsified in
  if bool_decide (status = Proven) && bool_decide (roots evidence = [])
  then Err (Protocol "proven claim requires evidence roots") else
  statement ← map_err Id (bounded_text_new "candidate-digest-matches-contract");
  let claim := {| claim_id := id; statement := statement; status := status;
                  Verification.evidence := roots evidence |} in
  oracle_id ← map_err Id (bounded_text_new (DigestEqualityVerifier.oracle_id self));
  oracle_version ← map_err Id (bounded_text_new (DigestEqualityVerifier.oracle_version self));
  bind_digest
    {| schema_version := SCHEMA_VERSION; oracle_id := oracle_id; oracle_version := oracle_version;
       claims := [claim]; evidence_roots := roots evidence; Verification.budget := budget;
       truncated := false; digest := digest_sha256 [] |}.

(** [id] is the identifier drawn by [CertificateId::generate]. *)
Definition sign_report (id : Uuid) (report : VerificationReport) (signing : SigningKey)
  : result VerificationError CertificateV1 :=
  d ← compute_digest report;
  if negb (bool_decide (d = digest report)) then Err (Protocol "report digest mismatch") else
  if truncated report then Err (Protocol "truncated report cannot be certified") else
  if any (fun claim => bool_decide (status claim = Proven) && bool_decide (evidence claim = []))
         (claims report)
  then Err (Protocol "proven claim requires evidence") else
  algorithm ← map_err Id (bounded_text_new "ed25519");
  key_id ← map_err Id (bounded_text_new (signing_key_id signing));
  Ok {| certificate_id := id; report_digest := digest report;
        signature := {| algorithm := algorithm; key_id := key_id;
                        value := hex_encode (ed_sign (secret signing) (digest_bytes (digest report))) |} |}.

Definition verify_certificate (report : VerificationReport) (certificate : CertificateV1)
  (public : list Z) : result VerificationError () :=
  d ← compute_digest report;
  if negb (bool_decide (d = digest report)) then Err (Protocol "report digest mismatch") else
  if negb (bool_decide (report_digest certificate = digest report))
  then Err (Protocol "certificate report mismatch") else
  if negb (bool_decide (as_text (algorithm (signature certificate)) = "ed25519"))
  then Err (Crypto "unsupported signature algorithm") else
  bytes ← ok_or (hex_decode (value (signature certificate))) (Crypto "signature is not hex");
  bytes ← ok_or (try_into_array 64 bytes) (Crypto "signature is not 64 bytes");
  if negb (ed_key_ok public) then Err (Crypto "public key is invalid") else
  if ed_verify public (digest_bytes (digest report)) bytes then Ok ()
  else Err (Crypto "signature verification failed").

Definition independent_report_digest (report : VerificationReport)
  : result VerificationError Digest := compute_digest report.

(** What a report must satisfy to be certified. *)
Definition certifiable (r : VerificationReport) : Prop :=
  compute_digest r = Ok (digest r) /\ truncated r = false /\
  Forall (fun c => status c = Proven -> evidence c <> []) (claims r).

Definition matching (c : Contract.ContractV1) (x : DigestCandidate.DigestCandidate) : Prop :=
  DigestCandidate.digest x = Contract.digest c.

Lemma no_bare_claims l :
  any (fun c => bool_decide (status c = Proven) && bool_decide (evidence c = [])) l = false <->
  Forall (fun c => status c = Proven -> evidence c <> []) l.
Proof.
  rewrite any_false. split; intros Hall; eapply Forall_impl; try exact Hall; intros c Hc; cbn in *.
  - intros Hs Hn. by rewrite Hs, Hn in Hc.
  - apply andb_false_iff. destruct (decide (status c = Proven)) as [Hs|Hs].
    + right. apply bool_decide_eq_false_2. by apply Hc.
    + left. by apply bool_decide_eq_false_2.
Qed.

Lemma report_bound r r' :
  bind_digest r = Ok r' -> r' = with_digest (digest r') r /\ compute_digest r' = Ok (digest r').
Proof.
  unfold bind_digest. intros Hb. apply bind_Ok in Hb as (d & Hd & [= <-]). split; [done|exact Hd].
Qed.

Lemma sign_report_iff id r k c :
  sign_report id r k = Ok c <->
  certifiable r /\ wf_text (mk_text (signing_key_id k)) /\
  c = {| certificate_id := id; report_digest := digest r;
         signature := {| algorithm := mk_text "ed25519"; key_id := mk_text (signing_key_id k);
                         value := hex_encode (ed_sign (secret k) (digest_bytes (digest r))) |} |}.
Proof.
  unfold sign_report, certifiable. rewrite <- no_bare_claims. split.
  - intros Hs. apply bind_Ok in Hs as (d & Hd & Hs).
    destruct (negb _) eqn:E1 in Hs; [done|]. split_bools. subst d.
    destruct (truncated r); [done|]. destruct (any _ _); [done|].
    cbn [bounded_text_new] in Hs. apply bind_Ok in Hs as (a & [= <-] & Hs).
    apply bind_Ok in Hs as (ki & Hki & [= <-]). apply map_err_Ok, bounded_text_new_ok in Hki as [-> Hwf].
    by split_and!.
  - intros ((Hd & Ht & Ha) & Hk & ->). rewrite Hd. cbn [mbind result_bind].
    rewrite bool_decide_eq_true_2 by done. cbn [negb]. rewrite Ht, Ha.
    change (map_err Id (bounded_text_new "ed25519")) with (@Ok VerificationError _ (mk_text "ed25519")).
    cbn [mbind result_bind].
    by rewrite (bounded_text_new_text (mk_text (signing_key_id k)) Hk : bounded_text_new (signing_key_id k) = _).
Qed.
End Verification.

(** * Properties *)

(** the digest-equality verifier reports exactly when it has a node budget, the
    contract is untampered, its own names are valid texts and a matching candidate
    comes with evidence; the report then holds one claim, proven if and only if the
    digests agree, cites all the evidence and can be certified. *)
Theorem digest_verifier_reports
  `{UuidLib, Sha256, !ToValue Contract.UnsignedContract, !ToValue UnsignedReport} id v c x ev b r :
  verify id v c x ev b = Ok r ->
  (1 <= Budget.max_nodes b /\ Contract.compute_digest c = Ok (Contract.digest c) /\
   (matching c x -> roots ev <> []) /\ wf_text (oracle_id r) /\ wf_text (oracle_version r)) /\
  (exists k, claims r = [k] /\ evidence k = roots ev /\
     (status k = Proven <-> matching c x) /\ (status k = Falsified <-> ~ matching c x)) /\
  certifiable r.
Proof.
  unfold verify, matching. destruct (_ <? _) eqn:E1; [done|]. intros Hv.
  apply bind_Ok in Hv as (d & Hd%map_err_Ok & Hv).
  destruct (negb _) eqn:E2 in Hv; [done|]. destruct (_ && _) eqn:E3 in Hv; [done|]. split_bools. subst d.
  apply bind_Ok in Hv as (st & _ & Hv). apply bind_Ok in Hv as (oi & Hoi%map_err_Ok & Hv).
  apply bind_Ok in Hv as (ov & Hov%map_err_Ok & Hv).
  apply bounded_text_new_wf in Hoi as [_ Hoi], Hov as [_ Hov].
  apply report_bound in Hv as [Hr Hc]. unfold certifiable. rewrite Hc. rewrite Hr.
  cbn [with_digest claims truncated oracle_id oracle_version digest].
  destruct (decide (DigestCandidate.digest x = Contract.digest c)) as [Hm|Hm].
  - rewrite (bool_decide_eq_true_2 _ Hm) in *.
    rewrite (bool_decide_eq_true_2 (Proven = Proven) eq_refl) in E3. cbn [andb] in E3. split_bools.
    split_and!; try done; [eexists; split; [reflexivity|]; cbn; by split_and!|by repeat constructor].
  - rewrite (bool_decide_eq_false_2 _ Hm) in *.
    split_and!; try done; [eexists; split; [reflexivity|]; cbn; by split_and!|by repeat constructor].
Qed.

(** A report is certified exactly when its digest is bound, it is not truncated
    and every proven claim cites evidence; the certificate verifies under the
    signer's key against that report, and any report it verifies against carries the
    same digest, freshly recomputed. *)
Theorem certificate_binds_report
  `{UuidLib, Sha256, HexLaws, Ed25519Laws, !ToValue UnsignedReport} id r k :
  wf_text (mk_text (signing_key_id k)) ->
  ((exists c, sign_report id r k = Ok c) <-> certifiable r) /\
  forall c, sign_report id r k = Ok c ->
    verify_certificate r c (ed_public (secret k)) = Ok () /\
    forall r' pk, verify_certificate r' c pk = Ok () ->
      digest r' = digest r /\ compute_digest r' = Ok (digest r).
Proof.
  intros Hk. split.
  - split; [by intros (c & (Hc & _)%sign_report_iff)|]. intros Hc. eexists. by apply sign_report_iff.
  - intros c ((Hd & _) & _ & ->)%sign_report_iff. split.
    + unfold verify_certificate. rewrite Hd. cbn [mbind result_bind report_digest signature algorithm value as_text].
      rewrite !bool_decide_eq_true_2 by done. cbn [negb].
      rewrite (hex_decode_encode (ed_sign (secret k) (digest_bytes (digest r)))) by apply ed_sign_bytes.
      cbn [ok_or mbind result_bind].
      rewrite (proj2 (try_into_array_Some 64 _ (ed_sign (secret k) (digest_bytes (digest r)))))
        by (split; [done|apply ed_sign_length]).
      cbn [ok_or mbind result_bind]. rewrite ed_public_ok. cbn [negb]. by rewrite ed_verify_sign.
    + intros r' pk Hv. unfold verify_certificate in Hv. apply bind_Ok in Hv as (d & Hd' & Hv).
      destruct (negb _) eqn:E1 in Hv; [done|]. destruct (negb _) eqn:E2 in Hv; [done|].
      cbn [report_digest] in E2. split_bools. subst d. by rewrite <- E2 in *.
Qed.

(** * Witnesses *)
Module VerificationWitness.
#[local] Existing Instances Toy.sha Toy.hexi Toy.ed Toy.uuid Toy.hex_laws Toy.ed_laws.

#[local] Instance serialise_contract : ToValue Contract.UnsignedContract :=
  fun u => Some (String (as_text (Contract.u_version u))).
#[local] Instance serialise_report : ToValue UnsignedReport :=
  fun u => Some (Array [String (as_text (u_oracle_id u)); Number (PosInt (vec_len (u_claims u)))]).

Definition key : SigningKey := {| signing_key_id := "k"; secret := [5; 6] |}.
Definition id1 : @Uuid Toy.uuid := "u1".

Definition contract : result Contract.ContractError Contract.ContractV1 :=
  Contract.new id1 "v1" None Backward [].

Definition report : result VerificationError VerificationReport :=
  c ← map_err Contract contract;
  verify id1 {| DigestEqualityVerifier.oracle_id := "digest"; DigestEqualityVerifier.oracle_version := "1" |}
    c {| DigestCandidate.digest := Contract.digest c |} {| roots := [digest_sha256 [1]] |} Budget.standard.

Example digest_verifier_reports_witness :
  exists r, report = Ok r /\ certifiable r /\ (exists k, claims r = [k] /\ status k = Proven).
Proof.
  destruct report as [r|] eqn:E; [|vm_compute in E; discriminate E].
  exists r. split; [reflexivity|]. unfold report in E.
  destruct contract as [c|] eqn:Ec; [|vm_compute in Ec; discriminate Ec]. cbn [map_err mbind result_bind] in E.
  apply digest_verifier_reports in E as (_ & (k & Hk & _ & Hs & _) & Hcert).
  split; [exact Hcert|]. exists k. split; [exact Hk|]. by apply Hs.
Defined.

Example certificate_binds_report_witness :
  exists r c, report = Ok r /\ sign_report id1 r key = Ok c /\
  verify_certificate r c (ed_public (secret key)) = Ok ().
Proof.
  destruct report as [r|] eqn:E; [|vm_compute in E; discriminate E].
  destruct (sign_report id1 r key) as [c|] eqn:Es.
  2:{ exfalso. vm_compute in E. injection E as <-. vm_compute in Es. discriminate Es. }
  exists r, c. split; [reflexivity|]. split; [exact Es|].
  apply (certificate_binds_report id1 r key); [split; reflexivity || (vm_compute; discriminate)|exact Es].
Defined.
End VerificationWitness.
