(* ===== verification/Semantic.v ===== *)
(** crates/anasemble-semantic: canonical snapshots of a labelled graph and the
    deterministic diff between two of them. *)
From S2P Require Import Prelude External Json Core Cbor.

Definition SCHEMA_VERSION : Z := 1.

Inductive SemanticError :=
| Core (e : CoreError)
| Id (e : IdError)
| Protocol (message : string)
| BudgetExhausted.

#[export] Instance SemanticError_eq_dec : EqDecision SemanticError.
Proof. solve_decision. Defined.

Record DiffPolicy := { detect_moves : bool }.

(** [impl Default for DiffPolicy] *)
Definition default_policy : DiffPolicy := {| detect_moves := true |}.

Module Node.
Record SemanticNode := { id : BoundedText; kind : BoundedText; digest : Digest }.

#[global] Instance SemanticNode_eq_dec : EqDecision SemanticNode.
Proof. solve_decision. Defined.
End Node.
Abbreviation SemanticNode := Node.SemanticNode.

Module Edge.
Record SemanticEdge := { from : BoundedText; to : BoundedText; kind : BoundedText }.

#[global] Instance SemanticEdge_eq_dec : EqDecision SemanticEdge.
Proof. solve_decision. Defined.
End Edge.
Abbreviation SemanticEdge := Edge.SemanticEdge.

Inductive Completeness := Complete | Truncated.

#[export] Instance Completeness_eq_dec : EqDecision Completeness.
Proof. solve_decision. Defined.

Record SemanticSnapshotV1 `{UuidLib} := {
  schema_version : Z;
  snapshot_id : Uuid;
  ontology_version : BoundedText;
  subject : BoundedText;
  cut : TemporalCut;
  nodes : list SemanticNode;
  edges : list SemanticEdge;
  contracts : list Digest;
  evidence_roots : list Digest;
  completeness : Completeness;
  unknowns : list BoundedText;
  contradictions : list BoundedText;
  digest : Digest;
}.

Record UnsignedSnapshot := {
  u_schema_version : Z;
  u_ontology_version : BoundedText;
  u_subject : BoundedText;
  u_cut : TemporalCut;
  u_nodes : list SemanticNode;
  u_edges : list SemanticEdge;
  u_contracts : list Digest;
  u_evidence_roots : list Digest;
  u_completeness : Completeness;
  u_unknowns : list BoundedText;
  u_contradictions : list BoundedText;
}.

(** The unsigned view of a snapshot, with the nodes given. *)
Definition unsigned_with `{UuidLib} (nodes : list SemanticNode) (self : SemanticSnapshotV1)
  : UnsignedSnapshot :=
  {| u_schema_version := schema_version self; u_ontology_version := ontology_version self;
     u_subject := subject self; u_cut := cut self; u_nodes := nodes; u_edges := edges self;
     u_contracts := contracts self; u_evidence_roots := evidence_roots self;
     u_completeness := completeness self; u_unknowns := unknowns self;
     u_contradictions := contradictions self |}.

Definition with_digest `{UuidLib} (d : Digest) (s : SemanticSnapshotV1) : SemanticSnapshotV1 :=
  {| schema_version := schema_version s; snapshot_id := snapshot_id s;
     ontology_version := ontology_version s; subject := subject s; cut := cut s; nodes := nodes s;
     edges := edges s; contracts := contracts s; evidence_roots := evidence_roots s;
     completeness := completeness s; unknowns := unknowns s; contradictions := contradictions s;
     digest := d |}.

Module Graph.
Record SemanticGraph := {
  nodes : btree_map string (string * Digest);
  edges : list (string * string * string);
  contracts : list Digest;
  evidence_roots : list Digest;
  unknowns : list string;
  contradictions : list string;
}.
End Graph.

Module GraphSnapshotter.
Record GraphSnapshotter := { ontology_version : BoundedText; subject : BoundedText }.
End GraphSnapshotter.

Inductive DiffOpKind :=
| Add | Remove | Modify | Move | Rebind | Split | Merge | ContractChange | UnknownOp.

#[export] Instance DiffOpKind_eq_dec : EqDecision DiffOpKind.
Proof. solve_decision. Defined.

Module Op.
Record DiffOperation := {
  kind : DiffOpKind;
  entity_id : BoundedText;
  before : option Digest;
  after : option Digest;
  compatibility : CompatibilityClass;
  evidence : list Digest;
}.

#[global] Instance DiffOperation_eq_dec : EqDecision DiffOperation.
Proof. solve_decision. Defined.
End Op.
Abbreviation DiffOperation := Op.DiffOperation.

Record SemanticDiff `{UuidLib} := {
  diff_schema_version : Z;
  diff_id : Uuid;
  before_digest : Digest;
  after_digest : Digest;
  operations : list DiffOperation;
  diff_digest : Digest;
}.

Record UnsignedDiff := {
  ud_schema_version : Z;
  ud_before_digest : Digest;
  ud_after_digest : Digest;
  ud_operations : list DiffOperation;
}.

Definition op_rank (kind : DiffOpKind) : Z :=
  match kind with
  | Remove => 0 | Add => 1 | Modify => 2 | Move => 3 | Rebind => 4 | Split => 5 | Merge => 6
  | ContractChange => 7 | UnknownOp => 8
  end.

(** The nodes by id; a later node replaces an earlier one of the same id. *)
Definition nodes_by_id (nodes : list SemanticNode) : btree_map string SemanticNode :=
  bt_from_list ((fun node => (as_text (Node.id node), node)) <$> nodes).

(** * Moves *)

(** [operations.iter().enumerate()] *)
Definition enumerate {A} (l : list A) : list (nat * A) := imap pair l.

Record moving := {
  used_adds : gset nat;
  drop_set : gset nat;
  moves : list DiffOperation;
}.

(** The body of the loop of [classify_moves]. *)
Definition classify_move (operations : list DiffOperation) (st : moving) (item : nat * DiffOperation)
  : moving :=
  let '(remove_idx, op) := item in
  if negb (bool_decide (Op.kind op = Remove)) then st else
  match Op.before op with
  | None => st
  | Some digest =>
      match find (fun ia => bool_decide (Op.kind ia.2 = Add) && bool_decide (Op.after ia.2 = Some digest)
                            && negb (bool_decide (ia.1 ∈ used_adds st))) (enumerate operations) with
      | None => st
      | Some (add_idx, add) =>
          {| used_adds := {[add_idx]} ∪ used_adds st;
             drop_set := {[add_idx]} ∪ ({[remove_idx]} ∪ drop_set st);
             moves := moves st ++
               [{| Op.kind := Move; Op.entity_id := Op.entity_id add; Op.before := Op.before op;
                   Op.after := Op.after add; Op.compatibility := Backward;
                   Op.evidence := Op.evidence add |}] |}
      end
  end.

Definition classify_moves (operations : list DiffOperation) : list DiffOperation :=
  let st := foldl (classify_move operations) {| used_adds := ∅; drop_set := ∅; moves := [] |}
                  (enumerate operations) in
  if bool_decide (moves st = []) then operations else
  (List.filter (fun item => negb (bool_decide (item.1 ∈ drop_set st))) (enumerate operations)).*2 ++ moves st.

Section Semantic.
Context `{UuidLib, Sha256, Hex, !ToValue UnsignedSnapshot, !ToValue UnsignedDiff}.

Definition compute_digest (self : SemanticSnapshotV1) : result SemanticError Digest :=
  bytes ← map_err Core (encode_canonical_cbor (unsigned_with (nodes self) self));
  Ok (digest_sha256 bytes).

Definition text (value : string) : result SemanticError BoundedText :=
  map_err Id (bounded_text_new value).

(** [u32::try_from(..).unwrap_or(u32::MAX)] *)
Definition saturate_u32 (n : Z) : Z := if n <=? u32_max then n else u32_max.

(** [id] is the identifier drawn by [SnapshotId::generate]. *)
Definition snapshot (id : Uuid) (self : GraphSnapshotter.GraphSnapshotter) (input : Graph.SemanticGraph)
  (cut : TemporalCut) (budget : Budget.Budget) : result SemanticError SemanticSnapshotV1 :=
  if str_is_empty (valid_at cut) || str_is_empty (system_as_of cut)
  then Err (Protocol "temporal cut is incomplete") else
  let node_count := saturate_u32 (vec_len (Graph.nodes input)) in
  let edge_count := saturate_u32 (vec_len (Graph.edges input)) in
  if Budget.would_exceed budget node_count edge_count 1 1 then Err BudgetExhausted else
  nodes ← collect_results (fun entry : string * (string * Digest) =>
            id ← text entry.1; kind ← text entry.2.1;
            Ok {| Node.id := id; Node.kind := kind; Node.digest := entry.2.2 |}) (Graph.nodes input);
  let nodes := sort_by_key (fun a => as_text (Node.id a)) nodes in
  edges ← collect_results (fun edge : string * string * string =>
            from ← text edge.1.1; to ← text edge.1.2; kind ← text edge.2;
            Ok {| Edge.from := from; Edge.to := to; Edge.kind := kind |}) (Graph.edges input);
  let edges := sort_by_key (fun a => (as_text (Edge.from a), (as_text (Edge.to a), as_text (Edge.kind a)))) edges in
  unknowns ← collect_results text (Graph.unknowns input);
  let unknowns := sort_by_key as_text unknowns in
  contradictions ← collect_results text (Graph.contradictions input);
  let contradictions := sort_by_key as_text contradictions in
  let contracts := sort_by_key to_hex (Graph.contracts input) in
  let evidence_roots := sort_by_key to_hex (Graph.evidence_roots input) in
  let snapshot :=
    {| schema_version := SCHEMA_VERSION; snapshot_id := id;
       ontology_version := GraphSnapshotter.ontology_version self;
       subject := GraphSnapshotter.subject self; Semantic.cut := cut; Semantic.nodes := nodes;
       Semantic.edges := edges; Semantic.contracts := contracts;
       Semantic.evidence_roots := evidence_roots; completeness := Complete;
       Semantic.unknowns := unknowns; Semantic.contradictions := contradictions;
       digest := digest_sha256 [] |} in
  digest ← compute_digest snapshot;
  Ok (with_digest digest snapshot).

Definition removed_or_modified (after : SemanticSnapshotV1) (after_nodes : btree_map string SemanticNode)
  (entry : string * SemanticNode) : option DiffOperation :=
  let node := entry.2 in
  match bt_get entry.1 after_nodes with
  | None => Some {| Op.kind := Remove; Op.entity_id := Node.id node; Op.before := Some (Node.digest node);
                    Op.after := None; Op.compatibility := CompatUnknown; Op.evidence := evidence_roots after |}
  | Some next =>
      if negb (bool_decide (Node.digest next = Node.digest node))
      then Some {| Op.kind := Modify; Op.entity_id := Node.id node; Op.before := Some (Node.digest node);
                   Op.after := Some (Node.digest next); Op.compatibility := CompatUnknown;
                   Op.evidence := evidence_roots after |}
      else None
  end.

Definition added (after : SemanticSnapshotV1) (before_nodes : btree_map string SemanticNode)
  (entry : string * SemanticNode) : option DiffOperation :=
  if negb (bt_mem entry.1 before_nodes)
  then Some {| Op.kind := Add; Op.entity_id := Node.id entry.2; Op.before := None;
               Op.after := Some (Node.digest entry.2); Op.compatibility := CompatUnknown;
               Op.evidence := evidence_roots after |}
  else None.

(** The operations of [diff], before they are sorted. *)
Definition diff_operations (before after : SemanticSnapshotV1) (policy : DiffPolicy)
  : result SemanticError (list DiffOperation) :=
  let before_nodes := nodes_by_id (nodes before) in
  let after_nodes := nodes_by_id (nodes after) in
  let operations := omap (removed_or_modified after after_nodes) before_nodes
                    ++ omap (added after before_nodes) after_nodes in
  let operations := if detect_moves policy then classify_moves operations else operations in
  if negb (bool_decide (contracts before = contracts after))
  then entity_id ← text "contracts";
       Ok (operations ++
           [{| Op.kind := ContractChange; Op.entity_id := entity_id; Op.before := head (contracts before);
               Op.after := head (contracts after); Op.compatibility := CompatUnknown;
               Op.evidence := evidence_roots after |}])
  else Ok operations.

Definition bind_diff (self : SemanticDiff) : result SemanticError SemanticDiff :=
  bytes ← map_err Core (encode_canonical_cbor
    {| ud_schema_version := diff_schema_version self; ud_before_digest := before_digest self;
       ud_after_digest := after_digest self; ud_operations := operations self |});
  Ok {| diff_schema_version := diff_schema_version self; diff_id := diff_id self;
        before_digest := before_digest self; after_digest := after_digest self;
        operations := operations self; diff_digest := digest_sha256 bytes |}.

(** [id] is the identifier drawn by [DiffId::generate]. *)
Definition diff (id : Uuid) (before after : SemanticSnapshotV1) (policy : DiffPolicy)
  : result SemanticError SemanticDiff :=
  b ← compute_digest before;
  mismatch ← (if negb (bool_decide (b = digest before)) then Ok true else
              a ← compute_digest after; Ok (negb (bool_decide (a = digest after))));
  if (mismatch : bool) then Err (Protocol "snapshot digest mismatch") else
  operations ← diff_operations before after policy;
  let operations := sort_by_key (fun a => (op_rank (Op.kind a), as_text (Op.entity_id a))) operations in
  bind_diff {| diff_schema_version := SCHEMA_VERSION; diff_id := id; before_digest := digest before;
               after_digest := digest after; Semantic.operations := operations;
               diff_digest := digest_sha256 [] |}.

Definition independent_snapshot_digest (snapshot : SemanticSnapshotV1) : result SemanticError Digest :=
  let rebuilt := (nodes_by_id (nodes snapshot)).*2 in
  bytes ← map_err Core (encode_canonical_cbor (unsigned_with rebuilt snapshot));
  Ok (digest_sha256 bytes).

Definition independent_diff_digest (diff : SemanticDiff) : result SemanticError Digest :=
  bytes ← map_err Core (encode_canonical_cbor
    {| ud_schema_version := diff_schema_version diff; ud_before_digest := before_digest diff;
       ud_after_digest := after_digest diff; ud_operations := operations diff |});
  Ok (digest_sha256 bytes).
End Semantic.

(** * Operations as a patch *)

(** The payload digest of each entity. *)
Definition view `{UuidLib} (s : SemanticSnapshotV1) (x : string) : option Digest :=
  Node.digest <$> bt_get x (nodes_by_id (nodes s)).

(** The operations that say what an entity becomes. *)
Definition is_node_op (op : DiffOperation) : bool :=
  match Op.kind op with Add | Remove | Modify | Move => true | _ => false end.

Definition apply_op (f : string -> option Digest) (op : DiffOperation) : string -> option Digest :=
  fun x => if is_node_op op && bool_decide (x = as_text (Op.entity_id op)) then Op.after op else f x.

Definition patch (ops : list DiffOperation) (f : string -> option Digest) : string -> option Digest :=
  foldl apply_op f ops.

(** The operations of a list that are about entity [x]. *)
Definition about (x : string) (op : DiffOperation) : Prop :=
  is_node_op op = true /\ as_text (Op.entity_id op) = x.

Lemma patch_untouched ops f x :
  (forall op, op ∈ ops -> ~ about x op) -> patch ops f x = f x.
Proof.
  unfold patch. induction ops as [|op ops IH] using rev_ind; intros Hno; [done|].
  rewrite foldl_app. cbn [foldl]. unfold apply_op at 1.
  destruct (is_node_op op && _) eqn:E.
  - split_bools. exfalso. apply (Hno op); [set_solver|]. by subst.
  - apply IH. intros op' Hop'. apply Hno. set_solver.
Qed.

Lemma patch_touched ops f x v :
  (forall op, op ∈ ops -> about x op -> Op.after op = v) ->
  (exists op, op ∈ ops /\ about x op) -> patch ops f x = v.
Proof.
  unfold patch. induction ops as [|op ops IH] using rev_ind; intros Hall Hex.
  - destruct Hex as (? & Hin & _). by apply elem_of_nil in Hin.
  - rewrite foldl_app. cbn [foldl]. unfold apply_op at 1.
    destruct (is_node_op op && _) eqn:E.
    + split_bools. apply Hall; [set_solver|]. by subst.
    + apply IH.
      * intros op' Hop'. apply Hall. set_solver.
      * destruct Hex as (op' & [Hin|Hin%list_elem_of_singleton]%elem_of_app & Hab); [by exists op'|].
        subst op'. destruct Hab as [Hn Hx]. rewrite Hn, bool_decide_eq_true_2 in E by done. done.
Qed.

Section SemanticFacts.
Context `{UuidLib}.

Lemma nodes_by_id_elem l k (node : SemanticNode) :
  (k, node) ∈ nodes_by_id l -> as_text (Node.id node) = k.
Proof.
  unfold nodes_by_id. induction l as [|n l IH] using rev_ind; [by intros Hn%elem_of_nil|].
  rewrite fmap_app. cbn [fmap list_fmap]. rewrite bt_from_list_snoc.
  intros [[= -> ->]|Hin]%bt_insert_keys; [done|by apply IH].
Qed.

Lemma nodes_by_id_get l k (node : SemanticNode) :
  (k, node) ∈ nodes_by_id l <-> bt_get k (nodes_by_id l) = Some node.
Proof. symmetry. apply bt_get_elem, bt_from_list_sorted. Qed.

(** The node operations of two snapshots, one per entity whose digest differs. *)
Definition node_operations (b a : SemanticSnapshotV1) : list DiffOperation :=
  omap (removed_or_modified a (nodes_by_id (nodes a))) (nodes_by_id (nodes b))
  ++ omap (added a (nodes_by_id (nodes b))) (nodes_by_id (nodes a)).

Lemma node_operations_after b a x op :
  op ∈ node_operations b a -> about x op -> Op.after op = view a x.
Proof.
  unfold node_operations, view. intros [Hin|Hin]%elem_of_app [_ Hx].
  - apply list_elem_of_omap in Hin as ([k node] & Hin & Hop). unfold removed_or_modified in Hop.
    cbn [fst snd] in Hop. pose proof (nodes_by_id_elem _ _ _ Hin) as Hk.
    destruct (bt_get k (nodes_by_id (nodes a))) as [next|] eqn:E.
    + destruct (negb _); [|done]. injection Hop as <-. cbn in *. by rewrite <- Hx, Hk, E.
    + injection Hop as <-. cbn in *. by rewrite <- Hx, Hk, E.
  - apply list_elem_of_omap in Hin as ([k node] & Hin & Hop). unfold added in Hop. cbn [fst snd] in Hop.
    pose proof (nodes_by_id_elem _ _ _ Hin) as Hk. apply nodes_by_id_get in Hin.
    destruct (negb _); [|done]. injection Hop as <-. cbn in *. by rewrite <- Hx, Hk, Hin.
Qed.

Lemma node_operations_complete b a x :
  (forall op, op ∈ node_operations b a -> ~ about x op) -> view b x = view a x.
Proof.
  unfold node_operations, view. intros Hno.
  destruct (bt_get x (nodes_by_id (nodes b))) as [n|] eqn:Eb.
  - apply nodes_by_id_get in Eb as Hin. pose proof (nodes_by_id_elem _ _ _ Hin) as Hk.
    destruct (removed_or_modified a (nodes_by_id (nodes a)) (x, n)) as [op|] eqn:Eo.
    + exfalso. apply (Hno op).
      { apply elem_of_app. left. apply list_elem_of_omap. eauto. }
      unfold removed_or_modified in Eo. cbn [fst snd] in Eo.
      destruct (bt_get x (nodes_by_id (nodes a))); [destruct (negb _); [|done]|]; by injection Eo as <-.
    + unfold removed_or_modified in Eo. cbn [fst snd] in Eo.
      destruct (bt_get x (nodes_by_id (nodes a))) as [next|]; [|done].
      destruct (negb _) eqn:Ed; [done|]. split_bools. cbn. by rewrite Ed.
  - destruct (bt_get x (nodes_by_id (nodes a))) as [n|] eqn:Ea; [|done].
    apply nodes_by_id_get in Ea as Hin. pose proof (nodes_by_id_elem _ _ _ Hin) as Hk.
    destruct (added a (nodes_by_id (nodes b)) (x, n)) as [op|] eqn:Eo.
    + exfalso. apply (Hno op).
      { apply elem_of_app. right. apply list_elem_of_omap. eauto. }
      unfold added in Eo. cbn [fst snd] in Eo. destruct (negb _); [|done]. by injection Eo as <-.
    + unfold added, bt_mem in Eo. cbn [fst snd] in Eo. by rewrite Eb in Eo.
Qed.

(** Every operation is about an entity whose digest did change. *)
Lemma node_operations_minimal b a op :
  op ∈ node_operations b a ->
  is_node_op op = true /\ view b (as_text (Op.entity_id op)) <> view a (as_text (Op.entity_id op)).
Proof.
  unfold node_operations, view. intros [Hin|Hin]%elem_of_app.
  - apply list_elem_of_omap in Hin as ([k node] & Hin & Hop). unfold removed_or_modified in Hop.
    cbn [fst snd] in Hop. pose proof (nodes_by_id_elem _ _ _ Hin) as Hk. apply nodes_by_id_get in Hin.
    destruct (bt_get k (nodes_by_id (nodes a))) as [next|] eqn:E.
    + destruct (negb _) eqn:Ed; [|done]. injection Hop as <-. split_bools. cbn.
      rewrite Hk, Hin, E. cbn. split; [done|congruence].
    + injection Hop as <-. cbn. by rewrite Hk, Hin, E.
  - apply list_elem_of_omap in Hin as ([k node] & Hin & Hop). unfold added, bt_mem in Hop.
    cbn [fst snd] in Hop. pose proof (nodes_by_id_elem _ _ _ Hin) as Hk. apply nodes_by_id_get in Hin.
    destruct (bt_get k (nodes_by_id (nodes b))) eqn:E; [done|]. injection Hop as <-.
    cbn. by rewrite Hk, Hin, E.
Qed.

Lemma node_operations_nil b a :
  node_operations b a = [] <-> forall x, view b x = view a x.
Proof.
  split.
  - intros Hn x. apply node_operations_complete. rewrite Hn. by intros op Hop%elem_of_nil.
  - intros Heq. destruct (node_operations b a) as [|op ops] eqn:E; [done|].
    destruct (node_operations_minimal b a op) as [_ Hne]; [rewrite E; by left|]. by destruct Hne.
Qed.

Lemma patch_correct ops f (g : string -> option Digest) x :
  (forall op, op ∈ ops -> about x op -> Op.after op = g x) ->
  ((forall op, op ∈ ops -> ~ about x op) -> f x = g x) -> patch ops f x = g x.
Proof.
  intros Hafter Hnone. destruct (decide (Exists (about x) ops)) as [Hex|Hno].
  - apply patch_touched; [done|]. by apply Exists_exists.
  - assert (forall op, op ∈ ops -> ~ about x op) as Hall
      by (intros op Hin Hab; apply Hno, Exists_exists; eauto).
    rewrite patch_untouched by done. by apply Hnone.
Qed.

Lemma foldl_moves_nil ops st : foldl (classify_move ops) st [] = st.
Proof. done. Qed.

Lemma classify_moves_nil ops : classify_moves ops = [] <-> ops = [].
Proof.
  unfold classify_moves. case_bool_decide as Hm; [done|]. split.
  - intros Happ. apply app_nil in Happ as [_ Hn]. done.
  - intros ->. done.
Qed.

Context `{Sha256, !ToValue UnsignedSnapshot, !ToValue UnsignedDiff}.

Lemma diff_operations_nil b a p ops :
  diff_operations b a p = Ok ops ->
  ops = [] <-> (forall x, view b x = view a x) /\ contracts b = contracts a.
Proof.
  unfold diff_operations. fold (node_operations b a).
  assert ((if detect_moves p then classify_moves (node_operations b a) else node_operations b a) = []
          <-> forall x, view b x = view a x) as Hnil.
  { rewrite <- node_operations_nil. destruct (detect_moves p); [apply classify_moves_nil|done]. }
  destruct (decide (contracts b = contracts a)) as [Hc|Hc].
  - rewrite bool_decide_eq_true_2 by done. cbn [negb]. intros [= <-]. rewrite Hnil. tauto.
  - rewrite bool_decide_eq_false_2 by done. cbn [negb]. intros Ho.
    apply bind_Ok in Ho as (t & _ & [= <-]). split; [|by intros [_ ?]].
    intros Happ. by apply app_nil in Happ as [_ ?].
Qed.

Lemma diff_ok id b a p d :
  diff id b a p = Ok d ->
  compute_digest b = Ok (digest b) /\ compute_digest a = Ok (digest a) /\
  before_digest d = digest b /\ after_digest d = digest a /\
  independent_diff_digest d = Ok (diff_digest d) /\
  exists ops, diff_operations b a p = Ok ops /\ operations d ≡ₚ ops.
Proof.
  unfold diff. intros Hd. apply bind_Ok in Hd as (db & Hb & Hd). apply bind_Ok in Hd as (mm & Hmm & Hd).
  destruct mm; [done|]. destruct (negb _) eqn:Eb in Hmm; [done|].
  apply bind_Ok in Hmm as (da & Ha & [= Hea]). split_bools. subst db da.
  apply bind_Ok in Hd as (ops & Hops & Hd). unfold bind_diff in Hd.
  apply bind_Ok in Hd as (bytes & Hbytes & [= <-]).
  unfold independent_diff_digest.
  cbn [before_digest after_digest operations diff_digest diff_schema_version] in *. rewrite Hbytes.
  split_and!; try done. exists ops. split; [done|]. apply sort_by_key_perm.
Qed.
End SemanticFacts.

(** * Properties *)

(** With move detection off, the operations are a patch: applied to the digests
    of the first snapshot, by entity, they give those of the second, in the order
    they are listed; the diff names the two snapshots by their verified digests and
    its own digest can be recomputed. *)
Theorem diff_patches `{UuidLib, Sha256, !ToValue UnsignedSnapshot, !ToValue UnsignedDiff} id b a p d :
  detect_moves p = false -> diff id b a p = Ok d ->
  (forall x, patch (operations d) (view b) x = view a x) /\
  (compute_digest b = Ok (before_digest d) /\ compute_digest a = Ok (after_digest d)) /\
  independent_diff_digest d = Ok (diff_digest d).
Proof.
  intros Hp Hd. apply diff_ok in Hd as (Hb & Ha & -> & -> & Hind & ops & Hops & Hperm).
  split_and!; try done. intros x. unfold diff_operations in Hops. fold (node_operations b a) in Hops.
  rewrite Hp in Hops.
  assert (forall op, op ∈ ops -> about x op -> op ∈ node_operations b a) as Hin.
  { destruct (negb _) in Hops; [|by injection Hops as <-].
    apply bind_Ok in Hops as (t & _ & [= <-]).
    intros op [Hop|Hop%list_elem_of_singleton]%elem_of_app; [done|]. subst op. by intros [? _]. }
  assert (forall op, op ∈ node_operations b a -> op ∈ ops) as Hsub.
  { destruct (negb _) in Hops; [|by injection Hops as <-].
    apply bind_Ok in Hops as (t & _ & [= <-]). intros op Hop. apply elem_of_app. by left. }
  apply patch_correct.
  - intros op Hop Hab. rewrite Hperm in Hop. apply (node_operations_after b a x); [|done]. by apply Hin.
  - intros Hno. apply node_operations_complete. intros op Hop. apply Hno. rewrite Hperm. by apply Hsub.
Qed.

(** whatever the policy, the diff is empty exactly when every entity has the
    same digest in both snapshots and their contracts agree; edges, entity kinds,
    unknowns and contradictions do not show in it. *)
Theorem diff_empty_iff `{UuidLib, Sha256, !ToValue UnsignedSnapshot, !ToValue UnsignedDiff} id b a p d :
  diff id b a p = Ok d ->
  operations d = [] <-> (forall x, view b x = view a x) /\ contracts b = contracts a.
Proof.
  intros Hd. apply diff_ok in Hd as (_ & _ & _ & _ & _ & ops & Hops & Hperm).
  rewrite <- (diff_operations_nil b a p ops Hops). split.
  - intros Hn. rewrite Hn in Hperm. by apply Permutation_nil_l in Hperm.
  - intros ->. by apply Permutation_nil_r in Hperm.
Qed.

(** * Witnesses *)
Module SemanticWitness.
#[local] Existing Instances Toy.sha Toy.uuid.

#[local] Instance serialise_snapshot : ToValue UnsignedSnapshot :=
  fun u => Some (Array ((fun n => String (as_text (Node.id n))) <$> u_nodes u)).
#[local] Instance serialise_diff : ToValue UnsignedDiff :=
  fun u => Some (Number (PosInt (vec_len (ud_operations u)))).

Definition id1 : @Uuid Toy.uuid := "u1".
Definition payload (n : Z) : Digest := digest_sha256 [n].
Definition t (s : string) : BoundedText := mk_text s.

Definition snapshot_of (l : list SemanticNode) : SemanticSnapshotV1 :=
  let raw := {| schema_version := 1; snapshot_id := id1; ontology_version := t "o"; subject := t "s";
                cut := {| valid_at := "2026"; system_as_of := "2026" |}; nodes := l; edges := [];
                contracts := []; evidence_roots := []; completeness := Complete; unknowns := [];
                contradictions := []; digest := payload 0 |} in
  match compute_digest raw with Ok d => with_digest d raw | Err _ => raw end.

Definition node (s : string) (n : Z) : SemanticNode :=
  {| Node.id := t s; Node.kind := t "k"; Node.digest := payload n |}.

(** [a] goes, [b] changes, [c] comes. *)
Definition first : SemanticSnapshotV1 := snapshot_of [node "a" 1; node "b" 2].
Definition second : SemanticSnapshotV1 := snapshot_of [node "b" 3; node "c" 4].

Example diff_patches_witness :
  exists d, diff id1 first second {| detect_moves := false |} = Ok d /\ length (operations d) = 3%nat /\
  patch (operations d) (view first) "c" = Some (payload 4).
Proof.
  destruct (diff id1 first second {| detect_moves := false |}) as [d|] eqn:E; [|vm_compute in E; discriminate E].
  destruct (diff_patches id1 first second {| detect_moves := false |} d eq_refl E) as [Hpatch _].
  exists d. split; [reflexivity|]. split.
  - vm_compute in E. injection E as <-. reflexivity.
  - rewrite Hpatch. vm_compute. reflexivity.
Defined.

Example diff_empty_iff_witness :
  exists d, diff id1 first first default_policy = Ok d /\ operations d = [].
Proof.
  destruct (diff id1 first first default_policy) as [d|] eqn:E; [|vm_compute in E; discriminate E].
  exists d. split; [reflexivity|]. apply (diff_empty_iff id1 first first default_policy d E).
  split; [intros x; exact eq_refl|exact eq_refl].
Defined.
End SemanticWitness.
