(* ===== verification/Fragments.v ===== *)
(** src/fragments.rs: signed fragments, issuer policies, and the collection of a set
    of fragments into evidence: authentication, duplicate and equivocation checks,
    dependency closure and acyclicity, quorum of failure domains.  Files and the
    random generator are not modelled. *)
From S2P Require Import Prelude External Json Core Model Canonical.

Inductive FragmentKind := Contract | Trace | StateSchema | MetamorphicProperty | NegativeCase.

#[export] Instance FragmentKind_eq_dec : EqDecision FragmentKind.
Proof. solve_decision. Defined.

Module SigningKeyFile.
Record SigningKeyFile := {
  version : string;
  key_id : string;
  secret_key_hex : string;
  public_key_hex : string;
  created_at : string;
}.
End SigningKeyFile.

Module Envelope.
Record Envelope := {
  kind : FragmentKind;
  component : string;
  interface_version : string;
  issuer : string;
  failure_domain : string;
  issued_at : string;
  sequence : Z;
  content_digest : string;
  dependencies : list string;
  content : FragmentContent.FragmentContent;
  signature : string;
}.

#[global] Instance Envelope_eq_dec : EqDecision Envelope.
Proof. solve_decision. Defined.
End Envelope.

Record UnsignedEnvelope := {
  u_kind : FragmentKind;
  u_component : string;
  u_interface_version : string;
  u_issuer : string;
  u_failure_domain : string;
  u_issued_at : string;
  u_sequence : Z;
  u_content_digest : string;
  u_dependencies : list string;
  u_content : FragmentContent.FragmentContent;
}.

Definition unsigned (self : Envelope.Envelope) : UnsignedEnvelope :=
  {| u_kind := Envelope.kind self; u_component := Envelope.component self;
     u_interface_version := Envelope.interface_version self; u_issuer := Envelope.issuer self;
     u_failure_domain := Envelope.failure_domain self; u_issued_at := Envelope.issued_at self;
     u_sequence := Envelope.sequence self; u_content_digest := Envelope.content_digest self;
     u_dependencies := Envelope.dependencies self; u_content := Envelope.content self |}.

(** The assignments of [sign] and [sign_ed25519]. *)
Definition with_content_digest (d : string) (e : Envelope.Envelope) : Envelope.Envelope :=
  {| Envelope.kind := Envelope.kind e; Envelope.component := Envelope.component e;
     Envelope.interface_version := Envelope.interface_version e;
     Envelope.issuer := Envelope.issuer e; Envelope.failure_domain := Envelope.failure_domain e;
     Envelope.issued_at := Envelope.issued_at e; Envelope.sequence := Envelope.sequence e;
     Envelope.content_digest := d; Envelope.dependencies := Envelope.dependencies e;
     Envelope.content := Envelope.content e; Envelope.signature := Envelope.signature e |}.
Definition with_signature (s : string) (e : Envelope.Envelope) : Envelope.Envelope :=
  {| Envelope.kind := Envelope.kind e; Envelope.component := Envelope.component e;
     Envelope.interface_version := Envelope.interface_version e;
     Envelope.issuer := Envelope.issuer e; Envelope.failure_domain := Envelope.failure_domain e;
     Envelope.issued_at := Envelope.issued_at e; Envelope.sequence := Envelope.sequence e;
     Envelope.content_digest := Envelope.content_digest e;
     Envelope.dependencies := Envelope.dependencies e;
     Envelope.content := Envelope.content e; Envelope.signature := s |}.

Module Ed25519KeyPolicy.
Record Ed25519KeyPolicy := {
  key_id : string;
  public_key : string;
  not_before : string;
  not_after : string;
  revoked_at : option string;
}.
End Ed25519KeyPolicy.

Module LegacyHmacPolicy.
Record LegacyHmacPolicy := { hmac_sha256_key : string; failure_domain : string }.
End LegacyHmacPolicy.

Module Ed25519IssuerPolicy.
Record Ed25519IssuerPolicy := {
  failure_domain : string;
  minimum_sequence : Z;
  keys : list Ed25519KeyPolicy.Ed25519KeyPolicy;
}.
End Ed25519IssuerPolicy.

Inductive IssuerPolicy :=
| LegacyHmac (policy : LegacyHmacPolicy.LegacyHmacPolicy)
| Ed25519Policy (policy : Ed25519IssuerPolicy.Ed25519IssuerPolicy).

Definition failure_domain (self : IssuerPolicy) : string :=
  match self with
  | LegacyHmac policy => LegacyHmacPolicy.failure_domain policy
  | Ed25519Policy policy => Ed25519IssuerPolicy.failure_domain policy
  end.

Record VerificationAudit := {
  audit_issuer : string;
  audit_key_id : string;
  audit_sequence : Z;
  audit_content_digest : string;
  decision : string;
}.

Record CollectedEvidence := {
  envelopes : list Envelope.Envelope;
  domains : list string;
  audit : list VerificationAudit;
}.

(** * Keys and times *)

Definition key_id_byte (byte : Z) : bool :=
  is_ascii_alphanumeric byte || contains byte (bytes_of_string "._-").

Definition validate_key_id (value : string) : result Error () :=
  if str_is_empty value || (64 <? str_len value) || negb (all key_id_byte (bytes_of_string value))
  then Err (InvalidRegistry "signature key id is invalid") else Ok ().

(** [str::split] at one character: the pieces between its occurrences. *)
Fixpoint split_on (c : ascii) (s : string) : list string :=
  match s with
  | String.EmptyString => [String.EmptyString]
  | String.String d s' =>
      if Ascii.eqb c d then String.EmptyString :: split_on c s'
      else match split_on c s' with
           | [] => [String.String d String.EmptyString]
           | p :: ps => String.String d p :: ps
           end
  end.

Definition kind_matches_content (kind : FragmentKind) (content : FragmentContent.FragmentContent)
  : bool :=
  match kind, content with
  | Contract, FragmentContent.Transition _ _ _ _
  | Trace, FragmentContent.Trace _ _ _ _
  | StateSchema, FragmentContent.StatePolicy _ _
  | NegativeCase, FragmentContent.NegativeCase _ _ _
  | MetamorphicProperty, FragmentContent.MetamorphicProperty _ _ _ => true
  | _, _ => false
  end.

(** * Cycles *)

Definition graph_t : Type := btree_map string (list string).

(** The nodes on the path being visited, and those done. *)
Definition visit_state : Type := gset string * gset string.

(** [fuel] bounds the depth of the recursion, which the path never lets exceed the
    number of nodes. *)
Fixpoint visit (fuel : nat) (graph : graph_t) (node : string) (st : visit_state)
  : result (fault Error) visit_state :=
  match fuel with
  | O => Err Panics
  | S fuel =>
      if bool_decide (node ∈ st.1) then Err (Fails (InvalidEvidence "fragment dependency cycle")) else
      if bool_decide (node ∈ st.2) then Ok st else
      dependencies ← or_panic (bt_get node graph);
      st' ← for_each dependencies ({[node]} ∪ st.1, st.2) (visit fuel graph);
      Ok (st'.1 ∖ {[node]}, {[node]} ∪ st'.2)
  end.

Definition reject_cycles (graph : graph_t) : result (fault Error) () :=
  _ ← for_each graph.*1 (∅, ∅) (visit (S (length graph)) graph);
  Ok ().

(** * Operations *)

Section Fragments.
Context `{SerdeErrorText, JsonText, Sha256, Hex, Hmac, Ed25519, Jiff}.
Context `{!ToValue FragmentContent.FragmentContent, !ToValue UnsignedEnvelope}.

Definition parse_time (value label : string) : result Error Z :=
  ok_or (ts_strptime value) (InvalidRegistry (label +:+ " is invalid")).

Definition validate_signing_key (key : SigningKeyFile.SigningKeyFile) : result Error () :=
  if negb (bool_decide (SigningKeyFile.version key = "ed25519-key-v1"))
  then Err (InvalidRegistry "signing key version is invalid") else
  _ ← validate_key_id (SigningKeyFile.key_id key);
  _ ← parse_time (SigningKeyFile.created_at key) "signing key created_at";
  secret ← ok_or (hex_decode (SigningKeyFile.secret_key_hex key))
                 (InvalidRegistry "signing secret is not hex");
  secret ← ok_or (try_into_array 32 secret) (InvalidRegistry "signing secret is not 32 bytes");
  if negb (bool_decide (hex_encode (ed_public secret) = SigningKeyFile.public_key_hex key))
  then Err (InvalidRegistry "signing public key does not match its secret")
  else Ok ().

Definition secret_bytes (self : SigningKeyFile.SigningKeyFile) : result Error (list Z) :=
  _ ← validate_signing_key self;
  secret ← ok_or (hex_decode (SigningKeyFile.secret_key_hex self))
                 (InvalidRegistry "signing secret is not hex");
  ok_or (try_into_array 32 secret) (InvalidRegistry "signing secret is not 32 bytes").

(** The file [create_signing_key] writes, for the 32 random bytes it draws. *)
Definition new_signing_key (random : list Z) (key_id created_at : string)
  : result Error SigningKeyFile.SigningKeyFile :=
  _ ← validate_key_id key_id;
  _ ← parse_time created_at "signing key created_at";
  Ok {| SigningKeyFile.version := "ed25519-key-v1"; SigningKeyFile.key_id := key_id;
        SigningKeyFile.secret_key_hex := hex_encode random;
        SigningKeyFile.public_key_hex := hex_encode (ed_public random);
        SigningKeyFile.created_at := created_at |}.

Definition sign (envelope : Envelope.Envelope) (key : list Z) : result Error Envelope.Envelope :=
  d ← digest (Envelope.content envelope);
  let envelope := with_signature "" (with_content_digest d envelope) in
  bytes ← encode (unsigned envelope);
  Ok (with_signature (hex_encode (hmac_sha256 key bytes)) envelope).

Definition sign_ed25519 (envelope : Envelope.Envelope) (key_id : string) (secret_key : list Z)
  : result Error Envelope.Envelope :=
  _ ← validate_key_id key_id;
  d ← digest (Envelope.content envelope);
  let envelope := with_signature "" (with_content_digest d envelope) in
  bytes ← encode (unsigned envelope);
  Ok (with_signature
        ("ed25519:" +:+ key_id +:+ ":" +:+ hex_encode (ed_sign secret_key bytes)) envelope).

Definition sign_with_key_file (envelope : Envelope.Envelope) (key : SigningKeyFile.SigningKeyFile)
  : result Error Envelope.Envelope :=
  _ ← validate_signing_key key;
  secret ← secret_bytes key;
  sign_ed25519 envelope (SigningKeyFile.key_id key) secret.

Definition sign_detached_with_key_file (payload : list Z) (key : SigningKeyFile.SigningKeyFile)
  : result Error string :=
  _ ← validate_signing_key key;
  if bool_decide (payload = []) || (65536 <? vec_len payload)
  then Err (InvalidRegistry "detached signing payload is empty or exceeds 64 KiB") else
  secret ← secret_bytes key;
  Ok (hex_encode (ed_sign secret payload)).

(** [hex::decode(..).map_or(true, |bytes| bytes.len() != 32)] *)
Definition not_32_hex (value : string) : bool :=
  match hex_decode value with None => true | Some bytes => negb (vec_len bytes =? 32) end.

Definition validate_key_policy (key : Ed25519KeyPolicy.Ed25519KeyPolicy) : result Error () :=
  _ ← validate_key_id (Ed25519KeyPolicy.key_id key);
  if not_32_hex (Ed25519KeyPolicy.public_key key)
  then Err (InvalidRegistry "Ed25519 public key must be 32-byte hex") else
  not_before ← parse_time (Ed25519KeyPolicy.not_before key) "key not_before";
  not_after ← parse_time (Ed25519KeyPolicy.not_after key) "key not_after";
  if not_after <? not_before then Err (InvalidRegistry "key validity interval is inverted") else
  match Ed25519KeyPolicy.revoked_at key with
  | Some revoked_at => _ ← parse_time revoked_at "key revoked_at"; Ok ()
  | None => Ok ()
  end.

Definition validate_issuer_policy (policy : IssuerPolicy) : result Error () :=
  if str_is_empty (failure_domain policy)
  then Err (InvalidRegistry "issuer failure domain is empty") else
  match policy with
  | LegacyHmac policy =>
      if not_32_hex (LegacyHmacPolicy.hmac_sha256_key policy)
      then Err (InvalidRegistry "legacy issuer requires a 32-byte hex HMAC key") else Ok ()
  | Ed25519Policy policy =>
      if bool_decide (Ed25519IssuerPolicy.keys policy = [])
         || (16 <? vec_len (Ed25519IssuerPolicy.keys policy))
      then Err (InvalidRegistry "production issuer requires between 1 and 16 keys") else
      _ ← for_each (Ed25519IssuerPolicy.keys policy) (∅ : gset string) (fun key ids =>
            _ ← validate_key_policy key;
            if bool_decide (Ed25519KeyPolicy.key_id key ∈ ids)
            then Err (InvalidRegistry "issuer key ids are duplicated")
            else Ok ({[Ed25519KeyPolicy.key_id key]} ∪ ids));
      Ok ()
  end.

(** The three pieces of an Ed25519 signature text. *)
Definition signature_parts (signature : string) : result Error (string * string) :=
  match split_on ":" signature with
  | scheme :: rest =>
      if negb (bool_decide (scheme = "ed25519"))
      then Err (InvalidEvidence "production issuer requires an Ed25519 signature") else
      match rest with
      | [] => Err (InvalidEvidence "signature key id is absent")
      | [_] => Err (InvalidEvidence "signature bytes are absent")
      | [key_id; signature_hex] => Ok (key_id, signature_hex)
      | _ => Err (InvalidEvidence "signature format is invalid")
      end
  | [] => Err (InvalidEvidence "production issuer requires an Ed25519 signature")
  end.

Definition verify_ed25519 (envelope : Envelope.Envelope)
  (policy : Ed25519IssuerPolicy.Ed25519IssuerPolicy) (verification_time : option Z)
  : result Error string :=
  if Envelope.sequence envelope <? Ed25519IssuerPolicy.minimum_sequence policy
  then Err (InvalidEvidence "fragment sequence is below the issuer replay floor") else
  '(key_id, signature_hex) ← signature_parts (Envelope.signature envelope);
  key ← ok_or (find (fun key => bool_decide (Ed25519KeyPolicy.key_id key = key_id))
                    (Ed25519IssuerPolicy.keys policy))
              (InvalidEvidence "signature key is not trusted");
  _ ← validate_key_policy key;
  issued_at ← parse_time (Envelope.issued_at envelope) "fragment issued_at";
  not_before ← parse_time (Ed25519KeyPolicy.not_before key) "key not_before";
  not_after ← parse_time (Ed25519KeyPolicy.not_after key) "key not_after";
  if (issued_at <? not_before) || (not_after <? issued_at)
  then Err (InvalidEvidence "fragment was signed outside the key validity interval") else
  if match verification_time with
     | Some time => (time <? not_before) || (not_after <? time)
     | None => false
     end
  then Err (InvalidEvidence "signature key is outside its verification validity interval") else
  if bool_decide (is_Some (Ed25519KeyPolicy.revoked_at key))
  then Err (InvalidEvidence "signature key is revoked") else
  public ← ok_or (hex_decode (Ed25519KeyPolicy.public_key key))
                 (InvalidRegistry "Ed25519 public key is not hex");
  public ← ok_or (try_into_array 32 public) (InvalidRegistry "Ed25519 public key is not 32 bytes");
  if negb (ed_key_ok public) then Err (InvalidRegistry "Ed25519 public key is invalid") else
  signature_bytes ← ok_or (hex_decode signature_hex)
                          (InvalidEvidence "Ed25519 signature is not hex");
  signature ← ok_or (try_into_array 64 signature_bytes)
                    (InvalidEvidence "Ed25519 signature length is invalid");
  bytes ← encode (unsigned envelope);
  if ed_verify_strict public bytes signature then Ok key_id
  else Err (InvalidEvidence "fragment signature mismatch").

Definition verify_signature (envelope : Envelope.Envelope) (policy : IssuerPolicy)
  (verification_time : option Z) : result Error string :=
  match policy with
  | LegacyHmac policy =>
      key ← ok_or (hex_decode (LegacyHmacPolicy.hmac_sha256_key policy))
                  (InvalidRegistry "issuer key is not hex");
      key ← ok_or (try_into_array 32 key) (InvalidRegistry "issuer key is not 32 bytes");
      provided_signature ← ok_or (hex_decode (Envelope.signature envelope))
                                 (InvalidEvidence "fragment signature is not hex");
      bytes ← encode (unsigned envelope);
      if bool_decide (provided_signature = hmac_sha256 key bytes) then Ok "legacy-hmac"
      else Err (InvalidEvidence "fragment signature mismatch")
  | Ed25519Policy policy => verify_ed25519 envelope policy verification_time
  end.

(** The checks of one iteration of the loop of [collect_at] that look at the envelope
    alone; the key that signed it. *)
Definition check_envelope (trusted : btree_map string IssuerPolicy)
  (component interface_version : string) (verification_time : option Z)
  (envelope : Envelope.Envelope) : result Error string :=
  if negb (kind_matches_content (Envelope.kind envelope) (Envelope.content envelope))
  then Err (InvalidEvidence "fragment kind does not match its M0 content schema") else
  if negb (bool_decide (Envelope.component envelope = component))
     || negb (bool_decide (Envelope.interface_version envelope = interface_version))
  then Err (InvalidEvidence "fragment targets another component or interface") else
  _ ← ok_or (ts_strptime (Envelope.issued_at envelope))
            (InvalidEvidence "issued_at is not canonical RFC3339");
  policy ← ok_or (bt_get (Envelope.issuer envelope) trusted)
                 (InvalidEvidence "fragment issuer is not trusted");
  if negb (bool_decide (Envelope.failure_domain envelope = failure_domain policy))
  then Err (InvalidEvidence "fragment failure domain violates issuer policy") else
  d ← digest (Envelope.content envelope);
  if negb (bool_decide (d = Envelope.content_digest envelope))
  then Err (InvalidEvidence "fragment content digest mismatch") else
  verify_signature envelope policy verification_time.

(** The sets and the audit the loop of [collect_at] builds. *)
Record collecting := {
  identities : gset (string * Z);
  content_digests : gset string;
  seen_domains : btree_set string;
  seen_audit : list VerificationAudit;
}.

Definition accept_envelope (trusted : btree_map string IssuerPolicy)
  (component interface_version : string) (verification_time : option Z)
  (envelope : Envelope.Envelope) (st : collecting) : result Error collecting :=
  key_id ← check_envelope trusted component interface_version verification_time envelope;
  if bool_decide ((Envelope.issuer envelope, Envelope.sequence envelope) ∈ identities st)
  then Err (InvalidEvidence "fragment issuer equivocation or replay") else
  if bool_decide (Envelope.content_digest envelope ∈ content_digests st)
  then Err (InvalidEvidence "duplicate fragment content digest") else
  Ok {| identities := {[(Envelope.issuer envelope, Envelope.sequence envelope)]} ∪ identities st;
        content_digests := {[Envelope.content_digest envelope]} ∪ content_digests st;
        seen_domains := bt_insert (Envelope.failure_domain envelope) () (seen_domains st);
        seen_audit := seen_audit st ++
          [{| audit_issuer := Envelope.issuer envelope; audit_key_id := key_id;
              audit_sequence := Envelope.sequence envelope;
              audit_content_digest := Envelope.content_digest envelope;
              decision := "accepted" |}] |}.

(** Evidence is ordered by issuer, sequence and content digest. *)
Definition order_key (e : Envelope.Envelope) : string * (Z * string) :=
  (Envelope.issuer e, (Envelope.sequence e, Envelope.content_digest e)).

Definition dependency_graph (envelopes : list Envelope.Envelope) : graph_t :=
  bt_from_list ((fun item => (Envelope.content_digest item, Envelope.dependencies item)) <$> envelopes).

Definition collect_at (envelopes : list Envelope.Envelope) (trusted : btree_map string IssuerPolicy)
  (required_domains : Z) (component interface_version : string) (verification_time : option string)
  : result (fault Error) CollectedEvidence :=
  verification_time ← fails (match verification_time with
                             | Some value => t ← parse_time value "verification_time"; Ok (Some t)
                             | None => Ok None
                             end);
  st ← fails (for_each envelopes
                {| identities := ∅; content_digests := ∅; seen_domains := []; seen_audit := [] |}
                (accept_envelope trusted component interface_version verification_time));
  let graph := dependency_graph envelopes in
  if any (fun entry => any (fun item => negb (bt_mem item graph)) entry.2) graph
  then Err (Fails (InvalidEvidence "fragment dependency is unavailable")) else
  _ ← reject_cycles graph;
  if vec_len (seen_domains st) <? required_domains
  then Err (Fails (InsufficientEvidence "insufficient independent failure domains")) else
  if negb (any (fun item => bool_decide (Envelope.kind item = Contract)) envelopes)
     || negb (any (fun item => bool_decide (Envelope.kind item = StateSchema)) envelopes)
  then Err (Fails (InsufficientEvidence "contract and state schema fragments are mandatory")) else
  Ok {| envelopes := sort_by_key order_key envelopes; domains := (seen_domains st).*1;
        audit := seen_audit st |}.

Definition collect (envelopes : list Envelope.Envelope) (trusted : btree_map string IssuerPolicy)
  (required_domains : Z) (component interface_version : string)
  : result (fault Error) CollectedEvidence :=
  collect_at envelopes trusted required_domains component interface_version None.
End Fragments.

(** * Cycle detection is exact *)

Section Cycles.
Variable graph : graph_t.

Definition edge (u v : string) : Prop := exists ds, bt_get u graph = Some ds /\ v ∈ ds.

(** Every dependency is a node, and no node depends on itself through others. *)
Definition closed : Prop := forall u v, edge u v -> is_Some (bt_get v graph).
Definition acyclic : Prop := forall u, ~ tc edge u u.

Definition cycle_error : fault Error := Fails (InvalidEvidence "fragment dependency cycle").

Definition nodes : gset string := list_to_set graph.*1.

(** A set of finished nodes: closed under dependencies, and on no cycle. *)
Definition finished (V : gset string) : Prop :=
  (forall u v, u ∈ V -> edge u v -> v ∈ V) /\ (forall u, u ∈ V -> ~ tc edge u u).

(** What a visit from the path [P] and the finished set [V] to the targets [ts] gives. *)
Definition visit_result (P V : gset string) (ts : list string) (r : result (fault Error) visit_state)
  : Prop :=
  match r with
  | Ok (P', V') => P' = P /\ finished V' /\ V ⊆ V' /\ (forall t, t ∈ ts -> t ∈ V') /\ P ## V'
  | Err e => e = cycle_error /\ exists u, tc edge u u
  end.

Lemma finished_tc V u v : finished V -> u ∈ V -> tc edge u v -> v ∈ V.
Proof. intros [Hc _] Hu Htc. induction Htc; eauto. Qed.

Lemma finished_add V u :
  finished V -> u ∉ V -> (forall v, edge u v -> v ∈ V) -> finished ({[u]} ∪ V).
Proof.
  intros HV Hu Hdeps. split.
  - intros x y [->%elem_of_singleton|Hx]%elem_of_union Hxy; apply elem_of_union_r; [by apply Hdeps|].
    by apply (proj1 HV x).
  - intros x [->%elem_of_singleton|Hx]%elem_of_union Htc; [|by apply (proj2 HV x)].
    apply Hu. inversion Htc as [? ? He|? y ? He Hy]; subst; [by apply Hdeps|].
    eapply finished_tc; [done|by apply Hdeps|done].
Qed.

Lemma visit_list fuel P ts : forall V,
  (forall t V, t ∈ ts -> finished V -> P ## V -> visit_result P V [t] (visit fuel graph t (P, V))) ->
  finished V -> P ## V ->
  visit_result P V ts (for_each ts (P, V) (visit fuel graph)).
Proof.
  induction ts as [|t ts IH]; intros V Hvisit HV Hd.
  - cbn. split_and!; try done. by intros t Ht; inversion Ht.
  - cbn [for_each]. pose proof (Hvisit t V ltac:(left) HV Hd) as Ht.
    destruct (visit fuel graph t (P, V)) as [[P' V']|e]; [|exact Ht].
    destruct Ht as (-> & HV' & Hsub & Hin & Hd'). cbn [mbind result_bind].
    pose proof (IH V' (fun u W Hu => Hvisit u W ltac:(by right)) HV' Hd') as Hrest.
    destruct (for_each ts (P, V') _) as [[P'' V'']|e]; [|exact Hrest].
    destruct Hrest as (-> & HV'' & Hsub' & Hin' & Hd''). cbn. split_and!; try done; [set_solver|].
    intros u [->|Hu]%elem_of_cons; [|by apply Hin']. apply Hsub', Hin. by left.
Qed.

(** A visit finishes its node or finds a cycle; fuel above the unvisited nodes is enough. *)
Lemma visit_ok : closed -> forall fuel node P V,
  is_Some (bt_get node graph) -> P ⊆ nodes -> finished V -> P ## V ->
  (forall x, x ∈ P -> tc edge x node) -> (size (nodes ∖ P) < fuel)%nat -> bt_sorted graph ->
  visit_result P V [node] (visit fuel graph node (P, V)).
Proof.
  intros Hclosed fuel. induction fuel as [|fuel IH]; intros node P V [ds Hds] HP HV Hd Hpath Hfuel Hs; [lia|].
  cbn [visit fst snd]. case_bool_decide as Hin.
  { split; [done|]. exists node. by apply Hpath. }
  case_bool_decide as Hdone.
  { split_and!; try done. by intros t ->%list_elem_of_singleton. }
  rewrite Hds. cbn [or_panic ok_or mbind result_bind].
  assert (node ∈ nodes) as Hnode.
  { apply elem_of_list_to_set, list_elem_of_fmap. exists (node, ds). split; [done|]. by apply bt_get_elem. }
  assert (Hedge : forall v, v ∈ ds -> edge node v) by (intros v Hv; by exists ds).
  assert (Hlist : visit_result ({[node]} ∪ P) V ds (for_each ds ({[node]} ∪ P, V) (visit fuel graph))).
  { apply visit_list; [|done|set_solver].
    intros t V1 Ht HV1 Hd1. apply IH; try done.
    - by apply (Hclosed node), Hedge.
    - set_solver.
    - intros x [->%elem_of_singleton|Hx]%elem_of_union; [by apply tc_once, Hedge|].
      eapply tc_r; [by apply Hpath|by apply Hedge].
    - assert (size (nodes ∖ ({[node]} ∪ P)) < size (nodes ∖ P))%nat; [|lia].
      apply subset_size. set_solver. }
  destruct (for_each ds _ _) as [[P' V']|e]; [|exact Hlist].
  destruct Hlist as (-> & HV' & Hsub & Hall & Hd'). cbn [mbind result_bind fst snd].
  split_and!; [set_solver| |set_solver| |set_solver].
  - apply finished_add; [done|set_solver|]. intros v (ds' & Hds' & Hv). apply Hall. congruence.
  - intros t ->%list_elem_of_singleton. set_solver.
Qed.

Lemma reject_cycles_ok :
  closed -> bt_sorted graph ->
  (reject_cycles graph = Ok () /\ acyclic) \/
  (reject_cycles graph = Err cycle_error /\ exists u, tc edge u u).
Proof.
  intros Hclosed Hs. unfold reject_cycles.
  assert (visit_result ∅ ∅ graph.*1
            (for_each graph.*1 (∅, ∅) (visit (S (length graph)) graph))) as Hall.
  { apply visit_list; [|split; [intros u v|intros u]; by rewrite elem_of_empty|set_solver]. intros t V Ht HV Hd.
    apply visit_ok; try done; [|].
    - apply list_elem_of_fmap in Ht as ([k ds] & -> & Hin). exists ds. by apply bt_get_elem.
    - rewrite difference_empty_L. unfold nodes.
      rewrite size_list_to_set by by apply bt_sorted_NoDup. rewrite length_fmap. lia. }
  destruct (for_each graph.*1 _ _) as [[P V]|e].
  - left. split; [done|]. destruct Hall as (_ & [HV1 HV2] & _ & Hin & _). intros u Htc.
    apply (HV2 u); [|done]. apply Hin.
    assert (exists ds, bt_get u graph = Some ds) as [ds Hds]
      by (inversion Htc as [? ? (ds & ? & _)|? y ? (ds & ? & _)]; subst; eauto).
    apply list_elem_of_fmap. exists (u, ds). split; [done|]. by apply bt_get_elem.
  - right. destruct Hall as [-> ?]. by cbn.
Qed.
End Cycles.

(** * What collection accepts *)

Definition identity (e : Envelope.Envelope) : string * Z := (Envelope.issuer e, Envelope.sequence e).

(** A dependency between the content digests of a set of fragments. *)
Definition depends (l : list Envelope.Envelope) (d d' : string) : Prop :=
  exists e, e ∈ l /\ Envelope.content_digest e = d /\ d' ∈ Envelope.dependencies e.

Definition dependencies_closed (l : list Envelope.Envelope) : Prop :=
  forall d d', depends l d d' -> d' ∈ (Envelope.content_digest <$> l).

Definition dependencies_acyclic (l : list Envelope.Envelope) : Prop :=
  forall d, ~ tc (depends l) d d.

(** The distinct failure domains, in order. *)
Definition failure_domains (l : list Envelope.Envelope) : btree_set string :=
  set_from_list (Envelope.failure_domain <$> l).

Section CollectFacts.
Context `{SerdeErrorText, JsonText, Sha256, Hex, Hmac, Ed25519, Jiff}.
Context `{!ToValue FragmentContent.FragmentContent, !ToValue UnsignedEnvelope}.
Variables (trusted : btree_map string IssuerPolicy) (component interface_version : string).

(** The instant a verification time names. *)
Definition verification_instant (t : option string) (vt : option Z) : Prop :=
  match t with
  | Some value => exists i, ts_strptime value = Some i /\ vt = Some i
  | None => vt = None
  end.

Definition authentic (vt : option Z) (e : Envelope.Envelope) : Prop :=
  is_ok (check_envelope trusted component interface_version vt e) = true.

Definition audit_entry (vt : option Z) (e : Envelope.Envelope) : VerificationAudit :=
  {| audit_issuer := Envelope.issuer e;
     audit_key_id := match check_envelope trusted component interface_version vt e with
                     | Ok key_id => key_id | Err _ => "" end;
     audit_sequence := Envelope.sequence e;
     audit_content_digest := Envelope.content_digest e;
     decision := "accepted" |}.

Lemma accept_envelope_ok vt e st st' :
  accept_envelope trusted component interface_version vt e st = Ok st' <->
  authentic vt e /\ (identity e ∉ identities st) /\ (Envelope.content_digest e ∉ content_digests st) /\
  st' = {| identities := {[identity e]} ∪ identities st;
           content_digests := {[Envelope.content_digest e]} ∪ content_digests st;
           seen_domains := bt_insert (Envelope.failure_domain e) () (seen_domains st);
           seen_audit := seen_audit st ++ [audit_entry vt e] |}.
Proof.
  unfold accept_envelope, authentic, audit_entry, identity.
  destruct (check_envelope _ _ _ _ e) as [k|err]; cbn [mbind result_bind].
  2:{ split; [done|]. by intros (? & _). }
  case_bool_decide; [split; [done|]; by intros (_ & ? & _)|].
  case_bool_decide; [split; [done|]; by intros (_ & _ & ? & _)|].
  split; [intros [= <-]; by split_and!|]. by intros (_ & _ & _ & ->).
Qed.

Lemma accept_all vt l st D A :
  (exists st', for_each l st (accept_envelope trusted component interface_version vt) = Ok st' /\
     seen_domains st' = D /\ seen_audit st' = A) <->
  Forall (authentic vt) l /\ NoDup (identity <$> l) /\ NoDup (Envelope.content_digest <$> l) /\
  (forall e, e ∈ l -> (identity e ∉ identities st) /\ (Envelope.content_digest e ∉ content_digests st)) /\
  D = foldl (fun m kv => bt_insert kv.1 kv.2 m) (seen_domains st)
        ((fun k => (k, ())) <$> (Envelope.failure_domain <$> l)) /\
  A = seen_audit st ++ (audit_entry vt <$> l).
Proof.
  revert st. induction l as [|e l IH]; intros st.
  - cbn. rewrite app_nil_r. split.
    + intros (? & [= <-] & <- & <-). split_and!; try done; try apply NoDup_nil; try apply Forall_nil; try done.
      intros e He. by apply elem_of_nil in He.
    + intros (_ & _ & _ & _ & -> & ->). eauto.
  - cbn [for_each]. rewrite Forall_cons, !fmap_cons, !NoDup_cons. split.
    + intros (st' & Hrun & HD & HA). apply bind_Ok in Hrun as (st1 & He & Hrun).
      apply accept_envelope_ok in He as (Hau & Hi & Hc & ->).
      pose proof (proj1 (IH _) (ex_intro _ st' (conj Hrun (conj HD HA)))) as
        (Hall & Hni & Hnc & Hfresh & HD' & HA').
      cbn [identities content_digests seen_domains seen_audit] in *.
      split_and!; try done.
      * intros (e' & Heq & He')%list_elem_of_fmap. apply (proj1 (Hfresh e' He')).
        rewrite <- Heq. by apply elem_of_union_l, elem_of_singleton.
      * intros (e' & Heq & He')%list_elem_of_fmap. apply (proj2 (Hfresh e' He')).
        rewrite <- Heq. by apply elem_of_union_l, elem_of_singleton.
      * intros e' [->|He']%elem_of_cons; [done|]. apply Hfresh in He' as [Hi' Hc'].
        apply not_elem_of_union in Hi' as [_ ?]. by apply not_elem_of_union in Hc' as [_ ?].
      * by rewrite HA', <- app_assoc.
    + intros ((Hau & Hall) & (Hi & Hni) & (Hc & Hnc) & Hfresh & -> & ->).
      destruct (Hfresh e ltac:(left)) as [Hie Hce].
      pose proof (proj2 (accept_envelope_ok vt e st _) (conj Hau (conj Hie (conj Hce eq_refl)))) as He.
      rewrite He. cbn [mbind result_bind]. apply IH. split_and!; try done.
      * intros e' He'. cbn. destruct (Hfresh e' ltac:(by right)) as [Hi' Hc'].
        rewrite !not_elem_of_union, !not_elem_of_singleton. split_and!; try done.
        -- intros Heq. apply Hi. apply list_elem_of_fmap. by exists e'.
        -- intros Heq. apply Hc. apply list_elem_of_fmap. by exists e'.
      * cbn. by rewrite <- app_assoc.
Qed.

Lemma graph_keys l :
  ((fun item => (Envelope.content_digest item, Envelope.dependencies item)) <$> l).*1 =
  (Envelope.content_digest <$> l).
Proof. rewrite <- list_fmap_compose. reflexivity. Qed.

Lemma graph_edge l u v :
  NoDup (Envelope.content_digest <$> l) -> edge (dependency_graph l) u v <-> depends l u v.
Proof.
  intros Hnd. unfold edge, depends, dependency_graph. split.
  - intros (ds & Hds & Hv). apply bt_from_list_get in Hds; [|by rewrite graph_keys].
    apply list_elem_of_fmap in Hds as (e & [= -> ->] & He). eauto.
  - intros (e & He & <- & Hv). exists (Envelope.dependencies e). split; [|done].
    apply bt_from_list_get; [by rewrite graph_keys|]. apply list_elem_of_fmap. by exists e.
Qed.

Lemma graph_node l d : d ∈ (Envelope.content_digest <$> l) <-> is_Some (bt_get d (dependency_graph l)).
Proof.
  destruct (bt_get d (dependency_graph l)) eqn:E.
  - split; [eauto|]. intros _. destruct (decide (d ∈ (Envelope.content_digest <$> l))) as [?|Hn]; [done|].
    exfalso. unfold dependency_graph in E. rewrite (proj2 (bt_from_list_None _ _)) in E; [done|].
    by rewrite graph_keys.
  - apply bt_from_list_None in E. rewrite graph_keys in E. split; [done|by intros []].
Qed.

Lemma graph_closed l :
  NoDup (Envelope.content_digest <$> l) ->
  any (fun entry => any (fun item => negb (bt_mem item (dependency_graph l))) entry.2) (dependency_graph l) = false <->
  dependencies_closed l.
Proof.
  intros Hnd. rewrite any_false, Forall_forall. unfold dependencies_closed. split.
  - intros Hall d d' He%graph_edge; [|done]. destruct He as (ds & Hds & Hd').
    apply bt_get_elem in Hds; [|apply bt_from_list_sorted]. specialize (Hall _ Hds). cbn in Hall.
    rewrite any_false, Forall_forall in Hall. specialize (Hall _ Hd'). cbn in Hall.
    apply graph_node. unfold bt_mem in Hall. by destruct (bt_get d' _).
  - intros Hc [u ds] Hin. cbn. apply any_false, Forall_forall. intros v Hv.
    apply negb_false_iff. assert (depends l u v) as Hd.
    { apply graph_edge; [done|]. exists ds. split; [|done]. apply bt_get_elem; [apply bt_from_list_sorted|done]. }
    apply Hc, graph_node in Hd as [x Hx]. unfold bt_mem. by rewrite Hx.
Qed.

Lemma graph_acyclic l :
  NoDup (Envelope.content_digest <$> l) ->
  acyclic (dependency_graph l) <-> dependencies_acyclic l.
Proof.
  intros Hnd. unfold acyclic, dependencies_acyclic.
  assert (forall u v, tc (edge (dependency_graph l)) u v <-> tc (depends l) u v) as Htc.
  { intros u v. split; (induction 1 as [? ? He|? ? ? He _ IH]; [apply tc_once|eapply tc_l; [|exact IH]]; by apply graph_edge). }
  by setoid_rewrite Htc.
Qed.

Lemma reject_graph l :
  NoDup (Envelope.content_digest <$> l) -> dependencies_closed l ->
  reject_cycles (dependency_graph l) = Ok () <-> dependencies_acyclic l.
Proof.
  intros Hnd Hc. rewrite <- graph_acyclic by done.
  destruct (reject_cycles_ok (dependency_graph l)) as [[-> Ha]|[-> [u Hu]]].
  - intros u v Hv%graph_edge; [|done]. by apply graph_node, (Hc u).
  - apply bt_from_list_sorted.
  - done.
  - split; [done|]. intros Ha. by destruct (Ha u).
Qed.

(** When a set of fragments is collected. *)
Definition collectible (required : Z) (vt : option Z) (l : list Envelope.Envelope) : Prop :=
  Forall (authentic vt) l /\
  NoDup (identity <$> l) /\ NoDup (Envelope.content_digest <$> l) /\
  dependencies_closed l /\ dependencies_acyclic l /\
  required <= vec_len (failure_domains l) /\
  (exists e, e ∈ l /\ Envelope.kind e = Contract) /\
  (exists e, e ∈ l /\ Envelope.kind e = StateSchema).

Lemma has_kind k l :
  any (fun item => bool_decide (Envelope.kind item = k)) l = true <->
  exists e, e ∈ l /\ Envelope.kind e = k.
Proof.
  rewrite any_true. split; intros (e & He & Hk); exists e;
    (split; [done|]); [by apply bool_decide_eq_true in Hk|by apply bool_decide_eq_true].
Qed.

Lemma collect_at_spec l required t c :
  collect_at l trusted required component interface_version t = Ok c <->
  exists vt, verification_instant t vt /\ collectible required vt l /\
  c = {| envelopes := sort_by_key order_key l; domains := (failure_domains l).*1;
         audit := audit_entry vt <$> l |}.
Proof.
  unfold collect_at, collectible. split.
  - intros Hc. apply bind_Ok in Hc as (vt & Hvt & Hc). apply bind_Ok in Hc as (st & Hst & Hc).
    unfold fails in Hst. apply map_err_Ok in Hst.
    pose proof (proj1 (accept_all vt l _ _ _) (ex_intro _ st (conj Hst (conj eq_refl eq_refl))))
      as (Hall & Hni & Hnc & _ & HD & HA).
    destruct (any _ (dependency_graph l)) eqn:E1 in Hc; [done|]. apply graph_closed in E1; [|done].
    apply bind_Ok in Hc as ([] & Hcyc & Hc). apply reject_graph in Hcyc; [|done..].
    destruct (_ <? _) eqn:E2 in Hc; [done|]. destruct (_ || _) eqn:E3 in Hc; [done|].
    injection Hc as <-. split_bools. rewrite HD in E2 |- *. rewrite HA.
    exists vt. split; [|split; [|done]; rewrite <- !has_kind; by split_and!].
    unfold verification_instant. unfold fails in Hvt. apply map_err_Ok in Hvt. destruct t; [|by injection Hvt as <-].
    apply bind_Ok in Hvt as (i & Hi%ok_or_Ok & [= <-]). eauto.
  - intros (vt & Hvt & (Hall & Hni & Hnc & Hcl & Hac & Hq & Hk1 & Hk2) & ->).
    apply has_kind in Hk1, Hk2. assert (fails match t with Some value => t ← parse_time value "verification_time"; Ok (Some t)
                  | None => Ok None end = Ok vt) as ->.
    { destruct t; [destruct Hvt as (i & Hi & ->)|by rewrite Hvt]. unfold parse_time. by rewrite Hi. }
    cbn [mbind result_bind].
    destruct (proj2 (accept_all vt l {| identities := ∅; content_digests := ∅; seen_domains := []; seen_audit := [] |}
      (failure_domains l) (audit_entry vt <$> l))) as (st & Hst & HD & HA).
    { by split_and!. }
    rewrite Hst. cbn [fails map_err mbind result_bind].
    rewrite (proj2 (graph_closed l Hnc) Hcl), (proj2 (reject_graph l Hnc Hcl) Hac). cbn [mbind result_bind].
    rewrite HD, HA, Hk1, Hk2. by rewrite (proj2 (Z.ltb_ge _ _)) by lia.
Qed.

Lemma depends_perm l l' u v : l ≡ₚ l' -> depends l u v -> depends l' u v.
Proof. intros Hp (e & He & ?). exists e. by rewrite <- Hp. Qed.

Lemma depends_tc_perm l l' u v : l ≡ₚ l' -> tc (depends l) u v -> tc (depends l') u v.
Proof.
  intros Hp. induction 1 as [? ? He|? ? ? He _ IH]; [apply tc_once|eapply tc_l; [|exact IH]];
    by eapply depends_perm.
Qed.

Lemma failure_domains_perm l l' : l ≡ₚ l' -> failure_domains l = failure_domains l'.
Proof.
  intros Hp. apply set_from_list_perm. by rewrite Hp.
Qed.

Lemma collectible_perm required vt l l' :
  l ≡ₚ l' -> collectible required vt l -> collectible required vt l'.
Proof.
  intros Hp (Hall & Hni & Hnc & Hcl & Hac & Hq & (e1 & He1 & Hk1) & (e2 & He2 & Hk2)).
  unfold collectible. rewrite <- (failure_domains_perm l l' Hp).
  assert (forall e, e ∈ l' <-> e ∈ l) as Hin by (intros e; by rewrite Hp).
  split_and!; try done; try (by rewrite <- Hp).
  - intros d d' Hd. rewrite <- Hp. apply (Hcl d). eapply depends_perm; [|exact Hd]. by symmetry.
  - intros d Hd. apply (Hac d). eapply depends_tc_perm; [|exact Hd]. by symmetry.
  - exists e1. by rewrite Hin.
  - exists e2. by rewrite Hin.
Qed.

Lemma order_key_sorted l :
  NoDup (identity <$> l) -> strictly_sorted_by_key order_key (sort_by_key order_key l).
Proof.
  intros Hnd. apply (sorted_NoDup_strict _ _ (sort_by_key_sorted order_key l)).
  pose proof (sort_by_key_perm order_key l) as Hp. rewrite Hp.
  apply (NoDup_fmap_1 (fun k : string * (Z * string) => (k.1, k.2.1))).
  by rewrite <- list_fmap_compose.
Qed.

(** Collection never unwinds: the graph is closed before it is searched. *)
Lemma collect_at_total l required t :
  collect_at l trusted required component interface_version t <> Err Panics.
Proof.
  unfold collect_at. destruct (match t with Some _ => _ | None => _ end) as [vt|e]; [|done].
  cbn [fails map_err mbind result_bind].
  destruct (for_each l _ _) as [st|e] eqn:Hst; [|done]. cbn [map_err mbind result_bind].
  pose proof (proj1 (accept_all vt l _ _ _) (ex_intro _ st (conj Hst (conj eq_refl eq_refl))))
    as (_ & _ & Hnc & _).
  destruct (any _ (dependency_graph l)) eqn:E1; [done|]. apply graph_closed in E1; [|done].
  assert (closed (dependency_graph l)) as Hcl.
  { intros u v Hv%graph_edge; [|done]. by apply graph_node, (E1 u). }
  destruct (reject_cycles_ok (dependency_graph l) Hcl (bt_from_list_sorted _)) as [[-> _]|[-> _]]; [|done].
  cbn [fails map_err mbind result_bind]. destruct (_ <? _); [done|]. by destruct (_ || _).
Qed.
End CollectFacts.

(** * Signatures *)

Section SignatureText.

(** A piece without the separator is split off whole. *)
Lemma split_on_app c p s :
  Forall (fun b => b <> byte_of_ascii c) (bytes_of_string p) ->
  split_on c (p +:+ String.String c s) = p :: split_on c s.
Proof.
  induction p as [|d p IH]; intros Hp; simpl.
  - by rewrite Ascii.eqb_refl.
  - inversion Hp as [|? ? Hd Hp']; subst.
    rewrite (proj2 (Ascii.eqb_neq c d)) by (intros ->; done). by rewrite IH.
Qed.

Lemma split_on_last c p :
  Forall (fun b => b <> byte_of_ascii c) (bytes_of_string p) -> split_on c p = [p].
Proof.
  induction p as [|d p IH]; intros Hp; cbn [split_on]; [done|].
  inversion Hp as [|? ? Hd Hp']; subst.
  rewrite (proj2 (Ascii.eqb_neq c d)) by (intros ->; done). by rewrite IH.
Qed.

Lemma key_id_no_colon k :
  validate_key_id k = Ok () -> Forall (fun b => b <> byte_of_ascii ":") (bytes_of_string k).
Proof.
  unfold validate_key_id. intros Hk. inv_ok. apply orb_false_iff in Hb as [_ Hb].
  apply negb_false_iff, all_true in Hb. eapply Forall_impl; [exact Hb|].
  intros b Hok ->. vm_compute in Hok. done.
Qed.

Lemma hex_no_colon `{HexLaws} bs :
  Forall is_byte bs -> Forall (fun b => b <> byte_of_ascii ":") (bytes_of_string (hex_encode bs)).
Proof.
  intros Hb. eapply Forall_impl; [by apply hex_encode_digits|]. intros b Hok ->. vm_compute in Hok. done.
Qed.

(** The text of an Ed25519 signature reads back. *)
Lemma signature_parts_signed `{HexLaws} k bs :
  validate_key_id k = Ok () -> Forall is_byte bs ->
  signature_parts ("ed25519:" +:+ k +:+ ":" +:+ hex_encode bs) = Ok (k, hex_encode bs).
Proof.
  intros Hk Hb. unfold signature_parts.
  change ("ed25519:" +:+ k +:+ ":" +:+ hex_encode bs)
    with ("ed25519" +:+ String.String ":" (k +:+ String.String ":" (hex_encode bs))).
  rewrite split_on_app by (repeat constructor; done).
  rewrite split_on_app by by apply key_id_no_colon.
  rewrite split_on_last by by apply hex_no_colon. reflexivity.
Qed.
End SignatureText.

(** * Properties *)

(** C5: fragments are collected exactly when the verification time parses, every
    fragment is authentic under its issuer's policy, no issuer and sequence pair and
    no content repeats, the dependencies are closed and acyclic, enough distinct
    failure domains took part, and a contract and a state schema are among them; the
    evidence is the fragments in order, their domains, and one audit entry each. *)
Theorem collect_at_iff
  `{SerdeErrorText, JsonText, Sha256, Hex, Hmac, Ed25519, Jiff,
    !ToValue FragmentContent.FragmentContent, !ToValue UnsignedEnvelope}
  l trusted required component version t c :
  collect_at l trusted required component version t = Ok c <->
  exists vt, verification_instant t vt /\
  (Forall (authentic trusted component version vt) l /\
   NoDup (identity <$> l) /\ NoDup (Envelope.content_digest <$> l) /\
   dependencies_closed l /\ dependencies_acyclic l /\
   required <= vec_len (failure_domains l) /\
   (exists e, e ∈ l /\ Envelope.kind e = Contract) /\
   (exists e, e ∈ l /\ Envelope.kind e = StateSchema)) /\
  c = {| envelopes := sort_by_key order_key l; domains := (failure_domains l).*1;
         audit := audit_entry trusted component version vt <$> l |}.
Proof. apply collect_at_spec. Qed.

(** C36: the order in which fragments arrive does not matter: any permutation of a
    collected set is collected too, into the same evidence and domains, with the same
    audit entries in arrival order. *)
Theorem collect_order_independent
  `{SerdeErrorText, JsonText, Sha256, Hex, Hmac, Ed25519, Jiff,
    !ToValue FragmentContent.FragmentContent, !ToValue UnsignedEnvelope}
  l l' trusted required component version t c :
  l ≡ₚ l' -> collect_at l trusted required component version t = Ok c ->
  exists c', collect_at l' trusted required component version t = Ok c' /\
    envelopes c' = envelopes c /\ domains c' = domains c /\ audit c' ≡ₚ audit c.
Proof.
  intros Hp (vt & Hvt & Hc & ->)%collect_at_spec. eexists. split.
  - apply collect_at_spec. exists vt. split; [done|]. split; [by eapply collectible_perm|done].
  - cbn [envelopes domains audit]. rewrite (failure_domains_perm l l' Hp). split_and!; [|done|by rewrite Hp].
    pose proof (collectible_perm _ _ _ _ _ _ _ Hp Hc) as Hc'.
    destruct Hc as (_ & Hnd & _), Hc' as (_ & Hnd' & _).
    apply (strictly_sorted_unique order_key); [by apply order_key_sorted..|].
    rewrite (sort_by_key_perm order_key l), (sort_by_key_perm order_key l'). by symmetry.
Qed.

(** C8: on a graph whose dependencies are all nodes, the depth-first search returns
    without panicking, finds no cycle when there is none, and reports one otherwise. *)
Theorem reject_cycles_decides (graph : graph_t) :
  closed graph -> bt_sorted graph ->
  (reject_cycles graph = Ok () <-> acyclic graph) /\
  (reject_cycles graph = Err cycle_error <-> exists u, tc (edge graph) u u).
Proof.
  intros Hc Hs. destruct (reject_cycles_ok graph Hc Hs) as [[-> Ha]|[-> [u Hu]]].
  - split; split; try done. intros [u Hu]. by destruct (Ha u).
  - split; split; try done; eauto. intros Ha. by destruct (Ha u).
Qed.

(** a fragment signed by a key of its issuer's policy is accepted exactly when
    its sequence reaches the issuer's floor, it was issued and is verified within the
    key's validity, and the key is not revoked. *)
Theorem fragment_sign_verify
  `{SerdeErrorText, JsonText, Sha256, HexLaws, Hmac, Ed25519Laws, Jiff,
    !ToValue FragmentContent.FragmentContent, !ToValue UnsignedEnvelope}
  e k sk e' policy key vt issued nb na :
  sign_ed25519 e k sk = Ok e' ->
  find (fun key => bool_decide (Ed25519KeyPolicy.key_id key = k)) (Ed25519IssuerPolicy.keys policy) = Some key ->
  validate_key_policy key = Ok () -> Ed25519KeyPolicy.public_key key = hex_encode (ed_public sk) ->
  ts_strptime (Envelope.issued_at e) = Some issued ->
  ts_strptime (Ed25519KeyPolicy.not_before key) = Some nb ->
  ts_strptime (Ed25519KeyPolicy.not_after key) = Some na ->
  verify_signature e' (Ed25519Policy policy) vt = Ok k <->
  Ed25519IssuerPolicy.minimum_sequence policy <= Envelope.sequence e /\
  nb <= issued <= na /\ (forall time, vt = Some time -> nb <= time <= na) /\
  Ed25519KeyPolicy.revoked_at key = None.
Proof.
  unfold sign_ed25519. intros Hs Hf Hv Hpk Hi Hnb Hna.
  apply bind_Ok in Hs as ([] & Hk & Hs). apply bind_Ok in Hs as (d & _ & Hs).
  apply bind_Ok in Hs as (bytes & Hb & [= <-]).
  unfold verify_signature, verify_ed25519, parse_time. cbn [Envelope.sequence Envelope.signature
    Envelope.issued_at with_signature with_content_digest].
  rewrite (signature_parts_signed k _ Hk (ed_sign_bytes sk bytes)).
  cbn [mbind result_bind]. rewrite Hf. cbn [ok_or mbind result_bind]. rewrite Hv. cbn [mbind result_bind].
  rewrite Hi, Hnb, Hna. cbn [ok_or mbind result_bind]. rewrite Hpk.
  rewrite (hex_decode_encode (ed_public sk)) by apply ed_public_bytes. cbn [ok_or mbind result_bind].
  rewrite (proj2 (try_into_array_Some 32 _ _) (conj eq_refl (ed_public_length sk))).
  cbn [ok_or mbind result_bind]. rewrite ed_public_ok. cbn [negb].
  rewrite (hex_decode_encode (ed_sign sk bytes)) by apply ed_sign_bytes. cbn [ok_or mbind result_bind].
  rewrite (proj2 (try_into_array_Some 64 _ _) (conj eq_refl (ed_sign_length sk bytes))).
  cbn [ok_or mbind result_bind].
  change (unsigned _) with (unsigned (with_signature "" (with_content_digest d e))).
  rewrite Hb. cbn [mbind result_bind]. rewrite ed_verify_strict_sign.
  destruct (Z.ltb_spec (Envelope.sequence e) (Ed25519IssuerPolicy.minimum_sequence policy)); [split; [done|lia]|].
  destruct (Z.ltb_spec issued nb); [split; [done|lia]|]. cbn [orb].
  destruct (Z.ltb_spec na issued); [split; [done|lia]|].
  destruct vt as [time|].
  - destruct (Z.ltb_spec time nb); [split; [done|intros (_ & _ & Ht & _); specialize (Ht time eq_refl); lia]|].
    destruct (Z.ltb_spec na time); [split; [done|intros (_ & _ & Ht & _); specialize (Ht time eq_refl); lia]|].
    cbn [orb]. destruct (Ed25519KeyPolicy.revoked_at key); cbn; [split; [done|naive_solver]|].
    split; [|done]. intros _. split_and!; try done. by intros ? [= <-].
  - destruct (Ed25519KeyPolicy.revoked_at key); cbn; [split; [done|naive_solver]|].
    split; [|done]. intros _. by split_and!.
Qed.

(** * Witnesses *)
Module FragmentsWitness.
#[local] Existing Instances Toy.sha Toy.hexi Toy.hmac Toy.ed Toy.jiff Toy.hex_laws Toy.ed_laws.

#[local] Instance error_text : SerdeErrorText := "json".
#[local] Instance text : JsonText :=
  fun v => match v with String s => bytes_of_string s | _ => [] end.
#[local] Instance serialise_content : ToValue FragmentContent.FragmentContent :=
  fun c => Some (String (match c with FragmentContent.Transition s _ _ _ => "transition" +:+ s | _ => "other" end)).
#[local] Instance serialise_envelope : ToValue UnsignedEnvelope :=
  fun u => Some (String (u_issuer u +:+ u_content_digest u)).

Definition secret : list Z := [5; 6].

Definition raw (kind : FragmentKind) (issuer : string) (sequence : Z) (dependencies : list string)
  (content : FragmentContent.FragmentContent) : Envelope.Envelope :=
  {| Envelope.kind := kind; Envelope.component := "door"; Envelope.interface_version := "v1";
     Envelope.issuer := issuer; Envelope.failure_domain := issuer +:+ "-domain";
     Envelope.issued_at := "2026"; Envelope.sequence := sequence; Envelope.content_digest := "";
     Envelope.dependencies := dependencies; Envelope.content := content; Envelope.signature := "" |}.

Definition signed (e : Envelope.Envelope) : Envelope.Envelope :=
  match sign_ed25519 e "k1" secret with Ok e' => e' | Err _ => e end.

Definition key : Ed25519KeyPolicy.Ed25519KeyPolicy :=
  {| Ed25519KeyPolicy.key_id := "k1"; Ed25519KeyPolicy.public_key := hex_encode (ed_public secret);
     Ed25519KeyPolicy.not_before := "2025"; Ed25519KeyPolicy.not_after := "2027";
     Ed25519KeyPolicy.revoked_at := None |}.
Definition policy (issuer : string) : Ed25519IssuerPolicy.Ed25519IssuerPolicy :=
  {| Ed25519IssuerPolicy.failure_domain := issuer +:+ "-domain"; Ed25519IssuerPolicy.minimum_sequence := 1;
     Ed25519IssuerPolicy.keys := [key] |}.
Definition trusted : btree_map string IssuerPolicy :=
  [("a", Ed25519Policy (policy "a")); ("b", Ed25519Policy (policy "b"))].

Definition contract_raw : Envelope.Envelope :=
  raw Contract "a" 1 [] (FragmentContent.Transition "open" "push" "closed" "ok").
Definition contract : Envelope.Envelope := signed contract_raw.
Definition schema : Envelope.Envelope :=
  signed (raw StateSchema "b" 1 [Envelope.content_digest contract]
                (FragmentContent.StatePolicy ["open"; "closed"] "open")).

Example collect_order_independent_witness :
  exists c c', collect_at [contract; schema] trusted 2 "door" "v1" (Some "2026") = Ok c /\
  collect_at [schema; contract] trusted 2 "door" "v1" (Some "2026") = Ok c' /\
  envelopes c' = envelopes c /\ length (envelopes c) = 2%nat.
Proof.
  destruct (collect_at [contract; schema] trusted 2 "door" "v1" (Some "2026")) as [c|] eqn:E;
    [|vm_compute in E; discriminate E].
  destruct (collect_order_independent [contract; schema] [schema; contract] trusted 2 "door" "v1"
              (Some "2026") c (perm_swap _ _ _) E) as (c' & Hc' & He & _ & _).
  exists c, c'. split; [reflexivity|]. split; [exact Hc'|]. split; [exact He|].
  apply collect_at_spec in E as (vt & _ & _ & ->). cbn [envelopes]. by rewrite sort_by_key_length.
Defined.

Example reject_cycles_decides_witness :
  reject_cycles [("a", ["b"]); ("b", [])] = Ok () /\ acyclic [("a", ["b"]); ("b", [])].
Proof.
  assert (reject_cycles [("a", ["b"]); ("b", [])] = Ok ()) as Hr by (vm_compute; reflexivity).
  split; [exact Hr|]. apply (reject_cycles_decides [("a", ["b"]); ("b", [])]); [| |exact Hr].
  - intros u v (ds & Hds & Hv). apply bt_get_elem in Hds; [|repeat constructor].
    apply elem_of_cons in Hds as [[= -> ->]|[[= -> ->]|Hn%elem_of_nil]%elem_of_cons]; [|by apply elem_of_nil in Hv|done].
    apply list_elem_of_singleton in Hv as ->. by eexists.
  - repeat constructor.
Defined.

Example fragment_sign_verify_witness :
  verify_signature contract (Ed25519Policy (policy "a")) (Some 2026000) = Ok "k1".
Proof.
  assert (sign_ed25519 contract_raw "k1" secret = Ok contract) as H1 by (vm_compute; reflexivity).
  assert (ts_strptime (Envelope.issued_at contract_raw) = Some 2026000) as H2 by (vm_compute; reflexivity).
  assert (ts_strptime (Ed25519KeyPolicy.not_before key) = Some 2025000) as H3 by (vm_compute; reflexivity).
  assert (ts_strptime (Ed25519KeyPolicy.not_after key) = Some 2027000) as H4 by (vm_compute; reflexivity).
  assert (validate_key_policy key = Ok ()) as H5 by (vm_compute; reflexivity).
  apply (fragment_sign_verify contract_raw "k1" secret contract (policy "a") key (Some 2026000)
           2026000 2025000 2027000 H1 eq_refl H5 eq_refl H2 H3 H4).
  split; [done|]. split; [lia|]. split; [|reflexivity]. intros time [= <-]. lia.
Defined.
End FragmentsWitness.
