(* ===== verification/Service.v ===== *)
(** src/service.rs: the manifest of a service and its validation. *)
From S2P Require Import Prelude External Model Fragments.

Definition MAX_ENDPOINTS : Z := 256.
Definition MAX_DEPENDENCIES : Z := 64.
Definition MAX_IDENTIFIER_BYTES : Z := 128.

Inductive HttpMethod := Delete | Get | Head | Patch | Post | Put.
Inductive EffectKind := Clock | Filesystem | Network | Randomness | State.
Inductive EffectAccess := Read | ReadWrite | Write.
Inductive StateAdapter := FilesystemAdapter | ObjectStore | Postgres | Queue.
Inductive Consistency := Eventual | Snapshot | Transactional.

#[export] Instance HttpMethod_eq_dec : EqDecision HttpMethod.
Proof. solve_decision. Defined.
#[export] Instance EffectKind_eq_dec : EqDecision EffectKind.
Proof. solve_decision. Defined.
#[export] Instance EffectAccess_eq_dec : EqDecision EffectAccess.
Proof. solve_decision. Defined.
#[export] Instance StateAdapter_eq_dec : EqDecision StateAdapter.
Proof. solve_decision. Defined.
#[export] Instance Consistency_eq_dec : EqDecision Consistency.
Proof. solve_decision. Defined.

Record HttpEndpoint := {
  method : HttpMethod;
  path : string;
  request_schema_sha256 : string;
  response_schema_sha256 : string;
}.

Record HttpContract := { endpoints : list HttpEndpoint }.

Record Effect := { effect_kind : EffectKind; target : string; access : EffectAccess }.

#[export] Instance Effect_eq_dec : EqDecision Effect.
Proof. solve_decision. Defined.

Record StateDependency := {
  name : string;
  adapter : StateAdapter;
  consistency : Consistency;
  required : bool;
}.

Record ServiceLimits := {
  request_bytes : Z;
  response_bytes : Z;
  wall_time_ms : Z;
  concurrent_requests : Z;
}.

Record ServiceManifest := {
  version : string;
  component : string;
  interface_version : string;
  http : HttpContract;
  effects : list Effect;
  state_dependencies : list StateDependency;
  limits : ServiceLimits;
}.

Definition invalid (message : string) : Error := InvalidRegistry message.

Definition identifier_byte (byte : Z) : bool :=
  is_ascii_alphanumeric byte || contains byte (bytes_of_string "._:/-").

Definition validate_identifier (label value : string) : result Error () :=
  if str_is_empty value || (MAX_IDENTIFIER_BYTES <? str_len value)
     || negb (all identifier_byte (bytes_of_string value))
  then Err (invalid (label +:+ " is empty, too long, or contains unsafe characters"))
  else Ok ().

(** [str::starts_with], [str::contains] of a character, and of two slashes. *)
Definition starts_with (c : ascii) (s : string) : bool :=
  match s with String.String d _ => Ascii.eqb c d | String.EmptyString => false end.
Definition contains_char (c : ascii) (s : string) : bool :=
  contains (byte_of_ascii c) (bytes_of_string s).
Fixpoint contains_double (b : Z) (bytes : list Z) : bool :=
  match bytes with
  | x :: ((y :: _) as rest) => ((x =? b) && (y =? b)) || contains_double b rest
  | _ => false
  end.

Definition validate_path (path : string) : result Error () :=
  if negb (starts_with "/" path)
     || (1024 <? str_len path)
     || negb (all (fun byte => is_ascii_graphic byte && negb (byte =? 92)) (bytes_of_string path))
     || contains_char "?" path
     || contains_char "#" path
     || contains_double 47 (bytes_of_string path)
     || any (fun segment => bool_decide (segment = ".") || bool_decide (segment = "..")) (split_on "/" path)
  then Err (invalid "HTTP paths must be bounded absolute paths without query, fragment, empty interior, or traversal segments")
  else Ok ().

Section Service.
Context `{Hex}.

Definition validate_digest (label digest : string) : result Error () :=
  if negb (str_len digest =? 64) || not_32_hex digest
  then Err (invalid (label +:+ " digest must be SHA-256 hex")) else Ok ().

Definition validate_endpoint (endpoint : HttpEndpoint) (routes : list (HttpMethod * string))
  : result Error (list (HttpMethod * string)) :=
  _ ← validate_path (path endpoint);
  _ ← validate_digest "request schema" (request_schema_sha256 endpoint);
  _ ← validate_digest "response schema" (response_schema_sha256 endpoint);
  if contains (method endpoint, path endpoint) routes
  then Err (invalid "HTTP method and path pairs must be unique")
  else Ok ((method endpoint, path endpoint) :: routes).

Definition validate_effect (effect : Effect) (seen : list Effect) : result Error (list Effect) :=
  _ ← validate_identifier "effect target" (target effect);
  if contains effect seen then Err (invalid "effect declarations must be unique")
  else Ok (effect :: seen).

Definition validate_dependency (dependency : StateDependency) (names : list string)
  : result Error (list string) :=
  _ ← validate_identifier "state dependency name" (name dependency);
  if contains (name dependency) names then Err (invalid "state dependency names must be unique")
  else Ok (name dependency :: names).

Definition within (lo hi x : Z) : bool := (lo <=? x) && (x <=? hi).

Definition validate (self : ServiceManifest) : result Error () :=
  if negb (bool_decide (version self = "service-v1"))
  then Err (invalid "service manifest version must be service-v1") else
  _ ← validate_identifier "component" (component self);
  _ ← validate_identifier "interface_version" (interface_version self);
  if bool_decide (vec_len (endpoints (http self)) = 0) || (MAX_ENDPOINTS <? vec_len (endpoints (http self)))
  then Err (invalid "HTTP endpoints must contain between 1 and 256 entries") else
  _ ← for_each (endpoints (http self)) [] validate_endpoint;
  if (MAX_DEPENDENCIES <? vec_len (effects self)) || (MAX_DEPENDENCIES <? vec_len (state_dependencies self))
  then Err (invalid "effect or state dependency count exceeds 64") else
  _ ← for_each (effects self) [] validate_effect;
  _ ← for_each (state_dependencies self) [] validate_dependency;
  if any (fun effect => bool_decide (effect_kind effect = State)
            && negb (any (fun dependency => bool_decide (name dependency = target effect))
                         (state_dependencies self))) (effects self)
     || any (fun dependency => negb (any (fun effect =>
               bool_decide (effect_kind effect = State)
               && bool_decide (target effect = name dependency)) (effects self)))
            (state_dependencies self)
  then Err (invalid "state effects and state dependencies must reference each other exactly") else
  if negb (within 1 67108864 (request_bytes (limits self)))
     || negb (within 1 67108864 (response_bytes (limits self)))
     || negb (within 1 300000 (wall_time_ms (limits self)))
     || negb (within 1 10000 (concurrent_requests (limits self)))
  then Err (invalid "service resource limits are zero or exceed safety maxima")
  else Ok ().
End Service.

(** * What validation requires *)

(** A loop that checks each element and refuses a repeated key. *)
Lemma unique_loop {A K E} `{EqDecision K} (check : A -> result E ()) (key : A -> K) (err : E)
  (body : A -> list K -> result E (list K)) l seen :
  (forall x s, body x s = (_ ← check x; if contains (key x) s then Err err else Ok (key x :: s))) ->
  is_ok (for_each l seen body) = true <->
  Forall (fun x => check x = Ok ()) l /\ NoDup (key <$> l) /\ (forall x, x ∈ l -> key x ∉ seen).
Proof.
  intros Hbody. revert seen. induction l as [|x l IH]; intros seen.
  - cbn. split; [|done]. intros _. split_and!; [constructor|constructor|]. by intros x Hx%elem_of_nil.
  - cbn [for_each]. rewrite Hbody, Forall_cons, fmap_cons, NoDup_cons.
    destruct (check x) as [[]|]; cbn [mbind result_bind]; [|split; [done|by intros ((? & _) & _)]].
    destruct (contains (key x) seen) eqn:E1.
    { apply contains_true in E1. split; [done|]. intros (_ & _ & Hn). by destruct (Hn x ltac:(left)). }
    apply contains_false in E1. cbn [mbind result_bind]. rewrite IH. split.
    + intros (Hall & Hnd & Hn). split_and!; try done.
      * intros (y & Hy & Hyl)%list_elem_of_fmap. apply (Hn y Hyl). rewrite <- Hy. by left.
      * intros y [->|Hy]%elem_of_cons; [done|]. intros Hin. apply (Hn y Hy). by right.
    + intros ((_ & Hall) & (Hni & Hnd) & Hn). split_and!; try done.
      intros y Hy [Heq|Hin]%elem_of_cons; [|by apply (Hn y ltac:(by right))].
      apply Hni. rewrite <- Heq. apply list_elem_of_fmap. by exists y.
Qed.

(** Texts that pass as identifiers. *)
Definition identifier (s : string) : Prop :=
  0 < str_len s <= MAX_IDENTIFIER_BYTES /\
  Forall (fun b => identifier_byte b = true) (bytes_of_string s).

Lemma validate_identifier_ok label s : validate_identifier label s = Ok () <-> identifier s.
Proof.
  unfold validate_identifier, identifier, str_is_empty. pose proof (str_len_nonneg s).
  rewrite <- all_true. split.
  - intros Hv. inv_ok. split_bools. split; [lia|done].
  - intros [Hl Ha]. rewrite Ha. cbn [negb]. rewrite (proj2 (Z.eqb_neq _ _)) by lia.
    by rewrite (proj2 (Z.ltb_ge _ _)) by lia.
Qed.

(** An absolute path of printable characters with no query, fragment, empty interior
    or traversal segment. *)
Definition safe_path (p : string) : Prop :=
  starts_with "/" p = true /\ str_len p <= 1024 /\
  Forall (fun b => 33 <= b <= 126 /\ b <> 92 /\ b <> 63 /\ b <> 35) (bytes_of_string p) /\
  contains_double 47 (bytes_of_string p) = false /\
  ("." ∉ split_on "/" p) /\ (".." ∉ split_on "/" p).

Lemma contains_char_false c s :
  contains_char c s = false <-> Forall (fun b => b <> byte_of_ascii c) (bytes_of_string s).
Proof. unfold contains_char. rewrite contains_false, Forall_forall. naive_solver. Qed.

Lemma validate_path_ok p : validate_path p = Ok () <-> safe_path p.
Proof.
  assert (byte_of_ascii "?" = 63 /\ byte_of_ascii "#" = 35) as [Hq Hh] by done.
  unfold validate_path, safe_path. destruct (_ || _) eqn:E.
  - split; [done|]. intros (H1 & H2 & H3 & H4 & H5 & H6). exfalso. rewrite Forall_forall in H3.
    rewrite H1, (proj2 (Z.ltb_ge _ _) H2), H4 in E. cbn [negb orb] in E.
    rewrite (proj2 (contains_char_false "?" p)), (proj2 (contains_char_false "#" p)) in E
      by (apply Forall_forall; intros b Hb; apply H3 in Hb as (_ & _ & ? & ?); congruence).
    rewrite (proj2 (any_false _ _)) in E.
    2:{ apply Forall_forall. intros x Hx. apply orb_false_iff.
        split; apply bool_decide_eq_false_2; intros ->; done. }
    rewrite !orb_false_r in E. apply negb_true_iff in E.
    rewrite (proj2 (all_true _ _)) in E; [done|]. apply Forall_forall. intros b Hb. apply H3 in Hb.
    unfold is_ascii_graphic, in_range. lia.
  - split; [|done]. intros _. rewrite !orb_false_iff in E.
    destruct E as ((((((E1 & E2) & E3) & E4) & E5) & E6) & E7). split_bools.
    apply contains_char_false in E4, E5. apply all_true in E3. apply any_false in E7.
    rewrite Forall_forall in E3. rewrite Forall_forall in E4. rewrite Forall_forall in E5.
    rewrite Forall_forall in E7. rewrite Hq in E4. rewrite Hh in E5.
    split_and!; try done.
    + apply Forall_forall. intros b Hb. specialize (E3 b Hb). specialize (E4 b Hb). specialize (E5 b Hb).
      unfold is_ascii_graphic, in_range in E3. lia.
    + intros Hin. by specialize (E7 _ Hin).
    + intros Hin. by specialize (E7 _ Hin).
Qed.

Section ServiceFacts.
Context `{Hex}.

Definition schema_digest (s : string) : Prop := str_len s = 64 /\ not_32_hex s = false.

Lemma validate_digest_ok label s : validate_digest label s = Ok () <-> schema_digest s.
Proof.
  unfold validate_digest, schema_digest. destruct (Z.eqb_spec (str_len s) 64); cbn [negb orb].
  - destruct (not_32_hex s); split; try done. by intros [_ ?].
  - split; [done|]. by intros [? _].
Qed.

Definition safe_endpoint (e : HttpEndpoint) : Prop :=
  safe_path (path e) /\ schema_digest (request_schema_sha256 e) /\ schema_digest (response_schema_sha256 e).

Lemma endpoints_ok l :
  is_ok (for_each l [] validate_endpoint) = true <->
  Forall safe_endpoint l /\ NoDup ((fun e => (method e, path e)) <$> l).
Proof.
  rewrite (unique_loop (fun e => _ ← validate_path (path e);
             _ ← validate_digest "request schema" (request_schema_sha256 e);
             validate_digest "response schema" (response_schema_sha256 e))
           (fun e => (method e, path e)) (invalid "HTTP method and path pairs must be unique")).
  2:{ intros e s. unfold validate_endpoint. destruct (validate_path _) as [[]|]; [|reflexivity].
      destruct (validate_digest _ (request_schema_sha256 e)) as [[]|]; [|reflexivity]. cbn [mbind result_bind].
      by destruct (validate_digest _ _) as [[]|]. }
  assert (forall e, (_ ← validate_path (path e);
             _ ← validate_digest "request schema" (request_schema_sha256 e);
             validate_digest "response schema" (response_schema_sha256 e)) = Ok () <-> safe_endpoint e) as Hc.
  { intros e. unfold safe_endpoint. rewrite <- validate_path_ok.
    rewrite <- (validate_digest_ok "request schema"), <- (validate_digest_ok "response schema").
    destruct (validate_path (path e)) as [[]|]; cbn; [|naive_solver].
    destruct (validate_digest _ (request_schema_sha256 e)) as [[]|]; cbn; naive_solver. }
  rewrite (Forall_iff _ _ _ Hc). split; [by intros (? & ? & _)|]. intros [? ?].
  split_and!; [done..|]. intros x _. apply not_elem_of_nil.
Qed.

(** Every state effect names a state dependency, and the other way round. *)
Definition state_matched (m : ServiceManifest) : Prop :=
  forall n, n ∈ (name <$> state_dependencies m) <->
    exists e, e ∈ effects m /\ effect_kind e = State /\ target e = n.

Lemma state_matched_ok m :
  any (fun effect => bool_decide (effect_kind effect = State)
        && negb (any (fun dependency => bool_decide (name dependency = target effect)) (state_dependencies m)))
      (effects m)
  || any (fun dependency => negb (any (fun effect =>
        bool_decide (effect_kind effect = State) && bool_decide (target effect = name dependency)) (effects m)))
      (state_dependencies m) = false <-> state_matched m.
Proof.
  assert (forall n, any (fun d => bool_decide (name d = n)) (state_dependencies m) = true <->
            n ∈ (name <$> state_dependencies m)) as Hd.
  { intros n. rewrite any_true, list_elem_of_fmap. split; intros (d & Hd1 & Hd2); exists d.
    - apply bool_decide_eq_true in Hd2. done.
    - split; [done|]. by apply bool_decide_eq_true. }
  assert (forall n, any (fun e => bool_decide (effect_kind e = State) && bool_decide (target e = n)) (effects m) = true
            <-> exists e, e ∈ effects m /\ effect_kind e = State /\ target e = n) as He.
  { intros n. rewrite any_true. split; intros (e & He1 & He2); exists e.
    - split_bools. done.
    - split; [done|]. destruct He2 as [-> ->]. by rewrite !bool_decide_eq_true_2. }
  unfold state_matched. rewrite orb_false_iff, !any_false, !Forall_forall. split.
  - intros [H1 H2] n. split.
    + intros (d & -> & Hin)%list_elem_of_fmap. apply He. apply negb_false_iff. by apply H2.
    + intros (e & Hin & Hk & <-). apply Hd. specialize (H1 e Hin). cbn in H1.
      rewrite Hk, bool_decide_eq_true_2 in H1 by done. by apply negb_false_iff in H1.
  - intros Hm. split.
    + intros e Hin. destruct (decide (effect_kind e = State)) as [Hk|Hk].
      * rewrite bool_decide_eq_true_2 by done. apply negb_false_iff, Hd, Hm. eauto.
      * by rewrite bool_decide_eq_false_2.
    + intros d Hin. apply negb_false_iff, He, Hm. apply list_elem_of_fmap. by exists d.
Qed.

Lemma within_true lo hi x : within lo hi x = true <-> lo <= x <= hi.
Proof. unfold within. lia. Qed.
End ServiceFacts.

(** * Properties *)

(** A manifest validates exactly when its version and identifiers are
    well formed, its routes are safe, bounded in number and unique, its effects and
    dependencies are bounded and unique, the state effects are exactly the state
    dependencies, and its limits are positive and within the maxima. *)
Theorem manifest_valid_iff `{Hex} (m : ServiceManifest) :
  validate m = Ok () <->
  version m = "service-v1" /\ identifier (component m) /\ identifier (interface_version m) /\
  (1 <= vec_len (endpoints (http m)) <= MAX_ENDPOINTS /\ Forall safe_endpoint (endpoints (http m)) /\
   NoDup ((fun e => (method e, path e)) <$> endpoints (http m))) /\
  (vec_len (effects m) <= MAX_DEPENDENCIES /\ Forall (fun e => identifier (target e)) (effects m) /\
   NoDup (effects m)) /\
  (vec_len (state_dependencies m) <= MAX_DEPENDENCIES /\
   Forall (fun d => identifier (name d)) (state_dependencies m) /\ NoDup (name <$> state_dependencies m)) /\
  state_matched m /\
  1 <= request_bytes (limits m) <= 67108864 /\ 1 <= response_bytes (limits m) <= 67108864 /\
  1 <= wall_time_ms (limits m) <= 300000 /\ 1 <= concurrent_requests (limits m) <= 10000.
Proof.
  pose proof (endpoints_ok (endpoints (http m))) as Hends.
  pose proof (unique_loop (fun e => validate_identifier "effect target" (target e)) (fun e => e)
                (invalid "effect declarations must be unique") validate_effect (effects m) []
                ltac:(reflexivity)) as Heff.
  pose proof (unique_loop (fun d => validate_identifier "state dependency name" (name d)) name
                (invalid "state dependency names must be unique") validate_dependency
                (state_dependencies m) [] ltac:(reflexivity)) as Hdep.
  rewrite list_fmap_id, (Forall_iff _ _ _ (fun e => validate_identifier_ok "effect target" (target e))) in Heff.
  rewrite (Forall_iff _ _ _ (fun d => validate_identifier_ok "state dependency name" (name d))) in Hdep.
  unfold validate. split.
  - intros Hv. destruct (negb _) eqn:E0 in Hv; [done|].
    apply bind_Ok in Hv as ([] & Hc%validate_identifier_ok & Hv).
    apply bind_Ok in Hv as ([] & Hi%validate_identifier_ok & Hv).
    destruct (_ || _) eqn:E1 in Hv; [done|]. apply bind_Ok in Hv as (r & Hr & Hv). rewrite Hr in Hends.
    destruct (_ || _) eqn:E2 in Hv; [done|]. apply bind_Ok in Hv as (r2 & Hr2 & Hv). rewrite Hr2 in Heff.
    apply bind_Ok in Hv as (r3 & Hr3 & Hv). rewrite Hr3 in Hdep.
    destruct (any _ _ || any _ _) eqn:E3 in Hv; [done|]. apply state_matched_ok in E3.
    destruct (_ || _) eqn:E4 in Hv; [done|]. rewrite !orb_false_iff, !negb_false_iff, !within_true in E4.
    split_bools. unfold vec_len in *.
    destruct (proj1 Hends eq_refl), (proj1 Heff eq_refl) as (? & ? & _), (proj1 Hdep eq_refl) as (? & ? & _).
    split_and!; try done; tauto || lia.
  - intros (Hv & Hc & Hi & (He1 & He2 & He3) & (Hf1 & Hf2 & Hf3) & (Hd1 & Hd2 & Hd3) & Hm & Hl).
    rewrite (bool_decide_eq_true_2 _ Hv). cbn [negb].
    rewrite !(proj2 (validate_identifier_ok _ _)) by done. cbn [mbind result_bind].
    rewrite (bool_decide_eq_false_2 (vec_len (endpoints (http m)) = 0)) by lia. eval_tests. cbn [orb].
    destruct (for_each (endpoints (http m)) [] validate_endpoint);
      [|by pose proof (proj2 Hends (conj He2 He3))]. cbn [mbind result_bind].
    destruct (for_each (effects m) [] validate_effect);
      [|by pose proof (proj2 Heff (conj Hf2 (conj Hf3 (fun x _ => not_elem_of_nil x))))]. cbn [mbind result_bind].
    destruct (for_each (state_dependencies m) [] validate_dependency);
      [|by pose proof (proj2 Hdep (conj Hd2 (conj Hd3 (fun x _ => not_elem_of_nil (name x)))))].
    cbn [mbind result_bind]. rewrite (proj2 (state_matched_ok m) Hm).
    rewrite !(proj2 (within_true _ _ _)) by lia. reflexivity.
Qed.
