(* ===== verification/Protocol.v ===== *)
(** src/protocol.rs: the recovery pipeline, from the registry and the surviving
    fragments to a certified candidate or a refusal.  What the files of a workspace
    hold is the argument [Workspace]; src/oracle.rs gives its attestation. *)
From S2P Require Import Prelude External Json Core Model Canonical.
From S2P Require Synthesizer CheckerWire Checker Sandbox Fragments Service.

#[local] Existing Instances Fragments.FragmentKind_eq_dec Fragments.Envelope.Envelope_eq_dec.

Module LossAttestation.
Record LossAttestation := {
  method : string;
  recovery_root : string;
  forbidden_paths_absent : bool;
  forbidden_digests_absent : bool;
  scanned_files : Z;
  scanned_bytes : Z;
}.
End LossAttestation.

Record LossOraclePolicy := { forbidden_paths : list string; forbidden_sha256 : list string }.

Record ResourceLimits := {
  max_fragments : Z;
  max_fragment_bytes : Z;
  max_workspace_files : Z;
  max_workspace_bytes : Z;
}.

Record ExperimentRegistration := {
  seed : Z;
  baselines : list string;
  primary_metrics : list string;
  secondary_metrics : list string;
}.

Record EvidenceWindow := { not_before : string; not_after : string }.

Module Registry.
Record Registry := {
  component : string;
  interface_version : string;
  grammar : Grammar.Grammar;
  required_domains : Z;
  trusted_issuers : btree_map string Fragments.IssuerPolicy;
  loss_oracle : LossOraclePolicy;
  resource_limits : ResourceLimits;
  experiment : ExperimentRegistration;
  evidence_window : option EvidenceWindow;
  service_manifest : option Service.ServiceManifest;
}.
End Registry.

Record SearchBounds := { max_candidates : Z; examined : Z }.
Record StateTransform := { mode : string; schema_digest : string }.

Record Certificate := {
  protocol_version : string;
  component : string;
  interface_version : string;
  service_manifest_digest : option string;
  survivor_envelope_digests : list string;
  normalized_constraints_digest : string;
  failure_domains : list string;
  verification_audit : option (list Fragments.VerificationAudit);
  grammar_version : string;
  search_bounds : SearchBounds;
  candidate_digest : string;
  non_identical_to_forbidden_artifacts : bool;
  checker_identity : string;
  coverage : Checker.Coverage;
  sandbox : Sandbox.SandboxEvidence;
  state_transform : StateTransform;
  loss_attestation : LossAttestation.LossAttestation;
  experiment : ExperimentRegistration;
  deployment_preconditions : list string;
}.

Inductive RecoveryResult :=
| Certified (candidate : Candidate.Candidate) (candidate_wasm_hex : string) (certificate : Certificate)
| Refused (code : RefusalCode.RefusalCode) (message : string).

Definition is_certified (self : RecoveryResult) : bool :=
  match self with Certified _ _ _ => true | Refused _ _ => false end.

Inductive RecoveryMode := Full | TraceOnly | CentralizedContract.

(** What reading the workspace gives: the parsed registry, the parsed fragments under
    a bound on their number and their bytes, and the attestation that the forbidden
    paths and digests are absent, under a bound on files and bytes. *)
Record Workspace := {
  read_registry : result Error Registry.Registry;
  read_fragments : Z -> Z -> result Error (list Fragments.Envelope.Envelope);
  attest_absence : list string -> list string -> Z -> Z -> result Error LossAttestation.LossAttestation;
}.

(** [Path::is_absolute] on Unix. *)
Definition is_absolute (path : string) : bool := Service.starts_with "/" path.

(** Which evidence the synthesizer sees in a mode. *)
Definition visible (mode : RecoveryMode) (content : FragmentContent.FragmentContent) : bool :=
  match mode, content with
  | Full, _ => true
  | TraceOnly, FragmentContent.Transition _ _ _ _ => false
  | CentralizedContract, FragmentContent.Trace _ _ _ _ => false
  | _, _ => true
  end.

Section Protocol.
Context `{SerdeErrorText, JsonText, Sha256, Hex, Hmac, Ed25519, Jiff, Sandbox.WasmEncoder, Sandbox.Wasmi}.
Context `{!ToValue FragmentContent.FragmentContent, !ToValue Fragments.UnsignedEnvelope}.
Context `{!ToValue Fragments.Envelope.Envelope, !ToValue Candidate.Candidate}.
Context `{!ToValue Service.ServiceManifest, !ToValue (list FragmentContent.FragmentContent)}.

Definition validate_freshness (envelopes : list Fragments.Envelope.Envelope)
  (window : option EvidenceWindow) : result Error () :=
  match window with
  | None => Ok ()
  | Some window =>
      not_before ← ok_or (ts_strptime (not_before window)) (InvalidRegistry "evidence not_before is invalid");
      not_after ← ok_or (ts_strptime (not_after window)) (InvalidRegistry "evidence not_after is invalid");
      if not_after <? not_before then Err (InvalidRegistry "evidence freshness window is inverted") else
      for_each envelopes () (fun envelope _ =>
        issued_at ← ok_or (ts_strptime (Fragments.Envelope.issued_at envelope))
                          (InvalidEvidence "issued_at is invalid");
        if (issued_at <? not_before) || (not_after <? issued_at)
        then Err (InvalidEvidence "fragment falls outside the registered freshness window")
        else Ok ())
  end.

Definition validate_registry (registry : Registry.Registry) : result Error () :=
  let limits := Registry.resource_limits registry in
  let oracle := Registry.loss_oracle registry in
  let experiment := Registry.experiment registry in
  if str_is_empty (Registry.component registry) || str_is_empty (Registry.interface_version registry)
  then Err (InvalidRegistry "component and interface version are mandatory") else
  _ ← match Registry.service_manifest registry with
      | Some manifest =>
          _ ← Service.validate manifest;
          if negb (bool_decide (Service.component manifest = Registry.component registry))
             || negb (bool_decide (Service.interface_version manifest = Registry.interface_version registry))
          then Err (InvalidRegistry "service manifest identity does not match the recovery registry")
          else Ok ()
      | None => Ok ()
      end;
  if (Registry.required_domains registry =? 0) || (max_fragments limits =? 0)
     || (max_fragment_bytes limits =? 0) || (max_workspace_files limits =? 0)
     || (max_workspace_bytes limits =? 0)
  then Err (InvalidRegistry "domain and resource bounds must be positive") else
  if (vec_len (Registry.trusted_issuers registry) <? Registry.required_domains registry)
     || (10000 <? max_fragments limits) || (1048576 <? max_fragment_bytes limits)
     || (100000 <? max_workspace_files limits) || (1073741824 <? max_workspace_bytes limits)
  then Err (InvalidRegistry "configured recovery bounds exceed M0 safety maxima") else
  if bool_decide (baselines experiment = []) || bool_decide (primary_metrics experiment = [])
     || bool_decide (secondary_metrics experiment = [])
  then Err (InvalidRegistry "experiment baselines and metrics are mandatory") else
  if bool_decide (forbidden_paths oracle = []) || bool_decide (forbidden_sha256 oracle = [])
     || any (fun path => negb (is_absolute path)) (forbidden_paths oracle)
  then Err (InvalidRegistry "loss oracle requires absolute paths and forbidden digests") else
  if any (fun value => negb (str_len value =? 64) || bool_decide (hex_decode value = None))
         (forbidden_sha256 oracle)
  then Err (InvalidRegistry "forbidden artifact digests must be SHA-256 hex") else
  for_each (Registry.trusted_issuers registry).*2 () (fun policy _ => Fragments.validate_issuer_policy policy).

Definition recover (workspace : Workspace) (mode : RecoveryMode) : result (fault Error) RecoveryResult :=
  registry ← fails (read_registry workspace);
  let limits := Registry.resource_limits registry in
  let grammar := Registry.grammar registry in
  _ ← fails (Grammar.validate grammar);
  _ ← fails (validate_registry registry);
  envelopes ← fails (read_fragments workspace (max_fragments limits) (max_fragment_bytes limits));
  evidence ← Fragments.collect envelopes (Registry.trusted_issuers registry)
               (Registry.required_domains registry) (Registry.component registry)
               (Registry.interface_version registry);
  _ ← fails (validate_freshness (Fragments.envelopes evidence) (Registry.evidence_window registry));
  attestation ← fails (attest_absence workspace (forbidden_paths (Registry.loss_oracle registry))
                         (forbidden_sha256 (Registry.loss_oracle registry))
                         (max_workspace_files limits) (max_workspace_bytes limits));
  let all_contents := Fragments.Envelope.content <$> Fragments.envelopes evidence in
  let synthesis_contents := List.filter (visible mode) all_contents in
  let schemas := Fragments.Envelope.content <$>
    List.filter (fun item => bool_decide (Fragments.Envelope.kind item = Fragments.StateSchema))
           (Fragments.envelopes evidence) in
  let expected_schema := FragmentContent.StatePolicy (Grammar.states grammar)
                           (Grammar.initial_state grammar) in
  if negb (bool_decide (schemas = [expected_schema]))
  then Err (Fails (InvalidEvidence "state policy does not exactly match the grammar")) else
  '(candidate, examined) ← Synthesizer.reconstruct (Registry.component registry)
       (Registry.interface_version registry) grammar synthesis_contents;
  checker_candidate ← fails (CheckerWire.encode_candidate candidate);
  candidate_digest ← fails (digest candidate);
  if contains candidate_digest (forbidden_sha256 (Registry.loss_oracle registry))
  then Err (Fails (CheckerRejected "candidate is byte-identical to a forbidden artifact")) else
  coverage ← Checker.certify checker_candidate (Registry.component registry)
               (Registry.interface_version registry) all_contents;
  candidate_wasm ← fails (Sandbox.compile candidate);
  sandbox ← fails (Sandbox.verify candidate candidate_wasm);
  survivor_envelope_digests ← fails (collect_results digest (Fragments.envelopes evidence));
  service_manifest_digest ← fails (match Registry.service_manifest registry with
                                   | Some manifest => d ← digest manifest; Ok (Some d)
                                   | None => Ok None
                                   end);
  normalized_constraints_digest ← fails (digest all_contents);
  schema ← or_panic (schemas !! 0%nat);
  schema_digest ← fails (digest schema);
  Ok (Certified candidate (hex_encode candidate_wasm)
    {| protocol_version := "regeneration-v0";
       component := Registry.component registry;
       interface_version := Registry.interface_version registry;
       service_manifest_digest := service_manifest_digest;
       survivor_envelope_digests := survivor_envelope_digests;
       normalized_constraints_digest := normalized_constraints_digest;
       failure_domains := Fragments.domains evidence;
       verification_audit :=
         if any (fun event => negb (bool_decide (Fragments.audit_key_id event = "legacy-hmac")))
                (Fragments.audit evidence)
         then Some (Fragments.audit evidence) else None;
       grammar_version := Grammar.version grammar;
       search_bounds := {| max_candidates := Grammar.max_candidates grammar; examined := examined |};
       candidate_digest := candidate_digest;
       non_identical_to_forbidden_artifacts := true;
       checker_identity := "anasemble.checker.separate-semantics-shared-serde-v0";
       coverage := coverage;
       sandbox := sandbox;
       state_transform := {| mode := "identity"; schema_digest := schema_digest |};
       loss_attestation := attestation;
       experiment := Registry.experiment registry;
       deployment_preconditions :=
         ["candidate digest unchanged"; "atomic install"; "rollback available"] |}).

(** [None]: the pipeline unwinds. *)
Definition run_with_mode (workspace : Workspace) (mode : RecoveryMode) : option RecoveryResult :=
  match recover workspace mode with
  | Ok result => Some result
  | Err (Fails error) => Some (Refused (refusal_code error) (fmt error))
  | Err Panics => None
  end.

Definition run (workspace : Workspace) : option RecoveryResult := run_with_mode workspace Full.
End Protocol.

(** * What a certificate rests on *)

Section ProtocolFacts.
Context `{SerdeErrorText, JsonText, Sha256, Hex, Hmac, Ed25519, Jiff, Sandbox.WasmEncoder, Sandbox.Wasmi}.
Context `{!ToValue FragmentContent.FragmentContent, !ToValue Fragments.UnsignedEnvelope}.
Context `{!ToValue Fragments.Envelope.Envelope, !ToValue Candidate.Candidate}.
Context `{!ToValue Service.ServiceManifest, !ToValue (list FragmentContent.FragmentContent)}.

(** The evidence of a run: the fragments the workspace holds, collected. *)
Definition run_evidence (w : Workspace) (r : Registry.Registry) (e : Fragments.CollectedEvidence) : Prop :=
  exists l, read_fragments w (max_fragments (Registry.resource_limits r))
                             (max_fragment_bytes (Registry.resource_limits r)) = Ok l /\
  Fragments.collect l (Registry.trusted_issuers r) (Registry.required_domains r)
    (Registry.component r) (Registry.interface_version r) = Ok e.

Definition contents_of (e : Fragments.CollectedEvidence) : list FragmentContent.FragmentContent :=
  Fragments.Envelope.content <$> Fragments.envelopes e.

(** The steps a certified run went through. *)
Definition pipeline (w : Workspace) (m : RecoveryMode) (c : Candidate.Candidate) (wasm : string)
  (cert : Certificate) : Prop :=
  exists r e bytes module,
  let g := Registry.grammar r in
  let oracle := Registry.loss_oracle r in
  let limits := Registry.resource_limits r in
  (read_registry w = Ok r /\ Grammar.ok g /\ validate_registry r = Ok () /\ run_evidence w r e /\
   validate_freshness (Fragments.envelopes e) (Registry.evidence_window r) = Ok () /\
   attest_absence w (forbidden_paths oracle) (forbidden_sha256 oracle)
     (max_workspace_files limits) (max_workspace_bytes limits) = Ok (loss_attestation cert)) /\
  (Synthesizer.reconstruct (Registry.component r) (Registry.interface_version r) g
     (List.filter (visible m) (contents_of e)) = Ok (c, examined (search_bounds cert)) /\
   CheckerWire.encode_candidate c = Ok bytes /\
   Checker.certify bytes (Registry.component r) (Registry.interface_version r) (contents_of e)
     = Ok (coverage cert)) /\
  (Sandbox.compile c = Ok module /\ Sandbox.verify c module = Ok (sandbox cert) /\ wasm = hex_encode module) /\
  digest c = Ok (candidate_digest cert) /\ (candidate_digest cert ∉ forbidden_sha256 oracle) /\
  failure_domains cert = Fragments.domains e.

Lemma recover_certified w m c wasm cert :
  recover w m = Ok (Certified c wasm cert) -> pipeline w m c wasm cert.
Proof.
  unfold recover, pipeline, run_evidence, fails. intros Hr.
  apply bind_Ok in Hr as (r & Hreg%map_err_Ok & Hr).
  apply bind_Ok in Hr as ([] & Hg%map_err_Ok & Hr). apply Grammar.grammar_validate_ok in Hg.
  apply bind_Ok in Hr as ([] & Hv%map_err_Ok & Hr).
  apply bind_Ok in Hr as (l & Hl%map_err_Ok & Hr). apply bind_Ok in Hr as (e & He & Hr).
  apply bind_Ok in Hr as ([] & Hf%map_err_Ok & Hr). apply bind_Ok in Hr as (a & Ha%map_err_Ok & Hr).
  destruct (negb _) eqn:Hs in Hr; [done|]. apply bind_Ok in Hr as ([c' n] & Hc & Hr).
  apply bind_Ok in Hr as (bytes & Hb%map_err_Ok & Hr). apply bind_Ok in Hr as (d & Hd%map_err_Ok & Hr).
  destruct (contains _ _) eqn:Hforb in Hr; [done|]. apply contains_false in Hforb.
  apply bind_Ok in Hr as (cov & Hcov & Hr). apply bind_Ok in Hr as (module & Hm%map_err_Ok & Hr).
  apply bind_Ok in Hr as (sb & Hsb%map_err_Ok & Hr).
  repeat (apply bind_Ok in Hr as (? & _ & Hr)). injection Hr as <- <- <-.
  exists r, e, bytes, module. cbn [loss_attestation search_bounds examined coverage sandbox
    candidate_digest failure_domains]. split_and!; try done. by exists l.
Qed.

Lemma recover_total w m : recover w m <> Err Panics.
Proof.
  unfold recover. destruct (read_registry w) as [r|]; [|done]. cbn [fails map_err mbind result_bind].
  destruct (Grammar.validate _) as [[]|] eqn:Hg; [|done]. apply Grammar.grammar_validate_ok in Hg.
  cbn [fails map_err mbind result_bind].
  destruct (validate_registry r) as [[]|]; [|done]. cbn [fails map_err mbind result_bind].
  destruct (read_fragments _ _ _) as [l|]; [|done]. cbn [fails map_err mbind result_bind].
  unfold Fragments.collect. destruct (Fragments.collect_at _ _ _ _ _ _) as [e|err] eqn:He.
  2:{ cbn [fails map_err mbind result_bind]. intros [= ->]. by eapply Fragments.collect_at_total. }
  cbn [fails map_err mbind result_bind].
  destruct (validate_freshness _ _) as [[]|]; [|done]. cbn [fails map_err mbind result_bind].
  destruct (attest_absence _ _ _ _ _) as [a|]; [|done]. cbn [fails map_err mbind result_bind].
  destruct (bool_decide (_ = [_])) eqn:Hs; [|done]. split_bools. rewrite Hs. cbn [negb].
  destruct (Synthesizer.reconstruct _ _ _ _) as [[c n]|err] eqn:Hc.
  2:{ cbn [fails map_err mbind result_bind]. intros [= ->]. by eapply Synthesizer.reconstruct_total. }
  cbn [fails map_err mbind result_bind].
  destruct (CheckerWire.encode_candidate c) as [bytes|]; [|done]. cbn [fails map_err mbind result_bind].
  destruct (digest c) as [d|]; [|done]. cbn [fails map_err mbind result_bind].
  destruct (contains _ _); [done|].
  destruct (Checker.certify _ _ _ _) as [cov|err] eqn:Hcov.
  2:{ cbn [fails map_err mbind result_bind]. intros [= ->]. by eapply Checker.certify_total. }
  cbn [fails map_err mbind result_bind].
  destruct (Sandbox.compile c) as [module|]; [|done]. cbn [fails map_err mbind result_bind].
  destruct (Sandbox.verify _ _) as [sb|]; [|done]. cbn [fails map_err mbind result_bind].
  destruct (collect_results _ _) as [ds|]; [|done]. cbn [fails map_err mbind result_bind].
  destruct (match Registry.service_manifest r with Some _ => _ | None => _ end); [|done].
  cbn [fails map_err mbind result_bind].
  destruct (digest (Fragments.Envelope.content <$> _)) as [nd|]; [|done]. cbn [fails map_err mbind result_bind].
  cbn [or_panic ok_or lookup list_lookup mbind result_bind].
  by destruct (digest (FragmentContent.StatePolicy _ _)).
Qed.

Lemma recover_not_refused w m code message : recover w m <> Ok (Refused code message).
Proof.
  unfold recover, fails. intros Hr. do 7 (apply bind_Ok in Hr as (? & _ & Hr)).
  destruct (negb _) in Hr; [done|]. apply bind_Ok in Hr as ([] & _ & Hr).
  do 2 (apply bind_Ok in Hr as (? & _ & Hr)). destruct (contains _ _) in Hr; [done|].
  repeat (apply bind_Ok in Hr as (? & _ & Hr)). discriminate.
Qed.
End ProtocolFacts.

(** A forbidden digest written in upper case passes the check of the registry, which
    decodes it, and equals no digest the pipeline computes. *)
Lemma uppercase_forbidden_ignored
  `{SerdeErrorText, JsonText, Sha256Laws, HexLaws, !ToValue T} (x : T) (d forbidden : string) :
  (exists b, b ∈ bytes_of_string forbidden /\ is_ascii_uppercase b = true) ->
  digest x = Ok d -> contains d [forbidden] = false.
Proof.
  intros (b & Hb & Hup) Hd. apply contains_false. intros Hin%list_elem_of_singleton.
  subst d. rewrite digest_encode in Hd. apply bind_Ok in Hd as (bytes & _ & [= Hd]).
  unfold bytes_digest, Core.bytes_digest in Hd.
  pose proof (hex_encode_digits (sha256 bytes) (sha256_bytes bytes)) as Hdig.
  rewrite Hd, Forall_forall in Hdig. specialize (Hdig b Hb).
  unfold is_ascii_uppercase, is_ascii_digit, in_range in *. lia.
Qed.

Example uppercase_forbidden_validates :
  any (fun value => negb (str_len value =? 64) || bool_decide (@hex_decode Toy.hexi value = None))
      [String.concat "" (replicate 64 "A")] = false.
Proof. vm_compute. reflexivity. Qed.

(** * Properties *)

(** C4: when recovery certifies, in any mode, the regenerated candidate is a total
    machine over the registered grammar that meets every piece of the collected
    evidence, the held-out traces and the evidence hidden from the synthesizer
    included; the WebAssembly returned is compiled from it and computes it; its
    digest is none of the forbidden ones; and it was verified in the sandbox. *)
Theorem certified_recovery_sound
  `{SerdeErrorText, JsonText, Sha256, Hex, Hmac, Ed25519, Jiff, Sandbox.WasmEncoder, Sandbox.Wasmi,
    !ToValue FragmentContent.FragmentContent, !ToValue Fragments.UnsignedEnvelope,
    !ToValue Fragments.Envelope.Envelope, !ToValue Candidate.Candidate,
    !ToValue Service.ServiceManifest, !ToValue (list FragmentContent.FragmentContent)}
  w m c wasm cert :
  run_with_mode w m = Some (Certified c wasm cert) ->
  CheckerWire.candidate_fits c -> vec_len (CheckerWire.wire_candidate c) <= u64_max ->
  let d := Fsm.of_transitions (Candidate.transitions c) in
  exists r e body,
    (read_registry w = Ok r /\ run_evidence w r e) /\
    (Candidate.component c = Registry.component r /\
     Candidate.interface_version c = Registry.interface_version r /\
     Candidate.grammar c = Registry.grammar r) /\
    Fsm.implements d (Registry.grammar r) /\
    Forall (Checker.certifiable d (Registry.grammar r)) (contents_of e) /\
    (Sandbox.compile_body c = Ok body /\ Sandbox.computes body (Registry.grammar r) d /\
     wasm = hex_encode (Sandbox.finish (Sandbox.step_module body)) /\
     Sandbox.verify c (Sandbox.finish (Sandbox.step_module body)) = Ok (sandbox cert)) /\
    digest c = Ok (candidate_digest cert) /\
    (candidate_digest cert ∉ forbidden_sha256 (Registry.loss_oracle r)).
Proof.
  intros Hrun Hfit Hlen d. unfold run_with_mode in Hrun.
  destruct (recover w m) as [res|[|]] eqn:Hr; [injection Hrun as ->|done|done].
  apply recover_certified in Hr as (r & e & bytes & module & (Hreg & Hg & _ & He & _) &
    (Hc & Hb & Hcov) & (Hm & Hsb & ->) & Hd & Hforb & _).
  apply Synthesizer.reconstruct_identity in Hc as (Hcomp & Hver & Hgr); [|done].
  rewrite CheckerWire.encode_candidate_wire in Hb by done. injection Hb as <-.
  destruct (proj1 (Checker.certify_certified _ _ _ _) (ex_intro _ _ Hcov)) as (c' & Hdec & Hcert).
  apply CheckerWire.decode_candidate_iff in Hdec as [Hfit' Heq]; [|apply CheckerWire.wire_candidate_bytes|done].
  assert (c' = c) as ->.
  { assert (CheckerWire.decode_candidate (CheckerWire.wire_candidate c) = Ok c) as Hc
      by (apply CheckerWire.decode_candidate_iff; [apply CheckerWire.wire_candidate_bytes|done|done]).
    assert (CheckerWire.decode_candidate (CheckerWire.wire_candidate c) = Ok c') as Hc'
      by (apply CheckerWire.decode_candidate_iff; [apply CheckerWire.wire_candidate_bytes|done|done]).
    congruence. }
  destruct Hcert as (_ & _ & (Hok & Hnd & Hn) & Hall & _). rewrite Hgr in *.
  destruct (Sandbox.compile_body_computes c) as (body & Hbody & _ & _ & Hcomputes); [by rewrite Hgr..|done|].
  rewrite Hgr in Hcomputes. unfold Sandbox.compile in Hm. rewrite Hbody in Hm. injection Hm as <-.
  exists r, e, body. split_and!; try done. by apply Fsm.of_transitions_implements.
Qed.

(** C37: recovery never unwinds: every workspace gives a certified result or a
    refusal, and a refusal carries the code and text of the error that stopped it. *)
Theorem recovery_total
  `{SerdeErrorText, JsonText, Sha256, Hex, Hmac, Ed25519, Jiff, Sandbox.WasmEncoder, Sandbox.Wasmi,
    !ToValue FragmentContent.FragmentContent, !ToValue Fragments.UnsignedEnvelope,
    !ToValue Fragments.Envelope.Envelope, !ToValue Candidate.Candidate,
    !ToValue Service.ServiceManifest, !ToValue (list FragmentContent.FragmentContent)} w m :
  exists result, run_with_mode w m = Some result /\
  match result with
  | Certified _ _ _ => recover w m = Ok result
  | Refused code message =>
      exists error, recover w m = Err (Fails error) /\ code = refusal_code error /\ message = fmt error
  end.
Proof.
  unfold run_with_mode. pose proof (recover_total w m) as Ht. pose proof (recover_not_refused w m) as Hn.
  destruct (recover w m) as [res|[|error]]; [|done|].
  - exists res. split; [done|]. destruct res; [done|]. by destruct (Hn code message).
  - eexists. split; [done|]. cbn. by exists error.
Qed.

(** * Witnesses *)
Module ProtocolWitness.
#[local] Existing Instances Toy.sha Toy.hexi Toy.hmac Toy.ed Toy.jiff
  Sandbox.ToyWasm.encoder Sandbox.ToyWasm.wasmi.

#[local] Instance error_text : SerdeErrorText := "json".
#[local] Instance text : JsonText :=
  fun v => match v with String s => bytes_of_string s | _ => [] end.
#[local] Instance serialise_content : ToValue FragmentContent.FragmentContent :=
  fun c => Some (String (match c with
                         | FragmentContent.Transition s _ _ _ => "transition" +:+ s
                         | FragmentContent.Trace _ _ _ _ => "trace"
                         | _ => "other" end)).
#[local] Instance serialise_unsigned : ToValue Fragments.UnsignedEnvelope :=
  fun u => Some (String (Fragments.u_content_digest u)).
#[local] Instance serialise_envelope : ToValue Fragments.Envelope.Envelope :=
  fun e => Some (String (Fragments.Envelope.signature e)).
#[local] Instance serialise_candidate : ToValue Candidate.Candidate :=
  fun c => Some (String (Candidate.component c)).
#[local] Instance serialise_manifest : ToValue Service.ServiceManifest := fun _ => None.
#[local] Instance serialise_contents : ToValue (list FragmentContent.FragmentContent) :=
  fun l => Some (Array []).

Definition key : list Z := replicate 32 7.

Definition fragment (kind : Fragments.FragmentKind) (sequence : Z)
  (content : FragmentContent.FragmentContent) : Fragments.Envelope.Envelope :=
  let raw := {| Fragments.Envelope.kind := kind; Fragments.Envelope.component := "door";
                Fragments.Envelope.interface_version := "1"; Fragments.Envelope.issuer := "a";
                Fragments.Envelope.failure_domain := "site"; Fragments.Envelope.issued_at := "2026";
                Fragments.Envelope.sequence := sequence; Fragments.Envelope.content_digest := "";
                Fragments.Envelope.dependencies := []; Fragments.Envelope.content := content;
                Fragments.Envelope.signature := "" |} in
  match Fragments.sign raw key with Ok e => e | Err _ => raw end.

Definition grammar : Grammar.Grammar :=
  {| Grammar.version := "fsm-v0"; Grammar.inputs := ["i"]; Grammar.outputs := ["x"];
     Grammar.states := ["s"]; Grammar.initial_state := "s"; Grammar.max_candidates := 10 |}.

Definition registry : Registry.Registry :=
  {| Registry.component := "door"; Registry.interface_version := "1"; Registry.grammar := grammar;
     Registry.required_domains := 1;
     Registry.trusted_issuers :=
       [("a", Fragments.LegacyHmac {| Fragments.LegacyHmacPolicy.hmac_sha256_key := hex_encode key;
                                      Fragments.LegacyHmacPolicy.failure_domain := "site" |})];
     Registry.loss_oracle := {| forbidden_paths := ["/lost"]; forbidden_sha256 := [hex_encode (replicate 32 0)] |};
     Registry.resource_limits := {| max_fragments := 10; max_fragment_bytes := 1000;
                                    max_workspace_files := 10; max_workspace_bytes := 1000 |};
     Registry.experiment := {| seed := 1; baselines := ["b"]; primary_metrics := ["p"]; secondary_metrics := ["s"] |};
     Registry.evidence_window := None; Registry.service_manifest := None |}.

Definition workspace : Workspace :=
  {| read_registry := Ok registry;
     read_fragments := fun _ _ => Ok
       [fragment Fragments.Contract 1 (FragmentContent.Transition "s" "i" "s" "x");
        fragment Fragments.StateSchema 2 (FragmentContent.StatePolicy ["s"] "s");
        fragment Fragments.Trace 3 (FragmentContent.Trace HeldOut "s" ["i"; "i"] ["x"; "x"])];
     attest_absence := fun _ _ _ _ => Ok
       {| LossAttestation.method := "path-and-sha256-scan-v1"; LossAttestation.recovery_root := "/w";
          LossAttestation.forbidden_paths_absent := true; LossAttestation.forbidden_digests_absent := true;
          LossAttestation.scanned_files := 4; LossAttestation.scanned_bytes := 100 |} |}.

Definition door : Candidate.Candidate :=
  {| Candidate.component := "door"; Candidate.interface_version := "1"; Candidate.grammar := grammar;
     Candidate.transitions := [{| Transition.state := "s"; Transition.input := "i";
                                  Transition.next_state := "s"; Transition.output := "x" |}] |}.

Lemma certifies : exists wasm cert, run_with_mode workspace Full = Some (Certified door wasm cert).
Proof. do 2 eexists. vm_compute. reflexivity. Qed.

Lemma door_fits : CheckerWire.candidate_fits door.
Proof.
  unfold CheckerWire.candidate_fits, CheckerWire.strings_fit, CheckerWire.transition_fits,
    CheckerWire.string_fits, utf8. cbn.
  repeat (split || constructor); try (vm_compute; reflexivity); vm_compute; discriminate.
Qed.

Example certified_recovery_sound_witness :
  exists wasm cert, run_with_mode workspace Full = Some (Certified door wasm cert) /\
  Fsm.implements (Fsm.of_transitions (Candidate.transitions door)) grammar.
Proof.
  destruct certifies as (wasm & cert & Hrun). exists wasm, cert. split; [exact Hrun|].
  destruct (certified_recovery_sound workspace Full door wasm cert Hrun door_fits)
    as (r & e & body & [Hr _] & _ & Himpl & _); [vm_compute; discriminate|].
  assert (Registry.grammar r = grammar) as <- by (injection Hr as <-; reflexivity). exact Himpl.
Defined.
End ProtocolWitness.
