(* ===== verification/Operations.v ===== *)
(** src/operations.rs: the durable queue of recovery jobs.  A [Store] is what lies under
    its root: the files of the root itself (configuration, lock, runner lease), those
    of jobs/ and those of results/, each a map from names to contents.  Operations are
    computations of [Effects] on it: an error keeps the writes made before it.

    What is outside the store is an argument: the workspace's files ([Node]), the clock,
    the process identifier and the executor of a job.  Every entry of the three
    directories is a regular file; permissions and [fsync] are not modelled, nor the
    thread that renews the runner lease ([renew_runner_lease] is).  [attempts] wraps as
    a release build does. *)
From stdpp Require Import pretty.
From S2P Require Import Prelude Effects FileTree External Json Core Model Canonical.
From S2P Require Service Sandbox Fragments Protocol.

Definition MAX_JOBS : Z := 1024.
Definition MAX_RECORD_BYTES : Z := 65536.
Definition MAX_WORKSPACE_FILES : Z := 1024.
Definition MAX_WORKSPACE_BYTES : Z := 64 * 1024 * 1024.
Definition MAX_RESULT_BYTES : Z := 16 * 1024 * 1024.

Definition invalid (message : string) : Error := InvalidEvidence message.

Module OperationsConfig.
Record OperationsConfig := {
  version : string;
  max_queued : Z;
  max_batch : Z;
  max_attempts : Z;
  lease_seconds : Z;
}.

#[global] Instance OperationsConfig_eq_dec : EqDecision OperationsConfig.
Proof. solve_decision. Defined.

(** [impl Default] *)
Definition default : OperationsConfig :=
  {| version := "operations-config-v1"; max_queued := 256; max_batch := 8; max_attempts := 3;
     lease_seconds := 300 |}.

Definition validate (self : OperationsConfig) : result Error () :=
  if negb (bool_decide (version self = "operations-config-v1"))
     || negb (Service.within 1 MAX_JOBS (max_queued self))
     || negb (Service.within 1 64 (max_batch self))
     || negb (Service.within 1 10 (max_attempts self))
     || negb (Service.within 10 86400 (lease_seconds self))
  then Err (invalid "operations configuration is outside supported bounds")
  else Ok ().
End OperationsConfig.

(** The earlier form that [migrate] reads. *)
Module Legacy.
Record Legacy := {
  version : string;
  queue_capacity : Z;
  jobs_per_run : Z;
  attempts : Z;
  lease_seconds : Z;
}.
End Legacy.

(** [OperationsConfig::migrate] *)
Definition migrate `{SerdeErrorText, !FromSlice json, !FromValue OperationsConfig.OperationsConfig,
    !FromValue Legacy.Legacy} (input : list Z) : result Error OperationsConfig.OperationsConfig :=
  value ← ok_or (from_slice (T := json) input) (Model.Json serde_error_text);
  let field := match value with Object members => bt_get "version" members | _ => None end in
  let version := v ← field; as_str v in
  if bool_decide (version = Some "operations-config-v1") then
    config ← ok_or (from_value (T := OperationsConfig.OperationsConfig) value) (Model.Json serde_error_text);
    _ ← OperationsConfig.validate config;
    Ok config
  else if bool_decide (version = Some "operations-config-v0") then
    legacy ← ok_or (from_value (T := Legacy.Legacy) value) (Model.Json serde_error_text);
    if negb (bool_decide (Legacy.version legacy = "operations-config-v0"))
    then Err (invalid "legacy operations configuration is invalid") else
    let config := {| OperationsConfig.version := "operations-config-v1";
                     OperationsConfig.max_queued := Legacy.queue_capacity legacy;
                     OperationsConfig.max_batch := Legacy.jobs_per_run legacy;
                     OperationsConfig.max_attempts := Legacy.attempts legacy;
                     OperationsConfig.lease_seconds := Legacy.lease_seconds legacy |} in
    _ ← OperationsConfig.validate config;
    Ok config
  else Err (invalid "operations configuration version is unsupported").

Inductive JobState := Pending | Running | Certified | Refused | Failed.

#[export] Instance JobState_eq_dec : EqDecision JobState.
Proof. solve_decision. Defined.

Module JobEvent.
Record JobEvent := {
  sequence : Z;
  at_unix : Z;
  kind : string;
  previous_sha256 : option string;
  event_sha256 : string;
}.

#[global] Instance JobEvent_eq_dec : EqDecision JobEvent.
Proof. solve_decision. Defined.

Definition with_event_sha256 (d : string) (e : JobEvent) : JobEvent :=
  {| sequence := sequence e; at_unix := at_unix e; kind := kind e;
     previous_sha256 := previous_sha256 e; event_sha256 := d |}.
End JobEvent.

Module RecoveryJob.
Record RecoveryJob := {
  version : string;
  job_id : string;
  workspace : string;
  workspace_sha256 : string;
  submitted_unix : Z;
  state : JobState;
  attempts : Z;
  lease_expires_unix : option Z;
  result_sha256 : option string;
  refusal_code : option RefusalCode.RefusalCode;
  events : list JobEvent.JobEvent;
  record_sha256 : string;
}.

#[global] Instance RecoveryJob_eq_dec : EqDecision RecoveryJob.
Proof. solve_decision. Defined.

(** Assignments to fields. *)
Definition with_state (s : JobState) (a : Z) (l : option Z) (j : RecoveryJob) : RecoveryJob :=
  {| version := version j; job_id := job_id j; workspace := workspace j;
     workspace_sha256 := workspace_sha256 j; submitted_unix := submitted_unix j;
     state := s; attempts := a; lease_expires_unix := l; result_sha256 := result_sha256 j;
     refusal_code := refusal_code j; events := events j; record_sha256 := record_sha256 j |}.
Definition with_outcome (d : option string) (c : option RefusalCode.RefusalCode) (j : RecoveryJob)
  : RecoveryJob :=
  {| version := version j; job_id := job_id j; workspace := workspace j;
     workspace_sha256 := workspace_sha256 j; submitted_unix := submitted_unix j;
     state := state j; attempts := attempts j; lease_expires_unix := lease_expires_unix j;
     result_sha256 := d; refusal_code := c; events := events j; record_sha256 := record_sha256 j |}.
Definition with_events (es : list JobEvent.JobEvent) (j : RecoveryJob) : RecoveryJob :=
  {| version := version j; job_id := job_id j; workspace := workspace j;
     workspace_sha256 := workspace_sha256 j; submitted_unix := submitted_unix j;
     state := state j; attempts := attempts j; lease_expires_unix := lease_expires_unix j;
     result_sha256 := result_sha256 j; refusal_code := refusal_code j; events := es;
     record_sha256 := record_sha256 j |}.
Definition with_record_sha256 (d : string) (j : RecoveryJob) : RecoveryJob :=
  {| version := version j; job_id := job_id j; workspace := workspace j;
     workspace_sha256 := workspace_sha256 j; submitted_unix := submitted_unix j;
     state := state j; attempts := attempts j; lease_expires_unix := lease_expires_unix j;
     result_sha256 := result_sha256 j; refusal_code := refusal_code j; events := events j;
     record_sha256 := d |}.
End RecoveryJob.
Import RecoveryJob.

Module EnqueueReceipt.
Record EnqueueReceipt := { job_id : string; workspace_sha256 : string; state : JobState }.
End EnqueueReceipt.

Module OperationsMetrics.
Record OperationsMetrics := {
  jobs_total : Z;
  pending : Z;
  running : Z;
  certified : Z;
  refused : Z;
  failed : Z;
  restart_recoveries : Z;
  attempts_total : Z;
}.
End OperationsMetrics.

Module OperationsStatus.
Record OperationsStatus := {
  version : string;
  healthy : bool;
  queue_capacity : Z;
  queue_available : Z;
  metrics : OperationsMetrics.OperationsMetrics;
  diagnostic_codes : list string;
}.
End OperationsStatus.

Module BatchReceipt.
Record BatchReceipt := {
  claimed : Z;
  certified : Z;
  refused : Z;
  failed : Z;
  recovered_after_restart : Z;
}.
End BatchReceipt.

Module SupportJob.
Record SupportJob := {
  job_id : string;
  workspace_sha256 : string;
  state : JobState;
  attempts : Z;
  refusal_code : option RefusalCode.RefusalCode;
  event_digests : list string;
}.
End SupportJob.

Module SupportBundle.
Record SupportBundle := {
  version : string;
  generated_unix : Z;
  config_sha256 : string;
  status : OperationsStatus.OperationsStatus;
  jobs : list SupportJob.SupportJob;
  bundle_sha256 : string;
}.
End SupportBundle.

Module PrunedJob.
Record PrunedJob := { job_id : string; record_sha256 : string; result_sha256 : option string }.
End PrunedJob.

Module PruneReceipt.
Record PruneReceipt := { version : string; jobs : list PrunedJob.PrunedJob }.
End PruneReceipt.

Inductive RunFailurePoint := NoFailure | AfterClaim.

#[export] Instance RunFailurePoint_eq_dec : EqDecision RunFailurePoint.
Proof. solve_decision. Defined.

Module RunnerLeaseRecord.
Record RunnerLeaseRecord := { version : string; runner_id : string; expires_unix : Z }.

#[global] Instance RunnerLeaseRecord_eq_dec : EqDecision RunnerLeaseRecord.
Proof. solve_decision. Defined.
End RunnerLeaseRecord.

(** * Files *)

Abbreviation Directory := (gmap string (list Z)).

Section Files.
Context `{OsErrorText}.

Definition read_regular (path : string) (max : Z) (d : Directory) : result Error (list Z) :=
  match d !! path with
  | None => Err (Io not_found)
  | Some bytes =>
      if max <? vec_len bytes
      then Err (invalid "operations file is invalid or exceeds its byte bound")
      else Ok bytes
  end.

Definition write_new (path : string) (bytes : list Z) : op Directory Error () := fun d =>
  match d !! path with
  | None => (Ok (), <[path := bytes]> d)
  | Some _ => (Err (Io already_exists), d)
  end.

(** [fs::rename] and [fs::remove_file] *)
Definition rename (from to : string) : op Directory Error () := fun d =>
  match d !! from with
  | None => (Err (Io not_found), d)
  | Some bytes => (Ok (), <[to := bytes]> (delete from d))
  end.
Definition remove_file (path : string) : op Directory Error () := fun d =>
  match d !! path with
  | None => (Err (Io not_found), d)
  | Some _ => (Ok (), delete path d)
  end.

Definition atomic_replace (path temporary : string) (bytes : list Z) : op Directory Error () :=
  present ← reads (fun d => Ok (bool_decide (is_Some (d !! temporary))));
  if present : bool
  then fail (invalid "stale operations temporary file requires operator action") else
  _ ← write_new temporary bytes;
  rename temporary path.
End Files.

(** [Path::extension] of a file name: what follows its last dot, unless the name has no
    other and begins with it. *)
Definition extension (file : string) : option string :=
  match Fragments.split_on "." file with
  | [] | [_] => None
  | [String.EmptyString; _] => None
  | pieces => last pieces
  end.

(** What lies under the root of a store. *)
Record Store := { root : Directory; jobs : Directory; results : Directory }.

Definition in_root {A} (m : op Directory Error A) : op Store Error A := fun s =>
  let '(r, d) := m (root s) in (r, {| root := d; jobs := jobs s; results := results s |}).
Definition in_jobs {A} (m : op Directory Error A) : op Store Error A := fun s =>
  let '(r, d) := m (jobs s) in (r, {| root := root s; jobs := d; results := results s |}).
Definition in_results {A} (m : op Directory Error A) : op Store Error A := fun s =>
  let '(r, d) := m (results s) in (r, {| root := root s; jobs := jobs s; results := d |}).

(** A value with a destructor: [release] runs however [m] ends. *)
Definition finally {A} (m : op Store Error A) (release : Store -> Store) : op Store Error A := fun s =>
  let '(r, s') := m s in (r, release s').

(** The outcome of an operation as a value. *)
Definition try_op {S E A} (m : op S E A) : op S E (result E A) := fun s =>
  let '(r, s') := m s in (Ok r, s').

(** [Lock]: held from [acquire] until it is dropped.  Operations are atomic, so that
    a lock that is there stays there through the attempts of [acquire]. *)
Definition lock_path : string := ".operations.lock".
Definition lock_acquire `{OsErrorText} : op Store Error () :=
  r ← try_op (in_root (write_new lock_path []));
  match r with
  | Ok _ => mret ()
  | Err (Io error) =>
      if bool_decide (error = already_exists) then fail (invalid "operations store is locked")
      else fail (Io error)
  | Err error => fail error
  end.
Definition lock_drop (s : Store) : Store :=
  {| root := delete lock_path (root s); jobs := jobs s; results := results s |}.
Definition with_lock `{OsErrorText} {A} (m : op Store Error A) : op Store Error A :=
  _ ← lock_acquire; finally m lock_drop.

(** * The workspace a job refers to *)

Section WorkspaceReference.
Context `{SerdeErrorText, OsErrorText, JsonText, Sha256, Hex, !ToValue (btree_map string string)}.

(** The folders still to read with their path below the workspace, the digests of the
    files read, and their bytes. *)
Definition Scan : Type := list (string * Node) * btree_map string string * Z.

(** The body of the loop over the entries of a folder. *)
Definition scan_entry (prefix : string) (entry : string * Node) (scan : Scan) : result Error Scan :=
  let '(stack, files, total_bytes) := scan in
  let '(name, child) := entry in
  let relative := if str_is_empty prefix then name else prefix +:+ "/" +:+ name in
  match child with
  | SymbolicLink => Err (invalid "operations workspace contains a symbolic link")
  | Folder _ => Ok ((relative, child) :: stack, files, total_bytes)
  | OtherEntry => Err (invalid "operations workspace contains a non-regular entry")
  | RegularFile contents =>
      if MAX_WORKSPACE_FILES <=? vec_len files
      then Err (invalid "operations workspace exceeds 1024 files") else
      total_bytes ← ok_or (checked_add u64_max total_bytes (vec_len contents))
                          (invalid "operations workspace byte count overflow");
      if MAX_WORKSPACE_BYTES <? total_bytes
      then Err (invalid "operations workspace exceeds 64 MiB") else
      if negb (bool_decide (utf8 relative))
      then Err (invalid "operations workspace path is not UTF-8") else
      Ok (stack, bt_insert relative (bytes_digest contents) files, total_bytes)
  end.

(** The loop over the stack; [None] when it is cut short. *)
Fixpoint scan_folders (fuel : nat) (scan : Scan) : option (result Error (btree_map string string)) :=
  match scan with
  | ([], files, _) => Some (Ok files)
  | ((prefix, directory) :: stack, files, total_bytes) =>
      match fuel with
      | O => None
      | S fuel =>
          match directory with
          | Folder entries =>
              match for_each entries (stack, files, total_bytes) (scan_entry prefix) with
              | Ok scan => scan_folders fuel scan
              | Err e => Some (Err e)
              end
          | _ => Some (Err (invalid "operations path must be a real directory"))
          end
      end
  end.

(** One round per folder, and one for a root that is not a folder. *)
Definition scan_workspace (root : Node) : option (result Error (btree_map string string)) :=
  scan_folders (S (folders root)) ([("", root)], [], 0).

(** [None] of the scan does not occur ([scan_workspace_total]). *)
Definition digest_workspace_reference (workspace : option Node) : result Error string :=
  root ← ok_or workspace (Io not_found);
  match scan_workspace root with
  | Some files => files ← files; digest files
  | None => Err (invalid "operations workspace scan was cut short")
  end.

Definition validate_directory (path : option Node) : result Error () :=
  match path with
  | None => Err (Io not_found)
  | Some (Folder _) => Ok ()
  | Some _ => Err (invalid "operations path must be a real directory")
  end.
End WorkspaceReference.

(** * Jobs *)

Section Jobs.
Context `{SerdeErrorText, JsonText, Sha256, Hex, !ToValue RecoveryJob, !ToValue JobEvent.JobEvent}.

Definition append_event (job : RecoveryJob) (at_unix : Z) (kind : string) : result Error RecoveryJob :=
  if (64 <=? vec_len (events job)) || (64 <? str_len kind)
  then Err (invalid "job audit event bound exceeded") else
  sequence ← ok_or (let n := vec_len (events job) in if n <=? u32_max then Some n else None)
                   (invalid "event sequence overflow");
  let event := {| JobEvent.sequence := sequence; JobEvent.at_unix := at_unix; JobEvent.kind := kind;
                  JobEvent.previous_sha256 := JobEvent.event_sha256 <$> last (events job);
                  JobEvent.event_sha256 := "" |} in
  event_sha256 ← digest event;
  Ok (with_events (events job ++ [JobEvent.with_event_sha256 event_sha256 event]) job).

Definition seal_record (job : RecoveryJob) : result Error RecoveryJob :=
  let job := with_record_sha256 "" job in
  record_sha256 ← digest job;
  Ok (with_record_sha256 record_sha256 job).

Definition validate_job_id (value : string) : result Error () :=
  if negb (str_len value =? 28) || negb (String.prefix "job-" value)
     || negb (all is_ascii_hexdigit (drop 4 (bytes_of_string value)))
  then Err (invalid "recovery job ID is invalid")
  else Ok ().

(** The loop of [validate_job] over the audit chain: an index, and the last digest. *)
Definition validate_event (event : JobEvent.JobEvent) (st : Z * option string)
  : result Error (Z * option string) :=
  let '(index, previous) := st in
  if negb (JobEvent.sequence event =? index)
     || negb (bool_decide (JobEvent.previous_sha256 event = previous))
  then Err (invalid "recovery job audit chain is discontinuous") else
  let expected := JobEvent.event_sha256 event in
  actual ← digest (JobEvent.with_event_sha256 "" event);
  if negb (bool_decide (actual = expected))
  then Err (invalid "recovery job audit event digest is invalid")
  else Ok (index + 1, Some expected).

Definition validate_job (job : RecoveryJob) : result Error () :=
  _ ← validate_job_id (job_id job);
  if negb (bool_decide (version job = "recovery-job-v1")) || bool_decide (events job = [])
     || (64 <? vec_len (events job))
  then Err (invalid "recovery job structure is invalid") else
  _ ← for_each (events job) (0, None) validate_event;
  actual ← digest (with_record_sha256 "" job);
  if negb (bool_decide (actual = record_sha256 job))
  then Err (invalid "recovery job record digest is invalid")
  else Ok ().
End Jobs.

Definition in_state (s : JobState) (job : RecoveryJob) : bool := bool_decide (state job = s).

(** [matches!(job.state, Certified | Refused | Failed)] *)
Definition is_terminal (job : RecoveryJob) : bool :=
  in_state Certified job || in_state Refused job || in_state Failed job.

(** [filter(..).count()] *)
Definition count {A} (p : A -> bool) (l : list A) : Z := vec_len (filter (fun x => p x = true) l).

Definition metrics (jobs : list RecoveryJob) : OperationsMetrics.OperationsMetrics :=
  foldl (fun m job =>
    {| OperationsMetrics.jobs_total := OperationsMetrics.jobs_total m + 1;
       OperationsMetrics.pending := OperationsMetrics.pending m + Z.b2z (in_state Pending job);
       OperationsMetrics.running := OperationsMetrics.running m + Z.b2z (in_state Running job);
       OperationsMetrics.certified := OperationsMetrics.certified m + Z.b2z (in_state Certified job);
       OperationsMetrics.refused := OperationsMetrics.refused m + Z.b2z (in_state Refused job);
       OperationsMetrics.failed := OperationsMetrics.failed m + Z.b2z (in_state Failed job);
       OperationsMetrics.restart_recoveries := OperationsMetrics.restart_recoveries m
         + count (fun e => bool_decide (JobEvent.kind e = "JOB_RECOVERED_AFTER_RESTART")) (events job);
       OperationsMetrics.attempts_total := OperationsMetrics.attempts_total m + attempts job |})
    {| OperationsMetrics.jobs_total := 0; OperationsMetrics.pending := 0;
       OperationsMetrics.running := 0; OperationsMetrics.certified := 0;
       OperationsMetrics.refused := 0; OperationsMetrics.failed := 0;
       OperationsMetrics.restart_recoveries := 0; OperationsMetrics.attempts_total := 0 |}
    jobs.

(** The key that [claim_next] and [prune_terminal] sort by. *)
Definition submission_key (job : RecoveryJob) : Z * string := (submitted_unix job, job_id job).

Definition job_path (job_id : string) : string := job_id +:+ ".json".

(** * The store *)

Section Operations.
Context `{SerdeErrorText, OsErrorText, JsonText, Sha256, Hex}.
Context `{!ToValue OperationsConfig.OperationsConfig, !FromValue OperationsConfig.OperationsConfig}.
Context `{!FromValue Legacy.Legacy, !FromSlice json}.
Context `{!ToValue RecoveryJob, !FromSlice RecoveryJob, !ToValue JobEvent.JobEvent}.
Context `{!ToValue RunnerLeaseRecord.RunnerLeaseRecord, !FromSlice RunnerLeaseRecord.RunnerLeaseRecord}.
Context `{!ToValue (string * Z), !ToValue (btree_map string string), !ToValue SupportBundle.SupportBundle}.
Context `{!ToValue Protocol.RecoveryResult}.

(** [OperationsStore::create] and [open] on what is at the root, if anything is. *)
Definition create (at_root : option Store) (config : OperationsConfig.OperationsConfig)
  : result Error OperationsConfig.OperationsConfig * option Store :=
  match OperationsConfig.validate config with
  | Err e => (Err e, at_root)
  | Ok _ =>
      match at_root with
      | Some _ => (Err (invalid "operations root already exists"), at_root)
      | None =>
          let '(r, s) := (bytes ← lift (encode config);
                          _ ← in_root (write_new "config.json" bytes);
                          mret config) {| root := ∅; jobs := ∅; results := ∅ |} in
          (r, Some s)
      end
  end.

Definition open (at_root : option Store) : result Error OperationsConfig.OperationsConfig :=
  s ← ok_or at_root (Io not_found);
  bytes ← read_regular "config.json" 65536 (root s);
  migrate bytes.

(** The loop of [read_jobs] over the entries of the directory. *)
Definition read_entry (entry : string * list Z) (paths : list string) : result Error (list string) :=
  if MAX_JOBS <=? vec_len paths then Err (invalid "operations job count exceeded 4096") else
  if negb (bool_decide (extension entry.1 = Some "json"))
  then Err (invalid "operations jobs directory contains an unknown entry")
  else Ok (paths ++ [entry.1]).

Definition read_job_file (path : string) (d : Directory) : result Error RecoveryJob :=
  bytes ← read_regular path MAX_RECORD_BYTES d;
  job ← ok_or (from_slice (T := RecoveryJob) bytes) (Model.Json serde_error_text);
  _ ← validate_job job;
  Ok job.

(** [map_to_list] is some order on the entries, as [fs::read_dir] is. *)
Definition read_jobs : op Store Error (list RecoveryJob) := reads (fun s =>
  paths ← for_each (map_to_list (jobs s)) [] read_entry;
  collect_results (fun path => read_job_file path (jobs s)) (sort_by_key id paths)).

Definition read_job (id : string) : op Store Error RecoveryJob := reads (fun s =>
  _ ← validate_job_id id;
  read_job_file (job_path id) (jobs s)).

(** The job as it is sealed and written. *)
Definition replace_job (job : RecoveryJob) : op Store Error RecoveryJob :=
  job ← lift (seal_record job);
  bytes ← lift (encode job);
  _ ← in_jobs (atomic_replace (job_path (job_id job)) ("." +:+ job_id job +:+ ".tmp") bytes);
  mret job.

Definition is_queued (job : RecoveryJob) : bool := in_state Pending job || in_state Running job.

Definition enqueue (config : OperationsConfig.OperationsConfig)
  (canonicalize : string -> result Error string) (tree : string -> option Node)
  (workspace : string) (submitted_unix : Z) : op Store Error EnqueueReceipt.EnqueueReceipt :=
  workspace ← lift (canonicalize workspace);
  _ ← lift (validate_directory (tree workspace));
  workspace_sha256 ← lift (digest_workspace_reference (tree workspace));
  with_lock (
    jobs ← read_jobs;
    if OperationsConfig.max_queued config <=? count is_queued jobs
    then fail (invalid "operations queue backpressure limit reached") else
    id_material ← lift (encode (workspace_sha256, submitted_unix));
    let job_id := "job-" +:+ String.substring 0 24 (bytes_digest id_material) in
    present ← in_jobs (reads (fun d => Ok (bool_decide (is_Some (d !! job_path job_id)))));
    if present : bool then fail (invalid "duplicate recovery job already exists") else
    let job := {| RecoveryJob.version := "recovery-job-v1"; RecoveryJob.job_id := job_id;
                  RecoveryJob.workspace := workspace;
                  RecoveryJob.workspace_sha256 := workspace_sha256;
                  RecoveryJob.submitted_unix := submitted_unix; state := Pending; attempts := 0;
                  lease_expires_unix := None; result_sha256 := None;
                  RecoveryJob.refusal_code := None; events := []; record_sha256 := "" |} in
    job ← lift (append_event job submitted_unix "JOB_ENQUEUED");
    job ← lift (seal_record job);
    bytes ← lift (encode job);
    _ ← in_jobs (write_new (job_path job_id) bytes);
    mret {| EnqueueReceipt.job_id := job_id; EnqueueReceipt.workspace_sha256 := workspace_sha256;
            EnqueueReceipt.state := Pending |}).

(** ** Claiming *)

Definition lease_expired (now_unix : Z) (job : RecoveryJob) : bool :=
  in_state Running job &&
  match lease_expires_unix job with Some deadline => deadline <=? now_unix | None => false end.

(** The body of the recovery loop of [claim_next], for a job whose lease has expired. *)
Definition recover_expired (config : OperationsConfig.OperationsConfig) (now_unix : Z)
  (job : RecoveryJob) : result Error (RecoveryJob * Z) :=
  if OperationsConfig.max_attempts config <=? attempts job then
    job ← append_event (with_state Failed (attempts job) None job) now_unix "RESTART_ATTEMPTS_EXHAUSTED";
    Ok (job, 0)
  else
    job ← append_event (with_state Pending (attempts job) None job) now_unix "JOB_RECOVERED_AFTER_RESTART";
    Ok (job, 1).

Definition recover_job (config : OperationsConfig.OperationsConfig) (now_unix : Z)
  (job : RecoveryJob) (st : list RecoveryJob * Z) : op Store Error (list RecoveryJob * Z) :=
  let '(done, recovered) := st in
  if lease_expired now_unix job then
    '(job, n) ← lift (recover_expired config now_unix job);
    job ← replace_job job;
    mret (done ++ [job], recovered + n)
  else mret (done ++ [job], recovered).

Definition claimed_job (config : OperationsConfig.OperationsConfig) (now_unix : Z)
  (job : RecoveryJob) : result Error RecoveryJob :=
  append_event
    (with_state Running (as_u32 (attempts job + 1))
       (Some (saturating_add_u64 now_unix (OperationsConfig.lease_seconds config))) job)
    now_unix "JOB_CLAIMED".

Definition claim_next (config : OperationsConfig.OperationsConfig) (now_unix : Z)
  : op Store Error (option (RecoveryJob * Z)) :=
  with_lock (
    jobs ← read_jobs;
    '(jobs, recovered) ← op_for jobs ([], 0) (recover_job config now_unix);
    match List.find (in_state Pending) (sort_by_key submission_key jobs) with
    | None => mret None
    | Some job =>
        job ← lift (claimed_job config now_unix job);
        job ← replace_job job;
        mret (Some (job, recovered))
    end).

(** ** Finishing *)

Definition finish (id : string) (now_unix : Z) (final : JobState) (result_sha256 : string)
  (refusal_code : option RefusalCode.RefusalCode) : op Store Error () :=
  with_lock (
    job ← read_job id;
    if negb (in_state Running job)
    then fail (invalid "job completion lost its running lease") else
    event_kind ← lift (match final with
                       | Certified => Ok "JOB_CERTIFIED"
                       | Refused => Ok "JOB_REFUSED"
                       | _ => Err (invalid "job completion state is invalid")
                       end);
    let job := with_outcome (Some result_sha256) refusal_code (with_state final (attempts job) None job) in
    job ← lift (append_event job now_unix event_kind);
    _ ← replace_job job;
    mret ()).

Definition finish_failed (id : string) (now_unix : Z) (event : string) : op Store Error () :=
  with_lock (
    job ← read_job id;
    job ← lift (append_event (with_state Failed (attempts job) None job) now_unix event);
    _ ← replace_job job;
    mret ()).

Definition write_result (id : string) (bytes : list Z) : op Store Error () :=
  in_results (
    present ← reads (fun d => Ok (bool_decide (is_Some (d !! job_path id))));
    if present : bool then
      existing ← reads (read_regular (job_path id) MAX_RESULT_BYTES);
      if negb (bool_decide (existing = bytes))
      then fail (invalid "job result conflicts with durable result")
      else mret ()
    else write_new (job_path id) bytes).

(** ** The runner lease *)

Definition runner_lease_path : string := ".runner-lease.json".

(** [RunnerLease::acquire], up to the start of the renewing thread; [pid] is
    [process::id], [display] the root's path. *)
Definition runner_acquire (pid : Z) (display : string) (clock : result Error Z) (lease_seconds : Z)
  : op Store Error string :=
  with_lock (
    now_unix ← lift clock;
    let runner_id := bytes_digest (bytes_of_string
                       (pretty pid +:+ ":" +:+ pretty now_unix +:+ ":" +:+ display)) in
    let record := {| RunnerLeaseRecord.version := "runner-lease-v1";
                     RunnerLeaseRecord.runner_id := runner_id;
                     RunnerLeaseRecord.expires_unix := saturating_add_u64 now_unix lease_seconds |} in
    bytes ← lift (encode record);
    r ← try_op (in_root (write_new runner_lease_path bytes));
    match r with
    | Ok _ => mret runner_id
    | Err (Io error) =>
        if negb (bool_decide (error = already_exists)) then fail (Io error) else
        bytes ← in_root (reads (read_regular runner_lease_path 16384));
        existing ← lift (ok_or (from_slice (T := RunnerLeaseRecord.RunnerLeaseRecord) bytes)
                               (Model.Json serde_error_text));
        if negb (bool_decide (RunnerLeaseRecord.version existing = "runner-lease-v1"))
           || (now_unix <? RunnerLeaseRecord.expires_unix existing)
        then fail (invalid "another job runner owns the operations store") else
        _ ← in_root (remove_file runner_lease_path);
        bytes ← lift (encode record);
        _ ← in_root (write_new runner_lease_path bytes);
        mret runner_id
    | Err error => fail error
    end).

Definition renew_runner_lease (runner_id : string) (clock : result Error Z) (lease_seconds : Z)
  : op Store Error () :=
  with_lock (
    bytes ← in_root (reads (read_regular runner_lease_path 16384));
    record ← lift (ok_or (from_slice (T := RunnerLeaseRecord.RunnerLeaseRecord) bytes)
                         (Model.Json serde_error_text));
    if negb (bool_decide (RunnerLeaseRecord.runner_id record = runner_id))
       || negb (bool_decide (RunnerLeaseRecord.version record = "runner-lease-v1"))
    then fail (invalid "runner lease ownership changed") else
    now_unix ← lift clock;
    let record := {| RunnerLeaseRecord.version := RunnerLeaseRecord.version record;
                     RunnerLeaseRecord.runner_id := RunnerLeaseRecord.runner_id record;
                     RunnerLeaseRecord.expires_unix := saturating_add_u64 now_unix lease_seconds |} in
    bytes ← lift (encode record);
    in_root (atomic_replace runner_lease_path ".runner-lease.tmp" bytes)).

(** [Drop for RunnerLease] *)
Definition runner_drop (runner_id : string) (s : Store) : Store :=
  match read_regular runner_lease_path 16384 (root s) with
  | Err _ => s
  | Ok bytes =>
      match from_slice (T := RunnerLeaseRecord.RunnerLeaseRecord) bytes with
      | None => s
      | Some record =>
          if bool_decide (RunnerLeaseRecord.runner_id record = runner_id)
          then (in_root (remove_file runner_lease_path) s).2 else s
      end
  end.

(** ** Running a batch *)

(** The body of the loop of [run_batch], for its round [i]: [None] when it breaks. *)
Definition run_job (config : OperationsConfig.OperationsConfig) (now_unix : Z)
  (failure : RunFailurePoint) (tree : nat -> string -> option Node)
  (executor : nat -> string -> Protocol.RecoveryResult) (i : nat)
  (receipt : BatchReceipt.BatchReceipt) : op Store Error (option BatchReceipt.BatchReceipt) :=
  let '{| BatchReceipt.claimed := claimed; BatchReceipt.certified := certified;
          BatchReceipt.refused := refused; BatchReceipt.failed := failed;
          BatchReceipt.recovered_after_restart := recovered_after_restart |} := receipt in
  let after recovered certified refused failed :=
    {| BatchReceipt.claimed := claimed + 1; BatchReceipt.certified := certified;
       BatchReceipt.refused := refused; BatchReceipt.failed := failed;
       BatchReceipt.recovered_after_restart := recovered_after_restart + recovered |} in
  next ← claim_next config now_unix;
  match next with
  | None => mret None
  | Some (job, recovered) =>
      if bool_decide (failure = AfterClaim)
      then fail (invalid "injected interruption after durable job claim") else
      actual ← lift (digest_workspace_reference (tree i (workspace job)));
      if negb (bool_decide (actual = workspace_sha256 job)) then
        _ ← finish_failed (job_id job) now_unix "WORKSPACE_CHANGED_AFTER_ADMISSION";
        mret (Some (after recovered certified refused (failed + 1)))
      else
      let result := executor i (workspace job) in
      encoded ← lift (encode result);
      if MAX_RESULT_BYTES <? vec_len encoded then
        _ ← finish_failed (job_id job) now_unix "RESULT_BOUND_EXCEEDED";
        mret (Some (after recovered certified refused (failed + 1)))
      else
      let result_sha256 := bytes_digest encoded in
      _ ← write_result (job_id job) encoded;
      match result with
      | Protocol.Certified _ _ _ =>
          _ ← finish (job_id job) now_unix Certified result_sha256 None;
          mret (Some (after recovered (certified + 1) refused failed))
      | Protocol.Refused code _ =>
          _ ← finish (job_id job) now_unix Refused result_sha256 (Some code);
          mret (Some (after recovered certified (refused + 1) failed))
      end
  end.

(** [for _ in 0..n], from round [i]. *)
Fixpoint run_jobs (config : OperationsConfig.OperationsConfig) (now_unix : Z)
  (failure : RunFailurePoint) (tree : nat -> string -> option Node)
  (executor : nat -> string -> Protocol.RecoveryResult) (n i : nat)
  (receipt : BatchReceipt.BatchReceipt) : op Store Error BatchReceipt.BatchReceipt :=
  match n with
  | O => mret receipt
  | S n =>
      next ← run_job config now_unix failure tree executor i receipt;
      match next with
      | None => mret receipt
      | Some receipt => run_jobs config now_unix failure tree executor n (S i) receipt
      end
  end.

Definition run_batch (config : OperationsConfig.OperationsConfig) (pid : Z) (display : string)
  (clock : result Error Z) (now_unix : Z) (failure : RunFailurePoint)
  (tree : nat -> string -> option Node) (executor : nat -> string -> Protocol.RecoveryResult)
  : op Store Error BatchReceipt.BatchReceipt :=
  runner_id ← runner_acquire pid display clock (OperationsConfig.lease_seconds config);
  finally
    (run_jobs config now_unix failure tree executor (Z.to_nat (OperationsConfig.max_batch config)) 0
       {| BatchReceipt.claimed := 0; BatchReceipt.certified := 0; BatchReceipt.refused := 0;
          BatchReceipt.failed := 0; BatchReceipt.recovered_after_restart := 0 |})
    (runner_drop runner_id).

(** ** Reports *)

(** The status that [status] and [support_bundle] compute from the jobs. *)
Definition status_of (config : OperationsConfig.OperationsConfig) (jobs : list RecoveryJob)
  : OperationsStatus.OperationsStatus :=
  let metrics := metrics jobs in
  let queued := saturating_add_u64 (OperationsMetrics.pending metrics) (OperationsMetrics.running metrics) in
  let diagnostic_codes :=
    (if OperationsConfig.max_queued config <=? queued then ["QUEUE_SATURATED"] else []) ++
    (if 0 <? OperationsMetrics.failed metrics then ["FAILED_JOBS_PRESENT"] else []) ++
    (if 0 <? OperationsMetrics.running metrics then ["LEASED_JOBS_PRESENT"] else []) in
  {| OperationsStatus.version := "operations-status-v1";
     OperationsStatus.healthy := bool_decide (diagnostic_codes = []);
     OperationsStatus.queue_capacity := OperationsConfig.max_queued config;
     OperationsStatus.queue_available := Z.max 0 (OperationsConfig.max_queued config - queued);
     OperationsStatus.metrics := metrics;
     OperationsStatus.diagnostic_codes := diagnostic_codes |}.

Definition status (config : OperationsConfig.OperationsConfig)
  : op Store Error OperationsStatus.OperationsStatus :=
  with_lock (jobs ← read_jobs; mret (status_of config jobs)).

Definition result_ (id : string) : op Store Error json :=
  with_lock (
    job ← read_job id;
    if negb (in_state Certified job || in_state Refused job)
    then fail (invalid "job does not have a terminal recovery result") else
    expected ← lift (ok_or (result_sha256 job) (invalid "terminal job result digest is absent"));
    bytes ← in_results (reads (read_regular (job_path id) MAX_RESULT_BYTES));
    if negb (bool_decide (bytes_digest bytes = expected))
    then fail (invalid "terminal job result digest is invalid") else
    lift (ok_or (from_slice (T := json) bytes) (Model.Json serde_error_text))).

Definition support_bundle (config : OperationsConfig.OperationsConfig) (generated_unix : Z)
  : op Store Error SupportBundle.SupportBundle :=
  with_lock (
    jobs ← read_jobs;
    let support_jobs := (fun job =>
      {| SupportJob.job_id := job_id job; SupportJob.workspace_sha256 := workspace_sha256 job;
         SupportJob.state := state job; SupportJob.attempts := attempts job;
         SupportJob.refusal_code := RecoveryJob.refusal_code job;
         SupportJob.event_digests := JobEvent.event_sha256 <$> events job |}) <$> jobs in
    config_sha256 ← lift (digest config);
    let bundle d :=
      {| SupportBundle.version := "support-bundle-v1"; SupportBundle.generated_unix := generated_unix;
         SupportBundle.config_sha256 := config_sha256;
         SupportBundle.status := status_of config jobs;
         SupportBundle.jobs := support_jobs; SupportBundle.bundle_sha256 := d |} in
    bundle_sha256 ← lift (digest (bundle ""));
    mret (bundle bundle_sha256)).

(** ** Pruning *)

Definition prune_job (job : RecoveryJob) (removed : list PrunedJob.PrunedJob)
  : op Store Error (list PrunedJob.PrunedJob) :=
  present ← in_results (reads (fun d => Ok (bool_decide (is_Some (d !! job_path (job_id job))))));
  _ ← (if present : bool then
         bytes ← in_results (reads (read_regular (job_path (job_id job)) MAX_RESULT_BYTES));
         let actual := bytes_digest bytes in
         if negb (bool_decide (result_sha256 job = Some actual))
         then fail (invalid "pruned job result digest is inconsistent")
         else in_results (remove_file (job_path (job_id job)))
       else if bool_decide (is_Some (result_sha256 job))
       then fail (invalid "pruned job result is missing")
       else mret ());
  _ ← in_jobs (remove_file (job_path (job_id job)));
  mret (removed ++ [{| PrunedJob.job_id := job_id job; PrunedJob.record_sha256 := record_sha256 job;
                       PrunedJob.result_sha256 := result_sha256 job |}]).

Definition prune_terminal (submitted_before_unix max_remove : Z) : op Store Error PruneReceipt.PruneReceipt :=
  if negb (Service.within 1 256 max_remove)
  then fail (invalid "prune limit must be between one and 256") else
  with_lock (
    jobs ← read_jobs;
    let jobs := filter (fun job =>
      (submitted_unix job <? submitted_before_unix) && is_terminal job = true) jobs in
    removed ← op_for (take (Z.to_nat max_remove) (sort_by_key submission_key jobs)) [] prune_job;
    mret {| PruneReceipt.version := "prune-receipt-v1"; PruneReceipt.jobs := removed |}).
End Operations.

Section RecoveryBatch.
Context `{SerdeErrorText, OsErrorText, JsonText, Sha256, Hex, Hmac, Ed25519, Jiff}.
Context `{Sandbox.WasmEncoder, Sandbox.Wasmi}.
Context `{!ToValue FragmentContent.FragmentContent, !ToValue Fragments.UnsignedEnvelope}.
Context `{!ToValue Fragments.Envelope.Envelope, !ToValue Candidate.Candidate}.
Context `{!ToValue Service.ServiceManifest, !ToValue (list FragmentContent.FragmentContent)}.
Context `{!ToValue RecoveryJob, !FromSlice RecoveryJob, !ToValue JobEvent.JobEvent}.
Context `{!ToValue RunnerLeaseRecord.RunnerLeaseRecord, !FromSlice RunnerLeaseRecord.RunnerLeaseRecord}.
Context `{!ToValue (btree_map string string), !ToValue Protocol.RecoveryResult}.

(** [run_recovery_batch]: the executor is the recovery of what the workspace holds then.
    Recovery does not unwind (src/protocol.rs returns an error as a refusal), so that the last branch is not
    taken. *)
Definition run_recovery_batch (config : OperationsConfig.OperationsConfig) (pid : Z) (display : string)
  (clock : result Error Z) (now_unix : Z) (failure : RunFailurePoint)
  (tree : nat -> string -> option Node) (contents : nat -> string -> Protocol.Workspace)
  : op Store Error BatchReceipt.BatchReceipt :=
  run_batch config pid display clock now_unix failure tree (fun i workspace =>
    match Protocol.run (contents i workspace) with
    | Some result => result
    | None => Protocol.Refused RefusalCode.InternalError ""
    end).
End RecoveryBatch.
