(* ===== verification/Workspace.v ===== *)
(** The scan of a workspace by the durable queue ([digest_workspace_reference] of
    [Operations]): its stack loop ends, and computes the map from paths to digests of
    the tree, independently of the order in which directories are listed. *)
From S2P Require Import Prelude FileTree External Json Core Model Canonical Operations.

(** The text of a path below the root, built as the scan does. *)
Definition join (prefix name : string) : string :=
  if str_is_empty prefix then name else prefix +:+ "/" +:+ name.
Definition join_path (path : list string) : string := foldl join "" path.

(** The regular files below a node, under the text of their paths. *)
Definition named_files (prefix : string) (n : Node) : list (string * list Z) :=
  prod_map (foldl join prefix) id <$> files_below [] n.

Lemma files_below_prefix path n : files_below path n = prod_map (app path) id <$> files_below [] n.
Proof.
  revert path. induction n as [c|entries IH| |] using node_ind'; intros path;
    [simpl; by rewrite app_nil_r| |done|done].
  rewrite !files_below_folder. unfold files_of. induction IH as [|e l He _ IH]; [done|].
  rewrite !bind_cons, fmap_app, IH. f_equal. rewrite He, (He ([] ++ _)), <- list_fmap_compose.
  apply list_fmap_ext. intros _ [p c] _. unfold compose, prod_map. simpl. by rewrite <- app_assoc.
Qed.

Lemma named_files_folder prefix entries :
  named_files prefix (Folder entries) = entries ≫= fun e => named_files (join prefix e.1) e.2.
Proof.
  unfold named_files. rewrite files_below_folder. unfold files_of.
  induction entries as [|e l IH]; [done|]. rewrite !bind_cons, fmap_app, IH. f_equal.
  rewrite files_below_prefix, <- list_fmap_compose. apply list_fmap_ext. by intros _ [p c] _.
Qed.

Lemma named_files_root n : named_files "" n = prod_map join_path id <$> files_below [] n.
Proof. done. Qed.

(** A folder's own files, and the subfolders put on the stack. *)
Definition own_files (prefix : string) (entries : list (string * Node)) : list (string * list Z) :=
  entries ≫= fun e => match e.2 with RegularFile c => [(join prefix e.1, c)] | _ => [] end.
Definition subfolders (prefix : string) (entries : list (string * Node)) : list (string * Node) :=
  entries ≫= fun e => if is_folder e.2 then [(join prefix e.1, e.2)] else [].

Definition stack_files (stack : list (string * Node)) : list (string * list Z) :=
  stack ≫= fun e => named_files e.1 e.2.

Definition sizes (l : list (string * list Z)) : Z := foldr (fun f acc => vec_len f.2 + acc) 0 l.

Lemma sizes_app l1 l2 : sizes (l1 ++ l2) = sizes l1 + sizes l2.
Proof. unfold sizes. induction l1 as [|f l1 IH]; [done|]. simpl. rewrite IH. lia. Qed.

Lemma sizes_nonneg l : 0 <= sizes l.
Proof. unfold sizes, vec_len. induction l; simpl; lia. Qed.

#[local] Instance sizes_proper : Proper ((≡ₚ) ==> eq) sizes.
Proof. unfold sizes. induction 1; simpl; lia. Qed.

Lemma folder_files_perm prefix entries :
  named_files prefix (Folder entries) ≡ₚ own_files prefix entries ++ stack_files (subfolders prefix entries).
Proof.
  rewrite named_files_folder. unfold own_files, stack_files, subfolders.
  induction entries as [|[n c] l IH]; [done|]. rewrite !bind_cons, IH. cbn [fst snd].
  destruct c as [b|es| |]; cbn [is_folder]; [done| |done|done].
  rewrite app_nil_l. cbn [app]. rewrite bind_cons. cbn [fst snd]. by rewrite Permutation_app_swap_app.
Qed.

Section Scan.
Context `{SerdeErrorText, OsErrorText, JsonText, Sha256, Hex}.

Definition digests (l : list (string * list Z)) : btree_map string string :=
  bt_from_list (prod_map id bytes_digest <$> l).

(** What may be read within the bounds. *)
Definition within_bounds (l : list (string * list Z)) : Prop :=
  vec_len l <= MAX_WORKSPACE_FILES /\ sizes l <= MAX_WORKSPACE_BYTES /\ Forall (fun f => utf8 f.1) l.

Lemma within_bounds_prefix l l' : within_bounds (l ++ l') -> within_bounds l.
Proof.
  unfold within_bounds, vec_len. rewrite length_app, sizes_app, Forall_app. pose proof (sizes_nonneg l').
  intros (? & ? & ? & _). split_and!; [lia|lia|done].
Qed.

#[export] Instance within_bounds_proper : Proper ((≡ₚ) ==> iff) within_bounds.
Proof. intros l l' Hp. unfold within_bounds, vec_len. by rewrite Hp. Qed.

Lemma digests_length l : NoDup l.*1 -> vec_len (digests l) = vec_len l.
Proof.
  intros Hnd. unfold vec_len, digests. f_equal.
  rewrite (proj2 (bt_from_list_length _)); [by rewrite length_fmap|].
  by rewrite <- list_fmap_compose.
Qed.

Lemma digests_snoc l path c : digests (l ++ [(path, c)]) = bt_insert path (bytes_digest c) (digests l).
Proof. unfold digests. rewrite fmap_app. apply bt_from_list_snoc. Qed.

Lemma digests_perm l l' : NoDup l.*1 -> l ≡ₚ l' -> digests l = digests l'.
Proof.
  intros Hnd Hp. apply bt_ext; [apply bt_from_list_sorted..|]. intros k.
  assert (Hnd' : NoDup l'.*1) by (by rewrite <- Hp).
  apply option_eq. intros v. unfold digests. rewrite !bt_from_list_get by (by rewrite <- list_fmap_compose).
  by rewrite Hp.
Qed.

(** One more file: the bounds are those of the list with it. *)
Lemma scan_file read stack prefix name c :
  within_bounds read -> NoDup (read ++ [(join prefix name, c)]).*1 ->
  (forall scan, scan_entry prefix (name, RegularFile c) (stack, digests read, sizes read) = Ok scan <->
     within_bounds (read ++ [(join prefix name, c)]) /\
     scan = (stack, digests (read ++ [(join prefix name, c)]), sizes (read ++ [(join prefix name, c)]))).
Proof.
  intros (Hn & Hs & Hu) Hnd scan. assert (NoDup read.*1) as Hnd0.
  { rewrite fmap_app in Hnd. by apply NoDup_app in Hnd as [? _]. }
  unfold scan_entry. change (if str_is_empty prefix then name else _) with (join prefix name).
  rewrite digests_length by done. unfold within_bounds.
  rewrite Forall_app, Forall_singleton, sizes_app. unfold vec_len in *. rewrite length_app. simpl.
  unfold vec_len, checked_add, MAX_WORKSPACE_FILES, MAX_WORKSPACE_BYTES, u64_max in *.
  pose proof (sizes_nonneg read).
  destruct (Z.leb_spec 1024 (Z.of_nat (length read))); [split; [done|intros [[? _] _]; lia]|].
  destruct (Z.leb_spec (sizes read + Z.of_nat (length c)) 18446744073709551615); simpl.
  2:{ split; [done|]. intros [(_ & ? & _) _]. lia. }
  destruct (Z.ltb_spec (64 * 1024 * 1024) (sizes read + Z.of_nat (length c)));
    [split; [done|intros [(_ & ? & _) _]; lia]|].
  case_bool_decide as Hutf; simpl.
  - rewrite digests_snoc, Z.add_0_r. split; [intros [= <-]; split_and!; try done; lia|by intros [_ ->]].
  - split; [done|]. intros [(_ & _ & _ & ?) _]. done.
Qed.

(** The loop over the entries of a folder. *)
Lemma scan_folder prefix entries : forall read stack scan,
  within_bounds read -> NoDup (read ++ own_files prefix entries).*1 ->
  for_each entries (stack, digests read, sizes read) (scan_entry prefix) = Ok scan <->
  Forall (fun e => e.2 <> SymbolicLink /\ e.2 <> OtherEntry) entries /\
  within_bounds (read ++ own_files prefix entries) /\
  scan = (reverse (subfolders prefix entries) ++ stack, digests (read ++ own_files prefix entries),
          sizes (read ++ own_files prefix entries)).
Proof.
  induction entries as [|[name c] entries IH]; intros read stack scan Hb Hnd.
  { cbn [for_each]. unfold own_files, subfolders. simpl. rewrite app_nil_r.
    split; [by intros [= <-]|by intros (_ & _ & ->)]. }
  cbn [for_each]. rewrite bind_Ok, Forall_cons.
  unfold own_files, subfolders in *. rewrite !bind_cons in *. cbn [fst snd] in *.
  destruct c as [c|es| |]; cbn [is_folder] in *.
  - rewrite app_assoc in *. assert (NoDup (read ++ [(join prefix name, c)]).*1) as Hnd1.
    { rewrite fmap_app in Hnd. by apply NoDup_app in Hnd as [? _]. }
    setoid_rewrite (scan_file read stack prefix name c Hb Hnd1). split.
    + intros (scan1 & [Hb1 ->] & Hrest). apply IH in Hrest as (Hall & Hb2 & ->); [|done..]. done.
    + intros (Hall & Hb2 & ->). eexists. split; [split; [by apply within_bounds_prefix in Hb2|done]|].
      apply IH; [by apply within_bounds_prefix in Hb2|done|]. by destruct Hall as [_ ?].
  - rewrite !app_nil_l in *. cbn [app]. rewrite reverse_cons, <- app_assoc. cbn [app].
    split.
    + intros (scan1 & [= <-] & Hrest).
      change (if str_is_empty prefix then name else _) with (join prefix name) in Hrest.
      apply IH in Hrest as (Hall & Hb2 & ->); done.
    + intros (Hall & Hb2 & ->). eexists. split; [reflexivity|].
      change (if str_is_empty prefix then name else _) with (join prefix name).
      apply IH; [done..|]. by destruct Hall as [_ ?].
  - split; [by intros (? & [=] & _)|]. by intros (([? _] & _) & _).
  - split; [by intros (? & [=] & _)|]. by intros (([_ ?] & _) & _).
Qed.

Lemma plain_entries prefix entries :
  Forall (fun e => e.2 <> SymbolicLink /\ e.2 <> OtherEntry) entries /\
  Forall (fun e => plain e.2 = true) (subfolders prefix entries) <-> plain (Folder entries) = true.
Proof.
  rewrite plain_folder. unfold subfolders. induction entries as [|[n c] l IH]; [done|].
  rewrite bind_cons, !Forall_cons, Forall_app, <- IH. cbn [fst snd].
  destruct c as [b|es| |]; cbn [is_folder]; rewrite ?Forall_singleton; cbn [snd]; naive_solver.
Qed.

(** Folders still to be listed on the stack. *)
Definition pending (stack : list (string * Node)) : nat := sum_list_with (fun e => folders e.2) stack.

Lemma pending_app l1 l2 : pending (l1 ++ l2) = (pending l1 + pending l2)%nat.
Proof. apply sum_list_with_app. Qed.

Lemma pending_reverse l : pending (reverse l) = pending l.
Proof. apply sum_list_with_reverse. Qed.

Lemma pending_subfolders prefix entries : S (pending (subfolders prefix entries)) = folders (Folder entries).
Proof.
  rewrite folders_folder. f_equal. unfold subfolders. induction entries as [|[n c] l IH]; [done|].
  rewrite bind_cons, pending_app, IH. cbn [fst snd sum_list_with]. by destruct c; simpl; lia.
Qed.

Lemma stack_files_app l1 l2 : stack_files (l1 ++ l2) = stack_files l1 ++ stack_files l2.
Proof. apply bind_app. Qed.

Lemma stack_files_reverse l : stack_files (reverse l) ≡ₚ stack_files l.
Proof. unfold stack_files. by rewrite reverse_Permutation. Qed.

Lemma subfolders_folders prefix entries : Forall (fun e => is_folder e.2 = true) (subfolders prefix entries).
Proof.
  unfold subfolders. induction entries as [|[n c] l IH]; [constructor|]. rewrite bind_cons, Forall_app.
  split; [|done]. destruct c; simpl; repeat constructor.
Qed.

(** The stack loop ends, and succeeds exactly on plain folders within the bounds. *)
Lemma scan_folders_spec fuel : forall stack read,
  Forall (fun e => is_folder e.2 = true) stack -> (pending stack <= fuel)%nat ->
  within_bounds read -> NoDup (read ++ stack_files stack).*1 ->
  exists r, scan_folders fuel (stack, digests read, sizes read) = Some r /\
  forall files, r = Ok files <->
    Forall (fun e => plain e.2 = true) stack /\ within_bounds (read ++ stack_files stack) /\
    files = digests (read ++ stack_files stack).
Proof.
  induction fuel as [|fuel IH]; intros [|[prefix n] stack] read Hf Hp Hb Hnd.
  1,3: exists (Ok (digests read)); split; [done|]; intros files; unfold stack_files; simpl; rewrite app_nil_r;
    split; [intros [= <-]; auto|by intros (_ & _ & ->)].
  { apply Forall_cons in Hf as [Hn _]. destruct n; try done. unfold pending in Hp. simpl in Hp. lia. }
  apply Forall_cons in Hf as [Hn Hf]. destruct n as [|entries| |]; try done. clear Hn.
  assert (Hperm : stack_files ((prefix, Folder entries) :: stack) ≡ₚ
    own_files prefix entries ++ stack_files (reverse (subfolders prefix entries) ++ stack)).
  { unfold stack_files at 1. rewrite bind_cons. fold (stack_files stack). cbn [fst snd].
    by rewrite folder_files_perm, stack_files_app, stack_files_reverse, app_assoc. }
  assert (Hnd1 : NoDup ((read ++ own_files prefix entries) ++
    stack_files (reverse (subfolders prefix entries) ++ stack)).*1)
    by (by rewrite <- app_assoc, <- Hperm).
  cbn [scan_folders].
  destruct (for_each entries (stack, digests read, sizes read) (scan_entry prefix)) as [scan|e] eqn:Hscan.
  - apply scan_folder in Hscan as (Hall & Hb1 & ->); [|done|rewrite fmap_app in Hnd1; by apply NoDup_app in Hnd1 as [? _]].
    destruct (IH (reverse (subfolders prefix entries) ++ stack) (read ++ own_files prefix entries))
      as (r & Hr & Hspec); [| |done|done|].
    { apply Forall_app. split; [|done]. rewrite reverse_Permutation. apply subfolders_folders. }
    { rewrite pending_app, pending_reverse. unfold pending in Hp. cbn [sum_list_with snd] in Hp.
      rewrite <- (pending_subfolders prefix) in Hp. fold (pending stack) in Hp. lia. }
    assert (Hlist : read ++ stack_files ((prefix, Folder entries) :: stack) ≡ₚ
      read ++ own_files prefix entries ++ stack_files (reverse (subfolders prefix entries) ++ stack))
      by (by rewrite Hperm).
    assert (Hrev : Forall (fun e : string * Node => plain e.2 = true) (reverse (subfolders prefix entries)) <->
      Forall (fun e : string * Node => plain e.2 = true) (subfolders prefix entries))
      by (by rewrite reverse_Permutation).
    exists r. split; [exact Hr|]. intros files. rewrite (Hspec files), <- app_assoc.
    rewrite Forall_app, Hrev, Forall_cons. cbn [snd].
    rewrite <- (plain_entries prefix), <- (within_bounds_proper _ _ Hlist), <- (digests_perm _ _ Hnd Hlist).
    naive_solver.
  - exists (Err e). split; [done|]. intros files. split; [done|]. intros (Hpl & Hb1 & _). exfalso.
    rewrite Hperm, app_assoc in Hb1. apply within_bounds_prefix in Hb1.
    apply Forall_cons in Hpl as [Hpl _]. apply (plain_entries prefix) in Hpl as [Hall _].
    assert (exists scan, for_each entries (stack, digests read, sizes read) (scan_entry prefix) = Ok scan) as [scan Hok].
    { eexists. apply scan_folder; [done| |done].
      rewrite fmap_app in Hnd1. by apply NoDup_app in Hnd1 as [? _]. }
    congruence.
Qed.
End Scan.

(** A tree whose files have distinct paths: no name is repeated in a folder or holds a
    slash. *)
Definition distinct_paths (n : Node) : Prop := NoDup (named_files "" n).*1.

Section Properties.
Context `{SerdeErrorText, OsErrorText, JsonText, Sha256, Hex, !ToValue (btree_map string string)}.

Lemma scan_workspace_spec (n : Node) :
  distinct_paths n ->
  exists r, scan_workspace n = Some r /\
  forall files, r = Ok files <->
    is_folder n = true /\ plain n = true /\ within_bounds (named_files "" n) /\
    files = digests (named_files "" n).
Proof.
  intros Hd. unfold scan_workspace. destruct (is_folder n) eqn:Hf.
  - destruct (scan_folders_spec (S (folders n)) [("", n)] []) as (r & Hr & Hspec).
    + by apply Forall_singleton.
    + unfold pending. simpl. lia.
    + split_and!; unfold vec_len; simpl; [done|done|constructor].
    + unfold stack_files. cbn. rewrite app_nil_r. exact Hd.
    + exists r. split; [exact Hr|]. intros files. rewrite Hspec. unfold stack_files. simpl.
      rewrite app_nil_r, Forall_singleton. simpl. tauto.
  - destruct n; try discriminate Hf; (eexists; split; [reflexivity|]; intros files; split; [done|by intros [? _]]).
Qed.

Lemma workspace_digest_Ok (n : Node) d :
  distinct_paths n ->
  digest_workspace_reference (Some n) = Ok d <->
  is_folder n = true /\ plain n = true /\ within_bounds (named_files "" n) /\
  digest (digests (named_files "" n)) = Ok d.
Proof.
  intros Hn. unfold digest_workspace_reference. cbn [ok_or mbind result_bind].
  destruct (scan_workspace_spec n Hn) as (r & -> & Hspec). rewrite bind_Ok. setoid_rewrite Hspec.
  naive_solver.
Qed.

(** The scan of a workspace ends.  It has a digest exactly if it is a folder of
    nothing but folders and regular files, at most 1024 of these and 64 MiB in all, with
    UTF-8 paths; the digest is that of the map from paths to digests of contents, so that
    it does not depend on the order in which directories are listed. *)
Theorem workspace_reference_spec (n : Node) :
  distinct_paths n ->
  is_Some (scan_workspace n) /\
  (forall d, digest_workspace_reference (Some n) = Ok d <->
     is_folder n = true /\ plain n = true /\ within_bounds (named_files "" n) /\
     digest (digests (named_files "" n)) = Ok d) /\
  (forall n' d, is_folder n = is_folder n' -> plain n = plain n' -> files_below [] n ≡ₚ files_below [] n' ->
     digest_workspace_reference (Some n) = Ok d <-> digest_workspace_reference (Some n') = Ok d).
Proof.
  intros Hd. split; [|split].
  - destruct (scan_workspace_spec n Hd) as (r & -> & _). by eexists.
  - intros d. by apply workspace_digest_Ok.
  - intros n' d Hf Hp Hperm.
    assert (Hperm' : named_files "" n ≡ₚ named_files "" n') by (rewrite !named_files_root; by rewrite Hperm).
    assert (Hd' : distinct_paths n') by (unfold distinct_paths; by rewrite <- Hperm').
    rewrite !workspace_digest_Ok by done. rewrite (digests_perm _ _ Hd Hperm'), Hf, Hp.
    by rewrite Hperm'.
Qed.
End Properties.

(** * Witness *)

Module WorkspaceWitness.
Import Toy.
#[local] Existing Instance ToyJson.text.
#[local] Instance serde_text : SerdeErrorText := "error".
#[local] Instance os_text : OsErrorText := {| not_found := "not found"; already_exists := "exists" |}.
#[local] Instance tree_files : ToValue (btree_map string string) :=
  fun m => Some (Object (prod_map id String <$> m)).

Definition sample : Node :=
  Folder [("a", RegularFile [1; 2]); ("d", Folder [("b", RegularFile [3]); ("e", Folder [])])].

Example workspace_reference_spec_witness :
  distinct_paths sample /\ is_Some (scan_workspace sample) /\
  exists d, digest_workspace_reference (Some sample) = Ok d.
Proof.
  assert (distinct_paths sample) as Hd.
  { unfold distinct_paths. apply (bool_decide_eq_true_1 _). vm_compute. reflexivity. }
  destruct (workspace_reference_spec sample Hd) as (Htotal & Hspec & _).
  split; [exact Hd|]. split; [exact Htotal|]. eexists. apply Hspec.
  split; [reflexivity|]. split; [reflexivity|]. split; [|vm_compute; reflexivity].
  split; [vm_compute; discriminate|]. split; [vm_compute; discriminate|].
  repeat constructor.
Defined.
End WorkspaceWitness.
