(* ===== verification/Oracle.v ===== *)
(** src/oracle.rs: the loss oracle, which attests that no declared artifact is left
    before a recovery.  The files below the recovery root are a [FileTree.Node]; a read
    of a file fills the buffer while there is more. *)
From S2P Require Import Prelude FileTree External Json Core Model Canonical.
From S2P Require Operations Protocol.

(** The [Ord] of [PathBuf]: by components. *)
#[export] Instance ord_list {A} `{Ord A} : Ord (list A) :=
  fix go l k := match l, k with
                | [], [] => Eq
                | [], _ => Lt
                | _, [] => Gt
                | x :: l, y :: k => match cmp x y with Eq => go l k | c => c end
                end.

(** The buffer of [attest_absence]: successive reads give [chunks] of this size. *)
Definition BUFFER : nat := Z.to_nat 65536.

(** The files found, under their paths below the root, and the entries visited. *)
Definition Walk : Type := list (list string * list Z) * Z.

Section Oracle.
Context `{OsErrorText, Sha256, Hex}.

Definition count_entry (max_entries : Z) (entry : string * Node) (visited_entries : Z) : result Error Z :=
  visited_entries ← ok_or (checked_add u64_max visited_entries 1)
                          (SearchExhausted "workspace entry counter overflow");
  if max_entries <? visited_entries
  then Err (SearchExhausted "workspace entry-count bound exceeded")
  else Ok visited_entries.

(** [collect_regular_files] of a folder, and the match on the metadata of an entry. *)
Fixpoint visit (max_entries : Z) (path : list string) (n : Node) : Walk -> result Error Walk :=
  match n with
  | SymbolicLink => fun _ => Err (InvalidEvidence "recovery workspace contains a symlink")
  | OtherEntry => fun _ => Err (InvalidEvidence "recovery workspace contains a non-regular file")
  | RegularFile contents => fun '(output, visited_entries) => Ok (output ++ [(path, contents)], visited_entries)
  | Folder entries =>
      let visits := (fix go l := match l with
                                 | [] => []
                                 | e :: l' => (e.1, visit max_entries (path ++ [e.1]) e.2) :: go l'
                                 end) entries in
      fun '(output, visited_entries) =>
        visited_entries ← for_each entries visited_entries (count_entry max_entries);
        for_each (sort_by_key fst visits) (output, visited_entries) (fun v walk => v.2 walk)
  end.

Definition collect_regular_files (directory : option Node) (max_entries : Z) : result Error Walk :=
  match directory with
  | Some (Folder entries) => visit max_entries [] (Folder entries) ([], 0)
  | _ => Err (Io not_found)
  end.

(** The loop over the bytes of one file: what was read in all, and what was hashed. *)
Definition read_chunk (max_bytes : Z) (chunk : list Z) (st : Z * list Z) : result Error (Z * list Z) :=
  let '(scanned_bytes, hashed) := st in
  scanned_bytes ← ok_or (checked_add u64_max scanned_bytes (vec_len chunk))
                        (SearchExhausted "workspace byte counter overflow");
  if max_bytes <? scanned_bytes then Err (SearchExhausted "workspace byte bound exceeded")
  else Ok (scanned_bytes, hashed ++ chunk).

Definition scan_file (forbidden_digests : list string) (max_files max_bytes : Z)
  (file : list string * list Z) (st : Z * Z) : result Error (Z * Z) :=
  let '(scanned_files, scanned_bytes) := st in
  let scanned_files := scanned_files + 1 in
  if max_files <? scanned_files then Err (SearchExhausted "workspace file-count bound exceeded") else
  '(scanned_bytes, hashed) ← for_each (chunks (length file.2) BUFFER file.2) (scanned_bytes, [])
                                      (read_chunk max_bytes);
  if contains (hex_encode (sha256 hashed)) forbidden_digests
  then Err (ArtifactPresent "lost artifact digest exists in recovery workspace")
  else Ok (scanned_files, scanned_bytes).

Definition attest_absence (canonicalize : string -> result Error string)
  (try_exists : string -> result Error bool) (tree : string -> option Node)
  (recovery_root : string) (forbidden_paths forbidden_digests : list string) (max_files max_bytes : Z)
  : result Error Protocol.LossAttestation.LossAttestation :=
  root ← canonicalize recovery_root;
  _ ← for_each forbidden_paths () (fun path _ =>
    present ← try_exists path;
    if present : bool then Err (ArtifactPresent "a declared lost-artifact path still exists") else Ok ());
  '(paths, visited_entries) ← collect_regular_files (tree root) max_files;
  '(scanned_files, scanned_bytes) ← for_each (sort_by_key fst paths) (0, 0)
    (scan_file forbidden_digests max_files max_bytes);
  Ok {| Protocol.LossAttestation.method := "path-and-sha256-scan-v1";
        Protocol.LossAttestation.recovery_root := root;
        Protocol.LossAttestation.forbidden_paths_absent := true;
        Protocol.LossAttestation.forbidden_digests_absent := true;
        Protocol.LossAttestation.scanned_files := scanned_files;
        Protocol.LossAttestation.scanned_bytes := scanned_bytes |}.

(** * The walk *)

Lemma count_entries max_entries entries : forall v v',
  max_entries <= u64_max -> v <= max_entries ->
  for_each entries v (count_entry max_entries) = Ok v' <->
  v + vec_len entries <= max_entries /\ v' = v + vec_len entries.
Proof.
  unfold vec_len. induction entries as [|e l IH]; intros v v' Hmax Hv; cbn [for_each length].
  - split; [intros [= <-]; lia|]. intros [_ ->]. f_equal. lia.
  - rewrite bind_Ok. unfold count_entry at 1, checked_add.
    destruct (Z.leb_spec (v + 1) u64_max) as [H64|H64]; cbn [ok_or mbind result_bind].
    2:{ split; [by intros (? & [=] & _)|lia]. }
    destruct (Z.ltb_spec max_entries (v + 1)).
    { split; [by intros (? & [=] & _)|lia]. }
    split.
    + intros (? & [= <-] & [? ->]%IH); [lia|done|lia].
    + intros [? ->]. eexists. split; [done|]. apply IH; [done|lia|lia].
Qed.

(** What a visit does when it may start: it adds these files and counts these entries. *)
Definition visits_to (max_entries : Z) (t : Walk -> result Error Walk) (ok : Prop)
  (files : list (list string * list Z)) (n : Z) : Prop :=
  0 <= n /\ forall out v w, v <= max_entries ->
    t (out, v) = Ok w <-> ok /\ v + n <= max_entries /\ w = (out ++ files, v + n).

Lemma visits_nil max_entries : visits_to max_entries (fun w => Ok w) True [] 0.
Proof.
  split; [done|]. intros out v w Hv. rewrite app_nil_r, Z.add_0_r.
  split; [by intros [= <-]|by intros (_ & _ & ->)].
Qed.

Lemma visits_seq max_entries t1 t2 ok1 ok2 l1 l2 n1 n2 :
  visits_to max_entries t1 ok1 l1 n1 -> visits_to max_entries t2 ok2 l2 n2 ->
  visits_to max_entries (fun w => t1 w ≫= t2) (ok1 /\ ok2) (l1 ++ l2) (n1 + n2).
Proof.
  intros [Hn1 Ht1] [Hn2 Ht2]. split; [lia|]. intros out v w Hv. rewrite bind_Ok. split.
  - intros (w1 & (Hok1 & Hle & ->)%Ht1 & Hrest); [|done]. apply Ht2 in Hrest as (Hok2 & Hle2 & ->); [|done].
    rewrite app_assoc, Z.add_assoc. done.
  - intros ([Hok1 Hok2] & Hle & ->). exists (out ++ l1, v + n1). split; [apply Ht1; [done|]; split_and!; [done|lia|done]|].
    apply Ht2; [lia|]. split_and!; [done|lia|]. by rewrite app_assoc, Z.add_assoc.
Qed.

Lemma visits_each max_entries (entries : list (string * Node)) (t : string * Node -> Walk -> result Error Walk)
  (ok : string * Node -> Prop) (files : string * Node -> list (list string * list Z)) (n : string * Node -> Z) :
  Forall (fun e => visits_to max_entries (t e) (ok e) (files e) (n e)) entries ->
  visits_to max_entries (fun w => for_each ((fun e => (e.1, t e)) <$> entries) w (fun v w => v.2 w))
    (Forall ok entries) (entries ≫= files) (foldr (fun e acc => n e + acc) 0 entries).
Proof.
  induction 1 as [|e l He _ IH].
  - split; [done|]. intros out v w Hv. destruct (visits_nil max_entries) as [_ Hnil].
    specialize (Hnil out v w Hv). simpl. rewrite Forall_nil. tauto.
  - pose proof (visits_seq _ _ _ _ _ _ _ _ _ He IH) as [Hn Hs]. split; [exact Hn|].
    intros out v w Hv. specialize (Hs out v w Hv). rewrite Forall_cons, bind_cons. exact Hs.
Qed.

(** Sorting by name commutes with what is attached to the names. *)
Lemma sort_by_name {A B} (f : string * A -> B) (l : list (string * A)) :
  sort_by_key fst ((fun e => (e.1, f e)) <$> l) = (fun e => (e.1, f e)) <$> sort_by_key fst l.
Proof.
  unfold sort_by_key in *. induction l as [|e l IH]; [done|]. rewrite fmap_cons. cbn [foldr]. rewrite IH.
  generalize (foldr (sort_insert fst) [] l). clear.
  intros l. induction l as [|x l IH]; [done|].
  rewrite fmap_cons. cbn [sort_insert fst]. destruct (cmp e.1 x.1); [done|done|]. by rewrite fmap_cons, IH.
Qed.

(** The files of a tree in the order of the walk. *)
Fixpoint walk_order (path : list string) (n : Node) : list (list string * list Z) :=
  match n with
  | RegularFile contents => [(path, contents)]
  | Folder entries =>
      sort_by_key fst ((fix go l := match l with
                                    | [] => []
                                    | e :: l' => (e.1, walk_order (path ++ [e.1]) e.2) :: go l'
                                    end) entries) ≫= snd
  | SymbolicLink | OtherEntry => []
  end.

Lemma walk_order_folder path entries :
  walk_order path (Folder entries) = sort_by_key fst entries ≫= fun e => walk_order (path ++ [e.1]) e.2.
Proof.
  cbn [walk_order].
  transitivity (sort_by_key fst ((fun e => (e.1, walk_order (path ++ [e.1]) e.2)) <$> entries) ≫= snd).
  - done.
  - rewrite sort_by_name. induction (sort_by_key fst entries) as [|e l IH]; [done|].
    rewrite fmap_cons, !bind_cons. by rewrite IH.
Qed.

Lemma visit_folder max_entries path entries output visited :
  visit max_entries path (Folder entries) (output, visited) =
    (visited ← for_each entries visited (count_entry max_entries);
     for_each ((fun e => (e.1, visit max_entries (path ++ [e.1]) e.2)) <$> sort_by_key fst entries)
       (output, visited) (fun v walk => v.2 walk)).
Proof.
  rewrite <- (sort_by_name (fun e => visit max_entries (path ++ [e.1]) e.2)). done.
Qed.

Lemma walk_order_perm n : forall path, walk_order path n ≡ₚ files_below path n.
Proof.
  induction n as [c|entries IH| |] using node_ind'; intros path; try done.
  rewrite walk_order_folder, files_below_folder. unfold files_of. rewrite sort_by_key_perm.
  induction IH as [|e l He _ IH]; [done|]. rewrite !bind_cons, IH. by rewrite He.
Qed.

Lemma visit_spec max_entries n :
  max_entries <= u64_max ->
  forall path, visits_to max_entries (visit max_entries path n) (plain n = true) (walk_order path n) (entry_count n).
Proof.
  intros Hmax. induction n as [c|entries IH| |] using node_ind'; intros path.
  - split; [done|]. intros out v w Hv. simpl. rewrite Z.add_0_r.
    split; [intros [= <-]; done|by intros (_ & _ & ->)].
  - split; [apply entry_count_nonneg|]. intros out v w Hv.
    rewrite visit_folder, walk_order_folder, plain_folder, entry_count_folder.
    destruct (visits_each max_entries (sort_by_key fst entries)
      (fun e => visit max_entries (path ++ [e.1]) e.2) (fun e => plain e.2 = true)
      (fun e => walk_order (path ++ [e.1]) e.2) (fun e => entry_count e.2)) as [Hn Heach].
    { rewrite sort_by_key_perm. eapply Forall_impl; [exact IH|]. intros e He. apply He. }
    fold (sum_entries entry_count (sort_by_key fst entries)) in Hn, Heach.
    assert (sum_entries entry_count (sort_by_key fst entries) = sum_entries entry_count entries) as Hsum
      by (by rewrite (sort_by_key_perm fst entries)).
    rewrite Hsum in Hn, Heach.
    rewrite bind_Ok. split.
    + intros (v' & [Hle ->]%count_entries & Hrest); [|done..].
      apply Heach in Hrest as (Hall & Hle2 & ->); [|lia]. rewrite sort_by_key_perm in Hall.
      split_and!; [done|lia|]. by rewrite Z.add_assoc.
    + intros (Hall & Hle & ->). exists (v + vec_len entries).
      split; [apply count_entries; [done|done|]; split; [lia|done]|].
      apply Heach; [lia|]. split_and!; [by rewrite (sort_by_key_perm fst entries)|lia|by rewrite Z.add_assoc].
  - split; [done|]. intros out v w Hv. simpl. split; [done|by intros [? _]].
  - split; [done|]. intros out v w Hv. simpl. split; [done|by intros [? _]].
Qed.

(** * The scan *)

(** Reading in pieces is reading at once. *)
Lemma read_chunks max_bytes cs : forall b hashed st,
  max_bytes <= u64_max -> b <= max_bytes ->
  for_each cs (b, hashed) (read_chunk max_bytes) = Ok st <->
  b + vec_len (List.concat cs) <= max_bytes /\ st = (b + vec_len (List.concat cs), hashed ++ List.concat cs).
Proof.
  unfold vec_len. induction cs as [|c cs IH]; intros b hashed st Hmax Hb.
  - cbn. rewrite Z.add_0_r, app_nil_r. split; [by intros [= <-]|by intros [_ ->]].
  - cbn [for_each List.concat].
    rewrite bind_Ok, length_app. unfold read_chunk at 1, checked_add, vec_len.
    destruct (Z.leb_spec (b + Z.of_nat (length c)) u64_max); cbn [ok_or mbind result_bind].
    2:{ split; [by intros (? & [=] & _)|lia]. }
    destruct (Z.ltb_spec max_bytes (b + Z.of_nat (length c))).
    { split; [by intros (? & [=] & _)|lia]. }
    split.
    + intros (? & [= <-] & [? ->]%IH); [|done|lia]. rewrite <- app_assoc. split; [lia|]. f_equal. lia.
    + intros [? ->]. eexists. split; [done|]. apply IH; [done|lia|]. rewrite <- app_assoc.
      split; [lia|]. f_equal. lia.
Qed.

Definition absent (forbidden_digests : list string) (f : list string * list Z) : Prop :=
  hex_encode (sha256 f.2) ∉ forbidden_digests.

Lemma scan_files forbidden max_files max_bytes fs : forall n b st,
  max_bytes <= u64_max -> b <= max_bytes -> n + vec_len fs <= max_files ->
  for_each fs (n, b) (scan_file forbidden max_files max_bytes) = Ok st <->
  b + total_bytes fs <= max_bytes /\ Forall (absent forbidden) fs /\
  st = (n + vec_len fs, b + total_bytes fs).
Proof.
  unfold vec_len. induction fs as [|f fs IH]; intros n b st Hmax Hb Hn.
  - cbn. rewrite !Z.add_0_r. split; [intros [= <-]; auto|by intros (_ & _ & ->)].
  - cbn [for_each length total_bytes foldr] in *. rewrite bind_Ok, Forall_cons.
    fold (total_bytes fs). pose proof (total_bytes_nonneg fs). unfold scan_file at 1.
    rewrite (proj2 (Z.ltb_ge _ _)) by lia. set (cs := chunks (length f.2) BUFFER f.2).
    assert (List.concat cs = f.2) as Hcs by (apply chunks_concat; [unfold BUFFER; by apply (Z2Nat.inj_lt 0)|done]).
    pose proof (read_chunks max_bytes cs b []) as Hread. rewrite Hcs in Hread. cbn [app] in Hread.
    unfold absent at 1. split.
    + intros (st1 & Hfile & Hrest). apply bind_Ok in Hfile as ([b1 hashed] & [Hle [= -> ->]]%Hread & Hfile); [|done..].
      destruct (contains _ forbidden) eqn:Hc; [done|]. apply contains_false in Hc. injection Hfile as <-.
      apply IH in Hrest as (Hle2 & Hall & ->); [|done|done|lia]. unfold vec_len in *.
      split_and!; [lia|done|done|]. f_equal; lia.
    + intros (Hle & [Hc Hall] & ->). unfold vec_len in *. exists (n + 1, b + Z.of_nat (length f.2)). split.
      * apply bind_Ok. exists (b + Z.of_nat (length f.2), f.2). split; [apply Hread; [done|done|]; split; [lia|done]|].
        by rewrite (proj2 (contains_false _ _)).
      * apply IH; [done|lia|lia|]. split_and!; [lia|done|]. f_equal; lia.
Qed.

Lemma forbidden_paths_ok (try_exists : string -> result Error bool) paths :
  for_each paths () (fun path _ =>
    present ← try_exists path;
    if present : bool then Err (ArtifactPresent "a declared lost-artifact path still exists") else Ok ()) = Ok ()
  <-> Forall (fun path => try_exists path = Ok false) paths.
Proof.
  induction paths as [|p paths IH]; [done|]. cbn [for_each]. rewrite bind_Ok, Forall_cons. split.
  - intros ([] & Hp & Hrest%IH). apply bind_Ok in Hp as ([] & Hp & ?); done.
  - intros [Hp Hrest]. exists (). split; [by rewrite Hp|by apply IH].
Qed.

(** What the oracle found. *)
Definition attestation (root : string) (n : Node) : Protocol.LossAttestation.LossAttestation :=
  {| Protocol.LossAttestation.method := "path-and-sha256-scan-v1";
     Protocol.LossAttestation.recovery_root := root;
     Protocol.LossAttestation.forbidden_paths_absent := true;
     Protocol.LossAttestation.forbidden_digests_absent := true;
     Protocol.LossAttestation.scanned_files := vec_len (files_below [] n);
     Protocol.LossAttestation.scanned_bytes := total_bytes (files_below [] n) |}.

(** No declared artifact is left below the root, which the scan could cover in full. *)
Definition loss_proven (try_exists : string -> result Error bool) (n : Node)
  (forbidden_paths forbidden_digests : list string) (max_files max_bytes : Z) : Prop :=
  Forall (fun path => try_exists path = Ok false) forbidden_paths /\
  is_folder n = true /\ plain n = true /\ entry_count n <= max_files /\
  total_bytes (files_below [] n) <= max_bytes /\ Forall (absent forbidden_digests) (files_below [] n).

Lemma attest_absence_Ok canonicalize try_exists tree recovery_root forbidden_paths forbidden_digests
    max_files max_bytes a :
  0 <= max_files <= u64_max -> 0 <= max_bytes <= u64_max ->
  attest_absence canonicalize try_exists tree recovery_root forbidden_paths forbidden_digests max_files max_bytes = Ok a
  <-> exists root n, canonicalize recovery_root = Ok root /\ tree root = Some n /\
      loss_proven try_exists n forbidden_paths forbidden_digests max_files max_bytes /\ a = attestation root n.
Proof.
  intros Hf Hb. unfold attest_absence, loss_proven. rewrite bind_Ok.
  assert (Hscan : forall n st, is_folder n = true -> entry_count n <= max_files ->
    for_each (sort_by_key fst (walk_order [] n)) (0, 0) (scan_file forbidden_digests max_files max_bytes) = Ok st <->
    total_bytes (files_below [] n) <= max_bytes /\ Forall (absent forbidden_digests) (files_below [] n) /\
    st = (vec_len (files_below [] n), total_bytes (files_below [] n))).
  { intros n st Hn Hle. pose proof (files_count [] n) as Hcount. rewrite Hn in Hcount.
    assert (sort_by_key fst (walk_order [] n) ≡ₚ files_below [] n) as Hp
      by (by rewrite sort_by_key_perm, walk_order_perm).
    assert (vec_len (sort_by_key fst (walk_order [] n)) = vec_len (files_below [] n)) as Hlen
      by (unfold vec_len; by rewrite Hp).
    rewrite scan_files by lia. rewrite Hlen, (total_bytes_perm _ _ Hp).
    assert (Forall (absent forbidden_digests) (sort_by_key fst (walk_order [] n)) <->
            Forall (absent forbidden_digests) (files_below [] n)) as -> by (by apply Forall_Permutation).
    done. }
  assert (Hwalk : forall n w, is_folder n = true ->
    collect_regular_files (Some n) max_files = Ok w <->
    plain n = true /\ entry_count n <= max_files /\ w = (walk_order [] n, entry_count n)).
  { intros [|es| |] w Hn; try done. unfold collect_regular_files.
    destruct (visit_spec max_files (Folder es) (proj2 Hf) []) as [_ Hv]. apply Hv. lia. }
  split.
  - intros (root & Hroot & Hrest). apply bind_Ok in Hrest as ([] & Hp%forbidden_paths_ok & Hrest).
    apply bind_Ok in Hrest as ([out v] & Hcol & Hrest). destruct (tree root) as [n|] eqn:Ht; [|done].
    assert (is_folder n = true) as Hn by (by destruct n).
    apply Hwalk in Hcol as (Hpl & Hle & [= -> ->]); [|done].
    apply bind_Ok in Hrest as ([sf sb] & (Hle2 & Hall & [= -> ->])%Hscan & [= <-]); [|done..].
    by exists root, n.
  - intros (root & n & Hroot & Ht & (Hp & Hn & Hpl & Hle & Hle2 & Hall) & ->).
    exists root. split; [done|]. rewrite (proj2 (forbidden_paths_ok _ _) Hp), Ht.
    cbn [mbind result_bind]. rewrite (proj2 (Hwalk n _ Hn)) by done. cbn [mbind result_bind].
    by rewrite (proj2 (Hscan n (vec_len (files_below [] n), total_bytes (files_below [] n)) Hn Hle)).
Qed.
End Oracle.

(** A declared digest in upper case is the digest of no file the scan reads: it compares
    the texts, and its own are in lower case. *)
Lemma uppercase_absent `{Sha256Laws, HexLaws} forbidden f :
  Forall (fun d => exists b, b ∈ bytes_of_string d /\ is_ascii_uppercase b = true) forbidden ->
  absent forbidden f.
Proof.
  intros Hall Hin. rewrite Forall_forall in Hall. destruct (Hall _ Hin) as (b & Hb & Hup).
  pose proof (hex_encode_digits _ (sha256_bytes f.2)) as Hdig. rewrite Forall_forall in Hdig.
  specialize (Hdig b Hb). unfold is_ascii_uppercase, is_ascii_digit, in_range in *. lia.
Qed.

Section Recovery.
Context `{SerdeErrorText, OsErrorText, JsonText, Sha256, Hex, Hmac, Ed25519, Jiff}.
Context `{Sandbox.WasmEncoder, Sandbox.Wasmi}.
Context `{!ToValue FragmentContent.FragmentContent, !ToValue Fragments.UnsignedEnvelope}.
Context `{!ToValue Fragments.Envelope.Envelope, !ToValue Candidate.Candidate}.
Context `{!ToValue Service.ServiceManifest, !ToValue (list FragmentContent.FragmentContent)}.

Lemma validate_registry_limits r :
  Protocol.validate_registry r = Ok () ->
  Protocol.max_workspace_files (Protocol.Registry.resource_limits r) <= 100000 /\
  Protocol.max_workspace_bytes (Protocol.Registry.resource_limits r) <= 1073741824.
Proof.
  unfold Protocol.validate_registry. intros Hv. destruct (_ || _); [done|].
  apply bind_Ok in Hv as ([] & _ & Hv). destruct (_ || _); [done|].
  destruct (_ || _) eqn:Hb in Hv; [done|]. rewrite !orb_false_iff, !Z.ltb_ge in Hb. lia.
Qed.
End Recovery.

Section Properties.
Context `{SerdeErrorText, OsErrorText, JsonText, Sha256, Hex, Hmac, Ed25519, Jiff}.
Context `{Sandbox.WasmEncoder, Sandbox.Wasmi}.
Context `{!ToValue FragmentContent.FragmentContent, !ToValue Fragments.UnsignedEnvelope}.
Context `{!ToValue Fragments.Envelope.Envelope, !ToValue Candidate.Candidate}.
Context `{!ToValue Service.ServiceManifest, !ToValue (list FragmentContent.FragmentContent)}.
Context (canonicalize : string -> result Error string) (try_exists : string -> result Error bool)
        (tree : string -> option Node) (recovery_root : string).

(** C39: The loss oracle attests exactly when no declared path exists and the recovery
    root is a folder of folders and regular files, within its bounds on entries and bytes,
    none of whose files has a declared digest; it then states what it scanned.  Links,
    other entries, an excess or an artifact are errors. *)
Theorem attest_absence_iff forbidden_paths forbidden_digests max_files max_bytes a :
  0 <= max_files <= u64_max -> 0 <= max_bytes <= u64_max ->
  attest_absence canonicalize try_exists tree recovery_root forbidden_paths forbidden_digests max_files max_bytes = Ok a
  <-> exists root n, canonicalize recovery_root = Ok root /\ tree root = Some n /\
      loss_proven try_exists n forbidden_paths forbidden_digests max_files max_bytes /\ a = attestation root n.
Proof. apply attest_absence_Ok. Qed.

(** A certificate rests on a proven loss: when recovery certifies in a workspace that
    the oracle scans, none of the paths the registry declares lost exists, the whole
    workspace was scanned, no file in it has a declared digest, and the certificate
    carries the attestation of that scan. *)
Theorem certified_after_loss w m c wasm cert :
  Protocol.attest_absence w = attest_absence canonicalize try_exists tree recovery_root ->
  (forall r, Protocol.read_registry w = Ok r ->
     0 <= Protocol.max_workspace_files (Protocol.Registry.resource_limits r) /\
     0 <= Protocol.max_workspace_bytes (Protocol.Registry.resource_limits r)) ->
  Protocol.run_with_mode w m = Some (Protocol.Certified c wasm cert) ->
  exists r root n, Protocol.read_registry w = Ok r /\ canonicalize recovery_root = Ok root /\
  tree root = Some n /\
  loss_proven try_exists n (Protocol.forbidden_paths (Protocol.Registry.loss_oracle r))
    (Protocol.forbidden_sha256 (Protocol.Registry.loss_oracle r))
    (Protocol.max_workspace_files (Protocol.Registry.resource_limits r))
    (Protocol.max_workspace_bytes (Protocol.Registry.resource_limits r)) /\
  Protocol.loss_attestation cert = attestation root n.
Proof.
  intros Hw Hpos Hrun. unfold Protocol.run_with_mode in Hrun.
  destruct (Protocol.recover w m) as [res|[|]] eqn:Hr; [injection Hrun as ->|done|done].
  apply Protocol.recover_certified in Hr as (r & e & bytes & module & (Hreg & _ & Hv & _ & _ & Ha) & _).
  rewrite Hw in Ha. specialize (Hpos r Hreg) as [Hf Hb]. apply validate_registry_limits in Hv as [Hf' Hb'].
  apply attest_absence_Ok in Ha as (root & n & Hroot & Ht & Hproven & Heq); [|unfold u64_max; lia..].
  by exists r, root, n.
Qed.

(** The scan does not see artifacts whose digests the registry declares in upper
    case, which [validate_registry] accepts: whatever the workspace holds, digests with
    an upper-case letter make no difference to the outcome. *)
Theorem oracle_misses_uppercase `{!Sha256Laws, !HexLaws} forbidden_paths forbidden_digests max_files max_bytes a :
  0 <= max_files <= u64_max -> 0 <= max_bytes <= u64_max ->
  Forall (fun d => exists b, b ∈ bytes_of_string d /\ is_ascii_uppercase b = true) forbidden_digests ->
  attest_absence canonicalize try_exists tree recovery_root forbidden_paths forbidden_digests max_files max_bytes = Ok a
  <-> attest_absence canonicalize try_exists tree recovery_root forbidden_paths [] max_files max_bytes = Ok a.
Proof.
  intros Hf Hb Hup. rewrite !attest_absence_Ok by done.
  assert (forall n, Forall (absent forbidden_digests) (files_below [] n) <-> Forall (absent []) (files_below [] n)) as Hall.
  { intros n. split; intros _; apply Forall_forall; intros f _; [by intros ?%elem_of_nil|by apply uppercase_absent]. }
  unfold loss_proven. by setoid_rewrite Hall.
Qed.
End Properties.

(** * Witnesses *)

Module OracleWitness.
#[local] Existing Instances Toy.sha Toy.sha_laws Toy.hexi Toy.hex_laws Toy.hmac Toy.ed Toy.jiff
  Sandbox.ToyWasm.encoder Sandbox.ToyWasm.wasmi.
#[local] Existing Instances Protocol.ProtocolWitness.error_text Protocol.ProtocolWitness.text
  Protocol.ProtocolWitness.serialise_content Protocol.ProtocolWitness.serialise_unsigned
  Protocol.ProtocolWitness.serialise_envelope Protocol.ProtocolWitness.serialise_candidate
  Protocol.ProtocolWitness.serialise_manifest Protocol.ProtocolWitness.serialise_contents.
#[local] Instance os_text : OsErrorText :=
  {| not_found := "not found"; already_exists := "exists" |}.

Definition files : Node :=
  Folder [("registry.json", RegularFile [1; 2]); ("fragments", Folder [("b", RegularFile [3]); ("a", RegularFile [])])].
Definition tree (path : string) : option Node := if bool_decide (path = "/w") then Some files else None.
Definition try_exists (path : string) : result Error bool := Ok (bool_decide (path = "/w")).
Definition canonicalize (path : string) : result Error string := Ok path.

Example attest_absence_iff_witness :
  attest_absence canonicalize try_exists tree "/w" ["/lost"] ["ff"] 10 100 = Ok (attestation "/w" files).
Proof.
  apply (attest_absence_iff canonicalize try_exists tree "/w" ["/lost"] ["ff"] 10 100);
    [unfold u64_max; lia..|].
  exists "/w", files. split; [reflexivity|]. split; [reflexivity|]. split; [|reflexivity].
  split; [repeat constructor|]. split; [reflexivity|]. split; [reflexivity|].
  split; [vm_compute; discriminate|]. split; [vm_compute; discriminate|].
  apply (bool_decide_eq_true_1 _). vm_compute. reflexivity.
Defined.

Definition workspace : Protocol.Workspace :=
  {| Protocol.read_registry := Ok Protocol.ProtocolWitness.registry;
     Protocol.read_fragments := Protocol.read_fragments Protocol.ProtocolWitness.workspace;
     Protocol.attest_absence := attest_absence canonicalize try_exists tree "/w" |}.

Lemma oracle_certifies : exists c wasm cert, Protocol.run_with_mode workspace Protocol.Full = Some (Protocol.Certified c wasm cert).
Proof. do 3 eexists. vm_compute. reflexivity. Qed.

Example certified_after_loss_witness :
  exists cert root, Protocol.loss_attestation cert = attestation root files.
Proof.
  destruct oracle_certifies as (c & wasm & cert & Hrun).
  destruct (certified_after_loss canonicalize try_exists tree "/w" workspace Protocol.Full c wasm cert)
    as (r & root & n & _ & [= <-] & [= <-] & _ & Ha); [reflexivity| |exact Hrun|].
  - intros r [= <-]. split; vm_compute; discriminate.
  - exists cert, "/w". exact Ha.
Defined.

(** A digest declared in upper case. *)
Definition upper : string := "DE7C9B85B8B78AA6BC8A7A36F70A90701C9DB4D9".

Example oracle_misses_uppercase_witness :
  attest_absence canonicalize try_exists tree "/w" ["/lost"] [upper] 10 100 = Ok (attestation "/w" files).
Proof.
  apply (oracle_misses_uppercase canonicalize try_exists tree "/w" ["/lost"] [upper] 10 100);
    [unfold u64_max; lia..| |].
  - apply Forall_singleton. exists 68. split; [|reflexivity]. vm_compute. left.
  - vm_compute. reflexivity.
Defined.
End OracleWitness.
