(* ===== verification/Disk.v ===== *)
(** Directories on a machine that fails: the system calls by which src/deployment.rs and
    src/state_store.rs write.  Each call that writes takes the next [Fate]: it goes
    through, or it breaks and returns an error, or the process stops there.  A write that
    breaks or stops may have written a part.  A stop ends the program with its destructors
    not run; the files stay as the calls made so far left them ([fsync] only orders them).

    Reading does not break.  Permissions are not modelled. *)
From S2P Require Import Prelude Effects FileTree Model.

Inductive Fate := Goes | Breaks (error : string) (written : nat) | Stops (written : nat).

Inductive Fault := Raised (e : Error) | Stopped.

(** What a call gets from the machine: the fates to come ([Goes] after the last one) and
    what is on the disk. *)
Record Disk (D : Type) := { fates : list Fate; content : D }.
Arguments fates {D} _.
Arguments content {D} _.
Arguments Build_Disk {D} _ _.

Abbreviation prog D A := (op (Disk D) Fault A).
Abbreviation Entries := (gmap string Node).

Class DirectoryErrorText := { is_a_directory : string; not_a_directory : string }.

(** Whether what the symbolic link of this name leads to exists. *)
Class LinkTargets := link_exists : string -> bool.

Definition pure {D A} (r : result Error A) : prog D A := lift (map_err Raised r).
Definition raise {D A} (e : Error) : prog D A := fail (Raised e).

(** A call that writes: [call] is its effect, [torn] what is left of it otherwise. *)
Definition system {D} (torn : nat -> D -> D) (call : D -> result Error D) : prog D () := fun s =>
  match fates s with
  | Stops n :: rest => (Err Stopped, Build_Disk rest (torn n (content s)))
  | Breaks error n :: rest => (Err (Raised (Io error)), Build_Disk rest (torn n (content s)))
  | fates =>
      match call (content s) with
      | Ok d => (Ok (), Build_Disk (tail fates) d)
      | Err e => (Err (Raised e), Build_Disk (tail fates) (content s))
      end
  end.

Definition untorn {D} (_ : nat) (d : D) : D := d.

Definition read {D A} (f : D -> result Error A) : prog D A :=
  reads (fun s => map_err Raised (f (content s))).

(** A part of the disk. *)
Definition zoom {D D' A} (get : D -> D') (set : D' -> D -> D) (m : prog D' A) : prog D A := fun s =>
  let '(r, s') := m (Build_Disk (fates s) (get (content s))) in
  (r, Build_Disk (fates s') (set (content s') (content s))).

(** The outcome of a call, unless the process stops, as a value. *)
Definition attempt {D A} (m : prog D A) : prog D (result Error A) := fun s =>
  match m s with
  | (Ok a, s') => (Ok (Ok a), s')
  | (Err (Raised e), s') => (Ok (Err e), s')
  | (Err Stopped, s') => (Err Stopped, s')
  end.

(** [let _ = ..], and a value whose destructor is [release]. *)
Definition ignoring {D A} (m : prog D A) : prog D () := _ ← attempt m; mret ().
Definition guarded {D A} (m : prog D A) (release : prog D ()) : prog D A :=
  r ← attempt m; _ ← ignoring release; pure r.

(** ** Calls on the entries of a directory *)

Section Calls.
Context `{OsErrorText, DirectoryErrorText, LinkTargets}.

(** [Path::try_exists] *)
Definition present (name : string) (d : Entries) : bool :=
  match d !! name with
  | None => false
  | Some SymbolicLink => link_exists name
  | Some _ => true
  end.

(** [File::sync_all] *)
Definition sync_all {D} : prog D () := system untorn Ok.

(** [OpenOptions::new().write(true).create_new(true).open] *)
Definition create_new (name : string) : prog Entries () :=
  system untorn (fun d =>
    match d !! name with
    | None => Ok (<[name := RegularFile []]> d)
    | Some _ => Err (Io already_exists)
    end).

(** [File::write_all] on a file just created *)
Definition write_all (name : string) (bytes : list Z) : prog Entries () :=
  system (fun n d => <[name := RegularFile (take n bytes)]> d)
         (fun d => Ok (<[name := RegularFile bytes]> d)).

(** [fs::rename] of a file *)
Definition rename (from to : string) : prog Entries () :=
  system untorn (fun d =>
    match d !! from with
    | None => Err (Io not_found)
    | Some node =>
        match d !! to with
        | Some (Folder _) => Err (Io is_a_directory)
        | _ => Ok (<[to := node]> (delete from d))
        end
    end).

(** [fs::remove_file] *)
Definition remove_file (name : string) : prog Entries () :=
  system untorn (fun d =>
    match d !! name with
    | None => Err (Io not_found)
    | Some (Folder _) => Err (Io is_a_directory)
    | Some _ => Ok (delete name d)
    end).

(** A regular file of at most [max] bytes, or [e]. *)
Definition read_bounded (e : Error) (max : Z) (name : string) : prog Entries (list Z) :=
  read (fun d =>
    match d !! name with
    | None => Err (Io not_found)
    | Some (RegularFile bytes) => if max <? vec_len bytes then Err e else Ok bytes
    | Some _ => Err e
    end).

Definition write_new_synced (name : string) (bytes : list Z) : prog Entries () :=
  _ ← create_new name; _ ← write_all name bytes; sync_all.

(** The two modules' [atomic_replace], which differ in the message [stale]. *)
Definition atomic_replace (stale : Error) (target temporary : string) (bytes : list Z) : prog Entries () :=
  found ← read (fun d => Ok (present temporary d));
  if found : bool then raise stale else
  _ ← write_new_synced temporary bytes;
  _ ← rename temporary target;
  sync_all.

(** The two modules' locks: a file that is there while a value lives. *)
Definition acquire (name message : string) : prog Entries () :=
  r ← attempt (create_new name);
  match r with
  | Ok _ => mret ()
  | Err (Io _) => raise (Io message)
  | Err e => raise e
  end.
Definition holding {A} (name message : string) (m : prog Entries A) : prog Entries A :=
  _ ← acquire name message; guarded m (remove_file name).

(** ** Directories *)

(** What is found at the path of a directory, a link with the directory it leads to. *)
Inductive Place := Absent | Real (entries : Entries) | Linked (target : option Entries) | NotDirectory.

(** [fs::create_dir_all] and [fs::create_dir] *)
Definition create_dir_all : prog Place () :=
  system untorn (fun p =>
    match p with
    | Absent => Ok (Real ∅)
    | Real _ | Linked (Some _) => Ok p
    | Linked None | NotDirectory => Err (Io already_exists)
    end).
Definition create_dir : prog Place () :=
  system untorn (fun p => match p with Absent => Ok (Real ∅) | _ => Err (Io already_exists) end).

Definition place_present (p : Place) : bool :=
  match p with Absent | Linked None => false | _ => true end.

(** [symlink_metadata] shows a directory that is not a link, or the error is [e]. *)
Definition real_directory (e : Error) : prog Place () :=
  read (fun p => match p with Absent => Err (Io not_found) | Real _ => Ok () | _ => Err e end).

(** Calls on paths under that of the directory. *)
Definition entries_of (p : Place) : result Error Entries :=
  match p with
  | Real d | Linked (Some d) => Ok d
  | Absent | Linked None => Err (Io not_found)
  | NotDirectory => Err (Io not_a_directory)
  end.
Definition enter (d : Entries) (p : Place) : Place :=
  match p with Real _ => Real d | Linked (Some _) => Linked (Some d) | _ => p end.
Definition inside {A} (m : prog Entries A) : prog Place A :=
  d ← read entries_of; zoom (fun _ => d) enter m.
End Calls.

(** * Assertions *)

(** An assertion on what is on the disk, whatever the fates. *)
Definition holds {D} (P : D -> Prop) : Disk D -> Prop := fun s => P (content s).

(** Triples with assertions on the content: the last one is what any error, a stop
    included, leaves. *)
Abbreviation htriple P m Q R := (triple (holds P) m (fun a => holds (Q a)) (holds R)).

(** What [name] is bound to does not matter. *)
Definition ignores (name : string) (P : Entries -> Prop) : Prop :=
  forall d, P d -> P (delete name d) /\ forall n, P (<[name := n]> d).

(** What is written at [name] does not matter. *)
Definition absorbs (name : string) (P : Entries -> Prop) : Prop := forall d n, P d -> P (<[name := n]> d).

Lemma ignores_absorbs name P : ignores name P -> absorbs name P.
Proof. intros Hi d n Hd. by apply Hi. Qed.

(** Agreement on all but some names. *)
Definition agree (names : list string) (d d' : Entries) : Prop :=
  forall name, (name ∉ names) -> d' !! name = d !! name.

Lemma agree_refl names d : agree names d d.
Proof. done. Qed.

Lemma agree_mono names names' d d' : names ⊆ names' -> agree names d d' -> agree names' d d'.
Proof. intros Hsub Ha name Hn. apply Ha. set_solver. Qed.

Lemma agree_ignores name names d : name ∈ names -> ignores name (agree names d).
Proof.
  intros Hin d' Ha. split; [|intros n]; intros x Hx;
    (rewrite ?lookup_delete_ne, ?lookup_insert_ne by (intros ->; by apply Hx)); by apply Ha.
Qed.

Lemma ignores_and name P Q : ignores name P -> ignores name Q -> ignores name (fun d => P d /\ Q d).
Proof. intros HP HQ d [Hp Hq]. destruct (HP d Hp), (HQ d Hq). split; [|intros n]; split; auto. Qed.

Lemma ignores_or name P Q : ignores name P -> ignores name Q -> ignores name (fun d => P d \/ Q d).
Proof.
  intros HP HQ d [Hp|Hq]; [destruct (HP d Hp)|destruct (HQ d Hq)]; split; [|intros n| |intros n]; auto.
Qed.

Lemma ignores_lookup name x (Q : option Node -> Prop) : name <> x -> ignores name (fun d => Q (d !! x)).
Proof. intros Hne d Hq. split; [|intros n]; by rewrite ?lookup_delete_ne, ?lookup_insert_ne. Qed.

Lemma ignores_const name (p : Prop) : ignores name (fun _ => p).
Proof. by split. Qed.

Lemma ignores_ext name P Q : (forall d, P d <-> Q d) -> ignores name P -> ignores name Q.
Proof. intros He HP d Hq. apply He in Hq. destruct (HP d Hq). split; [|intros n]; by apply He. Qed.

Create HintDb ignores.
#[export] Hint Resolve ignores_and ignores_or ignores_const : ignores.
#[export] Hint Extern 1 (ignores _ (agree _ _)) => apply agree_ignores; set_solver : ignores.
#[export] Hint Extern 1 (ignores _ (fun d => agree _ _ d)) => apply agree_ignores; set_solver : ignores.
#[export] Hint Extern 2 (ignores ?x (fun d => d !! ?y = ?v)) =>
  apply (ignores_lookup x y (fun o => o = v)); discriminate : ignores.

Section Rules.
Context `{OsErrorText, DirectoryErrorText, LinkTargets}.
Context {D : Type}.
Implicit Types P Q R : D -> Prop.

Lemma triple_system torn (call : D -> result Error D) P Q R :
  (forall d d', P d -> call d = Ok d' -> Q d') -> (forall d, P d -> R d) ->
  (forall n d, P d -> R (torn n d)) ->
  htriple P (system torn call) (fun _ => Q) R.
Proof.
  intros HQ HR Ht s Hs. unfold system, holds in *.
  destruct (fates s) as [|[|error n|n] rest]; simpl; auto;
    destruct (call (content s)) as [d|e] eqn:Hc; simpl; eauto.
Qed.

Lemma htriple_weaken {A} (m : prog D A) P (Q Q' : A -> D -> Prop) R R' :
  htriple P m Q R -> (forall a d, Q a d -> Q' a d) -> (forall d, R d -> R' d) -> htriple P m Q' R'.
Proof.
  intros Hm HQ HR. eapply triple_conseq; [| | |exact Hm]; [done|..].
  - intros a s. apply (HQ a).
  - intros s. apply HR.
Qed.

Lemma htriple_strengthen {A} (m : prog D A) P P' (Q : A -> D -> Prop) R :
  htriple P m Q R -> (forall d, P' d -> P d) -> htriple P' m Q R.
Proof. intros Hm HP s Hs. apply Hm, HP, Hs. Qed.

Lemma htriple_prop {A} (m : prog D A) (p : Prop) P (Q : A -> D -> Prop) R :
  (p -> htriple P m Q R) -> htriple (fun d => p /\ P d) m Q R.
Proof. intros Hm s [Hp Hs]. by apply Hm. Qed.

Lemma htriple_or {A} (m : prog D A) P P' (Q Q' : A -> D -> Prop) R R' :
  htriple P m Q R -> htriple P' m Q' R' ->
  htriple (fun d => P d \/ P' d) m (fun a d => Q a d \/ Q' a d) (fun d => R d \/ R' d).
Proof.
  intros Hm Hm' s [Hs|Hs]; [specialize (Hm s Hs)|specialize (Hm' s Hs)]; destruct (m s) as [[] ];
    by (left + right).
Qed.

Lemma htriple_frame {A} (m : prog D A) (p : Prop) P (Q : A -> D -> Prop) R :
  htriple P m Q R -> htriple (fun d => p /\ P d) m (fun a d => p /\ Q a d) (fun d => p /\ R d).
Proof. intros Hm s [Hp Hs]. specialize (Hm s Hs). destruct (m s) as [[] ]; by split. Qed.

Lemma htriple_seq {A B} (m : prog D A) (f : A -> prog D B) P (M : A -> D -> Prop) (Q : B -> D -> Prop) R :
  htriple P m M R -> (forall a, htriple (M a) (f a) Q R) -> htriple P (m ≫= f) Q R.
Proof. intros Hm Hf. eapply triple_bind; [exact Hm|]. intros a. apply Hf. Qed.

Lemma htriple_ret {A} (a : A) (Q : A -> D -> Prop) R : htriple (Q a) (mret a : prog D A) Q R.
Proof. by intros s Hs. Qed.

Lemma triple_read {A} (f : D -> result Error A) P :
  htriple P (read f) (fun a d => f d = Ok a /\ P d) P.
Proof. intros s Hs. unfold read, reads. by destruct (f (content s)) eqn:Hf. Qed.

Lemma triple_pure {A} (r : result Error A) P : htriple P (pure r) (fun a d => r = Ok a /\ P d) P.
Proof. intros s Hs. unfold pure, lift. by destruct r. Qed.

Lemma triple_raise {A} e (Q : A -> D -> Prop) P : htriple P (raise e) Q P.
Proof. by intros s Hs. Qed.

Lemma triple_attempt {A} (m : prog D A) P (Q : A -> D -> Prop) R :
  htriple P m Q R ->
  htriple P (attempt m) (fun r d => match r with Ok a => Q a d | Err _ => R d end) R.
Proof.
  intros Hm s Hs. specialize (Hm s Hs). unfold attempt.
  destruct (m s) as [[a|[e|]] s']; done.
Qed.

Lemma triple_ignoring {A} (m : prog D A) P Q :
  htriple P m (fun _ => Q) Q -> htriple P (ignoring m) (fun _ => Q) Q.
Proof.
  intros Hm. eapply triple_bind; [apply triple_attempt, Hm|]. intros r s Hs. by destruct r.
Qed.

(** A destructor that neither assertion depends on. *)
Lemma triple_guarded {A} (m : prog D A) release P (Q : A -> D -> Prop) R :
  htriple P m Q R ->
  (forall a, htriple (Q a) release (fun _ => Q a) (Q a)) -> htriple R release (fun _ => R) R ->
  (forall a d, Q a d -> R d) ->
  htriple P (guarded m release) Q R.
Proof.
  intros Hm HQ HR Hw. eapply triple_bind; [apply triple_attempt, Hm|]. intros [a|e].
  - eapply triple_bind; [|intros ? s Hs; exact Hs].
    eapply htriple_weaken; [exact (triple_ignoring _ _ _ (HQ a))|done|apply Hw].
  - eapply triple_bind; [apply triple_ignoring, HR|]. intros _ s Hs. done.
Qed.

Lemma triple_sync P : htriple P sync_all (fun _ => P) P.
Proof. apply triple_system; [by intros d d' Hd [= <-]|done|done]. Qed.
End Rules.

Section FileRules.
Context `{OsErrorText, DirectoryErrorText, LinkTargets}.
Implicit Types P Q R : Entries -> Prop.

Lemma triple_create_new name P : absorbs name P -> htriple P (create_new name) (fun _ => P) P.
Proof.
  intros Hi. apply triple_system; [|done|done].
  intros d d' Hd Hc. destruct (d !! name); [done|]. injection Hc as <-. by apply Hi.
Qed.

Lemma triple_write_all name bytes P :
  absorbs name P ->
  htriple P (write_all name bytes) (fun _ d => P d /\ d !! name = Some (RegularFile bytes)) P.
Proof.
  intros Hi. apply (triple_system _ _ P (fun d => P d /\ d !! name = Some (RegularFile bytes)) P);
    [|done|]; intros; simplify_eq.
  - split; [by apply Hi|]. apply lookup_insert_eq.
  - by apply Hi.
Qed.

Lemma triple_write_new_synced name bytes P :
  absorbs name P ->
  htriple P (write_new_synced name bytes) (fun _ d => P d /\ d !! name = Some (RegularFile bytes)) P.
Proof.
  intros Hi. eapply triple_bind; [by apply triple_create_new|]. intros ?.
  eapply triple_bind; [by apply triple_write_all|]. intros ?.
  eapply triple_conseq; [| | |apply triple_sync]; [done|done|]. intros s Hs. apply Hs.
Qed.

Lemma triple_remove_file name P : ignores name P -> htriple P (remove_file name) (fun _ => P) P.
Proof.
  intros Hi. apply triple_system; [|done|done].
  intros d d' Hd Hc. destruct (d !! name) as [[]|]; simplify_eq; by apply Hi.
Qed.

(** The file at [from] moves: what holds of the disk without it, and of the disk with it
    at [to]. *)
Lemma triple_rename from to node P Q R :
  (forall d, P d -> d !! from = Some node -> Q (<[to := node]> (delete from d))) ->
  (forall d, P d -> R d) ->
  htriple (fun d => P d /\ d !! from = Some node) (rename from to) (fun _ => Q) R.
Proof.
  intros HQ HR. apply triple_system; [|by intros d [Hd _]; apply HR|by intros n d [Hd _]; apply HR].
  intros d d' [Hd Hf] Hc. rewrite Hf in Hc.
  destruct (d !! to) as [[]|]; simplify_eq; by apply HQ.
Qed.

Lemma triple_atomic_replace stale target temporary bytes P Q R :
  ignores temporary P -> (forall d, P d -> Q (<[target := RegularFile bytes]> d)) ->
  (forall d, P d \/ Q d -> R d) ->
  htriple P (atomic_replace stale target temporary bytes) (fun _ => Q) R.
Proof.
  intros Hi HQ HR. unfold atomic_replace.
  eapply (triple_bind _ _ _ (fun _ => holds P)).
  { eapply htriple_weaken; [apply (triple_read _ P)|by intros a d [? Hd]|auto]. }
  intros [|]; [eapply htriple_weaken; [apply (triple_raise _ (fun _ _ => False) P)|done|auto]|].
  eapply triple_bind.
  { eapply htriple_weaken; [by apply (triple_write_new_synced temporary bytes P), ignores_absorbs|done|auto]. }
  intros ?. eapply triple_bind.
  { apply triple_rename with (Q := Q) (R := R); [|intros d Hd; apply HR; by left].
    intros d Hd _. by apply HQ, Hi. }
  intros ?. eapply htriple_weaken; [apply (triple_sync Q)|done|auto].
Qed.

Lemma triple_acquire name message P : ignores name P -> htriple P (acquire name message) (fun _ => P) P.
Proof.
  intros Hi. eapply triple_bind; [by apply (triple_attempt _ P (fun _ => P) P), triple_create_new, ignores_absorbs|].
  intros [a|[] ] s Hs; done.
Qed.

Lemma triple_holding {A} name message (m : prog Entries A) P (Q : A -> Entries -> Prop) R :
  ignores name P -> ignores name R -> (forall a, ignores name (Q a)) ->
  (forall d, P d -> R d) -> (forall a d, Q a d -> R d) ->
  htriple P m Q R -> htriple P (holding name message m) Q R.
Proof.
  intros HP HR HQ HPR HQR Hm. eapply triple_bind.
  { eapply htriple_weaken; [by apply (triple_acquire name message P)|done|done]. }
  intros ?. apply triple_guarded; auto using triple_remove_file.
Qed.

Lemma triple_inside {A} (m : prog Entries A) P (Q : A -> Entries -> Prop) R :
  htriple P m Q R ->
  htriple (fun p => exists d, p = Real d /\ P d) (inside m)
          (fun a p => exists d, p = Real d /\ Q a d) (fun p => exists d, p = Real d /\ R d).
Proof.
  intros Hm [fs p] (d & Hp & Hd). simpl in Hp. subst p.
  specialize (Hm (Build_Disk fs d) Hd). unfold inside, mbind, op_bind, read, reads, zoom. simpl.
  destruct (m (Build_Disk fs d)) as [[a|e] s']; simpl; by eexists.
Qed.
End FileRules.

(** A part of the disk, in a frame [F] that does not depend on it. *)
Section ZoomRules.
Context {D D' : Type} (get : D -> D') (set : D' -> D -> D).
Context (get_set : forall x d, get (set x d) = x).

Lemma triple_zoom {A} (m : prog D' A) (F : D -> Prop) P (Q : A -> D' -> Prop) R :
  (forall x d, F d -> F (set x d)) -> htriple P m Q R ->
  htriple (fun d => P (get d) /\ F d) (zoom get set m)
          (fun a d => Q a (get d) /\ F d) (fun d => R (get d) /\ F d).
Proof.
  intros HF Hm [fs d] [Hd Hf]. specialize (Hm (Build_Disk fs (get d)) Hd). unfold zoom. simpl in *.
  destruct (m (Build_Disk fs (get d))) as [[a|e] s']; simpl in *; unfold holds in *; simpl;
    rewrite get_set; auto.
Qed.

Lemma run_zoom {A} (m : prog D' A) fs d r fs' x :
  m (Build_Disk fs (get d)) = (r, Build_Disk fs' x) ->
  zoom get set m (Build_Disk fs d) = (r, Build_Disk fs' (set x d)).
Proof. intros Hm. unfold zoom. simpl. by rewrite Hm. Qed.
End ZoomRules.

(** * Without faults *)

Abbreviation calm d := (Build_Disk [] d).

Section Calm.
Context `{OsErrorText, DirectoryErrorText, LinkTargets}.
Context {D : Type}.

Lemma run_pure {A} (r : result Error A) a (s : Disk D) : r = Ok a -> pure r s = (Ok a, s).
Proof. by intros ->. Qed.

Lemma run_read {A} (f : D -> result Error A) a s : f (content s) = Ok a -> read f s = (Ok a, s).
Proof. intros Hf. unfold read, reads. by rewrite Hf. Qed.

Lemma calm_system torn (call : D -> result Error D) d d' :
  call d = Ok d' -> system torn call (calm d) = (Ok (), calm d').
Proof. intros Hc. unfold system. simpl. by rewrite Hc. Qed.

Lemma calm_sync (d : D) : sync_all (calm d) = (Ok (), calm d).
Proof. done. Qed.

Lemma calm_attempt {A} (m : prog D A) d r d' :
  m (calm d) = (map_err Raised r, calm d') -> attempt m (calm d) = (Ok r, calm d').
Proof. intros Hm. unfold attempt. rewrite Hm. by destruct r. Qed.

Lemma calm_guarded {A} (m : prog D A) release d r d' d'' :
  m (calm d) = (map_err Raised r, calm d') -> release (calm d') = (Ok (), calm d'') ->
  guarded m release (calm d) = (map_err Raised r, calm d'').
Proof.
  intros Hm Hr. unfold guarded. rewrite (run_bind _ _ _ _ _ (calm_attempt _ _ _ _ Hm)).
  unfold ignoring, attempt, mbind, op_bind. by rewrite Hr.
Qed.
End Calm.

Section CalmFiles.
Context `{OsErrorText, DirectoryErrorText, LinkTargets}.
Implicit Types d : Entries.

(** A name that a file can be moved to. *)
Definition replaceable (name : string) (d : Entries) : Prop :=
  match d !! name with Some (Folder _) => False | _ => True end.

Lemma calm_create_new name d :
  d !! name = None -> create_new name (calm d) = (Ok (), calm (<[name := RegularFile []]> d)).
Proof. intros Hn. apply calm_system. by rewrite Hn. Qed.

Lemma calm_write_all name bytes d :
  write_all name bytes (calm d) = (Ok (), calm (<[name := RegularFile bytes]> d)).
Proof. by apply calm_system. Qed.

Lemma calm_write_new_synced name bytes d :
  d !! name = None ->
  write_new_synced name bytes (calm d) = (Ok (), calm (<[name := RegularFile bytes]> d)).
Proof.
  intros Hn. unfold write_new_synced. rewrite (run_bind _ _ _ _ _ (calm_create_new _ _ Hn)).
  by rewrite (run_bind _ _ _ _ _ (calm_write_all _ _ _)), insert_insert_eq.
Qed.

Lemma calm_rename from to bytes d :
  d !! from = Some bytes -> replaceable to d ->
  rename from to (calm d) = (Ok (), calm (<[to := bytes]> (delete from d))).
Proof.
  intros Hf Ht. apply calm_system. rewrite Hf. unfold replaceable in Ht.
  by destruct (d !! to) as [[]|].
Qed.

Lemma calm_remove_file name bytes d :
  d !! name = Some (RegularFile bytes) -> remove_file name (calm d) = (Ok (), calm (delete name d)).
Proof. intros Hn. apply calm_system. by rewrite Hn. Qed.

Lemma calm_read_bounded e max name bytes fs d :
  d !! name = Some (RegularFile bytes) -> vec_len bytes <= max ->
  read_bounded e max name (Build_Disk fs d) = (Ok bytes, Build_Disk fs d).
Proof. intros Hn Hm. apply run_read. simpl. rewrite Hn. by destruct (Z.ltb_spec max (vec_len bytes)); [lia|]. Qed.

Lemma absent_not_present name d : d !! name = None -> present name d = false.
Proof. intros Hn. unfold present. by rewrite Hn. Qed.

Lemma staged_move from to bytes d :
  d !! from = None -> from <> to ->
  <[to := RegularFile bytes]> (delete from (<[from := RegularFile bytes]> d)) = <[to := RegularFile bytes]> d.
Proof. intros Hn Hne. by rewrite delete_insert_id. Qed.

Lemma calm_atomic_replace stale target temporary bytes d :
  d !! temporary = None -> temporary <> target -> replaceable target d ->
  atomic_replace stale target temporary bytes (calm d) = (Ok (), calm (<[target := RegularFile bytes]> d)).
Proof.
  intros Hn Hne Ht. unfold atomic_replace.
  rewrite (run_bind _ _ _ _ _ (run_read _ false (calm d) (f_equal Ok (absent_not_present _ _ Hn)))).
  cbn iota beta. rewrite (run_bind _ _ _ _ _ (calm_write_new_synced _ bytes _ Hn)).
  assert (rename temporary target (calm (<[temporary := RegularFile bytes]> d))
          = (Ok (), calm (<[target := RegularFile bytes]> d))) as Hr.
  { rewrite (calm_rename _ _ (RegularFile bytes)); [by rewrite staged_move|apply lookup_insert_eq|].
    unfold replaceable. by rewrite lookup_insert_ne. }
  by rewrite (run_bind _ _ _ _ _ Hr).
Qed.

Lemma calm_holding {A} name message (m : prog Entries A) d r d' bytes :
  d !! name = None ->
  m (calm (<[name := RegularFile []]> d)) = (map_err Raised r, calm d') ->
  d' !! name = Some (RegularFile bytes) ->
  holding name message m (calm d) = (map_err Raised r, calm (delete name d')).
Proof.
  intros Hn Hm Hl. unfold holding.
  assert (acquire name message (calm d) = (Ok (), calm (<[name := RegularFile []]> d))) as Ha.
  { unfold acquire. by rewrite (run_bind _ _ _ _ _ (calm_attempt _ _ (Ok ()) _ (calm_create_new _ _ Hn))). }
  rewrite (run_bind _ _ _ _ _ Ha). by apply (calm_guarded _ _ _ _ d'), (calm_remove_file _ bytes).
Qed.

(** A lock that is there is refused, and everything stays. *)
Lemma holding_locked {A} name message (m : prog Entries A) d node :
  d !! name = Some node -> holding name message m (calm d) = (Err (Raised (Io message)), calm d).
Proof.
  intros Hn. unfold holding, acquire, create_new, attempt, system, mbind, op_bind. simpl. by rewrite Hn.
Qed.

Lemma calm_inside {A} (m : prog Entries A) fs d r fs' d' :
  m (Build_Disk fs d) = (r, Build_Disk fs' d') ->
  inside m (Build_Disk fs (Real d)) = (r, Build_Disk fs' (Real d')).
Proof.
  intros Hm. unfold inside, mbind, op_bind, read, reads, zoom. simpl. by rewrite Hm.
Qed.
End CalmFiles.
