(* ===== verification/Deployment.v ===== *)
(** src/deployment.rs: a directory with the active deployment image and the one to roll
    back to, and the two transactions on it, on a machine of [Disk] that may fail or
    stop at every call. *)
From S2P Require Import Prelude Effects FileTree External Json Model Canonical Disk.
From S2P Require Protocol.

Definition MAX_DEPLOYMENT_BYTES : Z := 1048576.

Module StateSnapshot.
Record StateSnapshot := { schema_version : string; state : string; revision : Z }.

#[global] Instance StateSnapshot_eq_dec : EqDecision StateSnapshot.
Proof. solve_decision. Defined.
End StateSnapshot.

Module StateTransform.
Record StateTransform := {
  from_schema : string;
  to_schema : string;
  state_map : btree_map string string;
}.
End StateTransform.

Module DeploymentBundle.
Record DeploymentBundle := {
  version : string;
  candidate : Candidate.Candidate;
  candidate_digest : string;
  state : StateSnapshot.StateSnapshot;
  source_state_digest : string;
  state_transform_digest : string;
}.
End DeploymentBundle.

Inductive FailurePoint := NoFailure | AfterRollbackPrepared | BeforeActivation.

#[export] Instance FailurePoint_eq_dec : EqDecision FailurePoint.
Proof. solve_decision. Defined.

Module DeploymentReceipt.
Record DeploymentReceipt := {
  active_digest : string;
  candidate_digest : string;
  state_transform_digest : string;
  rollback_available : bool;
  state_revision : Z;
}.
End DeploymentReceipt.

(** The names used under the root. *)
Definition active : string := "active.json".
Definition rollback_image : string := "rollback.json".
Definition active_tmp : string := "active.tmp".
Definition rollback_tmp : string := "rollback.tmp".
Definition lock : string := ".deploy.lock".

Section Deployment.
Context `{OsErrorText, DirectoryErrorText, LinkTargets, SerdeErrorText, JsonText, Sha256, Hex}.
Context `{!ToValue Candidate.Candidate, !ToValue StateSnapshot.StateSnapshot}.
Context `{!ToValue StateTransform.StateTransform}.
Context `{!ToValue DeploymentBundle.DeploymentBundle, !FromSlice DeploymentBundle.DeploymentBundle}.

(** ** Checks *)

Definition is_digest (value : string) : bool :=
  (str_len value =? 64) && bool_decide (is_Some (hex_decode value)).

Definition decode_bundle (bytes : list Z) : result Error DeploymentBundle.DeploymentBundle :=
  bundle ← ok_or (from_slice (T := DeploymentBundle.DeploymentBundle) bytes)
                 (InvalidEvidence ("deployment image is invalid: " +:+ serde_error_text));
  let candidate := DeploymentBundle.candidate bundle in
  let grammar := Candidate.grammar candidate in
  _ ← Grammar.validate grammar;
  let rejected := Err (InvalidEvidence "deployment image integrity or state binding is invalid") in
  if negb (bool_decide (DeploymentBundle.version bundle = "deployment-v1")) then rejected else
  actual ← digest candidate;
  if negb (bool_decide (DeploymentBundle.candidate_digest bundle = actual))
     || negb (contains (StateSnapshot.state (DeploymentBundle.state bundle)) (Grammar.states grammar))
     || negb (bool_decide (StateSnapshot.schema_version (DeploymentBundle.state bundle) = Grammar.version grammar))
     || negb (is_digest (DeploymentBundle.source_state_digest bundle))
     || negb (is_digest (DeploymentBundle.state_transform_digest bundle))
  then rejected
  else Ok bundle.

Definition validate_transform (candidate : Candidate.Candidate) (source : StateSnapshot.StateSnapshot)
  (transform : StateTransform.StateTransform) : result Error () :=
  let grammar := Candidate.grammar candidate in
  let state_map := StateTransform.state_map transform in
  if negb (bool_decide (StateTransform.from_schema transform = StateSnapshot.schema_version source))
     || negb (bool_decide (StateTransform.to_schema transform = Grammar.version grammar))
     || bool_decide (state_map = []) || (64 <? vec_len state_map)
     || existsb (fun state => negb (contains state (Grammar.states grammar))) state_map.*2
  then Err (InvalidEvidence "state transform does not match the source and candidate schemas")
  else Ok ().

(** ** Files *)

Definition write_new_synced (path : string) (data : list Z) : prog Entries () :=
  Disk.write_new_synced path data.

Definition atomic_replace (target temporary_name : string) (data : list Z) : prog Entries () :=
  Disk.atomic_replace (InvalidEvidence "stale deployment staging file") target temporary_name data.

Definition read_regular_bounded (path : string) : prog Entries (list Z) :=
  read_bounded (InvalidEvidence "deployment image is not a bounded regular file") MAX_DEPLOYMENT_BYTES path.

Definition reject_links : prog Place () :=
  real_directory (InvalidEvidence "deployment root must be a real directory").

(** [DeploymentLock::acquire] and its [Drop] around what runs while it is held. *)
Definition with_deployment_lock {A} (m : prog Entries A) : prog Entries A :=
  holding lock "deployment transaction is locked" m.

(** ** Transactions *)

(** The image that [deploy_with_failure] installs, and its bytes. *)
Definition image_of (candidate : Candidate.Candidate) (source : StateSnapshot.StateSnapshot)
  (transform : StateTransform.StateTransform) : result Error (DeploymentBundle.DeploymentBundle * list Z) :=
  mapped ← ok_or (bt_get (StateSnapshot.state source) (StateTransform.state_map transform))
                 (InvalidEvidence "state transform has no mapping for current state");
  revision ← ok_or (checked_add u64_max (StateSnapshot.revision source) 1)
                   (InvalidEvidence "state revision overflow");
  candidate_digest ← digest candidate;
  source_state_digest ← digest source;
  state_transform_digest ← digest transform;
  let bundle := {| DeploymentBundle.version := "deployment-v1";
                   DeploymentBundle.candidate := candidate;
                   DeploymentBundle.candidate_digest := candidate_digest;
                   DeploymentBundle.state := {|
                     StateSnapshot.schema_version := StateTransform.to_schema transform;
                     StateSnapshot.state := mapped; StateSnapshot.revision := revision |};
                   DeploymentBundle.source_state_digest := source_state_digest;
                   DeploymentBundle.state_transform_digest := state_transform_digest |} in
  bytes ← encode bundle;
  if MAX_DEPLOYMENT_BYTES <? vec_len bytes
  then Err (SearchExhausted "deployment bundle exceeds 1 MiB")
  else Ok (bundle, bytes).

(** Keeping the active image, if there is one, as the one to roll back to. *)
Definition prepare_rollback : prog Entries bool :=
  had_active ← read (fun d => Ok (present active d));
  if had_active : bool then
    previous ← read_regular_bounded active;
    _ ← pure (decode_bundle previous);
    _ ← atomic_replace rollback_image rollback_tmp previous;
    mret true
  else mret false.

(** What [deploy_with_failure] does while it holds the lock. *)
Definition install (candidate : Candidate.Candidate) (source : StateSnapshot.StateSnapshot)
  (transform : StateTransform.StateTransform) (failure : FailurePoint)
  : prog Entries DeploymentReceipt.DeploymentReceipt :=
  had_active ← prepare_rollback;
  if bool_decide (failure = AfterRollbackPrepared)
  then raise (Io "injected failure after rollback preparation") else
  '(bundle, bytes) ← pure (image_of candidate source transform);
  _ ← write_new_synced active_tmp bytes;
  if bool_decide (failure = BeforeActivation) then
    _ ← remove_file active_tmp;
    raise (Io "injected failure before activation")
  else
  _ ← rename active_tmp active;
  _ ← sync_all;
  candidate_digest ← pure (digest candidate);
  mret {| DeploymentReceipt.active_digest := bytes_digest bytes;
          DeploymentReceipt.candidate_digest := candidate_digest;
          DeploymentReceipt.state_transform_digest := DeploymentBundle.state_transform_digest bundle;
          DeploymentReceipt.rollback_available := had_active;
          DeploymentReceipt.state_revision := StateSnapshot.revision (DeploymentBundle.state bundle) |}.

Definition deploy_with_failure (recovery : Protocol.RecoveryResult) (source : StateSnapshot.StateSnapshot)
  (transform : StateTransform.StateTransform) (failure : FailurePoint)
  : prog Place DeploymentReceipt.DeploymentReceipt :=
  match recovery with
  | Protocol.Refused _ _ => raise (CheckerRejected "only a certified recovery can be deployed")
  | Protocol.Certified candidate _ _ =>
      _ ← pure (validate_transform candidate source transform);
      _ ← create_dir_all;
      _ ← reject_links;
      inside (with_deployment_lock (install candidate source transform failure))
  end.

Definition deploy (recovery : Protocol.RecoveryResult) (source : StateSnapshot.StateSnapshot)
  (transform : StateTransform.StateTransform) : prog Place DeploymentReceipt.DeploymentReceipt :=
  deploy_with_failure recovery source transform NoFailure.

Definition restore_image : prog Entries DeploymentReceipt.DeploymentReceipt :=
  bytes ← read_regular_bounded rollback_image;
  bundle ← pure (decode_bundle bytes);
  _ ← atomic_replace active active_tmp bytes;
  candidate_digest ← pure (digest (DeploymentBundle.candidate bundle));
  mret {| DeploymentReceipt.active_digest := bytes_digest bytes;
          DeploymentReceipt.candidate_digest := candidate_digest;
          DeploymentReceipt.state_transform_digest := DeploymentBundle.state_transform_digest bundle;
          DeploymentReceipt.rollback_available := true;
          DeploymentReceipt.state_revision := StateSnapshot.revision (DeploymentBundle.state bundle) |}.

Definition rollback : prog Place DeploymentReceipt.DeploymentReceipt :=
  _ ← reject_links;
  inside (with_deployment_lock restore_image).

Definition read_active : prog Place DeploymentBundle.DeploymentBundle :=
  inside (bytes ← read_regular_bounded active; pure (decode_bundle bytes)).
End Deployment.
