(* ===== verification/DeploymentSafety.v ===== *)
(** src/deployment.rs on a machine that may fail or stop at every call: what a transaction
    may leave, what any sequence of them keeps, and what one does when nothing fails. *)
From S2P Require Import Prelude Effects FileTree External Json Model Canonical Disk Deployment.
From S2P Require Protocol Checker Sandbox.

(** * What a transaction may leave *)

Section Outcomes.
Context `{OsErrorText, DirectoryErrorText, LinkTargets, SerdeErrorText, JsonText, Sha256, Hex}.
Context `{!ToValue Candidate.Candidate, !ToValue StateSnapshot.StateSnapshot}.
Context `{!ToValue StateTransform.StateTransform}.
Context `{!ToValue DeploymentBundle.DeploymentBundle, !FromSlice DeploymentBundle.DeploymentBundle}.

(** The names that only a transaction in progress, or one that was cut short, uses. *)
Definition transient : list string := [lock; active_tmp; rollback_tmp].

(** A bounded image that decodes. *)
Definition is_image (n : Node) : Prop :=
  exists bytes bundle, n = RegularFile bytes /\ vec_len bytes <= MAX_DEPLOYMENT_BYTES /\
                       decode_bundle bytes = Ok bundle.

(** Nothing has changed; the active image is the one to roll back to as well; and a new
    image is active, with the one it replaced, if any, to roll back to. *)
Definition untouched (d d' : Entries) : Prop := agree transient d d'.
Definition prepared (d d' : Entries) : Prop :=
  agree (rollback_image :: transient) d d' /\
  exists n, d !! active = Some n /\ is_image n /\ d' !! rollback_image = Some n.
Definition activated (d : Entries) (image : list Z) (d' : Entries) : Prop :=
  agree (active :: rollback_image :: transient) d d' /\
  d' !! active = Some (RegularFile image) /\
  if present active d
  then exists n, d !! active = Some n /\ is_image n /\ d' !! rollback_image = Some n
  else d' !! rollback_image = d !! rollback_image.

(** Before the new image is active. *)
Definition pending (d : Entries) (had_active : bool) (d' : Entries) : Prop :=
  present active d = had_active /\ (if had_active then prepared d d' else untouched d d').
Definition inactive (d d' : Entries) : Prop := untouched d d' \/ prepared d d'.

(** Image names, told apart by computation. *)
Lemma untouched_ignores name d : name ∈ transient -> ignores name (untouched d).
Proof. apply agree_ignores. Qed.

Lemma prepared_ignores name d : name ∈ transient -> ignores name (prepared d).
Proof.
  intros Hn. apply ignores_and; [apply agree_ignores; by right|].
  assert (name <> rollback_image) as Hne by (by intros ->; vm_compute in Hn; set_solver).
  apply (ignores_lookup name rollback_image (fun o => exists n, d !! active = Some n /\ is_image n /\ o = Some n) Hne).
Qed.

Lemma activated_ignores name d image : name ∈ transient -> ignores name (activated d image).
Proof.
  intros Hn. assert (name <> rollback_image /\ name <> active) as [Hr Ha]
    by (by split; intros ->; vm_compute in Hn; set_solver).
  apply ignores_and; [apply agree_ignores; by do 2 right|].
  apply ignores_and; [by apply (ignores_lookup name active (fun o => o = Some (RegularFile image)))|].
  destruct (present active d).
  - by apply (ignores_lookup name rollback_image
      (fun o => exists n, d !! active = Some n /\ is_image n /\ o = Some n)).
  - by apply (ignores_lookup name rollback_image (fun o => o = d !! rollback_image)).
Qed.

Lemma inactive_ignores name d : name ∈ transient -> ignores name (inactive d).
Proof. intros Hn. apply ignores_or; [by apply untouched_ignores|by apply prepared_ignores]. Qed.

Lemma pending_ignores name d b : name ∈ transient -> ignores name (pending d b).
Proof.
  intros Hn. apply ignores_and; [apply ignores_const|].
  destruct b; [by apply prepared_ignores|by apply untouched_ignores].
Qed.

Lemma pending_inactive d b d' : pending d b d' -> inactive d d'.
Proof. intros [_ Hp]. destruct b; [by right|by left]. Qed.

(** Putting the active image beside itself. *)
Lemma prepare_step d d' bytes bundle :
  untouched d d' -> d !! active = Some (RegularFile bytes) -> vec_len bytes <= MAX_DEPLOYMENT_BYTES ->
  decode_bundle bytes = Ok bundle ->
  prepared d (<[rollback_image := RegularFile bytes]> d').
Proof.
  intros Hu Ha Hl Hb. split.
  - intros x Hx. rewrite lookup_insert_ne by (intros <-; set_solver). apply Hu. set_solver.
  - exists (RegularFile bytes). split_and!; [done|by eexists _, _|apply lookup_insert_eq].
Qed.

(** The new image taking its place. *)
Lemma activate_step d d' b image :
  pending d b d' -> activated d image (<[active := RegularFile image]> d').
Proof.
  intros [Hb Hp]. unfold activated. rewrite Hb. split_and!; [|apply lookup_insert_eq|].
  - assert (agree (rollback_image :: transient) d d') as Ha.
    { destruct b; [apply Hp|]. eapply agree_mono; [|exact Hp]. set_solver. }
    intros x Hx. rewrite lookup_insert_ne by (intros <-; set_solver). apply Ha. set_solver.
  - rewrite lookup_insert_ne by done. destruct b; [apply Hp|]. apply Hp. vm_compute. set_solver.
Qed.

Lemma lock_transient : lock ∈ transient. Proof. by left. Qed.
Lemma active_tmp_transient : active_tmp ∈ transient. Proof. right. by left. Qed.
Lemma rollback_tmp_transient : rollback_tmp ∈ transient. Proof. right. right. by left. Qed.
#[local] Hint Resolve lock_transient active_tmp_transient rollback_tmp_transient : core.

(** ** Every step, whatever happens to it *)

Lemma read_regular_bounded_triple name P :
  htriple P (read_regular_bounded name)
    (fun bytes d => P d /\ d !! name = Some (RegularFile bytes) /\ vec_len bytes <= MAX_DEPLOYMENT_BYTES) P.
Proof.
  eapply htriple_weaken; [apply (triple_read _ P)| |done]. cbv beta. intros bytes d [Hr Hd].
  destruct (d !! name) as [[b| | |]|]; simplify_eq. destruct (_ <? _) eqn:Hlt; simplify_eq.
  split_and!; [done..|lia].
Qed.

Lemma prepare_rollback_triple d :
  htriple (untouched d) prepare_rollback (pending d) (inactive d).
Proof.
  assert (forall d', untouched d d' -> inactive d d') as Hw by (by left).
  apply (htriple_seq _ _ _ (fun b d' => present active d = b /\ untouched d d')).
  { eapply htriple_weaken; [apply (triple_read _ (untouched d))| |done].
    intros b d' [[= <-] Hu]. split; [|done]. unfold present. rewrite Hu by (vm_compute; set_solver). done. }
  intros had_active. apply htriple_prop. intros Hp.
  destruct had_active; [|by intros s Hs].
  eapply htriple_seq.
  { eapply htriple_weaken; [apply (read_regular_bounded_triple active (untouched d))|intros a d' Hd; exact Hd|done]. }
  intros previous.
  apply (htriple_seq _ _ _ (fun b d' => decode_bundle previous = Ok b /\ untouched d d' /\
            d' !! active = Some (RegularFile previous) /\ vec_len previous <= MAX_DEPLOYMENT_BYTES)).
  { eapply htriple_weaken; [apply triple_pure|done|]. intros d' (Hu & _). by left. }
  intros bundle. apply htriple_prop. intros Hb.
  apply (htriple_seq _ _ _ (fun _ => pending d true)).
  - apply (htriple_strengthen _ (fun d' => (d !! active = Some (RegularFile previous) /\
       vec_len previous <= MAX_DEPLOYMENT_BYTES) /\ untouched d d')).
    + apply htriple_prop. intros [Ha Hl]. apply triple_atomic_replace.
      * by apply untouched_ignores.
      * intros d' Hu. split; [done|]. by eapply prepare_step.
      * intros d' [Hu|Hq]; [by left|by eapply pending_inactive].
    + intros d' (Hu & Ha & Hl). split_and!; [|done|done]. rewrite <- Ha. symmetry. apply Hu. vm_compute. set_solver.
  - intros ?. apply (htriple_ret true (pending d)).
Qed.

(** The three ways to stop, and the one to end well. *)
Definition left_by (d : Entries) candidate source transform (d' : Entries) : Prop :=
  inactive d d' \/
  exists bundle image, image_of candidate source transform = Ok (bundle, image) /\ activated d image d'.
Definition installed (d : Entries) candidate source transform
  (receipt : DeploymentReceipt.DeploymentReceipt) (d' : Entries) : Prop :=
  exists bundle image, image_of candidate source transform = Ok (bundle, image) /\ activated d image d' /\
    DeploymentReceipt.active_digest receipt = bytes_digest image /\
    DeploymentReceipt.rollback_available receipt = present active d.

Lemma left_by_ignores name d candidate source transform :
  name ∈ transient -> ignores name (left_by d candidate source transform).
Proof.
  intros Hn. apply ignores_or; [by apply inactive_ignores|].
  intros d' (bundle & image & Hi & Ha). destruct (activated_ignores name d image Hn d' Ha).
  split; [|intros n]; exists bundle, image; split; auto.
Qed.

Lemma installed_ignores name d candidate source transform receipt :
  name ∈ transient -> ignores name (installed d candidate source transform receipt).
Proof.
  intros Hn d' (bundle & image & Hi & Ha & Hr). destruct (activated_ignores name d image Hn d' Ha).
  split; [|intros n]; exists bundle, image; split; auto.
Qed.

Lemma install_triple d candidate source transform failure :
  htriple (untouched d) (install candidate source transform failure)
    (installed d candidate source transform) (left_by d candidate source transform).
Proof.
  assert (forall b d', pending d b d' -> left_by d candidate source transform d') as Hw
    by (intros b d' Hp; left; by eapply pending_inactive).
  eapply htriple_seq.
  { eapply htriple_weaken; [apply prepare_rollback_triple|done|by left]. }
  intros had_active. destruct (bool_decide (failure = AfterRollbackPrepared)).
  { eapply htriple_weaken; [apply (triple_raise _ (fun _ _ => False))|done|apply Hw]. }
  eapply htriple_seq; [eapply htriple_weaken; [apply triple_pure|intros a d' Hd; exact Hd|apply Hw]|].
  intros [bundle image]. apply htriple_prop. intros Hi.
  eapply htriple_seq.
  { eapply htriple_weaken;
      [apply (triple_write_new_synced active_tmp image (pending d had_active)); by apply ignores_absorbs, pending_ignores
      |intros a d' Hd; exact Hd|apply Hw]. }
  intros ?. destruct (bool_decide (failure = BeforeActivation)).
  { apply (htriple_seq _ _ _ (fun _ => pending d had_active)); [|intros ?].
    - eapply htriple_strengthen; [|by intros d' [Hd ?]; exact Hd].
      eapply htriple_weaken; [apply (triple_remove_file _ (pending d had_active))|done|apply Hw].
      by apply pending_ignores.
    - eapply htriple_weaken; [apply (triple_raise _ (fun _ _ => False))|done|apply Hw]. }
  assert (forall d', activated d image d' -> left_by d candidate source transform d') as Ha
    by (intros d' Hd; right; by exists bundle, image).
  apply (htriple_seq _ _ _ (fun _ d' => present active d = had_active /\ activated d image d')).
  { apply triple_rename; [|apply Hw]. intros d' Hp _. split; [apply Hp|].
    apply (activate_step _ _ had_active). by apply pending_ignores. }
  intros ?. apply htriple_prop. intros Hb.
  apply (htriple_seq _ _ _ (fun _ => activated d image)).
  { eapply htriple_weaken; [apply (triple_sync (activated d image))|done|apply Ha]. }
  intros ?. eapply htriple_seq; [eapply htriple_weaken; [apply triple_pure|intros c d' Hd; exact Hd|apply Ha]|].
  intros candidate_digest s [_ Hs]. exists bundle, image. by split_and!.
Qed.

Lemma locked_install_triple d candidate source transform failure :
  htriple (untouched d) (with_deployment_lock (install candidate source transform failure))
    (installed d candidate source transform) (left_by d candidate source transform).
Proof.
  apply triple_holding; [by apply untouched_ignores|by apply left_by_ignores|..|apply install_triple].
  - intros receipt. by apply installed_ignores.
  - intros d' Hu. by do 2 left.
  - intros receipt d' (bundle & image & Hi & Ha & _). right. by exists bundle, image.
Qed.

Lemma deploy_triple d recovery candidate wasm certificate source transform failure :
  recovery = Protocol.Certified candidate wasm certificate ->
  htriple (fun p => p = Real d) (deploy_with_failure recovery source transform failure)
    (fun receipt p => exists d', p = Real d' /\ installed d candidate source transform receipt d')
    (fun p => exists d', p = Real d' /\ left_by d candidate source transform d').
Proof.
  intros ->. unfold deploy_with_failure.
  assert (forall p, p = Real d -> exists d', p = Real d' /\ left_by d candidate source transform d') as Hw.
  { intros p ->. exists d. split; [done|]. do 2 left. apply agree_refl. }
  eapply htriple_seq.
  { eapply htriple_weaken; [apply (triple_pure _ (fun p => p = Real d))|intros a p [? Hp]; exact Hp|apply Hw]. }
  intros ?. apply (htriple_seq _ _ _ (fun _ p => p = Real d)).
  { apply triple_system; [|apply Hw|by intros n p Hp; apply Hw]. by intros p p' -> [= <-]. }
  intros ?. apply (htriple_seq _ _ _ (fun _ p => p = Real d)).
  { eapply htriple_weaken; [apply (triple_read _ (fun p => p = Real d))|by intros b p [? Hp]|apply Hw]. }
  intros ?. eapply htriple_strengthen; [apply triple_inside, locked_install_triple|].
  intros p ->. exists d. split; [done|]. apply agree_refl.
Qed.

(** The image to roll back to is active. *)
Definition restored (d d' : Entries) : Prop := exists image,
  d !! rollback_image = Some (RegularFile image) /\ is_image (RegularFile image) /\
  agree (active :: transient) d d' /\ d' !! active = Some (RegularFile image).

Lemma restored_ignores name d : name ∈ transient -> ignores name (restored d).
Proof.
  intros Hn d' (image & Hr & Hi & Ha & He).
  assert (name <> active) as Hne by (by intros ->; vm_compute in Hn; set_solver).
  destruct (agree_ignores name (active :: transient) d ltac:(by right) d' Ha) as [H8 H9].
  split; [|intros n]; exists image; split_and!; auto; by rewrite ?lookup_delete_ne, ?lookup_insert_ne.
Qed.

Lemma restore_image_triple d :
  htriple (untouched d) restore_image (fun _ => restored d)
    (fun d' => untouched d d' \/ restored d d').
Proof.
  eapply htriple_seq.
  { eapply htriple_weaken; [apply (read_regular_bounded_triple rollback_image (untouched d))
      |intros a d' Hd; exact Hd|by left]. }
  intros image. apply (htriple_seq _ _ _ (fun b d' => decode_bundle image = Ok b /\ untouched d d' /\
            d' !! rollback_image = Some (RegularFile image) /\ vec_len image <= MAX_DEPLOYMENT_BYTES)).
  { eapply htriple_weaken; [apply triple_pure|done|]. intros d' (Hu & _). by left. }
  intros bundle. apply htriple_prop. intros Hb.
  apply (htriple_seq _ _ _ (fun _ => restored d)).
  - apply (htriple_strengthen _ (fun d' => (d !! rollback_image = Some (RegularFile image) /\
       vec_len image <= MAX_DEPLOYMENT_BYTES) /\ untouched d d')).
    + apply htriple_prop. intros [Ha Hl]. apply triple_atomic_replace; [by apply untouched_ignores| |done].
      intros d' Hu. exists image. split_and!; [done|by exists image, bundle| |apply lookup_insert_eq].
      intros x Hx. rewrite lookup_insert_ne by (intros <-; set_solver). apply Hu. set_solver.
    + intros d' (Hu & Ha & Hl). split_and!; [|done|done]. rewrite <- Ha. symmetry. apply Hu. vm_compute. set_solver.
  - intros ?. eapply htriple_seq.
    { eapply htriple_weaken; [apply (triple_pure _ (restored d))|intros c d' [? Hd]; exact Hd|by right]. }
    intros c s Hs. exact Hs.
Qed.

(** ** Images *)

Context `{!SerdeLaws DeploymentBundle.DeploymentBundle, !Sha256Laws, !HexLaws}.

Lemma digest_is_digest `{!ToValue T} (x : T) d : digest x = Ok d -> is_digest d = true.
Proof.
  intros (bytes & _ & ->)%digest_bytes. destruct (bytes_digest_hex bytes) as [Hl Hh].
  unfold is_digest. rewrite Hl. by rewrite bool_decide_eq_true_2.
Qed.

Lemma mapped_state candidate source transform k v :
  validate_transform candidate source transform = Ok () ->
  bt_get k (StateTransform.state_map transform) = Some v ->
  contains v (Grammar.states (Candidate.grammar candidate)) = true /\
  StateTransform.to_schema transform = Grammar.version (Candidate.grammar candidate).
Proof.
  unfold validate_transform. destruct (_ || _) eqn:Hb; [done|]. split_bools. intros _ Hg.
  split; [|done]. destruct (contains v _) eqn:Hc; [done|].
  assert (v ∈ (StateTransform.state_map transform).*2) as Hin.
  { clear -Hg. induction (StateTransform.state_map transform) as [|[k' v'] m IH]; [done|].
    simpl in *. destruct (cmp k k'); [|done|]; simplify_eq; [by left|right; auto]. }
  enough (existsb (fun state => negb (contains state (Grammar.states (Candidate.grammar candidate))))
            (StateTransform.state_map transform).*2 = true) by congruence.
  apply existsb_exists. exists v. rewrite Hc. split; [by apply list_elem_of_In|done].
Qed.

(** The image that is installed decodes. *)
Lemma image_decodes candidate source transform bundle bytes :
  validate_transform candidate source transform = Ok () ->
  Grammar.validate (Candidate.grammar candidate) = Ok () ->
  image_of candidate source transform = Ok (bundle, bytes) ->
  decode_bundle bytes = Ok bundle /\ is_image (RegularFile bytes).
Proof.
  intros Hv Hg Hi. cut (decode_bundle bytes = Ok bundle /\ vec_len bytes <= MAX_DEPLOYMENT_BYTES).
  { intros [Hd Hl]. split; [done|]. by exists bytes, bundle. }
  unfold image_of in Hi. inv_ok. injection Hi as <- <-. split_bools. split; [|done].
  apply from_slice_encode in Ha4. unfold decode_bundle. rewrite Ha4.
  destruct (mapped_state _ _ _ _ _ Hv Ha) as [Hc Hs]. cbn -[digest]. rewrite Hg. cbn -[digest].
  rewrite Ha1. cbn. rewrite !bool_decide_eq_true_2, Hc by done.
  by rewrite (digest_is_digest _ _ Ha2), (digest_is_digest _ _ Ha3).
Qed.

(** ** Sequences of transactions *)

(** What can happen to the directory: a deployment, of a candidate with a valid grammar
    as certified ones are, a rollback, each on a machine that fails or stops as it will,
    and an operator who removes what a stopped transaction left. *)
Definition clean (d : Entries) : Entries := foldr delete d transient.

Inductive step (d : Entries) : Entries -> Prop :=
| step_deploy candidate wasm certificate source transform failure fates r s d' :
    Grammar.validate (Candidate.grammar candidate) = Ok () ->
    deploy_with_failure (Protocol.Certified candidate wasm certificate) source transform failure
      (Build_Disk fates (Real d)) = (r, s) ->
    content s = Real d' -> step d d'
| step_rollback fates r s d' :
    rollback (Build_Disk fates (Real d)) = (r, s) -> content s = Real d' -> step d d'
| step_clean : step d (clean d).

(** The active image, where there is one, is whole. *)
Definition sound (d : Entries) : Prop := forall n, d !! active = Some n -> is_image n.

Lemma clean_agree d : agree transient d (clean d).
Proof. intros x Hx. unfold clean, transient in *. simpl. rewrite !lookup_delete_ne; set_solver. Qed.

Lemma clean_absent d name : name ∈ transient -> clean d !! name = None.
Proof.
  unfold clean, transient. simpl. intros Hn.
  destruct (decide (name = lock)) as [->|]; [apply lookup_delete_eq|rewrite lookup_delete_ne by done].
  destruct (decide (name = active_tmp)) as [->|]; [apply lookup_delete_eq|rewrite lookup_delete_ne by done].
  destruct (decide (name = rollback_tmp)) as [->|]; [apply lookup_delete_eq|]. set_solver.
Qed.

Lemma transient_not_image name : name ∈ transient -> name <> active /\ name <> rollback_image.
Proof. intros Hn. split; intros ->; vm_compute in Hn; set_solver. Qed.

Lemma agree_active names d d' : agree names d d' -> (active ∉ names) -> d' !! active = d !! active.
Proof. intros Ha Hn. by apply Ha. Qed.

Lemma inactive_active d d' : inactive d d' -> d' !! active = d !! active.
Proof. intros [Hu|[Hu _]]; apply Hu; vm_compute; set_solver. Qed.

Lemma rollback_triple d :
  htriple (fun p => p = Real d) rollback
    (fun _ p => exists d', p = Real d' /\ restored d d')
    (fun p => exists d', p = Real d' /\ (untouched d d' \/ restored d d')).
Proof.
  apply (htriple_seq _ _ _ (fun _ p => p = Real d)).
  { eapply htriple_weaken; [apply (triple_read _ (fun p => p = Real d))|by intros b p [? Hp]|].
    intros p ->. exists d. split; [done|]. left. apply agree_refl. }
  intros ?. eapply htriple_strengthen; [apply triple_inside, triple_holding; [..|apply restore_image_triple]|].
  - by apply untouched_ignores.
  - apply ignores_or; [by apply untouched_ignores|by apply restored_ignores].
  - intros _. by apply restored_ignores.
  - by left.
  - by right.
  - intros p ->. exists d. split; [done|]. apply agree_refl.
Qed.

(** ** A transaction on a machine without faults *)

(** The active image kept as the one to roll back to. *)
Definition kept (d : Entries) : Entries :=
  match d !! active with Some n => <[rollback_image := n]> d | None => d end.

Lemma sound_present d : sound d -> present active d = bool_decide (is_Some (d !! active)).
Proof.
  intros Hs. unfold present. destruct (d !! active) as [n|] eqn:Ha; [|done].
  by destruct (Hs n Ha) as (bytes & bundle & -> & _).
Qed.

Lemma calm_prepare d :
  sound d -> d !! rollback_tmp = None -> replaceable rollback_image d ->
  prepare_rollback (calm d) = (Ok (present active d), calm (kept d)).
Proof.
  intros Hs Hn Hr. unfold prepare_rollback.
  rewrite (run_bind _ _ _ _ _ (run_read _ (present active d) (calm d) eq_refl)).
  unfold kept. rewrite (sound_present d Hs). destruct (d !! active) as [n|] eqn:Ha; [|done].
  rewrite bool_decide_eq_true_2 by (by eexists).
  destruct (Hs n Ha) as (bytes & bundle & -> & Hl & Hd).
  rewrite (run_bind (read_regular_bounded active) _ _ _ _ (calm_read_bounded _ _ _ _ _ _ Ha Hl)).
  rewrite (run_bind _ _ _ _ _ (run_pure _ _ _ Hd)).
  by rewrite (run_bind (atomic_replace _ _ _) _ _ _ _
    (calm_atomic_replace _ rollback_image rollback_tmp bytes d Hn ltac:(done) Hr)).
Qed.

Lemma kept_lookup d name : name <> rollback_image -> kept d !! name = d !! name.
Proof. intros Hne. unfold kept. destruct (d !! active); [by rewrite lookup_insert_ne|done]. Qed.

Lemma calm_install d candidate source transform bundle image candidate_digest :
  sound d -> d !! rollback_tmp = None -> d !! active_tmp = None -> replaceable rollback_image d ->
  image_of candidate source transform = Ok (bundle, image) -> digest candidate = Ok candidate_digest ->
  install candidate source transform NoFailure (calm d) =
    (Ok {| DeploymentReceipt.active_digest := bytes_digest image;
           DeploymentReceipt.candidate_digest := candidate_digest;
           DeploymentReceipt.state_transform_digest := DeploymentBundle.state_transform_digest bundle;
           DeploymentReceipt.rollback_available := present active d;
           DeploymentReceipt.state_revision := StateSnapshot.revision (DeploymentBundle.state bundle) |},
     calm (<[active := RegularFile image]> (kept d))).
Proof.
  intros Hs Hn Ht Hr Hi Hc. unfold install.
  rewrite (run_bind _ _ _ _ _ (calm_prepare d Hs Hn Hr)). rewrite bool_decide_eq_false_2 by done. cbv iota.
  rewrite (run_bind _ _ _ _ _ (run_pure _ _ _ Hi)). cbv beta iota.
  assert (kept d !! active_tmp = None) as Ht' by (by rewrite kept_lookup).
  rewrite (run_bind (write_new_synced _ _) _ _ _ _ (calm_write_new_synced _ image _ Ht')). rewrite bool_decide_eq_false_2 by done. cbv iota.
  assert (rename active_tmp active (calm (<[active_tmp := RegularFile image]> (kept d)))
          = (Ok (), calm (<[active := RegularFile image]> (kept d)))) as Hm.
  { rewrite (calm_rename _ _ (RegularFile image)); [by rewrite staged_move|apply lookup_insert_eq|].
    unfold replaceable. rewrite lookup_insert_ne, kept_lookup by done.
    destruct (d !! active) as [n|] eqn:Ha; [|done]. by destruct (Hs n Ha) as (? & ? & -> & _). }
  rewrite (run_bind _ _ _ _ _ Hm), (run_bind _ _ _ _ _ (calm_sync _)).
  by rewrite (run_bind _ _ _ _ _ (run_pure _ _ _ Hc)).
Qed.

Lemma calm_locked {A} (m : prog Entries A) d r d' :
  d !! lock = None -> m (calm (<[lock := RegularFile []]> d)) = (Ok r, calm (<[lock := RegularFile []]> d')) ->
  d' !! lock = None ->
  inside (with_deployment_lock m) (calm (Real d)) = (Ok r, calm (Real d')).
Proof.
  intros Hl Hm Hl'. apply calm_inside. unfold with_deployment_lock.
  rewrite (calm_holding _ _ _ _ (Ok r) _ [] Hl Hm); [|apply lookup_insert_eq]. by rewrite delete_insert_id.
Qed.

Definition free (d : Entries) : Prop := forall name, name ∈ transient -> d !! name = None.

Lemma sound_other d name n : name <> active -> sound d -> sound (<[name := n]> d).
Proof. intros Hne Hs x. rewrite lookup_insert_ne by done. apply Hs. Qed.

Lemma calm_deploy d candidate wasm certificate source transform bundle image :
  sound d -> free d -> replaceable rollback_image d ->
  validate_transform candidate source transform = Ok () ->
  image_of candidate source transform = Ok (bundle, image) ->
  exists receipt,
    deploy (Protocol.Certified candidate wasm certificate) source transform (calm (Real d)) =
      (Ok receipt, calm (Real (<[active := RegularFile image]> (kept d)))) /\
    DeploymentReceipt.active_digest receipt = bytes_digest image /\
    DeploymentReceipt.rollback_available receipt = bool_decide (is_Some (d !! active)).
Proof.
  intros Hs Hf Hr Hv Hi.
  assert (exists c, digest candidate = Ok c) as [c Hc].
  { pose proof Hi as Hi'. unfold image_of in Hi'. inv_ok. eauto. }
  set (d0 := <[lock := RegularFile []]> d).
  assert (sound d0) as Hs0 by (by apply sound_other).
  assert (d0 !! active = d !! active) as Ha by (unfold d0; by rewrite lookup_insert_ne).
  assert (d0 !! rollback_tmp = None /\ d0 !! active_tmp = None /\ replaceable rollback_image d0) as (H8 & H9 & H10).
  { unfold d0, replaceable. rewrite !lookup_insert_ne by done. by split_and!; [apply Hf..|]. }
  pose proof (calm_install d0 candidate source transform bundle image c Hs0 H8 H9 H10 Hi Hc) as Hrun.
  match type of Hrun with _ = (Ok ?r, _) => exists r end.
  split; [|split; [reflexivity|rewrite <- Ha; exact (sound_present d0 Hs0)]].
  unfold deploy, deploy_with_failure. rewrite (run_bind _ _ _ _ _ (run_pure _ _ _ Hv)).
  rewrite (run_bind create_dir_all _ (calm (Real d)) () (calm (Real d)) eq_refl).
  rewrite (run_bind reject_links _ (calm (Real d)) () (calm (Real d)) eq_refl).
  apply calm_locked; [by apply Hf| |].
  - fold d0. refine (eq_trans Hrun _). do 2 f_equal. unfold kept. rewrite Ha. unfold d0.
    destruct (d !! active); by rewrite ?(insert_insert_ne _ lock) by done.
  - rewrite lookup_insert_ne, kept_lookup by done. by apply Hf.
Qed.

Lemma calm_rollback d image :
  free d -> d !! rollback_image = Some (RegularFile image) -> is_image (RegularFile image) ->
  replaceable active d ->
  exists receipt,
    rollback (calm (Real d)) = (Ok receipt, calm (Real (<[active := RegularFile image]> d))) /\
    DeploymentReceipt.active_digest receipt = bytes_digest image.
Proof.
  intros Hf Hr (bytes & bundle & [= <-] & Hl & Hd) Ha.
  assert (exists c, digest (DeploymentBundle.candidate bundle) = Ok c) as [c Hc].
  { pose proof Hd as Hd'. unfold decode_bundle in Hd'. inv_ok.
    destruct (negb _); [done|]. inv_ok. destruct (_ || _); [done|]. injection Hd' as ->. eauto. }
  eexists. split.
  - unfold rollback. rewrite (run_bind reject_links _ (calm (Real d)) () (calm (Real d)) eq_refl).
    apply calm_locked; [by apply Hf| |rewrite lookup_insert_ne by done; by apply Hf].
    set (d0 := <[lock := RegularFile []]> d). unfold restore_image.
    assert (d0 !! rollback_image = Some (RegularFile image)) as Hr0 by (unfold d0; by rewrite lookup_insert_ne).
    rewrite (run_bind (read_regular_bounded rollback_image) _ _ _ _ (calm_read_bounded _ _ _ _ _ _ Hr0 Hl)).
    rewrite (run_bind _ _ _ _ _ (run_pure _ _ _ Hd)).
    assert (d0 !! active_tmp = None) as Ht by (unfold d0; rewrite lookup_insert_ne by done; by apply Hf).
    assert (replaceable active d0) as Ha0 by (unfold replaceable, d0; by rewrite lookup_insert_ne).
    rewrite (run_bind (atomic_replace _ _ _) _ _ _ _
      (calm_atomic_replace _ active active_tmp image d0 Ht ltac:(done) Ha0)).
    rewrite (run_bind _ _ _ _ _ (run_pure _ _ _ Hc)). unfold d0. rewrite (insert_insert_ne _ active) by done.
    reflexivity.
  - reflexivity.
Qed.

Lemma sound_replaceable d : sound d -> replaceable active d.
Proof.
  intros Hs. unfold replaceable. destruct (d !! active) as [n|] eqn:Ha; [|done].
  by destruct (Hs n Ha) as (? & ? & -> & _).
Qed.

Lemma image_replaceable d name n : is_image n -> d !! name = Some n -> replaceable name d.
Proof. intros (bytes & bundle & -> & _) Hn. unfold replaceable. by rewrite Hn. Qed.

(** What the directory needs for a transaction, and that every outcome gives it. *)
Definition ready (d : Entries) : Prop := sound d /\ replaceable rollback_image d.
Definition advances (d d' : Entries) : Prop :=
  ready d -> ready d' /\ (is_Some (d !! active) -> is_Some (d' !! active)).

Lemma untouched_advances d d' : untouched d d' -> advances d d'.
Proof.
  intros Hu [Hs Hp].
  assert (d' !! active = d !! active) as Ha by (apply Hu; vm_compute; set_solver).
  assert (d' !! rollback_image = d !! rollback_image) as Hr by (apply Hu; vm_compute; set_solver).
  unfold ready, sound, replaceable. rewrite Ha, Hr. by split_and!.
Qed.

Lemma prepared_advances d d' : prepared d d' -> advances d d'.
Proof.
  intros (Hu & n & Ha & Hn & Hr) [Hs _].
  assert (d' !! active = d !! active) as He by (apply Hu; vm_compute; set_solver).
  split; [split|by rewrite He]; [intros x; rewrite He; apply Hs|by eapply image_replaceable].
Qed.

Lemma activated_advances d image d' :
  is_image (RegularFile image) -> activated d image d' -> advances d d'.
Proof.
  intros Hi (Hu & Ha & Hr) [_ Hp].
  split; [split|by rewrite Ha]; [intros x Hx; rewrite Ha in Hx; by injection Hx as <-|].
  destruct (present active d); [|unfold replaceable; by rewrite Hr].
  destruct Hr as (n & _ & Hn & Hr). by eapply image_replaceable.
Qed.

Lemma restored_advances d d' : restored d d' -> advances d d'.
Proof.
  intros (image & Hr & Hi & Hu & Ha) [_ Hp].
  split; [split|by rewrite Ha]; [intros x Hx; rewrite Ha in Hx; by injection Hx as <-|].
  unfold replaceable. by rewrite (Hu rollback_image) by (vm_compute; set_solver).
Qed.

Lemma step_advances d d' : step d d' -> advances d d'.
Proof.
  intros Hstep. destruct Hstep as [candidate wasm certificate source transform failure fates r s d' Hg Hrun Hd
    |fates r s d' Hrun Hd|].
  - destruct (validate_transform candidate source transform) as [[]|e] eqn:Hv.
    2: { unfold deploy_with_failure, pure, mbind, op_bind, lift in Hrun. rewrite Hv in Hrun.
         injection Hrun as <- <-. injection Hd as <-. apply untouched_advances, agree_refl. }
    pose proof (deploy_triple d _ candidate wasm certificate source transform failure eq_refl
                  (Build_Disk fates (Real d)) eq_refl) as Ht.
    rewrite Hrun in Ht.
    assert (left_by d candidate source transform d') as [[Hu|Hp]|(bundle & image & Hi & Ha)].
    { destruct r as [receipt|e]; destruct Ht as (d1 & He & Ht); rewrite Hd in He; injection He as <-; [|done].
      destruct Ht as (bundle & image & Hi & Ha & _). right. by exists bundle, image. }
    + by apply untouched_advances.
    + by apply prepared_advances.
    + apply (activated_advances _ image); [|done]. by eapply image_decodes.
  - pose proof (rollback_triple d (Build_Disk fates (Real d)) eq_refl) as Ht. rewrite Hrun in Ht.
    destruct r; destruct Ht as (d1 & He & Ht); rewrite Hd in He; injection He as <-;
      [by apply restored_advances|].
    destruct Ht; [by apply untouched_advances|by apply restored_advances].
  - apply untouched_advances, clean_agree.
Qed.

Lemma steps_advance d d' : rtc step d d' -> advances d d'.
Proof.
  induction 1 as [d|d d1 d' Hs Hst IH]; [done|]. intros Hr.
  destruct (step_advances _ _ Hs Hr) as [Hr1 Ha1]. destruct (IH Hr1). tauto.
Qed.

(** ** Properties *)

(** C13: Whatever a deployment meets, a call that fails or a stop at any point included, it
    leaves the directory in one of three conditions: only the names of a transaction in
    progress have changed; or the active image is in place and has become the one to roll
    back to as well; or the new image is active, whole, and the one it replaced is the
    one to roll back to.  It returns a receipt in the last one only. *)
Theorem deployment_crash_safe recovery source transform failure d fates :
  let '(r, s) := deploy_with_failure recovery source transform failure (Build_Disk fates (Real d)) in
  exists d', content s = Real d' /\
  match r with
  | Ok receipt => exists candidate wasm certificate,
      recovery = Protocol.Certified candidate wasm certificate /\
      installed d candidate source transform receipt d'
  | Err _ => inactive d d' \/
      exists candidate wasm certificate bundle image,
        recovery = Protocol.Certified candidate wasm certificate /\
        image_of candidate source transform = Ok (bundle, image) /\ activated d image d'
  end.
Proof.
  destruct recovery as [candidate wasm certificate|code message].
  2: { exists d. split; [done|]. do 2 left. apply agree_refl. }
  pose proof (deploy_triple d _ candidate wasm certificate source transform failure eq_refl
                (Build_Disk fates (Real d)) eq_refl) as Ht.
  destruct (deploy_with_failure _ _ _ _ _) as [[receipt|e] s]; destruct Ht as (d' & Hd & Ht);
    exists d'; (split; [exact Hd|]).
  - by exists candidate, wasm, certificate.
  - destruct Ht as [Ht|(bundle & image & Hi & Ha)]; [by left|]. right.
    by exists candidate, wasm, certificate, bundle, image.
Qed.

(** C14: After any sequence of deployments and rollbacks, each stopped or failing anywhere,
    and of clearances of what they left, the active image decodes, there is one if there
    was one, and the next deployment of a certified candidate succeeds once the leftover
    lock and temporary files are removed: the new image is active and the one before it
    is the one to roll back to. *)
Theorem deployment_always_possible d d' candidate wasm certificate source transform bundle image :
  ready d -> rtc step d d' ->
  validate_transform candidate source transform = Ok () ->
  image_of candidate source transform = Ok (bundle, image) ->
  sound d' /\ (is_Some (d !! active) -> is_Some (d' !! active)) /\
  exists receipt d2,
    deploy (Protocol.Certified candidate wasm certificate) source transform (calm (Real (clean d')))
      = (Ok receipt, calm (Real d2)) /\
    DeploymentReceipt.active_digest receipt = bytes_digest image /\
    d2 !! active = Some (RegularFile image) /\
    (is_Some (d' !! active) -> d2 !! rollback_image = d' !! active).
Proof.
  intros Hr Hst Hv Hi. destruct (steps_advance _ _ Hst Hr) as [Hr' Ha]. split; [apply Hr'|]. split; [exact Ha|].
  destruct (step_advances _ _ (step_clean d') Hr') as [[Hs Hp] _].
  destruct (calm_deploy (clean d') candidate wasm certificate source transform bundle image Hs)
    as (receipt & Hrun & Hd & _); [intros name; apply clean_absent|done..|].
  assert (clean d' !! active = d' !! active) as He by (apply clean_agree; vm_compute; set_solver).
  eexists receipt, _. split_and!; [exact Hrun|exact Hd|apply lookup_insert_eq|].
  intros [n Hn]. rewrite lookup_insert_ne by done. unfold kept. rewrite He, Hn. apply lookup_insert_eq.
Qed.

(** C15: A rollback undoes a deployment: after the two, the directory is what it was, but
    that the active image is kept as the one to roll back to. *)
Theorem rollback_undoes_deploy d n candidate wasm certificate source transform bundle image :
  ready d -> free d -> d !! active = Some n ->
  validate_transform candidate source transform = Ok () ->
  image_of candidate source transform = Ok (bundle, image) ->
  exists receipt d1 receipt',
    deploy (Protocol.Certified candidate wasm certificate) source transform (calm (Real d))
      = (Ok receipt, calm (Real d1)) /\
    d1 !! active = Some (RegularFile image) /\
    rollback (calm (Real d1)) = (Ok receipt', calm (Real (<[rollback_image := n]> d))).
Proof.
  intros [Hs Hp] Hf Hn Hv Hi.
  destruct (calm_deploy d candidate wasm certificate source transform bundle image Hs Hf Hp Hv Hi)
    as (receipt & Hrun & _). unfold kept in Hrun. rewrite Hn in Hrun.
  destruct (Hs n Hn) as (previous & b & -> & Hl & Hd).
  destruct (calm_rollback (<[active := RegularFile image]> (<[rollback_image := RegularFile previous]> d)) previous)
    as (receipt' & Hback & _).
  - intros name Ht. destruct (transient_not_image name Ht). rewrite !lookup_insert_ne by done. by apply Hf.
  - rewrite lookup_insert_ne by done. apply lookup_insert_eq.
  - by exists previous, b.
  - unfold replaceable. by rewrite lookup_insert_eq.
  - exists receipt, (<[active := RegularFile image]> (<[rollback_image := RegularFile previous]> d)), receipt'.
    split_and!; [exact Hrun|apply lookup_insert_eq|]. rewrite Hback. do 3 f_equal.
    rewrite insert_insert_eq, insert_insert_ne by done. f_equal. by apply insert_id.
Qed.

(** A deployment refused for want of a mapping has spent the image to roll back to: the
    refusal comes after the active image has replaced it. *)
Lemma refused_deploy_spends_rollback d n candidate wasm certificate source transform :
  ready d -> free d -> d !! active = Some n ->
  validate_transform candidate source transform = Ok () ->
  bt_get (StateSnapshot.state source) (StateTransform.state_map transform) = None ->
  deploy (Protocol.Certified candidate wasm certificate) source transform (calm (Real d)) =
    (Err (Raised (InvalidEvidence "state transform has no mapping for current state")),
     calm (Real (<[rollback_image := n]> d))).
Proof.
  intros [Hs Hp] Hf Hn Hv Hm. unfold deploy, deploy_with_failure.
  rewrite (run_bind _ _ _ _ _ (run_pure _ _ _ Hv)).
  rewrite (run_bind create_dir_all _ (calm (Real d)) () (calm (Real d)) eq_refl).
  rewrite (run_bind reject_links _ (calm (Real d)) () (calm (Real d)) eq_refl).
  apply calm_inside. set (d0 := <[lock := RegularFile []]> d).
  assert (d0 !! rollback_tmp = None /\ replaceable rollback_image d0 /\ d0 !! active = Some n) as (H8 & H9 & H10).
  { unfold d0, replaceable. rewrite !lookup_insert_ne by done. by split_and!; [apply Hf|..]. }
  assert (install candidate source transform NoFailure (calm d0) =
    (map_err Raised (Err (InvalidEvidence "state transform has no mapping for current state")),
     calm (<[rollback_image := n]> d0))) as Hrun.
  { unfold install. rewrite (run_bind _ _ _ _ _ (calm_prepare d0 (sound_other d lock _ ltac:(done) Hs) H8 H9)).
    rewrite bool_decide_eq_false_2 by done. cbv iota. unfold image_of, kept. by rewrite Hm, H10. }
  unfold with_deployment_lock.
  rewrite (calm_holding _ _ _ _ _ _ [] (Hf lock ltac:(done)) Hrun);
    [|unfold d0; rewrite lookup_insert_ne by done; apply lookup_insert_eq].
  do 2 f_equal. unfold d0. rewrite insert_insert_ne by done. apply delete_insert_id.
  rewrite lookup_insert_ne by done. by apply Hf.
Qed.
End Outcomes.

(** * Witnesses *)

Module DeploymentWitness.
Import Toy.
#[local] Existing Instance ToyJson.text.
#[local] Instance serde_text : SerdeErrorText := "error".
#[local] Instance os_text : OsErrorText := {| not_found := "not found"; already_exists := "exists" |}.
#[local] Instance directory_text : DirectoryErrorText :=
  {| is_a_directory := "is a directory"; not_a_directory := "not a directory" |}.
#[local] Instance links : LinkTargets := fun _ => false.
Import ToyJson(num, tree_list, of_list, of_tree_list).

Definition transition_tree (t : Transition.Transition) : json :=
  Array [String (Transition.state t); String (Transition.input t);
         String (Transition.next_state t); String (Transition.output t)].
Definition transition_of (v : json) : option Transition.Transition :=
  match v with
  | Array [String s; String i; String n; String o] =>
      Some {| Transition.state := s; Transition.input := i; Transition.next_state := n; Transition.output := o |}
  | _ => None
  end.

Definition candidate_tree (c : Candidate.Candidate) : json :=
  let g := Candidate.grammar c in
  Array [String (Candidate.component c); String (Candidate.interface_version c);
         String (Grammar.version g); tree_list String (Grammar.inputs g); tree_list String (Grammar.outputs g);
         tree_list String (Grammar.states g); String (Grammar.initial_state g); num (Grammar.max_candidates g);
         tree_list transition_tree (Candidate.transitions c)].
Definition candidate_of (v : json) : option Candidate.Candidate :=
  match v with
  | Array [String c; String iv; String gv; ins; outs; sts; String init; Number (PosInt m); ts] =>
      ins ← of_list as_str ins; outs ← of_list as_str outs; sts ← of_list as_str sts;
      ts ← of_list transition_of ts;
      Some {| Candidate.component := c; Candidate.interface_version := iv;
              Candidate.grammar := {| Grammar.version := gv; Grammar.inputs := ins; Grammar.outputs := outs;
                Grammar.states := sts; Grammar.initial_state := init; Grammar.max_candidates := m |};
              Candidate.transitions := ts |}
  | _ => None
  end.

Lemma candidate_of_tree c : candidate_of (candidate_tree c) = Some c.
Proof.
  destruct c as [c iv [gv ins outs sts init m] ts]. unfold candidate_tree, candidate_of.
  cbn -[tree_list of_list]. rewrite !(of_tree_list String as_str) by done. cbn -[tree_list of_list].
  by rewrite of_tree_list by (by intros []).
Qed.

Definition snapshot_tree (s : StateSnapshot.StateSnapshot) : json :=
  Array [String (StateSnapshot.schema_version s); String (StateSnapshot.state s); num (StateSnapshot.revision s)].
Definition bundle_tree (b : DeploymentBundle.DeploymentBundle) : json :=
  Array [String (DeploymentBundle.version b); candidate_tree (DeploymentBundle.candidate b);
         String (DeploymentBundle.candidate_digest b); snapshot_tree (DeploymentBundle.state b);
         String (DeploymentBundle.source_state_digest b); String (DeploymentBundle.state_transform_digest b)].
Definition bundle_of (v : json) : option DeploymentBundle.DeploymentBundle :=
  match v with
  | Array [String ver; c; String cd; Array [String sv; String st; Number (PosInt r)]; String sd; String td] =>
      c ← candidate_of c;
      Some {| DeploymentBundle.version := ver; DeploymentBundle.candidate := c;
              DeploymentBundle.candidate_digest := cd;
              DeploymentBundle.state := {| StateSnapshot.schema_version := sv; StateSnapshot.state := st;
                                           StateSnapshot.revision := r |};
              DeploymentBundle.source_state_digest := sd; DeploymentBundle.state_transform_digest := td |}
  | _ => None
  end.

#[local] Instance tree_candidate : ToValue Candidate.Candidate := fun c => Some (candidate_tree c).
#[local] Instance tree_snapshot : ToValue StateSnapshot.StateSnapshot := fun s => Some (snapshot_tree s).
#[local] Instance tree_transform : ToValue StateTransform.StateTransform :=
  fun t => Some (Object (prod_map id String <$> StateTransform.state_map t)).
#[local] Instance tree_bundle : ToValue DeploymentBundle.DeploymentBundle := fun b => Some (bundle_tree b).
#[local] Instance read_bundle : FromSlice DeploymentBundle.DeploymentBundle := ToyJson.from_text bundle_of.

#[local] Instance bundle_laws : SerdeLaws DeploymentBundle.DeploymentBundle.
Proof.
  apply ToyJson.from_text_laws. intros [ver c cd [sv st r] sd td] v [= <-].
  unfold bundle_tree, bundle_of. cbn -[candidate_tree candidate_of]. by rewrite candidate_of_tree.
Qed.

(** ** A door that is deployed, stopped and deployed again *)

Definition door (state : string) : Candidate.Candidate :=
  {| Candidate.component := "door"; Candidate.interface_version := "1";
     Candidate.grammar := {| Grammar.version := "fsm-v0"; Grammar.inputs := ["i"]; Grammar.outputs := ["x"];
       Grammar.states := [state]; Grammar.initial_state := state; Grammar.max_candidates := 10 |};
     Candidate.transitions := [{| Transition.state := state; Transition.input := "i";
       Transition.next_state := state; Transition.output := "x" |}] |}.
Definition old_state : StateSnapshot.StateSnapshot :=
  {| StateSnapshot.schema_version := "v0"; StateSnapshot.state := "o"; StateSnapshot.revision := 6 |}.
Definition renaming (state : string) : StateTransform.StateTransform :=
  {| StateTransform.from_schema := "v0"; StateTransform.to_schema := "fsm-v0";
     StateTransform.state_map := [("o", state)] |}.

Definition image_bytes (state : string) : list Z :=
  match image_of (door state) old_state (renaming state) with Ok (_, bytes) => bytes | Err _ => [] end.
Definition image_bundle (state : string) : option DeploymentBundle.DeploymentBundle :=
  match image_of (door state) old_state (renaming state) with Ok (b, _) => Some b | Err _ => None end.

Definition start : Entries := {["notes" := RegularFile [1]; active := RegularFile (image_bytes "s")]}.

Definition certificate : Protocol.Certificate :=
  {| Protocol.protocol_version := "1"; Protocol.component := "door"; Protocol.interface_version := "1";
     Protocol.service_manifest_digest := None; Protocol.survivor_envelope_digests := [];
     Protocol.normalized_constraints_digest := ""; Protocol.failure_domains := ["site"];
     Protocol.verification_audit := None; Protocol.grammar_version := "fsm-v0";
     Protocol.search_bounds := {| Protocol.max_candidates := 10; Protocol.examined := 1 |};
     Protocol.candidate_digest := ""; Protocol.non_identical_to_forbidden_artifacts := true;
     Protocol.checker_identity := "checker";
     Protocol.coverage := {| Checker.mandatory_obligations := 1; Checker.passed_obligations := 1;
       Checker.held_out_traces := 1; Checker.passed_held_out_traces := 1; Checker.passed_negative_cases := 0;
       Checker.passed_metamorphic_properties := 0; Checker.uncovered_obligations := 0 |};
     Protocol.sandbox := {| Sandbox.engine := "wasmi"; Sandbox.module_digest := ""; Sandbox.imports := 0;
       Sandbox.fuel_per_call := 10000; Sandbox.memory_limit_bytes := 65536; Sandbox.verified_executions := 1 |};
     Protocol.state_transform := {| Protocol.mode := "identity"; Protocol.schema_digest := "" |};
     Protocol.loss_attestation := {| Protocol.LossAttestation.method := "scan";
       Protocol.LossAttestation.recovery_root := "/w"; Protocol.LossAttestation.forbidden_paths_absent := true;
       Protocol.LossAttestation.forbidden_digests_absent := true;
       Protocol.LossAttestation.scanned_files := 1; Protocol.LossAttestation.scanned_bytes := 1 |};
     Protocol.experiment := {| Protocol.seed := 1; Protocol.baselines := ["b"];
       Protocol.primary_metrics := ["p"]; Protocol.secondary_metrics := ["s"] |};
     Protocol.deployment_preconditions := [] |}.

(** A deployment that is stopped while it writes the image: five bytes are there. *)
Definition stopped_run : result Fault DeploymentReceipt.DeploymentReceipt * Disk Place :=
  deploy (Protocol.Certified (door "t") "" certificate) old_state (renaming "t")
    (Build_Disk (replicate 8 Goes ++ [Stops 5]) (Real start)).
Definition stopped : Entries := match content stopped_run.2 with Real d => d | _ => ∅ end.

Example stopped_left :
  stopped_run.1 = Err Stopped /\ stopped !! active_tmp = Some (RegularFile (take 5 (image_bytes "t"))) /\
  stopped !! lock = Some (RegularFile []) /\ stopped !! rollback_image = start !! active.
Proof. vm_compute. repeat split. Qed.

Lemma door_image state : state = "s" \/ state = "t" ->
  validate_transform (door state) old_state (renaming state) = Ok () /\
  Grammar.validate (Candidate.grammar (door state)) = Ok () /\
  exists b, image_of (door state) old_state (renaming state) = Ok (b, image_bytes state).
Proof.
  intros Hs. split_and!; [by destruct Hs as [-> | ->]..|].
  unfold image_bytes. destruct (image_of _ _ _) as [[b bytes]|e] eqn:He; [by eexists|].
  destruct Hs as [-> | ->]; vm_compute in He; discriminate.
Qed.

Lemma start_active : start !! active = Some (RegularFile (image_bytes "s")).
Proof. vm_compute. reflexivity. Qed.

Lemma start_ready : ready start.
Proof.
  split; [|done]. intros n Hn. rewrite start_active in Hn. injection Hn as <-.
  destruct (door_image "s" (or_introl eq_refl)) as (Hv & Hg & b & Hi).
  exact (proj2 (image_decodes _ _ _ _ _ Hv Hg Hi)).
Qed.

Lemma start_free : free start.
Proof.
  intros name Hn. unfold transient in Hn.
  repeat (apply elem_of_cons in Hn as [->|Hn]; [vm_compute; reflexivity|]). by apply not_elem_of_nil in Hn.
Qed.

Lemma stopped_step : step start stopped.
Proof.
  apply (step_deploy start (door "t") "" certificate old_state (renaming "t") NoFailure
           (replicate 8 Goes ++ [Stops 5]) stopped_run.1 stopped_run.2); [done|by apply surjective_pairing|].
  vm_compute. reflexivity.
Qed.

(** Witness for [deployment_always_possible]. *)
Lemma deployment_always_possible_witness : exists receipt d2,
  deploy (Protocol.Certified (door "t") "" certificate) old_state (renaming "t") (calm (Real (clean stopped)))
    = (Ok receipt, calm (Real d2)) /\
  d2 !! active = Some (RegularFile (image_bytes "t")) /\
  d2 !! rollback_image = Some (RegularFile (image_bytes "s")).
Proof.
  destruct (door_image "t" (or_intror eq_refl)) as (Hv & _ & b & Hi).
  destruct (deployment_always_possible start stopped (door "t") "" certificate old_state (renaming "t") b
              (image_bytes "t") start_ready (rtc_once _ _ stopped_step) Hv Hi)
    as (_ & Hsome & receipt & d2 & Hrun & _ & Ha & Hr).
  exists receipt, d2. split; [exact Hrun|]. split; [exact Ha|].
  assert (stopped !! active = Some (RegularFile (image_bytes "s"))) as Hs by (vm_compute; reflexivity).
  rewrite <- Hs. apply Hr. rewrite Hs. by eexists.
Defined.

(** Witness for [rollback_undoes_deploy]. *)
Lemma rollback_undoes_deploy_witness : exists receipt d1 receipt',
  deploy (Protocol.Certified (door "t") "" certificate) old_state (renaming "t") (calm (Real start))
    = (Ok receipt, calm (Real d1)) /\
  d1 !! active = Some (RegularFile (image_bytes "t")) /\
  rollback (calm (Real d1)) =
    (Ok receipt', calm (Real (<[rollback_image := RegularFile (image_bytes "s")]> start))).
Proof.
  destruct (door_image "t" (or_intror eq_refl)) as (Hv & _ & b & Hi).
  exact (rollback_undoes_deploy start _ (door "t") "" certificate old_state (renaming "t") b
           (image_bytes "t") start_ready start_free start_active Hv Hi).
Defined.
End DeploymentWitness.
