(* ===== verification/StateStore.v ===== *)
(** src/state_store.rs: a store of content-addressed state snapshots, and the restoration
    of the current one over a destination file with what is needed to go back, on a
    machine of [Disk] that may fail or stop at every call.

    The store and the directory of the destination are not the same directory. *)
From S2P Require Import Prelude Effects FileTree External Json Model Canonical Disk.

Definition MAX_STATE_BYTES : Z := 67108864.
Definition MAX_MANIFEST_BYTES : Z := 16384.

Module StateManifest.
Record StateManifest := {
  version : string;
  component : string;
  schema_version : string;
  revision : Z;
  payload_sha256 : string;
  payload_bytes : Z;
}.
End StateManifest.

Module SnapshotReceipt.
Record SnapshotReceipt := {
  manifest_sha256 : string;
  payload_sha256 : string;
  payload_bytes : Z;
  revision : Z;
}.
End SnapshotReceipt.

Module RestoreReceipt.
Record RestoreReceipt := {
  payload_sha256 : string;
  payload_bytes : Z;
  revision : Z;
  rollback_available : bool;
}.
End RestoreReceipt.

Module ActivationMarker.
Record ActivationMarker := { version : string; payload_sha256 : string; payload_bytes : Z }.
End ActivationMarker.

Inductive RestoreFailurePoint := NoFailure | AfterRollbackPrepared.

#[export] Instance RestoreFailurePoint_eq_dec : EqDecision RestoreFailurePoint.
Proof. solve_decision. Defined.

Definition invalid (message : string) : Error := InvalidEvidence message.

(** What the operations see of the disk: the store, its objects directory, and the
    directory of the destination. *)
Record Places := { store : Place; objects : Place; parent : Place }.

Definition set_store (p : Place) (d : Places) : Places :=
  {| store := p; objects := objects d; parent := parent d |}.
Definition set_objects (p : Place) (d : Places) : Places :=
  {| store := store d; objects := p; parent := parent d |}.
Definition set_parent (p : Place) (d : Places) : Places :=
  {| store := store d; objects := objects d; parent := p |}.

Definition in_store {A} (m : prog Place A) : prog Places A := zoom store set_store m.
Definition in_objects {A} (m : prog Place A) : prog Places A := zoom objects set_objects m.
Definition in_parent {A} (m : prog Place A) : prog Places A := zoom parent set_parent m.

(** A destination path: [None] if it has no parent, else its file name when it has one
    that is UTF-8. *)
Definition Destination : Type := option (option string).

Definition destination_name (destination : Destination) : result Error string :=
  name ← ok_or destination (invalid "state destination requires a parent directory");
  ok_or name (invalid "state destination requires a UTF-8 file name").

Definition staged_name (name : string) : string := "." +:+ name +:+ ".anasemble-stage".
Definition lock_name (name : string) : string := "." +:+ name +:+ ".anasemble.lock".
(** [rollback_path] and [activation_path] *)
Definition rollback_path (name : string) : string := name +:+ ".anasemble-rollback".
Definition activation_path (name : string) : string := name +:+ ".anasemble-activation.json".
Definition snapshot_lock : string := ".snapshot.lock".

Section StateStore.
Context `{OsErrorText, DirectoryErrorText, LinkTargets, SerdeErrorText, JsonText, Sha256, Hex}.
Context `{!ToValue StateManifest.StateManifest, !FromSlice StateManifest.StateManifest}.
Context `{!ToValue ActivationMarker.ActivationMarker, !FromSlice ActivationMarker.ActivationMarker}.

(** ** Checks *)

Definition validate_label (label value : string) : result Error () :=
  if str_is_empty value || (128 <? str_len value)
     || negb (all (fun byte => is_ascii_alphanumeric byte || contains byte (bytes_of_string "._:/-"))
                  (bytes_of_string value))
  then Err (invalid (label +:+ " is invalid"))
  else Ok ().

Definition validate_manifest (manifest : StateManifest.StateManifest) : result Error () :=
  if negb (bool_decide (StateManifest.version manifest = "state-file-v1"))
     || (MAX_STATE_BYTES <? StateManifest.payload_bytes manifest)
     || negb (str_len (StateManifest.payload_sha256 manifest) =? 64)
     || match hex_decode (StateManifest.payload_sha256 manifest) with
        | Some bytes => negb (vec_len bytes =? 32)
        | None => true
        end
  then Err (invalid "state manifest version, size, or digest is invalid")
  else
    _ ← validate_label "component" (StateManifest.component manifest);
    validate_label "schema version" (StateManifest.schema_version manifest).

(** ** Files *)

Definition ensure_existing_real_directory : prog Place () :=
  real_directory (invalid "state path must be a real directory").

Definition ensure_real_directory : prog Place () :=
  found ← read (fun p => Ok (place_present p));
  _ ← (if found : bool then mret () else create_dir);
  ensure_existing_real_directory.

Definition bounded (label : string) : Error := invalid (label +:+ " must be a bounded regular file").
Definition read_regular_bounded (name : string) (max_bytes : Z) (label : string) : prog Entries (list Z) :=
  read_bounded (bounded label) max_bytes name.

Definition write_new_synced (name : string) (data : list Z) : prog Entries () :=
  Disk.write_new_synced name data.

Definition atomic_replace (target temporary_name : string) (data : list Z) : prog Entries () :=
  Disk.atomic_replace (invalid "stale state manifest staging file") target temporary_name data.

(** [Lock::acquire], and its [Drop] around what runs while it is held. *)
Definition with_snapshot_lock {A} (m : prog Places A) : prog Places A :=
  _ ← in_store (inside (acquire snapshot_lock "state store is locked"));
  guarded m (in_store (inside (remove_file snapshot_lock))).
Definition with_destination_lock {A} (name : string) (m : prog Entries A) : prog Entries A :=
  holding (lock_name name) "state destination is locked" m.

(** ** Snapshots *)

(** The state file to keep, which lies elsewhere. *)
Definition read_source (source : option Node) : result Error (list Z) :=
  match source with
  | None => Err (Io not_found)
  | Some (RegularFile bytes) =>
      if MAX_STATE_BYTES <? vec_len bytes then Err (bounded "state source") else Ok bytes
  | Some _ => Err (bounded "state source")
  end.

Definition decode_manifest (bytes : list Z) : result Error StateManifest.StateManifest :=
  manifest ← ok_or (from_slice (T := StateManifest.StateManifest) bytes)
                   (invalid ("state manifest is invalid: " +:+ serde_error_text));
  _ ← validate_manifest manifest;
  Ok manifest.

(** The check against the manifest there is. *)
Definition check_current (component : string) (revision : Z) : prog Entries () :=
  found ← read (fun d => Ok (present "current.json" d));
  if found : bool then
    current_bytes ← read_regular_bounded "current.json" MAX_MANIFEST_BYTES "state manifest";
    current_manifest ← pure (decode_manifest current_bytes);
    if negb (bool_decide (StateManifest.component current_manifest = component))
       || (revision <=? StateManifest.revision current_manifest)
    then raise (invalid "state snapshots must retain component identity and increase revision")
    else mret ()
  else mret ().

Definition object_name (payload_sha256 : string) : string := payload_sha256 +:+ ".bin".

Definition store_object (payload : list Z) : prog Entries () :=
  let object := object_name (bytes_digest payload) in
  found ← read (fun d => Ok (present object d));
  if found : bool then
    existing ← read_regular_bounded object MAX_STATE_BYTES "state object";
    if negb (bool_decide (existing = payload))
    then raise (invalid "content-addressed state object has conflicting bytes")
    else mret ()
  else
    _ ← write_new_synced object payload;
    sync_all.

Definition manifest_of (component schema_version : string) (revision : Z) (payload : list Z)
  : StateManifest.StateManifest :=
  {| StateManifest.version := "state-file-v1"; StateManifest.component := component;
     StateManifest.schema_version := schema_version; StateManifest.revision := revision;
     StateManifest.payload_sha256 := bytes_digest payload;
     StateManifest.payload_bytes := vec_len payload |}.

Definition snapshot (source : option Node) (component schema_version : string) (revision : Z)
  : prog Places SnapshotReceipt.SnapshotReceipt :=
  _ ← pure (validate_label "component" component);
  _ ← pure (validate_label "schema version" schema_version);
  payload ← pure (read_source source);
  _ ← in_store ensure_real_directory;
  with_snapshot_lock (
    _ ← in_store (inside (check_current component revision));
    _ ← in_objects ensure_real_directory;
    _ ← in_objects (inside (store_object payload));
    manifest_bytes ← pure (encode (manifest_of component schema_version revision payload));
    _ ← in_store (inside (atomic_replace "current.json" "current.tmp" manifest_bytes));
    mret {| SnapshotReceipt.manifest_sha256 := bytes_digest manifest_bytes;
            SnapshotReceipt.payload_sha256 := bytes_digest payload;
            SnapshotReceipt.payload_bytes := vec_len payload;
            SnapshotReceipt.revision := revision |}).

(** ** Restoring *)

(** The current state, checked against its manifest. *)
Definition current_state : prog Places (StateManifest.StateManifest * list Z) :=
  manifest_bytes ← in_store (inside (read_regular_bounded "current.json" MAX_MANIFEST_BYTES "state manifest"));
  manifest ← pure (decode_manifest manifest_bytes);
  payload ← in_objects (inside (read_regular_bounded (object_name (StateManifest.payload_sha256 manifest))
                                  MAX_STATE_BYTES "state object"));
  if negb (vec_len payload =? StateManifest.payload_bytes manifest)
     || negb (bool_decide (bytes_digest payload = StateManifest.payload_sha256 manifest))
  then raise (invalid "state object integrity does not match its manifest")
  else mret (manifest, payload).

Definition stale (name : string) (d : Entries) : bool :=
  present (staged_name name) d || present (rollback_path name) d || present (activation_path name) d.

Definition is_regular (name : string) (d : Entries) : bool :=
  match d !! name with Some (RegularFile _) => true | _ => false end.

(** [fs::rename(&rollback, destination)?] and the sync after it. *)
Definition put_back (name : string) : prog Entries () :=
  _ ← rename (rollback_path name) name;
  sync_all.

Definition marker_of (manifest : StateManifest.StateManifest) : ActivationMarker.ActivationMarker :=
  {| ActivationMarker.version := "state-activation-v1";
     ActivationMarker.payload_sha256 := StateManifest.payload_sha256 manifest;
     ActivationMarker.payload_bytes := StateManifest.payload_bytes manifest |}.

(** Moving the file at the destination, if there is one, out of the way. *)
Definition set_aside (name : string) : prog Entries bool :=
  had_destination ← read (fun d => Ok (present name d));
  if had_destination : bool then
    regular ← read (fun d => Ok (is_regular name d));
    if negb (regular : bool) then
      _ ← remove_file (staged_name name);
      raise (invalid "state destination must be a regular non-symlink file")
    else
    _ ← rename name (rollback_path name);
    _ ← sync_all;
    mret true
  else mret false.

(** Moving the staged state in its place, or everything back. *)
Definition move_in (name : string) (had_destination : bool) : prog Entries () :=
  moved ← attempt (rename (staged_name name) name);
  match moved with
  | Ok _ => mret ()
  | Err error =>
      _ ← ignoring (remove_file (staged_name name));
      _ ← (if had_destination : bool then put_back name else mret ());
      raise error
  end.

(** Recording what was restored, or moving everything back. *)
Definition mark (name : string) (manifest : StateManifest.StateManifest) : prog Entries () :=
  marker ← pure (encode (marker_of manifest));
  written ← attempt (write_new_synced (activation_path name) marker);
  match written with
  | Ok _ => mret ()
  | Err error => _ ← put_back name; raise error
  end.

(** What [restore_with_failure] does while it holds the destination's lock. *)
Definition replace_destination (name : string) (manifest : StateManifest.StateManifest) (payload : list Z)
  (failure : RestoreFailurePoint) : prog Entries RestoreReceipt.RestoreReceipt :=
  found ← read (fun d => Ok (stale name d));
  if found : bool
  then raise (invalid "stale state staging, rollback, or activation file requires operator action") else
  _ ← write_new_synced (staged_name name) payload;
  had_destination ← set_aside name;
  if bool_decide (failure = AfterRollbackPrepared) then
    _ ← remove_file (staged_name name);
    _ ← (if had_destination : bool then put_back name else mret ());
    raise (Io "injected failure after state rollback preparation")
  else
  _ ← move_in name had_destination;
  _ ← (if had_destination : bool then mark name manifest else mret ());
  _ ← sync_all;
  mret {| RestoreReceipt.payload_sha256 := StateManifest.payload_sha256 manifest;
          RestoreReceipt.payload_bytes := StateManifest.payload_bytes manifest;
          RestoreReceipt.revision := StateManifest.revision manifest;
          RestoreReceipt.rollback_available := had_destination |}.

Definition restore_with_failure (destination : Destination) (failure : RestoreFailurePoint)
  : prog Places RestoreReceipt.RestoreReceipt :=
  _ ← in_store ensure_existing_real_directory;
  with_snapshot_lock (
    '(manifest, payload) ← current_state;
    _ ← pure (ok_or destination (invalid "state destination requires a parent directory"));
    _ ← in_parent ensure_existing_real_directory;
    name ← pure (destination_name destination);
    in_parent (inside (with_destination_lock name (replace_destination name manifest payload failure)))).

Definition restore (destination : Destination) : prog Places RestoreReceipt.RestoreReceipt :=
  restore_with_failure destination NoFailure.

(** ** Going back, or not *)

(** What [rollback] and [commit] do first. *)
Definition at_destination {A} (destination : Destination) (m : string -> prog Entries A) : prog Place A :=
  _ ← pure (ok_or destination (invalid "state destination requires a parent directory"));
  _ ← ensure_existing_real_directory;
  name ← pure (destination_name destination);
  inside (with_destination_lock name (m name)).

Definition rollback (destination : Destination) : prog Place () :=
  at_destination destination (fun name =>
    previous ← read_regular_bounded (rollback_path name) MAX_STATE_BYTES "state rollback";
    found ← read (fun d => Ok (present (staged_name name) d));
    if found : bool then raise (invalid "stale state staging file requires operator action") else
    _ ← write_new_synced (staged_name name) previous;
    _ ← rename (staged_name name) name;
    _ ← remove_file (rollback_path name);
    found ← read (fun d => Ok (present (activation_path name) d));
    _ ← (if found : bool then remove_file (activation_path name) else mret ());
    sync_all).

Definition commit (destination : Destination) : prog Place () :=
  at_destination destination (fun name =>
    _ ← read_bounded (invalid "state rollback must be a bounded regular file") MAX_STATE_BYTES (rollback_path name);
    marker_bytes ← read_regular_bounded (activation_path name) MAX_MANIFEST_BYTES "state activation marker";
    marker ← pure (ok_or (from_slice (T := ActivationMarker.ActivationMarker) marker_bytes)
                         (invalid ("state activation marker is invalid: " +:+ serde_error_text)));
    active ← read_regular_bounded name MAX_STATE_BYTES "active state";
    if negb (bool_decide (ActivationMarker.version marker = "state-activation-v1"))
       || negb (ActivationMarker.payload_bytes marker =? vec_len active)
       || negb (bool_decide (ActivationMarker.payload_sha256 marker = bytes_digest active))
    then raise (invalid "active state no longer matches the restored payload; rollback cannot be discarded")
    else
    _ ← remove_file (rollback_path name);
    _ ← remove_file (activation_path name);
    sync_all).
End StateStore.
