(* ===== verification/StateSafety.v ===== *)
(** src/state_store.rs on a machine that may fail or stop at every call: restoring never
    loses the state it replaces; what a snapshot keeps is what a restoration puts in
    place; and a restoration can be undone, or made final. *)
From S2P Require Import Prelude Effects FileTree External Json Model Canonical Disk StateStore.

(** * Names *)

Lemma staged_name_len name : str_len (staged_name name) = str_len name + 17.
Proof.
  unfold staged_name. rewrite !str_len_app. change (str_len ".anasemble-stage") with 16. change (str_len ".") with 1. lia.
Qed.
Lemma lock_name_len name : str_len (lock_name name) = str_len name + 16.
Proof.
  unfold lock_name. rewrite !str_len_app. change (str_len ".anasemble.lock") with 15. change (str_len ".") with 1. lia.
Qed.
Lemma rollback_path_len name : str_len (rollback_path name) = str_len name + 19.
Proof.
  unfold rollback_path. rewrite !str_len_app. change (str_len ".anasemble-rollback") with 19. lia.
Qed.
Lemma activation_path_len name : str_len (activation_path name) = str_len name + 26.
Proof.
  unfold activation_path. rewrite !str_len_app. change (str_len ".anasemble-activation.json") with 26. lia.
Qed.

(** The names used beside a destination differ by their lengths. *)
Ltac names_differ :=
  let Heq := fresh in intros Heq; apply (f_equal str_len) in Heq;
  rewrite ?staged_name_len, ?lock_name_len, ?rollback_path_len, ?activation_path_len in Heq; lia.

#[local] Hint Extern 2 (ignores ?x (fun d => d !! ?y = ?v)) =>
  apply (ignores_lookup x y (fun o => o = v)); names_differ : ignores.

Section Restoring.
Context `{OsErrorText, DirectoryErrorText, LinkTargets, SerdeErrorText, JsonText, Sha256, Hex}.
Context `{!ToValue StateManifest.StateManifest, !FromSlice StateManifest.StateManifest}.
Context `{!ToValue ActivationMarker.ActivationMarker, !FromSlice ActivationMarker.ActivationMarker}.

(** ** Restoring over a destination, whatever happens *)

Section Replacing.
Context (name : string) (manifest : StateManifest.StateManifest) (payload : list Z) (d : Entries).

Definition temporary : list string := [staged_name name; lock_name name].
Definition beside : list string := name :: rollback_path name :: activation_path name :: temporary.

(** The state that was there is still, or again, at the destination; or it is under the
    rollback name, and at the destination is nothing or the restored state whole; or
    nothing was there. *)
Definition safe (d' : Entries) : Prop :=
  agree beside d d' /\
  (d' !! name = d !! name \/
   (is_regular name d = true /\ d' !! rollback_path name = d !! name /\
    (d' !! name = None \/ d' !! name = Some (RegularFile payload))) \/
   (present name d = false /\ d' !! name = Some (RegularFile payload))).

(** What is there when the old state is out of the way, and when the new one is in. *)
Definition quiet (d' : Entries) : Prop := agree temporary d d'.
Definition aside (had : bool) (d' : Entries) : Prop :=
  agree (name :: rollback_path name :: temporary) d d' /\
  if had then is_regular name d = true /\ d' !! rollback_path name = d !! name /\ d' !! name = None
  else present name d = false /\ d' !! name = d !! name.
Definition moved (had : bool) (d' : Entries) : Prop :=
  agree beside d d' /\ d' !! name = Some (RegularFile payload) /\
  if had then is_regular name d = true /\ d' !! rollback_path name = d !! name
  else present name d = false.

Lemma quiet_safe d' : quiet d' -> safe d'.
Proof.
  intros Hq. split; [eapply agree_mono; [|exact Hq]; set_solver|]. left. apply Hq.
  unfold temporary. rewrite !not_elem_of_cons. split_and!; [names_differ..|apply not_elem_of_nil].
Qed.

Lemma aside_safe had d' : aside had d' -> safe d'.
Proof.
  intros [Ha Hd]. split; [eapply agree_mono; [|exact Ha]; set_solver|].
  destruct had; [right; left|left]; tauto.
Qed.

Lemma moved_safe had d' : moved had d' -> safe d'.
Proof. intros (Ha & Hn & Hd). split; [done|]. destruct had; [right; left|right; right]; tauto. Qed.

Lemma quiet_ignores x : x ∈ temporary -> ignores x quiet.
Proof. apply agree_ignores. Qed.

Lemma aside_ignores had x : x ∈ temporary -> ignores x (aside had).
Proof.
  intros Hx. apply ignores_and; [apply agree_ignores; by do 2 right|].
  destruct had; (apply ignores_and; [apply ignores_const|]);
    unfold temporary in Hx; rewrite !elem_of_cons in Hx; destruct Hx as [->|[->|Hx%elem_of_nil]]; try done;
    auto with ignores.
Qed.

Lemma moved_ignores had x : x ∈ activation_path name :: temporary -> ignores x (moved had).
Proof.
  intros Hx. apply ignores_and; [apply agree_ignores; by do 2 right|].
  unfold temporary in Hx. rewrite !elem_of_cons in Hx.
  destruct Hx as [->|[->|[->|Hx%elem_of_nil] ] ]; [..|done];
    (apply ignores_and; [auto with ignores|]); destruct had; auto with ignores.
Qed.

Lemma safe_ignores x : x ∈ activation_path name :: temporary -> ignores x safe.
Proof.
  intros Hx. apply ignores_and; [apply agree_ignores; by do 2 right|].
  unfold temporary in Hx. rewrite !elem_of_cons in Hx.
  destruct Hx as [->|[->|[->|Hx%elem_of_nil] ] ]; [..|done];
    repeat first [apply ignores_or | apply ignores_and | progress auto with ignores].
Qed.

(** The old state can be moved back. *)
Definition recoverable (d' : Entries) : Prop :=
  agree beside d d' /\ is_regular name d = true /\ d' !! rollback_path name = d !! name /\
  (d' !! name = None \/ d' !! name = Some (RegularFile payload)).

Lemma recoverable_safe d' : recoverable d' -> safe d'.
Proof. intros (Ha & Hr & Hb & Hn). split; [done|]. right. left. by split_and!. Qed.

Lemma aside_recoverable d' : aside true d' -> recoverable d'.
Proof.
  intros (Ha & Hr & Hb & Hn). split_and!; [|done..|by left]. eapply agree_mono; [|exact Ha]. set_solver.
Qed.

Lemma moved_recoverable d' : moved true d' -> recoverable d'.
Proof. intros (Ha & Hn & Hr & Hb). split_and!; [done..|by right]. Qed.

Lemma put_back_triple : htriple recoverable (put_back name) (fun _ => safe) safe.
Proof.
  apply (htriple_strengthen _ (fun d' => is_regular name d = true /\
           (recoverable d' /\ d' !! rollback_path name = d !! name))); [|intros d' Hd; split_and!; [apply Hd|done|apply Hd] ].
  apply htriple_prop. unfold is_regular. intros Hreg.
  destruct (d !! name) as [node|] eqn:Hn; [|done].
  apply (htriple_seq _ _ _ (fun _ => safe)); [|intros ?; apply (triple_sync safe)].
  apply triple_rename; [|intros d' [Hd ?]; by apply recoverable_safe].
  intros d' (Ha & _) _. split; [|left; rewrite Hn; apply lookup_insert_eq].
  intros x Hx. unfold beside in Hx. rewrite !not_elem_of_cons in Hx. destruct Hx as (H8 & H9 & H10 & H11).
  rewrite lookup_insert_ne, lookup_delete_ne by done. apply Ha.
  unfold beside. rewrite !not_elem_of_cons. done.
Qed.

Definition staged_here (d' : Entries) : Prop := d' !! staged_name name = Some (RegularFile payload).

Lemma set_aside_triple :
  htriple (fun d' => quiet d' /\ staged_here d') (set_aside name)
    (fun had d' => aside had d' /\ staged_here d') safe.
Proof.
  set (P d' := quiet d' /\ staged_here d').
  assert (forall d', P d' -> safe d') as Hw by (intros d' [Hq _]; by apply quiet_safe).
  assert (forall d', P d' -> d' !! name = d !! name) as Hsame.
  { intros d' [Hq _]. apply Hq. unfold temporary. rewrite !not_elem_of_cons.
    split_and!; [names_differ..|apply not_elem_of_nil]. }
  apply (htriple_seq _ _ _ (fun b d' => present name d = b /\ P d')).
  { eapply htriple_weaken; [apply (triple_read _ P)| |exact Hw]. intros b d' [[= <-] Hd]. split; [|done].
    unfold present. by rewrite (Hsame _ Hd). }
  intros had. apply htriple_prop. intros Hp. destruct had.
  - apply (htriple_seq _ _ _ (fun b d' => is_regular name d = b /\ P d')).
    { eapply htriple_weaken; [apply (triple_read _ P)| |exact Hw]. intros b d' [[= <-] Hd]. split; [|done].
      unfold is_regular. by rewrite (Hsame _ Hd). }
    intros regular. apply htriple_prop. intros Hr. destruct regular; cbn [negb].
    + apply (htriple_strengthen _ (fun d' => P d' /\ d' !! name = d !! name)); [|by intros d' Hd; auto].
      pose proof Hr as Hr'. unfold is_regular in Hr'. destruct (d !! name) as [node|] eqn:Hn; [|done].
      apply (htriple_seq _ _ _ (fun _ d' => aside true d' /\ staged_here d')).
      * apply triple_rename; [|exact Hw]. intros d' [Hq Hs] _. split; [split|].
        -- intros x Hx. rewrite !not_elem_of_cons in Hx. destruct Hx as (H8 & H9 & H10).
           rewrite lookup_insert_ne, lookup_delete_ne by done. by apply Hq.
        -- split; [done|]. rewrite Hn, lookup_insert_eq, lookup_insert_ne by names_differ.
           split; [done|apply lookup_delete_eq].
        -- unfold staged_here. by rewrite lookup_insert_ne, lookup_delete_ne by names_differ.
      * intros ?. apply (htriple_seq _ _ _ (fun _ d' => aside true d' /\ staged_here d')).
        -- eapply htriple_weaken; [apply (triple_sync (fun d' => aside true d' /\ staged_here d'))|done|].
           intros d' [Ha _]. by eapply aside_safe.
        -- intros ?. apply (htriple_ret true (fun had d' => aside had d' /\ staged_here d')).
    + apply (htriple_seq _ _ _ (fun _ => quiet)).
      * eapply htriple_strengthen; [|by intros d' [Hq _]; exact Hq].
        eapply htriple_weaken; [apply (triple_remove_file _ quiet); apply quiet_ignores; by left|done|apply quiet_safe].
      * intros ?. eapply htriple_weaken; [apply (triple_raise _ (fun _ _ => False))|done|apply quiet_safe].
  - intros s [Hq Hs]. split; [|done]. split.
    + eapply agree_mono; [|exact Hq]. set_solver.
    + split; [done|]. by apply (Hsame (content s)).
Qed.

Lemma move_in_triple had :
  htriple (fun d' => aside had d' /\ staged_here d') (move_in name had) (fun _ => moved had) safe.
Proof.
  apply (htriple_seq _ _ _ (fun r d' => match r with Ok _ => moved had d' | Err _ => aside had d' end)).
  - eapply htriple_weaken;
      [apply (triple_attempt _ _ (fun _ => moved had) (aside had)); apply triple_rename; [|done]
      |intros r d' Hd; exact Hd|apply (aside_safe had)].
    intros d' (Ha & Hd) Hs. split; [|split; [apply lookup_insert_eq|] ].
    + intros x Hx. unfold beside, temporary in Hx. rewrite !not_elem_of_cons in Hx.
      destruct Hx as (H8 & H9 & H10 & H11 & H12 & _).
      rewrite lookup_insert_ne, lookup_delete_ne by done. apply Ha.
      unfold temporary. rewrite !not_elem_of_cons. by split_and!; [..|apply not_elem_of_nil].
    + destruct had; [|apply Hd]. rewrite lookup_insert_ne, lookup_delete_ne by names_differ. tauto.
  - intros [ []|e].
    { intros s Hs. exact Hs. }
    apply (htriple_seq _ _ _ (fun _ => aside had)).
    { eapply htriple_weaken; [apply (triple_ignoring _ (aside had) (aside had))|done|apply (aside_safe had)].
      apply triple_remove_file, aside_ignores. by left. }
    intros ?. apply (htriple_seq _ _ _ (fun _ => safe)).
    + destruct had.
      * eapply htriple_strengthen; [apply put_back_triple|apply aside_recoverable].
      * intros s Hs. by apply (aside_safe false).
    + intros ?. eapply htriple_weaken; [apply (triple_raise _ (fun _ _ => False))|done|done].
Qed.

Lemma mark_triple :
  htriple (moved true) (mark name manifest)
    (fun _ d' => moved true d' /\ exists marker, encode (marker_of manifest) = Ok marker /\
                   d' !! activation_path name = Some (RegularFile marker)) safe.
Proof.
  apply (htriple_seq _ _ _ (fun marker d' => encode (marker_of manifest) = Ok marker /\ moved true d')).
  { eapply htriple_weaken; [apply triple_pure|done|apply (moved_safe true)]. }
  intros marker. apply htriple_prop. intros Hm.
  apply (htriple_seq _ _ _ (fun r d' => match r with
    | Ok _ => moved true d' /\ d' !! activation_path name = Some (RegularFile marker)
    | Err _ => moved true d' end)).
  - eapply htriple_weaken;
      [apply (triple_attempt _ _ (fun _ d' => moved true d' /\ d' !! activation_path name = Some (RegularFile marker))
                (moved true))
      |intros r d' Hd; exact Hd|apply (moved_safe true)].
    apply triple_write_new_synced, ignores_absorbs, moved_ignores. by left.
  - intros [ []|e].
    + intros s [Hd Hs]. split; [done|]. by exists marker.
    + apply (htriple_seq _ _ _ (fun _ => safe)).
      * eapply htriple_strengthen; [apply put_back_triple|apply moved_recoverable].
      * intros ?. eapply htriple_weaken; [apply (triple_raise _ (fun _ _ => False))|done|done].
Qed.

(** The restored state in place, the old one under the rollback name beside its marker. *)
Definition replaced (receipt : RestoreReceipt.RestoreReceipt) (d' : Entries) : Prop :=
  let had := RestoreReceipt.rollback_available receipt in
  moved had d' /\ RestoreReceipt.payload_sha256 receipt = StateManifest.payload_sha256 manifest /\
  (had = true -> exists marker, encode (marker_of manifest) = Ok marker /\
                   d' !! activation_path name = Some (RegularFile marker)).

Lemma replace_destination_triple failure :
  htriple quiet (replace_destination name manifest payload failure) replaced safe.
Proof.
  apply (htriple_seq _ _ _ (fun _ => quiet)).
  { eapply htriple_weaken; [apply (triple_read _ quiet)|by intros b d' [_ Hd]|apply quiet_safe]. }
  intros [|].
  { eapply htriple_weaken; [apply (triple_raise _ (fun _ _ => False))|done|apply quiet_safe]. }
  apply (htriple_seq _ _ _ (fun _ d' => quiet d' /\ staged_here d')).
  { eapply htriple_weaken; [apply (triple_write_new_synced _ payload quiet)|done|apply quiet_safe].
    apply ignores_absorbs, quiet_ignores. by left. }
  intros ?. eapply htriple_seq; [apply set_aside_triple|]. intros had.
  destruct (bool_decide (failure = AfterRollbackPrepared)).
  { apply (htriple_seq _ _ _ (fun _ => aside had)).
    { eapply htriple_strengthen; [|by intros d' [Ha _]; exact Ha].
      eapply htriple_weaken; [apply (triple_remove_file _ (aside had)); apply aside_ignores; by left|done|apply (aside_safe had)]. }
    intros ?. apply (htriple_seq _ _ _ (fun _ => safe)).
    - destruct had; [|intros s Hs; by apply (aside_safe false)].
      eapply htriple_strengthen; [apply put_back_triple|apply aside_recoverable].
    - intros ?. eapply htriple_weaken; [apply (triple_raise _ (fun _ _ => False))|done|done]. }
  eapply htriple_seq; [apply move_in_triple|]. intros ?.
  set (Q d' := moved had d' /\ (had = true -> exists marker, encode (marker_of manifest) = Ok marker /\
                   d' !! activation_path name = Some (RegularFile marker))).
  apply (htriple_seq _ _ _ (fun _ => Q)).
  { destruct had.
    - eapply htriple_weaken; [apply mark_triple| |done]. intros ? d' [Hd Hm]. by split.
    - intros s Hs. by split. }
  intros ?. apply (htriple_seq _ _ _ (fun _ => Q)).
  { eapply htriple_weaken; [apply (triple_sync Q)|done|]. intros d' [Hd _]. by apply (moved_safe had). }
  intros ? s [Hd Hm]. by split_and!.
Qed.

Lemma locked_replace_triple failure :
  htriple quiet (with_destination_lock name (replace_destination name manifest payload failure)) replaced safe.
Proof.
  apply triple_holding; [..|apply replace_destination_triple].
  - apply quiet_ignores. by right; left.
  - apply safe_ignores. right. by right; left.
  - intros receipt. apply ignores_and; [apply moved_ignores; right; by right; left|].
    intros d' [Hr Hm]. split; [|intros n]; (split; [done|]); intros Hh; destruct (Hm Hh) as (marker & He & Ha);
      exists marker; by rewrite ?lookup_delete_ne, ?lookup_insert_ne by names_differ.
  - apply quiet_safe.
  - intros receipt d' [Hd _]. by eapply moved_safe.
Qed.
End Replacing.

(** ** Snapshots, whatever happens *)

(** What is found in a directory that is real or not there yet. *)
Definition within (P : Entries -> Prop) (p : Place) : Prop :=
  match p with Real d => P d | Absent => P ∅ | _ => False end.
Definition real_within (P : Entries -> Prop) (p : Place) : Prop := exists d, p = Real d /\ P d.

Lemma real_within_within P p : real_within P p -> within P p.
Proof. by intros (d & -> & Hd). Qed.

Lemma ensure_real_directory_triple P :
  htriple (within P) ensure_real_directory (fun _ => real_within P) (within P).
Proof.
  intros [fs p] Hp. unfold holds in Hp. simpl in Hp. destruct p as [|d|t|]; [|by exists d|done|done].
  destruct fs as [|[|e n|n] fs]; [by exists ∅|by exists ∅|exact Hp|exact Hp].
Qed.

Lemma inside_triple {A} (m : prog Entries A) P (Q : A -> Entries -> Prop) R :
  htriple P m Q R ->
  htriple (real_within P) (inside m) (fun a => real_within (Q a)) (real_within R).
Proof. apply triple_inside. Qed.

Lemma in_store_triple {A} (m : prog Place A) (O P : Place -> Prop) (Q : A -> Place -> Prop) R :
  htriple P m Q R ->
  htriple (fun p => P (store p) /\ O (objects p)) (in_store m)
    (fun a p => Q a (store p) /\ O (objects p)) (fun p => R (store p) /\ O (objects p)).
Proof. intros Hm. by apply (triple_zoom store set_store (fun x d => eq_refl) m (fun p => O (objects p))). Qed.

Lemma in_objects_triple {A} (m : prog Place A) (O P : Place -> Prop) (Q : A -> Place -> Prop) R :
  htriple P m Q R ->
  htriple (fun p => O (store p) /\ P (objects p)) (in_objects m)
    (fun a p => O (store p) /\ Q a (objects p)) (fun p => O (store p) /\ R (objects p)).
Proof.
  intros Hm. pose proof (triple_zoom objects set_objects (fun x d => eq_refl) m (fun p => O (store p)) P Q R ltac:(done) Hm) as Hz.
  eapply htriple_strengthen; [eapply htriple_weaken; [exact Hz|..]|]; cbv beta; intros; tauto.
Qed.

(** The state that a store has: its manifest and the payload the manifest is of. *)
Definition current_is (manifest : StateManifest.StateManifest) (d : Entries) : Prop := exists bytes,
  d !! "current.json" = Some (RegularFile bytes) /\ vec_len bytes <= MAX_MANIFEST_BYTES /\
  decode_manifest bytes = Ok manifest.
Definition object_is (manifest : StateManifest.StateManifest) (payload : list Z) (d : Entries) : Prop :=
  d !! object_name (StateManifest.payload_sha256 manifest) = Some (RegularFile payload) /\
  vec_len payload <= MAX_STATE_BYTES /\ vec_len payload = StateManifest.payload_bytes manifest /\
  bytes_digest payload = StateManifest.payload_sha256 manifest.
Definition stored (manifest : StateManifest.StateManifest) (payload : list Z) (p : Places) : Prop :=
  real_within (current_is manifest) (store p) /\ real_within (object_is manifest payload) (objects p).

Lemma current_is_lock manifest : ignores snapshot_lock (current_is manifest).
Proof.
  intros d (bytes & Hb & Hd). split; [|intros n]; exists bytes;
    by rewrite ?lookup_delete_ne, ?lookup_insert_ne by done.
Qed.

Section Snapshot.
(** What is known of the store and of its objects before. *)
Context (Bs Bo : Entries -> Prop).
Hypothesis Bs_lock : ignores snapshot_lock Bs.
Hypothesis Bs_tmp : ignores "current.tmp" Bs.
Hypothesis Bo_new : forall name n d, present name d = false -> Bo d -> Bo (<[name := n]> d).
Context (component schema_version : string) (revision : Z) (payload : list Z).

Let manifest := manifest_of component schema_version revision payload.
Let object := object_name (bytes_digest payload).

Definition before (p : Places) : Prop := within Bs (store p) /\ within Bo (objects p).
Definition with_object (d : Entries) : Prop := Bo d /\ d !! object = Some (RegularFile payload).

Lemma store_object_triple : htriple Bo (store_object payload) (fun _ => with_object) Bo.
Proof.
  unfold store_object. fold object.
  apply (htriple_seq _ _ _ (fun b d => present object d = b /\ Bo d)).
  { eapply htriple_weaken; [apply (triple_read _ Bo)|by intros b d [[= <-] Hd]|done]. }
  intros found. destruct found.
  - eapply htriple_strengthen; [|intros d [_ Hd]; exact Hd].
    eapply htriple_seq.
    { eapply htriple_weaken; [apply (triple_read _ Bo)|intros a d Hd; exact Hd|done]. }
    intros existing. cbv beta. apply (htriple_strengthen _ (fun d => Bo d /\ d !! object = Some (RegularFile existing))).
    + destruct (bool_decide (existing = payload)) eqn:He; cbn [negb].
      * apply bool_decide_eq_true in He. subst existing. by intros s Hs.
      * eapply htriple_strengthen; [|by intros d [Hd _]; exact Hd].
        eapply htriple_weaken; [apply (triple_raise _ (fun _ _ => False))|done|done].
    + intros d [Hr Hd]. split; [done|]. destruct (d !! object) as [[b| | |]|]; simplify_eq.
      destruct (_ <? _); by simplify_eq.
  - set (P d := Bo d /\ forall n, Bo (<[object := n]> d)).
    assert (absorbs object P) as Habs.
    { intros d n [Hd Hn]. split; [done|]. intros n'. by rewrite insert_insert_eq. }
    apply (htriple_strengthen _ P); [|intros d [Hp Hd]; split; [done|]; intros n; by apply Bo_new].
    apply (htriple_seq _ _ _ (fun _ d => P d /\ d !! object = Some (RegularFile payload))).
    + eapply htriple_weaken; [by apply (triple_write_new_synced object payload P)|done|by intros d [Hd _] ].
    + intros ?. eapply htriple_weaken;
        [apply (triple_sync (fun d => P d /\ d !! object = Some (RegularFile payload)))
        |by intros ? d [ [Hd _] Ho]|by intros d [ [Hd _] _] ].
Qed.

Lemma check_current_triple : htriple Bs (check_current component revision) (fun _ => Bs) Bs.
Proof.
  unfold check_current. eapply htriple_seq.
  { eapply htriple_weaken; [apply (triple_read _ Bs)|intros b d [_ Hd]; exact Hd|done]. }
  cbv beta. intros [|]; [|by intros s Hs].
  eapply htriple_seq.
  { eapply htriple_weaken; [apply (triple_read _ Bs)|intros b d [_ Hd]; exact Hd|done]. }
  cbv beta. intros bytes. eapply htriple_seq.
  { eapply htriple_weaken; [apply (triple_pure _ Bs)|intros b d [_ Hd]; exact Hd|done]. }
  cbv beta. intros current. destruct (_ || _); [|by intros s Hs].
  eapply htriple_weaken; [apply (triple_raise _ (fun _ _ => False))|done|done].
Qed.

Definition ready_to_store (p : Places) : Prop := real_within Bs (store p) /\ within Bo (objects p).

Hypothesis decodes : forall bytes, encode manifest = Ok bytes ->
  decode_manifest bytes = Ok manifest /\ vec_len bytes <= MAX_MANIFEST_BYTES.
Hypothesis bounded_payload : vec_len payload <= MAX_STATE_BYTES.

Lemma with_object_is d : with_object d -> object_is manifest payload d.
Proof. by intros [_ Ho]. Qed.

(** What runs under the lock. *)
Definition snapshot_body : prog Places SnapshotReceipt.SnapshotReceipt :=
  _ ← in_store (inside (check_current component revision));
  _ ← in_objects ensure_real_directory;
  _ ← in_objects (inside (store_object payload));
  manifest_bytes ← pure (encode manifest);
  _ ← in_store (inside (atomic_replace "current.json" "current.tmp" manifest_bytes));
  mret {| SnapshotReceipt.manifest_sha256 := bytes_digest manifest_bytes;
          SnapshotReceipt.payload_sha256 := bytes_digest payload;
          SnapshotReceipt.payload_bytes := vec_len payload;
          SnapshotReceipt.revision := revision |}.

Lemma snapshot_body_triple :
  htriple ready_to_store snapshot_body
    (fun receipt p => SnapshotReceipt.payload_sha256 receipt = bytes_digest payload /\ stored manifest payload p)
    (fun p => ready_to_store p \/ stored manifest payload p).
Proof.
  assert (forall p, real_within Bs (store p) /\ within Bo (objects p) ->
    ready_to_store p \/ stored manifest payload p) as Hw by (intros p Hp; by left).
  assert (forall p, real_within Bs (store p) /\ real_within Bo (objects p) ->
    ready_to_store p \/ stored manifest payload p) as Hw'.
  { intros p [Hs Ho]. left. split; [done|]. by apply real_within_within. }
  assert (forall p, real_within Bs (store p) /\ real_within with_object (objects p) ->
    ready_to_store p \/ stored manifest payload p) as Hw2.
  { intros p [Hs (d & Hd & Ho & _)]. apply Hw'. split; [done|]. by exists d. }
  eapply htriple_seq.
  { eapply htriple_weaken; [apply (in_store_triple _ (within Bo)), inside_triple, check_current_triple
      |intros x p Hp; exact Hp|exact Hw]. }
  intros ?. eapply htriple_seq.
  { eapply htriple_weaken; [apply (in_objects_triple _ (real_within Bs)), ensure_real_directory_triple
      |intros x p Hp; exact Hp|exact Hw]. }
  intros ?. eapply htriple_seq.
  { eapply htriple_weaken; [apply (in_objects_triple _ (real_within Bs)), inside_triple, store_object_triple
      |intros x p Hp; exact Hp|exact Hw']. }
  intros ?. eapply htriple_seq.
  { eapply htriple_weaken; [apply triple_pure|intros x p Hp; exact Hp|exact Hw2]. }
  intros bytes. apply htriple_prop. intros Hb. destruct (decodes bytes Hb) as [Hdec Hlen].
  assert (htriple Bs (atomic_replace "current.json" "current.tmp" bytes) (fun _ => current_is manifest)
            (fun d => Bs d \/ current_is manifest d)) as Hr.
  { apply triple_atomic_replace; [done| |done]. intros d Hd. exists bytes.
    split_and!; [apply lookup_insert_eq|done|done]. }
  eapply htriple_seq.
  { eapply htriple_weaken; [apply (in_store_triple _ (real_within with_object)), inside_triple, Hr
      |intros x p Hp; exact Hp|].
    intros p [(d & Hd & [Hs|Hs]) Ho]; [apply Hw2; split; [by exists d|done]|].
    right. split; [by exists d|]. destruct Ho as (d' & Hd' & Ho). exists d'. by split; [|apply with_object_is]. }
  intros ? s [Hs (d & Hd & Ho)]. split; [done|]. split; [done|]. exists d. by split; [|apply with_object_is].
Qed.

(** The lock's calls keep what does not depend on it. *)
Lemma lock_call_triple (m : prog Entries ()) (P : Entries -> Prop) (O : Place -> Prop) :
  htriple P m (fun _ => P) P ->
  htriple (fun p => real_within P (store p) /\ O (objects p)) (in_store (inside m))
    (fun _ p => real_within P (store p) /\ O (objects p)) (fun p => real_within P (store p) /\ O (objects p)).
Proof. intros Hm. exact (in_store_triple _ O _ _ _ (inside_triple _ P (fun _ => P) P Hm)). Qed.

Lemma locked_snapshot_triple :
  htriple ready_to_store (with_snapshot_lock snapshot_body)
    (fun receipt p => SnapshotReceipt.payload_sha256 receipt = bytes_digest payload /\ stored manifest payload p)
    (fun p => ready_to_store p \/ stored manifest payload p).
Proof.
  eapply htriple_seq.
  { eapply htriple_weaken; [apply (lock_call_triple _ Bs (within Bo)); by apply triple_acquire
      |intros x p Hp; exact Hp|by left]. }
  intros ?. apply triple_guarded; [apply snapshot_body_triple|..].
  - intros receipt. apply htriple_frame, (lock_call_triple _ (current_is manifest) (real_within (object_is manifest payload))).
    apply triple_remove_file, current_is_lock.
  - apply htriple_or.
    + apply (lock_call_triple _ Bs (within Bo)). by apply triple_remove_file.
    + apply (lock_call_triple _ (current_is manifest) (real_within (object_is manifest payload))).
      apply triple_remove_file, current_is_lock.
  - intros receipt p [_ Hp]. by right.
Qed.

Lemma snapshot_triple source :
  htriple before (snapshot source component schema_version revision)
    (fun receipt p => SnapshotReceipt.payload_sha256 receipt = bytes_digest payload /\ stored manifest payload p)
    (fun p => before p \/ stored manifest payload p) \/ read_source source <> Ok payload.
Proof.
  destruct (decide (read_source source = Ok payload)) as [Hs|]; [left|by right].
  assert (forall p, before p -> before p \/ stored manifest payload p) as Hw by (intros; by left).
  unfold snapshot. do 2 (eapply htriple_seq; [eapply htriple_weaken;
    [apply (triple_pure _ before)|intros y p [_ Hp]; exact Hp|exact Hw] | intros ?]).
  eapply htriple_seq; [eapply htriple_weaken; [apply (triple_pure _ before)|intros x p Hp; exact Hp|exact Hw]|].
  intros payload'. apply htriple_prop. intros Hp. rewrite Hs in Hp. injection Hp as <-.
  eapply htriple_seq.
  { eapply htriple_weaken; [apply (in_store_triple _ (within Bo)), ensure_real_directory_triple
      |intros x p Hp; exact Hp|exact Hw]. }
  intros ?. eapply htriple_weaken; [apply locked_snapshot_triple|done|].
  intros p [[Hp Ho]|Hp]; [left|by right]. split; [by apply real_within_within|done].
Qed.
End Snapshot.

(** ** Restoring on a machine without faults *)

(** Looks up through insertions and deletions at names that are known apart. *)
Ltac side := first [done | congruence | names_differ].
Ltac lookups :=
  repeat first [rewrite lookup_insert_eq | rewrite lookup_delete_eq
               | rewrite lookup_insert_ne by side | rewrite lookup_delete_ne by side].
Ltac same_entries :=
  apply map_eq; intros x;
  repeat match goal with
  | |- context [<[?n := _]> _ !! x] => destruct (decide (x = n)) as [->|?]; lookups
  | |- context [delete ?n _ !! x] => destruct (decide (x = n)) as [->|?]; lookups
  end; auto.

Section CalmRestore.
Context (name : string) (manifest : StateManifest.StateManifest) (payload : list Z) (d : Entries).

(** None of the names beside the destination is in use. *)
Definition unused : Prop :=
  d !! staged_name name = None /\ d !! lock_name name = None /\ d !! rollback_path name = None /\
  d !! activation_path name = None.

Context (Hunused : unused).

Definition locked : Entries := <[lock_name name := RegularFile []]> d.

Lemma not_stale : stale name locked = false.
Proof.
  destruct Hunused as (Hs & Hl & Hr & Ha). unfold stale, present, locked. lookups. by rewrite Hs, Hr, Ha.
Qed.

(** With a state to keep. *)
Definition restored_over (old marker : list Z) : Entries :=
  <[activation_path name := RegularFile marker]> (<[name := RegularFile payload]>
    (<[rollback_path name := RegularFile old]> d)).

Lemma calm_set_aside old e :
  e !! name = Some (RegularFile old) -> e !! rollback_path name = None ->
  set_aside name (calm e) = (Ok true, calm (<[rollback_path name := RegularFile old]> (delete name e))).
Proof.
  intros Hn Hr. unfold set_aside.
  assert (present name e = true /\ is_regular name e = true) as [Hp Hi] by (unfold present, is_regular; by rewrite Hn).
  rewrite (run_bind _ _ _ _ _ (run_read _ true (calm e) (f_equal Ok Hp))). cbv iota.
  rewrite (run_bind _ _ _ _ _ (run_read _ true (calm e) (f_equal Ok Hi))). cbn [negb].
  assert (replaceable (rollback_path name) e) as Hrep by (unfold replaceable; by rewrite Hr).
  by rewrite (run_bind _ _ _ _ _ (calm_rename _ _ _ e Hn Hrep)).
Qed.

Lemma calm_move_in had e :
  e !! staged_name name = Some (RegularFile payload) -> replaceable name e ->
  move_in name had (calm e) = (Ok (), calm (<[name := RegularFile payload]> (delete (staged_name name) e))).
Proof.
  intros Hs Hr. unfold move_in.
  by rewrite (run_bind _ _ _ _ _ (calm_attempt _ _ (Ok ()) _ (calm_rename _ _ _ e Hs Hr))).
Qed.

Lemma calm_mark marker e :
  encode (marker_of manifest) = Ok marker -> e !! activation_path name = None ->
  mark name manifest (calm e) = (Ok (), calm (<[activation_path name := RegularFile marker]> e)).
Proof.
  intros Hm Ha. unfold mark. rewrite (run_bind _ _ _ _ _ (run_pure _ _ _ Hm)).
  by rewrite (run_bind _ _ _ _ _ (calm_attempt (write_new_synced _ _) _ (Ok ()) _ (calm_write_new_synced _ marker e Ha))).
Qed.

Definition receipt_of (had : bool) : RestoreReceipt.RestoreReceipt :=
  {| RestoreReceipt.payload_sha256 := StateManifest.payload_sha256 manifest;
     RestoreReceipt.payload_bytes := StateManifest.payload_bytes manifest;
     RestoreReceipt.revision := StateManifest.revision manifest;
     RestoreReceipt.rollback_available := had |}.

Lemma calm_restore_over old marker :
  d !! name = Some (RegularFile old) -> encode (marker_of manifest) = Ok marker ->
  with_destination_lock name (replace_destination name manifest payload NoFailure) (calm d) =
    (Ok (receipt_of true), calm (restored_over old marker)).
Proof.
  destruct Hunused as (Hs & Hl & Hr & Ha). intros Hn Hm.
  set (d1 := <[staged_name name := RegularFile payload]> locked).
  set (d2 := <[rollback_path name := RegularFile old]> (delete name d1)).
  set (d3 := <[name := RegularFile payload]> (delete (staged_name name) d2)).
  set (d4 := <[activation_path name := RegularFile marker]> d3).
  assert (replace_destination name manifest payload NoFailure (calm locked) =
          (map_err Raised (Ok (receipt_of true)), calm d4)) as Hrun.
  { unfold replace_destination.
    rewrite (run_bind _ _ _ _ _ (run_read _ false (calm locked) (f_equal Ok not_stale))). cbv iota.
    assert (locked !! staged_name name = None) as H8 by (unfold locked; by lookups).
    rewrite (run_bind (write_new_synced _ _) _ _ _ _ (calm_write_new_synced _ payload _ H8)).
    assert (d1 !! name = Some (RegularFile old)) as H9 by (unfold d1, locked; by lookups).
    assert (d1 !! rollback_path name = None) as H10 by (unfold d1, locked; by lookups).
    rewrite (run_bind _ _ _ _ _ (calm_set_aside old d1 H9 H10)).
    rewrite bool_decide_eq_false_2 by done. cbv iota.
    assert (d2 !! staged_name name = Some (RegularFile payload)) as H11 by (unfold d2, d1; by lookups).
    assert (replaceable name d2) as H12 by (unfold replaceable, d2; by lookups).
    rewrite (run_bind _ _ _ _ _ (calm_move_in true d2 H11 H12)).
    assert (d3 !! activation_path name = None) as H13 by (unfold d3, d2, d1, locked; by lookups).
    by rewrite (run_bind _ _ _ _ _ (calm_mark marker d3 Hm H13)). }
  unfold with_destination_lock. rewrite (calm_holding _ _ _ _ (Ok (receipt_of true)) _ [] Hl Hrun).
  - do 2 f_equal. unfold d4, d3, d2, d1, locked, restored_over. same_entries.
  - unfold d4, d3, d2, d1, locked. by lookups.
Qed.

Lemma calm_restore_fresh :
  d !! name = None ->
  with_destination_lock name (replace_destination name manifest payload NoFailure) (calm d) =
    (Ok (receipt_of false), calm (<[name := RegularFile payload]> d)).
Proof.
  destruct Hunused as (Hs & Hl & Hr & Ha). intros Hn.
  set (d1 := <[staged_name name := RegularFile payload]> locked).
  set (d3 := <[name := RegularFile payload]> (delete (staged_name name) d1)).
  assert (replace_destination name manifest payload NoFailure (calm locked) =
          (map_err Raised (Ok (receipt_of false)), calm d3)) as Hrun.
  { unfold replace_destination.
    rewrite (run_bind _ _ _ _ _ (run_read _ false (calm locked) (f_equal Ok not_stale))). cbv iota.
    assert (locked !! staged_name name = None) as H8 by (unfold locked; by lookups).
    rewrite (run_bind (write_new_synced _ _) _ _ _ _ (calm_write_new_synced _ payload _ H8)).
    assert (present name d1 = false) as H9 by (unfold present, d1, locked; lookups; by rewrite Hn).
    assert (set_aside name (calm d1) = (Ok false, calm d1)) as H10
      by (unfold set_aside; by rewrite (run_bind _ _ _ _ _ (run_read _ false (calm d1) (f_equal Ok H9)))).
    rewrite (run_bind _ _ _ _ _ H10), bool_decide_eq_false_2 by done. cbv iota.
    assert (d1 !! staged_name name = Some (RegularFile payload)) as H11 by (unfold d1; by lookups).
    assert (replaceable name d1) as H12 by (unfold replaceable, d1, locked; lookups; by rewrite Hn).
    by rewrite (run_bind _ _ _ _ _ (calm_move_in false d1 H11 H12)). }
  unfold with_destination_lock. rewrite (calm_holding _ _ _ _ (Ok (receipt_of false)) _ [] Hl Hrun).
  - do 2 f_equal. unfold d3, d1, locked. same_entries.
  - unfold d3, d1, locked. by lookups.
Qed.
End CalmRestore.

(** ** Going back, or not *)

Lemma calm_at_destination {A} name (m : string -> prog Entries A) d r d' :
  d !! lock_name name = None ->
  m name (calm (<[lock_name name := RegularFile []]> d)) = (map_err Raised r, calm d') ->
  d' !! lock_name name = Some (RegularFile []) ->
  at_destination (Some (Some name)) m (calm (Real d)) =
    (map_err Raised r, calm (Real (delete (lock_name name) d'))).
Proof.
  intros Hl Hm Hl'. unfold at_destination.
  rewrite (run_bind (pure (ok_or (Some (Some name)) _)) _ (calm (Real d)) (Some name) (calm (Real d)) eq_refl).
  rewrite (run_bind ensure_existing_real_directory _ (calm (Real d)) () (calm (Real d)) eq_refl).
  rewrite (run_bind (pure (destination_name (Some (Some name)))) _ (calm (Real d)) name (calm (Real d)) eq_refl).
  apply calm_inside. by apply (calm_holding _ _ _ _ _ d' []).
Qed.

Section Deciding.
Context `{!SerdeLaws ActivationMarker.ActivationMarker}.
Context (name : string) (manifest : StateManifest.StateManifest) (old payload active marker : list Z).
Context (d : Entries) (Hunused : unused name d) (Hold : d !! name = Some (RegularFile old)).
Context (Hmarker : encode (marker_of manifest) = Ok marker) (Hsmall : vec_len marker <= MAX_MANIFEST_BYTES).
Context (Hlen : vec_len old <= MAX_STATE_BYTES) (Hactive : vec_len active <= MAX_STATE_BYTES).

Definition after_restore : Entries :=
  <[activation_path name := RegularFile marker]> (<[name := RegularFile active]>
    (<[rollback_path name := RegularFile old]> d)).

Let d0 := <[lock_name name := RegularFile []]> after_restore.

Ltac entries := destruct Hunused as (Hs & Hl & Hr & Ha); unfold d0, after_restore; by lookups.

Lemma after_entries :
  after_restore !! lock_name name = None /\ d0 !! rollback_path name = Some (RegularFile old) /\
  d0 !! activation_path name = Some (RegularFile marker) /\ d0 !! name = Some (RegularFile active) /\
  d0 !! staged_name name = None.
Proof. split_and!; entries. Qed.

(** [rollback] puts the directory back as it was. *)
Lemma calm_rollback_state :
  rollback (Some (Some name)) (calm (Real after_restore)) = (Ok (), calm (Real d)).
Proof.
  destruct after_entries as (Hl0 & Hr0 & Ha0 & Hn0 & Hs0).
  set (d1 := <[staged_name name := RegularFile old]> d0).
  set (d2 := <[name := RegularFile old]> (delete (staged_name name) d1)).
  set (d3 := delete (rollback_path name) d2).
  set (d4 := delete (activation_path name) d3).
  assert (delete (lock_name name) d4 = d) as Heq.
  { destruct Hunused as (Hs & Hl & Hr & Ha). unfold d4, d3, d2, d1, d0, after_restore. same_entries. }
  rewrite <- Heq. unfold rollback. apply (calm_at_destination _ _ _ (Ok ())); [done|fold d0|].
  - rewrite (run_bind (read_regular_bounded _ _ _) _ _ _ _ (calm_read_bounded _ _ _ _ _ _ Hr0 Hlen)).
    rewrite (run_bind _ _ _ _ _ (run_read _ false (calm d0) (f_equal Ok (absent_not_present _ _ Hs0)))). cbv iota.
    rewrite (run_bind (write_new_synced _ _) _ _ _ _ (calm_write_new_synced _ old _ Hs0)).
    assert (d1 !! staged_name name = Some (RegularFile old)) as H8 by (unfold d1; by lookups).
    assert (replaceable name d1) as H9 by (unfold replaceable, d1; lookups; by rewrite Hn0).
    rewrite (run_bind _ _ _ _ _ (calm_rename _ _ _ d1 H8 H9)).
    assert (d2 !! rollback_path name = Some (RegularFile old)) as H10 by (unfold d2, d1; by lookups).
    rewrite (run_bind _ _ _ _ _ (calm_remove_file _ _ d2 H10)).
    assert (d3 !! activation_path name = Some (RegularFile marker)) as H11 by (unfold d3, d2, d1; by lookups).
    assert (present (activation_path name) d3 = true) as H12 by (unfold present; by rewrite H11).
    rewrite (run_bind _ _ _ _ _ (run_read _ true (calm d3) (f_equal Ok H12))). cbv iota.
    by rewrite (run_bind _ _ _ _ _ (calm_remove_file _ _ d3 H11)).
  - unfold d4, d3, d2, d1, d0. by lookups.
Qed.

Lemma marker_reads : from_slice (T := ActivationMarker.ActivationMarker) marker = Some (marker_of manifest).
Proof. by apply from_slice_encode. Qed.

(** [commit] forgets the old state when the destination holds the restored one, and does
    nothing otherwise. *)
Lemma calm_commit :
  commit (Some (Some name)) (calm (Real after_restore)) =
    if (StateManifest.payload_bytes manifest =? vec_len active)
       && bool_decide (StateManifest.payload_sha256 manifest = bytes_digest active)
    then (Ok (), calm (Real (<[name := RegularFile active]> d)))
    else (Err (Raised (invalid "active state no longer matches the restored payload; rollback cannot be discarded")),
          calm (Real after_restore)).
Proof.
  destruct after_entries as (Hl0 & Hr0 & Ha0 & Hn0 & Hs0).
  set (d1 := delete (rollback_path name) d0). set (d2 := delete (activation_path name) d1).
  assert (delete (lock_name name) d2 = <[name := RegularFile active]> d) as Heq.
  { destruct Hunused as (Hs & Hl & Hr & Ha). unfold d2, d1, d0, after_restore. same_entries. }
  assert (delete (lock_name name) d0 = after_restore) as Heq0.
  { destruct Hunused as (Hs & Hl & Hr & Ha). unfold d0, after_restore. same_entries. }
  set (matches := (StateManifest.payload_bytes manifest =? vec_len active)
       && bool_decide (StateManifest.payload_sha256 manifest = bytes_digest active)).
  rewrite <- Heq. rewrite <- Heq0 at 2.
  transitivity (map_err Raised (if matches then Ok () else
      Err (invalid "active state no longer matches the restored payload; rollback cannot be discarded")),
    calm (Real (delete (lock_name name) (if matches then d2 else d0)))); [|by destruct matches].
  apply calm_at_destination; [done| |destruct matches; unfold d2, d1, d0; by lookups]. fold d0.
  rewrite (run_bind (read_bounded _ _ _) _ _ _ _ (calm_read_bounded _ _ _ _ _ _ Hr0 Hlen)).
  rewrite (run_bind (read_regular_bounded _ _ _) _ _ _ _ (calm_read_bounded _ _ _ _ _ _ Ha0 Hsmall)).
  rewrite (run_bind _ _ _ (marker_of manifest) _ (run_pure _ _ _ (f_equal (fun o => ok_or o _) marker_reads))).
  rewrite (run_bind (read_regular_bounded _ _ _) _ _ _ _ (calm_read_bounded _ _ _ _ _ _ Hn0 Hactive)).
  rewrite (bool_decide_eq_true_2 (ActivationMarker.version _ = _)) by done. cbn [negb orb].
  rewrite <- negb_andb. cbn [ActivationMarker.payload_bytes ActivationMarker.payload_sha256 marker_of].
  fold matches. destruct matches; cbn [negb]; [|done].
  rewrite (run_bind _ _ _ _ _ (calm_remove_file _ _ d0 Hr0)).
  assert (d1 !! activation_path name = Some (RegularFile marker)) as H8 by (unfold d1; by lookups).
  by rewrite (run_bind _ _ _ _ _ (calm_remove_file _ _ d1 H8)).
Qed.
End Deciding.

(** ** The whole of a restoration *)

Definition unlocked (p : Places) : Prop := exists ds, store p = Real ds /\ ds !! snapshot_lock = None.

Lemma calm_with_snapshot_lock {A} (m : prog Places A) ds dobj dp r p' ds' :
  ds !! snapshot_lock = None ->
  m (calm {| store := Real (<[snapshot_lock := RegularFile []]> ds); objects := dobj; parent := dp |})
    = (map_err Raised r, calm p') ->
  store p' = Real ds' -> ds' !! snapshot_lock = Some (RegularFile []) ->
  with_snapshot_lock m (calm {| store := Real ds; objects := dobj; parent := dp |})
    = (map_err Raised r, calm (set_store (Real (delete snapshot_lock ds')) p')).
Proof.
  intros Hl Hm Hs Hl'. unfold with_snapshot_lock.
  assert (in_store (inside (acquire snapshot_lock "state store is locked"))
            (calm {| store := Real ds; objects := dobj; parent := dp |}) =
          (Ok (), calm {| store := Real (<[snapshot_lock := RegularFile []]> ds); objects := dobj; parent := dp |})) as Ha.
  { apply (run_zoom store set_store _ []), calm_inside. unfold acquire.
    by rewrite (run_bind _ _ _ _ _ (calm_attempt _ _ (Ok ()) _ (calm_create_new _ _ Hl))). }
  rewrite (run_bind _ _ _ _ _ Ha). apply (calm_guarded _ _ _ _ p'); [done|].
  apply (run_zoom store set_store _ []). simpl. rewrite Hs. apply calm_inside, (calm_remove_file _ [] _ Hl').
Qed.

Lemma run_current_state manifest payload fs p :
  stored manifest payload p ->
  current_state (Build_Disk fs p) = (Ok (manifest, payload), Build_Disk fs p).
Proof.
  intros [(ds & Hs & bytes & Hb & Hbl & Hd) (dobj & Ho & Hobj & Hpl & Hlen & Hdig)].
  destruct p as [st ob pa]. simpl in *. subst st ob. unfold current_state.
  assert (in_store (inside (read_regular_bounded "current.json" MAX_MANIFEST_BYTES "state manifest"))
            (Build_Disk fs {| store := Real ds; objects := Real dobj; parent := pa |})
          = (Ok bytes, Build_Disk fs {| store := Real ds; objects := Real dobj; parent := pa |})) as H8
    by (apply (run_zoom store set_store _ fs), calm_inside, calm_read_bounded; done).
  rewrite (run_bind _ _ _ _ _ H8), (run_bind _ _ _ _ _ (run_pure _ _ _ Hd)).
  assert (in_objects (inside (read_regular_bounded (object_name (StateManifest.payload_sha256 manifest))
            MAX_STATE_BYTES "state object")) (Build_Disk fs {| store := Real ds; objects := Real dobj; parent := pa |})
          = (Ok payload, Build_Disk fs {| store := Real ds; objects := Real dobj; parent := pa |})) as H9
    by (apply (run_zoom objects set_objects _ fs), calm_inside, calm_read_bounded; done).
  rewrite (run_bind _ _ _ _ _ H9). by rewrite Hlen, Z.eqb_refl, bool_decide_eq_true_2.
Qed.

Lemma stored_other_name manifest payload ds dobj pa node :
  stored manifest payload {| store := Real ds; objects := dobj; parent := pa |} ->
  stored manifest payload {| store := Real (<[snapshot_lock := node]> ds); objects := dobj; parent := pa |}.
Proof.
  intros [(ds' & [= <-] & bytes & Hb & Hd) Ho]. split; [|exact Ho].
  exists (<[snapshot_lock := node]> ds). split; [done|]. exists bytes. by rewrite lookup_insert_ne.
Qed.

Lemma calm_restore manifest payload p name dp receipt dp' :
  stored manifest payload p -> unlocked p -> parent p = Real dp ->
  with_destination_lock name (replace_destination name manifest payload NoFailure) (calm dp)
    = (Ok receipt, calm dp') ->
  restore (Some (Some name)) (calm p) = (Ok receipt, calm (set_parent (Real dp') p)).
Proof.
  intros Hst (ds & Hs & Hl) Hp Hrun. destruct p as [st ob pa]. simpl in *. subst st pa.
  unfold restore, restore_with_failure.
  set (pl0 := {| store := Real ds; objects := ob; parent := Real dp |}).
  rewrite (run_bind (in_store ensure_existing_real_directory) _ (calm pl0) () (calm pl0) eq_refl).
  set (pl := {| store := Real (<[snapshot_lock := RegularFile []]> ds); objects := ob; parent := Real dp |}).
  unfold pl0. rewrite (calm_with_snapshot_lock _ ds ob (Real dp) (Ok receipt) (set_parent (Real dp') pl)
             (<[snapshot_lock := RegularFile []]> ds) Hl); [| |done|apply lookup_insert_eq].
  { unfold set_store, set_parent. simpl. by rewrite delete_insert_id. }
  fold pl. rewrite (run_bind _ _ _ _ _ (run_current_state _ _ [] pl (stored_other_name _ _ _ _ _ _ Hst))).
  cbv beta iota. rewrite (run_bind (pure (ok_or (Some (Some name)) _)) _ (calm pl) (Some name) (calm pl) eq_refl).
  rewrite (run_bind (in_parent ensure_existing_real_directory) _ (calm pl) () (calm pl) eq_refl).
  rewrite (run_bind (pure (destination_name (Some (Some name)))) _ (calm pl) name (calm pl) eq_refl).
  by apply (run_zoom parent set_parent _ []), calm_inside.
Qed.

(** ** Properties *)

Section RestoreAnyway.
Context (manifest : StateManifest.StateManifest) (payload : list Z) (name : string) (dp : Entries).

Definition at_start (p : Places) : Prop := stored manifest payload p /\ parent p = Real dp.
Definition at_end (P : Entries -> Prop) (p : Places) : Prop :=
  stored manifest payload p /\ real_within P (parent p).

Lemma at_start_end (P : Entries -> Prop) p : P dp -> at_start p -> at_end P p.
Proof. intros Hd [Hs Hp]. split; [done|]. by exists dp. Qed.

Lemma restore_body_triple failure :
  htriple at_start
    ('(manifest, payload) ← current_state;
     _ ← pure (ok_or (Some (Some name)) (invalid "state destination requires a parent directory"));
     _ ← in_parent ensure_existing_real_directory;
     name ← pure (destination_name (Some (Some name)));
     in_parent (inside (with_destination_lock name (replace_destination name manifest payload failure))))
    (fun receipt => at_end (replaced name manifest payload dp receipt)) (at_end (safe name payload dp)).
Proof.
  assert (htriple at_start
    (in_parent (inside (with_destination_lock name (replace_destination name manifest payload failure))))
    (fun receipt => at_end (replaced name manifest payload dp receipt)) (at_end (safe name payload dp))) as Hbody.
  { pose proof (triple_zoom parent set_parent (fun x d => eq_refl) _ (stored manifest payload) _ _ _ ltac:(done)
      (inside_triple _ _ _ _ (locked_replace_triple name manifest payload dp failure))) as Hz.
    eapply htriple_strengthen; [eapply htriple_weaken; [exact Hz|..]|]; cbv beta.
    - by intros r p [? ?].
    - by intros p [? ?].
    - intros p [Hs Hp]. split; [|done]. exists dp. split; [done|]. apply agree_refl. }
  intros [fs p] [Hst Hp]. simpl in Hst, Hp.
  rewrite (run_bind _ _ _ _ _ (run_current_state _ _ fs p Hst)). cbv beta iota.
  rewrite (run_bind (pure (ok_or (Some (Some name)) _)) _ (Build_Disk fs p) (Some name) (Build_Disk fs p) eq_refl).
  assert (in_parent ensure_existing_real_directory (Build_Disk fs p) = (Ok (), Build_Disk fs p)) as He.
  { destruct p as [st ob pa]. simpl in Hp. by subst pa. }
  rewrite (run_bind _ _ _ _ _ He).
  rewrite (run_bind (pure (destination_name (Some (Some name)))) _ (Build_Disk fs p) name (Build_Disk fs p) eq_refl).
  apply (Hbody (Build_Disk fs p)). by split.
Qed.

Lemma lock_restore_triple (m : prog Entries ()) (O : Places -> Prop) :
  (forall P : Entries -> Prop, ignores snapshot_lock P -> htriple P m (fun _ => P) P) ->
  (forall x p, O p -> O (set_store x p)) ->
  htriple (fun p => stored manifest payload p /\ O p) (in_store (inside m))
    (fun _ p => stored manifest payload p /\ O p) (fun p => stored manifest payload p /\ O p).
Proof.
  intros Hm HO.
  pose proof (triple_zoom store set_store (fun x d => eq_refl) _
    (fun p => real_within (object_is manifest payload) (objects p) /\ O p) _ _ _
    ltac:(by intros x p [? ?]; split; auto)
    (inside_triple _ _ _ _ (Hm _ (current_is_lock manifest)))) as Hz.
  eapply htriple_strengthen; [eapply htriple_weaken; [exact Hz|..]|]; unfold stored; cbv beta; intros; tauto.
Qed.

Lemma locked_restore_triple m (Q : RestoreReceipt.RestoreReceipt -> Entries -> Prop) (R : Entries -> Prop) :
  htriple at_start m (fun receipt => at_end (Q receipt)) (at_end R) -> R dp ->
  (forall receipt d, Q receipt d -> R d) ->
  htriple at_start (with_snapshot_lock m) (fun receipt => at_end (Q receipt)) (at_end R).
Proof.
  intros Hm Hd HQ. eapply htriple_seq.
  { eapply htriple_weaken; [apply (lock_restore_triple _ (fun p => parent p = Real dp));
      [intros P HP; by apply triple_acquire|done]|intros a p Hp; exact Hp|intros p; by apply at_start_end]. }
  intros ?. apply triple_guarded; [exact Hm|..].
  - intros receipt. apply lock_restore_triple; [intros P HP; by apply triple_remove_file|done].
  - apply lock_restore_triple; [intros P HP; by apply triple_remove_file|done].
  - intros receipt p [Hs (d & Hp & Hd')]. split; [done|]. exists d. split; [done|]. by eapply HQ.
Qed.
End RestoreAnyway.

(** C16: Restoring never loses state.  Whatever fails on the way and wherever it stops, the
    store keeps the state it has, and the state that was at the destination is there
    still or again, or it lies whole under the rollback name while the destination holds
    nothing or the restored state whole.  A receipt is returned only when the restored
    state is in place, the state before it under the rollback name, and the marker of the
    restoration beside it. *)
Theorem restore_keeps_state manifest payload name dp failure fates p :
  stored manifest payload p -> parent p = Real dp ->
  let '(r, s) := restore_with_failure (Some (Some name)) failure (Build_Disk fates p) in
  stored manifest payload (content s) /\
  exists dp', parent (content s) = Real dp' /\
  match r with
  | Ok receipt => replaced name manifest payload dp receipt dp'
  | Err _ => safe name payload dp dp'
  end.
Proof.
  intros Hst Hp. unfold restore_with_failure.
  assert (in_store ensure_existing_real_directory (Build_Disk fates p) = (Ok (), Build_Disk fates p)) as He.
  { destruct Hst as [(ds & Hs & _) _]. destruct p as [st ob pa]. simpl in Hs. by subst st. }
  rewrite (run_bind _ _ _ _ _ He).
  pose proof (locked_restore_triple manifest payload dp _ _ _
    (restore_body_triple manifest payload name dp failure) ltac:(apply quiet_safe, agree_refl)
    ltac:(intros receipt d [Hd _]; by eapply moved_safe) (Build_Disk fates p) (conj Hst Hp)) as Ht.
  destruct (with_snapshot_lock _ _) as [[receipt|e] s]; destruct Ht as [Hs (dp' & Hd & Hr)];
    (split; [exact Hs|]); by exists dp'.
Qed.

Section Kept.
Context `{!SerdeLaws StateManifest.StateManifest, !Sha256Laws, !HexLaws}.

Lemma manifest_decodes component schema_version revision payload bytes :
  encode (manifest_of component schema_version revision payload) = Ok bytes ->
  validate_label "component" component = Ok () -> validate_label "schema version" schema_version = Ok () ->
  vec_len payload <= MAX_STATE_BYTES ->
  validate_manifest (manifest_of component schema_version revision payload) = Ok () /\
  decode_manifest bytes = Ok (manifest_of component schema_version revision payload).
Proof.
  intros Hb Hc Hs Hl. apply from_slice_encode in Hb. unfold decode_manifest. rewrite Hb. cbn [ok_or mbind result_bind].
  assert (validate_manifest (manifest_of component schema_version revision payload) = Ok ()) as ->; [|done].
  unfold validate_manifest. cbn [manifest_of StateManifest.version StateManifest.payload_bytes
    StateManifest.payload_sha256 StateManifest.component StateManifest.schema_version].
  destruct (bytes_digest_hex payload) as [Hd _].
  rewrite bool_decide_eq_true_2, Hd by done. unfold bytes_digest, Core.bytes_digest.
  rewrite hex_decode_encode by apply sha256_bytes. unfold vec_len at 2. rewrite sha256_length.
  destruct (Z.ltb_spec MAX_STATE_BYTES (vec_len payload)); [lia|]. simpl. by rewrite Hc.
Qed.

Lemma object_new manifest payload name n d :
  present name d = false -> object_is manifest payload d -> object_is manifest payload (<[name := n]> d).
Proof.
  intros Hp [Ho Hd]. split; [|done]. rewrite lookup_insert_ne; [done|].
  intros ->. unfold present in Hp. by rewrite Ho in Hp.
Qed.

Lemma current_is_tmp manifest : ignores "current.tmp" (current_is manifest).
Proof.
  intros d (bytes & Hb & Hd). split; [|intros n]; exists bytes;
    by rewrite ?lookup_delete_ne, ?lookup_insert_ne by done.
Qed.

Lemma read_source_Ok source payload :
  read_source source = Ok payload -> source = Some (RegularFile payload) /\ vec_len payload <= MAX_STATE_BYTES.
Proof.
  unfold read_source. destruct source as [[bytes| | |]|]; try done.
  destruct (Z.ltb_spec MAX_STATE_BYTES (vec_len bytes)); [done|]. intros [= ->]. by split.
Qed.

(** A directory that is real or not there yet. *)
Definition usable (p : Place) : Prop := match p with Real _ | Absent => True | _ => False end.

(** C17: A snapshot is atomic.  Whatever fails on the way and wherever it stops, a state
    that the store had is the state it has, or the new one is; when a receipt is returned
    the store has the new one, whole, under the digest the receipt states, whatever it
    had before. *)
Theorem snapshot_crash_safe source component schema_version revision fates p :
  (forall m bytes, validate_manifest m = Ok () -> encode m = Ok bytes -> vec_len bytes <= MAX_MANIFEST_BYTES) ->
  usable (store p) -> usable (objects p) ->
  let '(r, s) := snapshot source component schema_version revision (Build_Disk fates p) in
  match r with
  | Ok receipt => exists payload, source = Some (RegularFile payload) /\
      SnapshotReceipt.payload_sha256 receipt = bytes_digest payload /\
      stored (manifest_of component schema_version revision payload) payload (content s)
  | Err _ => forall manifest old, stored manifest old p -> stored manifest old (content s) \/
      exists payload, source = Some (RegularFile payload) /\
        stored (manifest_of component schema_version revision payload) payload (content s)
  end.
Proof.
  intros Hsmall Hst Hob.
  destruct (validate_label "component" component) as [[]|e] eqn:Hc.
  2: { unfold snapshot, pure, lift, mbind, op_bind. rewrite Hc. simpl. by left. }
  destruct (validate_label "schema version" schema_version) as [[]|e] eqn:Hv.
  2: { unfold snapshot, pure, lift, mbind, op_bind. rewrite Hc, Hv. simpl. by left. }
  destruct (read_source source) as [payload|e] eqn:Hr.
  2: { unfold snapshot, pure, lift, mbind, op_bind. rewrite Hc, Hv, Hr. simpl. by left. }
  destruct (read_source_Ok _ _ Hr) as [Hsource Hlen].
  assert (forall bytes, encode (manifest_of component schema_version revision payload) = Ok bytes ->
    decode_manifest bytes = Ok (manifest_of component schema_version revision payload) /\
    vec_len bytes <= MAX_MANIFEST_BYTES) as Hdec.
  { intros bytes Hb. destruct (manifest_decodes _ _ _ _ _ Hb Hc Hv Hlen) as [Hvm Hd]. eauto. }
  pose proof (fun Bs Bo H8 H9 H10 => snapshot_triple Bs Bo H8 H9 H10 component schema_version revision payload
                Hdec Hlen source) as Hgen.
  assert (forall P : Entries -> Prop, (forall d, P d) -> forall q, usable q -> within P q) as Hany.
  { intros P HP [| | |] Hq; simpl; auto. }
  destruct (snapshot source component schema_version revision (Build_Disk fates p)) as [[receipt|e] s] eqn:Hrun.
  - destruct (Hgen (fun _ => True) (fun _ => True)) as [Ht|Hne]; [by apply ignores_const|by apply ignores_const|done| |by destruct Hne].
    specialize (Ht (Build_Disk fates p)). rewrite Hrun in Ht.
    destruct Ht as [Hd Hs]; [by split; apply Hany|]. by exists payload.
  - intros manifest old Hold.
    destruct (Hgen (current_is manifest) (object_is manifest old)) as [Ht|Hne];
      [apply current_is_lock|apply current_is_tmp|apply object_new| |by destruct Hne].
    specialize (Ht (Build_Disk fates p)). rewrite Hrun in Ht.
    destruct Ht as [[Hs Ho]|Hs].
    + destruct Hold as [Hs Ho]. split; by apply real_within_within.
    + left. split; [clear -Hs|clear -Ho].
      * destruct (store (content s)) as [|d| |]; simpl in Hs; [|by exists d|done|done].
        by destruct Hs as (bytes & Hb & _).
      * destruct (objects (content s)) as [|d| |]; simpl in Ho; [|by exists d|done|done].
        by destruct Ho as [Hb _].
    + right. by exists payload.
Qed.
End Kept.

(** C18: A restoration can be undone or made final, and not by accident: [rollback] puts the
    destination's directory back exactly as it was; [commit] leaves the restored state
    alone in it; and when the destination holds anything else than what was restored,
    [commit] refuses and changes nothing, so that [rollback] still has the state to go
    back to. *)
Theorem restoration_undone_or_final `{!SerdeLaws ActivationMarker.ActivationMarker}
  manifest payload p name dp old marker :
  stored manifest payload p -> unlocked p -> parent p = Real dp -> unused name dp ->
  dp !! name = Some (RegularFile old) -> vec_len old <= MAX_STATE_BYTES ->
  encode (marker_of manifest) = Ok marker -> vec_len marker <= MAX_MANIFEST_BYTES ->
  exists receipt dp1,
    restore (Some (Some name)) (calm p) = (Ok receipt, calm (set_parent (Real dp1) p)) /\
    dp1 !! name = Some (RegularFile payload) /\
    rollback (Some (Some name)) (calm (Real dp1)) = (Ok (), calm (Real dp)) /\
    commit (Some (Some name)) (calm (Real dp1)) = (Ok (), calm (Real (<[name := RegularFile payload]> dp))) /\
    forall changed, vec_len changed <= MAX_STATE_BYTES -> bytes_digest changed <> bytes_digest payload ->
      let dp2 := <[name := RegularFile changed]> dp1 in
      (exists e, commit (Some (Some name)) (calm (Real dp2)) = (Err (Raised e), calm (Real dp2))) /\
      rollback (Some (Some name)) (calm (Real dp2)) = (Ok (), calm (Real dp)).
Proof.
  intros Hst Hu Hp Hun Hold Hlen Hm Hsmall.
  pose proof Hst as [_ (dobj & _ & _ & Hpl & Hbytes & Hdig)].
  pose proof (calm_restore_over name manifest payload dp Hun old marker Hold Hm) as Hrun.
  assert (forall active, <[name := RegularFile active]> (restored_over name payload dp old marker) =
            after_restore name old active marker dp) as Hover.
  { intros active. unfold restored_over, after_restore. same_entries. }
  exists (receipt_of manifest true), (restored_over name payload dp old marker). split_and!.
  - by apply (calm_restore manifest payload p name dp).
  - unfold restored_over. by lookups.
  - by apply (calm_rollback_state name old payload marker dp).
  - pose proof (calm_commit name manifest old payload marker dp Hun Hold Hm Hsmall Hlen Hpl) as Hc.
    rewrite Hbytes, Z.eqb_refl, <- Hdig, bool_decide_eq_true_2 in Hc by done. exact Hc.
  - intros changed Hcl Hne dp2. unfold dp2. rewrite Hover. split; [|by apply calm_rollback_state].
    pose proof (calm_commit name manifest old changed marker dp Hun Hold Hm Hsmall Hlen Hcl) as Hc.
    rewrite (bool_decide_eq_false_2 (_ = bytes_digest changed)), andb_false_r in Hc by congruence.
    eexists. exact Hc.
Qed.

(** A store whose object for a state holds other bytes takes no snapshot of the state. *)
Lemma conflicting_object_blocks component schema_version revision payload torn ds dobj pa :
  validate_label "component" component = Ok () -> validate_label "schema version" schema_version = Ok () ->
  vec_len payload <= MAX_STATE_BYTES -> vec_len torn <= MAX_STATE_BYTES -> torn <> payload ->
  ds !! snapshot_lock = None -> ds !! "current.json" = None ->
  dobj !! object_name (bytes_digest payload) = Some (RegularFile torn) ->
  let p := {| store := Real ds; objects := Real dobj; parent := pa |} in
  snapshot (Some (RegularFile payload)) component schema_version revision (calm p) =
    (Err (Raised (invalid "content-addressed state object has conflicting bytes")), calm p).
Proof.
  intros Hc Hs Hl Htl Hne Hlock Hcur Hobj p. unfold snapshot.
  rewrite (run_bind _ _ _ _ _ (run_pure _ _ _ Hc)), (run_bind _ _ _ _ _ (run_pure _ _ _ Hs)).
  assert (read_source (Some (RegularFile payload)) = Ok payload) as Hr
    by (unfold read_source; by destruct (Z.ltb_spec MAX_STATE_BYTES (vec_len payload)); [lia|]).
  rewrite (run_bind _ _ _ _ _ (run_pure _ _ _ Hr)).
  rewrite (run_bind (in_store ensure_real_directory) _ (calm p) () (calm p) eq_refl).
  set (ds1 := <[snapshot_lock := RegularFile []]> ds).
  set (p1 := {| store := Real ds1; objects := Real dobj; parent := pa |}).
  unfold p. rewrite (calm_with_snapshot_lock _ ds (Real dobj) pa
    (Err (invalid "content-addressed state object has conflicting bytes")) p1 ds1 Hlock);
    [|fold ds1; fold p1|done|apply lookup_insert_eq].
  { unfold ds1, set_store. simpl. by rewrite delete_insert_id. }
  assert (in_store (inside (check_current component revision)) (calm p1) = (Ok (), calm p1)) as Hchk.
  { apply (run_zoom store set_store _ []), calm_inside. unfold check_current.
    assert (present "current.json" ds1 = false) as Hp by (unfold present, ds1; by rewrite lookup_insert_ne, Hcur).
    by rewrite (run_bind _ _ _ _ _ (run_read _ false (calm ds1) (f_equal Ok Hp))). }
  rewrite (run_bind _ _ _ _ _ Hchk).
  rewrite (run_bind (in_objects ensure_real_directory) _ (calm p1) () (calm p1) eq_refl).
  assert (in_objects (inside (store_object payload)) (calm p1) =
    (Err (Raised (invalid "content-addressed state object has conflicting bytes")), calm p1)) as Hso.
  { apply (run_zoom objects set_objects _ []), calm_inside. unfold store_object.
    assert (present (object_name (bytes_digest payload)) dobj = true) as Hp by (unfold present; by rewrite Hobj).
    rewrite (run_bind _ _ _ _ _ (run_read _ true (calm dobj) (f_equal Ok Hp))). cbv iota.
    rewrite (run_bind (read_regular_bounded _ _ _) _ _ _ _ (calm_read_bounded _ _ _ _ _ _ Hobj Htl)).
    by rewrite bool_decide_eq_false_2. }
  by rewrite (run_bind_Err _ _ _ _ _ Hso).
Qed.

(** A snapshot into an empty store that is stopped while it writes the object. *)
Lemma torn_snapshot component schema_version revision payload n pa :
  validate_label "component" component = Ok () -> validate_label "schema version" schema_version = Ok () ->
  vec_len payload <= MAX_STATE_BYTES ->
  snapshot (Some (RegularFile payload)) component schema_version revision
    (Build_Disk [Goes; Goes; Goes; Stops n] {| store := Real ∅; objects := Absent; parent := pa |}) =
  (Err Stopped, calm {| store := Real {[snapshot_lock := RegularFile []]};
    objects := Real (<[object_name (bytes_digest payload) := RegularFile (take n payload)]> ∅); parent := pa |}).
Proof.
  intros Hc Hs Hl. unfold snapshot.
  rewrite (run_bind _ _ _ _ _ (run_pure _ _ _ Hc)), (run_bind _ _ _ _ _ (run_pure _ _ _ Hs)).
  assert (read_source (Some (RegularFile payload)) = Ok payload) as Hr
    by (unfold read_source; by destruct (Z.ltb_spec MAX_STATE_BYTES (vec_len payload)); [lia|]).
  rewrite (run_bind _ _ _ _ _ (run_pure _ _ _ Hr)).
  set (p0 := {| store := Real ∅; objects := Absent; parent := pa |}).
  rewrite (run_bind (in_store ensure_real_directory) _ (Build_Disk [Goes; Goes; Goes; Stops n] p0) () _ eq_refl).
  unfold with_snapshot_lock.
  set (p1 := {| store := Real {[snapshot_lock := RegularFile []]}; objects := Absent; parent := pa |}).
  rewrite (run_bind (in_store (inside (acquire _ _))) _ (Build_Disk [Goes; Goes; Goes; Stops n] p0) ()
    (Build_Disk [Goes; Goes; Stops n] p1) eq_refl).
  unfold guarded, attempt, mbind at 1, op_bind at 1.
  rewrite (run_bind (in_store (inside (check_current _ _))) _ (Build_Disk [Goes; Goes; Stops n] p1) () _ eq_refl).
  set (p2 := {| store := Real {[snapshot_lock := RegularFile []]}; objects := Real ∅; parent := pa |}).
  rewrite (run_bind (in_objects ensure_real_directory) _ (Build_Disk [Goes; Goes; Stops n] p1) ()
    (Build_Disk [Goes; Stops n] p2) eq_refl).
  assert (in_objects (inside (store_object payload)) (Build_Disk [Goes; Stops n] p2) =
    (Err Stopped, calm (set_objects
       (Real (<[object_name (bytes_digest payload) := RegularFile (take n payload)]> ∅)) p2))) as Hso;
    [|by rewrite (run_bind_Err _ _ _ _ _ Hso)].
  apply (run_zoom objects set_objects _ [Goes; Stops n]), calm_inside.
  set (e := <[object_name (bytes_digest payload) := RegularFile []]> (∅ : Entries)).
  transitivity (Err (A := ()) Stopped, calm (<[object_name (bytes_digest payload) := RegularFile (take n payload)]> e));
    [reflexivity|]. unfold e. by rewrite insert_insert_eq.
Qed.

(** The object file is written in place: when the process stops in the middle of it,
    what it wrote stays under the digest of the whole, and from then on every snapshot of
    that state fails, once the leftover lock is removed as well as before. *)
Theorem torn_object_blocks_snapshots component schema_version revision payload n pa :
  validate_label "component" component = Ok () -> validate_label "schema version" schema_version = Ok () ->
  vec_len payload <= MAX_STATE_BYTES -> (n < length payload)%nat ->
  let '(r, s) := snapshot (Some (RegularFile payload)) component schema_version revision
    (Build_Disk [Goes; Goes; Goes; Stops n] {| store := Real ∅; objects := Absent; parent := pa |}) in
  r = Err Stopped /\
  exists ds, store (content s) = Real ds /\
  let p := set_store (Real (delete snapshot_lock ds)) (content s) in
  forall component' schema_version' revision',
    exists e, snapshot (Some (RegularFile payload)) component' schema_version' revision' (calm p)
              = (Err (Raised e), calm p).
Proof.
  intros Hc Hs Hl Hn.
  rewrite (torn_snapshot component schema_version revision payload n pa Hc Hs Hl).
  split; [done|]. exists {[snapshot_lock := RegularFile []]}. split; [done|].
  intros p component' schema_version' revision'.
  destruct (validate_label "component" component') as [[]|e] eqn:Hc'.
  2: { exists e. unfold snapshot, pure, lift, mbind, op_bind. by rewrite Hc'. }
  destruct (validate_label "schema version" schema_version') as [[]|e] eqn:Hs'.
  2: { exists e. unfold snapshot, pure, lift, mbind, op_bind. by rewrite Hc', Hs'. }
  eexists. apply (conflicting_object_blocks _ _ _ _ (take n payload)); [done..| | | | |].
  - unfold vec_len in *. rewrite length_take. lia.
  - intros Heq. apply (f_equal length) in Heq. rewrite length_take in Heq. lia.
  - apply lookup_delete_eq.
  - done.
  - apply lookup_insert_eq.
Qed.
End Restoring.

(** * Witnesses *)

Module StateWitness.
Import Toy.
#[local] Existing Instance ToyJson.text.
#[local] Instance serde_text : SerdeErrorText := "error".
#[local] Instance os_text : OsErrorText := {| not_found := "not found"; already_exists := "exists" |}.
#[local] Instance directory_text : DirectoryErrorText :=
  {| is_a_directory := "is a directory"; not_a_directory := "not a directory" |}.
#[local] Instance links : LinkTargets := fun _ => false.
Import ToyJson(num).

Definition manifest_tree (m : StateManifest.StateManifest) : json :=
  Array [String (StateManifest.version m); String (StateManifest.component m);
         String (StateManifest.schema_version m); num (StateManifest.revision m);
         String (StateManifest.payload_sha256 m); num (StateManifest.payload_bytes m)].
Definition manifest_of_tree (v : json) : option StateManifest.StateManifest :=
  match v with
  | Array [String v; String c; String sv; Number (PosInt r); String d; Number (PosInt n)] =>
      Some {| StateManifest.version := v; StateManifest.component := c; StateManifest.schema_version := sv;
              StateManifest.revision := r; StateManifest.payload_sha256 := d; StateManifest.payload_bytes := n |}
  | _ => None
  end.
Definition marker_tree (m : ActivationMarker.ActivationMarker) : json :=
  Array [String (ActivationMarker.version m); String (ActivationMarker.payload_sha256 m);
         num (ActivationMarker.payload_bytes m)].
Definition marker_of_tree (v : json) : option ActivationMarker.ActivationMarker :=
  match v with
  | Array [String v; String d; Number (PosInt n)] =>
      Some {| ActivationMarker.version := v; ActivationMarker.payload_sha256 := d;
              ActivationMarker.payload_bytes := n |}
  | _ => None
  end.

#[local] Instance tree_manifest : ToValue StateManifest.StateManifest := fun m => Some (manifest_tree m).
#[local] Instance read_manifest : FromSlice StateManifest.StateManifest := ToyJson.from_text manifest_of_tree.
#[local] Instance tree_marker : ToValue ActivationMarker.ActivationMarker := fun m => Some (marker_tree m).
#[local] Instance read_marker : FromSlice ActivationMarker.ActivationMarker := ToyJson.from_text marker_of_tree.
#[local] Instance manifest_laws : SerdeLaws StateManifest.StateManifest.
Proof. apply ToyJson.from_text_laws. by intros [] v [= <-]. Qed.
#[local] Instance marker_laws : SerdeLaws ActivationMarker.ActivationMarker.
Proof. apply ToyJson.from_text_laws. by intros [] v [= <-]. Qed.

Lemma label_bound label value : validate_label label value = Ok () -> str_len value <= 128.
Proof. unfold validate_label. destruct (_ || _) eqn:Hb; [done|]. split_bools. lia. Qed.

Lemma manifests_small m bytes :
  validate_manifest m = Ok () -> Canonical.encode m = Ok bytes -> vec_len bytes <= MAX_MANIFEST_BYTES.
Proof.
  unfold validate_manifest. destruct (_ || _) eqn:Hb; [done|]. intros Hl (v & [= <-] & ->)%encode_Ok.
  split_bools. inv_ok. destruct a. apply label_bound in Ha, Hl.
  unfold json_to_vec, ToyJson.text, vec_len. simpl. rewrite !length_app. simpl. rewrite !length_app. simpl.
  rewrite !length_app. simpl. rewrite ?length_app. simpl.
  pose proof (bytes_of_string_length (StateManifest.version m)).
  pose proof (bytes_of_string_length (StateManifest.component m)).
  pose proof (bytes_of_string_length (StateManifest.schema_version m)).
  pose proof (bytes_of_string_length (StateManifest.payload_sha256 m)).
  assert (str_len (StateManifest.version m) = 13) as Hv by (rewrite H; reflexivity).
  unfold MAX_MANIFEST_BYTES. lia.
Qed.

(** ** A counter that is kept, restored over another, and taken back *)

Definition payload : list Z := [1; 2; 3].
Definition old : list Z := [9; 9].
Definition destination : Entries := {["state" := RegularFile old; "notes" := RegularFile [4]]}.
Definition fresh : Places := {| store := Absent; objects := Absent; parent := Real destination |}.
Definition counter : StateManifest.StateManifest := manifest_of "counter" "v1" 7 payload.

Definition first_snapshot : result Fault SnapshotReceipt.SnapshotReceipt * Disk Places :=
  snapshot (Some (RegularFile payload)) "counter" "v1" 7 (calm fresh).
Definition kept : Places := content first_snapshot.2.

Example first_snapshot_ok : match first_snapshot.1 with Ok _ => True | Err _ => False end.
Proof. vm_compute. exact I. Qed.

(** Witness for [snapshot_crash_safe]. *)
Lemma snapshot_crash_safe_witness : stored counter payload kept.
Proof.
  pose proof (snapshot_crash_safe (Some (RegularFile payload)) "counter" "v1" 7 [] fresh manifests_small I I) as Ht.
  pose proof first_snapshot_ok as Hok. unfold kept, first_snapshot in *.
  destruct (snapshot _ _ _ _ _) as [[receipt|e] s]; [|destruct Hok].
  destruct Ht as (payload' & [= <-] & _ & Hs). exact Hs.
Defined.

Lemma kept_stored : stored counter payload kept.
Proof.
  split.
  - eexists. split; [vm_compute; reflexivity|]. eexists. split; [vm_compute; reflexivity|].
    split; [|vm_compute; reflexivity]. vm_compute. discriminate.
  - eexists. split; [vm_compute; reflexivity|]. split; [vm_compute; reflexivity|].
    split; [vm_compute; discriminate|]. split; vm_compute; reflexivity.
Qed.

Lemma kept_parent : parent kept = Real destination.
Proof. vm_compute. reflexivity. Qed.

(** A restoration that is stopped when the state before it has been moved away. *)
Definition stopped_run : result Fault RestoreReceipt.RestoreReceipt * Disk Places :=
  restore_with_failure (Some (Some "state")) NoFailure (Build_Disk (replicate 6 Goes ++ [Stops 0]) kept).

Lemma stopped_result : stopped_run.1 = Err Stopped.
Proof. vm_compute. reflexivity. Qed.

Example aside_when_stopped :
  match parent (content stopped_run.2) with
  | Real d => d !! "state" = None /\ d !! rollback_path "state" = Some (RegularFile old)
  | _ => False
  end.
Proof. vm_compute. repeat split. Qed.

(** Witness for [restore_keeps_state]. *)
Lemma restore_keeps_state_witness : exists dp',
  stopped_run.1 = Err Stopped /\ parent (content stopped_run.2) = Real dp' /\
  safe "state" payload destination dp'.
Proof.
  pose proof (restore_keeps_state counter payload "state" destination NoFailure
                (replicate 6 Goes ++ [Stops 0]) kept kept_stored kept_parent) as Ht.
  pose proof stopped_result as Hr. unfold stopped_run in *.
  destruct (restore_with_failure _ _ _) as [r s]. cbn [fst snd] in *. subst r.
  destruct Ht as (_ & dp' & Hp & Hs). exists dp'. split; [reflexivity|]. split; [exact Hp|exact Hs].
Defined.

Lemma destination_unused : unused "state" destination.
Proof. repeat split; vm_compute; reflexivity. Qed.

Lemma kept_unlocked : unlocked kept.
Proof. eexists. split; vm_compute; reflexivity. Qed.

Lemma counter_marker : exists marker, Canonical.encode (marker_of counter) = Ok marker /\ vec_len marker <= MAX_MANIFEST_BYTES.
Proof. eexists. split; [vm_compute; reflexivity|]. vm_compute. discriminate. Qed.

(** Witness for [restoration_undone_or_final]. *)
Lemma restoration_undone_or_final_witness : exists receipt dp1,
  restore (Some (Some "state")) (calm kept) = (Ok receipt, calm (set_parent (Real dp1) kept)) /\
  dp1 !! "state" = Some (RegularFile payload) /\
  rollback (Some (Some "state")) (calm (Real dp1)) = (Ok (), calm (Real destination)).
Proof.
  destruct counter_marker as (marker & Hm & Hl).
  assert (destination !! "state" = Some (RegularFile old)) as Ho by (vm_compute; reflexivity).
  assert (vec_len old <= MAX_STATE_BYTES) as Hlen by (vm_compute; discriminate).
  destruct (restoration_undone_or_final counter payload kept "state" destination old marker
    kept_stored kept_unlocked kept_parent destination_unused Ho Hlen Hm Hl) as (receipt & dp1 & H8 & H9 & H10 & _).
  exists receipt, dp1. split; [exact H8|]. split; [exact H9|exact H10].
Defined.

(** Witness for [torn_object_blocks_snapshots]. *)
Lemma torn_object_blocks_snapshots_witness :
  (snapshot (Some (RegularFile payload)) "counter" "v1" 7
    (Build_Disk [Goes; Goes; Goes; Stops 2] {| store := Real ∅; objects := Absent; parent := Real destination |})).1
  = Err Stopped.
Proof.
  assert (vec_len payload <= MAX_STATE_BYTES) as Hlen by (vm_compute; discriminate).
  pose proof (torn_object_blocks_snapshots "counter" "v1" 7 payload 2 (Real destination)
    eq_refl eq_refl Hlen ltac:(simpl; lia)) as Ht.
  destruct (snapshot _ _ _ _ _) as [r s]. exact (proj1 Ht).
Defined.
End StateWitness.
