(* ===== verification/Text.v ===== *)
(** Functions of the Rust standard library on strings, and the url crate, as
    src/stateful.rs uses them. *)
From stdpp Require Import pretty.
From S2P Require Import Prelude.

(** [char::is_control] of some character: U+0000 to U+001F and U+007F to U+009F, on the
    bytes of the UTF-8 text. *)
Fixpoint any_control (bytes : list Z) : bool :=
  match bytes with
  | [] => false
  | b :: rest =>
      (b <? 32) || (b =? 127)
      || ((b =? 194) && match rest with c :: _ => in_range 128 159 c | [] => false end)
      || any_control rest
  end.
Definition has_control (s : string) : bool := any_control (bytes_of_string s).

(** [str::strip_prefix] *)
Fixpoint strip_prefix (p s : string) : option string :=
  match p, s with
  | String.EmptyString, _ => Some s
  | String.String c p, String.String d s => if Ascii.eqb c d then strip_prefix p s else None
  | _, _ => None
  end.

(** [str::ends_with] of a character, [str::contains] of a string. *)
Definition ends_with (b : Z) (s : string) : bool :=
  match last (bytes_of_string s) with Some c => c =? b | None => false end.
(** [Path::join] of a relative path. *)
Definition path_join (root name : string) : string :=
  if str_is_empty root || ends_with 47 root then root +:+ name else root +:+ "/" +:+ name.
Fixpoint contains_str (p s : string) : bool :=
  String.prefix p s || match s with String.String _ s => contains_str p s | String.EmptyString => false end.

(** [str::rsplit_once] of a character *)
Fixpoint rsplit_once (c : ascii) (s : string) : option (string * string) :=
  match s with
  | String.EmptyString => None
  | String.String d s =>
      match rsplit_once c s with
      | Some (a, b) => Some (String.String d a, b)
      | None => if Ascii.eqb c d then Some (String.EmptyString, s) else None
      end
  end.

(** [str::split_ascii_whitespace] *)
Definition is_ascii_whitespace (b : Z) : bool := contains b [32; 9; 10; 12; 13].
Fixpoint split_blank (word : list Z) (bytes : list Z) : list (list Z) :=
  match bytes with
  | [] => [word]
  | b :: bytes =>
      if is_ascii_whitespace b then word :: split_blank [] bytes else split_blank (word ++ [b]) bytes
  end.
Definition split_ascii_whitespace (s : string) : list string :=
  string_of_bytes <$> filter (fun w => w <> []) (split_blank [] (bytes_of_string s)).

(** [str::replace] of a pattern that is not empty; [skip] bytes of a match are still to
    pass. *)
Fixpoint replace_from (skip : nat) (from to s : string) : string :=
  match s with
  | String.EmptyString => String.EmptyString
  | String.String c rest =>
      match skip with
      | S skip => replace_from skip from to rest
      | O => if String.prefix from s then to +:+ replace_from (String.length from - 1) from to rest
             else String.String c (replace_from 0 from to rest)
      end
  end.
Definition replace (from to s : string) : string := replace_from 0 from to s.

(** [slice::join] of strings *)
Fixpoint join (sep : string) (l : list string) : string :=
  match l with
  | [] => String.EmptyString
  | [s] => s
  | s :: l => s +:+ sep +:+ join sep l
  end.

(** [str::eq_ignore_ascii_case] *)
Definition to_ascii_lowercase (b : Z) : Z := if is_ascii_uppercase b then b + 32 else b.
Definition eq_ignore_ascii_case (s t : string) : bool :=
  bool_decide (to_ascii_lowercase <$> bytes_of_string s = to_ascii_lowercase <$> bytes_of_string t).

(** [str::parse::<u64>]: decimal digits after an optional plus sign. *)
Definition parse_u64 (s : string) : option Z :=
  let digits := match bytes_of_string s with 43 :: rest => rest | bytes => bytes end in
  if negb (bool_decide (digits = [])) && all is_ascii_digit digits then
    let value := foldl (fun acc b => acc * 10 + (b - 48)) 0 digits in
    if value <=? u64_max then Some value else None
  else None.

(** [str::parse::<i64>]: decimal digits after an optional sign. *)
Definition parse_i64 (s : string) : option Z :=
  let '(negative, digits) := match bytes_of_string s with
                             | 43 :: rest => (false, rest)
                             | 45 :: rest => (true, rest)
                             | bytes => (false, bytes)
                             end in
  if negb (bool_decide (digits = [])) && all is_ascii_digit digits then
    let value := foldl (fun acc b => acc * 10 + (b - 48)) 0 digits in
    let value := if negative : bool then - value else value in
    if (i64_min <=? value) && (value <=? i64_max) then Some value else None
  else None.

(** [char::is_whitespace], by the bytes of the characters of one, two and three bytes. *)
Definition white1 (a : Z) : bool := in_range 9 13 a || (a =? 32).
Definition white2 (a b : Z) : bool := (a =? 194) && contains b [133; 160].
Definition white3 (a b c : Z) : bool :=
  ((a =? 225) && (b =? 154) && (c =? 128))
  || ((a =? 226) && (b =? 128) && (in_range 128 138 c || contains c [168; 169; 175]))
  || ((a =? 226) && (b =? 129) && (c =? 159))
  || ((a =? 227) && (b =? 128) && (c =? 128)).

(** [str::trim]; [trim_tail] takes the bytes in reverse. *)
Fixpoint trim_head (bytes : list Z) : list Z :=
  match bytes with
  | a :: rest =>
      if white1 a then trim_head rest else
      match rest with
      | b :: rest2 =>
          if white2 a b then trim_head rest2 else
          match rest2 with
          | c :: rest3 => if white3 a b c then trim_head rest3 else bytes
          | [] => bytes
          end
      | [] => bytes
      end
  | [] => []
  end.
Fixpoint trim_tail (bytes : list Z) : list Z :=
  match bytes with
  | a :: rest =>
      if white1 a then trim_tail rest else
      match rest with
      | b :: rest2 =>
          if white2 b a then trim_tail rest2 else
          match rest2 with
          | c :: rest3 => if white3 c b a then trim_tail rest3 else bytes
          | [] => bytes
          end
      | [] => bytes
      end
  | [] => []
  end.
Definition trim (s : string) : string :=
  string_of_bytes (rev (trim_tail (rev (trim_head (bytes_of_string s))))).

(** [String::from_utf8_lossy]: each longest start of a character that is none becomes
    U+FFFD. *)
Definition replacement : list Z := [239; 191; 189].
Definition second_of_three (b c : Z) : bool :=
  if b =? 224 then in_range 160 191 c else if b =? 237 then in_range 128 159 c else utf8_cont c.
Definition second_of_four (b c : Z) : bool :=
  if b =? 240 then in_range 144 191 c else if b =? 244 then in_range 128 143 c else utf8_cont c.
Fixpoint lossy (bytes : list Z) : list Z :=
  match bytes with
  | [] => []
  | b :: r =>
      if b <? 128 then b :: lossy r
      else if in_range 194 223 b then
        match r with
        | c :: r1 => if utf8_cont c then b :: c :: lossy r1 else replacement ++ lossy r
        | [] => replacement
        end
      else if in_range 224 239 b then
        match r with
        | c :: r1 =>
            if second_of_three b c then
              match r1 with
              | d :: r2 => if utf8_cont d then b :: c :: d :: lossy r2 else replacement ++ lossy r1
              | [] => replacement
              end
            else replacement ++ lossy r
        | [] => replacement
        end
      else if in_range 240 244 b then
        match r with
        | c :: r1 =>
            if second_of_four b c then
              match r1 with
              | d :: r2 =>
                  if utf8_cont d then
                    match r2 with
                    | e :: r3 => if utf8_cont e then b :: c :: d :: e :: lossy r3 else replacement ++ lossy r2
                    | [] => replacement
                    end
                  else replacement ++ lossy r1
              | [] => replacement
              end
            else replacement ++ lossy r
        | [] => replacement
        end
      else replacement ++ lossy r
  end.
Definition from_utf8_lossy (bytes : list Z) : string := string_of_bytes (lossy bytes).

(** [str::lines] *)
Definition strip_return (line : list Z) : list Z :=
  match rev line with 13 :: rest => rev rest | _ => line end.
Fixpoint lines_from (line bytes : list Z) : list (list Z) :=
  match bytes with
  | [] => if bool_decide (line = []) then [] else [line]
  | b :: rest => if b =? 10 then strip_return line :: lines_from [] rest else lines_from (line ++ [b]) rest
  end.
Definition lines (s : string) : list string := string_of_bytes <$> lines_from [] (bytes_of_string s).

(** [str::rsplit_once] and [str::ends_with] of a string that is not empty *)
Fixpoint rsplit_once_str (p s : string) : option (string * string) :=
  match s with
  | String.EmptyString => None
  | String.String d rest =>
      match rsplit_once_str p rest with
      | Some (a, b) => Some (String.String d a, b)
      | None => match strip_prefix p s with Some b => Some (String.EmptyString, b) | None => None end
      end
  end.
Definition ends_with_str (p s : string) : bool :=
  bool_decide (drop (String.length s - String.length p) (bytes_of_string s) = bytes_of_string p).

(** [format!("{:.3}", f64::from(n) / 1_000.0)]: the quotient is the [f64] nearest to
    n / 1000, which is what rounding it to three decimals gives back. *)
Definition thousandths (n : Z) : string :=
  let digits := pretty (n `mod` 1000) in
  pretty (n / 1000) +:+ "." +:+
  string_of_bytes (replicate (3 - String.length digits) 48) +:+ digits.

(** ** [IpAddr::from_str]

    The parser of [std::net]: a step takes what is left of the text and gives what it
    read and the rest, or nothing, and then nothing is consumed. *)
Module IpAddr.
Definition parser (A : Type) : Type := list Z -> option (A * list Z).

Definition digit_value (radix b : Z) : option Z :=
  let value := if is_ascii_digit b then Some (b - 48)
               else if in_range 97 102 b then Some (b - 87)
               else if in_range 65 70 b then Some (b - 55) else None in
  value ← value; if value <? radix then Some value else None.

Fixpoint digits_from (radix : Z) (bs : list Z) : list Z :=
  match bs with
  | [] => []
  | b :: bs => match digit_value radix b with Some v => v :: digits_from radix bs | None => [] end
  end.

(** [read_number]: all the digits there are, at most [max_digits] of them, a value of at
    most [max], and no leading zero unless allowed. *)
Definition read_number (radix : Z) (max_digits : nat) (allow_zero_prefix : bool) (max : Z) : parser Z := fun bs =>
  let digits := digits_from radix bs in
  let value := foldl (fun acc d => acc * radix + d) 0 digits in
  let has_leading_zero := match digits with 0 :: _ => true | _ => false end in
  if bool_decide (digits = []) || (Z.of_nat max_digits <? vec_len digits) || (max <? value)
     || (negb allow_zero_prefix && has_leading_zero && (1 <? vec_len digits))
  then None else Some (value, drop (length digits) bs).

Definition read_given_char (c : Z) : parser () := fun bs =>
  match bs with b :: bs => if b =? c then Some ((), bs) else None | [] => None end.

(** [read_separator]: the separator first, except before the first part. *)
Definition read_separator {A} (sep : Z) (index : nat) (inner : parser A) : parser A := fun bs =>
  match index with
  | O => inner bs
  | S _ => '(_, bs) ← read_given_char sep bs; inner bs
  end.

Fixpoint read_octets (n i : nat) : parser () := fun bs =>
  match n with
  | O => Some ((), bs)
  | S n => '(_, bs) ← read_separator 46 i (read_number 10 3 false 255) bs; read_octets n (S i) bs
  end.
Definition read_ipv4_addr : parser () := read_octets 4 0.

(** [read_groups] for [n] groups from index [i] of [limit]: how many it filled, and
    whether the last were an embedded IPv4 address. *)
Fixpoint read_groups (n i limit : nat) (bs : list Z) : (nat * bool) * list Z :=
  match n with
  | O => ((limit, false), bs)
  | S n =>
      match (if (i <? limit - 1)%nat then read_separator 58 i read_ipv4_addr bs else None) with
      | Some (_, bs) => (((i + 2)%nat, true), bs)
      | None =>
          match read_separator 58 i (read_number 16 4 true 65535) bs with
          | Some (_, bs) => read_groups n (S i) limit bs
          | None => ((i, false), bs)
          end
      end
  end.

Definition read_ipv6_addr : parser () := fun bs =>
  let '((head_size, head_ipv4), bs) := read_groups 8 0 8 bs in
  if (head_size =? 8)%nat then Some ((), bs)
  else if head_ipv4 then None
  else
    '(_, bs) ← read_given_char 58 bs;
    '(_, bs) ← read_given_char 58 bs;
    let limit := (8 - (head_size + 1))%nat in
    Some ((), (read_groups limit 0 limit bs).2).

(** Nothing is left at the end. *)
Definition parses (s : string) : bool :=
  let bs := bytes_of_string s in
  match (match read_ipv4_addr bs with Some r => Some r | None => read_ipv6_addr bs end) with
  | Some (_, []) => true
  | _ => false
  end.

Example parses_addresses :
  parses <$> ["127.0.0.1"; "0.0.0.0"; "01.2.3.4"; "1.2.3"; "256.1.1.1"; "::1"; "::"; "1:2:3:4:5:6:7:8";
              "1::8:9"; "::ffff:1.2.3.4"; "1:2:3:4:5:6:7"; "db.example"; "1::2::3"; "fe80::1%eth0"]
  = [true; true; false; false; false; true; true; true; true; true; false; false; false; false].
Proof. vm_compute. reflexivity. Qed.
End IpAddr.

(** ** The url crate *)

Inductive Host := Domain (host : string) | Address (text : string).

Class UrlLib := {
  Url : Type;
  url_parse : string -> option Url;
  url_scheme : Url -> string;
  url_username : Url -> string;
  url_password : Url -> option string;
  url_fragment : Url -> option string;
  url_query : Url -> option string;
  url_query_pairs : Url -> list (string * string);
  url_host : Url -> option Host;
  url_port : Url -> option Z;
}.

(** ** Facts *)

Lemma strip_prefix_app p s : strip_prefix p (p +:+ s) = Some s.
Proof. induction p as [|c p IH]; [done|]. simpl. by rewrite Ascii.eqb_refl. Qed.

Lemma strip_prefix_Some p s t : strip_prefix p s = Some t <-> s = p +:+ t.
Proof.
  split; [|intros ->; apply strip_prefix_app]. revert s.
  induction p as [|c p IH]; intros s; simpl; [by intros [= ->]|].
  destruct s as [|d s]; [done|]. destruct (Ascii.eqb_spec c d) as [->|]; [|done]. intros Hs.
  change (String.String d s = String.String d (p +:+ t)). f_equal. by apply IH.
Qed.

Lemma prefix_of_app p x : String.prefix p (p +:+ x) = true.
Proof.
  induction p as [|c p IH]; [by destruct x|].
  change (String.prefix (String.String c p) (String.String c (p +:+ x)) = true). cbn [String.prefix].
  by destruct (ascii_dec c c).
Qed.

Lemma app_inj_l (p x y : string) : p +:+ x = p +:+ y -> x = y.
Proof.
  intros Heq. apply bytes_of_string_inj. apply (f_equal bytes_of_string) in Heq.
  rewrite !string_app_bytes in Heq. by apply app_inv_head in Heq.
Qed.

(** *** Decimal digits *)

(** The number that decimal digits say, after [acc]. *)
Definition digits_value (acc : Z) (bs : list Z) : Z := foldl (fun acc b => acc * 10 + (b - 48)) acc bs.

Definition is_digit_byte (b : Z) : Prop := 48 <= b < 58.

Lemma pretty_char_digit x : (x < 10)%N -> byte_of_ascii (pretty_N_char x) = 48 + Z.of_N x.
Proof.
  intros Hx. destruct (decide (x ∈ [0; 1; 2; 3; 4; 5; 6; 7; 8; 9]%N)) as [Hin|Hout].
  - repeat (apply elem_of_cons in Hin as [->|Hin]; [reflexivity|]). by apply elem_of_nil in Hin.
  - exfalso. apply Hout. rewrite !elem_of_cons. lia.
Qed.

Lemma pretty_go_digits x : forall s,
  Forall is_digit_byte (bytes_of_string s) ->
  Forall is_digit_byte (bytes_of_string (pretty_N_go x s)) /\
  digits_value 0 (bytes_of_string (pretty_N_go x s)) = digits_value (Z.of_N x) (bytes_of_string s).
Proof.
  induction (N.lt_wf_0 x) as [x _ IH]; intros s Hs. destruct (decide (x = 0)%N) as [->|Hx].
  - by rewrite pretty_N_go_0.
  - rewrite pretty_N_go_step by lia.
    pose proof (pretty_char_digit (x `mod` 10) ltac:(apply N.mod_lt; lia)) as Hc.
    destruct (IH (x `div` 10)%N ltac:(apply N.div_lt; lia)
                (String.String (pretty_N_char (x `mod` 10)) s)) as [Hd Hv].
    { cbn [bytes_of_string]. rewrite Hc. constructor; [|done]. unfold is_digit_byte.
      pose proof (N.mod_lt x 10 ltac:(lia)) as Hlt. revert Hlt. generalize (x `mod` 10)%N. lia. }
    split; [done|]. rewrite Hv. cbn [bytes_of_string]. rewrite Hc. unfold digits_value. cbn [foldl]. f_equal.
    rewrite N2Z.inj_div, N2Z.inj_mod. clear. zlia.
Qed.

Lemma pretty_digits (n : N) :
  Forall is_digit_byte (bytes_of_string (pretty n)) /\ digits_value 0 (bytes_of_string (pretty n)) = Z.of_N n.
Proof.
  unfold pretty, pretty_N. case_decide as Hn.
  - subst. split; [|done].
    change (Forall is_digit_byte [48]). constructor; [unfold is_digit_byte; lia|constructor].
  - destruct (pretty_go_digits n "" ltac:(constructor)) as [Hd Hv]. split; [done|]. rewrite Hv. cbn. lia.
Qed.

Lemma pretty_starts_digit (n : N) : exists b bs, bytes_of_string (pretty n) = b :: bs /\ is_digit_byte b.
Proof.
  pose proof (proj1 (pretty_digits n)) as Hd. destruct (bytes_of_string (pretty n)) as [|b bs] eqn:E.
  - exfalso. destruct (pretty n) as [|c s] eqn:E'; [|done]. revert E'. unfold pretty, pretty_N.
    case_decide; [done|]. intros E'.
    assert (forall x s, s <> "" -> pretty_N_go x s <> "") as Hne.
    { intros x. induction (N.lt_wf_0 x) as [x _ IH]; intros s Hs. destruct (decide (x = 0)%N) as [->|Hx].
      - by rewrite pretty_N_go_0.
      - rewrite pretty_N_go_step by lia. by apply IH; [apply N.div_lt; lia|]. }
    rewrite pretty_N_go_step in E' by lia. by apply Hne in E'.
  - exists b, bs. split; [done|]. by inversion Hd.
Qed.

(** *** ASCII *)

Lemma ascii_utf8 bs : Forall (fun b => b < 128) bs -> utf8_valid bs = true.
Proof.
  induction 1 as [|b bs Hb _ IH]; [done|]. cbn [utf8_valid]. by rewrite (proj2 (Z.ltb_lt _ _) Hb).
Qed.

(** Visible characters are not trimmed, the end of their line is. *)
Lemma graphic_not_white a b c : is_ascii_graphic a = true ->
  white1 a = false /\ white2 a b = false /\ white2 b a = false /\ white3 a b c = false /\ white3 c b a = false.
Proof.
  unfold is_ascii_graphic, white1, white2, white3, in_range. intros Ha.
  assert (forall l, Forall (fun x => 127 < x) l -> contains a l = false) as Hc.
  { intros l Hl. apply contains_false. intros Hin. pose proof (proj1 (Forall_forall _ _) Hl a Hin). simpl in *. lia. }
  rewrite !(Hc _) by (repeat (apply Forall_cons; split; [lia|]); constructor). split_and!; lia.
Qed.

Lemma trim_head_graphic a bs : is_ascii_graphic a = true -> trim_head (a :: bs) = a :: bs /\ trim_tail (a :: bs) = a :: bs.
Proof.
  intros Ha. cbn [trim_head trim_tail].
  destruct bs as [|b [|c bs] ];
    [destruct (graphic_not_white a 0 0 Ha) as (-> & _)|destruct (graphic_not_white a b 0 Ha) as (-> & -> & -> & _)
    |destruct (graphic_not_white a b c Ha) as (-> & -> & -> & -> & ->)]; done.
Qed.

Lemma trim_line s :
  Forall (fun b => is_ascii_graphic b = true) (bytes_of_string s) ->
  trim (string_of_bytes (bytes_of_string s ++ [10])) = s.
Proof.
  intros Hg. unfold trim. rewrite bytes_of_string_of_bytes.
  2:{ apply Forall_app. split; [apply bytes_of_string_byte|]. by repeat constructor. }
  rewrite <- (string_of_bytes_of_string s) at 2. f_equal. revert Hg. generalize (bytes_of_string s). intros bs Hg.
  assert (trim_head (bs ++ [10]) = match bs with [] => [] | _ => bs ++ [10] end) as ->.
  { destruct Hg as [|a bs Ha Hg]; [done|]. by apply trim_head_graphic. }
  destruct bs as [|a bs]; [done|]. rewrite rev_app_distr. cbn [rev app]. change (trim_tail (10 :: ?l)) with (trim_tail l).
  assert (Forall (fun b => is_ascii_graphic b = true) (rev bs ++ [a])) as Hr.
  { change (rev bs ++ [a]) with (rev (a :: bs)). by apply Forall_rev. }
  assert (rev (rev bs ++ [a]) = a :: bs) as Hrr by (change (rev (rev (a :: bs)) = a :: bs); apply rev_involutive).
  destruct (rev bs ++ [a]) as [|z l]; [by rewrite <- Hrr|]. apply Forall_cons in Hr as [Hz _].
  by rewrite (proj2 (trim_head_graphic z l Hz)).
Qed.
