(* ===== verification/EvidencePlane.v ===== *)
(** src/evidence_plane.rs: sealed evidence, signed store bundles, the retrieval of a quorum
    of them from independent stores, and the directory the evidence is written to.

    What lies outside is an argument: the world each attempt of a fetch meets ([World]:
    files, environment, the HTTPS client), the files the configuration and the keys are
    read from, random bytes.  Zeroing keys and file modes other than the ones read are not
    modelled.  The workers of a batch share nothing and are joined in order. *)
From stdpp Require Import pretty.
From S2P Require Import Prelude Effects FileTree External Json Core Model Canonical Disk.
From S2P Require Fragments Operations.

#[local] Existing Instance Fragments.Envelope.Envelope_eq_dec.

Definition MAX_CONFIG_BYTES : Z := 262144.
Definition MAX_BUNDLE_BYTES : Z := 16777216.
Definition MAX_STORES : Z := 32.
Definition MAX_PARALLEL : Z := 8.

Module RecoveryKeyFile.
Record RecoveryKeyFile := { version : string; key_id : string; key_hex : string; created_at : string }.
End RecoveryKeyFile.

Module SealedEvidence.
Record SealedEvidence := {
  version : string;
  key_id : string;
  nonce_hex : string;
  ciphertext_hex : string;
}.
End SealedEvidence.

Module ProtectedEvidence.
Record ProtectedEvidence := {
  created_at : string;
  delete_after : string;
  envelope : Fragments.Envelope.Envelope;
}.
End ProtectedEvidence.

Module StoreBundle.
Record StoreBundle := {
  version : string;
  store_id : string;
  failure_domain : string;
  generation : Z;
  evidence : list SealedEvidence.SealedEvidence;
  signature : string;
}.

Definition with_signature (s : string) (b : StoreBundle) : StoreBundle :=
  {| version := version b; store_id := store_id b; failure_domain := failure_domain b;
     generation := generation b; evidence := evidence b; signature := s |}.
End StoreBundle.

Module UnsignedBundle.
Record UnsignedBundle := {
  version : string;
  store_id : string;
  failure_domain : string;
  generation : Z;
  evidence : list SealedEvidence.SealedEvidence;
}.
End UnsignedBundle.

(** [StoreBundle::unsigned] *)
Definition unsigned (self : StoreBundle.StoreBundle) : UnsignedBundle.UnsignedBundle :=
  {| UnsignedBundle.version := StoreBundle.version self;
     UnsignedBundle.store_id := StoreBundle.store_id self;
     UnsignedBundle.failure_domain := StoreBundle.failure_domain self;
     UnsignedBundle.generation := StoreBundle.generation self;
     UnsignedBundle.evidence := StoreBundle.evidence self |}.

Inductive StoreTransport :=
| LocalDirectory (path : string)
| HttpsBundle (url : string) (bearer_token_env : option string).

Module StoreConfig.
Record StoreConfig := {
  store_id : string;
  failure_domain : string;
  public_key : string;
  minimum_generation : Z;
  transport : StoreTransport;
}.
End StoreConfig.

Module EvidencePlaneConfig.
Record EvidencePlaneConfig := {
  component : string;
  interface_version : string;
  required_fragment_domains : Z;
  required_stores : Z;
  required_copies : Z;
  max_parallel : Z;
  timeout_ms : Z;
  retry_budget : Z;
  verification_time : string;
  stores : list StoreConfig.StoreConfig;
  trusted_issuers : btree_map string Fragments.IssuerPolicy;
  recovery_keys : btree_map string string;
}.
End EvidencePlaneConfig.

Module StoreProvenance.
Record StoreProvenance := {
  store_id : string;
  failure_domain : string;
  generation : Z;
  bundle_digest : string;
  evidence_count : Z;
}.
End StoreProvenance.

Module EvidencePlaneReceipt.
Record EvidencePlaneReceipt := {
  successful_stores : Z;
  failed_stores : list string;
  provenance : list StoreProvenance.StoreProvenance;
  fragment_domains : list string;
  envelope_count : Z;
  verification_audit : list Fragments.VerificationAudit;
}.
End EvidencePlaneReceipt.

Module RetrievedEvidence.
Record RetrievedEvidence := {
  receipt : EvidencePlaneReceipt.EvidencePlaneReceipt;
  envelopes : list Fragments.Envelope.Envelope;
}.
End RetrievedEvidence.

(** ** Checks *)

Definition validate_id (label value : string) : result Error () :=
  if str_is_empty value || (128 <? str_len value)
     || negb (all (fun byte => is_ascii_alphanumeric byte || contains byte (bytes_of_string "._:/-"))
                  (bytes_of_string value))
  then Err (InvalidRegistry (label +:+ " is invalid"))
  else Ok ().

Definition validate_env_name (value : string) : result Error () :=
  if str_is_empty value || (128 <? str_len value)
     || negb (all (fun byte => is_ascii_uppercase byte || is_ascii_digit byte || (byte =? 95))
                  (bytes_of_string value))
  then Err (InvalidRegistry "bearer-token environment name is invalid")
  else Ok ().

(** [entry(k).or_insert(v)] *)
Definition or_insert {V} (k : string) (v : V) (m : btree_map string V) : btree_map string V :=
  if bt_mem k m then m else bt_insert k v m.

Section EvidencePlane.
Context `{OsErrorText, SerdeErrorText, JsonText, Sha256, Hex, Hmac, Ed25519, Jiff, Aead}.
Context `{!ToValue FragmentContent.FragmentContent, !ToValue Fragments.UnsignedEnvelope}.
Context `{!ToValue Fragments.Envelope.Envelope}.
Context `{!ToValue RecoveryKeyFile.RecoveryKeyFile, !FromSlice RecoveryKeyFile.RecoveryKeyFile}.
Context `{!ToValue ProtectedEvidence.ProtectedEvidence, !FromSlice ProtectedEvidence.ProtectedEvidence}.
Context `{!ToValue UnsignedBundle.UnsignedBundle, !ToValue StoreBundle.StoreBundle}.
Context `{!FromSlice StoreBundle.StoreBundle, !FromSlice EvidencePlaneConfig.EvidencePlaneConfig}.

Definition parse_time (value label : string) : result Error Z :=
  ok_or (ts_strptime value) (InvalidRegistry (label +:+ " is invalid")).

Definition validate_key_file (key : RecoveryKeyFile.RecoveryKeyFile) : result Error () :=
  if negb (bool_decide (RecoveryKeyFile.version key = "evidence-key-v1"))
     || Fragments.not_32_hex (RecoveryKeyFile.key_hex key)
  then Err (InvalidRegistry "recovery key file is invalid") else
  _ ← validate_id "recovery key id" (RecoveryKeyFile.key_id key);
  _ ← parse_time (RecoveryKeyFile.created_at key) "recovery key created_at";
  Ok ().

(** The key of [cipher]; [new_from_slice] takes 32 bytes. *)
Definition cipher (key : RecoveryKeyFile.RecoveryKeyFile) : result Error (list Z) :=
  bytes ← ok_or (hex_decode (RecoveryKeyFile.key_hex key)) (InvalidRegistry "recovery key is not hex");
  if vec_len bytes =? 32 then Ok bytes else Err (InvalidRegistry "recovery key length is invalid").

(** The body of the loop of [validate_config] over the stores. *)
Definition validate_store (store : StoreConfig.StoreConfig) (seen : gset string * gset string)
  : result Error (gset string * gset string) :=
  let '(stores, domains) := seen in
  _ ← validate_id "store id" (StoreConfig.store_id store);
  _ ← validate_id "store failure domain" (StoreConfig.failure_domain store);
  if bool_decide (StoreConfig.store_id store ∈ stores) || bool_decide (StoreConfig.failure_domain store ∈ domains)
  then Err (InvalidRegistry "store ids and administrative failure domains must be unique") else
  if Fragments.not_32_hex (StoreConfig.public_key store)
  then Err (InvalidRegistry "store public key must be 32-byte hex") else
  Ok ({[StoreConfig.store_id store]} ∪ stores, {[StoreConfig.failure_domain store]} ∪ domains).

Definition validate_trusted (policy : Fragments.IssuerPolicy) : result Error () :=
  _ ← Fragments.validate_issuer_policy policy;
  match policy with
  | Fragments.LegacyHmac _ => Err (InvalidRegistry "production evidence stores require Ed25519 issuer policies")
  | Fragments.Ed25519Policy _ => Ok ()
  end.

Definition validate_config (config : EvidencePlaneConfig.EvidencePlaneConfig) : result Error () :=
  let stores := EvidencePlaneConfig.stores config in
  let within lo hi n := (lo <=? n) && (n <=? hi) in
  _ ← validate_id "component" (EvidencePlaneConfig.component config);
  _ ← validate_id "interface version" (EvidencePlaneConfig.interface_version config);
  _ ← parse_time (EvidencePlaneConfig.verification_time config) "verification_time";
  if bool_decide (stores = []) || (MAX_STORES <? vec_len stores)
     || (EvidencePlaneConfig.required_stores config =? 0)
     || (vec_len stores <? EvidencePlaneConfig.required_stores config)
     || (EvidencePlaneConfig.required_copies config =? 0)
     || (EvidencePlaneConfig.required_stores config <? EvidencePlaneConfig.required_copies config)
     || negb (within 1 MAX_PARALLEL (EvidencePlaneConfig.max_parallel config))
     || negb (within 1 60000 (EvidencePlaneConfig.timeout_ms config))
     || (3 <? EvidencePlaneConfig.retry_budget config)
     || (EvidencePlaneConfig.required_fragment_domains config =? 0)
  then Err (InvalidRegistry "evidence-plane bounds are invalid") else
  _ ← for_each stores (∅, ∅) validate_store;
  for_each (EvidencePlaneConfig.trusted_issuers config).*2 () (fun policy _ => validate_trusted policy).

(** ** Keys *)

Definition not_bounded (label : string) : Error :=
  InvalidEvidence (label +:+ " must be a bounded regular file").

Definition read_regular_bounded (file : option Node) (max : Z) (label : string) : result Error (list Z) :=
  match file with
  | None => Err (Io not_found)
  | Some (RegularFile bytes) => if max <? vec_len bytes then Err (not_bounded label) else Ok bytes
  | Some _ => Err (not_bounded label)
  end.

(** A secret is a file with its permission bits. *)
Definition Secret : Type := option Node * Z.

Definition read_secret (file : Secret) : result Error (list Z) :=
  bytes ← read_regular_bounded file.1 4096 "recovery key";
  if negb (Z.land file.2 63 =? 0)
  then Err (InvalidRegistry "recovery key permissions must exclude group and other")
  else Ok bytes.

Definition read_recovery_key (file : Secret) : result Error RecoveryKeyFile.RecoveryKeyFile :=
  bytes ← read_secret file;
  key ← ok_or (from_slice (T := RecoveryKeyFile.RecoveryKeyFile) bytes)
              (InvalidRegistry ("recovery key file is invalid: " +:+ serde_error_text));
  _ ← validate_key_file key;
  Ok key.

(** What [create_recovery_key] writes, for the 32 bytes it draws. *)
Definition new_recovery_key (random : list Z) (key_id created_at : string)
  : result Error RecoveryKeyFile.RecoveryKeyFile :=
  _ ← validate_id "recovery key id" key_id;
  _ ← parse_time created_at "recovery key created_at";
  Ok {| RecoveryKeyFile.version := "evidence-key-v1"; RecoveryKeyFile.key_id := key_id;
        RecoveryKeyFile.key_hex := hex_encode random; RecoveryKeyFile.created_at := created_at |}.

Definition create_recovery_key (path : string) (random : list Z) (key_id created_at : string)
  : prog Entries () :=
  file ← pure (new_recovery_key random key_id created_at);
  bytes ← pure (encode file);
  Disk.write_new_synced path bytes.

Definition load_keys (read : string -> Secret) (paths : btree_map string string)
  : result Error (btree_map string RecoveryKeyFile.RecoveryKeyFile) :=
  for_each paths [] (fun entry keys =>
    key ← read_recovery_key (read entry.2);
    if negb (bool_decide (entry.1 = RecoveryKeyFile.key_id key))
    then Err (InvalidRegistry "recovery key id does not match its path mapping")
    else Ok (bt_insert entry.1 key keys)).

(** ** Seals *)

Definition seal_aad (key : RecoveryKeyFile.RecoveryKeyFile) : list Z :=
  bytes_of_string ("evidence-seal-v1:" +:+ RecoveryKeyFile.key_id key).

(** [nonce] is the 24 bytes that [seal] draws. *)
Definition seal (nonce : list Z) (envelope : Fragments.Envelope.Envelope)
  (key : RecoveryKeyFile.RecoveryKeyFile) (created_at delete_after : string)
  : result Error SealedEvidence.SealedEvidence :=
  _ ← validate_key_file key;
  created ← parse_time created_at "evidence created_at";
  delete ← parse_time delete_after "evidence delete_after";
  if delete <=? created
  then Err (InvalidEvidence "evidence deletion time must follow creation") else
  secret ← cipher key;
  msg ← encode {| ProtectedEvidence.created_at := created_at; ProtectedEvidence.delete_after := delete_after;
                  ProtectedEvidence.envelope := envelope |};
  ciphertext ← ok_or (aead_encrypt secret nonce (seal_aad key) msg)
                     (InvalidEvidence "evidence encryption failed");
  Ok {| SealedEvidence.version := "evidence-seal-v1"; SealedEvidence.key_id := RecoveryKeyFile.key_id key;
        SealedEvidence.nonce_hex := hex_encode nonce; SealedEvidence.ciphertext_hex := hex_encode ciphertext |}.

Definition unseal (sealed : SealedEvidence.SealedEvidence)
  (keys : btree_map string RecoveryKeyFile.RecoveryKeyFile) (verification_time : string)
  : result Error Fragments.Envelope.Envelope :=
  if negb (bool_decide (SealedEvidence.version sealed = "evidence-seal-v1"))
  then Err (InvalidEvidence "evidence seal version is invalid") else
  key ← ok_or (bt_get (SealedEvidence.key_id sealed) keys)
              (InvalidEvidence "evidence recovery key is unavailable");
  _ ← validate_key_file key;
  nonce ← ok_or (hex_decode (SealedEvidence.nonce_hex sealed)) (InvalidEvidence "evidence nonce is not hex");
  nonce ← ok_or (try_into_array 24 nonce) (InvalidEvidence "evidence nonce is not 24 bytes");
  ciphertext ← ok_or (hex_decode (SealedEvidence.ciphertext_hex sealed))
                     (InvalidEvidence "evidence ciphertext is not hex");
  if MAX_BUNDLE_BYTES <? vec_len ciphertext then Err (SearchExhausted "sealed evidence exceeds 16 MiB") else
  secret ← cipher key;
  plaintext ← ok_or (aead_decrypt secret nonce (seal_aad key) ciphertext)
                    (InvalidEvidence "evidence authentication failed");
  protected ← ok_or (from_slice (T := ProtectedEvidence.ProtectedEvidence) plaintext)
                    (InvalidEvidence ("protected evidence is invalid: " +:+ serde_error_text));
  now ← parse_time verification_time "verification_time";
  until ← parse_time (ProtectedEvidence.delete_after protected) "evidence delete_after";
  if until <=? now then Err (InvalidEvidence "evidence retention has expired")
  else Ok (ProtectedEvidence.envelope protected).

(** ** Bundles *)

Definition sign_bundle (bundle : StoreBundle.StoreBundle) (secret_key : list Z)
  : result Error StoreBundle.StoreBundle :=
  let bundle := StoreBundle.with_signature "" bundle in
  _ ← validate_id "store id" (StoreBundle.store_id bundle);
  bytes ← encode (unsigned bundle);
  Ok (StoreBundle.with_signature (hex_encode (ed_sign secret_key bytes)) bundle).

Definition sign_bundle_with_key_file (bundle : StoreBundle.StoreBundle)
  (key : Fragments.SigningKeyFile.SigningKeyFile) : result Error StoreBundle.StoreBundle :=
  secret ← Fragments.secret_bytes key;
  sign_bundle bundle secret.

Definition validate_bundle (store : StoreConfig.StoreConfig) (bundle : StoreBundle.StoreBundle)
  : result Error StoreBundle.StoreBundle :=
  if negb (bool_decide (StoreBundle.version bundle = "fragment-store-v1"))
     || negb (bool_decide (StoreBundle.store_id bundle = StoreConfig.store_id store))
     || negb (bool_decide (StoreBundle.failure_domain bundle = StoreConfig.failure_domain store))
     || (StoreBundle.generation bundle <? StoreConfig.minimum_generation store)
     || bool_decide (length (StoreBundle.evidence bundle) = 0%nat)
     || (10000 <? vec_len (StoreBundle.evidence bundle))
  then Err (InvalidEvidence "store provenance or generation is invalid") else
  public ← ok_or (hex_decode (StoreConfig.public_key store)) (InvalidRegistry "store public key is not hex");
  public ← ok_or (try_into_array 32 public) (InvalidRegistry "store public key is not 32 bytes");
  signature_bytes ← ok_or (hex_decode (StoreBundle.signature bundle))
                          (InvalidEvidence "store signature is not hex");
  signature ← ok_or (try_into_array 64 signature_bytes)
                    (InvalidEvidence "store signature length is invalid");
  if negb (ed_key_ok public) then Err (InvalidRegistry "store public key is invalid") else
  bytes ← encode (unsigned bundle);
  if ed_verify_strict public bytes signature then Ok bundle
  else Err (InvalidEvidence "store signature mismatch").

(** ** Fetching *)

(** What one attempt meets: the files of directories, the environment, and the HTTPS client
    (ureq) with the URL, the timeout, the Authorization header and the body limit, which
    gives the body or an error at the call or at the body. *)
Record World := {
  file_at : string -> string -> option Node;
  env_var : string -> option string;
  https_get : string -> Z -> option string -> Z -> result Error (list Z);
}.

Definition fetch (world : World) (store : StoreConfig.StoreConfig) (timeout_ms : Z)
  : result Error StoreBundle.StoreBundle :=
  bytes ← match StoreConfig.transport store with
          | LocalDirectory path =>
              read_regular_bounded (file_at world path "bundle.json") MAX_BUNDLE_BYTES "store bundle"
          | HttpsBundle url bearer_token_env =>
              if negb (String.prefix "https://" url)
              then Err (InvalidRegistry "remote store URL must use HTTPS") else
              header ← match bearer_token_env with
                       | None => Ok None
                       | Some variable =>
                           _ ← validate_env_name variable;
                           token ← ok_or (env_var world variable)
                             (InvalidRegistry "store bearer-token environment variable is absent");
                           Ok (Some ("Bearer " +:+ token))
                       end;
              https_get world url timeout_ms header MAX_BUNDLE_BYTES
          end;
  ok_or (from_slice (T := StoreBundle.StoreBundle) bytes)
        (InvalidEvidence ("store bundle is invalid: " +:+ serde_error_text)).

(** The loop of [fetch_with_retries] with [n] attempts left, after the error [last]. *)
Fixpoint attempts_from (worlds : nat -> World) (store : StoreConfig.StoreConfig) (timeout_ms : Z)
  (n i : nat) (last : Error) : result Error StoreBundle.StoreBundle :=
  match n with
  | O => Err last
  | S n =>
      match fetch (worlds i) store timeout_ms with
      | Ok bundle => Ok bundle
      | Err error => attempts_from worlds store timeout_ms n (S i) error
      end
  end.

Definition fetch_with_retries (worlds : nat -> World) (store : StoreConfig.StoreConfig)
  (timeout_ms retries : Z) : result Error StoreBundle.StoreBundle :=
  attempts_from worlds store timeout_ms (S (Z.to_nat retries)) 0 (InvalidEvidence "store fetch failed").

(** ** Retrieval *)

(** The bundles that validate and the identifiers of the stores that gave none. *)
Definition Gathered : Type := list StoreBundle.StoreBundle * list string.

Definition sort_result (st : Gathered) (entry : StoreConfig.StoreConfig * result Error StoreBundle.StoreBundle)
  : Gathered :=
  let '(successes, failures) := st in
  let '(store, result) := entry in
  match (bundle ← result; validate_bundle store bundle) with
  | Ok bundle => (successes ++ [bundle], failures)
  | Err _ => (successes, failures ++ [StoreConfig.store_id store])
  end.

(** One round of the loop over the batches: a worker for each store, then their results. *)
Definition fetch_batch (config : EvidencePlaneConfig.EvidencePlaneConfig)
  (worlds : StoreConfig.StoreConfig -> nat -> World) (st : Gathered) (batch : list StoreConfig.StoreConfig)
  : Gathered :=
  let results := (fun store => fetch_with_retries (worlds store) store
                    (EvidencePlaneConfig.timeout_ms config) (EvidencePlaneConfig.retry_budget config)) <$> batch in
  foldl sort_result st (zip batch results).

Definition gather (config : EvidencePlaneConfig.EvidencePlaneConfig)
  (worlds : StoreConfig.StoreConfig -> nat -> World) : Gathered :=
  let stores := EvidencePlaneConfig.stores config in
  foldl (fetch_batch config worlds) ([], [])
    (chunks (length stores) (Z.to_nat (EvidencePlaneConfig.max_parallel config)) stores).

Definition Envelopes : Type := btree_map string Fragments.Envelope.Envelope.

(** The loop over a bundle's evidence, which one failure ends. *)
Definition open_bundle (keys : btree_map string RecoveryKeyFile.RecoveryKeyFile) (verification_time : string)
  (bundle : StoreBundle.StoreBundle) : result Error Envelopes :=
  for_each (StoreBundle.evidence bundle) [] (fun sealed store_envelopes =>
    envelope ← unseal sealed keys verification_time;
    envelope_digest ← digest envelope;
    Ok (or_insert envelope_digest envelope store_envelopes)).

Definition provenance_of (bundle : StoreBundle.StoreBundle) : result Error StoreProvenance.StoreProvenance :=
  bundle_digest ← digest bundle;
  Ok {| StoreProvenance.store_id := StoreBundle.store_id bundle;
        StoreProvenance.failure_domain := StoreBundle.failure_domain bundle;
        StoreProvenance.generation := StoreBundle.generation bundle;
        StoreProvenance.bundle_digest := bundle_digest;
        StoreProvenance.evidence_count := vec_len (StoreBundle.evidence bundle) |}.

(** The loop over the bundles: provenance, opened bundles, failures. *)
Definition process_bundle (keys : btree_map string RecoveryKeyFile.RecoveryKeyFile) (verification_time : string)
  (bundle : StoreBundle.StoreBundle)
  (st : list StoreProvenance.StoreProvenance * list Envelopes * list string)
  : result Error (list StoreProvenance.StoreProvenance * list Envelopes * list string) :=
  let '(provenance, processed, failures) := st in
  match open_bundle keys verification_time bundle with
  | Err _ => Ok (provenance, processed, failures ++ [StoreBundle.store_id bundle])
  | Ok store_envelopes =>
      entry ← provenance_of bundle;
      Ok (provenance ++ [entry], processed ++ [store_envelopes], failures)
  end.

(** Counting the copies of each envelope, and keeping one. *)
Definition count_copy (st : btree_map string Z * Envelopes) (entry : string * Fragments.Envelope.Envelope)
  : btree_map string Z * Envelopes :=
  let '(copies, unique) := st in
  (bt_insert entry.1 (from_option id 0 (bt_get entry.1 copies) + 1) copies, or_insert entry.1 entry.2 unique).

Definition count_copies (processed : list Envelopes) : btree_map string Z * Envelopes :=
  foldl (fun st store_envelopes => foldl count_copy st store_envelopes) ([], []) processed.

Definition to_retrieved (evidence : Fragments.CollectedEvidence)
  (provenance : list StoreProvenance.StoreProvenance) (failed_stores : list string)
  : RetrievedEvidence.RetrievedEvidence :=
  {| RetrievedEvidence.receipt :=
       {| EvidencePlaneReceipt.successful_stores := vec_len provenance;
          EvidencePlaneReceipt.failed_stores := failed_stores;
          EvidencePlaneReceipt.provenance := provenance;
          EvidencePlaneReceipt.fragment_domains := Fragments.domains evidence;
          EvidencePlaneReceipt.envelope_count := vec_len (Fragments.envelopes evidence);
          EvidencePlaneReceipt.verification_audit := Fragments.audit evidence |};
     RetrievedEvidence.envelopes := Fragments.envelopes evidence |}.

(** [retrieve] once the configuration and the keys are read. *)
Definition retrieve_with (config : EvidencePlaneConfig.EvidencePlaneConfig)
  (keys : btree_map string RecoveryKeyFile.RecoveryKeyFile) (worlds : StoreConfig.StoreConfig -> nat -> World)
  : result (fault Error) RetrievedEvidence.RetrievedEvidence :=
  let '(successes, failures) := gather config worlds in
  '(provenance, processed, failures) ← fails (for_each successes ([], [], failures)
     (process_bundle keys (EvidencePlaneConfig.verification_time config)));
  if vec_len processed <? EvidencePlaneConfig.required_stores config
  then Err (Fails (InsufficientEvidence "authenticated fragment-store quorum was not reached")) else
  let '(copies, unique) := count_copies processed in
  if existsb (fun count => count <? EvidencePlaneConfig.required_copies config) copies.*2
  then Err (Fails (InsufficientEvidence "one or more fragments do not meet independent store-copy quorum")) else
  evidence ← Fragments.collect_at unique.*2 (EvidencePlaneConfig.trusted_issuers config)
    (EvidencePlaneConfig.required_fragment_domains config) (EvidencePlaneConfig.component config)
    (EvidencePlaneConfig.interface_version config) (Some (EvidencePlaneConfig.verification_time config));
  Ok (to_retrieved evidence provenance failures).

Definition retrieve (config_file : option Node) (secrets : string -> Secret)
  (worlds : StoreConfig.StoreConfig -> nat -> World)
  : result (fault Error) RetrievedEvidence.RetrievedEvidence :=
  config_bytes ← fails (read_regular_bounded config_file MAX_CONFIG_BYTES "evidence config");
  config ← fails (ok_or (from_slice (T := EvidencePlaneConfig.EvidencePlaneConfig) config_bytes)
                        (InvalidRegistry ("evidence config is invalid: " +:+ serde_error_text)));
  _ ← fails (validate_config config);
  keys ← fails (load_keys secrets (EvidencePlaneConfig.recovery_keys config));
  retrieve_with config keys worlds.
End EvidencePlane.

(** ** The output directory *)

(** What is found at the output path, and at fragments/ in it. *)
Record Output := { output : Place; fragments : Place }.

Definition set_output (p : Place) (o : Output) : Output := {| output := p; fragments := fragments o |}.
Definition set_fragments (p : Place) (o : Output) : Output := {| output := output o; fragments := p |}.
Definition in_output {A} (m : prog Place A) : prog Output A := zoom output set_output m.
Definition in_fragments {A} (m : prog Place A) : prog Output A := zoom fragments set_fragments m.

(** [{index:05}] *)
Definition padded (index : nat) : string :=
  let digits := pretty index in
  string_of_bytes (replicate (5 - String.length digits) 48) +:+ digits.
Definition fragment_name (index : nat) : string := "fragment-" +:+ padded index +:+ ".json".

Class NotEmptyText := directory_not_empty : string.

Section Materialized.
Context `{OsErrorText, DirectoryErrorText, NotEmptyText, LinkTargets, SerdeErrorText, JsonText, Sha256, Hex}.
Context `{!ToValue Fragments.Envelope.Envelope, !ToValue EvidencePlaneReceipt.EvidencePlaneReceipt}.
Context `{!FromSlice StoreBundle.StoreBundle}.

(** [fs::remove_dir] of the two directories. *)
Definition remove_fragments : prog Output () :=
  system untorn (fun o =>
    match fragments o with
    | Real d => if bool_decide (d = ∅) then Ok (set_fragments Absent o) else Err (Io directory_not_empty)
    | Absent => Err (Io not_found)
    | _ => Err (Io not_a_directory)
    end).
Definition remove_output : prog Output () :=
  system untorn (fun o =>
    match output o with
    | Real d =>
        match fragments o with
        | Absent => if bool_decide (d = ∅) then Ok (set_output Absent o) else Err (Io directory_not_empty)
        | _ => Err (Io directory_not_empty)
        end
    | Absent => Err (Io not_found)
    | _ => Err (Io not_a_directory)
    end).

Definition write_regular_new (path : string) (data : list Z) : prog Entries () :=
  Disk.write_new_synced path data.

(** Removing what was written, when a write fails. *)
Definition undo (created : list string) : prog Output () :=
  _ ← op_for created () (fun path _ => ignoring (in_fragments (inside (remove_file path))));
  _ ← ignoring remove_fragments;
  ignoring remove_output.

Definition or_undo (created : list string) (m : prog Output ()) : prog Output () :=
  written ← attempt m;
  match written with
  | Ok _ => mret ()
  | Err error => _ ← undo created; raise error
  end.

(** The loop over the envelopes, from index [i]. *)
Fixpoint write_fragments (envelopes : list Fragments.Envelope.Envelope) (i : nat) (created : list string)
  : prog Output (list string) :=
  match envelopes with
  | [] => mret created
  | envelope :: envelopes =>
      let path := fragment_name i in
      bytes ← pure (encode envelope);
      _ ← or_undo created (in_fragments (inside (write_regular_new path bytes)));
      write_fragments envelopes (S i) (created ++ [path])
  end.

(** [materialize] of what [retrieve] gave. *)
Definition materialize (retrieved : RetrievedEvidence.RetrievedEvidence)
  : prog Output EvidencePlaneReceipt.EvidencePlaneReceipt :=
  found ← read (fun o => Ok (place_present (output o)));
  if found : bool then raise (InvalidEvidence "evidence output directory already exists") else
  _ ← in_output create_dir;
  made ← attempt (in_fragments create_dir);
  _ ← match made with
      | Ok _ => mret ()
      | Err error => _ ← ignoring remove_output; raise error
      end;
  created ← write_fragments (RetrievedEvidence.envelopes retrieved) 0 [];
  bytes ← pure (encode (RetrievedEvidence.receipt retrieved));
  _ ← or_undo created (in_output (inside (write_regular_new "receipt.json" bytes)));
  mret (RetrievedEvidence.receipt retrieved).

Definition unexpected : Error := InvalidEvidence "evidence output contains an unexpected entry".

(** The loop of [delete_materialized] over the entries of fragments/. *)
Definition check_fragment (entry : string * Node) (paths : list string) : result Error (list string) :=
  match entry.2 with
  | RegularFile bytes =>
      if (MAX_BUNDLE_BYTES <? vec_len bytes)
         || negb (bool_decide (Operations.extension entry.1 = Some "json"))
      then Err unexpected else
      let paths := paths ++ [entry.1] in
      if 10000 <? vec_len paths then Err (SearchExhausted "evidence output entry bound exceeded")
      else Ok paths
  | _ => Err unexpected
  end.

(** [read_dir(output)?.count()] *)
Definition root_entries (o : Output) : result Error Z :=
  d ← entries_of (output o);
  Ok (Z.of_nat (size d) + match fragments o with Absent => 0 | _ => 1 end).

Definition delete_materialized : prog Output Z :=
  _ ← in_output (real_directory (InvalidEvidence "evidence output must be a real directory"));
  _ ← in_output (inside (read_bounded (not_bounded "evidence receipt") MAX_BUNDLE_BYTES "receipt.json"));
  _ ← in_fragments (real_directory (InvalidEvidence "evidence fragments path must be a real directory"));
  root_entries ← read root_entries;
  if negb (root_entries =? 2)
  then raise (InvalidEvidence "evidence output root contains an unexpected entry") else
  paths ← in_fragments (inside (read (fun d => for_each (map_to_list d) [] check_fragment)));
  _ ← op_for paths () (fun path _ => in_fragments (inside (remove_file path)));
  _ ← remove_fragments;
  _ ← in_output (inside (remove_file "receipt.json"));
  _ ← remove_output;
  mret (vec_len paths + 1).

(** [delete_store_bundle] on a file of a directory, [parent] being what [Path::parent]
    gives: for a bare file name that is the empty path, which cannot be opened. *)
Definition delete_store_bundle (name parent : string) : prog Entries string :=
  bytes ← read_bounded (not_bounded "store bundle") MAX_BUNDLE_BYTES name;
  _ ← pure (ok_or (from_slice (T := StoreBundle.StoreBundle) bytes)
              (InvalidEvidence ("store bundle is invalid: " +:+ serde_error_text)));
  let removed_digest := bytes_digest bytes in
  _ ← remove_file name;
  _ ← (if str_is_empty parent then raise (Io not_found) else sync_all);
  mret removed_digest.
End Materialized.
