(* ===== verification/EvidenceQuorum.v ===== *)
(** src/evidence_plane.rs: what a retrieval accepts, whichever way its workers run and its
    stores answer; the lifetime of a seal; and the output directory. *)
From stdpp Require Import pretty.
From S2P Require Import Prelude Effects FileTree External Json Core Model Canonical Disk EvidencePlane.
From S2P Require Fragments Operations.

(** * Maps of first entries and of counts *)

Section OrInsert.
Context {V : Type}.
Implicit Types (m : btree_map string V) (k : string).

Lemma or_insert_sorted k (v : V) m : bt_sorted m -> bt_sorted (or_insert k v m).
Proof. intros Hs. unfold or_insert. destruct (bt_mem k m); [done|]. by apply bt_insert_sorted. Qed.

Lemma bt_mem_true k m : bt_mem k m = true <-> is_Some (bt_get k m).
Proof. unfold bt_mem. destruct (bt_get k m); split; try done; by eexists. Qed.

(** The first value given for a key stays. *)
Lemma bt_get_or_insert k k' (v : V) m :
  bt_sorted m -> bt_get k' (or_insert k v m) =
    match bt_get k' m with Some w => Some w | None => if bool_decide (k' = k) then Some v else None end.
Proof.
  intros Hs. unfold or_insert. destruct (bt_mem k m) eqn:Hm.
  - apply bt_mem_true in Hm as [w Hw]. destruct (bt_get k' m) eqn:Hk; [done|].
    rewrite bool_decide_eq_false_2; [done|]. intros ->. congruence.
  - assert (bt_get k m = None) as Hn.
    { destruct (bt_get k m) eqn:Hk; [|done]. unfold bt_mem in Hm. by rewrite Hk in Hm. }
    destruct (decide (k' = k)) as [->|Hne].
    + rewrite bt_get_insert_eq, Hn. by rewrite bool_decide_eq_true_2.
    + rewrite bt_get_insert_ne by done. rewrite bool_decide_eq_false_2 by done. by destruct (bt_get k' m).
Qed.
End OrInsert.

(** How many of some maps have a key, and the first value that one of them gives it. *)
Section Copies.
Context {V : Type}.
Implicit Types (m : btree_map string V) (l : list (btree_map string V)) (k : string).

Definition holders k l : list (btree_map string V) := filter (fun m => bt_mem k m = true) l.
Definition first_copy k l : option V := head (omap (bt_get k) l).

Lemma bt_mem_false k m : ~ bt_mem k m = true <-> bt_get k m = None.
Proof. rewrite bt_mem_true, <- eq_None_not_Some. done. Qed.

Lemma holders_cons k m l : holders k (m :: l) =
  match bt_get k m with Some _ => m :: holders k l | None => holders k l end.
Proof.
  unfold holders. rewrite filter_cons. destruct (decide (bt_mem k m = true)) as [Hm|Hm].
  - apply bt_mem_true in Hm as [v ->]. done.
  - by apply bt_mem_false in Hm as ->.
Qed.

Lemma holders_first k l : holders k l = [] <-> first_copy k l = None.
Proof.
  unfold first_copy. induction l as [|m l IH]; [done|]. rewrite holders_cons. simpl.
  by destruct (bt_get k m).
Qed.

(** The number that a map of counts gives. *)
Definition count_of k (c : btree_map string Z) : Z := from_option id 0 (bt_get k c).

End Copies.

Lemma bt_get_head {V} k k0 (v : V) m : bt_sorted ((k0, v) :: m) ->
  (k0 ∉ m.*1) /\ bt_sorted m /\ bt_get k ((k0, v) :: m) = (if decide (k = k0) then Some v else bt_get k m).
Proof.
  intros Hs. pose proof (bt_sorted_NoDup _ Hs) as Hnd. apply NoDup_cons in Hnd as [Hk0 _].
  assert (bt_sorted m) as Hm by by inversion Hs. split_and!; [done..|].
  apply option_eq. intros w. rewrite bt_get_elem, elem_of_cons by done. destruct (decide (k = k0)) as [->|Hne].
  - split; [|intros [= ->]; by left]. intros [[= ->]|Hin]; [done|].
    contradict Hk0. by apply (list_elem_of_fmap_2 fst) in Hin.
  - rewrite bt_get_elem by done. naive_solver.
Qed.

(** [count_copies] counts the maps that hold each digest and keeps the first copy of each. *)
Definition counted (st : btree_map string Z * Envelopes) (l : list Envelopes) : Prop :=
  bt_sorted st.1 /\ bt_sorted st.2 /\ forall k,
    bt_get k st.1 = (match first_copy k l with Some _ => Some (vec_len (holders k l)) | None => None end) /\
    bt_get k st.2 = first_copy k l.

Lemma count_map (m : Envelopes) : forall (c : btree_map string Z) (u : Envelopes), bt_sorted m -> bt_sorted c -> bt_sorted u ->
  let st := foldl count_copy (c, u) m in
  bt_sorted st.1 /\ bt_sorted st.2 /\ forall k,
    bt_get k st.1 = (match bt_get k m with Some _ => Some (count_of k c + 1) | None => bt_get k c end) /\
    bt_get k st.2 = (match bt_get k u with Some w => Some w | None => bt_get k m end).
Proof.
  induction m as [|[k0 e] m IH]; intros c u Hm Hc Hu; cbn [foldl].
  - cbn. split_and!; [done..|]. intros k. split; [done|]. by destruct (bt_get k u).
  - pose proof (fun k => bt_get_head k k0 e m Hm) as Hhead. destruct (Hhead "") as (Hk0 & Hm' & _).
    destruct (IH (bt_insert k0 (count_of k0 c + 1) c) (or_insert k0 e u) Hm') as (H1 & H2 & Hk);
      [by apply bt_insert_sorted|by apply or_insert_sorted|].
    change (count_copy (c, u) (k0, e))
      with (@pair (btree_map string Z) Envelopes (bt_insert k0 (count_of k0 c + 1) c) (or_insert k0 e u)).
    split_and!; [done..|]. intros k. destruct (Hk k) as [Hk1 Hk2], (Hhead k) as (_ & _ & Hget).
    rewrite Hk1, Hk2, Hget, bt_get_or_insert by done. apply bt_get_None in Hk0; [|done].
    unfold count_of. destruct (decide (k = k0)) as [->|Hne].
    + rewrite Hk0, bt_get_insert_eq, bool_decide_eq_true_2 by done. split; [done|].
      by destruct (bt_get k0 u).
    + rewrite bt_get_insert_ne, bool_decide_eq_false_2 by done. split; [done|]. by destruct (bt_get k u).
Qed.

Lemma count_copies_spec l : Forall bt_sorted l -> counted (count_copies l) l.
Proof.
  unfold count_copies. induction l as [|m l IH] using rev_ind; intros Hl.
  - split_and!; [constructor..|]. done.
  - apply Forall_app in Hl as [Hl [Hm _]%Forall_cons]. rewrite foldl_app. cbn [foldl].
    destruct (IH Hl) as (H1 & H2 & Hk). destruct (foldl _ _ l) as [c u]. cbn [fst snd] in *.
    destruct (count_map m c u Hm H1 H2) as (H1' & H2' & Hk'). split_and!; [done..|].
    intros k. destruct (Hk k) as [Hc Hu], (Hk' k) as [Hc' Hu']. rewrite Hc', Hu', Hu.
    unfold first_copy, holders, count_of. rewrite omap_app, filter_app, head_app.
    change (filter (fun m0 => bt_mem k m0 = true) [m]) with (holders k [m]). rewrite holders_cons, Hc.
    fold (holders k l) (first_copy k l). unfold vec_len. rewrite length_app. simpl.
    pose proof (holders_first k l) as Hnone.
    destruct (first_copy k l); destruct (bt_get k m); simpl; rewrite ?Nat.add_0_r; split; try done.
    + do 2 f_equal. lia.
    + by rewrite (proj2 Hnone).
Qed.

(** The counts that fail a bound are those of some digest. *)
Lemma copies_below n l :
  Forall bt_sorted l ->
  existsb (fun count => count <? n) (count_copies l).1.*2 = false <->
  forall k, is_Some (first_copy k l) -> n <= vec_len (holders k l).
Proof.
  intros Hl. destruct (count_copies_spec l Hl) as (Hs & _ & Hk). rewrite <- not_true_iff_false, existsb_exists.
  split.
  - intros Hno k [e He]. destruct (Hk k) as [Hc _]. rewrite He in Hc.
    destruct (Z_lt_le_dec (vec_len (holders k l)) n); [|done]. contradict Hno.
    eexists. split; [|by apply Z.ltb_lt]. apply list_elem_of_In, list_elem_of_fmap.
    exists (k, vec_len (holders k l)). split; [done|]. by apply bt_get_elem.
  - intros Hall (c & ([k c'] & -> & Hin)%list_elem_of_In%list_elem_of_fmap & Hlt%Z.ltb_lt). simpl in Hlt.
    apply bt_get_elem in Hin; [|done]. destruct (Hk k) as [Hc _]. rewrite Hin in Hc.
    specialize (Hall k). destruct (first_copy k l); [|done]. injection Hc as ->.
    specialize (Hall ltac:(by eexists)). lia.
Qed.

(** * Gathering and processing *)

Definition to_option {E A} (r : result E A) : option A := match r with Ok a => Some a | Err _ => None end.

Section Retrieval.
Context `{OsErrorText, SerdeErrorText, JsonText, Sha256, Hex, Hmac, Ed25519, Jiff, Aead}.
Context `{!ToValue FragmentContent.FragmentContent, !ToValue Fragments.UnsignedEnvelope}.
Context `{!ToValue Fragments.Envelope.Envelope}.
Context `{!FromSlice RecoveryKeyFile.RecoveryKeyFile}.
Context `{!ToValue ProtectedEvidence.ProtectedEvidence, !FromSlice ProtectedEvidence.ProtectedEvidence}.
Context `{!ToValue UnsignedBundle.UnsignedBundle, !ToValue StoreBundle.StoreBundle}.
Context `{!FromSlice StoreBundle.StoreBundle}.
Context (config : EvidencePlaneConfig.EvidencePlaneConfig).
Context (keys : btree_map string RecoveryKeyFile.RecoveryKeyFile).
Context (worlds : StoreConfig.StoreConfig -> nat -> World).

Lemma validate_bundle_same store b b' : validate_bundle store b = Ok b' -> b' = b.
Proof.
  unfold validate_bundle. intros Hv. inv_ok. destruct (ed_verify_strict _ _ _); congruence.
Qed.

(** The authentic bundle that a store gives, and its evidence when all of it opens. *)
Definition bundle_of (store : StoreConfig.StoreConfig) : option StoreBundle.StoreBundle :=
  to_option (bundle ← fetch_with_retries (worlds store) store
               (EvidencePlaneConfig.timeout_ms config) (EvidencePlaneConfig.retry_budget config);
             validate_bundle store bundle).
Definition opened (bundle : StoreBundle.StoreBundle) : option Envelopes :=
  to_option (open_bundle keys (EvidencePlaneConfig.verification_time config) bundle).
Definition opening (bundle : StoreBundle.StoreBundle) : option (StoreBundle.StoreBundle * Envelopes) :=
  pair bundle <$> opened bundle.

(** The identifiers of the elements that a partial function refuses. *)
Definition refused {A B} (f : A -> option B) (id : A -> string) (l : list A) : list string :=
  omap (fun x => match f x with Some _ => None | None => Some (id x) end) l.

Lemma fetch_batch_spec batch st :
  fetch_batch config worlds st batch =
    (st.1 ++ omap bundle_of batch, st.2 ++ refused bundle_of StoreConfig.store_id batch).
Proof.
  unfold fetch_batch, refused. revert st. induction batch as [|s batch IH]; intros [succ fail]; simpl.
  - by rewrite !app_nil_r.
  - rewrite IH. unfold bundle_of at 3 6.
    destruct (fetch_with_retries _ _ _ _) as [b|e]; simpl; [destruct (validate_bundle s b) as [b'|e]; simpl|];
      by rewrite <- ?app_assoc.
Qed.

(** The batches are those of one worker after the other. *)
Lemma gather_spec :
  0 < EvidencePlaneConfig.max_parallel config ->
  gather config worlds =
    (omap bundle_of (EvidencePlaneConfig.stores config),
     refused bundle_of StoreConfig.store_id (EvidencePlaneConfig.stores config)).
Proof.
  intros Hpos. unfold gather.
  rewrite <- (chunks_concat (length (EvidencePlaneConfig.stores config))
                (Z.to_nat (EvidencePlaneConfig.max_parallel config)) (EvidencePlaneConfig.stores config))
    at 3 4 by lia.
  generalize (chunks (length (EvidencePlaneConfig.stores config))
                (Z.to_nat (EvidencePlaneConfig.max_parallel config)) (EvidencePlaneConfig.stores config)).
  intros batches. unfold refused.
  assert (forall st, foldl (fetch_batch config worlds) st batches =
            (st.1 ++ omap bundle_of (List.concat batches),
             st.2 ++ refused bundle_of StoreConfig.store_id (List.concat batches))) as Hall;
    [|by rewrite Hall].
  induction batches as [|b batches IH]; intros [succ fail]; cbn [foldl List.concat].
  - by rewrite !app_nil_r.
  - rewrite IH, fetch_batch_spec. unfold refused. cbn [fst snd]. by rewrite !omap_app, <- !app_assoc.
Qed.

Lemma process_one b prov proc fail :
  process_bundle keys (EvidencePlaneConfig.verification_time config) b (prov, proc, fail) =
  match opened b with
  | Some m => entry ← provenance_of b; Ok (prov ++ [entry], proc ++ [m], fail)
  | None => Ok (prov, proc, fail ++ [StoreBundle.store_id b])
  end.
Proof. unfold process_bundle, opened. by destruct (open_bundle _ _ b). Qed.

Lemma openings_cons b l :
  omap opening (b :: l) = match opened b with Some m => (b, m) :: omap opening l | None => omap opening l end.
Proof. simpl. unfold opening at 1. by destruct (opened b). Qed.

Lemma refused_cons {A B} (f : A -> option B) (id : A -> string) x l :
  refused f id (x :: l) = match f x with Some _ => refused f id l | None => id x :: refused f id l end.
Proof. unfold refused. simpl. by destruct (f x). Qed.

Lemma process_all l prov proc fail :
  for_each l (prov, proc, fail) (process_bundle keys (EvidencePlaneConfig.verification_time config)) =
  (entries ← collect_results provenance_of (omap opening l).*1;
   Ok (prov ++ entries, proc ++ (omap opening l).*2, fail ++ refused opened StoreBundle.store_id l)).
Proof.
  revert prov proc fail. induction l as [|b l IH]; intros prov proc fail; cbn [for_each].
  - cbn. by rewrite !app_nil_r.
  - rewrite process_one, refused_cons, openings_cons. destruct (opened b) as [m|].
    + cbn [fmap list_fmap fst snd collect_results]. destruct (provenance_of b) as [p|e]; [|done].
      cbn [mbind result_bind]. rewrite IH.
      destruct (collect_results provenance_of (omap opening l).*1) as [ps|e]; [|done].
      cbn. by rewrite <- !app_assoc.
    + cbn [mbind result_bind]. rewrite IH.
      destruct (collect_results provenance_of (omap opening l).*1) as [ps|e]; [|done].
      cbn. by rewrite <- !app_assoc.
Qed.

(** The bundles that count, with what they hold, and the stores that do not. *)
Definition answers : list (StoreBundle.StoreBundle * Envelopes) :=
  omap opening (omap bundle_of (EvidencePlaneConfig.stores config)).
Definition failed : list string :=
  refused bundle_of StoreConfig.store_id (EvidencePlaneConfig.stores config)
  ++ refused opened StoreBundle.store_id (omap bundle_of (EvidencePlaneConfig.stores config)).

(** An opened bundle holds, under its digest, each envelope that one of its seals gives. *)
Definition seals (bundle : StoreBundle.StoreBundle) (d : string) (e : Fragments.Envelope.Envelope) : Prop :=
  exists sealed, sealed ∈ StoreBundle.evidence bundle /\
    unseal sealed keys (EvidencePlaneConfig.verification_time config) = Ok e /\ digest e = Ok d.

Lemma opened_spec bundle m :
  opened bundle = Some m -> bt_sorted m /\ forall d e, bt_get d m = Some e -> seals bundle d e.
Proof.
  unfold opened, to_option. destruct (open_bundle _ _ bundle) as [m'|] eqn:Hopen; [|done]. intros [= <-].
  unfold open_bundle in Hopen.
  refine (for_each_inv (fun _ m => bt_sorted m /\ forall d e, bt_get d m = Some e -> seals bundle d e)
            _ _ _ _ Hopen _ _); [split; [constructor|done]|].
  intros pre sealed post m0 m1 Hl [Hs Hseals] Hstep. inv_ok. injection Hstep as <-.
  split; [by apply or_insert_sorted|]. intros d e. rewrite bt_get_or_insert by done.
  destruct (bt_get d m0) as [w|] eqn:Hd; [intros [= <-]; by apply Hseals|].
  case_bool_decide; [|done]. intros [= <-]. subst d. exists sealed. split_and!; [|done..].
  rewrite Hl. apply elem_of_app. right. by left.
Qed.

Lemma answers_elem bundle m :
  (bundle, m) ∈ answers <->
  opened bundle = Some m /\ exists store, store ∈ EvidencePlaneConfig.stores config /\ bundle_of store = Some bundle.
Proof.
  unfold answers, opening. rewrite list_elem_of_omap. split.
  - intros (b & Hb & (m' & Hm & [= <- <-])%fmap_Some). by apply list_elem_of_omap in Hb.
  - intros (Hm & Hst). exists bundle. split; [by apply list_elem_of_omap|]. by rewrite Hm.
Qed.

Lemma answers_sorted : Forall bt_sorted answers.*2.
Proof.
  apply Forall_forall. intros m ([b m'] & -> & Hin)%list_elem_of_fmap.
  apply answers_elem in Hin as [Hm _]. exact (proj1 (opened_spec _ _ Hm)).
Qed.

(** What [retrieve_with] does, without its loops. *)
Lemma retrieve_unfold :
  0 < EvidencePlaneConfig.max_parallel config ->
  retrieve_with config keys worlds =
  (entries ← fails (collect_results provenance_of answers.*1);
   if vec_len answers <? EvidencePlaneConfig.required_stores config
   then Err (Fails (InsufficientEvidence "authenticated fragment-store quorum was not reached")) else
   if existsb (fun count => count <? EvidencePlaneConfig.required_copies config) (count_copies answers.*2).1.*2
   then Err (Fails (InsufficientEvidence "one or more fragments do not meet independent store-copy quorum")) else
   evidence ← Fragments.collect_at (count_copies answers.*2).2.*2 (EvidencePlaneConfig.trusted_issuers config)
     (EvidencePlaneConfig.required_fragment_domains config) (EvidencePlaneConfig.component config)
     (EvidencePlaneConfig.interface_version config) (Some (EvidencePlaneConfig.verification_time config));
   Ok (to_retrieved evidence entries failed)).
Proof.
  intros Hpos. unfold retrieve_with. rewrite gather_spec, process_all by done.
  fold answers failed. destruct (collect_results provenance_of answers.*1) as [entries|e]; [|done].
  cbn [fails map_err mbind result_bind app]. unfold vec_len. rewrite length_fmap.
  by destruct (count_copies answers.*2).
Qed.

Lemma retrieve_spec r :
  0 < EvidencePlaneConfig.max_parallel config ->
  retrieve_with config keys worlds = Ok r <->
  exists entries unique evidence,
    collect_results provenance_of answers.*1 = Ok entries /\
    EvidencePlaneConfig.required_stores config <= vec_len answers /\
    (forall d, is_Some (first_copy d answers.*2) ->
       EvidencePlaneConfig.required_copies config <= vec_len (holders d answers.*2)) /\
    bt_sorted unique /\ (forall d, bt_get d unique = first_copy d answers.*2) /\
    Fragments.collect_at unique.*2 (EvidencePlaneConfig.trusted_issuers config)
      (EvidencePlaneConfig.required_fragment_domains config) (EvidencePlaneConfig.component config)
      (EvidencePlaneConfig.interface_version config) (Some (EvidencePlaneConfig.verification_time config))
      = Ok evidence /\
    r = to_retrieved evidence entries failed.
Proof.
  intros Hpos. rewrite retrieve_unfold by done.
  pose proof answers_sorted as Hsorted. pose proof (copies_below (EvidencePlaneConfig.required_copies config) _ Hsorted) as Hcopies.
  destruct (count_copies_spec _ Hsorted) as (_ & Hu & Hk). split.
  - intros Hr. inv_ok. destruct (existsb _ _) eqn:Hq; [done|]. inv_ok.
    exists a, (count_copies answers.*2).2, a0. split_bools. injection Hr as <-.
    split_and!; try done; [by apply map_err_Ok in Ha|by apply Hcopies|]. intros d. apply Hk.
  - intros (entries & unique & evidence & Hentries & Hstores & Hq & Hs & Hget & Hcollect & ->).
    rewrite Hentries. cbn [fails map_err mbind result_bind]. rewrite (proj2 (Z.ltb_ge _ _)) by done.
    rewrite (proj2 Hcopies Hq).
    assert ((count_copies answers.*2).2 = unique) as ->; [|by rewrite Hcollect].
    apply bt_ext; [done..|]. intros d. rewrite Hget. apply Hk.
Qed.

(** C35: a retrieval succeeds exactly when, of the configured stores, enough give an
    authentic bundle whose seals all open, every envelope found is held by enough of
    them, and the envelopes, one of each digest, are acceptable evidence; then it returns
    that evidence, and reports as failed the other stores.  Neither the number of workers
    nor the evidence of the stores that fail matters. *)
Theorem retrieve_iff r :
  0 < EvidencePlaneConfig.max_parallel config ->
  retrieve_with config keys worlds = Ok r <->
  exists entries unique evidence,
    collect_results provenance_of answers.*1 = Ok entries /\
    EvidencePlaneConfig.required_stores config <= vec_len answers /\
    (forall d, is_Some (first_copy d answers.*2) ->
       EvidencePlaneConfig.required_copies config <= vec_len (holders d answers.*2)) /\
    bt_sorted unique /\ (forall d, bt_get d unique = first_copy d answers.*2) /\
    Fragments.collect_at unique.*2 (EvidencePlaneConfig.trusted_issuers config)
      (EvidencePlaneConfig.required_fragment_domains config) (EvidencePlaneConfig.component config)
      (EvidencePlaneConfig.interface_version config) (Some (EvidencePlaneConfig.verification_time config))
      = Ok evidence /\
    r = to_retrieved evidence entries failed.
Proof. apply retrieve_spec. Qed.

(** What the configuration promises of the stores. *)
Lemma validated_stores :
  validate_config config = Ok () ->
  0 < EvidencePlaneConfig.max_parallel config /\
  NoDup (StoreConfig.failure_domain <$> EvidencePlaneConfig.stores config).
Proof.
  intros Hv. unfold validate_config in Hv. inv_ok. split_bools. split; [lia|].
  destruct a2 as [ids domains].
  enough (NoDup (StoreConfig.failure_domain <$> EvidencePlaneConfig.stores config) /\
          domains = list_to_set (StoreConfig.failure_domain <$> EvidencePlaneConfig.stores config)) by tauto.
  refine (for_each_inv (fun pre st => NoDup (StoreConfig.failure_domain <$> pre) /\
            st.2 = list_to_set (StoreConfig.failure_domain <$> pre)) _ _ _ _ Ha2 _ _); [by split; [constructor|]|].
  intros pre store post [ids0 doms] [ids1 doms'] _ [Hnd Hdoms] Hstep. simpl in Hdoms. subst doms.
  unfold validate_store in Hstep. inv_ok. injection Hstep as <- <-. split_bools.
  rewrite fmap_app. simpl. split.
  - apply NoDup_app. split_and!; [done| |apply NoDup_singleton]. intros x Hx ->%list_elem_of_singleton.
    set_solver.
  - rewrite list_to_set_app_L. set_solver.
Qed.

(** Whether a store's answer counts and holds the digest. *)
Definition store_holds (d : string) (store : StoreConfig.StoreConfig) : Prop :=
  exists bundle m, bundle_of store = Some bundle /\ opened bundle = Some m /\ bt_mem d m = true.
#[export] Instance store_holds_dec d store : Decision (store_holds d store).
Proof.
  unfold store_holds. destruct (bundle_of store) as [b|]; [|right; naive_solver].
  destruct (opened b) as [m|] eqn:Hm; [|right; naive_solver].
  destruct (decide (bt_mem d m = true)); [left|right]; naive_solver.
Defined.

Lemma holders_stores d l :
  length (holders d (omap opening (omap bundle_of l)).*2) = length (filter (store_holds d) l).
Proof.
  induction l as [|store l IH]; [done|]. rewrite filter_cons.
  change (omap bundle_of (store :: l))
    with (match bundle_of store with Some b => b :: omap bundle_of l | None => omap bundle_of l end).
  destruct (bundle_of store) as [b|] eqn:Hb.
  - rewrite openings_cons. destruct (opened b) as [m|] eqn:Hm.
    + cbn [fmap list_fmap snd]. rewrite holders_cons. destruct (decide (store_holds d store)) as [Hh|Hh].
      * destruct Hh as (b' & m' & Hb' & Hm' & [v Hv]%bt_mem_true). simplify_eq. rewrite Hv. cbn [length]. by rewrite IH.
      * destruct (bt_get d m) eqn:Hv; [|done]. contradict Hh. exists b, m. split_and!; [done..|].
        by apply bt_get_Some_mem in Hv.
    + rewrite decide_False; [done|]. intros (b' & m' & Hb' & Hm' & _). simplify_eq.
  - rewrite decide_False; [done|]. intros (b' & m' & Hb' & _). simplify_eq.
Qed.

(** C34: every envelope that a retrieval returns is held under its digest by the required
    number of stores of pairwise different failure domains, each in a bundle that
    authenticates as that store's. *)
Theorem retrieved_evidence_replicated r e :
  validate_config config = Ok () -> retrieve_with config keys worlds = Ok r ->
  e ∈ RetrievedEvidence.envelopes r ->
  exists d stores,
    digest e = Ok d /\ stores `sublist_of` EvidencePlaneConfig.stores config /\
    NoDup (StoreConfig.failure_domain <$> stores) /\
    EvidencePlaneConfig.required_copies config <= vec_len stores /\
    forall store, store ∈ stores -> exists bundle e',
      bundle_of store = Some bundle /\ validate_bundle store bundle = Ok bundle /\ seals bundle d e'.
Proof.
  intros [Hpos Hnd]%validated_stores Hr He. apply retrieve_spec in Hr; [|done].
  destruct Hr as (entries & unique & evidence & _ & _ & Hcopies & Hsu & Hu & Hc & ->).
  apply Fragments.collect_at_spec in Hc as (vt & _ & _ & ->). simpl in He.
  apply elem_of_sort_by_key, list_elem_of_fmap in He as ([d e'] & Heq & Hd). simpl in Heq. subst e'.
  apply bt_get_elem in Hd; [|done]. rewrite Hu in Hd.
  assert (seals_of : exists bundle, seals bundle d e).
  { apply head_Some_elem_of, list_elem_of_omap in Hd as (m & ([b m'] & -> & Hin)%list_elem_of_fmap & Hget).
    apply answers_elem in Hin as [Hm _]. exists b. exact (proj2 (opened_spec _ _ Hm) _ _ Hget). }
  destruct seals_of as (_ & _ & _ & _ & Hdigest).
  exists d, (filter (store_holds d) (EvidencePlaneConfig.stores config)). split_and!.
  - done.
  - apply sublist_filter.
  - eapply sublist_NoDup; [exact Hnd|]. apply fmap_sublist, sublist_filter.
  - unfold vec_len. rewrite <- holders_stores. apply Hcopies. by eexists.
  - intros store [Hh _]%list_elem_of_filter. destruct Hh as (b & m & Hb & Hm & [v Hv]%bt_mem_true).
    exists b, v. split_and!; [done| |exact (proj2 (opened_spec _ _ Hm) _ _ Hv)].
    unfold bundle_of, to_option in Hb. destruct (fetch_with_retries _ _ _ _) as [b0|]; [|done].
    simpl in Hb. destruct (validate_bundle store b0) as [b1|] eqn:Hval; [|done]. injection Hb as ->.
    by rewrite (validate_bundle_same _ _ _ Hval) in Hval |- *.
Qed.
End Retrieval.

(** * Witnesses *)

(** Two stores, each with both envelopes of [Fragments.FragmentsWitness], under one key. *)
Module EvidenceQuorumWitness.
Import Fragments.FragmentsWitness.
#[local] Existing Instances Toy.sha Toy.hexi Toy.hmac Toy.ed Toy.jiff Toy.aead.
#[local] Existing Instances Fragments.FragmentsWitness.error_text Fragments.FragmentsWitness.text
  Fragments.FragmentsWitness.serialise_content Fragments.FragmentsWitness.serialise_envelope.
#[local] Instance os_text : OsErrorText := {| not_found := "not found"; already_exists := "exists" |}.

Definition protect (e : Fragments.Envelope.Envelope) : ProtectedEvidence.ProtectedEvidence :=
  {| ProtectedEvidence.created_at := "2025"; ProtectedEvidence.delete_after := "2027";
     ProtectedEvidence.envelope := e |}.

#[local] Instance serialise_signed : ToValue Fragments.Envelope.Envelope :=
  fun e => Some (String (Fragments.Envelope.content_digest e)).
#[local] Instance serialise_protected : ToValue ProtectedEvidence.ProtectedEvidence :=
  fun p => Some (String (Fragments.Envelope.content_digest (ProtectedEvidence.envelope p))).
#[local] Instance read_protected : FromSlice ProtectedEvidence.ProtectedEvidence := fun bytes =>
  find (fun p => bool_decide (encode p = Ok bytes)) [protect contract; protect schema].
#[local] Instance serialise_unsigned : ToValue UnsignedBundle.UnsignedBundle :=
  fun b => Some (String (UnsignedBundle.store_id b)).
#[local] Instance serialise_bundle : ToValue StoreBundle.StoreBundle :=
  fun b => Some (String (StoreBundle.store_id b)).

Definition key : RecoveryKeyFile.RecoveryKeyFile :=
  {| RecoveryKeyFile.version := "evidence-key-v1"; RecoveryKeyFile.key_id := "k";
     RecoveryKeyFile.key_hex := hex_encode (replicate 32 7); RecoveryKeyFile.created_at := "2025" |}.

Definition sealed : list SealedEvidence.SealedEvidence :=
  omap (fun e => to_option (seal (replicate 24 1) e key "2025" "2027")) [contract; schema].

Definition bundle (id : string) : option StoreBundle.StoreBundle :=
  to_option (sign_bundle {| StoreBundle.version := "fragment-store-v1"; StoreBundle.store_id := id;
    StoreBundle.failure_domain := id; StoreBundle.generation := 1; StoreBundle.evidence := sealed;
    StoreBundle.signature := "" |} secret).
#[local] Instance read_bundle : FromSlice StoreBundle.StoreBundle := fun bytes =>
  bundle (string_of_bytes bytes).

Definition store (id : string) : StoreConfig.StoreConfig :=
  {| StoreConfig.store_id := id; StoreConfig.failure_domain := id;
     StoreConfig.public_key := hex_encode (ed_public secret); StoreConfig.minimum_generation := 1;
     StoreConfig.transport := LocalDirectory id |}.

(** The third store is away. *)
Definition config : EvidencePlaneConfig.EvidencePlaneConfig :=
  {| EvidencePlaneConfig.component := "door"; EvidencePlaneConfig.interface_version := "v1";
     EvidencePlaneConfig.required_fragment_domains := 2; EvidencePlaneConfig.required_stores := 2;
     EvidencePlaneConfig.required_copies := 2; EvidencePlaneConfig.max_parallel := 2;
     EvidencePlaneConfig.timeout_ms := 1000; EvidencePlaneConfig.retry_budget := 1;
     EvidencePlaneConfig.verification_time := "2026"; EvidencePlaneConfig.stores := store <$> ["s1"; "s3"; "s2"];
     EvidencePlaneConfig.trusted_issuers := trusted; EvidencePlaneConfig.recovery_keys := [] |}.

Definition worlds (s : StoreConfig.StoreConfig) (_ : nat) : World :=
  {| file_at path name := if bool_decide (path = "s3") then None else Some (RegularFile (bytes_of_string path));
     env_var _ := None; https_get _ _ _ _ := Err (Io "offline") |}.

Definition keys : btree_map string RecoveryKeyFile.RecoveryKeyFile := [("k", key)].

Lemma retrieves :
  match retrieve_with config keys worlds with
  | Ok r => head (RetrievedEvidence.envelopes r) = Some contract
  | Err _ => False
  end.
Proof. vm_compute. reflexivity. Qed.

Lemma config_valid : validate_config config = Ok ().
Proof. vm_compute. reflexivity. Qed.

Example retrieve_iff_witness :
  exists r, retrieve_with config keys worlds = Ok r /\ 2 <= vec_len (answers config keys worlds).
Proof.
  pose proof retrieves as Hr. destruct (retrieve_with config keys worlds) as [r|] eqn:E; [|destruct Hr].
  exists r. split; [reflexivity|]. apply (retrieve_iff config keys worlds r eq_refl) in E.
  destruct E as (_ & _ & _ & _ & Hn & _). exact Hn.
Defined.

Example retrieved_evidence_replicated_witness :
  exists d stores, digest contract = Ok d /\ 2 <= vec_len stores /\
    NoDup (StoreConfig.failure_domain <$> stores).
Proof.
  pose proof retrieves as Hr. destruct (retrieve_with config keys worlds) as [r|] eqn:E; [|destruct Hr].
  destruct (retrieved_evidence_replicated config keys worlds r contract config_valid E
              (head_Some_elem_of _ _ Hr)) as (d & stores & Hd & _ & Hnd & Hn & _).
  exists d, stores. split; [exact Hd|]. split; [exact Hn|exact Hnd].
Defined.
End EvidenceQuorumWitness.
