(* ===== verification/EvidenceFiles.v ===== *)
(** src/evidence_plane.rs: how long a seal opens, and that an output directory comes and
    goes whole. *)
From stdpp Require Import pretty.
From S2P Require Import Prelude Effects FileTree External Json Core Model Canonical Disk Text EvidencePlane.
From S2P Require Fragments Operations.

(** * Names of fragments *)

Lemma pretty_nat_digits (i : nat) :
  Forall is_digit_byte (bytes_of_string (pretty i)) /\ digits_value 0 (bytes_of_string (pretty i)) = Z.of_nat i.
Proof. rewrite <- nat_N_Z. apply (pretty_digits (N.of_nat i)). Qed.

Lemma padded_digits i :
  Forall is_digit_byte (bytes_of_string (padded i)) /\ digits_value 0 (bytes_of_string (padded i)) = Z.of_nat i.
Proof.
  unfold padded. destruct (pretty_nat_digits i) as [Hd Hv].
  rewrite string_app_bytes, bytes_of_string_of_bytes by (apply Forall_replicate; unfold is_byte; lia). split.
  - apply Forall_app. split; [|done]. apply Forall_replicate. unfold is_digit_byte. lia.
  - unfold digits_value in *. rewrite foldl_app.
    assert (foldl (fun acc b => acc * 10 + (b - 48)) 0 (replicate (5 - String.length (pretty i)) 48) = 0) as ->.
    { induction (5 - String.length (pretty i))%nat as [|n IH]; [done|exact IH]. }
    done.
Qed.

Lemma fragment_name_bytes i :
  bytes_of_string (fragment_name i) =
    bytes_of_string "fragment-" ++ bytes_of_string (padded i) ++ bytes_of_string ".json".
Proof. unfold fragment_name. by rewrite !string_app_bytes. Qed.

Lemma fragment_name_inj i j : fragment_name i = fragment_name j -> i = j.
Proof.
  intros Heq. apply (f_equal bytes_of_string) in Heq. rewrite !fragment_name_bytes in Heq.
  apply app_inv_head, app_inv_tail in Heq. pose proof (proj2 (padded_digits i)). 
  pose proof (proj2 (padded_digits j)). rewrite Heq in *. lia.
Qed.

Lemma fragment_name_extension i : Operations.extension (fragment_name i) = Some "json".
Proof.
  unfold Operations.extension, fragment_name. change ".json" with (String.String "." "json").
  change ("fragment-" +:+ padded i +:+ String.String "." "json")
    with (("fragment-" +:+ padded i) +:+ String.String "." "json").
  rewrite Fragments.split_on_app; [done|]. rewrite string_app_bytes. apply Forall_app. split.
  - vm_compute. repeat constructor; done.
  - eapply Forall_impl; [apply padded_digits|]. intros b Hb ->. unfold is_digit_byte in Hb.
    change (byte_of_ascii ".") with 46 in Hb. lia.
Qed.

(** * Seals *)

Section Seals.
Context `{OsErrorText, SerdeErrorText, JsonText, Sha256, Hex, Hmac, Ed25519, Jiff, Aead, !HexLaws, !AeadLaws}.
Context `{!ToValue FragmentContent.FragmentContent, !ToValue Fragments.UnsignedEnvelope}.
Context `{!ToValue ProtectedEvidence.ProtectedEvidence, !FromSlice ProtectedEvidence.ProtectedEvidence}.
Context `{!SerdeLaws ProtectedEvidence.ProtectedEvidence}.

(** Sealed evidence opens under the same key, at every instant before its deletion
    time and at none from then on, and whatever the instant when its ciphertext is longer
    than [unseal] reads ([seal] has no such bound). *)
Theorem seal_lifetime nonce envelope key created_at delete_after sealed keys verification_time now :
  length nonce = 24%nat -> Forall is_byte nonce ->
  seal nonce envelope key created_at delete_after = Ok sealed ->
  bt_get (RecoveryKeyFile.key_id key) keys = Some key ->
  ts_strptime verification_time = Some now ->
  exists msg deadline,
    encode (ProtectedEvidence.Build_ProtectedEvidence created_at delete_after envelope) = Ok msg /\
    ts_strptime delete_after = Some deadline /\
    unseal sealed keys verification_time =
      if MAX_BUNDLE_BYTES <? vec_len msg + 16 then Err (SearchExhausted "sealed evidence exceeds 16 MiB")
      else if deadline <=? now then Err (InvalidEvidence "evidence retention has expired")
      else Ok envelope.
Proof.
  intros Hlen Hbytes Hseal Hkey Hnow. unfold seal in Hseal. inv_ok. injection Hseal as <-.
  unfold parse_time in Ha1. apply ok_or_Ok in Ha1. exists a3, a1. split_and!; [done..|].
  unfold unseal. cbn [SealedEvidence.version SealedEvidence.key_id SealedEvidence.nonce_hex
    SealedEvidence.ciphertext_hex]. rewrite bool_decide_eq_true_2 by done. cbn [negb].
  rewrite Hkey. cbn [ok_or mbind result_bind]. rewrite Ha. cbn [mbind result_bind].
  rewrite !hex_decode_encode by (first [done|by eapply aead_bytes]). cbn [ok_or mbind result_bind].
  rewrite (proj2 (try_into_array_Some 24 nonce nonce)) by done. cbn [ok_or mbind result_bind].
  pose proof (aead_length _ _ _ _ _ Ha4) as Hcl. change (vec_len a4 = vec_len a3 + 16) in Hcl.
  rewrite Hcl. destruct (MAX_BUNDLE_BYTES <? vec_len a3 + 16); [done|]. rewrite Ha2. cbn [mbind result_bind].
  rewrite (aead_decrypt_encrypt _ _ _ _ _ Ha4). cbn [ok_or mbind result_bind].
  rewrite (from_slice_encode _ _ Ha3). cbn [ok_or mbind result_bind ProtectedEvidence.delete_after
    ProtectedEvidence.envelope]. unfold parse_time. rewrite Hnow, Ha1. done.
Qed.
End Seals.

(** * The output directory *)

(** The files of fragments/, from index [i], for the envelopes that serialise to [bytes]. *)
Fixpoint fragment_files (i : nat) (bytes : list (list Z)) : list (string * Node) :=
  match bytes with
  | [] => []
  | b :: bytes => (fragment_name i, RegularFile b) :: fragment_files (S i) bytes
  end.

Lemma fragment_files_elem i bytes x :
  x ∈ fragment_files i bytes -> exists k b, (i <= k)%nat /\ b ∈ bytes /\ x = (fragment_name k, RegularFile b).
Proof.
  revert i. induction bytes as [|b bytes IH]; intros i Hx; [by apply elem_of_nil in Hx|].
  apply elem_of_cons in Hx as [->|Hx].
  - exists i, b. split_and!; [done|by left|done].
  - apply IH in Hx as (k & b' & Hk & Hb & ->). exists k, b'. split_and!; [lia|by right|done].
Qed.

Lemma fragment_files_fresh k i bytes : (k < i)%nat -> fragment_name k ∉ (fragment_files i bytes).*1.
Proof.
  intros Hk (x & Heq & Hx)%list_elem_of_fmap. apply fragment_files_elem in Hx as (j & b & Hj & _ & ->).
  apply fragment_name_inj in Heq. lia.
Qed.

Lemma fragment_files_NoDup i bytes : NoDup (fragment_files i bytes).*1.
Proof.
  revert i. induction bytes as [|b bytes IH]; intros i; [constructor|]. cbn [fragment_files fmap list_fmap].
  apply NoDup_cons. split; [apply fragment_files_fresh; cbn; lia|apply IH].
Qed.

Lemma fragment_files_length i bytes : vec_len (fragment_files i bytes) = vec_len bytes.
Proof. unfold vec_len. f_equal. revert i. induction bytes; intros i; simpl; auto. Qed.

Section Files.
Context `{OsErrorText, DirectoryErrorText, NotEmptyText, LinkTargets, SerdeErrorText, JsonText, Sha256, Hex}.
Context `{!ToValue Fragments.Envelope.Envelope, !ToValue EvidencePlaneReceipt.EvidencePlaneReceipt}.

Lemma run_in_fragments {A} (m : prog Entries A) o d fs r fs' d' :
  m (Build_Disk fs d) = (r, Build_Disk fs' d') ->
  in_fragments (inside m) (Build_Disk fs {| output := o; fragments := Real d |}) =
    (r, Build_Disk fs' {| output := o; fragments := Real d' |}).
Proof.
  intros Hm. apply (run_zoom fragments set_fragments (inside m) fs {| output := o; fragments := Real d |}).
  by apply calm_inside.
Qed.

Lemma run_in_output {A} (m : prog Entries A) p d fs r fs' d' :
  m (Build_Disk fs d) = (r, Build_Disk fs' d') ->
  in_output (inside m) (Build_Disk fs {| output := Real d; fragments := p |}) =
    (r, Build_Disk fs' {| output := Real d'; fragments := p |}).
Proof.
  intros Hm. apply (run_zoom output set_output (inside m) fs {| output := Real d; fragments := p |}).
  by apply calm_inside.
Qed.

Lemma or_undo_ok created (m : prog Output ()) o o' :
  m (calm o) = (Ok (), calm o') -> or_undo created m (calm o) = (Ok (), calm o').
Proof. intros Hm. unfold or_undo. by rewrite (run_bind _ _ _ _ _ (calm_attempt _ _ (Ok ()) _ Hm)). Qed.

Lemma write_fragments_calm o envelopes bytes : forall i created (d : Entries),
  Forall2 (fun e b => encode e = Ok b) envelopes bytes ->
  (forall k, (i <= k)%nat -> d !! fragment_name k = None) ->
  write_fragments envelopes i created (calm {| output := o; fragments := Real d |}) =
    (Ok (created ++ (fragment_files i bytes).*1),
     calm {| output := o; fragments := Real (list_to_map (fragment_files i bytes) ∪ d) |}).
Proof.
  revert bytes. induction envelopes as [|e envelopes IH]; intros [|b bytes] i created d Henc Hd;
    inversion Henc as [|? ? ? ? He Hes]; subst; cbn [write_fragments fragment_files list_to_map foldr].
  - by rewrite app_nil_r, map_empty_union.
  - rewrite (run_bind _ _ _ _ _ (run_pure _ _ _ He)). cbn beta.
    rewrite (run_bind _ _ _ _ _ (or_undo_ok _ _ _ _ (run_in_fragments _ _ _ _ _ _ _
      (calm_write_new_synced _ b d (Hd i ltac:(lia)))))).
    rewrite (IH bytes); [|done|].
    + cbn [fmap list_fmap fst]. rewrite <- app_assoc. cbn [app fst snd].
      rewrite <- insert_union_r by (apply not_elem_of_list_to_map_1, fragment_files_fresh; lia).
      by rewrite insert_union_l.
    + intros k Hk. rewrite lookup_insert_ne; [apply Hd; lia|]. intros Heq%fragment_name_inj. lia.
Qed.

Lemma calm_remove_fragments o :
  remove_fragments (calm {| output := o; fragments := Real ∅ |}) =
    (Ok (), calm {| output := o; fragments := Absent |}).
Proof. apply calm_system. cbn. by rewrite bool_decide_eq_true_2. Qed.

Lemma calm_remove_output :
  remove_output (calm {| output := Real ∅; fragments := Absent |}) =
    (Ok (), calm {| output := Absent; fragments := Absent |}).
Proof. apply calm_system. cbn. by rewrite bool_decide_eq_true_2. Qed.

(** Entries that [delete_materialized] removes. *)
Definition removable (x : string * Node) : Prop :=
  Operations.extension x.1 = Some "json" /\
  exists b, x.2 = RegularFile b /\ vec_len b <= MAX_BUNDLE_BYTES.

Lemma check_removable name b paths :
  Operations.extension name = Some "json" -> vec_len b <= MAX_BUNDLE_BYTES ->
  check_fragment (name, RegularFile b) paths =
    if 10000 <? vec_len paths + 1
    then Err (SearchExhausted "evidence output entry bound exceeded") else Ok (paths ++ [name]).
Proof.
  intros Hx Hmax. unfold check_fragment. cbn [fst snd].
  rewrite (proj2 (Z.ltb_ge MAX_BUNDLE_BYTES (vec_len b))) by done.
  rewrite bool_decide_eq_true_2 by done. cbn [negb orb].
  replace (vec_len (paths ++ [name])) with (vec_len paths + 1); [done|].
  unfold vec_len. rewrite length_app. simpl. lia.
Qed.

Lemma check_fragments l : forall paths,
  Forall removable l -> vec_len paths <= 10000 ->
  for_each l paths check_fragment =
    if 10000 <? vec_len paths + vec_len l
    then Err (SearchExhausted "evidence output entry bound exceeded") else Ok (paths ++ l.*1).
Proof.
  induction l as [|[name node] l IH]; intros paths Hl Hp; cbn [for_each].
  - unfold vec_len in *. simpl. rewrite app_nil_r. by eval_tests.
  - apply Forall_cons in Hl as [(Hx & b & Hb & Hmax) Hl]. cbn in Hx, Hb. subst node.
    rewrite (check_removable name b) by done.
    assert (vec_len ((name, RegularFile b) :: l) = vec_len l + 1) as Hlen' by (unfold vec_len; simpl; lia).
    assert (vec_len (paths ++ [name]) = vec_len paths + 1) as Hlen by (unfold vec_len; rewrite length_app; simpl; lia).
    assert (0 <= vec_len l) by (unfold vec_len; lia). rewrite Hlen'.
    destruct (Z.ltb_spec 10000 (vec_len paths + 1)); cbn [mbind result_bind].
    + by eval_tests.
    + rewrite IH by (done || lia). rewrite Hlen. replace (vec_len paths + 1 + vec_len l)
        with (vec_len paths + (vec_len l + 1)) by lia. cbn [fmap list_fmap fst]. by rewrite <- app_assoc.
Qed.

Lemma remove_all o (l : list (string * Node)) :
  Forall removable l -> NoDup l.*1 ->
  op_for l.*1 () (fun path _ => in_fragments (inside (remove_file path)))
    (calm {| output := o; fragments := Real (list_to_map l) |}) =
    (Ok (), calm {| output := o; fragments := Real ∅ |}).
Proof.
  induction l as [|[name node] l IH]; [done|]. cbn [fmap list_fmap fst op_for].
  intros [(_ & b & Hb & _) Hl]%Forall_cons [Hfresh Hnd]%NoDup_cons. cbn in Hb. subst node.
  assert (list_to_map (M := Entries) l !! name = None) as Hn by by apply not_elem_of_list_to_map_1.
  rewrite (run_bind _ _ _ _ _ (run_in_fragments _ _ _ _ _ _ _
    (calm_remove_file name b (list_to_map ((name, RegularFile b) :: l)) (lookup_insert_eq _ _ _)))).
  cbn [list_to_map foldr fst snd]. rewrite delete_insert_id by done. by apply IH.
Qed.

Definition nothing : Disk Output := calm {| output := Absent; fragments := Absent |}.

(** What [materialize] makes of serialised envelopes and receipt. *)
Definition materialized (bytes : list (list Z)) (receipt : list Z) : Output :=
  {| output := Real {["receipt.json" := RegularFile receipt]};
     fragments := Real (list_to_map (fragment_files 0 bytes)) |}.

Lemma materialize_calm retrieved bytes receipt :
  Forall2 (fun e b => encode e = Ok b) (RetrievedEvidence.envelopes retrieved) bytes ->
  encode (RetrievedEvidence.receipt retrieved) = Ok receipt ->
  materialize retrieved nothing = (Ok (RetrievedEvidence.receipt retrieved), calm (materialized bytes receipt)).
Proof.
  intros Hb Hr. unfold materialize, nothing.
  rewrite (run_bind _ _ _ _ _ (run_read (fun o => Ok (place_present (output o))) false
    (calm {| output := Absent; fragments := Absent |}) eq_refl)). cbn beta iota.
  assert (in_output create_dir (calm {| output := Absent; fragments := Absent |})
          = (Ok (), calm {| output := Real ∅; fragments := Absent |})) as Hout by done.
  assert (attempt (in_fragments create_dir) (calm {| output := Real ∅; fragments := Absent |})
          = (Ok (Ok ()), calm {| output := Real ∅; fragments := Real ∅ |})) as Hin by done.
  rewrite (run_bind _ _ _ _ _ Hout). cbn beta. rewrite (run_bind _ _ _ _ _ Hin). cbn beta iota.
  rewrite (run_bind (mret ()) _ (calm {| output := Real ∅; fragments := Real ∅ |}) () _ eq_refl). cbn beta.
  rewrite (run_bind _ _ _ _ _ (write_fragments_calm (Real ∅) _ bytes 0 [] ∅ Hb (fun k _ => lookup_empty _))).
  cbn beta. rewrite (run_bind _ _ _ _ _ (run_pure _ _ _ Hr)). cbn beta.
  rewrite (run_bind _ _ _ _ _ (or_undo_ok _ _ _ _ (run_in_output _ _ _ _ _ _ _
    (calm_write_new_synced "receipt.json" receipt ∅ (lookup_empty _))))).
  unfold materialized. rewrite (right_id_L ∅ (∪)). done.
Qed.

Lemma delete_calm bytes receipt :
  Forall (fun b => vec_len b <= MAX_BUNDLE_BYTES) bytes -> vec_len receipt <= MAX_BUNDLE_BYTES ->
  delete_materialized (calm (materialized bytes receipt)) =
    if 10000 <? vec_len bytes
    then (Err (Raised (SearchExhausted "evidence output entry bound exceeded")), calm (materialized bytes receipt))
    else (Ok (vec_len bytes + 1), nothing).
Proof.
  intros Hb Hr. unfold delete_materialized, materialized. set (files := fragment_files 0 bytes).
  set (l := map_to_list (list_to_map files : Entries)).
  assert (l ≡ₚ files) as Hperm by apply map_to_list_to_map, fragment_files_NoDup.
  assert (Forall removable l) as Hl.
  { rewrite Hperm. apply Forall_forall. intros x (k & b & _ & Hin & ->)%fragment_files_elem.
    split; [apply fragment_name_extension|]. exists b. split; [done|]. by apply (proj1 (Forall_forall _ _) Hb). }
  set (o := {| output := _; fragments := _ |}).
  assert (in_output (real_directory (InvalidEvidence "evidence output must be a real directory")) (calm o)
          = (Ok (), calm o)) as Hout by done.
  assert (in_fragments (real_directory (InvalidEvidence "evidence fragments path must be a real directory"))
            (calm o) = (Ok (), calm o)) as Hin by done.
  assert (in_output (inside (read_bounded (not_bounded "evidence receipt") MAX_BUNDLE_BYTES "receipt.json"))
            (calm o) = (Ok receipt, calm o)) as Hrec.
  { apply run_in_output. by apply calm_read_bounded. }
  assert (read root_entries (calm o) = (Ok 2, calm o)) as Hroot.
  { apply run_read. cbn. by rewrite map_size_singleton. }
  rewrite (run_bind _ _ _ _ _ Hout). cbn beta.
  rewrite (run_bind _ _ _ _ _ Hrec). cbn beta.
  rewrite (run_bind _ _ _ _ _ Hin). cbn beta. rewrite (run_bind _ _ _ _ _ Hroot). cbn beta.
  change (negb (2 =? 2)) with false. cbn iota.
  assert (in_fragments (inside (read (fun d => for_each (map_to_list d) [] check_fragment))) (calm o) =
            (map_err Raised (if 10000 <? vec_len bytes
                             then Err (SearchExhausted "evidence output entry bound exceeded") else Ok l.*1),
             calm o)) as Hcheck.
  { apply run_in_fragments. unfold read, reads. cbn [content]. fold l. rewrite check_fragments by done.
    replace (vec_len (@nil string) + vec_len l) with (vec_len bytes); [done|].
    rewrite <- (fragment_files_length 0). fold files. unfold vec_len. rewrite Hperm. simpl. lia. }
  destruct (10000 <? vec_len bytes).
  - by rewrite (run_bind_Err _ _ _ _ _ Hcheck).
  - rewrite (run_bind _ _ _ _ _ Hcheck). cbn beta.
    replace (vec_len bytes) with (vec_len l.*1).
    2: { unfold vec_len. rewrite length_fmap, Hperm. apply fragment_files_length. }
    subst o. rewrite <- (list_to_map_to_list (list_to_map files : Entries)). fold l.
    rewrite (run_bind _ _ _ _ _ (remove_all _ l Hl ltac:(apply NoDup_fst_map_to_list))). cbn beta.
    rewrite (run_bind _ _ _ _ _ (calm_remove_fragments _)). cbn beta.
    assert (in_output (inside (remove_file "receipt.json"))
      (calm {| output := Real {["receipt.json" := RegularFile receipt]}; fragments := Absent |})
      = (Ok (), calm {| output := Real ∅; fragments := Absent |})) as Hrm.
    { apply run_in_output. rewrite (calm_remove_file _ receipt) by apply lookup_singleton_eq.
      by rewrite delete_singleton_eq. }
    rewrite (run_bind _ _ _ _ _ Hrm). cbn beta. by rewrite (run_bind _ _ _ _ _ calm_remove_output).
Qed.

(** [materialize] writes to a fresh directory exactly the receipt and one file for each
    envelope, and [delete_materialized] then removes it all, unless there are more than
    10,000 envelopes: it refuses those, and the directory stays. *)
Theorem materialized_deleted retrieved bytes receipt :
  Forall2 (fun e b => encode e = Ok b) (RetrievedEvidence.envelopes retrieved) bytes ->
  encode (RetrievedEvidence.receipt retrieved) = Ok receipt ->
  Forall (fun b => vec_len b <= MAX_BUNDLE_BYTES) bytes -> vec_len receipt <= MAX_BUNDLE_BYTES ->
  materialize retrieved nothing =
    (Ok (RetrievedEvidence.receipt retrieved), calm (materialized bytes receipt)) /\
  delete_materialized (calm (materialized bytes receipt)) =
    if 10000 <? vec_len bytes
    then (Err (Raised (SearchExhausted "evidence output entry bound exceeded")), calm (materialized bytes receipt))
    else (Ok (vec_len bytes + 1), nothing).
Proof. intros Hb Hr Hmax Hrmax. split; [by apply materialize_calm|by apply delete_calm]. Qed.

(** When the first fragment cannot be written whole, [materialize] fails and leaves its
    directory with that part of a fragment in it; then nothing the module offers
    succeeds: [materialize] finds the directory, [delete_materialized] finds no receipt. *)
Theorem failed_write_strands_output retrieved envelope rest bytes error n :
  RetrievedEvidence.envelopes retrieved = envelope :: rest -> encode envelope = Ok bytes ->
  let stranded :=
    calm {| output := Real ∅; fragments := Real {[fragment_name 0 := RegularFile (take n bytes)]} |} in
  materialize retrieved (Build_Disk [Goes; Goes; Goes; Breaks error n] (content nothing)) =
    (Err (Raised (Io error)), stranded) /\
  (forall again, materialize again stranded =
     (Err (Raised (InvalidEvidence "evidence output directory already exists")), stranded)) /\
  delete_materialized stranded = (Err (Raised (Io not_found)), stranded).
Proof.
  intros He Hb stranded. split; [|done].
  assert (write_fragments (envelope :: rest) 0 []
            (Build_Disk [Goes; Breaks error n] {| output := Real ∅; fragments := Real ∅ |}) =
            (Err (Raised (Io error)), stranded)) as Hwrite.
  { cbn [write_fragments]. rewrite (run_bind _ _ _ _ _ (run_pure _ _ _ Hb)). cbn beta.
    apply run_bind_Err. subst stranded. generalize (fragment_name 0). intros name.
    assert (in_fragments (inside (write_regular_new name bytes))
              (Build_Disk [Goes; Breaks error n] {| output := Real ∅; fragments := Real ∅ |}) =
            (Err (Raised (Io error)),
             calm {| output := Real ∅; fragments := Real {[name := RegularFile (take n bytes)]} |})) as Hw.
    { apply run_in_fragments. unfold write_regular_new, write_new_synced, create_new, write_all, mbind, op_bind,
        system. cbn. rewrite lookup_empty. cbn. by rewrite insert_insert_eq. }
    unfold or_undo, attempt at 1, mbind, op_bind. rewrite Hw. cbn.
    unfold ignoring, attempt, remove_fragments, mbind, op_bind, system. cbn.
    rewrite bool_decide_eq_false_2; [done|]. apply map_non_empty_singleton. }
  unfold materialize. rewrite He.
  unfold mbind, op_bind. cbn -[write_fragments stranded].
  match goal with |- context [write_fragments _ _ _ ?s] =>
    change s with (Build_Disk [Goes; Breaks error n] {| output := Real ∅; fragments := Real ∅ |}) end.
  by rewrite Hwrite.
Qed.
End Files.

(** * Witnesses *)

Module EvidenceFilesWitness.
Import Fragments.FragmentsWitness.
#[local] Existing Instances Toy.sha Toy.hexi Toy.hex_laws Toy.aead Toy.aead_laws Toy.jiff.
#[local] Existing Instances Fragments.FragmentsWitness.error_text Fragments.FragmentsWitness.text.
#[local] Instance os_text : OsErrorText := {| not_found := "not found"; already_exists := "exists" |}.
#[local] Instance directory_text : DirectoryErrorText :=
  {| is_a_directory := "is a directory"; not_a_directory := "not a directory" |}.
#[local] Instance not_empty_text : NotEmptyText := "not empty".
#[local] Instance links : LinkTargets := fun _ => false.

Definition protected : ProtectedEvidence.ProtectedEvidence :=
  {| ProtectedEvidence.created_at := "2025"; ProtectedEvidence.delete_after := "2027";
     ProtectedEvidence.envelope := contract |}.

#[local] Instance protected_eq_dec : EqDecision ProtectedEvidence.ProtectedEvidence.
Proof. pose proof Fragments.Envelope.Envelope_eq_dec. solve_decision. Defined.

(** Only this one serialises. *)
#[local] Instance serialise_protected : ToValue ProtectedEvidence.ProtectedEvidence :=
  fun p => if decide (p = protected) then Some (String "protected") else None.
#[local] Instance read_protected : FromSlice ProtectedEvidence.ProtectedEvidence := fun bytes =>
  if decide (bytes = bytes_of_string "protected") then Some protected else None.
#[local] Instance protected_laws : SerdeLaws ProtectedEvidence.ProtectedEvidence.
Proof.
  intros p v. unfold to_value, serialise_protected. destruct (decide (p = protected)) as [->|]; [|done].
  intros [= <-]. unfold from_slice, read_protected. by rewrite decide_True.
Qed.

Definition key : RecoveryKeyFile.RecoveryKeyFile :=
  {| RecoveryKeyFile.version := "evidence-key-v1"; RecoveryKeyFile.key_id := "k";
     RecoveryKeyFile.key_hex := hex_encode (replicate 32 7); RecoveryKeyFile.created_at := "2025" |}.
Definition nonce : list Z := replicate 24 1.

Lemma seals_contract : is_ok (seal nonce contract key "2025" "2027") = true.
Proof. vm_compute. reflexivity. Qed.
Lemma encodes_protected : encode protected = Ok (bytes_of_string "protected").
Proof. vm_compute. reflexivity. Qed.
Lemma instants : ts_strptime "2026" = Some 2026000 /\ ts_strptime "2027" = Some 2027000.
Proof. vm_compute. split; reflexivity. Qed.

Example seal_lifetime_witness :
  exists sealed, seal nonce contract key "2025" "2027" = Ok sealed /\
    unseal sealed [("k", key)] "2026" = Ok contract.
Proof.
  pose proof seals_contract as Hs. destruct (seal nonce contract key "2025" "2027") as [sealed|] eqn:E; [|discriminate Hs].
  exists sealed. split; [reflexivity|].
  destruct (seal_lifetime nonce contract key "2025" "2027" sealed [("k", key)] "2026" 2026000)
    as (msg & deadline & Hm & Hd & ->); [reflexivity|repeat constructor; unfold is_byte; lia|exact E|reflexivity|apply instants|].
  change (encode protected = Ok msg) in Hm. rewrite encodes_protected in Hm. injection Hm as <-.
  rewrite (proj2 instants) in Hd. injection Hd as <-. reflexivity.
Defined.

#[local] Instance serialise_signed : ToValue Fragments.Envelope.Envelope :=
  fun e => Some (String (Fragments.Envelope.content_digest e)).
#[local] Instance serialise_receipt : ToValue EvidencePlaneReceipt.EvidencePlaneReceipt :=
  fun _ => Some (String "receipt").

Definition retrieved : RetrievedEvidence.RetrievedEvidence :=
  {| RetrievedEvidence.receipt :=
       {| EvidencePlaneReceipt.successful_stores := 1; EvidencePlaneReceipt.failed_stores := [];
          EvidencePlaneReceipt.provenance := []; EvidencePlaneReceipt.fragment_domains := [];
          EvidencePlaneReceipt.envelope_count := 2; EvidencePlaneReceipt.verification_audit := [] |};
     RetrievedEvidence.envelopes := [contract; schema] |}.
Definition written (e : Fragments.Envelope.Envelope) : list Z :=
  bytes_of_string (Fragments.Envelope.content_digest e).

Lemma written_small e : e ∈ [contract; schema] -> vec_len (written e) <= MAX_BUNDLE_BYTES.
Proof. intros [->|[->|[]%elem_of_nil]%elem_of_cons]%elem_of_cons; vm_compute; discriminate. Qed.

Example materialized_deleted_witness :
  (delete_materialized (calm (materialized [written contract; written schema] (bytes_of_string "receipt")))).1 = Ok 3.
Proof.
  destruct (materialized_deleted retrieved [written contract; written schema] (bytes_of_string "receipt"))
    as [_ ->]; [repeat constructor|reflexivity| |vm_compute; discriminate|reflexivity].
  repeat constructor; apply written_small; [left|right; left].
Defined.

Example failed_write_strands_output_witness :
  (materialize retrieved (Build_Disk [Goes; Goes; Goes; Breaks "full" 1] (content nothing))).1 =
    Err (Raised (Io "full")).
Proof.
  destruct (failed_write_strands_output retrieved contract [schema] (written contract) "full" 1)
    as [-> _]; reflexivity.
Defined.
End EvidenceFilesWitness.
