(* ===== verification/Stateful.v ===== *)
(** src/stateful.rs, what its adapters share: snapshots, migration plans, receipts and
    activation plans with their integrity checks, the bounds, the rules for names and
    connections, and the interface of an adapter.  The adapters are in [Redis],
    [ObjectStore] and [Postgres]. *)
From S2P Require Import Prelude Effects External Json Core Model Canonical Text.
From S2P Require Fragments Protocol.

Definition MAX_STATE_ITEMS : Z := 10000.
Definition MAX_STATE_BYTES : Z := 64 * 1024 * 1024.

Inductive BackendKind := PostgreSql | S3Compatible | RedisStream.

#[export] Instance BackendKind_eq_dec : EqDecision BackendKind.
Proof. solve_decision. Defined.

(** The derived order: that of the constructors. *)
Definition backend_rank (kind : BackendKind) : Z :=
  match kind with PostgreSql => 0 | S3Compatible => 1 | RedisStream => 2 end.
#[export] Instance ord_backend : Ord BackendKind := fun a b => backend_rank a ?= backend_rank b.
#[export] Instance ord_backend_laws : OrdLaws BackendKind.
Proof.
  split; unfold cmp, ord_backend.
  - intros a b. rewrite Z.compare_eq_iff. split; [|by intros ->]. by destruct a, b.
  - intros a b. apply Z.compare_antisym.
  - intros a b c. rewrite !Z.compare_lt_iff. lia.
Qed.

Module StateSchema.
Record StateSchema := {
  backend : BackendKind;
  resource : string;
  definition : string;
  invariants : list string;
}.
#[export] Instance StateSchema_eq_dec : EqDecision StateSchema.
Proof. solve_decision. Defined.
End StateSchema.

Module StateItem.
Record StateItem := { key : string; fields : btree_map string string; payload : list Z }.
#[export] Instance StateItem_eq_dec : EqDecision StateItem.
Proof. solve_decision. Defined.
End StateItem.

Module StateSnapshot.
Record StateSnapshot := {
  version : string;
  schema : StateSchema.StateSchema;
  consistency : string;
  items : list StateItem.StateItem;
  schema_sha256 : string;
  data_sha256 : string;
}.
End StateSnapshot.

Module MigrationPlan.
Record MigrationPlan := {
  version : string;
  backend : BackendKind;
  source_schema_sha256 : string;
  target_resource : string;
  operations : list string;
  rollback_strategy : string;
}.
End MigrationPlan.

Module RestoreReceipt.
Record RestoreReceipt := {
  backend : BackendKind;
  target_resource : string;
  snapshot_sha256 : string;
  migration_sha256 : string;
  verified_data_sha256 : string;
  rollback_token : string;
}.
End RestoreReceipt.

Module ActivationStateBinding.
Record ActivationStateBinding := {
  backend : BackendKind;
  resource : string;
  schema_sha256 : string;
  snapshot_sha256 : string;
  migration_sha256 : string;
}.
End ActivationStateBinding.

Module ActivationPlan.
Record ActivationPlan := {
  version : string;
  candidate_sha256 : string;
  certificate_sha256 : string;
  service_manifest_sha256 : string;
  states : list ActivationStateBinding.ActivationStateBinding;
  plan_sha256 : string;
}.
Definition with_digest (d : string) (p : ActivationPlan) : ActivationPlan :=
  {| version := version p; candidate_sha256 := candidate_sha256 p; certificate_sha256 := certificate_sha256 p;
     service_manifest_sha256 := service_manifest_sha256 p; states := states p; plan_sha256 := d |}.
End ActivationPlan.

Abbreviation StateSchema := StateSchema.StateSchema.
Abbreviation StateItem := StateItem.StateItem.
Abbreviation StateSnapshot := StateSnapshot.StateSnapshot.
Abbreviation MigrationPlan := MigrationPlan.MigrationPlan.
Abbreviation RestoreReceipt := RestoreReceipt.RestoreReceipt.
Abbreviation ActivationPlan := ActivationPlan.ActivationPlan.

(** The operations of an adapter on a server in a state of type [S]. *)
Record TransactionalStateAdapter (S : Type) := {
  discover : op S Error StateSchema;
  snapshot : op S Error StateSnapshot;
  plan : StateSnapshot -> string -> op S Error MigrationPlan;
  restore : StateSnapshot -> MigrationPlan -> op S Error RestoreReceipt;
  verify : StateSnapshot -> string -> op S Error ();
  rollback : RestoreReceipt -> op S Error ();
  verify_receipt : RestoreReceipt -> op S Error ();
  commit : RestoreReceipt -> op S Error ();
}.

Definition invalid (message : string) : Error := InvalidEvidence message.

(** [serde_json::to_vec] of a type *)
Class ToVec (T : Type) := to_vec : T -> option (list Z).
Class ToVecLaws (T : Type) `{ToVec T, FromSlice T} : Prop :=
  from_slice_vec : forall x bytes, to_vec x = Some bytes -> from_slice bytes = Some x.

Definition json_error `{SerdeErrorText} : Error := Model.Json serde_error_text.

(** A call of a backend, with its error. *)
Definition backend {S A} (call : op S string A) : op S Error A := fun s =>
  match call s with
  | (Ok a, s') => (Ok a, s')
  | (Err error, s') => (Err (InvalidEvidence ("state backend error: " +:+ error)), s')
  end.

Lemma run_backend {S A} (call : op S string A) s a s' :
  call s = (Ok a, s') -> backend call s = (Ok a, s').
Proof. intros Hc. unfold backend. by rewrite Hc. Qed.

Lemma run_backend_Err {S A} (call : op S string A) s e s' :
  call s = (Err e, s') -> backend call s = (Err (InvalidEvidence ("state backend error: " +:+ e)), s').
Proof. intros Hc. unfold backend. by rewrite Hc. Qed.

(** The outcome of a call as a value. *)
Definition outcome {S A} (m : op S Error A) : op S Error (result Error A) := fun s =>
  let '(r, s') := m s in (Ok r, s').
Lemma takes_outcome {S V A} (look : S -> V) (p : op S Error A) v r w :
  takes look p v r w -> takes look (outcome p) v (Ok r) w.
Proof. intros Hp s Hs. destruct (Hp s Hs) as (s1 & Hr & Hs1). exists s1. split; [|done]. unfold outcome. by rewrite Hr. Qed.

(** ** Bounds and names *)

Definition item_bytes (i : StateItem) : Z :=
  str_len (StateItem.key i) + vec_len (StateItem.payload i)
  + foldr (fun kv acc => str_len kv.1 + str_len kv.2 + acc) 0 (StateItem.fields i).

(** [try_fold] of [checked_add]. *)
Fixpoint total_from (n : Z) (items : list StateItem) : option Z :=
  match items with
  | [] => Some n
  | i :: items => n ← checked_add u64_max n (item_bytes i); total_from n items
  end.

Definition enforce_bounds (items : list StateItem) : result Error () :=
  if (MAX_STATE_ITEMS <? vec_len items)
     || match total_from 0 items with None => true | Some n => MAX_STATE_BYTES <? n end
  then Err (invalid "state snapshot exceeds item or byte bounds") else Ok ().

(** A [Read]: the bytes it gives, and the error it then fails with, if any. *)
Definition Reader : Type := list Z * option string.

Definition read_bounded (reader : Reader) (maximum : Z) (resource : string) : result Error (list Z) :=
  let limit := saturating_add_u64 maximum 1 in
  let payload := take (Z.to_nat limit) reader.1 in
  _ ← match reader.2 with
      | Some error => if vec_len reader.1 <? limit then Err (Io error) else Ok ()
      | None => Ok ()
      end;
  if maximum <? vec_len payload then Err (invalid (resource +:+ " exceeds state byte bound")) else Ok payload.

Fixpoint identifier_bytes (first : bool) (bytes : list Z) : bool :=
  match bytes with
  | [] => true
  | b :: bytes =>
      ((b =? 95) || is_ascii_lowercase b || (negb first && is_ascii_digit b)) && identifier_bytes false bytes
  end.

Definition validate_identifier (v : string) : result Error () :=
  if str_is_empty v || (63 <? str_len v) || negb (identifier_bytes true (bytes_of_string v))
  then Err (invalid "database identifiers must be lowercase ASCII identifiers") else Ok ().

Definition quotation : string := string_of_bytes [34].
Definition quote (v : string) : string := quotation +:+ v +:+ quotation.

Definition validate_prefix (v : string) : result Error () :=
  if str_is_empty v || (256 <? str_len v) || negb (ends_with 47 v) || String.prefix "/" v
     || contains_str ".." v || has_control v
  then Err (invalid "S3 prefix is invalid") else Ok ().

Definition validate_redis_key (v : string) : result Error () :=
  if str_is_empty v || (256 <? str_len v) || has_control v then Err (invalid "Redis key is invalid") else Ok ().

(** ** Connections *)

Definition validate_loopback_postgres (connection : string) : result Error () :=
  if str_is_empty connection || has_control connection then Err (invalid "PostgreSQL connection is invalid") else
  let parts := split_ascii_whitespace connection in
  let hosts := omap (strip_prefix "host=") parts in
  if negb (match hosts with
           | [host] => bool_decide (host = "127.0.0.1") || bool_decide (host = "localhost")
           | _ => false
           end)
  then Err (invalid "the PostgreSQL adapter supports one loopback host only") else
  if any (fun part => String.prefix "hostaddr=" part || String.prefix "sslmode=" part) parts
  then Err (invalid "PostgreSQL host overrides and TLS modes are unsupported") else Ok ().

Definition validate_loopback_redis (url : string) : result Error () :=
  authority ← ok_or (value ← strip_prefix "redis://" url;
                     value ← head (Fragments.split_on "/" value);
                     last (Fragments.split_on "@" value)) (invalid "Redis URL is invalid");
  '(host, port) ← ok_or (rsplit_once ":" authority)
                        (invalid "Redis URL must include a loopback host and port");
  if negb (bool_decide (host = "127.0.0.1") || bool_decide (host = "localhost"))
     || str_is_empty port || negb (all is_ascii_digit (bytes_of_string port))
  then Err (invalid "the Redis adapter supports loopback URLs only") else Ok ().

Section RemoteConnections.
Context `{UrlLib}.

Definition no_text (o : option string) : bool :=
  match o with None => true | Some s => str_is_empty s end.

(** A DNS hostname that is not this machine. *)
Definition remote_domain (parsed : Url) (absent not_dns not_remote : string) : result Error () :=
  host ← ok_or (url_host parsed) (invalid absent);
  match host with
  | Address _ => Err (invalid not_dns)
  | Domain host =>
      if eq_ignore_ascii_case host "localhost" || IpAddr.parses host then Err (invalid not_remote) else Ok ()
  end.

(** The body of the loop over the query of a PostgreSQL URI. *)
Definition query_pair (pair : string * string) (st : option string * option Z)
  : result Error (option string * option Z) :=
  let '(sslmode, connect_timeout) := st in
  if bool_decide (pair.1 = "sslmode") && bool_decide (sslmode = None)
  then Ok (Some pair.2, connect_timeout) else
  if bool_decide (pair.1 = "connect_timeout") && bool_decide (connect_timeout = None)
  then Ok (sslmode, Some (from_option id 0 (parse_u64 pair.2)))
  else Err (invalid "PostgreSQL TLS URI contains an unsupported query parameter").

Definition validate_remote_postgres (connection : string) : result Error () :=
  if has_control connection then Err (invalid "PostgreSQL TLS connection is invalid") else
  parsed ← ok_or (url_parse connection) (invalid "PostgreSQL TLS connection must be a URI");
  if negb (bool_decide (url_scheme parsed = "postgres") || bool_decide (url_scheme parsed = "postgresql"))
     || str_is_empty (url_username parsed) || no_text (url_password parsed)
     || bool_decide (url_fragment parsed <> None)
  then Err (invalid "PostgreSQL TLS URI requires credentials and no fragment") else
  _ ← remote_domain parsed "PostgreSQL TLS URI requires a hostname"
        "PostgreSQL TLS URI requires a DNS hostname for certificate verification"
        "PostgreSQL TLS URI requires a remote DNS hostname";
  '(sslmode, connect_timeout) ← for_each (url_query_pairs parsed) (None, None) query_pair;
  if negb (bool_decide (sslmode = Some "require"))
     || negb (match connect_timeout with Some n => in_range 1 30 n | None => false end)
  then Err (invalid "PostgreSQL TLS URI requires sslmode=require and connect_timeout from 1 to 30 seconds")
  else Ok ().

Definition validate_remote_redis (value : string) : result Error () :=
  if has_control value then Err (invalid "Redis TLS URL is invalid") else
  parsed ← ok_or (url_parse value) (invalid "Redis TLS URL is invalid");
  if negb (bool_decide (url_scheme parsed = "rediss")) || no_text (url_password parsed)
     || bool_decide (url_fragment parsed <> None) || bool_decide (url_query parsed <> None)
  then Err (invalid "Redis TLS URL requires authentication and no query or fragment") else
  _ ← remote_domain parsed "Redis TLS URL requires a hostname"
        "Redis TLS URL requires a DNS hostname for certificate verification"
        "Redis TLS URL requires a remote DNS hostname";
  if bool_decide (url_port parsed = None) then Err (invalid "Redis TLS URL requires an explicit port") else Ok ().
End RemoteConnections.

(** ** What the bounds allow *)

Definition items_bytes (items : list StateItem) : Z := foldr (fun i acc => item_bytes i + acc) 0 items.

Lemma item_bytes_nonneg i : 0 <= item_bytes i.
Proof.
  unfold item_bytes, vec_len. pose proof (str_len_nonneg (StateItem.key i)).
  assert (0 <= foldr (fun kv acc => str_len kv.1 + str_len kv.2 + acc) 0 (StateItem.fields i)); [|lia].
  induction (StateItem.fields i) as [|[k v] l IH]; simpl; [lia|].
  pose proof (str_len_nonneg k). pose proof (str_len_nonneg v). lia.
Qed.

Lemma items_bytes_nonneg items : 0 <= items_bytes items.
Proof. induction items as [|i items IH]; simpl; [lia|]. pose proof (item_bytes_nonneg i). lia. Qed.

Lemma items_bytes_app a b : items_bytes (a ++ b) = items_bytes a + items_bytes b.
Proof. induction a as [|i a IH]; [done|]. simpl. lia. Qed.

Lemma items_bytes_perm a b : a ≡ₚ b -> items_bytes a = items_bytes b.
Proof. induction 1; simpl; lia. Qed.

Lemma total_from_spec items : forall n, n <= u64_max ->
  total_from n items = if n + items_bytes items <=? u64_max then Some (n + items_bytes items) else None.
Proof.
  induction items as [|i items IH]; intros n Hn; simpl.
  - rewrite Z.add_0_r. by rewrite (proj2 (Z.leb_le _ _)).
  - pose proof (item_bytes_nonneg i). pose proof (items_bytes_nonneg items). unfold checked_add.
    destruct (Z.leb_spec (n + item_bytes i) u64_max); simpl.
    + rewrite IH by done. by replace (n + item_bytes i + items_bytes items) with (n + (item_bytes i + items_bytes items)) by lia.
    + by rewrite (proj2 (Z.leb_gt _ _)) by lia.
Qed.

Lemma enforce_bounds_Ok items :
  enforce_bounds items = Ok () <-> vec_len items <= MAX_STATE_ITEMS /\ items_bytes items <= MAX_STATE_BYTES.
Proof.
  unfold enforce_bounds. rewrite total_from_spec by (unfold u64_max; lia). rewrite Z.add_0_l.
  assert (MAX_STATE_BYTES < u64_max) as Hmax by done.
  destruct (Z.ltb_spec MAX_STATE_ITEMS (vec_len items)); simpl; [split; [done|lia]|].
  destruct (Z.leb_spec (items_bytes items) u64_max); [|split; [done|lia]].
  destruct (Z.ltb_spec MAX_STATE_BYTES (items_bytes items)); split; try done; lia.
Qed.

Lemma enforce_bounds_prefix a b : enforce_bounds (a ++ b) = Ok () -> enforce_bounds a = Ok ().
Proof.
  rewrite !enforce_bounds_Ok, items_bytes_app. unfold vec_len. rewrite length_app.
  pose proof (items_bytes_nonneg b). lia.
Qed.

Lemma enforce_bounds_perm a b : a ≡ₚ b -> enforce_bounds a = Ok () -> enforce_bounds b = Ok ().
Proof.
  intros Hp. rewrite !enforce_bounds_Ok. unfold vec_len. by rewrite (items_bytes_perm _ _ Hp), Hp.
Qed.

Section Stateful.
Context `{SerdeErrorText, JsonText, Sha256, Hex}.
Context `{!ToValue StateSchema, !ToValue (list StateItem), !ToValue StateSnapshot, !ToValue MigrationPlan}.
Context `{!ToValue Candidate.Candidate, !ToValue Protocol.Certificate, !ToValue ActivationPlan}.

Definition require_digest (v : string) : result Error () :=
  if negb (str_len v =? 64) || negb (bool_decide (is_Some (hex_decode v)))
  then Err (invalid "expected a SHA-256 digest") else Ok ().

(** ** Snapshots, plans and receipts *)

Definition data_digest (items : list StateItem) : result Error string :=
  _ ← enforce_bounds items; digest items.

Definition validate_snapshot (s : StateSnapshot) : result Error () :=
  let bad := Err (invalid "state snapshot integrity is invalid") in
  if negb (bool_decide (StateSnapshot.version s = "state-snapshot-v1")) then bad else
  schema ← digest (StateSnapshot.schema s);
  if negb (bool_decide (StateSnapshot.schema_sha256 s = schema)) then bad else
  data ← data_digest (StateSnapshot.items s);
  if negb (bool_decide (StateSnapshot.data_sha256 s = data)) then bad else Ok ().

Definition seal_snapshot (s : StateSnapshot) : result Error StateSnapshot :=
  schema ← digest (StateSnapshot.schema s);
  data ← data_digest (StateSnapshot.items s);
  let s := {| StateSnapshot.version := StateSnapshot.version s; StateSnapshot.schema := StateSnapshot.schema s;
              StateSnapshot.consistency := StateSnapshot.consistency s; StateSnapshot.items := StateSnapshot.items s;
              StateSnapshot.schema_sha256 := schema; StateSnapshot.data_sha256 := data |} in
  _ ← validate_snapshot s;
  Ok s.

(** The snapshot that each adapter seals. *)
Definition unsealed (schema : StateSchema) (consistency : string) (items : list StateItem) : StateSnapshot :=
  {| StateSnapshot.version := "state-snapshot-v1"; StateSnapshot.schema := schema;
     StateSnapshot.consistency := consistency; StateSnapshot.items := items;
     StateSnapshot.schema_sha256 := ""; StateSnapshot.data_sha256 := "" |}.

Definition validate_plan (s : StateSnapshot) (p : MigrationPlan) : result Error () :=
  _ ← validate_snapshot s;
  if negb (bool_decide (MigrationPlan.version p = "state-migration-v1"))
     || negb (bool_decide (MigrationPlan.backend p = StateSchema.backend (StateSnapshot.schema s)))
     || negb (bool_decide (MigrationPlan.source_schema_sha256 p = StateSnapshot.schema_sha256 s))
     || bool_decide (MigrationPlan.operations p = [])
     || (16 <? vec_len (MigrationPlan.operations p))
     || str_is_empty (MigrationPlan.rollback_strategy p)
  then Err (invalid "state migration plan does not match its snapshot") else Ok ().

Definition validate_restore_receipt (receipt : RestoreReceipt) (backend : BackendKind) : result Error () :=
  if negb (bool_decide (RestoreReceipt.backend receipt = backend))
  then Err (invalid "state restore receipt has the wrong backend") else
  for_each [RestoreReceipt.snapshot_sha256 receipt; RestoreReceipt.migration_sha256 receipt;
            RestoreReceipt.verified_data_sha256 receipt] () (fun value _ => require_digest value).

Definition receipt (s : StateSnapshot) (p : MigrationPlan) (rollback_token : string)
  : result Error RestoreReceipt :=
  snapshot_sha256 ← digest s;
  migration_sha256 ← digest p;
  Ok {| RestoreReceipt.backend := MigrationPlan.backend p;
        RestoreReceipt.target_resource := MigrationPlan.target_resource p;
        RestoreReceipt.snapshot_sha256 := snapshot_sha256;
        RestoreReceipt.migration_sha256 := migration_sha256;
        RestoreReceipt.verified_data_sha256 := StateSnapshot.data_sha256 s;
        RestoreReceipt.rollback_token := rollback_token |}.

(** ** Activation plans *)

Definition binding_key (b : ActivationStateBinding.ActivationStateBinding) : BackendKind * string :=
  (ActivationStateBinding.backend b, ActivationStateBinding.resource b).

(** [Value::get] of a member that is a string. *)
Definition get_str (member : string) (v : json) : option string :=
  match v with Object members => value ← bt_get member members; as_str value | _ => None end.

(** The body of the loop over the states. *)
Definition bind_state (state : StateSnapshot * MigrationPlan)
  (st : list ActivationStateBinding.ActivationStateBinding * list (BackendKind * string))
  : result Error (list ActivationStateBinding.ActivationStateBinding * list (BackendKind * string)) :=
  let '(snapshot, migration) := state in
  let '(bindings, unique) := st in
  _ ← validate_snapshot snapshot;
  _ ← validate_plan snapshot migration;
  let identity := (StateSchema.backend (StateSnapshot.schema snapshot), MigrationPlan.target_resource migration) in
  if contains identity unique then Err (invalid "activation state resources must be unique") else
  snapshot_sha256 ← digest snapshot;
  migration_sha256 ← digest migration;
  Ok (bindings ++ [{| ActivationStateBinding.backend := identity.1;
                      ActivationStateBinding.resource := identity.2;
                      ActivationStateBinding.schema_sha256 := StateSnapshot.schema_sha256 snapshot;
                      ActivationStateBinding.snapshot_sha256 := snapshot_sha256;
                      ActivationStateBinding.migration_sha256 := migration_sha256 |}],
      unique ++ [identity]).

Definition bind_activation_plan (recovery : Protocol.RecoveryResult) (service_manifest_sha256 : string)
  (states : list (StateSnapshot * MigrationPlan)) : result Error ActivationPlan :=
  match recovery with
  | Protocol.Refused _ _ => Err (invalid "activation requires a certified recovery")
  | Protocol.Certified candidate _ certificate =>
      _ ← require_digest service_manifest_sha256;
      certificate_value ← ok_or (to_value certificate) (Model.Json serde_error_text);
      if negb (bool_decide (get_str "service_manifest_digest" certificate_value = Some service_manifest_sha256))
      then Err (invalid "activation service manifest is not bound to the recovery certificate") else
      if bool_decide (states = []) || (16 <? vec_len states)
      then Err (invalid "activation requires one to sixteen state bindings") else
      '(bindings, _) ← for_each states ([], []) bind_state;
      candidate_sha256 ← digest candidate;
      certificate_sha256 ← digest certificate;
      let plan := {| ActivationPlan.version := "activation-plan-v1";
                     ActivationPlan.candidate_sha256 := candidate_sha256;
                     ActivationPlan.certificate_sha256 := certificate_sha256;
                     ActivationPlan.service_manifest_sha256 := service_manifest_sha256;
                     ActivationPlan.states := sort_by_key binding_key bindings;
                     ActivationPlan.plan_sha256 := "" |} in
      plan_sha256 ← digest plan;
      Ok (ActivationPlan.with_digest plan_sha256 plan)
  end.

(** The body of the loop over the bindings of a plan. *)
Definition validate_binding (state : ActivationStateBinding.ActivationStateBinding)
  (resources : list (BackendKind * string)) : result Error (list (BackendKind * string)) :=
  if contains (binding_key state) resources then Err (invalid "activation plan resources must be unique") else
  _ ← for_each [ActivationStateBinding.schema_sha256 state; ActivationStateBinding.snapshot_sha256 state;
                ActivationStateBinding.migration_sha256 state] () (fun value _ => require_digest value);
  Ok (resources ++ [binding_key state]).

Definition validate_activation_plan (plan : ActivationPlan) : result Error () :=
  if negb (bool_decide (ActivationPlan.version plan = "activation-plan-v1"))
     || bool_decide (ActivationPlan.states plan = []) || (16 <? vec_len (ActivationPlan.states plan))
  then Err (invalid "activation plan version or state count is invalid") else
  _ ← for_each [ActivationPlan.candidate_sha256 plan; ActivationPlan.certificate_sha256 plan;
                ActivationPlan.service_manifest_sha256 plan; ActivationPlan.plan_sha256 plan] ()
        (fun value _ => require_digest value);
  _ ← for_each (ActivationPlan.states plan) [] validate_binding;
  d ← digest (ActivationPlan.with_digest "" plan);
  if negb (bool_decide (d = ActivationPlan.plan_sha256 plan))
  then Err (invalid "activation plan digest is invalid") else Ok ().

(** ** Facts the adapters share *)

Lemma validate_snapshot_Ok s :
  validate_snapshot s = Ok () <->
  StateSnapshot.version s = "state-snapshot-v1" /\
  digest (StateSnapshot.schema s) = Ok (StateSnapshot.schema_sha256 s) /\
  data_digest (StateSnapshot.items s) = Ok (StateSnapshot.data_sha256 s).
Proof.
  unfold validate_snapshot. split.
  - intros Hv. inv_ok. split_bools. split_and!; congruence.
  - intros (-> & Hs & Hd). rewrite bool_decide_eq_true_2 by done. cbn [negb]. rewrite Hs. cbn [mbind result_bind].
    rewrite bool_decide_eq_true_2 by done. cbn [negb]. rewrite Hd. cbn [mbind result_bind].
    by rewrite bool_decide_eq_true_2.
Qed.

Lemma validate_plan_snapshot s p : validate_plan s p = Ok () -> validate_snapshot s = Ok ().
Proof. unfold validate_plan. intros Hp. inv_ok. by destruct a. Qed.

Context `{!Sha256Laws, !HexLaws}.

Lemma require_digest_digest `{!ToValue T} (x : T) d : digest x = Ok d -> require_digest d = Ok ().
Proof.
  intros (bytes & _ & ->)%digest_bytes. destruct (bytes_digest_hex bytes) as [Hl Hd]. unfold require_digest.
  rewrite Hl. change (64 =? 64) with true. by rewrite bool_decide_eq_true_2.
Qed.

Lemma receipt_valid s p token r :
  validate_snapshot s = Ok () -> receipt s p token = Ok r ->
  validate_restore_receipt r (MigrationPlan.backend p) = Ok () /\
  RestoreReceipt.rollback_token r = token /\
  RestoreReceipt.target_resource r = MigrationPlan.target_resource p /\
  RestoreReceipt.backend r = MigrationPlan.backend p /\
  RestoreReceipt.verified_data_sha256 r = StateSnapshot.data_sha256 s.
Proof.
  intros (_ & _ & Hd)%validate_snapshot_Ok Hr. unfold receipt in Hr. inv_ok. injection Hr as <-.
  split_and!; [|done..]. unfold validate_restore_receipt. cbn. rewrite bool_decide_eq_true_2 by done. cbn [negb].
  unfold data_digest in Hd. inv_ok.
  by rewrite (require_digest_digest _ _ Ha), (require_digest_digest _ _ Ha0), (require_digest_digest _ _ Hd).
Qed.
End Stateful.
