(* ===== verification/Redis.v ===== *)
(** src/stateful.rs: the adapter for Redis streams.  A Redis server is its commands
    ([Redis], on a state of any type), what they do is [RedisLaws] in [RedisSafety]; the
    script of [restore] is its source, and is not undone when a call in it fails. *)
From S2P Require Import Prelude Effects External Json Core Model Canonical Text Stateful.

(** [redis::Value], as far as it is told apart. *)
#[warnings="-register-all"]
Inductive Value :=
| BulkString (bytes : list Z)
| SimpleString (text : string)
| ArrayValue (items : list Value)
| OtherValue.

(** What XINFO GROUPS says of a group. *)
Module GroupInfo.
Record GroupInfo := { name : string; pending : Z; last_delivered_id : string }.
End GroupInfo.

Class Redis (S : Type) := {
  memory_usage : string -> op S string (option Z);       (* MEMORY USAGE *)
  xrange : string -> Z -> op S string Value;             (* XRANGE key - + COUNT n *)
  xinfo_groups : string -> op S string (list GroupInfo.GroupInfo);
  exists_key : string -> op S string Z;                  (* EXISTS *)
  xadd : string -> string -> list (list Z * list Z) -> op S string string;
  xgroup_create : string -> string -> string -> op S string ();
  rename : string -> string -> op S string ();
  del : string -> op S string Z;
}.

Module RedisEntry.
Record RedisEntry := { id : string; fields : list (list Z * list Z) }.
End RedisEntry.

Module RedisGroup.
Record RedisGroup := { name : string; last_delivered_id : string }.
End RedisGroup.

Definition value_bytes (value : Value) : result Error (list Z) :=
  match value with
  | BulkString bytes => Ok bytes
  | SimpleString text => Ok (bytes_of_string text)
  | _ => Err (invalid "Redis stream value is not binary data")
  end.

(** [validate_remote_redis] or [validate_loopback_redis], whichever the scheme asks for;
    opening the connection and its timeouts is [open_]. *)
Definition connect `{UrlLib} {C} (open_ : string -> result string C) (url stream : string)
  : result Error (C * string) :=
  _ ← validate_redis_key stream;
  _ ← (if String.prefix "rediss://" url then validate_remote_redis url else validate_loopback_redis url);
  connection ← map_err (fun error => InvalidEvidence ("state backend error: " +:+ error)) (open_ url);
  Ok (connection, stream).

#[local] Existing Instance StateItem.StateItem_eq_dec.

Section Adapter.
Context {S : Type} `{Redis S}.
Context `{SerdeErrorText, JsonText, Sha256, Hex}.
Context `{!ToValue StateSchema, !ToValue (list StateItem), !ToValue StateSnapshot, !ToValue MigrationPlan}.
Context `{!ToVec RedisEntry.RedisEntry, !FromSlice RedisEntry.RedisEntry}.
Context `{!ToVec RedisGroup.RedisGroup, !FromSlice RedisGroup.RedisGroup}.

(** The loop over the names and values of an entry, whose number is even. *)
Fixpoint field_pairs (values : list Value) : result Error (list (list Z * list Z)) :=
  match values with
  | name :: value :: values =>
      name ← value_bytes name; value ← value_bytes value; rest ← field_pairs values; Ok ((name, value) :: rest)
  | _ => Ok []
  end.

Definition push (item : StateItem) (items : list StateItem) : result Error (list StateItem) :=
  let items := items ++ [item] in
  _ ← enforce_bounds items;
  Ok items.

Definition plain_item (key : string) (payload : list Z) : StateItem :=
  {| StateItem.key := key; StateItem.fields := []; StateItem.payload := payload |}.

(** The body of the loop of [capture] over the entries. *)
Definition capture_entry (entry : Value) (items : list StateItem) : result Error (list StateItem) :=
  match entry with
  | ArrayValue [id_value; fields_value] =>
      id ← (bytes ← value_bytes id_value; ok_or (from_utf8 bytes) (invalid "Redis stream ID is not UTF-8"));
      match fields_value with
      | ArrayValue field_values =>
          if negb (vec_len field_values mod 2 =? 0)
          then Err (invalid "Redis stream fields have invalid arity") else
          fields ← field_pairs field_values;
          payload ← ok_or (to_vec {| RedisEntry.id := id; RedisEntry.fields := fields |}) json_error;
          push (plain_item id payload) items
      | _ => Err (invalid "Redis stream fields are malformed")
      end
  | ArrayValue _ => Err (invalid "Redis stream entry has invalid arity")
  | _ => Err (invalid "Redis stream entry is malformed")
  end.

(** The body of the loop of [capture] over the groups. *)
Definition capture_group (group : GroupInfo.GroupInfo) (items : list StateItem) : result Error (list StateItem) :=
  if negb (GroupInfo.pending group =? 0)
  then Err (invalid "Redis stream has pending consumer entries; snapshot refused") else
  payload ← ok_or (to_vec {| RedisGroup.name := GroupInfo.name group;
                             RedisGroup.last_delivered_id := GroupInfo.last_delivered_id group |}) json_error;
  push (plain_item ("@group/" +:+ GroupInfo.name group) payload) items.

Definition entries_of_reply (raw : Value) : result Error (list Value) :=
  match raw with
  | ArrayValue entries =>
      if MAX_STATE_ITEMS <? vec_len entries then Err (invalid "Redis stream exceeds item bound") else Ok entries
  | _ => Err (invalid "Redis XRANGE returned an unexpected response")
  end.

Definition capture (key : string) : op S Error (list StateItem) :=
  estimated_bytes ← backend (memory_usage key);
  if match estimated_bytes with Some size => MAX_STATE_BYTES <? size | None => false end
  then fail (invalid "Redis stream exceeds state byte bound") else
  raw ← backend (xrange key (MAX_STATE_ITEMS + 1));
  entries ← lift (entries_of_reply raw);
  items ← lift (for_each entries [] capture_entry);
  groups ← backend (xinfo_groups key);
  items ← lift (for_each groups items capture_group);
  mret (sort_by_key StateItem.key items).

Definition discover (stream : string) : StateSchema :=
  {| StateSchema.backend := RedisStream; StateSchema.resource := stream;
     StateSchema.definition := "Redis Stream ordered entry IDs and field/value pairs";
     StateSchema.invariants := ["no pending consumer entries at snapshot";
                                "stream length and last-generated ID remain stable"] |}.

Definition snapshot (stream : string) : op S Error StateSnapshot :=
  first ← capture stream;
  second ← capture stream;
  if negb (bool_decide (first = second))
  then fail (invalid "Redis stream mutated during snapshot; retry after quiescing producers") else
  lift (seal_snapshot (unsealed (discover stream)
    "two-pass stable Redis Stream read with empty pending-entry lists" first)).

Definition plan (s : StateSnapshot) (target : string) : result Error MigrationPlan :=
  _ ← validate_snapshot s;
  _ ← validate_redis_key target;
  Ok {| MigrationPlan.version := "state-migration-v1"; MigrationPlan.backend := RedisStream;
        MigrationPlan.source_schema_sha256 := StateSnapshot.schema_sha256 s;
        MigrationPlan.target_resource := target;
        MigrationPlan.operations := ["materialize stream in staging key"; "verify ordered entries";
          "atomically rename target to rollback and staging to target"];
        MigrationPlan.rollback_strategy := "Redis atomic RENAME preserves the previous stream key" |}.

Definition stage_key (target : string) : string := target +:+ ":anasemble:stage".
Definition rollback_key (target : string) : string := target +:+ ":anasemble:rollback".

Definition is_group (item : StateItem) : bool := String.prefix "@group/" (StateItem.key item).

(** The bodies of the two loops of [restore] over the items. *)
Definition add_entry (stage : string) (item : StateItem) : op S Error () :=
  if is_group item then mret () else
  entry ← lift (ok_or (from_slice (T := RedisEntry.RedisEntry) (StateItem.payload item)) json_error);
  _ ← backend (xadd stage (RedisEntry.id entry) (RedisEntry.fields entry));
  mret ().
Definition add_group (stage : string) (item : StateItem) : op S Error () :=
  if negb (is_group item) then mret () else
  group ← lift (ok_or (from_slice (T := RedisGroup.RedisGroup) (StateItem.payload item)) json_error);
  backend (xgroup_create stage (RedisGroup.name group) (RedisGroup.last_delivered_id group)).

(** The Lua script, KEYS being the target, the rollback key and the stage. *)
Definition swap_script (target rollback stage : string) : op S string Z :=
  e ← exists_key rollback;
  if e =? 1 then fail "rollback exists" else
  e ← exists_key target;
  _ ← (if e =? 1 then rename target rollback else mret ());
  _ ← rename stage target;
  mret 1.

Definition verify (s : StateSnapshot) (target : string) : op S Error () :=
  items ← capture target;
  d ← lift (data_digest items);
  if negb (bool_decide (d = StateSnapshot.data_sha256 s))
  then fail (invalid "Redis stream restore verification failed") else mret ().

Definition rollback (r : RestoreReceipt) : op S Error () :=
  if negb (bool_decide (RestoreReceipt.backend r = RedisStream)) || str_is_empty (RestoreReceipt.rollback_token r)
  then fail (invalid "Redis rollback is unavailable") else
  backend (rename (RestoreReceipt.rollback_token r) (RestoreReceipt.target_resource r)).

(** From the plan's checks to the script: what is then in the target is to be verified. *)
Definition stage_and_swap (s : StateSnapshot) (p : MigrationPlan) : op S Error RestoreReceipt :=
  let target := MigrationPlan.target_resource p in
  let stage := stage_key target in
  let rollback := rollback_key target in
  _ ← lift (validate_plan s p);
  _ ← lift (validate_redis_key stage);
  _ ← lift (validate_redis_key rollback);
  stale ← backend (exists_key stage);
  stale_rollback ← backend (exists_key rollback);
  if negb (stale =? 0) || negb (stale_rollback =? 0)
  then fail (invalid "stale Redis staging or rollback key requires operator action") else
  _ ← op_for (StateSnapshot.items s) () (fun item _ => add_entry stage item);
  _ ← op_for (StateSnapshot.items s) () (fun item _ => add_group stage item);
  target_exists ← backend (exists_key target);
  _ ← backend (swap_script target rollback stage);
  lift (receipt s p (if negb (target_exists =? 0) then rollback else "")).

Definition restore (s : StateSnapshot) (p : MigrationPlan) : op S Error RestoreReceipt :=
  restore_receipt ← stage_and_swap s p;
  verified ← outcome (verify s (MigrationPlan.target_resource p));
  match verified with
  | Ok _ => mret restore_receipt
  | Err error =>
      _ ← (if negb (str_is_empty (RestoreReceipt.rollback_token restore_receipt))
           then rollback restore_receipt else mret ());
      fail error
  end.

Definition verify_receipt (receipt : RestoreReceipt) : op S Error () :=
  _ ← lift (validate_restore_receipt receipt RedisStream);
  items ← capture (RestoreReceipt.target_resource receipt);
  d ← lift (data_digest items);
  if negb (bool_decide (d = RestoreReceipt.verified_data_sha256 receipt))
  then fail (invalid "Redis active state changed after recovery") else mret ().

Definition commit (receipt : RestoreReceipt) : op S Error () :=
  _ ← verify_receipt receipt;
  if str_is_empty (RestoreReceipt.rollback_token receipt) then mret () else
  _ ← backend (del (RestoreReceipt.rollback_token receipt));
  mret ().

Definition redis_adapter (stream : string) : TransactionalStateAdapter S := {|
  Stateful.discover := mret (discover stream);
  Stateful.snapshot := snapshot stream;
  Stateful.plan := fun s target => lift (plan s target);
  Stateful.restore := restore;
  Stateful.verify := verify;
  Stateful.rollback := rollback;
  Stateful.verify_receipt := verify_receipt;
  Stateful.commit := commit;
|}.
End Adapter.
