(* ===== verification/ObjectStore.v ===== *)
(** src/stateful.rs: the adapter for S3-compatible object stores.  A store is the calls of
    the object_store crate ([ObjectStore], on a state of any type); what they do is
    [ObjectStoreLaws] in [ObjectStoreSafety]. *)
From S2P Require Import Prelude Effects External Json Core Model Canonical Text Stateful.

#[local] Existing Instance StateItem.StateItem_eq_dec.

Module ObjectMeta.
Record ObjectMeta := { location : string; size : Z; e_tag : option string }.
End ObjectMeta.

Class ObjectStore (S : Type) := {
  path_parse : string -> result string string;            (* Path::parse, as text *)
  put : string -> list Z -> op S string ();
  get : string -> op S string (Z * op S string (list Z));  (* the size, and the bytes *)
  list_objects : string -> nat -> op S string (list ObjectMeta.ObjectMeta); (* list, take *)
  delete : string -> op S string ();
}.

Section Adapter.
Context {S : Type} `{ObjectStore S}.
Context `{SerdeErrorText, JsonText, Sha256, Hex}.
Context `{!ToValue StateSchema, !ToValue (list StateItem), !ToValue StateSnapshot, !ToValue MigrationPlan}.

(** The check of [connect_with_token]; [build] makes the client, allowing plain HTTP or
    not. *)
Definition connect_with_token {C} (build : bool -> option string -> result Error C)
  (endpoint prefix : string) (session_token : option string) : result Error (C * string) :=
  _ ← validate_prefix prefix;
  let loopback_http := String.prefix "http://127.0.0.1:" endpoint || String.prefix "http://localhost:" endpoint in
  if negb loopback_http && negb (String.prefix "https://" endpoint)
  then Err (invalid "S3-compatible endpoints require HTTPS except for loopback evaluation") else
  if match session_token with Some token => str_is_empty token | None => false end
  then Err (invalid "S3 session token must not be empty when supplied") else
  store ← build loopback_http session_token;
  Ok (store, prefix).

Definition object_path (value : string) : op S Error string := backend (lift (path_parse value)).

Definition put_object (key : string) (payload : list Z) : op S Error () :=
  if MAX_STATE_BYTES <? vec_len payload then fail (invalid "S3 object exceeds state byte bound") else
  path ← object_path key;
  backend (put path payload).

Definition get_object (key : string) : op S Error (list Z) :=
  path ← object_path key;
  '(size, bytes) ← backend (get path);
  if MAX_STATE_BYTES <? size then fail (invalid "S3 object exceeds state byte bound") else
  payload ← backend bytes;
  if MAX_STATE_BYTES <? vec_len payload then fail (invalid "S3 object exceeded its bounded metadata size") else
  mret payload.

Definition metadata (prefix : string) : op S Error (list ObjectMeta.ObjectMeta) :=
  path ← object_path prefix;
  objects ← backend (list_objects path (Z.to_nat (MAX_STATE_ITEMS + 1)));
  if MAX_STATE_ITEMS <? vec_len objects then fail (invalid "S3 prefix exceeds item bound") else mret objects.

(** The body of the loop of [capture]. *)
Definition capture_object (object : ObjectMeta.ObjectMeta) (items : list StateItem) : op S Error (list StateItem) :=
  let key := ObjectMeta.location object in
  payload ← get_object key;
  let items := items ++ [{| StateItem.key := key;
                            StateItem.fields := [("etag", from_option id "" (ObjectMeta.e_tag object))];
                            StateItem.payload := payload |}] in
  _ ← lift (enforce_bounds items);
  mret items.

Definition capture (prefix : string) : op S Error (list StateItem) :=
  objects ← metadata prefix;
  items ← op_for objects [] capture_object;
  mret (sort_by_key StateItem.key items).

Definition delete_prefix (prefix : string) : op S Error () :=
  objects ← metadata prefix;
  op_for objects () (fun object _ => backend (delete (ObjectMeta.location object))).

(** Loops that put items under a prefix: those of [replace_prefix], whose keys start with
    the adapter's prefix, and of [restore_exact]. *)
Definition put_moved (own prefix : string) (item : StateItem) : op S Error () :=
  suffix ← lift (ok_or (strip_prefix own (StateItem.key item))
                       (invalid "S3 snapshot key escaped its declared prefix"));
  put_object (prefix +:+ suffix) (StateItem.payload item).
Definition replace_prefix (own prefix : string) (items : list StateItem) : op S Error () :=
  _ ← delete_prefix prefix;
  op_for items () (fun item _ => put_moved own prefix item).

Definition put_exact (prefix : string) (item : StateItem) : op S Error () :=
  if negb (String.prefix prefix (StateItem.key item))
  then fail (invalid "S3 rollback key escaped its prefix") else
  put_object (StateItem.key item) (StateItem.payload item).
Definition restore_exact (prefix : string) (items : list StateItem) : op S Error () :=
  _ ← delete_prefix prefix;
  op_for items () (fun item _ => put_exact prefix item).

(** The loops that give items the keys they have under another prefix. *)
Definition rekey (from to message : string) (item : StateItem) : result Error StateItem :=
  suffix ← ok_or (strip_prefix from (StateItem.key item)) (invalid message);
  Ok {| StateItem.key := to +:+ suffix; StateItem.fields := StateItem.fields item;
        StateItem.payload := StateItem.payload item |}.

Definition discover (prefix : string) : StateSchema :=
  {| StateSchema.backend := S3Compatible; StateSchema.resource := prefix;
     StateSchema.definition := "ordered object keys, bytes, and ETags";
     StateSchema.invariants := ["two listings around reads must match";
                                "keys remain within the declared prefix"] |}.

Definition snapshot (own : string) : op S Error StateSnapshot :=
  first ← capture own;
  second ← capture own;
  if negb (bool_decide (first = second))
  then fail (invalid "S3 prefix mutated during snapshot; retry after quiescing writers") else
  lift (seal_snapshot (unsealed (discover own)
    "two-pass stable S3 listing and byte read; concurrent mutation is refused" first)).

Definition plan (s : StateSnapshot) (target : string) : result Error MigrationPlan :=
  _ ← validate_snapshot s;
  _ ← validate_prefix target;
  Ok {| MigrationPlan.version := "state-migration-v1"; MigrationPlan.backend := S3Compatible;
        MigrationPlan.source_schema_sha256 := StateSnapshot.schema_sha256 s;
        MigrationPlan.target_resource := target;
        MigrationPlan.operations := ["copy prior target to rollback prefix"; "replace target objects";
          "verify bytes and key set"];
        MigrationPlan.rollback_strategy := "S3-native object copies retained under a unique rollback prefix" |}.

Definition verify (s : StateSnapshot) (target : string) : op S Error () :=
  items ← capture target;
  items ← lift (collect_results (rekey target (StateSchema.resource (StateSnapshot.schema s))
                                       "S3 verification key escaped prefix") items);
  d ← lift (data_digest items);
  if negb (bool_decide (d = StateSnapshot.data_sha256 s))
  then fail (invalid "S3 restore verification failed") else mret ().

Definition rollback_prefix (target : string) : string :=
  "anasemble-rollback/" +:+ bytes_digest (bytes_of_string target) +:+ "/".

(** The copies of the target's objects. *)
Definition keep_copies (target rollback : string) (previous : list StateItem) : op S Error () :=
  op_for previous () (fun item _ =>
    suffix ← lift (ok_or (strip_prefix target (StateItem.key item)) (invalid "invalid S3 target key"));
    put_object (rollback +:+ suffix) (StateItem.payload item)).

Definition restore (own : string) (s : StateSnapshot) (p : MigrationPlan) : op S Error RestoreReceipt :=
  let target := MigrationPlan.target_resource p in
  _ ← lift (validate_plan s p);
  let rollback := rollback_prefix target in
  stale ← capture rollback;
  if negb (bool_decide (stale = []))
  then fail (invalid "stale S3 rollback prefix requires operator action") else
  previous ← capture target;
  _ ← keep_copies target rollback previous;
  replaced ← outcome (_ ← replace_prefix own target (StateSnapshot.items s); verify s target);
  match replaced with
  | Ok _ => lift (receipt s p rollback)
  | Err error => _ ← restore_exact target previous; fail error
  end.

Definition rollback (own : string) (receipt : RestoreReceipt) : op S Error () :=
  if negb (bool_decide (RestoreReceipt.backend receipt = S3Compatible))
     || str_is_empty (RestoreReceipt.rollback_token receipt)
  then fail (invalid "S3 rollback is unavailable") else
  old ← capture (RestoreReceipt.rollback_token receipt);
  source_items ← lift (collect_results (rekey (RestoreReceipt.rollback_token receipt) own
                                              "invalid S3 rollback key") old);
  _ ← replace_prefix own (RestoreReceipt.target_resource receipt) source_items;
  replace_prefix own (RestoreReceipt.rollback_token receipt) [].

Definition verify_receipt (own : string) (receipt : RestoreReceipt) : op S Error () :=
  _ ← lift (validate_restore_receipt receipt S3Compatible);
  items ← capture (RestoreReceipt.target_resource receipt);
  items ← lift (collect_results (rekey (RestoreReceipt.target_resource receipt) own
                                       "S3 active key escaped its target prefix") items);
  d ← lift (data_digest items);
  if negb (bool_decide (d = RestoreReceipt.verified_data_sha256 receipt))
  then fail (invalid "S3 active state changed after recovery") else mret ().

Definition commit (own : string) (receipt : RestoreReceipt) : op S Error () :=
  _ ← verify_receipt own receipt;
  if str_is_empty (RestoreReceipt.rollback_token receipt) then mret () else
  delete_prefix (RestoreReceipt.rollback_token receipt).

Definition s3_adapter (own : string) : TransactionalStateAdapter S := {|
  Stateful.discover := mret (discover own);
  Stateful.snapshot := snapshot own;
  Stateful.plan := fun s target => lift (plan s target);
  Stateful.restore := restore own;
  Stateful.verify := verify;
  Stateful.rollback := rollback own;
  Stateful.verify_receipt := verify_receipt own;
  Stateful.commit := commit own;
|}.
End Adapter.
