(* ===== verification/Postgres.v ===== *)
(** src/stateful.rs: the adapter for PostgreSQL.  A server is the calls of the postgres
    crate on a session ([Postgres], on a state of any type), with the SQL that the source
    sends; a transaction that is dropped is rolled back by [drop_transaction]. *)
From S2P Require Import Prelude Effects External Json Core Model Canonical Text Stateful.

#[local] Existing Instance StateSchema.StateSchema_eq_dec.

Inductive TransactionKind := ReadWrite | RepeatableReadOnly.

Class Postgres (S : Type) := {
  query_rows : string -> list string -> op S string (list (list string));
  query_text : string -> list string -> op S string (option string);  (* query_one, a nullable text *)
  query_bool : string -> list string -> op S string bool;             (* query_one, a boolean *)
  copy_out : string -> op S string Reader;
  copy_in : string -> op S string ();
  copy_write : list Z -> op S string ();
  copy_finish : op S string ();
  batch_execute : string -> op S string ();
  begin_transaction : TransactionKind -> op S string ();
  commit_transaction : op S string ();
  drop_transaction : S -> S;
}.

Module PgColumn.
Record PgColumn := { name : string; data_type : string; nullable : bool }.
End PgColumn.
Module PgConstraint.
Record PgConstraint := { name : string; definition : string }.
End PgConstraint.
Module PgTable.
Record PgTable := {
  name : string;
  columns : list PgColumn.PgColumn;
  constraints : list PgConstraint.PgConstraint;
}.
Definition add_column (c : PgColumn.PgColumn) (t : PgTable) : PgTable :=
  {| name := name t; columns := columns t ++ [c]; constraints := constraints t |}.
Definition add_constraint (c : PgConstraint.PgConstraint) (t : PgTable) : PgTable :=
  {| name := name t; columns := columns t; constraints := constraints t ++ [c] |}.
End PgTable.
Module PgSchema.
Record PgSchema := { tables : list PgTable.PgTable }.
End PgSchema.

Definition supported_type (data_type : string) : bool :=
  contains data_type ["bigint"; "integer"; "text"; "boolean"; "bytea"].

Definition columns_query : string :=
  "SELECT table_name, column_name, data_type, is_nullable, ordinal_position FROM information_schema.columns WHERE table_schema=$1 ORDER BY table_name, ordinal_position LIMIT 10001".
Definition constraints_query : string :=
  "SELECT t.relname, c.conname, pg_get_constraintdef(c.oid) FROM pg_constraint c JOIN pg_class t ON t.oid=c.conrelid JOIN pg_namespace n ON n.oid=t.relnamespace WHERE n.nspname=$1 AND c.contype IN ('p','u','f') ORDER BY t.relname,c.conname LIMIT 10001".
Definition tables_query : string :=
  "SELECT table_name FROM information_schema.tables WHERE table_schema=$1 AND table_type='BASE TABLE' ORDER BY table_name LIMIT 10001".
Definition order_query : string :=
  "SELECT string_agg(quote_ident(a.attname), ',' ORDER BY array_position(i.indkey::smallint[],a.attnum)) FROM pg_index i JOIN pg_class t ON t.oid=i.indrelid JOIN pg_namespace n ON n.oid=t.relnamespace JOIN pg_attribute a ON a.attrelid=t.oid AND a.attnum=ANY(i.indkey) WHERE n.nspname=$1 AND t.relname=$2 AND i.indisprimary".
Definition exists_query : string :=
  "SELECT EXISTS(SELECT 1 FROM information_schema.schemata WHERE schema_name=$1)".

(** ** Connections *)

Definition connect {C} (open_ : string -> result string C) (connection source_schema : string)
  : result Error (C * string) :=
  _ ← validate_identifier source_schema;
  _ ← validate_loopback_postgres connection;
  client ← map_err (fun error => InvalidEvidence ("state backend error: " +:+ error)) (open_ connection);
  Ok (client, source_schema).

(** [certificates] reads the PEM text, [add_root] is [RootCertStore::add] of each, [open_]
    connects with the roots, [configured] is whether the TLS provider supports its default
    versions, [set_timeouts] the batch run on the new client. *)
Definition connect_tls `{UrlLib} {C Cert Roots} (certificates : list Z -> option (list Cert))
  (empty : Roots) (add_root : Cert -> Roots -> option Roots) (configured : bool)
  (open_ : Roots -> string -> result string C) (set_timeouts : C -> result string C)
  (connection source_schema : string) (ca_pem : list Z) : result Error (C * string) :=
  let text error := InvalidEvidence ("state backend error: " +:+ error) in
  _ ← validate_identifier source_schema;
  _ ← validate_remote_postgres connection;
  if bool_decide (ca_pem = []) || (64 * 1024 <? vec_len ca_pem)
  then Err (invalid "PostgreSQL TLS CA bundle is empty or too large") else
  certs ← ok_or (certificates ca_pem) (invalid "PostgreSQL TLS CA bundle is malformed");
  match certs with
  | [] => Err (invalid "PostgreSQL TLS CA bundle contains no certificates")
  | _ =>
      roots ← for_each certs empty (fun certificate roots =>
        ok_or (add_root certificate roots) (invalid "PostgreSQL TLS CA certificate is invalid"));
      if negb configured then Err (invalid "PostgreSQL TLS protocol configuration is invalid") else
      client ← map_err text (open_ roots connection);
      client ← map_err text (set_timeouts client);
      Ok (client, source_schema)
  end.

Section Adapter.
Context {S : Type} `{Postgres S}.
Context `{SerdeErrorText, JsonText, Sha256, Hex}.
Context `{!ToValue StateSchema, !ToValue (list StateItem), !ToValue StateSnapshot, !ToValue MigrationPlan}.
Context `{!ToVec PgSchema.PgSchema, !FromSlice PgSchema.PgSchema}.

(** A transaction: it is rolled back when its body fails, and committed after it. *)
Definition in_transaction {A} (kind : TransactionKind) (body : op S Error A) : op S Error A :=
  _ ← backend (begin_transaction kind);
  a ← (fun s => match body s with
                | (Err error, s) => (Err error, drop_transaction s)
                | done => done
                end);
  _ ← backend commit_transaction;
  mret a.

(** ** The schema *)

(** The body of the loop of [snapshot_schema] over the columns. *)
Definition add_column_row (row : list string) (tables : btree_map string PgTable.PgTable)
  : result Error (btree_map string PgTable.PgTable) :=
  match row with
  | table :: column :: data_type :: is_nullable :: _ =>
      if negb (supported_type data_type)
      then Err (invalid "PostgreSQL schema contains an unsupported column type") else
      _ ← validate_identifier table;
      _ ← validate_identifier column;
      let entry := from_option id {| PgTable.name := table; PgTable.columns := []; PgTable.constraints := [] |}
                     (bt_get table tables) in
      Ok (bt_insert table (PgTable.add_column
            {| PgColumn.name := column; PgColumn.data_type := data_type;
               PgColumn.nullable := bool_decide (is_nullable = "YES") |} entry) tables)
  | _ => Ok tables
  end.

(** The body of the loop over the constraints. *)
Definition add_constraint_row (row : list string) (st : btree_map string PgTable.PgTable * list string)
  : result Error (btree_map string PgTable.PgTable * list string) :=
  let '(tables, invariants) := st in
  match row with
  | table :: name :: definition :: _ =>
      _ ← validate_identifier name;
      entry ← ok_or (bt_get table tables) (invalid "PostgreSQL constraint references an unknown table");
      Ok (bt_insert table (PgTable.add_constraint
            {| PgConstraint.name := name; PgConstraint.definition := definition |} entry) tables,
          invariants ++ [table +:+ ":" +:+ name +:+ ":" +:+ definition])
  | _ => Ok st
  end.

Definition snapshot_schema (schema : string) : op S Error StateSchema :=
  rows ← backend (query_rows columns_query [schema]);
  if bool_decide (rows = []) then fail (invalid "PostgreSQL schema has no discoverable tables") else
  if MAX_STATE_ITEMS <? vec_len rows then fail (invalid "PostgreSQL schema exceeds metadata item bound") else
  tables ← lift (for_each rows [] add_column_row);
  constraints ← backend (query_rows constraints_query [schema]);
  if MAX_STATE_ITEMS <? vec_len constraints then fail (invalid "PostgreSQL schema exceeds constraint bound") else
  '(tables, invariants) ← lift (for_each constraints (tables, []) add_constraint_row);
  definition ← lift (ok_or (to_vec {| PgSchema.tables := tables.*2 |}) json_error);
  mret {| StateSchema.backend := PostgreSql; StateSchema.resource := schema;
          StateSchema.definition := string_of_bytes definition; StateSchema.invariants := invariants |}.

(** ** Snapshots *)

Definition copy_out_sql (schema table order : string) : string :=
  "COPY (SELECT * FROM " +:+ quote schema +:+ "." +:+ quote table +:+ " ORDER BY " +:+ order +:+
  ") TO STDOUT WITH (FORMAT binary)".

(** The body of the loop over the tables. *)
Definition capture_table (schema : string) (row : list string) (items : list StateItem) : op S Error (list StateItem) :=
  match row with
  | table :: _ =>
      _ ← lift (validate_identifier table);
      order ← backend (query_text order_query [schema; table]);
      order ← lift (ok_or order (invalid "PostgreSQL tables require a primary key for canonical snapshot order"));
      reader ← backend (copy_out (copy_out_sql schema table order));
      payload ← lift (read_bounded reader MAX_STATE_BYTES "PostgreSQL table");
      let items := items ++ [{| StateItem.key := table; StateItem.fields := []; StateItem.payload := payload |}] in
      _ ← lift (enforce_bounds items);
      mret items
  | [] => mret items
  end.

Definition capture (schema : string) : op S Error (list StateItem) :=
  tables ← backend (query_rows tables_query [schema]);
  if MAX_STATE_ITEMS <? vec_len tables then fail (invalid "PostgreSQL schema exceeds table bound") else
  op_for tables [] (capture_table schema).

Definition snapshot (source : string) : op S Error StateSnapshot :=
  schema_before ← snapshot_schema source;
  items ← in_transaction RepeatableReadOnly (capture source);
  schema ← snapshot_schema source;
  if negb (bool_decide (schema = schema_before))
  then fail (invalid "PostgreSQL schema mutated during snapshot; retry after quiescing migrations") else
  lift (seal_snapshot (unsealed schema "PostgreSQL REPEATABLE READ read-only transaction" items)).

Definition plan (s : StateSnapshot) (target : string) : result Error MigrationPlan :=
  _ ← validate_snapshot s;
  _ ← validate_identifier target;
  if negb (bool_decide (StateSchema.backend (StateSnapshot.schema s) = PostgreSql))
  then Err (invalid "snapshot backend does not match PostgreSQL") else
  Ok {| MigrationPlan.version := "state-migration-v1"; MigrationPlan.backend := PostgreSql;
        MigrationPlan.source_schema_sha256 := StateSnapshot.schema_sha256 s;
        MigrationPlan.target_resource := target;
        MigrationPlan.operations := ["clone source schema DDL into staging schema";
          "COPY binary rows into staging tables"; "validate constraints and compare canonical snapshot";
          "atomically swap target and staging schemas"];
        MigrationPlan.rollback_strategy := "transactional schema rename retains the prior target" |}.

(** ** Restoration *)

Definition stage_name (target : string) : string := target +:+ "_anasemble_stage".
Definition rollback_name (target : string) : string := target +:+ "_anasemble_rollback".
Definition failed_name (target : string) : string := target +:+ "_anasemble_failed".

Definition column_sql (column : PgColumn.PgColumn) : string :=
  quote (PgColumn.name column) +:+ " " +:+ PgColumn.data_type column +:+
  (if PgColumn.nullable column then "" else " NOT NULL").
Definition create_table_sql (stage : string) (table : PgTable.PgTable) : string :=
  "CREATE TABLE " +:+ quote stage +:+ "." +:+ quote (PgTable.name table) +:+ " (" +:+
  join "," (column_sql <$> PgTable.columns table) +:+ ");".
Definition copy_in_sql (stage key : string) : string :=
  "COPY " +:+ quote stage +:+ "." +:+ quote key +:+ " FROM STDIN WITH (FORMAT binary)".
Definition add_constraint_sql (resource stage table : string) (constraint : PgConstraint.PgConstraint) : string :=
  "ALTER TABLE " +:+ quote stage +:+ "." +:+ quote table +:+ " ADD CONSTRAINT " +:+
  quote (PgConstraint.name constraint) +:+ " " +:+
  replace (resource +:+ ".") (stage +:+ ".") (PgConstraint.definition constraint) +:+ ";".
Definition create_schema_sql (name : string) : string := "CREATE SCHEMA " +:+ quote name +:+ ";".
Definition rename_schema_sql (from to : string) : string :=
  "ALTER SCHEMA " +:+ quote from +:+ " RENAME TO " +:+ quote to +:+ ";".
Definition drop_schema_sql (name : string) : string := "DROP SCHEMA IF EXISTS " +:+ quote name +:+ " CASCADE;".

(** The bodies of the loops of [restore]. *)
Definition create_table (stage : string) (table : PgTable.PgTable) : op S Error () :=
  _ ← lift (validate_identifier (PgTable.name table));
  _ ← lift (for_each (PgTable.columns table) () (fun column _ =>
        _ ← validate_identifier (PgColumn.name column);
        if negb (supported_type (PgColumn.data_type column))
        then Err (invalid "PostgreSQL snapshot contains an unsupported type") else Ok ()));
  backend (batch_execute (create_table_sql stage table)).

Definition copy_table (stage : string) (item : StateItem) : op S Error () :=
  _ ← lift (validate_identifier (StateItem.key item));
  _ ← backend (copy_in (copy_in_sql stage (StateItem.key item)));
  _ ← (fun s => let '(r, s) := copy_write (StateItem.payload item) s in (map_err Io r, s));
  backend copy_finish.

Definition add_constraints (resource stage : string) (table : PgTable.PgTable) : op S Error () :=
  op_for (PgTable.constraints table) () (fun constraint _ =>
    backend (batch_execute (add_constraint_sql resource stage (PgTable.name table) constraint))).

(** The body of the transaction of [restore]; whether there was a target. *)
Definition stage_and_swap (s : StateSnapshot) (target : string) : op S Error bool :=
  let stage := stage_name target in
  let rollback := rollback_name target in
  exists_ ← backend (query_bool exists_query [stage]);
  if exists_ : bool then fail (invalid "stale PostgreSQL staging schema requires operator action") else
  _ ← backend (batch_execute (create_schema_sql stage));
  schema ← lift (ok_or (from_slice (T := PgSchema.PgSchema)
                          (bytes_of_string (StateSchema.definition (StateSnapshot.schema s)))) json_error);
  if negb (vec_len (PgSchema.tables schema) =? vec_len (StateSnapshot.items s))
  then fail (invalid "PostgreSQL schema and data table sets diverge") else
  _ ← op_for (PgSchema.tables schema) () (fun table _ => create_table stage table);
  _ ← op_for (StateSnapshot.items s) () (fun item _ => copy_table stage item);
  _ ← op_for (PgSchema.tables schema) () (fun table _ =>
        add_constraints (StateSchema.resource (StateSnapshot.schema s)) stage table);
  target_exists ← backend (query_bool exists_query [target]);
  rollback_exists ← backend (query_bool exists_query [rollback]);
  if rollback_exists : bool then fail (invalid "stale PostgreSQL rollback schema requires operator action") else
  _ ← (if target_exists : bool then backend (batch_execute (rename_schema_sql target rollback)) else mret ());
  _ ← backend (batch_execute (rename_schema_sql stage target));
  mret target_exists.

Definition verify (s : StateSnapshot) (target : string) : op S Error () :=
  items ← capture target;
  d ← lift (data_digest items);
  if negb (bool_decide (d = StateSnapshot.data_sha256 s))
  then fail (invalid "PostgreSQL restore verification failed") else mret ().

Definition rollback_sql (failed target token : string) : string :=
  "BEGIN; " +:+ drop_schema_sql failed +:+ " " +:+ rename_schema_sql target failed +:+ " " +:+
  rename_schema_sql token target +:+ " COMMIT;".

Definition rollback (receipt : RestoreReceipt) : op S Error () :=
  if negb (bool_decide (RestoreReceipt.backend receipt = PostgreSql))
     || str_is_empty (RestoreReceipt.rollback_token receipt)
  then fail (invalid "PostgreSQL rollback is unavailable") else
  _ ← lift (validate_identifier (RestoreReceipt.target_resource receipt));
  _ ← lift (validate_identifier (RestoreReceipt.rollback_token receipt));
  let failed := failed_name (RestoreReceipt.target_resource receipt) in
  _ ← lift (validate_identifier failed);
  backend (batch_execute (rollback_sql failed (RestoreReceipt.target_resource receipt)
                                       (RestoreReceipt.rollback_token receipt))).

Definition restore (s : StateSnapshot) (p : MigrationPlan) : op S Error RestoreReceipt :=
  let target := MigrationPlan.target_resource p in
  _ ← lift (validate_plan s p);
  _ ← lift (validate_identifier target);
  _ ← lift (validate_identifier (stage_name target));
  _ ← lift (validate_identifier (rollback_name target));
  target_exists ← in_transaction ReadWrite (stage_and_swap s target);
  restore_receipt ← lift (receipt s p (if target_exists : bool then rollback_name target else ""));
  verified ← outcome (verify s target);
  match verified with
  | Ok _ => mret restore_receipt
  | Err error =>
      _ ← (if negb (str_is_empty (RestoreReceipt.rollback_token restore_receipt))
           then rollback restore_receipt else mret ());
      fail error
  end.

Definition verify_receipt (receipt : RestoreReceipt) : op S Error () :=
  _ ← lift (validate_restore_receipt receipt PostgreSql);
  items ← capture (RestoreReceipt.target_resource receipt);
  d ← lift (data_digest items);
  if negb (bool_decide (d = RestoreReceipt.verified_data_sha256 receipt))
  then fail (invalid "PostgreSQL active state changed after recovery") else mret ().

Definition commit (receipt : RestoreReceipt) : op S Error () :=
  _ ← verify_receipt receipt;
  if str_is_empty (RestoreReceipt.rollback_token receipt) then mret () else
  backend (batch_execute (drop_schema_sql (RestoreReceipt.rollback_token receipt))).

Definition postgres_adapter (source_schema : string) : TransactionalStateAdapter S := {|
  Stateful.discover := snapshot_schema source_schema;
  Stateful.snapshot := snapshot source_schema;
  Stateful.plan := fun s target => lift (plan s target);
  Stateful.restore := restore;
  Stateful.verify := verify;
  Stateful.rollback := rollback;
  Stateful.verify_receipt := verify_receipt;
  Stateful.commit := commit;
|}.
End Adapter.
