(* ===== verification/StatefulSafety.v ===== *)
(** src/stateful.rs: the plans its two stages exchange.  A bound activation plan is one
    that its validation accepts, and depends on the states and not on their order; and
    which of the targets that the PostgreSQL adapter plans for it can restore. *)
From S2P Require Import Prelude Effects External Json Core Model Canonical Text Stateful.
From S2P Require Protocol Postgres.

(** * Activation plans *)

Section Plans.
Context `{SerdeErrorText, JsonText, Sha256, Hex, !Sha256Laws, !HexLaws}.
Context `{!ToValue StateSchema, !ToValue (list StateItem), !ToValue StateSnapshot, !ToValue MigrationPlan}.
Context `{!ToValue Candidate.Candidate, !ToValue Protocol.Certificate, !ToValue ActivationPlan}.
Abbreviation Binding := ActivationStateBinding.ActivationStateBinding.
Abbreviation state_t := (StateSnapshot * MigrationPlan)%type.
Implicit Types (states : list state_t) (bs : list Binding).

Definition identity_of (state : state_t) : BackendKind * string :=
  (StateSchema.backend (StateSnapshot.schema state.1), MigrationPlan.target_resource state.2).

(** A state and its binding. *)
Record bound (state : state_t) (b : Binding) : Prop := {
  bound_plan : validate_plan state.1 state.2 = Ok ();
  bound_key : binding_key b = identity_of state;
  bound_schema : ActivationStateBinding.schema_sha256 b = StateSnapshot.schema_sha256 state.1;
  bound_snapshot : digest state.1 = Ok (ActivationStateBinding.snapshot_sha256 b);
  bound_migration : digest state.2 = Ok (ActivationStateBinding.migration_sha256 b);
}.

Definition binding_of (state : state_t) (snapshot_sha256 migration_sha256 : string) : Binding :=
  {| ActivationStateBinding.backend := (identity_of state).1; ActivationStateBinding.resource := (identity_of state).2;
     ActivationStateBinding.schema_sha256 := StateSnapshot.schema_sha256 state.1;
     ActivationStateBinding.snapshot_sha256 := snapshot_sha256;
     ActivationStateBinding.migration_sha256 := migration_sha256 |}.

Lemma bind_state_Ok state bs keys bs' keys' :
  bind_state state (bs, keys) = Ok (bs', keys') <->
  exists b, bound state b /\ (binding_key b ∉ keys) /\ bs' = bs ++ [b] /\ keys' = keys ++ [binding_key b].
Proof.
  destruct state as [snapshot migration]. unfold bind_state. split.
  - intros Hb. inv_ok. injection Hb as <- <-. apply contains_false in Hb0.
    destruct a0. by exists (binding_of (snapshot, migration) a1 a2).
  - intros (b & [Hp Hk Hs Hsn Hm] & Hni & -> & ->). cbn [fst snd] in *. destruct b as [kind resource schema d1 d2].
    unfold binding_key, identity_of in *. cbn in *. injection Hk as -> ->. subst schema.
    rewrite (validate_plan_snapshot _ _ Hp), Hp. cbn [mbind result_bind].
    rewrite (proj2 (contains_false _ _)), Hsn, Hm by done. done.
Qed.

Lemma bind_states_Ok states : forall bs keys bs' keys',
  for_each states (bs, keys) bind_state = Ok (bs', keys') <->
  exists new, Forall2 bound states new /\ NoDup (binding_key <$> new) /\
    (forall k, k ∈ keys -> k ∉ (binding_key <$> new)) /\ bs' = bs ++ new /\ keys' = keys ++ (binding_key <$> new).
Proof.
  induction states as [|state states IH]; intros bs keys bs' keys'; cbn [for_each].
  - split.
    + intros [= <- <-]. exists []. rewrite !app_nil_r. split_and!; [constructor..| |done|done].
      by intros k _ ?%elem_of_nil.
    + intros (new & Hn%Forall2_nil_inv_l & _ & _ & -> & ->). subst. by rewrite !app_nil_r.
  - rewrite bind_Ok. split.
    + intros ([bs1 keys1] & (b & Hb & Hni & -> & ->)%bind_state_Ok & (new & Hf & Hnd & Hdis & -> & ->)%IH).
      exists (b :: new). rewrite fmap_cons, NoDup_cons, <- !app_assoc. split_and!; [by constructor|..]; try done.
      * apply Hdis. rewrite elem_of_app. right. by left.
      * intros k Hk [->|Hin]%elem_of_cons; [done|]. apply (Hdis k); [|done]. apply elem_of_app. by left.
    + intros (new & Hf & Hnd & Hdis & -> & ->). apply Forall2_cons_inv_l in Hf as (b & new' & Hb & Hf & ->).
      rewrite fmap_cons in Hnd, Hdis. apply NoDup_cons in Hnd as [Hni Hnd].
      exists (bs ++ [b], keys ++ [binding_key b]). split.
      * apply bind_state_Ok. exists b. split_and!; try done. intros Hk. apply (Hdis _ Hk). by left.
      * apply IH. exists new'. rewrite fmap_cons, <- !app_assoc. split_and!; try done.
        intros k [Hk| ->%list_elem_of_singleton]%elem_of_app Hin; [|done]. apply (Hdis k Hk). by right.
Qed.

(** The bindings of a list of states. *)
Lemma bind_all_Ok states bs keys :
  for_each states ([], []) bind_state = Ok (bs, keys) <->
  Forall2 bound states bs /\ NoDup (binding_key <$> bs) /\ keys = binding_key <$> bs.
Proof.
  rewrite bind_states_Ok. cbn [app]. split.
  - intros (new & ? & ? & _ & -> & ->). done.
  - intros (? & ? & ->). exists bs. split_and!; try done. by intros k ?%elem_of_nil.
Qed.

Lemma bound_digests state b : bound state b ->
  Forall (fun d => require_digest d = Ok ())
    [ActivationStateBinding.schema_sha256 b; ActivationStateBinding.snapshot_sha256 b;
     ActivationStateBinding.migration_sha256 b].
Proof.
  intros [Hp _ Hs Hsn Hm]. apply validate_plan_snapshot, validate_snapshot_Ok in Hp as (_ & Hd & _).
  rewrite Hs. rewrite !Forall_cons, Forall_nil. split_and!; [exact (require_digest_digest _ _ Hd)|exact (require_digest_digest _ _ Hsn)|exact (require_digest_digest _ _ Hm)|done].
Qed.

Lemma require_all (l : list string) :
  Forall (fun d => require_digest d = Ok ()) l -> for_each l () (fun value _ => require_digest value) = Ok ().
Proof. induction 1 as [|d l Hd _ IH]; [done|]. cbn [for_each]. by rewrite Hd. Qed.

Lemma validate_bindings bs : forall keys,
  Forall (fun b => Forall (fun d => require_digest d = Ok ())
    [ActivationStateBinding.schema_sha256 b; ActivationStateBinding.snapshot_sha256 b;
     ActivationStateBinding.migration_sha256 b]) bs ->
  NoDup (keys ++ (binding_key <$> bs)) ->
  for_each bs keys validate_binding = Ok (keys ++ (binding_key <$> bs)).
Proof.
  induction bs as [|b bs IH]; intros keys Hd Hnd; cbn [for_each]; [by rewrite app_nil_r|].
  apply Forall_cons in Hd as [Hb Hd]. rewrite fmap_cons in Hnd |- *.
  assert (validate_binding b keys = Ok (keys ++ [binding_key b])) as ->.
  { unfold validate_binding. rewrite (proj2 (contains_false _ _)); [by rewrite require_all|].
    apply NoDup_app in Hnd as (_ & Hdis & _). intros Hin. apply (Hdis _ Hin). by left. }
  cbn [mbind result_bind]. rewrite IH, <- app_assoc; [done|done|]. by rewrite <- app_assoc.
Qed.

(** What binding gives. *)
Lemma bind_plan_Ok recovery manifest states p :
  bind_activation_plan recovery manifest states = Ok p <->
  exists candidate l certificate v bs dc dk d, recovery = Protocol.Certified candidate l certificate /\
    require_digest manifest = Ok () /\ to_value certificate = Some v /\
    get_str "service_manifest_digest" v = Some manifest /\ states <> [] /\ vec_len states <= 16 /\
    Forall2 bound states bs /\ NoDup (binding_key <$> bs) /\ digest candidate = Ok dc /\ digest certificate = Ok dk /\
    let plan := {| ActivationPlan.version := "activation-plan-v1"; ActivationPlan.candidate_sha256 := dc;
                   ActivationPlan.certificate_sha256 := dk; ActivationPlan.service_manifest_sha256 := manifest;
                   ActivationPlan.states := sort_by_key binding_key bs; ActivationPlan.plan_sha256 := "" |} in
    digest plan = Ok d /\ p = ActivationPlan.with_digest d plan.
Proof.
  unfold bind_activation_plan. split.
  - destruct recovery as [candidate l certificate|? ?]; [|done]. intros Hb. inv_ok.
    destruct (bool_decide (states = [])) eqn:Hnil; [done|]. apply bool_decide_eq_false in Hnil.
    apply negb_false_iff, bool_decide_eq_true in Hb0. destruct a as [].
    cbn [orb] in Hb1. apply Z.ltb_ge in Hb1.
    destruct a1 as [bs keys]. inv_ok. injection Hb as <-. apply bind_all_Ok in Ha1 as (Hf & Hnd & _).
    exists candidate, l, certificate, a0, bs, a, a1, a2. by split_and!.
  - intros (candidate & l & certificate & v & bs & dc & dk & d & -> & Hm & Hv & Hg & Hnil & Hn & Hf & Hnd & Hc & Hk & Hd & ->).
    rewrite Hm. cbn [mbind result_bind]. rewrite Hv. cbn [ok_or mbind result_bind].
    rewrite bool_decide_eq_true_2 by done. cbn [negb]. rewrite bool_decide_eq_false_2 by done.
    rewrite (proj2 (Z.ltb_ge _ _)) by done. cbn [orb].
    rewrite (proj2 (bind_all_Ok states bs (binding_key <$> bs))) by done. cbn [mbind result_bind].
    rewrite Hc, Hk. cbn [mbind result_bind]. by rewrite Hd.
Qed.

(** Bindings that are bound, sorted, pass the validation. *)
Lemma plan_accepted states bs dc dk manifest d :
  Forall2 bound states bs -> NoDup (binding_key <$> bs) -> states <> [] -> vec_len states <= 16 ->
  require_digest dc = Ok () -> require_digest dk = Ok () -> require_digest manifest = Ok () ->
  let plan := {| ActivationPlan.version := "activation-plan-v1"; ActivationPlan.candidate_sha256 := dc;
                 ActivationPlan.certificate_sha256 := dk; ActivationPlan.service_manifest_sha256 := manifest;
                 ActivationPlan.states := sort_by_key binding_key bs; ActivationPlan.plan_sha256 := "" |} in
  digest plan = Ok d -> validate_activation_plan (ActivationPlan.with_digest d plan) = Ok ().
Proof.
  intros Hf Hnd Hnil Hn Hc Hk Hm plan Hd. pose proof (sort_by_key_perm binding_key bs) as Hperm.
  pose proof (Forall2_length _ _ _ Hf) as Hlen. unfold validate_activation_plan.
  cbn [plan ActivationPlan.with_digest ActivationPlan.version ActivationPlan.states ActivationPlan.candidate_sha256
       ActivationPlan.certificate_sha256 ActivationPlan.service_manifest_sha256 ActivationPlan.plan_sha256].
  rewrite bool_decide_eq_true_2, bool_decide_eq_false_2 by
    (done || (intros Hs; apply (f_equal length) in Hs; rewrite Hperm, <- Hlen in Hs; by destruct states)).
  unfold vec_len in *. rewrite Hperm, <- Hlen, (proj2 (Z.ltb_ge _ _)) by done. cbn [negb orb].
  rewrite require_all by (repeat (apply Forall_cons; split; [done || exact (require_digest_digest _ _ Hd)|]); done).
  cbn [mbind result_bind]. rewrite validate_bindings; [|apply Forall_forall|cbn [app]; by rewrite Hperm].
  2:{ intros b Hb. rewrite Hperm in Hb. apply list_elem_of_lookup in Hb as [i Hi].
      destruct (Forall2_lookup_r _ _ _ _ _ Hf Hi) as (state & _ & Hbound). by eapply bound_digests. }
  subst plan. cbn [mbind result_bind]. unfold ActivationPlan.with_digest in *. cbn in Hd |- *. rewrite Hd. cbn.
  by rewrite bool_decide_eq_true_2.
Qed.

(** C30: an activation plan that is bound is well formed: its validation accepts it, its
    bindings are strictly ordered by backend and resource and name exactly the targets of
    the states given, each digest is one of what it stands for, and binding the same
    states in any other order gives the same plan. *)
Theorem activation_plan_valid recovery manifest states p :
  bind_activation_plan recovery manifest states = Ok p ->
  validate_activation_plan p = Ok () /\
  strictly_sorted_by_key binding_key (ActivationPlan.states p) /\
  (binding_key <$> ActivationPlan.states p) ≡ₚ (identity_of <$> states) /\
  (forall b, b ∈ ActivationPlan.states p -> exists state, state ∈ states /\ bound state b) /\
  forall states', states ≡ₚ states' -> bind_activation_plan recovery manifest states' = Ok p.
Proof.
  intros (candidate & l & certificate & v & bs & dc & dk & d & Hr & Hm & Hv & Hg & Hnil & Hn & Hf &
    Hnd & Hc & Hk & Hd & ->)%bind_plan_Ok. cbn [ActivationPlan.states ActivationPlan.with_digest].
  pose proof (sort_by_key_perm binding_key bs) as Hperm. split_and!.
  - by apply (plan_accepted states); try done; [exact (require_digest_digest _ _ Hc)|exact (require_digest_digest _ _ Hk)].
  - apply sorted_NoDup_strict; [exact (sort_by_key_sorted _ _)|]. by rewrite Hperm.
  - rewrite Hperm. clear -Hf. induction Hf as [|state b states bs Hb _ IH]; [done|].
    by rewrite !fmap_cons, IH, (bound_key _ _ Hb).
  - intros b Hb. rewrite Hperm in Hb. apply list_elem_of_lookup in Hb as [i Hi].
    destruct (Forall2_lookup_r _ _ _ _ _ Hf Hi) as (state & Hs & Hbound). exists state. split; [|done].
    by eapply list_elem_of_lookup_2.
  - intros states' Hp. destruct (Permutation_Forall2 Hp Hf) as (bs' & Hpb & Hf').
    apply bind_plan_Ok. exists candidate, l, certificate, v, bs', dc, dk, d.
    rewrite <- (sort_by_key_unique binding_key bs bs') by (done || by rewrite <- Hpb).
    assert (NoDup (binding_key <$> bs')) as Hnd' by (by rewrite <- Hpb). split_and!; try done.
    + intros ->. by apply Permutation_nil_r in Hp.
    + unfold vec_len in *. by rewrite <- Hp.
Qed.
End Plans.

(** * PostgreSQL names *)

Section Names.
Context {S : Type} `{Postgres.Postgres S}.
Context `{SerdeErrorText, JsonText, Sha256, Hex}.
Context `{!ToValue StateSchema, !ToValue (list StateItem), !ToValue StateSnapshot, !ToValue MigrationPlan}.
Context `{!ToVec Postgres.PgSchema.PgSchema, !FromSlice Postgres.PgSchema.PgSchema}.

Lemma identifier_bytes_app first a b :
  identifier_bytes first (a ++ b) =
    identifier_bytes first a && identifier_bytes (first && bool_decide (a = [])) b.
Proof.
  revert first. induction a as [|x a IH]; intros first; cbn [app identifier_bytes].
  - by rewrite bool_decide_eq_true_2, andb_true_r by done.
  - rewrite IH, andb_assoc. by rewrite (bool_decide_eq_false_2 (x :: a = [])), andb_false_r by done.
Qed.

Lemma validate_identifier_Ok v :
  validate_identifier v = Ok () <->
  1 <= str_len v <= 63 /\ identifier_bytes true (bytes_of_string v) = true.
Proof.
  unfold validate_identifier. assert (str_is_empty v = false <-> 1 <= str_len v) as He.
  { unfold str_is_empty. rewrite Z.eqb_neq. pose proof (str_len_nonneg v). lia. }
  destruct (str_is_empty v); cbn [orb]; [split; [done|intros [? _]; destruct He as [_ He]; by discriminate He; lia]|].
  destruct (Z.ltb_spec 63 (str_len v)); cbn [orb]; [split; [done|lia]|].
  destruct (identifier_bytes true _); cbn [negb]; [|by split; [|intros [_ ?]]].
  split; [|done]. intros _. split; [|done]. split; [by apply He|done].
Qed.

(** The names made of a target and a suffix that is a tail of an identifier. *)
Lemma suffixed_identifier target suffix :
  validate_identifier target = Ok () -> identifier_bytes false (bytes_of_string suffix) = true ->
  validate_identifier (target +:+ suffix) = Ok () <-> str_len target + str_len suffix <= 63.
Proof.
  rewrite !validate_identifier_Ok. intros [Hl Hi] Hs.
  rewrite str_len_app, string_app_bytes, identifier_bytes_app, Hi.
  assert (bytes_of_string target <> []) as Hne by (intros Hn; apply (f_equal string_of_bytes) in Hn; rewrite string_of_bytes_of_string in Hn; subst;
      change (str_len (string_of_bytes [])) with 0 in Hl; lia).
  rewrite (bool_decide_eq_false_2 _ Hne). cbn [andb]. rewrite Hs. pose proof (str_len_nonneg suffix). intuition lia.
Qed.

End Names.

(** * Witnesses *)

Module StatefulWitness.
#[local] Existing Instances Toy.sha Toy.sha_laws Toy.hexi Toy.hex_laws ToyJson.text.
#[local] Instance error_text : SerdeErrorText := "json".
#[local] Instance serialise_schema : ToValue StateSchema := fun s => Some (String (StateSchema.resource s)).
#[local] Instance serialise_items : ToValue (list StateItem) :=
  fun items => Some (ToyJson.tree_list (fun i => String (StateItem.key i)) items).
#[local] Instance serialise_snapshot : ToValue StateSnapshot := fun s => Some (String (StateSnapshot.data_sha256 s)).
#[local] Instance serialise_migration : ToValue MigrationPlan := fun p => Some (String (MigrationPlan.target_resource p)).
#[local] Instance serialise_candidate : ToValue Candidate.Candidate := fun c => Some (String (Candidate.component c)).
#[local] Instance serialise_certificate : ToValue Protocol.Certificate := fun c =>
  Some (Object [("service_manifest_digest", from_option String Null (Protocol.service_manifest_digest c))]).
#[local] Instance serialise_plan : ToValue ActivationPlan := fun p =>
  Some (Array [String (ActivationPlan.candidate_sha256 p); String (ActivationPlan.plan_sha256 p);
               ToyJson.tree_list (fun b => String (ActivationStateBinding.resource b)) (ActivationPlan.states p)]).

Definition manifest : string := bytes_digest (bytes_of_string "manifest").
Definition certificate : Protocol.Certificate :=
  {| Protocol.protocol_version := "1"; Protocol.component := "door"; Protocol.interface_version := "1";
     Protocol.service_manifest_digest := Some manifest; Protocol.survivor_envelope_digests := [];
     Protocol.normalized_constraints_digest := ""; Protocol.failure_domains := []; Protocol.verification_audit := None;
     Protocol.grammar_version := "fsm-v0"; Protocol.search_bounds := Protocol.Build_SearchBounds 1 1;
     Protocol.candidate_digest := ""; Protocol.non_identical_to_forbidden_artifacts := true;
     Protocol.checker_identity := ""; Protocol.coverage := Checker.Build_Coverage 0 0 0 0 0 0 0;
     Protocol.sandbox := Sandbox.Build_SandboxEvidence "" "" 0 0 0 0;
     Protocol.state_transform := Protocol.Build_StateTransform "" "";
     Protocol.loss_attestation := Protocol.LossAttestation.Build_LossAttestation "" "" true true 0 0;
     Protocol.experiment := Protocol.Build_ExperimentRegistration 1 [] [] [];
     Protocol.deployment_preconditions := [] |}.
Definition candidate : Candidate.Candidate :=
  {| Candidate.component := "door"; Candidate.interface_version := "1";
     Candidate.grammar := {| Grammar.version := "fsm-v0"; Grammar.inputs := []; Grammar.outputs := [];
       Grammar.states := []; Grammar.initial_state := "s"; Grammar.max_candidates := 1 |};
     Candidate.transitions := [] |}.
Definition recovery : Protocol.RecoveryResult := Protocol.Certified candidate "" certificate.

(** A sealed snapshot of a database with a table, and its plan for a target. *)
Definition database (name : string) : StateSnapshot :=
  let s := unsealed {| StateSchema.backend := PostgreSql; StateSchema.resource := name;
                       StateSchema.definition := "{}"; StateSchema.invariants := [] |} "copied"
             [{| StateItem.key := "users"; StateItem.fields := []; StateItem.payload := [1; 2] |}] in
  match seal_snapshot s with Ok s => s | Err _ => s end.
Definition planned (target : string) : MigrationPlan :=
  match Postgres.plan (database "app") target with
  | Ok mp => mp
  | Err _ => MigrationPlan.Build_MigrationPlan "" PostgreSql "" "" [] ""
  end.

Definition states : list (StateSnapshot * MigrationPlan) :=
  [(database "app", planned "users_next"); (database "app", planned "audit_next")].

Lemma binds : is_err (bind_activation_plan recovery manifest states) = false.
Proof. vm_compute. reflexivity. Qed.

Example activation_plan_valid_witness :
  exists p, bind_activation_plan recovery manifest states = Ok p /\ validate_activation_plan p = Ok () /\
    bind_activation_plan recovery manifest (reverse states) = Ok p.
Proof.
  pose proof binds as Hb. destruct (bind_activation_plan recovery manifest states) as [p|e] eqn:Hp; [|discriminate Hb].
  destruct (activation_plan_valid recovery manifest states p Hp) as (Hv & _ & _ & _ & Hany).
  exists p. split; [reflexivity|]. split; [exact Hv|]. apply Hany. symmetry. apply reverse_Permutation.
Defined.

(** A session that answers nothing. *)
#[local] Instance silent : Postgres.Postgres () := {|
  Postgres.query_rows _ _ := fail ""; Postgres.query_text _ _ := fail ""; Postgres.query_bool _ _ := fail "";
  Postgres.copy_out _ := fail ""; Postgres.copy_in _ := fail ""; Postgres.copy_write _ := fail "";
  Postgres.copy_finish := fail ""; Postgres.batch_execute _ := fail ""; Postgres.begin_transaction _ := fail "";
  Postgres.commit_transaction := fail ""; Postgres.drop_transaction s := s;
|}.
#[local] Instance schema_text : ToVec Postgres.PgSchema.PgSchema := fun _ => None.
#[local] Instance read_schema : FromSlice Postgres.PgSchema.PgSchema := fun _ => None.

Definition long_name : string := "a_target_of_forty_five_bytes_in_total_x_x_x_x".
Lemma long_name_planned : str_len long_name = 45 /\ Postgres.plan (database "app") long_name = Ok (planned long_name).
Proof. split; vm_compute; reflexivity. Qed.

End StatefulWitness.
