(* ===== verification/RedisSafety.v ===== *)
(** src/stateful.rs, Redis: what a restoration does to the keys of a server that behaves
    as the commands are documented ([RedisLaws]) and has no other client meanwhile. *)
From stdpp Require Import pretty.
From S2P Require Import Prelude Effects External Json Core Model Canonical Text Stateful Redis.

(** * Sorting *)

Section SortFacts.
Context {A K : Type} `{OrdLaws K} (key : A -> K).

(** Sorting what is sorted already at the end changes nothing. *)
Lemma sort_app_sorted (l l' : list A) : sort_by_key key (l ++ sort_by_key key l') = sort_by_key key (l ++ l').
Proof.
  unfold sort_by_key. rewrite !foldr_app. f_equal. fold (sort_by_key key l').
  change (sort_by_key key (sort_by_key key l') = sort_by_key key l').
  exact (sort_by_key_id key _ (sort_by_key_sorted key l')).
Qed.

Lemma sort_insert_head (x : A) l :
  Forall (fun y => key_le (key x) (key y)) l -> sort_insert key x l = x :: l.
Proof. intros [|y l' Hy _]; [done|]. simpl. unfold key_le in Hy. by destruct (cmp (key x) (key y)). Qed.

Lemma filter_sort_insert (P : A -> Prop) `{forall x, Decision (P x)} x l :
  sorted_by_key key l ->
  filter P (sort_insert key x l) = if decide (P x) then sort_insert key x (filter P l) else filter P l.
Proof.
  induction 1 as [|y l Hl IH Hall]; [done|]. cbn [sort_insert].
  assert (cmp (key x) (key y) <> Gt ->
          filter P (x :: y :: l) =
            if decide (P x) then sort_insert key x (filter P (y :: l)) else filter P (y :: l)) as Hle.
  { intros Hxy. rewrite filter_cons. destruct (decide (P x)); [|done]. rewrite sort_insert_head; [done|].
    apply Forall_forall. intros z [_ Hz]%list_elem_of_filter. apply elem_of_cons in Hz as [->|Hz]; [done|].
    apply (key_le_trans _ (key y)); [done|]. by apply (proj1 (Forall_forall _ _) Hall). }
  destruct (cmp (key x) (key y)) eqn:E; [by apply Hle|by apply Hle|].
  rewrite !filter_cons, IH. destruct (decide (P x)); [|done]. destruct (decide (P y)); [|done].
  cbn [sort_insert]. by rewrite E.
Qed.

Lemma filter_sort (P : A -> Prop) `{forall x, Decision (P x)} l :
  filter P (sort_by_key key l) = sort_by_key key (filter P l).
Proof.
  induction l as [|x l IH]; [done|]. cbn [sort_by_key foldr]. fold (sort_by_key key l).
  rewrite filter_sort_insert, filter_cons, IH by exact (sort_by_key_sorted key l). by destruct (decide (P x)).
Qed.
End SortFacts.

(** Sorting lists of elements that correspond and have the same keys. *)
Lemma sort_Forall2 {A B K} `{Ord K} (ka : A -> K) (kb : B -> K) (R : A -> B -> Prop) l l' :
  (forall x y, R x y -> ka x = kb y) -> Forall2 R l l' -> Forall2 R (sort_by_key ka l) (sort_by_key kb l').
Proof.
  intros Hkey. induction 1 as [|x y l l' Hxy _ IH]; [constructor|]. cbn [sort_by_key foldr].
  fold (sort_by_key ka l) (sort_by_key kb l'). revert IH. generalize (sort_by_key ka l) (sort_by_key kb l').
  intros m m' Hm. induction Hm as [|z w m m' Hzw Hm IH]; cbn [sort_insert]; [by repeat constructor|].
  rewrite (Hkey _ _ Hxy), (Hkey _ _ Hzw). destruct (cmp (kb y) (kb w)); by repeat constructor.
Qed.

(** * Streams *)

#[export] Instance ord_N : Ord N := N.compare.
#[export] Instance ord_N_laws : OrdLaws N.
Proof.
  split; unfold cmp, ord_N.
  - intros a b. apply N.compare_eq_iff.
  - intros a b. apply N.compare_antisym.
  - intros a b c. rewrite !N.compare_lt_iff. lia.
Qed.

(** An identifier is a time in milliseconds and a sequence number. *)
Abbreviation stream_id := (N * N)%type.
Definition zero_id : stream_id := (0%N, 0%N).
Definition id_text (i : stream_id) : string := pretty i.1 +:+ "-" +:+ pretty i.2.

Module Stream.
Record Stream := {
  entries : list (stream_id * list (list Z * list Z));
  groups : list GroupInfo.GroupInfo;
  last_id : stream_id;
}.
Definition empty : Stream := {| entries := []; groups := []; last_id := zero_id |}.
Definition append (e : stream_id * list (list Z * list Z)) (v : Stream) : Stream :=
  {| entries := entries v ++ [e]; groups := groups v; last_id := e.1 |}.
Definition add_group (name id : string) (v : Stream) : Stream :=
  {| entries := entries v;
     groups := groups v ++ [{| GroupInfo.name := name; GroupInfo.pending := 0; GroupInfo.last_delivered_id := id |}];
     last_id := last_id v |}.
End Stream.
Abbreviation Stream := Stream.Stream.

(** Identifiers increase, group names differ. *)
Definition well_formed (v : Stream) : Prop :=
  strictly_sorted_by_key fst (Stream.entries v) /\
  Forall (fun e => key_lt zero_id e.1) (Stream.entries v) /\ NoDup (GroupInfo.name <$> Stream.groups v).

Definition flat (fields : list (list Z * list Z)) : list Value :=
  fields ≫= fun p => [BulkString p.1; BulkString p.2].
Definition reply (v : Stream) : list Value :=
  (fun e => ArrayValue [BulkString (bytes_of_string (id_text e.1)); ArrayValue (flat e.2)]) <$> Stream.entries v.

(** What the commands do, as documented, to the streams at the keys. *)
Class RedisLaws (S : Type) `{Redis S} := {
  view : S -> gmap string Stream;
  memory : Stream -> Z;
  run_memory_usage : forall s k, memory_usage k s = (Ok (memory <$> view s !! k), s);
  run_xrange : forall s k n v, view s !! k = Some v ->
    xrange k n s = (Ok (ArrayValue (take (Z.to_nat n) (reply v))), s);
  run_xinfo_groups : forall s k v, view s !! k = Some v -> xinfo_groups k s = (Ok (Stream.groups v), s);
  run_exists : forall s k, exists_key k s = (Ok (if decide (is_Some (view s !! k)) then 1 else 0), s);
  run_xadd : forall s k i fields, let v := default Stream.empty (view s !! k) in
    key_lt (Stream.last_id v) i ->
    exists s', xadd k (id_text i) fields s = (Ok (id_text i), s') /\
      view s' = <[k := Stream.append (i, fields) v]> (view s);
  run_xadd_refused : forall s k i fields,
    ~ key_lt (Stream.last_id (default Stream.empty (view s !! k))) i ->
    exists error, xadd k (id_text i) fields s = (Err error, s);
  run_xgroup_create : forall s k name id v, view s !! k = Some v ->
    name ∉ (GroupInfo.name <$> Stream.groups v) ->
    exists s', xgroup_create k name id s = (Ok (), s') /\
      view s' = <[k := Stream.add_group name id v]> (view s);
  run_xgroup_create_absent : forall s k name id, view s !! k = None ->
    exists error, xgroup_create k name id s = (Err error, s);
  run_rename : forall s from to v, view s !! from = Some v ->
    exists s', rename from to s = (Ok (), s') /\ view s' = <[to := v]> (delete from (view s));
  run_rename_absent : forall s from to, view s !! from = None ->
    exists error, rename from to s = (Err error, s);
  run_del : forall s k, exists n s', del k s = (Ok n, s') /\ view s' = delete k (view s);
}.

Lemma id_text_bytes i : from_utf8 (bytes_of_string (id_text i)) = Some (id_text i).
Proof.
  apply from_utf8_bytes, ascii_utf8. unfold id_text. rewrite !string_app_bytes.
  assert (forall n : N, Forall (fun b => b < 128) (bytes_of_string (pretty n))) as Hp.
  { intros n. eapply Forall_impl; [apply pretty_digits|]. unfold is_digit_byte. lia. }
  apply Forall_app. split; [done|]. apply Forall_app. split; [|done].
  change (bytes_of_string "-") with [45]. constructor; [lia|constructor].
Qed.

Lemma prefix_head_ne a b p s : a <> b -> String.prefix (String.String a p) (String.String b s) = false.
Proof. intros Hne. cbn [String.prefix]. by destruct (ascii_dec a b). Qed.

(** An identifier is not the key of a group. *)
Lemma id_text_no_group i : String.prefix "@group/" (id_text i) = false.
Proof.
  unfold id_text. destruct (pretty_starts_digit i.1) as (b & bs & Hb & Hd).
  destruct (pretty i.1) as [|c s]; [done|]. cbn [bytes_of_string] in Hb. injection Hb as Hb _.
  subst b. change (String.String c s +:+ "-" +:+ pretty i.2)
    with (String.String c (s +:+ "-" +:+ pretty i.2)).
  apply prefix_head_ne. intros <-. unfold is_digit_byte in Hd. change (byte_of_ascii "@") with 64 in Hd. lia.
Qed.

Lemma group_key_group name : String.prefix "@group/" ("@group/" +:+ name) = true.
Proof. cbn. by destruct name. Qed.

Lemma field_pairs_flat fields : field_pairs (flat fields) = Ok fields.
Proof.
  induction fields as [|[n v] fields IH]; [done|]. unfold flat in *. rewrite bind_cons. cbn [app field_pairs].
  cbn [value_bytes mbind result_bind]. by rewrite IH.
Qed.

Lemma flat_even fields : vec_len (flat fields) mod 2 = 0.
Proof.
  assert (vec_len (flat fields) = 2 * vec_len fields) as ->; [|zlia].
  unfold vec_len, flat. induction fields as [|p fields IH]; [done|]. rewrite bind_cons, length_app. simpl. lia.
Qed.

(** * Loops *)

(** The loops that push one item for each element. *)
Lemma push_items {A} (f : A -> option StateItem) (e : Error) l : forall acc out,
  enforce_bounds acc = Ok () ->
  for_each l acc (fun x items => match f x with Some item => push item items | None => Err e end) = Ok out <->
  exists items, mapM f l = Some items /\ out = acc ++ items /\ enforce_bounds out = Ok ().
Proof.
  induction l as [|x l IH]; intros acc out Hacc; cbn [for_each mapM].
  - split.
    + intros [= <-]. exists []. by rewrite app_nil_r.
    + by intros (items & [= <-] & -> & _); rewrite app_nil_r.
  - destruct (f x) as [item|]; [|split; [done|by intros (? & ? & _)]].
    assert (push item acc = (_ ← enforce_bounds (acc ++ [item]); Ok (acc ++ [item]))) as -> by done.
    destruct (enforce_bounds (acc ++ [item])) as [[]|e'] eqn:Hb; cbn [mbind result_bind option_bind].
    + rewrite IH by done. split.
      * intros (items & Hm & -> & Hout). exists (item :: items). rewrite Hm. cbn.
        by rewrite <- app_assoc in Hout |- *.
      * intros (items & Hm & -> & Hout). apply bind_Some in Hm as (items' & Hm & [= <-]).
        exists items'. rewrite Hm, <- app_assoc. by split_and!.
    + split; [done|]. intros (items & Hm & -> & Hout). apply bind_Some in Hm as (items' & _ & [= <-]).
      change (item :: items') with ([item] ++ items') in Hout. rewrite app_assoc in Hout.
      apply enforce_bounds_prefix in Hout. congruence.
Qed.

Lemma for_each_fmap {E A B T} (g : A -> B) (l : list A) (t : T) (body : B -> T -> result E T) :
  for_each (g <$> l) t body = for_each l t (fun x => body (g x)).
Proof.
  revert t. induction l as [|x l IH]; intros t; cbn [fmap list_fmap for_each]; [done|].
  destruct (body (g x) t); [apply IH|done].
Qed.

Section Adapter.
Context {S : Type} `{Redis S, !RedisLaws S}.
Context `{SerdeErrorText, JsonText, Sha256, Hex}.
Context `{!ToValue StateSchema, !ToValue (list StateItem), !ToValue StateSnapshot, !ToValue MigrationPlan}.
Context `{!ToVec RedisEntry.RedisEntry, !FromSlice RedisEntry.RedisEntry, !ToVecLaws RedisEntry.RedisEntry}.
Context `{!ToVec RedisGroup.RedisGroup, !FromSlice RedisGroup.RedisGroup, !ToVecLaws RedisGroup.RedisGroup}.
Implicit Types (s : S) (v : Stream).

(** * Captures *)

Definition entry_item (e : stream_id * list (list Z * list Z)) : option StateItem :=
  plain_item (id_text e.1) <$> to_vec {| RedisEntry.id := id_text e.1; RedisEntry.fields := e.2 |}.
Definition group_item (g : GroupInfo.GroupInfo) : option StateItem :=
  plain_item ("@group/" +:+ GroupInfo.name g) <$>
    to_vec {| RedisGroup.name := GroupInfo.name g; RedisGroup.last_delivered_id := GroupInfo.last_delivered_id g |}.

(** The items of a stream that can be captured. *)
Definition captured v (items : list StateItem) : Prop :=
  memory v <= MAX_STATE_BYTES /\ vec_len (Stream.entries v) <= MAX_STATE_ITEMS /\
  Forall (fun g => GroupInfo.pending g = 0) (Stream.groups v) /\
  exists es gs, mapM entry_item (Stream.entries v) = Some es /\ mapM group_item (Stream.groups v) = Some gs /\
    enforce_bounds (es ++ gs) = Ok () /\ items = sort_by_key StateItem.key (es ++ gs).

Definition capture_stream v : result Error (list StateItem) :=
  if MAX_STATE_BYTES <? memory v then Err (invalid "Redis stream exceeds state byte bound") else
  entries ← entries_of_reply (ArrayValue (take (Z.to_nat (MAX_STATE_ITEMS + 1)) (reply v)));
  items ← for_each entries [] capture_entry;
  items ← for_each (Stream.groups v) items capture_group;
  Ok (sort_by_key StateItem.key items).

Lemma capture_runs s k v : view s !! k = Some v -> capture k s = (capture_stream v, s).
Proof.
  intros Hv. unfold capture, capture_stream.
  rewrite (run_bind _ _ _ _ _ (run_backend _ _ _ _ (run_memory_usage s k))), Hv.
  cbn [fmap option_fmap option_map]. destruct (MAX_STATE_BYTES <? memory v); [done|].
  rewrite (run_bind _ _ _ _ _ (run_backend _ _ _ _ (run_xrange s k _ v Hv))).
  destruct (entries_of_reply _) as [entries|e]; [|done]. rewrite (run_bind_lift _ _ _ _ eq_refl).
  cbn [mbind result_bind]. destruct (for_each entries [] capture_entry) as [items|e]; [|done].
  rewrite (run_bind_lift _ _ _ _ eq_refl), (run_bind _ _ _ _ _ (run_backend _ _ _ _ (run_xinfo_groups s k v Hv))).
  unfold mbind, op_bind, lift. cbn [result_bind]. by destruct (for_each (Stream.groups v) items capture_group).
Qed.

Lemma capture_entry_reply e items :
  capture_entry (ArrayValue [BulkString (bytes_of_string (id_text e.1)); ArrayValue (flat e.2)]) items =
    match entry_item e with Some item => push item items | None => Err json_error end.
Proof.
  unfold capture_entry, entry_item. cbn [value_bytes mbind result_bind]. rewrite id_text_bytes.
  cbn [ok_or mbind result_bind]. rewrite flat_even, field_pairs_flat. cbn. by destruct (to_vec _).
Qed.

Lemma capture_group_item g items :
  GroupInfo.pending g = 0 ->
  capture_group g items = match group_item g with Some item => push item items | None => Err json_error end.
Proof. intros Hp. unfold capture_group, group_item. rewrite Hp. cbn. by destruct (to_vec _). Qed.

Lemma capture_groups groups items out :
  enforce_bounds items = Ok () ->
  for_each groups items capture_group = Ok out <->
  Forall (fun g => GroupInfo.pending g = 0) groups /\
  exists gs, mapM group_item groups = Some gs /\ out = items ++ gs /\ enforce_bounds out = Ok ().
Proof.
  intros Hb. rewrite <- (push_items group_item json_error groups items out Hb). clear Hb. revert items.
  induction groups as [|g groups IH]; intros items; cbn [for_each].
  - split; [by split|by intros [_ ?]].
  - destruct (decide (GroupInfo.pending g = 0)) as [Hp|Hp].
    + rewrite capture_group_item by done. rewrite Forall_cons.
      destruct (match group_item g with Some item => push item items | None => Err json_error end) as [items'|e];
        cbn [mbind result_bind]; [rewrite IH; tauto|split; [done|by intros [_ ?]]].
    + assert (is_err (capture_group g items) = true) as He.
      { unfold capture_group. by rewrite (proj2 (Z.eqb_neq _ _) Hp). }
      destruct (capture_group g items); [done|]. split; [done|].
      by intros [[? _]%Forall_cons _].
Qed.

Lemma capture_stream_Ok v items : capture_stream v = Ok items <-> captured v items.
Proof.
  unfold capture_stream, captured. destruct (Z.ltb_spec MAX_STATE_BYTES (memory v)); [split; [done|lia]|].
  unfold entries_of_reply. destruct (Z_le_gt_dec (vec_len (Stream.entries v)) MAX_STATE_ITEMS) as [Hn|Hn].
  - assert (length (reply v) = length (Stream.entries v)) as Hlen by (unfold reply; apply length_fmap).
    rewrite take_ge by (unfold vec_len in Hn; lia).
    assert (vec_len (reply v) = vec_len (Stream.entries v)) as -> by (unfold vec_len; by rewrite Hlen).
    rewrite (proj2 (Z.ltb_ge _ _) Hn). cbn [mbind result_bind]. unfold reply at 1. rewrite for_each_fmap.
    rewrite (for_each_ext _ (fun e items => match entry_item e with Some item => push item items | None => Err json_error end))
      by (intros; apply capture_entry_reply).
    rewrite bind_Ok. setoid_rewrite (push_items entry_item json_error); [|done]. cbn [app]. split.
    + intros (items0 & (es & Hes & -> & Hb) & Hrest). apply bind_Ok in Hrest as (out & Hg & [= <-]).
      apply (capture_groups _ _ _ Hb) in Hg as (Hp & gs & Hgs & -> & Hout). eauto 10.
    + intros (_ & _ & Hp & es & gs & Hes & Hgs & Hb & ->). exists es.
      split; [by exists es; eauto using enforce_bounds_prefix|]. apply bind_Ok. exists (es ++ gs). split; [|done].
      apply capture_groups; [by apply enforce_bounds_prefix in Hb|]. eauto.
  - rewrite (proj2 (Z.ltb_lt _ _)); [split; [done|intros (_ & ? & _); lia]|].
    unfold vec_len, reply in *. rewrite length_take, length_fmap. lia.
Qed.

(** * Staging *)

Fixpoint increasing (i : stream_id) (es : list (stream_id * list (list Z * list Z))) : Prop :=
  match es with [] => True | e :: es => key_lt i e.1 /\ increasing e.1 es end.

#[export] Instance key_lt_dec {K} `{Ord K} (a b : K) : Decision (key_lt a b).
Proof. unfold key_lt. solve_decision. Defined.
#[export] Instance increasing_dec i es : Decision (increasing i es).
Proof. revert i. induction es as [|e es IH]; intros i; simpl; [left; done|]. specialize (IH e.1). solve_decision. Defined.

Definition staged s (stage : string) : Stream := default Stream.empty (view s !! stage).

Lemma add_entry_run stage e item s :
  entry_item e = Some item ->
  (key_lt (Stream.last_id (staged s stage)) e.1 ->
   exists s', add_entry stage item s = (Ok (), s') /\ view s' = <[stage := Stream.append e (staged s stage)]> (view s)) /\
  (~ key_lt (Stream.last_id (staged s stage)) e.1 -> exists error, add_entry stage item s = (Err error, s)).
Proof.
  intros He. unfold entry_item in He. apply fmap_Some in He as (payload & Hp & ->).
  unfold add_entry, is_group. cbn [StateItem.key plain_item StateItem.payload]. rewrite id_text_no_group.
  rewrite (from_slice_vec _ _ Hp). cbn [ok_or RedisEntry.id RedisEntry.fields]. split; intros Hlt.
  - destruct (run_xadd s stage e.1 e.2 Hlt) as (s' & Hr & Hv). exists s'.
    rewrite (run_bind_lift _ _ _ _ eq_refl), (run_bind _ _ _ _ _ (run_backend _ _ _ _ Hr)).
    split; [done|]. rewrite Hv. by destruct e.
  - destruct (run_xadd_refused s stage e.1 e.2 Hlt) as (error & Hr). eexists.
    rewrite (run_bind_lift _ _ _ _ eq_refl). by apply run_bind_Err, run_backend_Err.
Qed.

Definition stage_entries (stage : string) (items : list StateItem) : op S Error () :=
  op_for items () (fun item _ => add_entry stage item).
Definition stage_groups (stage : string) (items : list StateItem) : op S Error () :=
  op_for items () (fun item _ => add_group stage item).

Definition with_entries (es : list (stream_id * list (list Z * list Z))) v : Stream :=
  foldl (fun v e => Stream.append e v) v es.

Lemma stage_entries_ok stage es : forall items s,
  Forall2 (fun e item => entry_item e = Some item) es items ->
  increasing (Stream.last_id (staged s stage)) es ->
  exists s', stage_entries stage items s = (Ok (), s') /\
    view s' = match es with [] => view s | _ => <[stage := with_entries es (staged s stage)]> (view s) end.
Proof.
  induction es as [|e es IH]; intros items s Hes Hinc; inversion Hes as [|? item ? items' He Hes']; subst.
  - by exists s.
  - destruct Hinc as [Hlt Hinc]. destruct (proj1 (add_entry_run stage e item s He) Hlt) as (s1 & Hr & Hv).
    assert (staged s1 stage = Stream.append e (staged s stage)) as Hst.
    { unfold staged at 1. by rewrite Hv, lookup_insert_eq. }
    destruct (IH items' s1 Hes') as (s' & Hr' & Hv'); [by rewrite Hst|]. exists s'.
    unfold stage_entries. cbn [op_for]. rewrite (run_bind _ _ _ _ _ Hr). split; [done|].
    rewrite Hv', Hst, Hv. destruct es; [done|]. by rewrite insert_insert_eq.
Qed.

Lemma stage_entries_fail stage es : forall items s,
  Forall2 (fun e item => entry_item e = Some item) es items ->
  ~ increasing (Stream.last_id (staged s stage)) es ->
  exists error s', stage_entries stage items s = (Err error, s') /\
    (view s' = view s \/ exists w, view s' = <[stage := w]> (view s)).
Proof.
  induction es as [|e es IH]; intros items s Hes Hinc; inversion Hes as [|? item ? items' He Hes']; subst.
  - by contradict Hinc.
  - unfold stage_entries. cbn [op_for].
    destruct (decide (key_lt (Stream.last_id (staged s stage)) e.1)) as [Hlt|Hge].
    + destruct (proj1 (add_entry_run stage e item s He) Hlt) as (s1 & Hr & Hv).
      assert (staged s1 stage = Stream.append e (staged s stage)) as Hst.
      { unfold staged at 1. by rewrite Hv, lookup_insert_eq. }
      destruct (IH items' s1 Hes') as (error & s' & Hr' & Hv').
      { rewrite Hst. intros Hi. by apply Hinc. }
      exists error, s'. rewrite (run_bind _ _ _ _ _ Hr). split; [done|]. right.
      destruct Hv' as [->|[w ->]]; rewrite Hv; [eauto|]. exists w. by rewrite insert_insert_eq.
    + destruct (proj2 (add_entry_run stage e item s He) Hge) as (error & Hr).
      exists error, s. split; [by apply run_bind_Err|by left].
Qed.

(** Staging stops with something in the stage, once a first entry is there. *)
Lemma stage_entries_leaves stage e es item items s :
  view s !! stage = None -> key_lt zero_id e.1 -> entry_item e = Some item ->
  Forall2 (fun e item => entry_item e = Some item) es items -> ~ increasing e.1 es ->
  exists error s' w, stage_entries stage (item :: items) s = (Err error, s') /\
    view s' = <[stage := w]> (view s).
Proof.
  intros Hnone Hpos He Hes Hinc. assert (staged s stage = Stream.empty) as Hempty by (unfold staged; by rewrite Hnone).
  destruct (proj1 (add_entry_run stage e item s He)) as (s1 & Hr & Hv); [by rewrite Hempty|].
  assert (staged s1 stage = Stream.append e (staged s stage)) as Hst.
  { unfold staged at 1. by rewrite Hv, lookup_insert_eq. }
  destruct (stage_entries_fail stage es items s1 Hes) as (error & s' & Hr' & Hv'); [by rewrite Hst|].
  unfold stage_entries at 1. cbn [op_for]. exists error, s'.
  destruct Hv' as [Heq|[w Heq]]; eexists; rewrite (run_bind _ _ _ _ _ Hr); (split; [done|]); rewrite Heq, Hv; [done|].
  by rewrite insert_insert_eq.
Qed.

Definition with_groups (gs : list GroupInfo.GroupInfo) v : Stream :=
  foldl (fun v g => Stream.add_group (GroupInfo.name g) (GroupInfo.last_delivered_id g) v) v gs.

Lemma stage_groups_ok stage gs : forall items s v,
  Forall2 (fun g item => group_item g = Some item) gs items -> view s !! stage = Some v ->
  NoDup ((GroupInfo.name <$> Stream.groups v) ++ (GroupInfo.name <$> gs)) ->
  exists s', stage_groups stage items s = (Ok (), s') /\ view s' = <[stage := with_groups gs v]> (view s).
Proof.
  induction gs as [|g gs IH]; intros items s v Hgs Hv Hnd; inversion Hgs as [|? item ? items' Hg Hgs']; subst.
  - exists s. split; [done|]. symmetry. by apply insert_id.
  - unfold group_item in Hg. apply fmap_Some in Hg as (payload & Hp & ->).
    assert (GroupInfo.name g ∉ (GroupInfo.name <$> Stream.groups v)) as Hfresh.
    { apply NoDup_app in Hnd as (_ & Hd & _). intros Hin. apply (Hd _ Hin). by left. }
    destruct (run_xgroup_create s stage (GroupInfo.name g) (GroupInfo.last_delivered_id g) v Hv Hfresh)
      as (s1 & Hr & Hv1).
    destruct (IH items' s1 (Stream.add_group (GroupInfo.name g) (GroupInfo.last_delivered_id g) v) Hgs')
      as (s' & Hr' & Hv').
    { by rewrite Hv1, lookup_insert_eq. }
    { cbn. rewrite fmap_app, <- app_assoc. exact Hnd. }
    exists s'. unfold stage_groups. cbn [op_for].
    assert (add_group stage (plain_item ("@group/" +:+ GroupInfo.name g) payload) s = (Ok (), s1)) as Ha.
    { unfold add_group, is_group. cbn [StateItem.key plain_item StateItem.payload]. rewrite group_key_group.
      cbn [negb]. rewrite (from_slice_vec _ _ Hp). cbn [ok_or]. rewrite (run_bind_lift _ _ _ _ eq_refl).
      by apply run_backend. }
    rewrite (run_bind _ _ _ _ _ Ha). split; [done|]. rewrite Hv', Hv1. by rewrite insert_insert_eq.
Qed.

(** * Restoration *)

Lemma stage_entries_skip stage items s :
  stage_entries stage items s = stage_entries stage (filter (fun i => is_group i = false) items) s.
Proof.
  revert s. induction items as [|item items IH]; intros s; [done|]. rewrite filter_cons.
  unfold stage_entries in *. destruct (decide (is_group item = false)) as [Hg|Hg]; cbn [op_for].
  - destruct (add_entry stage item s) as [[[]|e] s'] eqn:E.
    + rewrite (run_bind _ _ _ _ _ E), (run_bind _ _ _ _ _ E). apply IH.
    + by rewrite (run_bind_Err _ _ _ _ _ E), (run_bind_Err _ _ _ _ _ E).
  - assert (add_entry stage item s = (Ok (), s)) as Ha.
    { unfold add_entry. by destruct (is_group item). }
    rewrite (run_bind _ _ _ _ _ Ha). apply IH.
Qed.

Lemma stage_groups_skip stage items s :
  stage_groups stage items s = stage_groups stage (filter (fun i => is_group i = true) items) s.
Proof.
  revert s. induction items as [|item items IH]; intros s; [done|]. rewrite filter_cons.
  unfold stage_groups in *. destruct (decide (is_group item = true)) as [Hg|Hg]; cbn [op_for].
  - destruct (add_group stage item s) as [[[]|e] s'] eqn:E.
    + rewrite (run_bind _ _ _ _ _ E), (run_bind _ _ _ _ _ E). apply IH.
    + by rewrite (run_bind_Err _ _ _ _ _ E), (run_bind_Err _ _ _ _ _ E).
  - assert (add_group stage item s = (Ok (), s)) as Ha.
    { unfold add_group. by destruct (is_group item). }
    rewrite (run_bind _ _ _ _ _ Ha). apply IH.
Qed.

(** The orders in which [restore] adds entries and groups: those of their keys. *)
Definition by_text v := sort_by_key (fun e => id_text e.1) (Stream.entries v).
Definition by_name v := sort_by_key (fun g => "@group/" +:+ GroupInfo.name g) (Stream.groups v).

Lemma entries_not_groups es items :
  Forall2 (fun e item => entry_item e = Some item) es items -> Forall (fun i => is_group i = false) items.
Proof.
  induction 1 as [|e item es items He _ IH]; constructor; [|done].
  unfold entry_item in He. apply fmap_Some in He as (? & _ & ->). apply id_text_no_group.
Qed.
Lemma groups_are_groups gs items :
  Forall2 (fun g item => group_item g = Some item) gs items -> Forall (fun i => is_group i = true) items.
Proof.
  induction 1 as [|g item gs items He _ IH]; constructor; [|done].
  unfold group_item in He. apply fmap_Some in He as (? & _ & ->). apply group_key_group.
Qed.

Lemma filter_all {A} (P : A -> Prop) `{forall x, Decision (P x)} l : Forall P l -> filter P l = l.
Proof. induction 1 as [|x l Hx _ IH]; [done|]. by rewrite filter_cons_True, IH. Qed.
Lemma filter_none {A} (P : A -> Prop) `{forall x, Decision (P x)} l : Forall (fun x => ~ P x) l -> filter P l = [].
Proof. induction 1 as [|x l Hx _ IH]; [done|]. by rewrite filter_cons_False. Qed.

(** The two kinds of items of a captured stream, each in its order. *)
Lemma captured_parts v items :
  captured v items ->
  Forall2 (fun e item => entry_item e = Some item) (by_text v) (filter (fun i => is_group i = false) items) /\
  Forall2 (fun g item => group_item g = Some item) (by_name v) (filter (fun i => is_group i = true) items).
Proof.
  intros (_ & _ & _ & es & gs & Hes%mapM_Some & Hgs%mapM_Some & _ & ->).
  pose proof (entries_not_groups _ _ Hes) as He. pose proof (groups_are_groups _ _ Hgs) as Hg.
  rewrite !filter_sort, !filter_app.
  rewrite (filter_all _ es He), (filter_none _ gs), (filter_none _ es), (filter_all _ gs Hg), app_nil_r.
  - cbn [app]. split; (eapply sort_Forall2; [|done]).
    + intros e item Hi. unfold entry_item in Hi. by apply fmap_Some in Hi as (? & _ & ->).
    + intros g item Hi. unfold group_item in Hi. by apply fmap_Some in Hi as (? & _ & ->).
  - eapply Forall_impl; [exact He|]. intros i ->. done.
  - eapply Forall_impl; [exact Hg|]. intros i ->. done.
Qed.

(** What a restored stream is: the same entries, the groups by name, and the last entry's
    identifier as its last one. *)
Definition restored v : Stream :=
  {| Stream.entries := Stream.entries v; Stream.groups := by_name v;
     Stream.last_id := from_option fst zero_id (last (Stream.entries v)) |}.

Lemma with_entries_eq es v :
  with_entries es v =
    {| Stream.entries := Stream.entries v ++ es; Stream.groups := Stream.groups v;
       Stream.last_id := from_option fst (Stream.last_id v) (last es) |}.
Proof.
  unfold with_entries. revert v. induction es as [|e es IH]; intros v; cbn [foldl].
  - rewrite app_nil_r. by destruct v.
  - rewrite IH. cbn [Stream.append Stream.entries Stream.groups Stream.last_id]. rewrite <- app_assoc. f_equal.
    destruct es as [|e' es' _] using rev_ind; [done|]. by rewrite app_comm_cons, !last_snoc.
Qed.

Lemma with_groups_eq gs v :
  Forall (fun g => GroupInfo.pending g = 0) gs ->
  with_groups gs v =
    {| Stream.entries := Stream.entries v; Stream.groups := Stream.groups v ++ gs;
       Stream.last_id := Stream.last_id v |}.
Proof.
  unfold with_groups. intros Hp. revert v. induction Hp as [|g gs Hg _ IH]; intros v; cbn [foldl].
  - rewrite app_nil_r. by destruct v.
  - rewrite IH. cbn. rewrite <- app_assoc. destruct g; cbn in *; by subst.
Qed.

Lemma restored_captured v items :
  captured v items -> by_text v = Stream.entries v -> memory (restored v) <= MAX_STATE_BYTES ->
  captured (restored v) items.
Proof.
  intros (_ & Hn & Hp & es & gs & Hes & Hgs & Hb & ->) Htext Hmem. unfold captured. cbn.
  split_and!; [done..| |].
  - unfold by_name. by rewrite sort_by_key_perm.
  - exists es, (sort_by_key StateItem.key gs). split_and!; [done| | |by rewrite sort_app_sorted].
    + apply mapM_Some. apply mapM_Some in Hgs. eapply sort_Forall2; [|done].
      intros g item Hi. unfold group_item in Hi. by apply fmap_Some in Hi as (? & _ & ->).
    + eapply enforce_bounds_perm; [|done]. by rewrite sort_by_key_perm.
Qed.

Lemma names_differ target :
  stage_key target <> target /\ rollback_key target <> target /\ stage_key target <> rollback_key target.
Proof.
  assert (forall p, str_len (target +:+ p) = str_len target + str_len p) as Hl by (intros; apply str_len_app).
  unfold stage_key, rollback_key. split_and!; intros Heq; apply (f_equal str_len) in Heq; rewrite ?Hl in Heq;
    change (str_len ":anasemble:stage") with 16 in Heq; change (str_len ":anasemble:rollback") with 19 in Heq; lia.
Qed.

Lemma increasing_sorted i es :
  increasing i es <-> Forall (fun e => key_lt i e.1) es /\ strictly_sorted_by_key fst es.
Proof.
  revert i. induction es as [|e es IH]; intros i; cbn [increasing]; [by split; [split; constructor|]|].
  rewrite IH, Forall_cons. split.
  - intros (Hi & Hall & Hs). split_and!; [done| |by constructor].
    eapply Forall_impl; [exact Hall|]. intros x Hx. unfold key_lt in *. by eapply cmp_lt_trans.
  - intros ((Hi & _) & Hs). inversion Hs; subst. by split_and!.
Qed.

Section Restore.
Variables (snap : StateSnapshot) (p : MigrationPlan) (v : Stream).
Let target := MigrationPlan.target_resource p.
Let stage := stage_key target.
Let rollback := rollback_key target.
Hypothesis Hplan : validate_plan snap p = Ok ().
Hypothesis Hnames : validate_redis_key stage = Ok () /\ validate_redis_key rollback = Ok ().
Hypothesis Hcaptured : captured v (StateSnapshot.items snap).
Hypothesis Hwf : well_formed v.

Definition finish_restore : op S Error RestoreReceipt :=
  target_exists ← backend (exists_key target);
  _ ← backend (swap_script target rollback stage);
  lift (receipt snap p (if negb (target_exists =? 0) then rollback else "")).

Lemma stage_and_swap_starts s :
  stage_and_swap snap p s =
    if decide (is_Some (view s !! stage) \/ is_Some (view s !! rollback))
    then (Err (invalid "stale Redis staging or rollback key requires operator action"), s)
    else (_ ← stage_entries stage (StateSnapshot.items snap); _ ← stage_groups stage (StateSnapshot.items snap);
          finish_restore) s.
Proof.
  unfold stage_and_swap. fold target. fold stage rollback.
  rewrite (run_bind_lift _ _ _ () Hplan), (run_bind_lift _ _ _ () (proj1 Hnames)), (run_bind_lift _ _ _ () (proj2 Hnames)).
  rewrite (run_bind _ _ _ _ _ (run_backend _ _ _ _ (run_exists s stage))).
  rewrite (run_bind _ _ _ _ _ (run_backend _ _ _ _ (run_exists s rollback))).
  destruct (decide (is_Some (view s !! stage))) as [Ha|Ha], (decide (is_Some (view s !! rollback))) as [Hb|Hb];
    destruct (decide (_ \/ _)) as [Hc|Hc]; try tauto; done.
Qed.

Variable s : S.
Hypothesis Hfresh : view s !! stage = None /\ view s !! rollback = None.

Lemma stage_and_swap_fresh :
  stage_and_swap snap p s =
    (_ ← stage_entries stage (StateSnapshot.items snap); _ ← stage_groups stage (StateSnapshot.items snap);
     finish_restore) s.
Proof.
  rewrite stage_and_swap_starts. destruct Hfresh as [-> ->].
  destruct (decide _) as [[[]|[]]|]; done.
Qed.

Lemma staged_empty : staged s stage = Stream.empty.
Proof. unfold staged. by rewrite (proj1 Hfresh). Qed.

(** Staging a stream whose entries are in the order of their texts. *)
Lemma staging_ok :
  by_text v = Stream.entries v -> Stream.entries v <> [] ->
  exists s1 s2, stage_entries stage (StateSnapshot.items snap) s = (Ok (), s1) /\
    stage_groups stage (StateSnapshot.items snap) s1 = (Ok (), s2) /\
    view s2 = <[stage := restored v]> (view s).
Proof.
  intros Htext Hne. destruct (captured_parts v _ Hcaptured) as [Hes Hgs]. rewrite Htext in Hes.
  destruct Hwf as (Hsorted & Hpos & Hnd). destruct Hcaptured as (_ & _ & Hp & _).
  destruct (stage_entries_ok stage _ _ s Hes) as (s1 & Hr1 & Hv1).
  { rewrite staged_empty. by apply increasing_sorted. }
  rewrite staged_empty, with_entries_eq in Hv1.
  assert (view s1 !! stage = Some (with_entries (Stream.entries v) Stream.empty)) as Hst.
  { rewrite Hv1, with_entries_eq. destruct (Stream.entries v); [done|]. apply lookup_insert_eq. }
  rewrite with_entries_eq in Hst.
  destruct (stage_groups_ok stage _ _ s1 _ Hgs Hst) as (s2 & Hr2 & Hv2).
  { cbn. unfold by_name. by rewrite sort_by_key_perm. }
  exists s1, s2. rewrite stage_entries_skip, stage_groups_skip. split_and!; [done..|].
  rewrite Hv2, with_groups_eq.
  - rewrite Hv1. destruct (Stream.entries v) eqn:E; [done|]. rewrite insert_insert_eq. unfold restored.
    rewrite E. done.
  - unfold by_name. by rewrite sort_by_key_perm.
Qed.

(** The target gets what is staged, and the rollback key what the target held. *)
Definition swapped (w : Stream) (m : gmap string Stream) : gmap string Stream :=
  <[target := w]> (match m !! target with Some old => <[rollback := old]> m | None => m end).

Lemma swap_ok w s2 :
  view s2 = <[stage := w]> (view s) ->
  exists s', swap_script target rollback stage s2 = (Ok 1, s') /\ view s' = swapped w (view s).
Proof.
  intros Hv. destruct Hfresh as [Hst Hrb]. destruct (names_differ target) as (Hd1 & Hd2 & Hd3).
  fold stage rollback in Hd1, Hd2, Hd3. unfold swap_script, swapped.
  rewrite (run_bind _ _ _ _ _ (run_exists s2 rollback)). rewrite Hv, lookup_insert_ne by done. rewrite Hrb.
  destruct (decide _) as [[]|]; [done|]. change (0 =? 1) with false. cbn iota.
  rewrite (run_bind _ _ _ _ _ (run_exists s2 target)), Hv, lookup_insert_ne by done.
  destruct (view s !! target) as [old|] eqn:Hold.
  - destruct (decide _) as [_|Hn]; [|by contradict Hn]. change (1 =? 1) with true. cbn iota.
    destruct (run_rename s2 target rollback old) as (s3 & Hr3 & Hv3); [by rewrite Hv, lookup_insert_ne|].
    rewrite (run_bind _ _ _ _ _ Hr3). destruct (run_rename s3 stage target w) as (s4 & Hr4 & Hv4).
    { rewrite Hv3, lookup_insert_ne, lookup_delete_ne, Hv by done. apply lookup_insert_eq. }
    rewrite (run_bind _ _ _ _ _ Hr4). exists s4. split; [done|]. rewrite Hv4, Hv3, Hv.
    apply map_eq. intros k. destruct (decide (k = target)) as [->|Hk]; [by rewrite !lookup_insert_eq|].
    rewrite !(lookup_insert_ne _ target) by done. destruct (decide (k = stage)) as [->|Hks].
    { by rewrite lookup_delete_eq, lookup_insert_ne. }
    rewrite lookup_delete_ne by done. destruct (decide (k = rollback)) as [->|Hkr]; [by rewrite !lookup_insert_eq|].
    by rewrite !lookup_insert_ne, lookup_delete_ne, lookup_insert_ne.
  - destruct (decide _) as [[]|]; [done|]. change (0 =? 1) with false. cbn iota.
    rewrite (run_bind (mret ()) _ s2 () s2 eq_refl).
    destruct (run_rename s2 stage target w) as (s4 & Hr4 & Hv4); [by rewrite Hv, lookup_insert_eq|].
    rewrite (run_bind _ _ _ _ _ Hr4). exists s4. split; [done|]. rewrite Hv4, Hv. by rewrite delete_insert_id.
Qed.
End Restore.

Context `{!Sha256Laws, !HexLaws}.

Lemma rollback_key_nonempty target : str_is_empty (rollback_key target) = false.
Proof.
  unfold str_is_empty, rollback_key. rewrite str_len_app. change (str_len ":anasemble:rollback") with 19.
  pose proof (str_len_nonneg target). apply Z.eqb_neq. lia.
Qed.

Lemma verify_ok snap target w s :
  validate_snapshot snap = Ok () -> view s !! target = Some w -> captured w (StateSnapshot.items snap) ->
  verify snap target s = (Ok (), s).
Proof.
  intros (_ & _ & Hd)%validate_snapshot_Ok Hw Hc%capture_stream_Ok. unfold verify.
  pose proof (capture_runs s target w Hw) as Hrun. rewrite Hc in Hrun.
  rewrite (run_bind _ _ _ _ _ Hrun), (run_bind_lift _ _ _ _ Hd). by rewrite bool_decide_eq_true_2.
Qed.


(** A second restoration after one that stopped with a stage or a rollback key in place. *)
Lemma restore_stale snap p s :
  let target := MigrationPlan.target_resource p in
  validate_plan snap p = Ok () ->
  validate_redis_key (stage_key target) = Ok () /\ validate_redis_key (rollback_key target) = Ok () ->
  is_Some (view s !! stage_key target) \/ is_Some (view s !! rollback_key target) ->
  restore snap p s = (Err (invalid "stale Redis staging or rollback key requires operator action"), s).
Proof.
  intros target Hplan Hnames Hstale. unfold restore. apply run_bind_Err.
  rewrite (stage_and_swap_starts snap p Hplan Hnames). by rewrite decide_True.
Qed.

(** A snapshot of a Redis stream without entries cannot be restored.  When it has no
    group either the script has moved the target away before it fails, so the stream that
    was active is gone from its key, and later restorations to it are refused. *)
Theorem redis_empty_stream_lost snap p v s :
  let target := MigrationPlan.target_resource p in
  validate_plan snap p = Ok () ->
  validate_redis_key (stage_key target) = Ok () /\ validate_redis_key (rollback_key target) = Ok () ->
  captured v (StateSnapshot.items snap) -> Stream.entries v = [] ->
  view s !! stage_key target = None /\ view s !! rollback_key target = None ->
  exists error s', restore snap p s = (Err error, s') /\
    view s' = (match Stream.groups v, view s !! target with
               | [], Some old => <[rollback_key target := old]> (delete target (view s))
               | _, _ => view s
               end) /\
    (Stream.groups v = [] -> is_Some (view s !! target) ->
     restore snap p s' = (Err (invalid "stale Redis staging or rollback key requires operator action"), s')).
Proof.
  intros target Hplan Hnames Hcap Hnil Hfresh. destruct (captured_parts v _ Hcap) as [Hes Hgs].
  destruct (names_differ target) as (Hd1 & Hd2 & Hd3). pose proof Hfresh as [Hst Hrb].
  assert (by_text v = []) as Htext by (unfold by_text; by rewrite Hnil). rewrite Htext in Hes.
  apply Forall2_nil_inv_l in Hes as Heq.
  assert (stage_entries (stage_key target) (StateSnapshot.items snap) s = (Ok (), s)) as Hr1.
  { by rewrite stage_entries_skip, Heq. }
  assert (Hrestore : forall error s', (_ ← stage_groups (stage_key target) (StateSnapshot.items snap);
            finish_restore snap p) s = (Err error, s') -> restore snap p s = (Err error, s')).
  { intros error s' Hr. unfold restore. apply run_bind_Err.
    rewrite (stage_and_swap_fresh snap p Hplan Hnames s Hfresh). fold target. by rewrite (run_bind _ _ _ _ _ Hr1). }
  destruct (Stream.groups v) as [|g gs] eqn:Hg.
  - assert (by_name v = []) as Hname by (unfold by_name; by rewrite Hg). rewrite Hname in Hgs.
    apply Forall2_nil_inv_l in Hgs as Heq'.
    assert (stage_groups (stage_key target) (StateSnapshot.items snap) s = (Ok (), s)) as Hr2.
    { by rewrite stage_groups_skip, Heq'. }
    assert (exists error s', swap_script target (rollback_key target) (stage_key target) s = (Err error, s') /\
              view s' = match view s !! target with
                        | Some old => <[rollback_key target := old]> (delete target (view s))
                        | None => view s
                        end) as (error & s' & Hr3 & Hv').
    { unfold swap_script. rewrite (run_bind _ _ _ _ _ (run_exists s (rollback_key target))), Hrb.
      destruct (decide _) as [[]|]; [done|]. change (0 =? 1) with false. cbn iota.
      rewrite (run_bind _ _ _ _ _ (run_exists s target)). destruct (view s !! target) as [old|] eqn:Hold.
      - rewrite decide_True by (by eexists). change (1 =? 1) with true. cbn iota.
        destruct (run_rename s target (rollback_key target) old Hold) as (s3 & Hr3 & Hv3).
        rewrite (run_bind _ _ _ _ _ Hr3).
        destruct (run_rename_absent s3 (stage_key target) target) as (error & Hr4).
        { by rewrite Hv3, lookup_insert_ne, lookup_delete_ne. }
        exists error, s3. split; [by apply run_bind_Err|done].
      - rewrite decide_False by (by intros []). change (0 =? 1) with false. cbn iota.
        rewrite (run_bind (mret ()) _ s () s eq_refl).
        destruct (run_rename_absent s (stage_key target) target Hst) as (error & Hr4).
        exists error, s. split; [by apply run_bind_Err|done]. }
    eexists _, s'. split.
    { apply Hrestore. rewrite (run_bind _ _ _ _ _ Hr2). unfold finish_restore.
      rewrite (run_bind _ _ _ _ _ (run_backend _ _ _ _ (run_exists s _))).
      apply run_bind_Err, run_backend_Err. exact Hr3. }
    split; [done|]. intros _ [old Hold]. apply restore_stale; [done..|]. right. fold target.
    rewrite Hv', Hold, lookup_insert_eq. by eexists.
  - assert (by_name v <> []) as Hname.
    { unfold by_name. rewrite Hg. intros Hn. apply (f_equal length) in Hn. by rewrite sort_by_key_length in Hn. }
    destruct (by_name v) as [|g' gs']; [done|]. inversion Hgs as [|? item ? items Hgi Hgs' Heq1 Heq2]; subst.
    unfold group_item in Hgi. apply fmap_Some in Hgi as (payload & Hp & ->).
    destruct (run_xgroup_create_absent s (stage_key target) (GroupInfo.name g') (GroupInfo.last_delivered_id g') Hst)
      as (error & Hr).
    eexists _, s. split; [|done]. apply Hrestore, run_bind_Err. rewrite stage_groups_skip, <- Heq2.
    unfold stage_groups. cbn [op_for]. apply run_bind_Err. unfold add_group, is_group.
    cbn [StateItem.key plain_item StateItem.payload]. rewrite group_key_group. cbn [negb].
    rewrite (from_slice_vec _ _ Hp). cbn [ok_or]. rewrite (run_bind_lift _ _ _ _ eq_refl).
    by apply run_backend_Err.
Qed.

(** When the texts of a stream's identifiers are not in the order of the numbers they
    say (ten entries in one millisecond suffice), a snapshot of it cannot be restored:
    some entry is refused, the target stays, and the stage that stays as well makes every
    later restoration to that target be refused. *)
Theorem redis_disordered_ids snap p v s :
  let target := MigrationPlan.target_resource p in
  validate_plan snap p = Ok () ->
  validate_redis_key (stage_key target) = Ok () /\ validate_redis_key (rollback_key target) = Ok () ->
  captured v (StateSnapshot.items snap) -> well_formed v ->
  view s !! stage_key target = None /\ view s !! rollback_key target = None ->
  by_text v <> Stream.entries v ->
  exists error s' w, restore snap p s = (Err error, s') /\ view s' = <[stage_key target := w]> (view s) /\
    restore snap p s' = (Err (invalid "stale Redis staging or rollback key requires operator action"), s').
Proof.
  intros target Hplan Hnames Hcap (Hsorted & Hpos & _) Hfresh Htext.
  destruct (captured_parts v _ Hcap) as [Hes _].
  assert (by_text v ≡ₚ Stream.entries v) as Hperm by apply sort_by_key_perm.
  assert (~ increasing zero_id (by_text v)) as Hinc.
  { intros [_ Hs]%increasing_sorted. by apply Htext, (strictly_sorted_unique fst). }
  destruct (by_text v) as [|e es] eqn:Hbt; [by contradict Hinc|].
  assert (key_lt zero_id e.1) as Hlt by (apply (proj1 (Forall_forall _ _) Hpos); rewrite <- Hperm; left).
  inversion Hes as [|? item ? items He Hes' Heq1 Heq2]; subst.
  destruct (stage_entries_leaves (stage_key target) e es item items s (proj1 Hfresh) Hlt He Hes')
    as (error & s' & w & Hr & Hv'); [by intros Hi; apply Hinc|].
  exists error, s', w. split_and!; [|done|].
  - unfold restore. apply run_bind_Err. rewrite (stage_and_swap_fresh snap p Hplan Hnames s Hfresh).
    fold target. apply run_bind_Err. by rewrite stage_entries_skip, <- Heq2.
  - apply restore_stale; [done..|]. left. fold target. rewrite Hv', lookup_insert_eq. by eexists.
Qed.
End Adapter.

(** * A server *)

Module ToyRedis.
Abbreviation Server := (gmap string Stream).

Definition id_of_text (text : string) : option stream_id :=
  '(a, b) ← rsplit_once "-" text;
  Some (Z.to_N (digits_value 0 (bytes_of_string a)), Z.to_N (digits_value 0 (bytes_of_string b))).

Lemma rsplit_once_app c a b :
  Forall (fun x => x <> byte_of_ascii c) (bytes_of_string b) ->
  rsplit_once c (a +:+ String.String c b) = Some (a, b).
Proof.
  intros Hb. assert (rsplit_once c b = None) as Hn.
  { induction b as [|d b IH]; [done|]. cbn [bytes_of_string] in Hb. apply Forall_cons in Hb as [Hd Hb].
    cbn [rsplit_once]. rewrite IH by done. destruct (Ascii.eqb_spec c d) as [->|]; done. }
  induction a as [|d a IH].
  - change (String.EmptyString +:+ String.String c b) with (String.String c b). cbn [rsplit_once].
    by rewrite Hn, Ascii.eqb_refl.
  - change (String.String d a +:+ String.String c b) with (String.String d (a +:+ String.String c b)).
    cbn [rsplit_once]. by rewrite IH.
Qed.

Lemma id_of_id_text i : id_of_text (id_text i) = Some i.
Proof.
  unfold id_of_text, id_text. change ("-" +:+ pretty i.2) with (String.String "-" (pretty i.2)).
  destruct (pretty_digits i.1) as [_ H1], (pretty_digits i.2) as [Hd H2]. rewrite rsplit_once_app.
  - cbn. rewrite H1, H2, !N2Z.id. by destruct i.
  - eapply Forall_impl; [exact Hd|]. intros b Hb ->. unfold is_digit_byte in Hb.
    change (byte_of_ascii "-") with 45 in Hb. lia.
Qed.

#[export] Instance commands : Redis Server := {|
  memory_usage k m := (Ok ((fun _ => 0) <$> m !! k), m);
  xrange k n m := (Ok (ArrayValue (take (Z.to_nat n) (from_option reply [] (m !! k)))), m);
  xinfo_groups k m := (match m !! k with Some v => Ok (Stream.groups v) | None => Err "ERR no such key" end, m);
  exists_key k m := (Ok (if decide (is_Some (m !! k)) then 1 else 0), m);
  xadd k text fields m :=
    let v := default Stream.empty (m !! k) in
    match id_of_text text with
    | Some i => if decide (key_lt (Stream.last_id v) i) then (Ok text, <[k := Stream.append (i, fields) v]> m)
                else (Err "ERR The ID specified in XADD is equal or smaller", m)
    | None => (Err "ERR Invalid stream ID", m)
    end;
  xgroup_create k name id m :=
    match m !! k with
    | Some v => if decide (name ∈ (GroupInfo.name <$> Stream.groups v)) then (Err "BUSYGROUP", m)
                else (Ok (), <[k := Stream.add_group name id v]> m)
    | None => (Err "ERR The XGROUP subcommand requires the key to exist", m)
    end;
  rename from to m := match m !! from with
                      | Some v => (Ok (), <[to := v]> (delete from m))
                      | None => (Err "ERR no such key", m)
                      end;
  del k m := (Ok (if decide (is_Some (m !! k)) then 1 else 0), delete k m);
|}.

#[export] Instance laws : RedisLaws Server.
Proof.
  refine {| view := fun m => m; memory := fun _ => 0 |}; try done; simpl.
  - by intros s k n v ->.
  - by intros s k v ->.
  - intros s k i fields Hlt. rewrite id_of_id_text, decide_True by done. by eexists.
  - intros s k i fields Hlt. rewrite id_of_id_text, decide_False by done. by eexists.
  - intros s k name id v -> Hn. rewrite decide_False by done. by eexists.
  - intros s k name id ->. by eexists.
  - intros s from to v ->. by eexists.
  - intros s from to ->. by eexists.
  - intros s k. by eexists _, _.
Defined.
End ToyRedis.

(** * Witnesses *)

Module RedisWitness.
#[local] Existing Instances Toy.sha Toy.sha_laws Toy.hexi Toy.hex_laws ToyJson.text ToyRedis.commands ToyRedis.laws.
#[local] Instance error_text : SerdeErrorText := "json".
#[local] Instance serialise_schema : ToValue StateSchema := fun s => Some (String (StateSchema.resource s)).
#[local] Instance serialise_items : ToValue (list StateItem) :=
  fun items => Some (ToyJson.tree_list (fun i => String (StateItem.key i)) items).
#[local] Instance serialise_snapshot : ToValue StateSnapshot := fun s => Some (String (StateSnapshot.data_sha256 s)).
#[local] Instance serialise_plan : ToValue MigrationPlan := fun p => Some (String (MigrationPlan.target_resource p)).

Definition bytes_tree (bs : list Z) : json := ToyJson.tree_list ToyJson.num bs.
Definition of_num (v : json) : option Z := match v with Number (PosInt z) => Some z | _ => None end.
Definition pair_tree (p : list Z * list Z) : json := Array [bytes_tree p.1; bytes_tree p.2].
Definition of_pair (v : json) : option (list Z * list Z) :=
  match v with
  | Array [a; b] => a ← ToyJson.of_list of_num a; b ← ToyJson.of_list of_num b; Some (a, b)
  | _ => None
  end.
Lemma of_pair_tree p : of_pair (pair_tree p) = Some p.
Proof.
  unfold of_pair, pair_tree, bytes_tree. rewrite !ToyJson.of_tree_list by done. by destruct p.
Qed.

#[local] Instance entry_vec : ToVec RedisEntry.RedisEntry := fun e =>
  Some (json_to_vec (Array [String (RedisEntry.id e); ToyJson.tree_list pair_tree (RedisEntry.fields e)])).
#[local] Instance read_entry : FromSlice RedisEntry.RedisEntry := ToyJson.from_text (fun v =>
  match v with
  | Array [String id; fields] =>
      fields ← ToyJson.of_list of_pair fields; Some {| RedisEntry.id := id; RedisEntry.fields := fields |}
  | _ => None
  end).
#[local] Instance entry_laws : ToVecLaws RedisEntry.RedisEntry.
Proof.
  intros e bytes [= <-]. unfold from_slice, read_entry, ToyJson.from_text, json_to_vec, ToyJson.text.
  rewrite ToyJson.of_text_tokens. cbn [mbind option_bind]. rewrite ToyJson.of_tree_list by apply of_pair_tree.
  by destruct e.
Qed.
#[local] Instance group_vec : ToVec RedisGroup.RedisGroup := fun g =>
  Some (json_to_vec (Array [String (RedisGroup.name g); String (RedisGroup.last_delivered_id g)])).
#[local] Instance read_group : FromSlice RedisGroup.RedisGroup := ToyJson.from_text (fun v =>
  match v with
  | Array [String name; String id] => Some {| RedisGroup.name := name; RedisGroup.last_delivered_id := id |}
  | _ => None
  end).
#[local] Instance group_laws : ToVecLaws RedisGroup.RedisGroup.
Proof.
  intros g bytes [= <-]. unfold from_slice, read_group, ToyJson.from_text, json_to_vec, ToyJson.text.
  rewrite ToyJson.of_text_tokens. by destruct g.
Qed.

Definition stream (ids : list stream_id) (groups : list string) : Stream :=
  {| Stream.entries := (fun i => (i, [([107], [118])])) <$> ids;
     Stream.groups := (fun n => {| GroupInfo.name := n; GroupInfo.pending := 0;
                                   GroupInfo.last_delivered_id := "0-0" |}) <$> groups;
     Stream.last_id := from_option id zero_id (last ids) |}.

Definition ordered : Stream := stream [(7%N, 1%N); (8%N, 0%N)] ["workers"; "audit"].
(** Nothing was left in this one. *)
Definition drained : Stream := stream [] [].
(** Two entries of one millisecond. *)
Definition disordered : Stream := stream [(7%N, 9%N); (7%N, 10%N)] [].

Definition server (source : Stream) : ToyRedis.Server := {["src" := source; "dst" := stream [(1%N, 1%N)] []]}.

Definition taken (source : Stream) : StateSnapshot :=
  match (snapshot "src" (server source)).1 with
  | Ok s => s
  | Err _ => unsealed (discover "src") "" []
  end.
Definition planned (source : Stream) : MigrationPlan :=
  match plan (taken source) "dst" with
  | Ok p => p
  | Err _ => MigrationPlan.Build_MigrationPlan "" RedisStream "" "" [] ""
  end.

Lemma plans : Forall (fun v => validate_plan (taken v) (planned v) = Ok () /\
  capture_stream v = Ok (StateSnapshot.items (taken v)) /\
  MigrationPlan.backend (planned v) = RedisStream /\ MigrationPlan.target_resource (planned v) = "dst")
  [ordered; drained; disordered].
Proof. repeat constructor; vm_compute; reflexivity. Qed.

Lemma plan_of source :
  source ∈ [ordered; drained; disordered] ->
  validate_plan (taken source) (planned source) = Ok () /\ captured source (StateSnapshot.items (taken source)) /\
  MigrationPlan.backend (planned source) = RedisStream /\ MigrationPlan.target_resource (planned source) = "dst".
Proof.
  intros Hin. destruct (proj1 (Forall_forall _ _) plans source Hin) as (Hv & Hc & Hb & Ht).
  split_and!; [done| |done|done]. by apply capture_stream_Ok.
Qed.

Lemma names_valid : validate_redis_key (stage_key "dst") = Ok () /\ validate_redis_key (rollback_key "dst") = Ok ().
Proof. vm_compute. split; reflexivity. Qed.
Lemma fresh source : server source !! stage_key "dst" = None /\ server source !! rollback_key "dst" = None.
Proof. vm_compute. split; reflexivity. Qed.

Lemma target_there source : is_Some (server source !! "dst").
Proof. exists (stream [(1%N, 1%N)] []). vm_compute. reflexivity. Qed.

Lemma sorted_ids (ids : list stream_id) groups :
  increasing zero_id (Stream.entries (stream ids groups)) -> NoDup groups -> well_formed (stream ids groups).
Proof.
  intros [Hpos Hs]%increasing_sorted Hnd. split_and!; [done..|].
  assert (GroupInfo.name <$> Stream.groups (stream ids groups) = groups) as ->; [|done].
  cbn. rewrite <- list_fmap_compose. apply list_fmap_id.
Qed.

Lemma digests source : exists ds dp, digest (taken source) = Ok ds /\ digest (planned source) = Ok dp.
Proof. by eexists _, _. Qed.
Lemma ordered_facts :
  well_formed ordered /\ by_text ordered = Stream.entries ordered /\ Stream.entries ordered <> [] /\
  memory (restored ordered) <= MAX_STATE_BYTES.
Proof.
  split_and!; [|vm_compute; reflexivity|discriminate|vm_compute; discriminate].
  apply sorted_ids; [vm_compute; tauto|repeat constructor; set_solver].
Qed.
Lemma disordered_facts : well_formed disordered /\ by_text disordered <> Stream.entries disordered.
Proof. split; [|vm_compute; discriminate]. apply sorted_ids; [vm_compute; tauto|constructor]. Qed.


Example redis_empty_stream_lost_witness :
  exists error s', restore (taken drained) (planned drained) (server drained) = (Err error, s') /\ s' !! "dst" = None.
Proof.
  destruct (plan_of drained) as (Hv & Hc & _ & Ht); [right; left|].
  pose proof (fresh drained) as Hf. pose proof (target_there drained) as Hthere.
  pose proof (redis_empty_stream_lost (taken drained) (planned drained) drained (server drained)) as T.
  revert Hv Hc Ht Hf Hthere T. generalize (taken drained) (planned drained) (server drained).
  intros snap p m Hv Hc Ht Hf [old Hthere] T. cbv zeta in T. rewrite Ht in T.
  destruct (T Hv names_valid Hc eq_refl Hf) as (error & s' & Hr & Hview & _).
  exists error, s'. split; [exact Hr|]. change (s' = match m !! "dst" with
    Some old => <[rollback_key "dst" := old]> (delete "dst" m) | None => m end) in Hview.
  rewrite Hthere in Hview. rewrite Hview, lookup_insert_ne by discriminate. apply lookup_delete_eq.
Defined.

Example redis_disordered_ids_witness :
  exists error s', restore (taken disordered) (planned disordered) (server disordered) = (Err error, s') /\
    is_Some (s' !! stage_key "dst").
Proof.
  destruct (plan_of disordered) as (Hv & Hc & _ & Ht); [right; right; left|].
  pose proof (fresh disordered) as Hf. destruct disordered_facts as [Hwf Htext].
  pose proof (redis_disordered_ids (taken disordered) (planned disordered) disordered (server disordered)) as T.
  revert Hv Hc Ht Hf T. generalize (taken disordered) (planned disordered) (server disordered).
  intros snap p m Hv Hc Ht Hf T. cbv zeta in T. rewrite Ht in T.
  destruct (T Hv names_valid Hc Hwf Hf Htext) as (error & s' & w & Hr & Hview & _).
  exists error, s'. split; [exact Hr|]. change (s' = <[stage_key "dst" := w]> m) in Hview.
  rewrite Hview, lookup_insert_eq. exists w. reflexivity.
Defined.
End RedisWitness.
