(* ===== verification/ObjectStoreSafety.v ===== *)
(** src/stateful.rs, S3: what a restoration does to the objects of a store that behaves as
    documented ([ObjectStoreLaws]) and has no other client meanwhile. *)
From stdpp Require Import fin_maps.
From S2P Require Import Prelude Effects External Json Core Model Canonical Text Stateful ObjectStore.

#[local] Existing Instance StateItem.StateItem_eq_dec.

(** * Objects under a prefix *)

(** An object: its bytes and its entity tag. *)
Abbreviation objects_t := (gmap string (list Z * option string)).
Implicit Types (m : objects_t) (k p q : string).

Definition under p m : objects_t := filter (fun kv => String.prefix p kv.1 = true) m.
Definition outside p m : objects_t := filter (fun kv => ~ String.prefix p kv.1 = true) m.

Lemma under_lookup p m k : under p m !! k = if String.prefix p k then m !! k else None.
Proof.
  unfold under. destruct (String.prefix p k) eqn:Hp.
  - destruct (m !! k) as [x|] eqn:Hk; [by apply map_lookup_filter_Some|].
    apply map_lookup_filter_None. by left.
  - apply map_lookup_filter_None. right. intros x _. simpl. by rewrite Hp.
Qed.

Lemma outside_lookup p m k : outside p m !! k = if String.prefix p k then None else m !! k.
Proof.
  unfold outside. destruct (String.prefix p k) eqn:Hp.
  - apply map_lookup_filter_None. right. intros x _ Hn. simpl in Hn. congruence.
  - destruct (m !! k) as [x|] eqn:Hk; [|apply map_lookup_filter_None; by left].
    apply map_lookup_filter_Some. split; [done|]. simpl. congruence.
Qed.

Lemma compare_app p x y : String.compare (p +:+ x) (p +:+ y) = String.compare x y.
Proof.
  induction p as [|c p IH]; [done|].
  change (String.compare (String.String c (p +:+ x)) (String.String c (p +:+ y)) = String.compare x y).
  cbn [String.compare]. unfold Ascii.compare. by rewrite N.compare_refl.
Qed.

(** What the store does, as documented, on paths in their canonical form. *)
Class ObjectStoreLaws (S : Type) `{ObjectStore S} := {
  objects : S -> objects_t;
  etag_of : list Z -> option string;   (* the tag of an object put whole *)
  canonical_path : string -> Prop;
  run_path : forall k, canonical_path k -> path_parse k = Ok k;
  run_prefix_path : forall q, canonical_path q -> path_parse (q +:+ "/") = Ok q;
  run_put : forall s k bytes, canonical_path k ->
    exists s', put k bytes s = (Ok (), s') /\ objects s' = <[k := (bytes, etag_of bytes)]> (objects s);
  run_get : forall s k bytes tag, objects s !! k = Some (bytes, tag) ->
    get k s = (Ok (vec_len bytes, fun s => (Ok bytes, s)), s);
  run_list : forall s q n, canonical_path q -> exists l,
    list_objects q n s = (Ok (take n l), s) /\
    l ≡ₚ (fun kx => {| ObjectMeta.location := kx.1; ObjectMeta.size := vec_len kx.2.1; ObjectMeta.e_tag := kx.2.2 |})
          <$> map_to_list (under (q +:+ "/") (objects s));
  run_delete : forall s k, exists s', delete k s = (Ok (), s') /\ objects s' = base.delete k (objects s);
}.

Section Adapter.
Context {S : Type} `{ObjectStore S, !ObjectStoreLaws S}.
Context `{SerdeErrorText, JsonText, Sha256, Hex}.
Context `{!ToValue StateSchema, !ToValue (list StateItem), !ToValue StateSnapshot, !ToValue MigrationPlan}.
Implicit Types (s : S) (L : list (string * list Z)).

(** Bytes at the keys of a prefix, put whole: the objects and the items they are. *)
Definition at_prefix p L : list (string * (list Z * option string)) :=
  (fun x => (p +:+ x.1, (x.2, etag_of x.2))) <$> L.
Definition item_at p (x : string * list Z) : StateItem :=
  {| StateItem.key := p +:+ x.1; StateItem.fields := [("etag", from_option id "" (etag_of x.2))];
     StateItem.payload := x.2 |}.
Definition items_at p L : list StateItem := item_at p <$> L.

(** The objects under a prefix are these. *)
Definition holds m p L : Prop := under p m = list_to_map (at_prefix p L).

(** A prefix whose objects can be captured. *)
Record place p L : Prop := {
  place_prefix : exists q, p = q +:+ "/" /\ canonical_path q;
  place_keys : Forall (fun x => canonical_path (p +:+ x.1)) L;
  place_sorted : strictly_sorted_by_key fst L;
  place_bounds : enforce_bounds (items_at p L) = Ok ();
}.

Lemma at_prefix_NoDup p L : strictly_sorted_by_key fst L -> NoDup (at_prefix p L).*1.
Proof.
  intros Hs%bt_sorted_NoDup. unfold at_prefix. rewrite <- list_fmap_compose.
  change (NoDup (((fun x => p +:+ x) ∘ fst : string * list Z -> string) <$> L)).
  rewrite (list_fmap_compose fst (fun x => p +:+ x)). apply NoDup_fmap; [|done].
  intros x y. apply app_inj_l.
Qed.

Lemma items_at_sorted p L : strictly_sorted_by_key fst L -> sort_by_key StateItem.key (items_at p L) = items_at p L.
Proof.
  intros Hs. apply sort_by_key_id, strictly_sorted_sorted. induction Hs as [|x L Hs IH Hall]; [constructor|].
  cbn. constructor; [done|]. apply Forall_fmap. eapply Forall_impl; [exact Hall|].
  intros y Hy. unfold compose, key_lt, cmp, ord_string in *. cbn. by rewrite compare_app.
Qed.

Lemma items_at_keys p L : StateItem.key <$> items_at p L = (at_prefix p L).*1.
Proof. unfold items_at, at_prefix. by rewrite <- !list_fmap_compose. Qed.

(** Sorting items in the order of a listing. *)
Lemma items_at_sort_perm p L L' :
  strictly_sorted_by_key fst L -> L' ≡ₚ L ->
  sort_by_key StateItem.key (items_at p L') = sort_by_key StateItem.key (items_at p L).
Proof.
  intros Hs HL. apply sort_by_key_unique; [unfold items_at; by rewrite HL|].
  rewrite items_at_keys. by apply at_prefix_NoDup.
Qed.

Lemma payload_bounded p L x :
  enforce_bounds (items_at p L) = Ok () -> x ∈ L -> vec_len x.2 <= MAX_STATE_BYTES.
Proof.
  intros [_ Ht]%enforce_bounds_Ok Hx. apply list_elem_of_split in Hx as (L1 & L2 & ->).
  assert (vec_len x.2 <= item_bytes (item_at p x)) as Hx.
  { unfold item_bytes, item_at. cbn [StateItem.key StateItem.payload StateItem.fields foldr fst snd].
    pose proof (str_len_nonneg (p +:+ x.1)). pose proof (str_len_nonneg (from_option id "" (etag_of x.2))).
    pose proof (str_len_nonneg "etag"). lia. }
  unfold items_at in Ht. rewrite fmap_app, fmap_cons, items_bytes_app in Ht.
  change (items_bytes (item_at p x :: (item_at p <$> L2)))
    with (item_bytes (item_at p x) + items_bytes (item_at p <$> L2)) in Ht.
  pose proof (items_bytes_nonneg (item_at p <$> L1)). pose proof (items_bytes_nonneg (item_at p <$> L2)). lia.
Qed.

(** * Calls *)

Lemma put_object_ok k bytes s :
  canonical_path k -> vec_len bytes <= MAX_STATE_BYTES ->
  exists s', put_object k bytes s = (Ok (), s') /\ objects s' = <[k := (bytes, etag_of bytes)]> (objects s).
Proof.
  intros Hk Hb. destruct (run_put s k bytes Hk) as (s' & Hr & Ho). exists s'. split; [|done].
  unfold put_object. rewrite (proj2 (Z.ltb_ge _ _)) by done.
  assert (object_path k s = (Ok k, s)) as Hp by (apply run_backend; unfold lift; by rewrite run_path).
  rewrite (run_bind _ _ _ _ _ Hp). by apply run_backend.
Qed.

Lemma get_object_ok k bytes tag s :
  canonical_path k -> objects s !! k = Some (bytes, tag) -> vec_len bytes <= MAX_STATE_BYTES ->
  get_object k s = (Ok bytes, s).
Proof.
  intros Hk Ho Hb. unfold get_object.
  assert (object_path k s = (Ok k, s)) as Hp by (apply run_backend; unfold lift; by rewrite run_path).
  rewrite (run_bind _ _ _ _ _ Hp), (run_bind _ _ _ _ _ (run_backend _ _ _ _ (run_get _ _ _ _ Ho))).
  cbn iota beta. rewrite (proj2 (Z.ltb_ge _ _)) by done.
  rewrite (run_bind _ _ s bytes s); [|done]. by rewrite (proj2 (Z.ltb_ge _ _)).
Qed.

Definition meta_at p (x : string * list Z) : ObjectMeta.ObjectMeta :=
  {| ObjectMeta.location := p +:+ x.1; ObjectMeta.size := vec_len x.2; ObjectMeta.e_tag := etag_of x.2 |}.

Lemma metadata_ok p L s :
  place p L -> holds (objects s) p L ->
  exists L', L' ≡ₚ L /\ metadata p s = (Ok (meta_at p <$> L'), s).
Proof.
  intros [(q & -> & Hq) Hkeys Hsorted Hbounds] Hh. unfold metadata.
  assert (object_path (q +:+ "/") s = (Ok q, s)) as Hp by (apply run_backend; unfold lift; by rewrite run_prefix_path).
  rewrite (run_bind _ _ _ _ _ Hp). destruct (run_list s q (Z.to_nat (MAX_STATE_ITEMS + 1)) Hq) as (l & Hr & Hl).
  assert (l ≡ₚ meta_at (q +:+ "/") <$> L) as Hperm.
  { rewrite Hl, Hh, map_to_list_to_map by by apply at_prefix_NoDup. unfold at_prefix. by rewrite <- list_fmap_compose. }
  apply Permutation_map_inv in Hperm as (L' & -> & HL'). exists L'. split; [done|].
  apply enforce_bounds_Ok in Hbounds as [Hn _]. unfold vec_len, items_at in Hn. rewrite length_fmap in Hn.
  rewrite (run_bind _ _ _ _ _ (run_backend _ _ _ _ Hr)).
  change (List.map (meta_at (q +:+ "/")) L') with (meta_at (q +:+ "/") <$> L').
  apply Permutation_length in HL'. rewrite take_ge by (rewrite length_fmap; lia).
  rewrite (proj2 (Z.ltb_ge _ _)); [done|]. unfold vec_len. rewrite length_fmap. lia.
Qed.

Lemma holds_lookup m p L x :
  strictly_sorted_by_key fst L -> holds m p L -> x ∈ L -> m !! (p +:+ x.1) = Some (x.2, etag_of x.2).
Proof.
  intros Hs Hh Hx. pose proof (under_lookup p m (p +:+ x.1)) as Hu. rewrite prefix_of_app, Hh in Hu.
  rewrite <- Hu. apply elem_of_list_to_map; [by apply at_prefix_NoDup|].
  apply list_elem_of_fmap. by exists x.
Qed.

Lemma holds_none m p L k :
  holds m p L -> String.prefix p k = true -> k ∉ (at_prefix p L).*1 -> m !! k = None.
Proof.
  intros Hh Hp Hk. pose proof (under_lookup p m k) as Hu. rewrite Hp, Hh in Hu. rewrite <- Hu.
  by apply not_elem_of_list_to_map_1.
Qed.

Lemma capture_loop p L : forall acc s,
  (forall x, x ∈ L -> canonical_path (p +:+ x.1) /\ objects s !! (p +:+ x.1) = Some (x.2, etag_of x.2) /\
     vec_len x.2 <= MAX_STATE_BYTES) ->
  enforce_bounds (acc ++ items_at p L) = Ok () ->
  op_for (meta_at p <$> L) acc capture_object s = (Ok (acc ++ items_at p L), s).
Proof.
  induction L as [|x L IH]; intros acc s Hall Hb; cbn [fmap list_fmap op_for items_at].
  - by rewrite app_nil_r.
  - destruct (Hall x ltac:(by left)) as (Hc & Ho & Hx).
    assert (capture_object (meta_at p x) acc s = (Ok (acc ++ [item_at p x]), s)) as Hcap.
    { unfold capture_object. cbn [ObjectMeta.location meta_at].
      rewrite (run_bind _ _ _ _ _ (get_object_ok _ _ _ _ Hc Ho Hx)). cbn [ObjectMeta.e_tag].
      change (items_at p (x :: L)) with ([item_at p x] ++ items_at p L) in Hb. rewrite app_assoc in Hb.
      apply enforce_bounds_prefix in Hb. unfold item_at in Hb. by rewrite (run_bind_lift _ _ _ _ Hb). }
    rewrite (run_bind _ _ _ _ _ Hcap), IH.
    + by rewrite <- app_assoc.
    + intros y Hy. apply Hall. by right.
    + by rewrite <- app_assoc.
Qed.

Lemma capture_ok p L s :
  place p L -> holds (objects s) p L -> capture p s = (Ok (items_at p L), s).
Proof.
  intros Hpl Hh. destruct (metadata_ok p L s Hpl Hh) as (L' & HL' & Hm). destruct Hpl as [_ Hkeys Hsorted Hbounds].
  unfold capture. rewrite (run_bind _ _ _ _ _ Hm).
  assert (items_at p L' ≡ₚ items_at p L) as Hitems by (unfold items_at; by rewrite HL').
  assert (op_for (meta_at p <$> L') [] capture_object s = (Ok (items_at p L'), s)) as Hloop.
  { apply (capture_loop p L' [] s).
    - intros x Hx. rewrite HL' in Hx. split_and!; [by apply (proj1 (Forall_forall _ _) Hkeys)|by apply holds_lookup with L|].
      by apply payload_bounded with p L.
    - cbn [app]. exact (enforce_bounds_perm _ _ (symmetry Hitems) Hbounds). }
  rewrite (run_bind _ _ _ _ _ Hloop). unfold mret, op_ret. do 2 f_equal.
  rewrite <- (items_at_sorted p L Hsorted). by apply items_at_sort_perm.
Qed.

(** The loop of [delete_prefix]. *)
Lemma delete_loop p L : forall s, exists s',
  op_for (meta_at p <$> L) () (fun object _ => backend (delete (ObjectMeta.location object))) s = (Ok (), s') /\
  objects s' = foldr (fun x m => base.delete (p +:+ x.1) m) (objects s) (reverse L).
Proof.
  induction L as [|x L IH]; intros s; cbn [fmap list_fmap op_for]; [by exists s|].
  destruct (run_delete s (p +:+ x.1)) as (s1 & Hr & Ho). destruct (IH s1) as (s' & Hr' & Ho').
  exists s'. split; [|by rewrite Ho', Ho, reverse_cons, foldr_app].
  rewrite (run_bind _ _ _ _ _ (run_backend _ _ _ _ Hr)). exact Hr'.
Qed.

Lemma foldr_delete_lookup {A} (f : A -> string) (l : list A) m k :
  foldr (fun x m => base.delete (f x) m) m l !! k = if decide (k ∈ f <$> l) then None else m !! k.
Proof.
  induction l as [|x l IH]; cbn [foldr fmap list_fmap]; [done|].
  destruct (decide (k = f x)) as [->|Hne].
  - rewrite lookup_delete_eq, decide_True; [done|by left].
  - rewrite lookup_delete_ne, IH by done. apply decide_ext. rewrite elem_of_cons. tauto.
Qed.

Lemma delete_prefix_ok p L s :
  place p L -> holds (objects s) p L ->
  exists s', delete_prefix p s = (Ok (), s') /\ objects s' = outside p (objects s).
Proof.
  intros Hpl Hh. destruct (metadata_ok p L s Hpl Hh) as (L' & HL' & Hm). destruct (delete_loop p L' s) as (s' & Hr & Ho).
  exists s'. unfold delete_prefix. rewrite (run_bind _ _ _ _ _ Hm). split; [exact Hr|].
  rewrite Ho. apply map_eq. intros k. rewrite outside_lookup.
  rewrite (foldr_delete_lookup (fun x : string * list Z => p +:+ x.1)).
  assert ((fun x : string * list Z => p +:+ x.1) <$> reverse L' ≡ₚ (at_prefix p L).*1) as Hk.
  { rewrite reverse_Permutation, HL'. unfold at_prefix. by rewrite <- list_fmap_compose. }
  destruct (decide _) as [Hin|Hout].
  - rewrite Hk in Hin. apply list_elem_of_fmap in Hin as (y & -> & Hy).
    unfold at_prefix in Hy. apply list_elem_of_fmap in Hy as (x & -> & _). cbn. by rewrite prefix_of_app.
  - rewrite Hk in Hout. destruct (String.prefix p k) eqn:Hp; [|done]. by apply holds_none with p L.
Qed.

(** The loops that put one object for each item. *)
Lemma put_loop {A} (f : A -> string * list Z) (body : A -> op S Error ()) p (l : list A) : forall s,
  (forall x, x ∈ l -> forall s, body x s = put_object (p +:+ (f x).1) (f x).2 s) ->
  Forall (fun x => canonical_path (p +:+ x.1) /\ vec_len x.2 <= MAX_STATE_BYTES) (f <$> l) ->
  NoDup (f <$> l).*1 ->
  exists s', op_for l () (fun x _ => body x) s = (Ok (), s') /\
    objects s' = list_to_map (at_prefix p (f <$> l)) ∪ objects s.
Proof.
  induction l as [|x l IH]; intros s Hbody Hall Hnd.
  - exists s. split; [done|]. cbn. by rewrite map_empty_union.
  - rewrite fmap_cons in Hall, Hnd. cbn [fmap list_fmap] in Hnd. apply Forall_cons in Hall as [[Hc Hb] Hall].
    apply NoDup_cons in Hnd as [Hni Hnd].
    destruct (put_object_ok (p +:+ (f x).1) (f x).2 s Hc Hb) as (s1 & Hr & Ho).
    destruct (IH s1) as (s' & Hr' & Ho'); [by intros y Hy; apply Hbody; right|done|done|].
    exists s'. cbn [op_for]. rewrite <- (Hbody x) in Hr by by left. rewrite (run_bind _ _ _ _ _ Hr).
    split; [exact Hr'|]. rewrite Ho', Ho. 
    change (at_prefix p (f <$> x :: l)) with ((p +:+ (f x).1, ((f x).2, etag_of (f x).2)) :: at_prefix p (f <$> l)).
    cbn [list_to_map foldr curry]. rewrite <- insert_union_l, <- insert_union_r; [done|].
    apply not_elem_of_list_to_map_1. intros Hin. apply Hni.
    unfold at_prefix in Hin. rewrite <- list_fmap_compose in Hin. apply list_elem_of_fmap in Hin as (y & Hy & Hin).
    apply list_elem_of_fmap. exists y. split; [|done]. by apply app_inj_l in Hy.
Qed.

Definition unitem p (i : StateItem) : string * list Z :=
  (default "" (strip_prefix p (StateItem.key i)), StateItem.payload i).

(** Items with these bytes at the keys of a prefix, whatever their entity tags. *)
Definition carries p (items : list StateItem) L : Prop :=
  Forall2 (fun i x => StateItem.key i = p +:+ x.1 /\ StateItem.payload i = x.2) items L.

Lemma carries_items_at p L : carries p (items_at p L) L.
Proof. unfold carries, items_at. apply Forall2_fmap_l, Forall_Forall2_diag, Forall_forall. done. Qed.

Lemma unitem_items p items L : carries p items L -> unitem p <$> items = L.
Proof.
  induction 1 as [|i [k b] items L [Hk Hb] _ IH]; [done|]. rewrite fmap_cons, IH. unfold unitem.
  rewrite Hk, Hb. cbn. by rewrite strip_prefix_app.
Qed.

Lemma place_puts p L :
  place p L -> Forall (fun x => canonical_path (p +:+ x.1) /\ vec_len x.2 <= MAX_STATE_BYTES) L /\ NoDup L.*1.
Proof.
  intros [_ Hk Hs Hb]. split; [|exact (bt_sorted_NoDup _ Hs)].
  apply Forall_forall. intros x Hx. split; [by apply (proj1 (Forall_forall _ _) Hk)|by apply payload_bounded with p L].
Qed.

(** Putting the objects of one prefix under another. *)
Lemma put_items_ok (body : StateItem -> op S Error ()) own p items L s :
  (forall i x s, StateItem.key i = own +:+ x -> body i s = put_object (p +:+ x) (StateItem.payload i) s) ->
  carries own items L -> place p L ->
  exists s', op_for items () (fun i _ => body i) s = (Ok (), s') /\
    objects s' = list_to_map (at_prefix p L) ∪ objects s.
Proof.
  intros Hbody Hc [Hall Hnd]%place_puts. rewrite <- (unitem_items _ _ _ Hc) in *.
  apply (put_loop (unitem own) body p items s); [|done..].
  intros i Hi s1. destruct (list_elem_of_lookup_1 _ _ Hi) as [n Hn].
  destruct (Forall2_lookup_l _ _ _ _ _ Hc Hn) as (x & _ & Hk & _). rewrite (Hbody i x.1) by done.
  unfold unitem. cbn. by rewrite Hk, strip_prefix_app.
Qed.

Lemma replace_prefix_ok own p items L0 L s :
  place p L0 -> holds (objects s) p L0 -> place p L -> carries own items L ->
  exists s', replace_prefix own p items s = (Ok (), s') /\
    objects s' = list_to_map (at_prefix p L) ∪ outside p (objects s).
Proof.
  intros Hp0 Hh Hp Hc. destruct (delete_prefix_ok p L0 s Hp0 Hh) as (s1 & Hr & Ho).
  destruct (put_items_ok (put_moved own p) own p items L s1) as (s' & Hr' & Ho'); [|done..|].
  - intros i x s2 Hk. unfold put_moved. rewrite Hk, strip_prefix_app. by rewrite (run_bind_lift _ _ _ x).
  - exists s'. unfold replace_prefix. rewrite (run_bind _ _ _ _ _ Hr). split; [exact Hr'|]. by rewrite Ho', Ho.
Qed.

Lemma keep_copies_ok target rb P s :
  place rb P ->
  exists s', keep_copies target rb (items_at target P) s = (Ok (), s') /\
    objects s' = list_to_map (at_prefix rb P) ∪ objects s.
Proof.
  intros Hp. apply (put_items_ok (fun item =>
    suffix ← lift (ok_or (strip_prefix target (StateItem.key item)) (invalid "invalid S3 target key"));
    put_object (rb +:+ suffix) (StateItem.payload item)) target rb (items_at target P) P s); [|apply carries_items_at|done].
  intros i x s2 Hk. rewrite Hk, strip_prefix_app. by rewrite (run_bind_lift _ _ _ x).
Qed.

Lemma restore_exact_ok p L0 L s :
  place p L0 -> holds (objects s) p L0 -> place p L ->
  exists s', restore_exact p (items_at p L) s = (Ok (), s') /\
    objects s' = list_to_map (at_prefix p L) ∪ outside p (objects s).
Proof.
  intros Hp0 Hh Hp. destruct (delete_prefix_ok p L0 s Hp0 Hh) as (s1 & Hr & Ho).
  destruct (put_items_ok (put_exact p) p p (items_at p L) L s1) as (s' & Hr' & Ho'); [|apply carries_items_at|done|].
  - intros i x s2 Hk. unfold put_exact. rewrite Hk. by rewrite prefix_of_app.
  - exists s'. unfold restore_exact. rewrite (run_bind _ _ _ _ _ Hr). split; [exact Hr'|]. by rewrite Ho', Ho.
Qed.

Lemma rekey_items from to message L :
  collect_results (rekey from to message) (items_at from L) = Ok (items_at to L).
Proof.
  apply collect_results_Ok. unfold items_at. apply Forall2_fmap, Forall2_same_length_lookup. split; [done|].
  intros i x y Hx Hy. rewrite Hx in Hy. injection Hy as <-. unfold rekey, item_at. cbn [StateItem.key].
  by rewrite strip_prefix_app.
Qed.

(** * What the operations leave *)

Definition apart p q : Prop := forall k, String.prefix p k = true -> String.prefix q k = false.

Lemma at_prefix_outside p L k :
  String.prefix p k = false -> (list_to_map (at_prefix p L) : objects_t) !! k = None.
Proof.
  intros Hp. apply not_elem_of_list_to_map_1. unfold at_prefix. rewrite <- list_fmap_compose.
  intros (x & -> & _)%list_elem_of_fmap. cbn in Hp. by rewrite prefix_of_app in Hp.
Qed.

Lemma at_prefix_under p L : under p (list_to_map (at_prefix p L)) = list_to_map (at_prefix p L).
Proof.
  apply map_eq. intros k. rewrite under_lookup. destruct (String.prefix p k) eqn:Hp; [done|].
  symmetry. by apply at_prefix_outside.
Qed.

Lemma under_union p m1 m2 : under p (m1 ∪ m2) = under p m1 ∪ under p m2.
Proof.
  apply map_eq. intros k. rewrite under_lookup, !lookup_union, !under_lookup. by destruct (String.prefix p k).
Qed.

Lemma under_outside p m : under p (outside p m) = ∅.
Proof. apply map_eq. intros k. rewrite under_lookup, outside_lookup, lookup_empty. by destruct (String.prefix p k). Qed.

Lemma under_apart p q m : apart p q -> under q (outside p m) = under q m.
Proof.
  intros Ha. apply map_eq. intros k. rewrite !under_lookup, outside_lookup.
  destruct (String.prefix p k) eqn:Hp; [|done]. by rewrite (Ha k Hp).
Qed.

Lemma under_at_apart p q L : apart p q -> under q (list_to_map (at_prefix p L)) = ∅.
Proof.
  intros Ha. apply map_eq. intros k. rewrite under_lookup, lookup_empty.
  destruct (String.prefix q k) eqn:Hq; [|done]. apply at_prefix_outside.
  destruct (String.prefix p k) eqn:Hp; [|done]. by rewrite (Ha k Hp) in Hq.
Qed.

(** After putting these objects at a prefix that had others or none. *)
Lemma holds_replaced p L m : holds (list_to_map (at_prefix p L) ∪ outside p m) p L.
Proof. unfold holds. by rewrite under_union, at_prefix_under, under_outside, map_union_empty. Qed.

Lemma holds_added p L m : holds m p [] -> holds (list_to_map (at_prefix p L) ∪ m) p L.
Proof. unfold holds. intros Hm. change (under p m = ∅) in Hm. by rewrite under_union, at_prefix_under, Hm, map_union_empty. Qed.

Lemma holds_apart p q L Q m :
  apart p q -> holds (list_to_map (at_prefix p L) ∪ m) q Q <-> holds m q Q.
Proof. intros Ha. unfold holds. rewrite under_union, under_at_apart by done. by rewrite map_empty_union. Qed.

Lemma holds_outside p q Q m : apart p q -> holds (outside p m) q Q <-> holds m q Q.
Proof. intros Ha. unfold holds. by rewrite under_apart. Qed.

(** The objects of two stores that hold the same at two prefixes and agree elsewhere. *)
Definition elsewhere p q m m' : Prop :=
  forall k, String.prefix p k = false -> String.prefix q k = false -> m' !! k = m !! k.

Lemma holds_eq p q L Q m m' :
  holds m p L -> holds m q Q -> holds m' p L -> holds m' q Q -> elsewhere p q m m' -> m' = m.
Proof.
  intros Hp Hq Hp' Hq' He. apply map_eq. intros k.
  destruct (String.prefix p k) eqn:Ep.
  { pose proof (under_lookup p m k) as Hu. pose proof (under_lookup p m' k) as Hu'. rewrite Ep in Hu, Hu'.
    rewrite <- Hu, <- Hu'. unfold holds in *. congruence. }
  destruct (String.prefix q k) eqn:Eq; [|by apply He].
  pose proof (under_lookup q m k) as Hu. pose proof (under_lookup q m' k) as Hu'. rewrite Eq in Hu, Hu'.
  rewrite <- Hu, <- Hu'. unfold holds in *. congruence.
Qed.

(** The objects [m'] are those of [m] but for the ones at two prefixes. *)
Record settled m m' p L q Q : Prop := {
  settled_first : holds m' p L;
  settled_second : holds m' q Q;
  settled_else : elsewhere p q m m';
}.

Lemma elsewhere_refl p q m : elsewhere p q m m.
Proof. done. Qed.

Lemma elsewhere_added p q r L m m' :
  elsewhere p q m m' -> (r = p \/ r = q) -> elsewhere p q m (list_to_map (at_prefix r L) ∪ m').
Proof.
  intros He Hr k Hp Hq. rewrite lookup_union, at_prefix_outside by (by destruct Hr; subst).
  rewrite (left_id_L None (∪)). by apply He.
Qed.

Lemma elsewhere_outside p q r m m' :
  elsewhere p q m m' -> (r = p \/ r = q) -> elsewhere p q m (outside r m').
Proof.
  intros He Hr k Hp Hq. rewrite outside_lookup. rewrite (He k Hp Hq).
  by destruct Hr; subst; rewrite ?Hp, ?Hq.
Qed.

(** [settled] by the lemmas above: of the last operation on each prefix. *)
Lemma settled_replaced m m' p q L Q :
  apart p q -> holds m' q Q -> elsewhere p q m m' ->
  settled m (list_to_map (at_prefix p L) ∪ outside p m') p L q Q.
Proof.
  intros Ha Hq He. split; [apply holds_replaced| |].
  - apply holds_apart, holds_outside; done.
  - apply elsewhere_added, or_introl; [apply elsewhere_outside, or_introl|]; done.
Qed.

Lemma settled_cleared m m' p q L :
  apart q p -> holds m' p L -> elsewhere p q m m' -> settled m (outside q m') p L q [].
Proof.
  intros Ha Hp He. split.
  - by apply holds_outside.
  - unfold holds. apply under_outside.
  - apply elsewhere_outside, or_intror; done.
Qed.

Section Restore.
Variables (own target : string) (L P : list (string * list Z)).
Abbreviation rb := (rollback_prefix target).
Hypothesis (HL : place target L) (HP : place target P) (Hrb : place rb []) (Hcopies : place rb P).
Hypothesis (Happart : apart target rb).

Lemma apart_sym p q : apart p q -> apart q p.
Proof. intros Ha k Hq. destruct (String.prefix p k) eqn:Hp; [|done]. by rewrite (Ha k Hp) in Hq. Qed.

(** The check that [verify], [verify_receipt] make on objects that are there. *)
Definition checked (res d : string) (e : Error) : result Error () :=
  d' ← data_digest (items_at res L);
  if bool_decide (d' = d) then Ok () else Err e.

Lemma verify_runs snap s :
  holds (objects s) target L ->
  verify snap target s = (checked (StateSchema.resource (StateSnapshot.schema snap)) (StateSnapshot.data_sha256 snap)
    (invalid "S3 restore verification failed"), s).
Proof.
  intros Hh. unfold verify, checked. rewrite (run_bind _ _ _ _ _ (capture_ok _ _ _ HL Hh)).
  rewrite (run_bind_lift _ _ _ _ (rekey_items _ _ _ _)).
  destruct (data_digest _) as [d'|e]; [|done]. rewrite (run_bind_lift _ _ _ d' eq_refl). cbn [mbind result_bind].
  by destruct (bool_decide _).
Qed.

(** Restoring, up to the verification: the copies are at the rollback prefix and the
    snapshot's objects at the target. *)
Lemma restore_runs snap (mp : MigrationPlan) s :
  MigrationPlan.target_resource mp = target -> validate_plan snap mp = Ok () ->
  carries own (StateSnapshot.items snap) L ->
  holds (objects s) target P -> holds (objects s) rb [] ->
  exists s2, settled (objects s) (objects s2) target L rb P /\
    restore own snap mp s =
      match checked (StateSchema.resource (StateSnapshot.schema snap)) (StateSnapshot.data_sha256 snap)
              (invalid "S3 restore verification failed") with
      | Ok _ => (receipt snap mp rb, s2)
      | Err error => (_ ← restore_exact target (items_at target P); fail error) s2
      end.
Proof.
  intros Ht Hv Hc Hh Hr. unfold restore. rewrite Ht. cbv zeta. rewrite (run_bind_lift _ _ _ _ Hv).
  rewrite (run_bind _ _ _ _ _ (capture_ok _ _ _ Hrb Hr)). cbn [items_at fmap list_fmap].
  rewrite bool_decide_eq_true_2 by done. cbn [negb].
  rewrite (run_bind _ _ _ _ _ (capture_ok _ _ _ HP Hh)).
  destruct (keep_copies_ok target rb P s Hcopies) as (s1 & Hk & Ho). rewrite (run_bind _ _ _ _ _ Hk).
  assert (holds (objects s1) target P) as Hh1 by (rewrite Ho; by apply holds_apart; [apply apart_sym|]).
  assert (holds (objects s1) rb P) as Hr1 by (rewrite Ho; by apply holds_added).
  destruct (replace_prefix_ok own target _ P L s1 HP Hh1 HL Hc) as (s2 & Hp & Ho2).
  assert (settled (objects s) (objects s2) target L rb P) as Hs2.
  { rewrite Ho2. apply settled_replaced; [done..|]. rewrite Ho. apply elsewhere_added; [done|by right]. }
  exists s2. split; [done|]. pose proof (verify_runs snap s2 (settled_first _ _ _ _ _ _ Hs2)) as Hver.
  set (c := checked _ _ _) in *.
  assert (outcome (_ ← replace_prefix own target (StateSnapshot.items snap); verify snap target) s1 = (Ok c, s2)) as Hout.
  { unfold outcome. by rewrite (run_bind _ _ _ _ _ Hp), Hver. }
  rewrite (run_bind _ _ _ _ _ Hout). by destruct c.
Qed.

Context `{!Sha256Laws, !HexLaws}.

Lemma receipt_Ok snap (mp : MigrationPlan) token ds dp :
  digest snap = Ok ds -> digest mp = Ok dp -> exists r, receipt snap mp token = Ok r.
Proof. intros Hs Hp. unfold receipt. rewrite Hs, Hp. by eexists. Qed.

Lemma verify_receipt_runs r s :
  validate_restore_receipt r S3Compatible = Ok () -> RestoreReceipt.target_resource r = target ->
  holds (objects s) target L ->
  data_digest (items_at own L) = Ok (RestoreReceipt.verified_data_sha256 r) ->
  verify_receipt own r s = (Ok (), s).
Proof.
  intros Hv Ht Hh Hd. unfold verify_receipt. rewrite (run_bind_lift _ _ _ _ Hv), Ht.
  rewrite (run_bind _ _ _ _ _ (capture_ok _ _ _ HL Hh)), (run_bind_lift _ _ _ _ (rekey_items _ _ _ _)).
  rewrite (run_bind_lift _ _ _ _ Hd). by rewrite bool_decide_eq_true_2.
Qed.

Lemma rollback_runs r s :
  RestoreReceipt.backend r = S3Compatible -> RestoreReceipt.rollback_token r = rb ->
  RestoreReceipt.target_resource r = target ->
  holds (objects s) target L -> holds (objects s) rb P ->
  exists s', rollback own r s = (Ok (), s') /\ settled (objects s) (objects s') target P rb [].
Proof.
  intros Hb Hk Ht Hh Hr. unfold rollback. rewrite Hb, Hk, Ht. rewrite bool_decide_eq_true_2 by done.
  change (str_is_empty rb) with false. cbn [negb orb].
  rewrite (run_bind _ _ _ _ _ (capture_ok _ _ _ Hcopies Hr)), (run_bind_lift _ _ _ _ (rekey_items _ _ _ _)).
  destruct (replace_prefix_ok own target _ L P s HL Hh HP (carries_items_at own P)) as (s1 & Hp & Ho).
  rewrite (run_bind _ _ _ _ _ Hp).
  assert (settled (objects s) (objects s1) target P rb P) as [H1t H1r H1e].
  { rewrite Ho. by apply settled_replaced. }
  destruct (replace_prefix_ok own rb [] P [] s1 Hcopies H1r Hrb) as (s2 & Hp2 & Ho2); [by constructor|].
  exists s2. split; [exact Hp2|]. rewrite Ho2. change (list_to_map (at_prefix rb [])) with (∅ : objects_t).
  rewrite map_empty_union. apply settled_cleared; [by apply apart_sym|done..].
Qed.

Lemma commit_runs r s :
  validate_restore_receipt r S3Compatible = Ok () -> RestoreReceipt.rollback_token r = rb ->
  RestoreReceipt.target_resource r = target ->
  holds (objects s) target L -> holds (objects s) rb P ->
  data_digest (items_at own L) = Ok (RestoreReceipt.verified_data_sha256 r) ->
  exists s', commit own r s = (Ok (), s') /\ settled (objects s) (objects s') target L rb [].
Proof.
  intros Hv Hk Ht Hh Hr Hd. unfold commit.
  rewrite (run_bind _ _ _ _ _ (verify_receipt_runs r s Hv Ht Hh Hd)), Hk. change (str_is_empty rb) with false.
  destruct (delete_prefix_ok rb P s Hcopies Hr) as (s' & Hr' & Ho). exists s'. split; [exact Hr'|].
  rewrite Ho. apply settled_cleared; [by apply apart_sym|done..].
Qed.


(** A snapshot whose entity tags are not those its bytes get when they are put whole
    (an object uploaded in parts) is never restored to a place with objects: the
    verification fails and the target gets its objects back, but the copies stay, and
    every later restore to that target is refused as long as they do. *)
Theorem s3_failed_restore_blocks snap (mp : MigrationPlan) s :
  validate_plan snap mp = Ok () -> MigrationPlan.target_resource mp = target ->
  carries own (StateSnapshot.items snap) L -> StateSchema.resource (StateSnapshot.schema snap) = own ->
  data_digest (items_at own L) <> Ok (StateSnapshot.data_sha256 snap) -> P <> [] ->
  holds (objects s) target P -> holds (objects s) rb [] ->
  exists error s', restore own snap mp s = (Err error, s') /\
    settled (objects s) (objects s') target P rb P /\
    forall snap' mp', MigrationPlan.target_resource mp' = target ->
      exists error', restore own snap' mp' s' = (Err error', s').
Proof.
  intros Hv Ht Hc Hres Hd HPne Hh Hr. destruct (restore_runs snap mp s Ht Hv Hc Hh Hr) as (s2 & [H2t H2r H2e] & Hrun).
  assert (exists e, checked own (StateSnapshot.data_sha256 snap) (invalid "S3 restore verification failed") = Err e) as [e He].
  { unfold checked. destruct (data_digest _) as [d|e]; [|by exists e]. cbn [mbind result_bind].
    rewrite bool_decide_eq_false_2 by congruence. by eexists. }
  rewrite Hres, He in Hrun. destruct (restore_exact_ok target L P s2 HL H2t HP) as (s3 & Hex & Ho).
  rewrite (run_bind _ _ _ _ _ Hex) in Hrun. exists e, s3.
  assert (settled (objects s) (objects s3) target P rb P) as Hs3 by (rewrite Ho; by apply settled_replaced).
  split_and!; [done|done|]. intros snap' mp' Ht'. unfold restore. rewrite Ht'. cbv zeta.
  destruct (validate_plan snap' mp') as [[]|e'] eqn:Hv'; [|by exists e'].
  rewrite (run_bind_lift _ _ _ _ eq_refl), (run_bind _ _ _ _ _ (capture_ok _ _ _ Hcopies (settled_second _ _ _ _ _ _ Hs3))).
  rewrite bool_decide_eq_false_2; [by eexists|]. unfold items_at. intros Hnil%fmap_nil_inv. done.
Qed.
End Restore.
End Adapter.

(** * A store in memory *)

Module ToyStore.
Abbreviation Store := objects_t.

(** A path without the slash at its end. *)
Definition trimmed (p : string) : string :=
  if ends_with 47 p then string_of_bytes (removelast (bytes_of_string p)) else p.
Definition meta (kx : string * (list Z * option string)) : ObjectMeta.ObjectMeta :=
  {| ObjectMeta.location := kx.1; ObjectMeta.size := vec_len kx.2.1; ObjectMeta.e_tag := kx.2.2 |}.
Definition whole (bytes : list Z) : option string := Some "whole".

#[export] Instance calls : ObjectStore Store := {|
  path_parse p := Ok (trimmed p);
  put k bytes m := (Ok (), <[k := (bytes, whole bytes)]> m);
  get k m := (match m !! k with
              | Some (bytes, _) => Ok (vec_len bytes, fun m => (Ok bytes, m))
              | None => Err "NoSuchKey"
              end, m);
  list_objects q n m := (Ok (take n (meta <$> map_to_list (under (q +:+ "/") m))), m);
  delete k m := (Ok (), base.delete k m);
|}.

Lemma trimmed_slash q : trimmed (q +:+ "/") = q.
Proof.
  unfold trimmed, ends_with. rewrite string_app_bytes. change (bytes_of_string "/") with [47].
  rewrite last_snoc. change (47 =? 47) with true. cbn iota. rewrite removelast_last. apply string_of_bytes_of_string.
Qed.

#[export] Instance laws : ObjectStoreLaws Store.
Proof.
  refine {| objects := fun m => m; etag_of := whole; canonical_path := fun p => ends_with 47 p = false |}.
  - intros k Hk. cbn. unfold trimmed. by rewrite Hk.
  - intros q Hq. cbn. by rewrite trimmed_slash.
  - intros s k bytes Hk. by eexists.
  - intros s k bytes tag Hs. cbn. by rewrite Hs.
  - intros s q n Hq. by eexists.
  - intros s k. by eexists.
Defined.
End ToyStore.

Lemma apart_head a b p q : a <> b -> apart (String.String a p) (String.String b q).
Proof.
  intros Hne [|c k]; cbn [String.prefix]; [done|].
  destruct (ascii_dec a c) as [<-|]; [|done]. by destruct (ascii_dec b a) as [->|].
Qed.

(** * Witnesses *)

Module ObjectStoreWitness.
#[local] Existing Instances Toy.sha Toy.sha_laws Toy.hexi Toy.hex_laws ToyJson.text ToyStore.calls ToyStore.laws.
#[local] Instance error_text : SerdeErrorText := "json".
#[local] Instance serialise_schema : ToValue StateSchema := fun s => Some (String (StateSchema.resource s)).
#[local] Instance serialise_items : ToValue (list StateItem) := fun items =>
  Some (ToyJson.tree_list (fun i => Array (String (StateItem.key i) :: ((fun f => String f.2) <$> StateItem.fields i))) items).
#[local] Instance serialise_snapshot : ToValue StateSnapshot := fun s => Some (String (StateSnapshot.data_sha256 s)).
#[local] Instance serialise_plan : ToValue MigrationPlan := fun mp => Some (String (MigrationPlan.target_resource mp)).

Definition source : list (string * list Z) := [("a", [1; 2]); ("b/c", [3])].
Definition before : list (string * list Z) := [("old", [9])].
(** Objects put whole, and the same ones put in parts. *)
Definition put_whole : ToyStore.Store :=
  list_to_map (at_prefix "src/" source ++ at_prefix "dst/" before).
Definition in_parts : ToyStore.Store :=
  list_to_map ((fun x => ("src/" +:+ x.1, (x.2, Some "parts-2"))) <$> source) ∪ put_whole.

Definition taken (m : ToyStore.Store) : StateSnapshot :=
  match (snapshot "src/" m).1 with
  | Ok s => s
  | Err _ => unsealed (discover "src/") "" []
  end.
Definition planned (m : ToyStore.Store) : MigrationPlan :=
  match plan (taken m) "dst/" with
  | Ok mp => mp
  | Err _ => MigrationPlan.Build_MigrationPlan "" S3Compatible "" "" [] ""
  end.

Lemma s3_plans : Forall (fun m => validate_plan (taken m) (planned m) = Ok () /\
  MigrationPlan.backend (planned m) = S3Compatible /\ MigrationPlan.target_resource (planned m) = "dst/" /\
  StateSchema.resource (StateSnapshot.schema (taken m)) = "src/" /\
  under "dst/" m = list_to_map (at_prefix "dst/" before) /\ under (rollback_prefix "dst/") m = ∅)
  [put_whole; in_parts].
Proof.
  do 2 (apply Forall_cons; split; [split_and!; vm_compute; reflexivity|]). apply Forall_nil. exact I.
Qed.
Lemma items_whole : StateSnapshot.items (taken put_whole) = items_at "src/" source.
Proof. vm_compute. reflexivity. Qed.
Lemma items_parts : carries "src/" (StateSnapshot.items (taken in_parts)) source.
Proof.
  vm_compute. do 2 (apply Forall2_cons; split; [split; reflexivity|]). by apply Forall2_nil.
Qed.
Lemma digest_parts : data_digest (items_at "src/" source) <> Ok (StateSnapshot.data_sha256 (taken in_parts)).
Proof. vm_compute. discriminate. Qed.
Lemma s3_digests m : exists ds dp, digest (taken m) = Ok ds /\ digest (planned m) = Ok dp.
Proof. by eexists _, _. Qed.

(** A prefix checked by evaluation. *)
Lemma place_of q L :
  ends_with 47 q = false -> Forall (fun x => ends_with 47 ((q +:+ "/") +:+ x.1) = false) L ->
  strictly_sorted_by_key fst L -> enforce_bounds (items_at (q +:+ "/") L) = Ok () -> place (q +:+ "/") L.
Proof. intros Hq Hk Hs Hb. split; [by exists q|done..]. Qed.

Lemma places :
  place "dst/" source /\ place "dst/" before /\ place (rollback_prefix "dst/") [] /\ place (rollback_prefix "dst/") before.
Proof.
  assert (forall L, L ∈ [source; before; []] -> strictly_sorted_by_key fst L) as Hs.
  { intros L. rewrite !elem_of_cons. intros [->|[->|[->|[]%not_elem_of_nil]]]; repeat constructor. }
  assert (rollback_prefix "dst/" = ("anasemble-rollback/" +:+ bytes_digest (bytes_of_string "dst/")) +:+ "/") as Hrb
    by (vm_compute; reflexivity).
  rewrite Hrb. split_and!.
  - apply (place_of "dst"); [done|repeat constructor|apply Hs; left|vm_compute; reflexivity].
  - apply (place_of "dst"); [done|repeat constructor|apply Hs; right; left|vm_compute; reflexivity].
  - apply place_of; [vm_compute; reflexivity|constructor|apply Hs; do 2 right; left|vm_compute; reflexivity].
  - apply place_of; [vm_compute; reflexivity|repeat constructor; vm_compute; reflexivity|apply Hs; right; left|vm_compute; reflexivity].
Qed.

Lemma prefixes_apart : apart "dst/" (rollback_prefix "dst/").
Proof. apply apart_head. discriminate. Qed.


Example s3_failed_restore_blocks_witness :
  exists error s', restore "src/" (taken in_parts) (planned in_parts) in_parts = (Err error, s') /\
    exists error', restore "src/" (taken in_parts) (planned in_parts) s' = (Err error', s').
Proof.
  destruct (proj1 (Forall_forall _ _) s3_plans in_parts) as (Hv & Hb & Ht & Hr & Hd & Hk); [right; left|].
  pose proof items_parts as Hi. pose proof digest_parts as Hg.
  destruct places as (P1 & P2 & P3 & P4). pose proof prefixes_apart as Ha.
  pose proof (s3_failed_restore_blocks "src/" "dst/" source before P1 P2 P3 P4 Ha (taken in_parts) (planned in_parts)
    in_parts) as T.
  revert Hv Hb Ht Hr Hd Hk Hi Hg T. generalize (taken in_parts) (planned in_parts) in_parts.
  intros snap p m Hv Hb Ht Hr Hd Hk Hi Hg T.
  destruct (T Hv Ht Hi Hr Hg ltac:(discriminate) Hd Hk) as (error & s' & Hrun & _ & Hagain).
  exists error, s'. split; [exact Hrun|]. exact (Hagain _ _ Ht).
Defined.
End ObjectStoreWitness.
