(* ===== verification/WorkspaceFiles.v ===== *)
(** src/protocol.rs, its readers: the files of a recovery workspace as the argument
    [Protocol.Workspace] of the pipeline, and what a registry says of experiments. The
    paths that src/campaign.rs and src/corpus.rs take are here too. *)
From S2P Require Import Prelude FileTree External Json Core Model Canonical Text.
From S2P Require Protocol Oracle Fragments Synthesizer CheckerWire Sandbox Service.

#[local] Existing Instances Fragments.Envelope.Envelope_eq_dec.

(** * Paths *)

(** [std::path::Component] on Unix, and [Path::components]. *)
Inductive Component := RootDir | CurDir | ParentDir | Normal (name : string).

Fixpoint split_slash (s : string) : string * list string :=
  match s with
  | String.EmptyString => (String.EmptyString, [])
  | String.String c r =>
      let '(word, rest) := split_slash r in
      if byte_of_ascii c =? 47 then (String.EmptyString, word :: rest) else (String.String c word, rest)
  end.
Definition parts (s : string) : list string := let '(word, rest) := split_slash s in word :: rest.
Definition component (part : string) : list Component :=
  if str_is_empty part || bool_decide (part = ".") then []
  else if bool_decide (part = "..") then [ParentDir] else [Normal part].
Definition components (path : string) : list Component :=
  match parts path with
  | word :: rest =>
      (if str_is_empty word then match rest with [] => [] | _ => [RootDir] end
       else if bool_decide (word = ".") then [CurDir] else component word)
      ++ (rest ≫= component)
  | [] => []
  end.

(** The condition on a workspace's name: one component, and a normal one. *)
Definition one_normal_component (path : string) : bool :=
  match components path with [Normal _] => true | _ => false end.

Lemma parts_join s t : parts (s +:+ "/" +:+ t) = parts s ++ parts t.
Proof.
  induction s as [|c s IH].
  - change ("" +:+ "/" +:+ t) with (String.String "/" t). unfold parts at 1. cbn [split_slash].
    unfold parts. by destruct (split_slash t).
  - change (String.String c s +:+ "/" +:+ t) with (String.String c (s +:+ "/" +:+ t)).
    unfold parts at 1 2. unfold parts at 1 2 in IH. cbn [split_slash].
    destruct (split_slash (s +:+ "/" +:+ t)) as [word rest], (split_slash s) as [word' rest'].
    injection IH as -> ->. by destruct (byte_of_ascii c =? 47).
Qed.
(** A slash at the end does not show in the components. *)
Lemma components_slash s name : components s = [Normal name] -> components (s +:+ "/") = [Normal name].
Proof.
  unfold components. change (s +:+ "/") with (s +:+ "/" +:+ ""). rewrite parts_join. change (parts "") with [""]. destruct (parts s) as [|word rest]; [done|]. cbn [app].
  rewrite bind_app. replace ([""] ≫= component) with (@nil Component) by done. rewrite app_nil_r.
  destruct (str_is_empty word); [by destruct rest|done].
Qed.

(** [Path::extension] of a file name. *)
Definition extension (name : string) : option string :=
  match rsplit_once "." name with
  | Some (before, after) => if str_is_empty before || bool_decide (name = "..") then None else Some after
  | None => None
  end.

(** * Readers *)

(** What the readers ask of the rest of the file system: resolving a path, whether
    something is at a path with links followed, whether it is there itself, and the
    directory at a resolved path. *)
Record FileSystem := {
  canonicalize : string -> result Error string;
  try_exists : string -> result Error bool;
  lstat_exists : string -> result Error bool;
  tree : string -> option Node;
}.

Class NotDirectoryText := not_a_directory : string.

(** A name in a directory. *)
Definition entry (name : string) (entries : list (string * Node)) : option Node :=
  snd <$> list_find (fun e => e.1 = name) entries ≫= fun e => Some e.2.

Section Readers.
Context `{OsErrorText, NotDirectoryText, SerdeErrorText, JsonText, Sha256, Hex, Hmac, Ed25519, Jiff}.
Context `{Sandbox.WasmEncoder, Sandbox.Wasmi}.
Context `{!ToValue FragmentContent.FragmentContent, !ToValue Fragments.UnsignedEnvelope}.
Context `{!ToValue Fragments.Envelope.Envelope, !ToValue Candidate.Candidate}.
Context `{!ToValue Service.ServiceManifest, !ToValue (list FragmentContent.FragmentContent)}.
Context `{!FromSlice Protocol.Registry.Registry, !FromSlice Fragments.Envelope.Envelope}.
Implicit Types entries : list (string * Node).

Definition read_bounded (file : option Node) (max_bytes : Z) : result Error (list Z) :=
  match file with
  | None => Err (Io not_found)
  | Some (RegularFile bytes) =>
      if max_bytes <? vec_len bytes then Err (SearchExhausted "JSON input byte bound exceeded") else Ok bytes
  | Some _ => Err (InvalidEvidence "JSON input is not a regular file")
  end.

(** [fs::read_dir] below the workspace; a link there is followed by [linked]. *)
Definition read_dir (linked : option (list (string * Node))) (directory : option Node)
  : result Error (list (string * Node)) :=
  match directory with
  | None => Err (Io not_found)
  | Some (Folder entries) => Ok entries
  | Some SymbolicLink => ok_or linked (Io not_found)
  | Some _ => Err (Io not_a_directory)
  end.

(** The body of the loop of [regular_json_files]: the files so far and the entries. *)
Definition json_file (max_files : Z) (e : string * Node) (st : list (string * Node) * Z)
  : result Error (list (string * Node) * Z) :=
  let '(paths, n) := st in
  n ← ok_or (checked_add u64_max n 1) (SearchExhausted "fragment entry counter overflow");
  if max_files <? n then Err (SearchExhausted "fragment-directory entry bound exceeded") else
  match e.2 with
  | RegularFile _ =>
      if bool_decide (extension e.1 = Some "json") then Ok (paths ++ [e], n)
      else Err (InvalidEvidence "fragment directory contains a non-JSON file")
  | _ => Err (InvalidEvidence "fragment directory contains a non-regular file")
  end.
Definition regular_json_files (directory : result Error (list (string * Node))) (max_files : Z)
  : result Error (list (string * Node)) :=
  listed ← directory;
  '(paths, _) ← for_each listed ([], 0) (json_file max_files);
  Ok paths.

(** The registry of a workspace, parsed. *)
Definition read_registry entries : result Error Protocol.Registry.Registry :=
  registry_bytes ← read_bounded (entry "registry.json" entries) 131072;
  ok_or (from_slice (T := Protocol.Registry.Registry) registry_bytes)
        (InvalidRegistry ("registry JSON is invalid: " +:+ serde_error_text)).

Definition read_envelope (max_fragment_bytes : Z) (path : string * Node)
  : result Error Fragments.Envelope.Envelope :=
  data ← read_bounded (Some path.2) max_fragment_bytes;
  ok_or (from_slice (T := Fragments.Envelope.Envelope) data)
        (InvalidEvidence ("fragment JSON is invalid: " +:+ serde_error_text)).

Definition read_fragments (linked : option (list (string * Node))) entries (max_fragments max_fragment_bytes : Z)
  : result Error (list Fragments.Envelope.Envelope) :=
  fragment_paths ← regular_json_files (read_dir linked (entry "fragments" entries)) max_fragments;
  let fragment_paths := sort_by_key fst fragment_paths in
  if max_fragments <? vec_len fragment_paths then Err (SearchExhausted "fragment-count bound exceeded") else
  collect_results (read_envelope max_fragment_bytes) fragment_paths.

(** The workspace at a path, a directory with these entries. *)
Definition workspace (fs : FileSystem) (linked : option (list (string * Node))) (path : string) entries
  : Protocol.Workspace :=
  {| Protocol.read_registry := read_registry entries;
     Protocol.read_fragments := read_fragments linked entries;
     Protocol.attest_absence := Oracle.attest_absence (canonicalize fs) (try_exists fs) (tree fs) path |}.

(** ** What is registered *)

Definition registered entries : result Error Protocol.Registry.Registry :=
  registry ← read_registry entries;
  _ ← Protocol.validate_registry registry;
  Ok registry.

Definition registered_experiment entries : result Error Protocol.ExperimentRegistration :=
  registry ← registered entries; Ok (Protocol.Registry.experiment registry).
Definition registered_baselines entries : result Error (list string) :=
  experiment ← registered_experiment entries; Ok (Protocol.baselines experiment).
Definition registered_candidate_limit entries : result Error Z :=
  registry ← registered entries; Ok (Grammar.max_candidates (Protocol.Registry.grammar registry)).

Fixpoint any_there (fs : FileSystem) (paths : list string) : result Error bool :=
  match paths with
  | [] => Ok false
  | path :: rest =>
      found ← lstat_exists fs path;
      if found : bool then Ok true else any_there fs rest
  end.
Definition registered_backup_available (fs : FileSystem) entries : result Error bool :=
  registry ← registered entries;
  any_there fs (Protocol.forbidden_paths (Protocol.Registry.loss_oracle registry)).

(** * The order of listings *)

Lemma json_files_Ok max_files listed : forall paths n st,
  max_files <= u64_max -> 0 <= n <= max_files ->
  for_each listed (paths, n) (json_file max_files) = Ok st <->
  Forall (fun e => (exists bytes, e.2 = RegularFile bytes) /\ extension e.1 = Some "json") listed /\
  n + vec_len listed <= max_files /\ st = (paths ++ listed, n + vec_len listed).
Proof.
  unfold vec_len. induction listed as [|e l IH]; intros paths n st Hmax Hn; cbn [for_each length].
  - rewrite app_nil_r. split; [intros [= <-]; split_and!; [done|lia|f_equal; lia]|].
    intros (_ & _ & ->). f_equal. f_equal. lia.
  - rewrite bind_Ok, Forall_cons. unfold json_file at 1, checked_add.
    destruct (Z.leb_spec (n + 1) u64_max) as [H64|H64]; cbn [ok_or mbind result_bind].
    2:{ split; [by intros (? & [=] & _)|lia]. }
    destruct (Z.ltb_spec max_files (n + 1)).
    { split; [by intros (? & [=] & _)|lia]. }
    destruct e as [name []]; cbn [fst snd];
      try (split; [by intros (? & [=] & _)|]; by intros ([[[? [=]] _] _] & _)).
    destruct (bool_decide (extension name = Some "json")) eqn:Hext.
    + apply bool_decide_eq_true in Hext. split.
      * intros (st' & [= <-] & (Hall & Hle & ->)%IH); [|done|lia].
        split_and!; [by eexists|done|done|lia|]. rewrite <- app_assoc. cbn [app]. f_equal. lia.
      * intros ([_ Hall] & Hle & ->). eexists. split; [done|]. apply IH; [done|lia|].
        split_and!; [done|lia|]. rewrite <- app_assoc. cbn [app]. f_equal. lia.
    + apply bool_decide_eq_false in Hext. split; [by intros (? & [=] & _)|]. by intros ([[_ ?] _] & _).
Qed.

Lemma regular_json_files_perm l l' max_files paths :
  l ≡ₚ l' -> max_files <= u64_max -> 0 <= max_files -> regular_json_files (Ok l) max_files = Ok paths ->
  paths = l /\ regular_json_files (Ok l') max_files = Ok l'.
Proof.
  intros Hp Hmax Hpos Hl. unfold regular_json_files in *. cbn [mbind result_bind] in *. inv_ok.
  match goal with H : for_each l _ _ = Ok ?s |- _ => destruct s as [ps k]; rename H into Hf end.
  apply json_files_Ok in Hf as (Hall & Hle & [= -> ->]); [|done|lia].
  assert (for_each l' ([], 0) (json_file max_files) = Ok (l', 0 + vec_len l')) as ->.
  { apply json_files_Ok; [done|lia|]. pose proof (Permutation_length Hp) as Hlen. unfold vec_len in *.
    split; [by rewrite <- Hp|split; [lia|reflexivity]]. }
  cbn. split; [congruence|done].
Qed.

Lemma read_fragments_perm linked entries entries' l l' max_fragments max_bytes es :
  read_dir linked (entry "fragments" entries) = Ok l -> read_dir linked (entry "fragments" entries') = Ok l' ->
  l ≡ₚ l' -> NoDup l.*1 -> max_fragments <= u64_max ->
  read_fragments linked entries max_fragments max_bytes = Ok es ->
  read_fragments linked entries' max_fragments max_bytes = Ok es.
Proof.
  intros Hl Hl' Hp Hnd Hmax He. unfold read_fragments in *. rewrite Hl in He. rewrite Hl'. apply bind_Ok in He as (paths & Hps & He).
  destruct (Z.ltb_spec max_fragments (vec_len (sort_by_key fst paths))) as [|Hlen]; [done|].
  assert (0 <= max_fragments) as Hpos by (unfold vec_len in Hlen; lia).
  destruct (regular_json_files_perm l l' max_fragments paths Hp Hmax Hpos Hps) as [-> ->]. cbn [mbind result_bind].
  rewrite <- (sort_by_key_unique fst l l' Hp) by (by rewrite <- Hp). by rewrite (proj2 (Z.ltb_ge _ _)).
Qed.

(** Two listings of the same workspace. *)
Definition relisted (linked : option (list (string * Node))) entries entries' : Prop :=
  entry "registry.json" entries = entry "registry.json" entries' /\
  exists l l', read_dir linked (entry "fragments" entries) = Ok l /\
    read_dir linked (entry "fragments" entries') = Ok l' /\ l ≡ₚ l' /\ NoDup l.*1.

Lemma relisted_sym linked entries entries' : relisted linked entries entries' -> relisted linked entries' entries.
Proof.
  intros (He & l & l' & Hl & Hl' & Hp & Hnd). split; [done|]. exists l', l. split_and!; [done..|]. by rewrite <- Hp.
Qed.

Lemma validate_registry_bound registry : Protocol.validate_registry registry = Ok () ->
  Protocol.max_fragments (Protocol.Registry.resource_limits registry) <= u64_max.
Proof.
  intros Hv. unfold Protocol.validate_registry in Hv. inv_ok.
  repeat match goal with H : (_ || _) = false |- _ => apply orb_false_iff in H as [? ?] end.
  assert (10000 <= u64_max) by (by vm_compute). lia.
Qed.

Lemma recover_relisted fs linked path entries entries' mode res :
  relisted linked entries entries' ->
  Protocol.recover (workspace fs linked path entries) mode = Ok res ->
  Protocol.recover (workspace fs linked path entries') mode = Ok res.
Proof.
  intros (He & l & l' & Hl & Hl' & Hp & Hnd) Hr. unfold Protocol.recover in *.
  cbn [workspace Protocol.read_registry Protocol.read_fragments Protocol.attest_absence] in *.
  assert (read_registry entries' = read_registry entries) as -> by (unfold read_registry; by rewrite He).
  apply bind_Ok in Hr as (registry & Hreg & Hr). rewrite Hreg. cbn [mbind result_bind].
  apply bind_Ok in Hr as ([] & Hg & Hr). rewrite Hg. cbn [mbind result_bind].
  apply bind_Ok in Hr as ([] & Hv & Hr). rewrite Hv. cbn [mbind result_bind].
  apply bind_Ok in Hr as (es & Hes & Hr).
  assert (Protocol.validate_registry registry = Ok ()) as Hvr by (destruct (Protocol.validate_registry registry) as [[]|]; done).
  destruct (read_fragments linked entries _ _) as [es'|] eqn:Hf; [|done]. injection Hes as ->.
  by rewrite (read_fragments_perm _ _ entries' _ _ _ _ _ Hl Hl' Hp Hnd (validate_registry_bound _ Hvr) Hf).
Qed.

End Readers.

(** * Witness *)

Module WorkspaceWitness.
#[local] Existing Instances Toy.sha Toy.hexi Toy.hmac Toy.ed Toy.jiff
  Sandbox.ToyWasm.encoder Sandbox.ToyWasm.wasmi
  Protocol.ProtocolWitness.error_text Protocol.ProtocolWitness.text
  Protocol.ProtocolWitness.serialise_content Protocol.ProtocolWitness.serialise_unsigned
  Protocol.ProtocolWitness.serialise_envelope Protocol.ProtocolWitness.serialise_candidate
  Protocol.ProtocolWitness.serialise_manifest Protocol.ProtocolWitness.serialise_contents.
#[local] Instance os_errors : OsErrorText := {| not_found := "not found"; already_exists := "exists" |}.
#[local] Instance not_directory : NotDirectoryText := "not a directory".
(** A file of one byte holds the registry or one of the fragments. *)
#[local] Instance parse_registry : FromSlice Protocol.Registry.Registry := fun bytes =>
  match bytes with [0] => Some Protocol.ProtocolWitness.registry | _ => None end.
#[local] Instance parse_envelope : FromSlice Fragments.Envelope.Envelope := fun bytes =>
  match bytes, Protocol.read_fragments Protocol.ProtocolWitness.workspace 0 0 with
  | [n], Ok fragments => fragments !! Z.to_nat (n - 1)
  | _, _ => None
  end.

Definition fragments : list (string * Node) :=
  [("c.json", RegularFile [1]); ("a.json", RegularFile [2]); ("b.json", RegularFile [3])].
Definition listing (fragments : list (string * Node)) : list (string * Node) :=
  [("registry.json", RegularFile [0]); ("fragments", Folder fragments)].
Definition machine : FileSystem :=
  {| canonicalize := Ok; try_exists := fun _ => Ok false; lstat_exists := fun _ => Ok false;
     tree := fun _ => Some (Folder (listing fragments)) |}.

Lemma certifies_listed : exists wasm certificate,
  Protocol.run_with_mode (workspace machine None "/w" (listing fragments)) Protocol.Full =
    Some (Protocol.Certified Protocol.ProtocolWitness.door wasm certificate).
Proof. do 2 eexists. vm_compute. reflexivity. Qed.

Lemma listed_otherwise : relisted None (listing fragments) (listing (reverse fragments)).
Proof.
  split; [done|]. exists fragments, (reverse fragments). split_and!; [done..|by rewrite reverse_Permutation|].
  by apply (bool_decide_unpack _).
Qed.

End WorkspaceWitness.
