(* ===== verification/Campaign.v ===== *)
(** src/campaign.rs and src/corpus.rs: recoveries of many workspaces below one root, with
    the metrics and baselines registered for them. *)
From S2P Require Import Prelude FileTree External Json Core Model Canonical Text WorkspaceFiles.
From S2P Require Protocol Fragments Synthesizer Sandbox Service.

Inductive ExpectedDecision := Certified | Refused | Timeout | Disagreement | Negative.
#[export] Instance ExpectedDecision_eq_dec : EqDecision ExpectedDecision.
Proof. solve_decision. Defined.

Module CampaignCase.
Record CampaignCase := {
  id : string;
  workspace : string;
  expected : ExpectedDecision;
  expected_candidate_digest : option string;
}.
End CampaignCase.

Module CampaignManifest.
Record CampaignManifest := { version : string; cases : list CampaignCase.CampaignCase }.
End CampaignManifest.

Module BaselineReport.
Record BaselineReport := { name : string; observed : string }.
End BaselineReport.

Module CaseReport.
Record CaseReport := {
  id : string;
  expected : string;
  observed : string;
  candidate_digest : option string;
  baselines : list BaselineReport.BaselineReport;
  matched_expectation : bool;
}.
End CaseReport.

Module CampaignMetrics.
Record CampaignMetrics := {
  total_cases : Z;
  certified_correct_recoveries : Z;
  unsafe_certifications : Z;
  refusals : Z;
  timeouts : Z;
  disagreements : Z;
  retained_negative_results : Z;
}.
Definition default : CampaignMetrics :=
  {| total_cases := 0; certified_correct_recoveries := 0; unsafe_certifications := 0; refusals := 0;
     timeouts := 0; disagreements := 0; retained_negative_results := 0 |}.
End CampaignMetrics.

Module CampaignReport.
Record CampaignReport := {
  version : string;
  cases : list CaseReport.CaseReport;
  metrics : CampaignMetrics.CampaignMetrics;
  registered_primary_metrics : list string;
  registered_secondary_metrics : list string;
  metric_values : btree_map string Z;
}.
End CampaignReport.

Module CorpusManifest.
Record CorpusManifest := { version : string; workspaces : list string }.
End CorpusManifest.

Module CorpusEntry.
Record CorpusEntry := { workspace : string; result : Protocol.RecoveryResult }.
End CorpusEntry.

Module CorpusResult.
Record CorpusResult := { version : string; results : list CorpusEntry.CorpusEntry }.
End CorpusResult.

Abbreviation CampaignCase := CampaignCase.CampaignCase.
Abbreviation CampaignManifest := CampaignManifest.CampaignManifest.
Abbreviation BaselineReport := BaselineReport.BaselineReport.
Abbreviation CaseReport := CaseReport.CaseReport.
Abbreviation CampaignMetrics := CampaignMetrics.CampaignMetrics.
Abbreviation CampaignReport := CampaignReport.CampaignReport.
Abbreviation CorpusManifest := CorpusManifest.CorpusManifest.
Abbreviation CorpusEntry := CorpusEntry.CorpusEntry.
Abbreviation CorpusResult := CorpusResult.CorpusResult.
Abbreviation entries_t := (list (string * Node)).

(** ** Decisions *)

(** [Debug for RefusalCode] *)
Definition debug (code : RefusalCode.RefusalCode) : string :=
  match code with
  | RefusalCode.InvalidRegistry => "InvalidRegistry"
  | RefusalCode.InvalidEvidence => "InvalidEvidence"
  | RefusalCode.InsufficientEvidence => "InsufficientEvidence"
  | RefusalCode.ContradictoryEvidence => "ContradictoryEvidence"
  | RefusalCode.ArtifactPresent => "ArtifactPresent"
  | RefusalCode.SearchExhausted => "SearchExhausted"
  | RefusalCode.CheckerRejected => "CheckerRejected"
  | RefusalCode.InternalError => "InternalError"
  end.

Definition classify (result : Protocol.RecoveryResult) : string :=
  match result with
  | Protocol.Certified _ _ _ => "certified"
  | Protocol.Refused code _ => "refused:" +:+ debug code
  end.

Definition matches_expected (expected : ExpectedDecision) (result : Protocol.RecoveryResult) : bool :=
  match expected, result with
  | Certified, Protocol.Certified _ _ _ => true
  | (Refused | Negative), Protocol.Refused _ _ => true
  | Timeout, Protocol.Refused RefusalCode.SearchExhausted _ => true
  | Disagreement, Protocol.Refused RefusalCode.CheckerRejected _ => true
  | _, _ => false
  end.

Definition expected_name (expected : ExpectedDecision) : string :=
  match expected with
  | Certified => "certified" | Refused => "refused" | Timeout => "timeout"
  | Disagreement => "disagreement" | Negative => "negative"
  end.

Definition validate_case `{Hex} (case : CampaignCase) : result Error () :=
  let digest_required := bool_decide (CampaignCase.expected case = Certified) in
  let digest := CampaignCase.expected_candidate_digest case in
  if str_is_empty (CampaignCase.id case) || (128 <? str_len (CampaignCase.id case))
     || negb (one_normal_component (CampaignCase.workspace case))
     || match digest with
        | Some d => negb (str_len d =? 64) || bool_decide (hex_decode d = None)
        | None => false
        end
     || negb (Bool.eqb digest_required (bool_decide (is_Some digest)))
  then Err (InvalidRegistry "campaign case is invalid") else Ok ().

(** A file as [fs::read] sees it, and one that is checked before. *)
Definition regular_file `{OsErrorText} (file : option Node) (max : Z) (e : Error) : result Error (list Z) :=
  match file with
  | None => Err (Io not_found)
  | Some (RegularFile bytes) => if max <? vec_len bytes then Err e else Ok bytes
  | Some _ => Err e
  end.
(** [symlink_metadata] of a path below [root] that has one component: a slash at its end
    has a link followed, to what [followed] gives. *)
Definition child_metadata `{OsErrorText, NotDirectoryText} (followed : string -> option entries_t) (root : entries_t)
  (path : string) : result Error Node :=
  match components path with
  | [Normal name] =>
      node ← ok_or (entry name root) (Io not_found);
      if bool_decide (path = name) then Ok node else
      match node with
      | Folder _ => Ok node
      | SymbolicLink => entries ← ok_or (followed name) (Io not_found); Ok (Folder entries)
      | _ => Err (Io not_a_directory)
      end
  | _ => Err (Io not_found)
  end.
Definition real_directory (metadata : Node) (message : string) : result Error entries_t :=
  match metadata with
  | Folder entries => Ok entries
  | _ => Err (InvalidRegistry message)
  end.

(** ** Metrics *)

Definition saturating_mul_u64 (a b : Z) : Z := Z.min (a * b) u64_max.
Definition checked_mul (a b : Z) : option Z := if a * b <=? u64_max then Some (a * b) else None.

Definition available_metrics (metrics : CampaignMetrics) (search_time_micros candidate_complexity authoring_bytes : Z)
  : btree_map string Z :=
  let refusal_basis_points :=
    if CampaignMetrics.total_cases metrics =? 0 then 0
    else saturating_mul_u64 (CampaignMetrics.refusals metrics) 10000 / CampaignMetrics.total_cases metrics in
  bt_from_list
    [("certified-correct-recoveries", CampaignMetrics.certified_correct_recoveries metrics);
     ("unsafe-certifications", CampaignMetrics.unsafe_certifications metrics);
     ("refusal-rate", refusal_basis_points); ("search-time", search_time_micros);
     ("candidate-complexity", candidate_complexity); ("authoring-cost", authoring_bytes)].

Definition metric_values (primary secondary : list string) (metrics : CampaignMetrics)
  (search_time_micros candidate_complexity authoring_bytes : Z) : result Error (btree_map string Z) :=
  let available := available_metrics metrics search_time_micros candidate_complexity authoring_bytes in
  values ← collect_results (fun name =>
    value ← ok_or (bt_get name available) (InvalidRegistry ("unsupported registered metric: " +:+ name));
    Ok (name, value)) (primary ++ secondary);
  Ok (bt_from_list values).

(** What one case adds to the metrics. *)
Definition count_case (expected : ExpectedDecision) (certified matched : bool) (m : CampaignMetrics) : CampaignMetrics :=
  let one (b : bool) : Z := if b then 1 else 0 in
  {| CampaignMetrics.total_cases := CampaignMetrics.total_cases m + 1;
     CampaignMetrics.certified_correct_recoveries :=
       CampaignMetrics.certified_correct_recoveries m + one (certified && matched);
     CampaignMetrics.unsafe_certifications := CampaignMetrics.unsafe_certifications m + one (certified && negb matched);
     CampaignMetrics.refusals := CampaignMetrics.refusals m + one (negb certified);
     CampaignMetrics.timeouts := CampaignMetrics.timeouts m + one (bool_decide (expected = Timeout) && matched);
     CampaignMetrics.disagreements :=
       CampaignMetrics.disagreements m + one (bool_decide (expected = Disagreement) && matched);
     CampaignMetrics.retained_negative_results :=
       CampaignMetrics.retained_negative_results m + one (bool_decide (expected = Negative) && matched) |}.

(** What the loop over the cases carries along. *)
Module Tally.
Record Tally := {
  metrics : CampaignMetrics;
  reports : list CaseReport;
  registration : option (list string * list string * list string);
  search_time_micros : Z;
  candidate_complexity : Z;
  authoring_bytes : Z;
  candidate_work_budget : Z;
}.
Definition empty : Tally :=
  {| metrics := CampaignMetrics.default; reports := []; registration := None; search_time_micros := 0;
     candidate_complexity := 0; authoring_bytes := 0; candidate_work_budget := 0 |}.
End Tally.

Section Campaign.
Context `{OsErrorText, NotDirectoryText, SerdeErrorText, JsonText, Sha256, Hex, Hmac, Ed25519, Jiff}.
Context `{Sandbox.WasmEncoder, Sandbox.Wasmi}.
Context `{!ToValue FragmentContent.FragmentContent, !ToValue Fragments.UnsignedEnvelope}.
Context `{!ToValue Fragments.Envelope.Envelope, !ToValue Candidate.Candidate}.
Context `{!ToValue Service.ServiceManifest, !ToValue (list FragmentContent.FragmentContent)}.
Context `{!FromSlice Protocol.Registry.Registry, !FromSlice Fragments.Envelope.Envelope}.
Context `{!FromSlice CampaignManifest, !FromSlice CorpusManifest}.

(** The machine, the directories that a link in the root and a link [fragments] in a
    workspace lead to, and the path of a workspace below the root. *)
Variables (machine : FileSystem) (followed linked : string -> option entries_t) (path_of : string -> string).

Definition recovery (name : string) (entries : entries_t) (mode : Protocol.RecoveryMode)
  : result (fault Error) Protocol.RecoveryResult :=
  or_panic (Protocol.run_with_mode (workspace machine (linked name) (path_of name) entries) mode).

(** The body of the loop of [evidence_bytes]. *)
Definition fragment_bytes (e : string * Node) (st : Z * Z) : result Error (Z * Z) :=
  let '(total, count) := st in
  let count := count + 1 in
  if 10000 <? count then Err (SearchExhausted "campaign fragment bound exceeded") else
  match e.2 with
  | RegularFile bytes =>
      if 1048576 <? vec_len bytes then Err (InvalidEvidence "campaign evidence is not a bounded regular file") else
      total ← ok_or (checked_add u64_max total (vec_len bytes)) (SearchExhausted "campaign byte counter overflow");
      Ok (total, count)
  | _ => Err (InvalidEvidence "campaign evidence is not a bounded regular file")
  end.
Definition evidence_bytes (name : string) (entries : entries_t) : result Error Z :=
  registry ← regular_file (entry "registry.json" entries) 131072
    (InvalidEvidence "campaign registry is not a bounded regular file");
  listed ← read_dir (linked name) (entry "fragments" entries);
  '(total, _) ← for_each listed (vec_len registry, 0) fragment_bytes;
  Ok total.

Definition execute_baseline (workspace_name : string) (entries : entries_t) (name : string)
  : result (fault Error) BaselineReport :=
  observed ← (
    if bool_decide (name = "backup-replica") then
      available ← fails (registered_backup_available machine entries);
      Ok (if available : bool then "available" else "unavailable_after_registered_total_loss")
    else if bool_decide (name = "trace-only") then
      result ← recovery workspace_name entries Protocol.TraceOnly; Ok (classify result)
    else if bool_decide (name = "centralized-contract") then
      result ← recovery workspace_name entries Protocol.CentralizedContract; Ok (classify result)
    else Err (Fails (InvalidRegistry ("unsupported registered baseline: " +:+ name))));
  Ok {| BaselineReport.name := name; BaselineReport.observed := observed |}.
Definition execute_baselines (workspace_name : string) (entries : entries_t) (baselines : list string)
  : result (fault Error) (list BaselineReport) :=
  collect_results (execute_baseline workspace_name entries) baselines.

(** The limits that are checked before a recovery is run. *)
Definition admit_case (case : CampaignCase) (entries : entries_t) (tally : Tally.Tally) : result Error (Z * Z) :=
  bytes ← evidence_bytes (CampaignCase.workspace case) entries;
  authoring_bytes ← ok_or (checked_add u64_max (Tally.authoring_bytes tally) bytes)
                          (SearchExhausted "campaign byte counter overflow");
  limit ← registered_candidate_limit entries;
  work ← ok_or (checked_mul limit 3) (SearchExhausted "campaign work budget overflow");
  candidate_work_budget ← ok_or (checked_add u64_max (Tally.candidate_work_budget tally) work)
                                (SearchExhausted "campaign work budget overflow");
  if 4000000 <? candidate_work_budget
  then Err (SearchExhausted "campaign exceeds four million registered candidate evaluations") else
  Ok (authoring_bytes, candidate_work_budget).

Definition result_digest (outcome : Protocol.RecoveryResult) : result Error (option string) :=
  match outcome with
  | Protocol.Certified candidate _ _ => d ← digest candidate; Ok (Some d)
  | Protocol.Refused _ _ => Ok None
  end.
Definition matches_case (case : CampaignCase) (result : Protocol.RecoveryResult) (candidate_digest : option string) : bool :=
  matches_expected (CampaignCase.expected case) result
  && match CampaignCase.expected_candidate_digest case with
     | Some expected => bool_decide (candidate_digest = Some expected)
     | None => true
     end.

(** All cases share the registration of the first. *)
Definition share_registration (registration : option (list string * list string * list string))
  (experiment : Protocol.ExperimentRegistration) : result Error (list string * list string * list string) :=
  let this := (Protocol.baselines experiment, Protocol.primary_metrics experiment, Protocol.secondary_metrics experiment) in
  match registration with
  | Some previous =>
      if negb (bool_decide (previous = this))
      then Err (InvalidRegistry "campaign cases do not share one matched experiment registration") else Ok previous
  | None => Ok this
  end.

(** One case; [elapsed] is what its recovery took, in microseconds. *)
Definition run_case (root : entries_t) (elapsed : CampaignCase -> Z) (case : CampaignCase) (tally : Tally.Tally)
  : result (fault Error) Tally.Tally :=
  let name := CampaignCase.workspace case in
  _ ← fails (validate_case case);
  metadata ← fails (child_metadata followed root name);
  entries ← fails (real_directory metadata "campaign workspace must be a real directory");
  '(authoring_bytes, candidate_work_budget) ← fails (admit_case case entries tally);
  result ← recovery name entries Protocol.Full;
  candidate_digest ← fails (result_digest result);
  let matched := matches_case case result candidate_digest in
  let complexity := match result with
    | Protocol.Certified candidate _ _ =>
        saturating_add_u64 (Tally.candidate_complexity tally) (vec_len (Candidate.transitions candidate))
    | Protocol.Refused _ _ => Tally.candidate_complexity tally
    end in
  experiment ← fails (registered_experiment entries);
  registration ← fails (share_registration (Tally.registration tally) experiment);
  baselines ← execute_baselines name entries (Protocol.baselines experiment);
  Ok {| Tally.metrics := count_case (CampaignCase.expected case) (Protocol.is_certified result) matched (Tally.metrics tally);
        Tally.reports := Tally.reports tally ++
          [{| CaseReport.id := CampaignCase.id case; CaseReport.expected := expected_name (CampaignCase.expected case);
              CaseReport.observed := classify result; CaseReport.candidate_digest := candidate_digest;
              CaseReport.baselines := baselines; CaseReport.matched_expectation := matched |}];
        Tally.registration := Some registration;
        Tally.search_time_micros := saturating_add_u64 (Tally.search_time_micros tally) (elapsed case);
        Tally.candidate_complexity := complexity;
        Tally.authoring_bytes := authoring_bytes;
        Tally.candidate_work_budget := candidate_work_budget |}.

Definition read_manifest (root : entries_t) : result Error CampaignManifest :=
  data ← regular_file (entry "campaign.json" root) 131072
           (InvalidRegistry "campaign manifest is not a bounded regular file");
  manifest ← ok_or (from_slice (T := CampaignManifest) data)
                   (InvalidRegistry ("campaign JSON is invalid: " +:+ serde_error_text));
  if negb (bool_decide (CampaignManifest.version manifest = "campaign-v1"))
     || bool_decide (CampaignManifest.cases manifest = []) || (256 <? vec_len (CampaignManifest.cases manifest))
  then Err (InvalidRegistry "campaign version or case count is invalid") else Ok manifest.

Definition run_campaign (root : entries_t) (elapsed : CampaignCase -> Z) : result (fault Error) CampaignReport :=
  manifest ← fails (read_manifest root);
  tally ← for_each (CampaignManifest.cases manifest) Tally.empty (run_case root elapsed);
  '(_, primary_metrics, secondary_metrics) ← or_panic (Tally.registration tally);
  values ← fails (metric_values primary_metrics secondary_metrics (Tally.metrics tally)
                    (Tally.search_time_micros tally) (Tally.candidate_complexity tally) (Tally.authoring_bytes tally));
  Ok {| CampaignReport.version := "campaign-report-v1"; CampaignReport.cases := Tally.reports tally;
        CampaignReport.metrics := Tally.metrics tally;
        CampaignReport.registered_primary_metrics := primary_metrics;
        CampaignReport.registered_secondary_metrics := secondary_metrics;
        CampaignReport.metric_values := values |}.

(** ** Corpora *)

(** [fs::read] of the manifest: a link is followed, which [target] answers. *)
Definition read_corpus (root : entries_t) (target : option (list Z)) : result Error CorpusManifest :=
  data ← match entry "corpus.json" root with
         | Some (RegularFile bytes) => Ok bytes
         | Some SymbolicLink => ok_or target (Io not_found)
         | Some _ => Err (Io not_a_directory)
         | None => Err (Io not_found)
         end;
  if 65536 <? vec_len data then Err (InvalidRegistry "corpus manifest is too large") else
  manifest ← ok_or (from_slice (T := CorpusManifest) data)
                   (InvalidRegistry ("invalid corpus manifest: " +:+ serde_error_text));
  if negb (bool_decide (CorpusManifest.version manifest = "corpus-v1"))
     || bool_decide (CorpusManifest.workspaces manifest = []) || (256 <? vec_len (CorpusManifest.workspaces manifest))
  then Err (InvalidRegistry "corpus version or workspace count is invalid") else Ok manifest.

Definition corpus_entry (root : entries_t) (name : string) : result (fault Error) CorpusEntry :=
  if negb (one_normal_component name)
  then Err (Fails (InvalidRegistry "corpus workspace must be one safe relative path component")) else
  metadata ← fails (child_metadata followed root name);
  entries ← fails (real_directory metadata "corpus workspace must be a real directory");
  result ← recovery name entries Protocol.Full;
  Ok {| CorpusEntry.workspace := name; CorpusEntry.result := result |}.

Definition run_corpus (root : entries_t) (target : option (list Z)) : result (fault Error) CorpusResult :=
  manifest ← fails (read_corpus root target);
  results ← collect_results (corpus_entry root) (CorpusManifest.workspaces manifest);
  Ok {| CorpusResult.version := "corpus-v1"; CorpusResult.results := results |}.

(** * What a report says *)

Definition count (test : CaseReport -> bool) (reports : list CaseReport) : Z := vec_len (List.filter test reports).
Definition certified (r : CaseReport) : bool := bool_decide (CaseReport.observed r = "certified").
Definition expecting (e : ExpectedDecision) (r : CaseReport) : bool := bool_decide (CaseReport.expected r = expected_name e).
Abbreviation matched := CaseReport.matched_expectation.

(** Metrics that count the reports of the cases. *)
Definition tallied (reports : list CaseReport) (m : CampaignMetrics) : Prop :=
  CampaignMetrics.total_cases m = vec_len reports /\
  CampaignMetrics.certified_correct_recoveries m = count (fun r => certified r && matched r) reports /\
  CampaignMetrics.unsafe_certifications m = count (fun r => certified r && negb (matched r)) reports /\
  CampaignMetrics.refusals m = count (fun r => negb (certified r)) reports /\
  CampaignMetrics.timeouts m = count (fun r => expecting Timeout r && matched r) reports /\
  CampaignMetrics.disagreements m = count (fun r => expecting Disagreement r && matched r) reports /\
  CampaignMetrics.retained_negative_results m = count (fun r => expecting Negative r && matched r) reports.

Lemma count_snoc test reports r : count test (reports ++ [r]) = count test reports + (if test r then 1 else 0).
Proof.
  unfold count, vec_len. rewrite List.filter_app, length_app. cbn [List.filter]. destruct (test r); cbn [length]; lia.
Qed.

Lemma classify_certified outcome : bool_decide (classify outcome = "certified") = Protocol.is_certified outcome.
Proof. by destruct outcome as [|[]]. Qed.
Lemma expected_name_inj e e' : bool_decide (expected_name e = expected_name e') = bool_decide (e = e').
Proof. by destruct e, e'. Qed.

Lemma tallied_snoc reports m case outcome d baselines matched_ :
  tallied reports m ->
  tallied (reports ++ [{| CaseReport.id := CampaignCase.id case;
      CaseReport.expected := expected_name (CampaignCase.expected case); CaseReport.observed := classify outcome;
      CaseReport.candidate_digest := d; CaseReport.baselines := baselines; CaseReport.matched_expectation := matched_ |}])
    (count_case (CampaignCase.expected case) (Protocol.is_certified outcome) matched_ m).
Proof.
  intros (Ht & Hc & Hu & Hr & Hti & Hd & Hn). unfold tallied, count_case. cbn [CampaignMetrics.total_cases
    CampaignMetrics.certified_correct_recoveries CampaignMetrics.unsafe_certifications CampaignMetrics.refusals
    CampaignMetrics.timeouts CampaignMetrics.disagreements CampaignMetrics.retained_negative_results].
  rewrite !count_snoc. unfold certified, expecting. cbn [CaseReport.observed CaseReport.expected CaseReport.matched_expectation].
  rewrite !classify_certified, !expected_name_inj. rewrite Ht, Hc, Hu, Hr, Hti, Hd, Hn. split_and!; try done.
  unfold vec_len. rewrite length_app. cbn [length]. lia.
Qed.

(** The report of a case: certified as expected only with the expected candidate. *)
Definition reports_case (case : CampaignCase) (r : CaseReport) : Prop :=
  CaseReport.id r = CampaignCase.id case /\ CaseReport.expected r = expected_name (CampaignCase.expected case) /\
  (certified r = true -> matched r = true ->
     CampaignCase.expected case = Certified /\ is_Some (CampaignCase.expected_candidate_digest case) /\
     CaseReport.candidate_digest r = CampaignCase.expected_candidate_digest case).

Lemma certified_as_expected case outcome d :
  validate_case case = Ok () -> Protocol.is_certified outcome = true -> matches_case case outcome d = true ->
  CampaignCase.expected case = Certified /\ is_Some (CampaignCase.expected_candidate_digest case) /\
  d = CampaignCase.expected_candidate_digest case.
Proof.
  intros Hv Hc Hm. unfold matches_case in Hm. apply andb_true_iff in Hm as [He Hd].
  destruct outcome; [|done]. destruct (CampaignCase.expected case) eqn:E; try done. split; [done|].
  unfold validate_case in Hv. rewrite E in Hv. destruct (CampaignCase.expected_candidate_digest case) as [x|].
  - split; [by eexists|]. by apply bool_decide_eq_true in Hd.
  - rewrite (bool_decide_eq_false_2 (is_Some None)) in Hv by (by intros [? ?]). cbn in Hv. by rewrite !orb_true_r in Hv.
Qed.

Lemma run_case_reports root elapsed case tally tally' : run_case root elapsed case tally = Ok tally' ->
  tallied (Tally.reports tally) (Tally.metrics tally) ->
  exists r, Tally.reports tally' = Tally.reports tally ++ [r] /\ reports_case case r /\
    tallied (Tally.reports tally') (Tally.metrics tally').
Proof.
  intros Hrun Ht. unfold run_case in Hrun.
  apply bind_Ok in Hrun as ([] & Hv & Hrun). apply bind_Ok in Hrun as (metadata & _ & Hrun).
  apply bind_Ok in Hrun as (entries & _ & Hrun). apply bind_Ok in Hrun as ([bytes budget] & _ & Hrun).
  apply bind_Ok in Hrun as (outcome & _ & Hrun). apply bind_Ok in Hrun as (d & _ & Hrun). cbv zeta in Hrun.
  apply bind_Ok in Hrun as (experiment & _ & Hrun). apply bind_Ok in Hrun as (registration & _ & Hrun).
  apply bind_Ok in Hrun as (baselines & _ & [= <-]). cbn [Tally.reports Tally.metrics].
  eexists. split; [done|]. split; [|by apply tallied_snoc].
  split; [done|]. split; [done|]. unfold certified. cbn [CaseReport.observed CaseReport.candidate_digest].
  rewrite classify_certified. intros Hc Hm. apply (certified_as_expected case outcome d); [|done..].
  by destruct (validate_case case) as [[]|].
Qed.


(** a corpus workspace must be a real directory, but a slash after its name is enough
    to have a link taken for one: the recovery then runs on whatever directory the link
    leads to. *)
Theorem linked_workspace_admitted root name entries :
  components name = [Normal name] -> entry name root = Some SymbolicLink -> followed name = Some entries ->
  corpus_entry root name = Err (Fails (InvalidRegistry "corpus workspace must be a real directory")) /\
  corpus_entry root (name +:+ "/") =
    (result ← recovery (name +:+ "/") entries Protocol.Full;
     Ok {| CorpusEntry.workspace := name +:+ "/"; CorpusEntry.result := result |}).
Proof.
  intros Hc He Hf. pose proof (components_slash name name Hc) as Hs. unfold corpus_entry, one_normal_component, child_metadata.
  rewrite Hs, Hc, He. cbn [negb ok_or mbind result_bind]. rewrite bool_decide_eq_true_2 by done. split; [done|].
  rewrite bool_decide_eq_false_2, Hf; [done|]. intros Heq. apply (f_equal str_len) in Heq. rewrite str_len_app in Heq.
  change (str_len "/") with 1 in Heq. lia.
Qed.
End Campaign.

(** * Witnesses *)

Module CampaignWitness.
#[local] Existing Instances Toy.sha Toy.hexi Toy.hmac Toy.ed Toy.jiff
  Sandbox.ToyWasm.encoder Sandbox.ToyWasm.wasmi
  Protocol.ProtocolWitness.error_text Protocol.ProtocolWitness.text
  Protocol.ProtocolWitness.serialise_content Protocol.ProtocolWitness.serialise_unsigned
  Protocol.ProtocolWitness.serialise_envelope Protocol.ProtocolWitness.serialise_candidate
  Protocol.ProtocolWitness.serialise_manifest Protocol.ProtocolWitness.serialise_contents
  WorkspaceWitness.os_errors WorkspaceWitness.not_directory WorkspaceWitness.parse_envelope.

Definition registry : Protocol.Registry.Registry :=
  let r := Protocol.ProtocolWitness.registry in
  {| Protocol.Registry.component := Protocol.Registry.component r;
     Protocol.Registry.interface_version := Protocol.Registry.interface_version r;
     Protocol.Registry.grammar := Protocol.Registry.grammar r;
     Protocol.Registry.required_domains := Protocol.Registry.required_domains r;
     Protocol.Registry.trusted_issuers := Protocol.Registry.trusted_issuers r;
     Protocol.Registry.loss_oracle := Protocol.Registry.loss_oracle r;
     Protocol.Registry.resource_limits := Protocol.Registry.resource_limits r;
     Protocol.Registry.experiment :=
       {| Protocol.seed := 1; Protocol.baselines := ["backup-replica"; "trace-only"];
          Protocol.primary_metrics := ["certified-correct-recoveries"; "unsafe-certifications"];
          Protocol.secondary_metrics := ["refusal-rate"; "candidate-complexity"] |};
     Protocol.Registry.evidence_window := None; Protocol.Registry.service_manifest := None |}.
#[local] Instance parse_registry : FromSlice Protocol.Registry.Registry := fun bytes =>
  match bytes with [0] => Some registry | _ => None end.

Definition door_digest : string :=
  match digest Protocol.ProtocolWitness.door with Ok d => d | Err _ => "" end.
Definition case (id workspace : string) (expected : ExpectedDecision) (d : option string) : CampaignCase :=
  {| CampaignCase.id := id; CampaignCase.workspace := workspace; CampaignCase.expected := expected;
     CampaignCase.expected_candidate_digest := d |}.
Definition manifest : CampaignManifest :=
  {| CampaignManifest.version := "campaign-v1";
     CampaignManifest.cases := [case "good" "door" Certified (Some door_digest); case "gone" "empty" Refused None;
                                case "surprise" "door" Negative None] |}.
#[local] Instance parse_manifest : FromSlice CampaignManifest := fun bytes =>
  match bytes with [9] => Some manifest | _ => None end.
#[local] Instance parse_corpus : FromSlice CorpusManifest := fun _ => None.

Definition root : entries_t :=
  [("campaign.json", RegularFile [9]); ("door", Folder (WorkspaceWitness.listing WorkspaceWitness.fragments));
   ("empty", Folder (WorkspaceWitness.listing [])); ("elsewhere", SymbolicLink)].
Definition nowhere : string -> option entries_t := fun _ => None.
Definition the_link : string -> option entries_t := fun name =>
  if bool_decide (name = "elsewhere") then Some (WorkspaceWitness.listing WorkspaceWitness.fragments) else None.

(** One recovery is correct, one refused and one, of a case that is to fail, unsafe. *)
Lemma reported : exists report,
  run_campaign WorkspaceWitness.machine nowhere nowhere (fun name => name) root (fun _ => 1000) = Ok report /\
  CampaignReport.metrics report =
    {| CampaignMetrics.total_cases := 3; CampaignMetrics.certified_correct_recoveries := 1;
       CampaignMetrics.unsafe_certifications := 1; CampaignMetrics.refusals := 1; CampaignMetrics.timeouts := 0;
       CampaignMetrics.disagreements := 0; CampaignMetrics.retained_negative_results := 0 |} /\
  bt_get "refusal-rate" (CampaignReport.metric_values report) = Some 3333.
Proof. eexists. split; [vm_compute; reflexivity|]. split; vm_compute; reflexivity. Qed.


Lemma linked_workspace_admitted_witness :
  corpus_entry WorkspaceWitness.machine the_link nowhere (fun name => name) root "elsewhere" =
    Err (Fails (InvalidRegistry "corpus workspace must be a real directory")) /\
  is_err (corpus_entry WorkspaceWitness.machine the_link nowhere (fun name => name) root "elsewhere/") = false.
Proof.
  destruct (linked_workspace_admitted WorkspaceWitness.machine the_link nowhere (fun name => name) root "elsewhere"
    (WorkspaceWitness.listing WorkspaceWitness.fragments) eq_refl eq_refl eq_refl) as [He Hc].
  split; [exact He|]. change "elsewhere/" with ("elsewhere" +:+ "/"). rewrite Hc. vm_compute. reflexivity.
Defined.
End CampaignWitness.
