(* ===== verification/Folders.v ===== *)
(** Directories in directories on a machine that fails ([Disk]): the calls on paths by
    which src/ledger.rs and src/lifecycle.rs build whole trees and move them into place.
    A directory is the list of its entries, in the order they were made. *)
From S2P Require Import Prelude Effects FileTree Model Disk.

(** Nodes of a tree: directories, and the rest. *)
Class TreeNode (N : Type) := {
  folder : list (string * N) -> N;
  as_folder : N -> option (list (string * N));
  as_folder_folder : forall l, as_folder (folder l) = Some l;
}.

Class NotEmptyText := not_empty : string.

Section Lists.
Context {N : Type}.
Implicit Types d : list (string * N).

Fixpoint get (name : string) d : option N :=
  match d with [] => None | (k, n) :: d => if bool_decide (k = name) then Some n else get name d end.
Fixpoint set (name : string) (n : N) d : list (string * N) :=
  match d with
  | [] => [(name, n)]
  | (k, x) :: d => if bool_decide (k = name) then (name, n) :: d else (k, x) :: set name n d
  end.
Definition del (name : string) d : list (string * N) := List.filter (fun e => negb (bool_decide (e.1 = name))) d.

Lemma get_set_eq name n d : get name (set name n d) = Some n.
Proof.
  induction d as [|[k x] d IH]; cbn [set get]; [by rewrite bool_decide_eq_true_2|].
  destruct (decide (k = name)) as [->|Hk].
  - rewrite bool_decide_eq_true_2 by done. cbn [get]. by rewrite bool_decide_eq_true_2.
  - rewrite bool_decide_eq_false_2 by done. cbn [get]. by rewrite bool_decide_eq_false_2.
Qed.
Lemma get_set_ne name x n d : name <> x -> get x (set name n d) = get x d.
Proof.
  intros Hne. induction d as [|[k y] d IH]; cbn [set get]; [by rewrite bool_decide_eq_false_2|].
  destruct (decide (k = name)) as [->|Hk].
  - rewrite bool_decide_eq_true_2 by done. cbn [get]. by rewrite !bool_decide_eq_false_2.
  - rewrite bool_decide_eq_false_2 by done. cbn [get]. by rewrite IH.
Qed.
Lemma get_del_eq name d : get name (del name d) = None.
Proof.
  induction d as [|[k x] d IH]; [done|]. unfold del in *. cbn [List.filter fst].
  destruct (bool_decide (k = name)) eqn:E; cbn [negb]; [done|]. cbn [get]. by rewrite E.
Qed.
Lemma get_del_ne name x d : name <> x -> get x (del name d) = get x d.
Proof.
  intros Hne. induction d as [|[k y] d IH]; [done|]. unfold del in *. cbn [List.filter fst get].
  destruct (decide (k = name)) as [->|Hk].
  - rewrite bool_decide_eq_true_2 by done. cbn [negb]. by rewrite bool_decide_eq_false_2.
  - rewrite bool_decide_eq_false_2 by done. cbn [negb get]. by rewrite IH.
Qed.
(** An entry that is not there is made at the end. *)
Lemma set_new name n d : get name d = None -> set name n d = d ++ [(name, n)].
Proof.
  induction d as [|[k x] d IH]; [done|]. cbn [get set app]. destruct (bool_decide (k = name)); [done|]. intros Hd. by rewrite IH.
Qed.
Lemma del_absent name d : get name d = None -> del name d = d.
Proof.
  induction d as [|[k x] d IH]; [done|]. unfold del in *. cbn [get List.filter fst].
  destruct (bool_decide (k = name)); [done|]. intros Hd. cbn [negb]. by rewrite IH.
Qed.
Lemma del_app name d d' : del name (d ++ d') = del name d ++ del name d'.
Proof. apply List.filter_app. Qed.
Lemma set_set name n n' d : set name n (set name n' d) = set name n d.
Proof.
  induction d as [|[k x] d IH]; cbn [set]; [by rewrite bool_decide_eq_true_2|].
  destruct (bool_decide (k = name)) eqn:E; cbn [set]; [by rewrite bool_decide_eq_true_2|by rewrite E, IH].
Qed.

Lemma get_app name d d' : get name (d ++ d') = match get name d with Some n => Some n | None => get name d' end.
Proof. induction d as [|[k x] d IH]; [done|]. cbn [app get]. by destruct (bool_decide (k = name)). Qed.
Lemma get_last name n d : get name d = None -> get name (d ++ [(name, n)]) = Some n.
Proof. intros Hd. rewrite get_app, Hd. cbn [get]. by rewrite bool_decide_eq_true_2. Qed.
Lemma set_last name n n' d : get name d = None -> set name n (d ++ [(name, n')]) = d ++ [(name, n)].
Proof.
  induction d as [|[k x] d IH]; cbn [get set app]; [by rewrite bool_decide_eq_true_2|].
  destruct (bool_decide (k = name)); [done|]. intros Hd. by rewrite IH.
Qed.
Lemma del_last name n d : get name d = None -> del name (d ++ [(name, n)]) = d.
Proof.
  intros Hd. rewrite del_app, (del_absent _ _ Hd). unfold del. cbn [List.filter fst].
  rewrite bool_decide_eq_true_2 by done. apply app_nil_r.
Qed.
Lemma get_mid name n d d' : get name d = None -> get name (d ++ (name, n) :: d') = Some n.
Proof. intros Hd. rewrite get_app, Hd. cbn [get]. by rewrite bool_decide_eq_true_2. Qed.
Lemma set_mid name n n' d d' : get name d = None -> set name n (d ++ (name, n') :: d') = d ++ (name, n) :: d'.
Proof.
  induction d as [|[k x] d IH]; cbn [get set app]; [by rewrite bool_decide_eq_true_2|].
  destruct (bool_decide (k = name)); [done|]. intros Hd. by rewrite IH.
Qed.
Lemma get_None name d : get name d = None <-> name ∉ d.*1.
Proof.
  induction d as [|[k x] d IH]; [split; [intros _; apply not_elem_of_nil|done]|]. cbn [get fmap list_fmap fst].
  rewrite not_elem_of_cons, <- IH. case_bool_decide as Hk; split; try done; naive_solver.
Qed.

(** Agreement on all but some names. *)
Definition elsewhere (names : list string) d d' : Prop := forall x, (x ∉ names) -> get x d' = get x d.

Lemma elsewhere_self names d : elsewhere names d d.
Proof. done. Qed.
Lemma elsewhere_set names name n d d' : name ∈ names -> elsewhere names d d' -> elsewhere names d (set name n d').
Proof. intros Hin He x Hx. rewrite get_set_ne by (by intros ->). by apply He. Qed.
Lemma elsewhere_del names name d d' : name ∈ names -> elsewhere names d d' -> elsewhere names d (del name d').
Proof. intros Hin He x Hx. rewrite get_del_ne by (by intros ->). by apply He. Qed.
End Lists.

(** Calls that leave everything, with a weaker assertion on errors. *)
Lemma triple_sync_to {D} (P R : D -> Prop) :
  (forall d, P d -> R d) -> htriple P sync_all (fun _ => P) R.
Proof. intros HR. apply triple_system; [by intros d d' Hd [= <-]|done|intros n d; apply HR]. Qed.
Lemma triple_pure_to {D A} (r : result Error A) (P R : D -> Prop) :
  (forall d, P d -> R d) -> htriple P (pure r) (fun a d => r = Ok a /\ P d) R.
Proof. intros HR s Hs. unfold pure, lift. destruct r; [done|by apply HR]. Qed.
Lemma triple_read_to {D A} (f : D -> result Error A) (P R : D -> Prop) :
  (forall d, P d -> R d) -> htriple P (read f) (fun a d => f d = Ok a /\ P d) R.
Proof. intros HR s Hs. unfold read, reads. destruct (f (content s)) eqn:Hf; [done|by apply HR]. Qed.

(** ** Success does not depend on the machine

    What succeeds on a machine that fails gives what it gives on one that does not. *)
Section Steady.
Context {D : Type}.

Definition steady {A} (m : prog D A) : Prop :=
  forall s a s', m s = (Ok a, s') -> m (calm (content s)) = (Ok a, calm (content s')).

Lemma steady_ret {A} (a : A) : steady (mret a).
Proof. by intros s a' s' [= <- <-]. Qed.
Lemma steady_bind {A B} (m : prog D A) (k : A -> prog D B) : steady m -> (forall a, steady (k a)) -> steady (m ≫= k).
Proof.
  intros Hm Hk s b s' (a & s1 & Hr & Hr')%run_bind_Ok. rewrite (run_bind _ _ _ _ _ (Hm _ _ _ Hr)). exact (Hk _ _ _ _ Hr').
Qed.
Lemma steady_system torn (call : D -> result Error D) : steady (system torn call : prog D ()).
Proof.
  intros [fs d] [] s' Hr. unfold system in *. cbn [fates content] in *.
  destruct fs as [|[|e n|n] fs]; try done; (destruct (call d) as [d'|]; [|done]); by injection Hr as <-.
Qed.
Lemma steady_sync : steady (sync_all : prog D ()).
Proof. apply steady_system. Qed.
Lemma steady_pure {A} (r : result Error A) : steady (pure r).
Proof. intros s a s'. unfold pure, lift. destruct r; [|done]. by intros [= <- <-]. Qed.
Lemma steady_read {A} (f : D -> result Error A) : steady (read f).
Proof. intros s a s'. unfold read, reads. cbn [content]. destruct (f (content s)); [|done]. by intros [= <- <-]. Qed.
Lemma steady_for {A T} (l : list A) (t : T) (body : A -> T -> prog D T) :
  (forall x t, steady (body x t)) -> steady (op_for l t body).
Proof.
  intros Hb. revert t. induction l as [|x l IH]; intros t; cbn [op_for]; [apply steady_ret|]. by apply steady_bind.
Qed.

(** A state that is known, and what a success leaves of it. *)
Lemma steady_exact {A} (m : prog D A) x a y (Q : A -> D -> Prop) R :
  steady m -> m (calm x) = (Ok a, calm y) -> htriple (fun d => d = x) m Q R ->
  htriple (fun d => d = x) m (fun a' d => a' = a /\ d = y) R.
Proof.
  intros Hst Hm Ht s Hs. specialize (Ht s Hs). destruct (m s) as [[a'|e] s'] eqn:E; [|exact Ht].
  apply Hst in E. unfold holds in Hs. rewrite Hs, Hm in E. injection E as -> ->. done.
Qed.
End Steady.

Lemma steady_zoom {D D' A} (get : D -> D') (set : D' -> D -> D) (m : prog D' A) : steady m -> steady (zoom get set m).
Proof.
  intros Hm s a s'. unfold zoom. cbn [content fates]. destruct (m (Build_Disk (fates s) (get (content s)))) as [r x] eqn:E.
  intros [= -> <-]. apply Hm in E. cbn [content] in E. by rewrite E.
Qed.

Create HintDb steady.
#[export] Hint Resolve steady_ret steady_system steady_sync steady_pure steady_read : steady.

(** Splits a sequence of calls into its calls. *)
Ltac steady_steps :=
  repeat match goal with
  | |- forall _, _ => intros ?
  | |- steady (let _ := _ in _) => cbv zeta
  | |- steady (_ ≫= _) => apply steady_bind
  | |- steady (op_for _ _ _) => apply steady_for
  | |- steady (match ?x with _ => _ end) => destruct x
  | |- steady (zoom _ _ _) => apply steady_zoom
  | |- steady _ => solve [auto with steady]
  end.
Lemma triple_read_at {D A} (f : D -> result Error A) x (R : D -> Prop) :
  R x -> htriple (fun d => d = x) (read f) (fun a d => f x = Ok a /\ d = x) R.
Proof.
  intros HR [fs d] Hd. unfold holds in *. cbn [content] in Hd. subst d. unfold read, reads. cbn [content].
  by destruct (f x) eqn:E.
Qed.

Section Calls.
Context {N : Type} `{TreeNode N, OsErrorText, DirectoryErrorText, NotEmptyText}.
Abbreviation entries := (list (string * N)).
Implicit Types d : entries.

(** What is done to the directory at a path. *)
Fixpoint at_path (path : list string) (f : entries -> result Error entries) d : result Error entries :=
  match path with
  | [] => f d
  | name :: rest =>
      n ← ok_or (get name d) (Io not_found);
      l ← ok_or (as_folder n) (Io not_a_directory);
      l' ← at_path rest f l;
      Ok (set name (folder l') d)
  end.

(** What is at a path. *)
Fixpoint node_at (path : list string) (name : string) d : result Error (option N) :=
  match path with
  | [] => Ok (get name d)
  | dir :: rest =>
      n ← ok_or (get dir d) (Io not_found);
      l ← ok_or (as_folder n) (Io not_a_directory);
      node_at rest name l
  end.

Definition calls_at (path : list string) (f : entries -> result Error entries) : prog entries () :=
  system untorn (at_path path f).

(** [fs::create_dir], and one directory of [fs::create_dir_all]. *)
Definition create_dir (path : list string) (name : string) : prog entries () :=
  calls_at path (fun l => match get name l with None => Ok (set name (folder []) l) | Some _ => Err (Io already_exists) end).
Definition ensure_dir (path : list string) (name : string) : prog entries () :=
  calls_at path (fun l =>
    match get name l with
    | None => Ok (set name (folder []) l)
    | Some n => match as_folder n with Some _ => Ok l | None => Err (Io already_exists) end
    end).

(** A file that is created, written and synced, [file] being the node with these bytes. *)
Definition write_new (file : list Z -> N) (path : list string) (name : string) (bytes : list Z) : prog entries () :=
  _ ← calls_at path (fun l => match get name l with None => Ok (set name (file []) l) | Some _ => Err (Io already_exists) end);
  _ ← system (fun n d => match at_path path (fun l => Ok (set name (file (take n bytes)) l)) d with Ok d' => d' | Err _ => d end)
             (at_path path (fun l => Ok (set name (file bytes) l)));
  sync_all.

Lemma steady_calls path f : steady (calls_at path f).
Proof. apply steady_system. Qed.
Lemma steady_write_new file path name bytes : steady (write_new file path name bytes).
Proof. unfold write_new. apply steady_bind; [apply steady_calls|]. intros _. apply steady_bind; [apply steady_system|]. intros _. apply steady_sync. Qed.

Definition remove_file (path : list string) (name : string) : prog entries () :=
  calls_at path (fun l =>
    match get name l with
    | None => Err (Io not_found)
    | Some n => match as_folder n with Some _ => Err (Io is_a_directory) | None => Ok (del name l) end
    end).
Definition remove_dir (path : list string) (name : string) : prog entries () :=
  calls_at path (fun l =>
    match get name l with
    | None => Err (Io not_found)
    | Some n => match as_folder n with
                | Some [] => Ok (del name l)
                | Some _ => Err (Io not_empty)
                | None => Err (Io not_a_directory)
                end
    end).
(** [fs::remove_dir_all] of a directory; one that breaks leaves some of its entries. *)
Definition remove_dir_all (name : string) : prog entries () :=
  system (fun n d => match get name d ≫= as_folder with Some l => set name (folder (drop n l)) d | None => d end)
    (fun d => match get name d with
              | None => Err (Io not_found)
              | Some n => match as_folder n with Some _ => Ok (del name d) | None => Err (Io not_a_directory) end
              end).
(** [fs::rename] of a directory. *)
Definition rename_dir (from to : string) : prog entries () :=
  system untorn (fun d =>
    node ← ok_or (get from d) (Io not_found);
    match get to d with
    | None => Ok (set to node (del from d))
    | Some n => match as_folder n with
                | Some [] => Ok (set to node (del from d))
                | Some _ => Err (Io not_empty)
                | None => Err (Io not_a_directory)
                end
    end).

(** ** Rules *)

Lemma at_path_cons name rest f d d' : at_path (name :: rest) f d = Ok d' -> exists n, d' = set name n d.
Proof.
  cbn [at_path]. intros Ha. apply bind_Ok in Ha as (n & _ & Ha). apply bind_Ok in Ha as (l & _ & Ha).
  apply bind_Ok in Ha as (l' & _ & [= <-]). by eexists.
Qed.

(** What is done below a name, in a directory that is there. *)
Lemma at_path_below name rest f d l :
  get name d = Some (folder l) -> at_path (name :: rest) f d = (l' ← at_path rest f l; Ok (set name (folder l') d)).
Proof. intros Hn. cbn [at_path]. rewrite Hn. cbn [ok_or mbind result_bind]. by rewrite as_folder_folder. Qed.

(** The node at a path. *)
Fixpoint find (path : list string) d : option N :=
  match path with
  | [] => None
  | [name] => get name d
  | name :: rest =>
      match get name d with
      | Some n => match as_folder n with Some l => find rest l | None => None end
      | None => None
      end
  end.

Lemma find_cons name rest d : rest <> [] -> find (name :: rest) d = (get name d ≫= as_folder) ≫= find rest.
Proof. intros Hr. cbn [find]. destruct rest as [|x rest]; [done|]. destruct (get name d) as [n|]; [|done]. cbn [mbind option_bind]. by destruct (as_folder n). Qed.

(** What a call at a path does to the rest: the files that are not behind the entries it
    changes stay. *)
Lemma at_path_find path f d d' :
  at_path path f d = Ok d' -> exists l l', f l = Ok l' /\
    (forall x, find (path ++ [x]) d = get x l /\ find (path ++ [x]) d' = get x l') /\
    (forall q n, find q d = Some n -> as_folder n = None ->
       (forall x r, q = path ++ x :: r -> get x l' = get x l) -> find q d' = Some n).
Proof.
  revert d d'. induction path as [|p path IH]; intros d d'; cbn [at_path].
  { intros Hf. exists d, d'. split; [done|]. split; [done|]. intros [|x r] n Hq Hn Hs; [done|].
    specialize (Hs x r eq_refl). destruct r; cbn [find] in *; by rewrite Hs. }
  intros Ha. apply bind_Ok in Ha as (n & Hn & Ha). apply bind_Ok in Ha as (m & Hm & Ha).
  apply bind_Ok in Ha as (m' & Ha & Hd). injection Hd as <-. apply ok_or_Ok in Hn, Hm.
  destruct (IH _ _ Ha) as (l & l' & Hf & Hx & Hq). exists l, l'. split; [done|]. split.
  - intros x. cbn [app]. rewrite !find_cons by (by destruct path).
    rewrite Hn, get_set_eq. cbn [mbind option_bind]. rewrite Hm, as_folder_folder. cbn [mbind option_bind]. apply Hx.
  - intros [|x r] n' Hf' Hn' Hs; [done|]. destruct (decide (x = p)) as [->|Hne].
    + destruct r as [|y r]; [cbn [find] in Hf'; congruence|]. rewrite find_cons in * by done.
      rewrite Hn in Hf'. rewrite get_set_eq. cbn [mbind option_bind] in *. rewrite Hm in Hf'. rewrite as_folder_folder.
      cbn [mbind option_bind] in *. apply Hq; [done..|]. intros z t Hz. apply (Hs z t). by rewrite Hz.
    + destruct r as [|y r]; cbn [find] in *; by rewrite get_set_ne.
Qed.

(** A directory that was made last. *)
Lemma at_path_last name rest f a l : get name a = None ->
  at_path (name :: rest) f (a ++ [(name, folder l)]) = (l' ← at_path rest f l; Ok (a ++ [(name, folder l')])).
Proof.
  intros Ha. rewrite (at_path_below _ _ _ _ l) by by rewrite get_last. destruct (at_path rest f l) as [l'|]; [|done].
  cbn [mbind result_bind]. by rewrite set_last.
Qed.

(** Assertions that what is below a name does not matter to. *)
Definition indifferent (name : string) (P : entries -> Prop) : Prop := forall d n, P d -> P (set name n d).

Lemma triple_calls name rest f P : indifferent name P -> htriple P (calls_at (name :: rest) f) (fun _ => P) P.
Proof. intros Ha. apply triple_system; [|done|done]. intros d d' Hd Hc. apply at_path_cons in Hc as [n ->]. by apply Ha. Qed.

(** The files of a list are there. *)
Definition have (files : list (list string * N)) d : Prop :=
  Forall (fun f => find f.1 d = Some f.2 /\ as_folder f.2 = None) files.

Lemma have_at_path path f d d' files : at_path path f d = Ok d' -> have files d ->
  (forall l l' x, f l = Ok l' -> is_Some (get x l) -> get x l' = get x l) -> have files d'.
Proof.
  intros Ha Hh Hf. destruct (at_path_find _ _ _ _ Ha) as (l & l' & Hl & Hx & Hq).
  eapply Forall_impl; [exact Hh|]. intros [q n] [Hqn Hn]. split; [|done]. apply Hq; [done..|].
  cbn [fst snd] in *. intros x r ->. apply (Hf l); [done|]. destruct (Hx x) as [<- _].
  clear -Hqn. revert d Hqn. induction path as [|p path IH]; intros d; cbn [app].
  - destruct r; cbn [find]; [by intros ->|]. by destruct (get x d).
  - rewrite !find_cons by (by destruct path). destruct (get p d ≫= as_folder); [apply IH|done].
Qed.

Lemma triple_ensure name rest x files P : indifferent name P ->
  htriple (fun d => have files d /\ P d) (ensure_dir (name :: rest) x) (fun _ d => have files d /\ P d) P.
Proof.
  intros Ha. apply (triple_system _ _ (fun d => have files d /\ P d) (fun d => have files d /\ P d) P);
    [|intros d Hd; apply Hd|intros ? d Hd; apply Hd]. intros d d' [Hh Hp] Hc. split.
  - eapply have_at_path; [exact Hc|done|]. intros l l' y Hl Hy. cbn beta in Hl. destruct (get x l) as [m|] eqn:E.
    + by destruct (as_folder m); [injection Hl as <-|].
    + injection Hl as <-. apply get_set_ne. intros ->. rewrite E in Hy. by destruct Hy.
  - apply at_path_cons in Hc as [n ->]. by apply Ha.
Qed.

Lemma triple_write_new file name rest x bytes files P :
  (forall b, as_folder (file b) = None) -> indifferent name P ->
  htriple (fun d => have files d /\ P d) (write_new file (name :: rest) x bytes)
    (fun _ d => have ((name :: rest ++ [x], file bytes) :: files) d /\ P d) P.
Proof.
  intros Hfile Ha. unfold write_new.
  eapply (triple_bind _ _ _ (fun _ => holds (fun d =>
    (have files d /\ Forall (fun f => f.1 <> name :: rest ++ [x]) files /\ find (name :: rest ++ [x]) d = Some (file [])) /\ P d))).
  { eapply (triple_system _ _ (fun d => have files d /\ P d) _ P); [|intros d Hd; apply Hd|intros ? d Hd; apply Hd]. intros d d' [Hh Hp] Hc.
    destruct (at_path_find _ _ _ _ Hc) as (l & l' & Hl & Hx & Hq). specialize (Hx x). cbn [app] in Hx. cbn beta in Hl.
    destruct (get x l) eqn:E; [done|]. injection Hl as <-. split; [split_and!|].
    - eapply have_at_path; [exact Hc|done|]. intros m m' y Hm Hy. cbn beta in Hm. destruct (get x m) eqn:Em; [done|]. injection Hm as <-.
      apply get_set_ne. intros ->. rewrite Em in Hy. by destruct Hy.
    - eapply Forall_impl; [exact Hh|]. intros [q n] [Hqn _] Hq'. cbn [fst snd] in *. subst q.
      pose proof (eq_trans (eq_sym Hqn) (proj1 Hx)) as Hno. done.
    - by rewrite (proj2 Hx), get_set_eq.
    - apply at_path_cons in Hc as [n ->]. by apply Ha. }
  intros _. eapply triple_bind; [apply (triple_system _ _ (fun d => (have files d /\ Forall (fun f => f.1 <> name :: rest ++ [x]) files /\ find (name :: rest ++ [x]) d = Some (file [])) /\ P d)
    (fun d => have ((name :: rest ++ [x], file bytes) :: files) d /\ P d) P)|intros ?].
  - intros d d' [(Hh & Hd & Hf) Hp] Hc. destruct (at_path_find _ _ _ _ Hc) as (l & l' & Hl & Hx & Hq).
    specialize (Hx x) as Hxx. cbn [app] in Hxx. injection Hl as <-. split.
    + constructor; [split; [exact (eq_trans (proj2 Hxx) (get_set_eq _ _ _))|apply Hfile]|].
      eapply Forall_impl; [apply Forall_and; exact (conj Hh Hd)|]. intros [q n] [[Hqn Hn] Hne]. split; [|done].
      apply Hq; [done..|]. intros y r Hq'. destruct (decide (x = y)) as [<-|Hxy]; [|by apply get_set_ne].
      cbn [fst snd app] in *. exfalso. subst q. destruct r as [|z r]; [by apply Hne|].
      clear -Hqn Hf Hfile. assert (Hg : forall p e, find (p ++ [x]) e = Some (file []) -> find (p ++ x :: z :: r) e = Some n -> False).
      { induction p as [|y p IHp]; intros e; cbn [app].
        - cbn [find]. intros ->. cbn [mbind option_bind]. by rewrite Hfile.
        - rewrite !find_cons by (by destruct p). destruct (get y e ≫= as_folder); [apply IHp|done]. }
      exact (Hg (name :: rest) d Hf Hqn).
    + apply at_path_cons in Hc as [n ->]. by apply Ha.
  - intros d Hd. apply Hd.
  - intros n d [_ Hd]. destruct (at_path _ _ d) as [d'|] eqn:E; [|done]. apply at_path_cons in E as [m ->]. by apply Ha.
  - refine (htriple_weaken _ _ _ _ _ _ (triple_sync (fun d => have ((name :: rest ++ [x], file bytes) :: files) d /\ P d)) _ _);
      [done|by intros s [_ Hs] ].
Qed.

Lemma triple_write_any file name rest x bytes P :
  (forall b, as_folder (file b) = None) -> indifferent name P ->
  htriple P (write_new file (name :: rest) x bytes) (fun _ => P) P.
Proof.
  intros Hf Hi. eapply htriple_strengthen; [eapply htriple_weaken|].
  - exact (triple_write_new file name rest x bytes [] P Hf Hi).
  - by intros _ d [_ Hd].
  - done.
  - intros d Hd. split; [constructor|done].
Qed.

(** ** Without faults *)

(** A path to a directory in a tree that is otherwise [g]. *)
Definition leads (path : list string) (g : entries -> entries) : Prop :=
  forall f l, at_path path f (g l) = (l' ← f l; Ok (g l')).
Lemma leads_here : leads [] (fun l => l).
Proof. intros f l. cbn [at_path]. by destruct (f l). Qed.
Lemma leads_last name rest a g : get name a = None -> leads rest g ->
  leads (name :: rest) (fun l => a ++ [(name, folder (g l))]).
Proof. intros Ha Hg f l. rewrite at_path_last by done. rewrite Hg. by destruct (f l). Qed.

Lemma leads_mid name rest a b g : get name a = None -> leads rest g ->
  leads (name :: rest) (fun l => a ++ (name, folder (g l)) :: b).
Proof.
  intros Ha Hg f l. rewrite (at_path_below _ _ _ _ (g l)) by by apply get_mid. rewrite Hg.
  destruct (f l); [|done]. cbn [mbind result_bind]. by rewrite set_mid.
Qed.

Lemma calm_calls path g f l l' : leads path g -> f l = Ok l' -> calls_at path f (calm (g l)) = (Ok (), calm (g l')).
Proof. intros Hg Hf. apply calm_system. by rewrite Hg, Hf. Qed.

(** A call that goes through, and one at which the process stops. *)
Lemma goes_calls path g f l l' fs : leads path g -> f l = Ok l' ->
  calls_at path f (Build_Disk (Goes :: fs) (g l)) = (Ok (), Build_Disk fs (g l')).
Proof. intros Hg Hf. unfold calls_at, system. cbn [fates content]. by rewrite Hg, Hf. Qed.
Lemma stops_calls path f d fs n : calls_at path f (Build_Disk (Stops n :: fs) d) = (Err Stopped, Build_Disk fs d).
Proof. done. Qed.

Lemma calm_ensure_new path g x l : leads path g -> get x l = None ->
  ensure_dir path x (calm (g l)) = (Ok (), calm (g (l ++ [(x, folder [])]))).
Proof. intros Hg Hx. apply calm_calls; [done|]. by rewrite Hx, set_new. Qed.
Lemma calm_ensure_there path g x l m : leads path g -> get x l = Some (folder m) ->
  ensure_dir path x (calm (g l)) = (Ok (), calm (g l)).
Proof. intros Hg Hx. apply calm_calls; [done|]. by rewrite Hx, as_folder_folder. Qed.

Lemma calm_write_new file path g x bytes l : leads path g -> get x l = None ->
  write_new file path x bytes (calm (g l)) = (Ok (), calm (g (l ++ [(x, file bytes)]))).
Proof.
  intros Hg Hx. unfold write_new.
  assert (calls_at path (fun l => match get x l with None => Ok (set x (file []) l) | Some _ => Err (Io already_exists) end)
    (calm (g l)) = (Ok (), calm (g (l ++ [(x, file [])])))) as Hc.
  { apply calm_calls; [done|]. by rewrite Hx, set_new. }
  rewrite (run_bind _ _ _ _ _ Hc).
  match goal with |- (?m ≫= _) ?s = _ => assert (m s = (Ok (), calm (g (l ++ [(x, file bytes)])))) as Hw end.
  { apply calm_system. rewrite Hg. cbn [mbind result_bind]. by rewrite set_last. }
  by rewrite (run_bind _ _ _ _ _ Hw).
Qed.

Lemma calm_remove path g x l n : leads path g -> get x l = Some n -> as_folder n = None ->
  remove_file path x (calm (g l)) = (Ok (), calm (g (del x l))).
Proof. intros Hg Hx Hn. apply calm_calls; [done|]. by rewrite Hx, Hn. Qed.
Lemma calm_remove_dir path g x l : leads path g -> get x l = Some (folder []) ->
  remove_dir path x (calm (g l)) = (Ok (), calm (g (del x l))).
Proof. intros Hg Hx. apply calm_calls; [done|]. by rewrite Hx, as_folder_folder. Qed.

Lemma calm_move from to n a : from <> to -> get from a = None -> get to a = None ->
  rename_dir from to (calm (a ++ [(from, n)])) = (Ok (), calm (a ++ [(to, n)])).
Proof.
  intros Hne Hf Ht. apply calm_system. rewrite get_last by done. cbn [ok_or mbind result_bind].
  rewrite get_app, Ht. cbn [get]. rewrite bool_decide_eq_false_2 by done. by rewrite del_last, set_new.
Qed.
End Calls.
