(* ===== verification/Ledger.v ===== *)
(** src/ledger.rs: recoveries kept with the files they were made from, an entry of the
    ledger's directory for each, named by the digest of what it holds.

    An entry is written under a temporary name and moved into place, on a machine that
    fails ([Disk]) with a lock that the value that holds it removes. *)
From S2P Require Import Prelude Effects FileTree External Json Core Model Canonical Text WorkspaceFiles Disk Folders.
From S2P Require Protocol.

#[export] Instance tree_node : TreeNode Node := {|
  folder := Folder;
  as_folder n := match n with Folder l => Some l | _ => None end;
  as_folder_folder _ := eq_refl;
|}.

Module LedgerReceipt.
Record LedgerReceipt := { entry_id : string; path : string; replay : bool }.
End LedgerReceipt.

Module InputDigest.
Record InputDigest := { path : string; sha256 : string; bytes : Z }.
End InputDigest.

Module LedgerManifest.
Record LedgerManifest := {
  version : string;
  entry_id : string;
  outcome_digest : string;
  inputs : list InputDigest.InputDigest;
}.
End LedgerManifest.

Abbreviation LedgerReceipt := LedgerReceipt.LedgerReceipt.
Abbreviation InputDigest := InputDigest.InputDigest.
Abbreviation LedgerManifest := LedgerManifest.LedgerManifest.
Abbreviation inputs_t := (list (string * list Z)).

(** What is found at the path of the ledger, links followed. *)
Inductive Spot := Nothing | Directory (entries : list (string * Node)) | Occupied.

Definition create_dir_all `{OsErrorText} : prog Spot () :=
  system untorn (fun p =>
    match p with Nothing => Ok (Directory []) | Directory _ => Ok p | Occupied => Err (Io already_exists) end).
Definition inside `{OsErrorText, DirectoryErrorText} {A} (m : prog (list (string * Node)) A) : prog Spot A :=
  d ← read (fun p => match p with Directory d => Ok d | Nothing => Err (Io not_found) | Occupied => Err (Io not_a_directory) end);
  zoom (fun _ => d) (fun d _ => Directory d) m.

(** ** The snapshot *)

Section Snapshot.
Context `{OsErrorText, WorkspaceFiles.NotDirectoryText}.

(** The body of the loop of [input_files]: the files so far and their number. *)
Definition input_file (e : string * Node) (st : inputs_t * Z) : result Error (inputs_t * Z) :=
  let '(files, count) := st in
  let count := count + 1 in
  if 10000 <? count then Err (SearchExhausted "ledger fragment snapshot bound exceeded") else
  match e.2 with
  | RegularFile data =>
      if 1048576 <? vec_len data then Err (InvalidEvidence "ledger input is not a bounded regular file") else
      name ← ok_or (from_utf8 (bytes_of_string e.1)) (InvalidEvidence "fragment filename is not valid UTF-8");
      Ok (files ++ [("fragments/" +:+ name, data)], count)
  | _ => Err (InvalidEvidence "ledger input is not a bounded regular file")
  end.
Definition input_files (linked : option (list (string * Node))) (workspace : list (string * Node))
  : result Error inputs_t :=
  registry ← (
    match entry "registry.json" workspace with
    | None => Err (Io not_found)
    | Some (RegularFile data) =>
        if 131072 <? vec_len data then Err (InvalidEvidence "ledger registry snapshot is not a bounded regular file")
        else Ok data
    | Some _ => Err (InvalidEvidence "ledger registry snapshot is not a bounded regular file")
    end);
  listed ← WorkspaceFiles.read_dir linked (entry "fragments" workspace);
  '(files, _) ← for_each listed ([("registry.json", registry)], 0) input_file;
  Ok files.
End Snapshot.

(** What the identity of an entry is the digest of. *)
Definition identity_bytes (outcome : list Z) (inputs : inputs_t) : list Z :=
  bytes_of_string "anasemble-ledger-v1" ++ [0] ++ outcome
  ++ (inputs ≫= fun f => bytes_of_string f.1 ++ [0] ++ f.2).

Section Ledger.
Context `{OsErrorText, DirectoryErrorText, NotEmptyText, LinkTargets, WorkspaceFiles.NotDirectoryText}.
Context `{SerdeErrorText, JsonText, Sha256, Hex, !ToValue Protocol.RecoveryResult, !ToValue LedgerManifest}.

(** What reading [outcome.json] in an entry gives when a link is on the way. *)
Variable through_link : string -> result Error (list Z).
Abbreviation entries := (list (string * Node)).
Implicit Types d : entries.

Definition entry_id (outcome : list Z) (inputs : inputs_t) : string := hex_encode (sha256 (identity_bytes outcome inputs)).
Definition lock_name (id : string) : string := "." +:+ id +:+ ".lock".
Definition temporary_name (id : string) : string := "." +:+ id +:+ ".tmp".

Definition present (name : string) d : bool :=
  match get name d with None => false | Some SymbolicLink => link_exists name | Some _ => true end.

Definition read_outcome (id : string) d : result Error (list Z) :=
  match get id d with
  | None => Err (Io not_found)
  | Some (Folder l) =>
      match get "outcome.json" l with
      | Some (RegularFile bytes) => Ok bytes
      | None => Err (Io not_found)
      | Some (Folder _) => Err (Io is_a_directory)
      | Some _ => through_link id
      end
  | Some SymbolicLink => through_link id
  | Some _ => Err (Io not_a_directory)
  end.
Definition verify_existing (outcome : list Z) (id : string) : prog entries () :=
  read (fun d =>
    stored ← read_outcome id d;
    if negb (bool_decide (stored = outcome))
    then Err (InvalidEvidence "ledger entry identity collides with different content") else Ok ()).

(** [fs::create_dir_all] below a directory. *)
Fixpoint ensure_dirs (base dirs : list string) : prog entries () :=
  match dirs with
  | [] => mret ()
  | dir :: rest => _ ← ensure_dir base dir; ensure_dirs (base ++ [dir]) rest
  end.

Definition input_digests (inputs : inputs_t) : list InputDigest :=
  (fun f => {| InputDigest.path := f.1; InputDigest.sha256 := bytes_digest f.2; InputDigest.bytes := vec_len f.2 |})
    <$> inputs.
Definition ledger_manifest (id : string) (outcome : list Z) (inputs : inputs_t) : LedgerManifest :=
  {| LedgerManifest.version := "ledger-v1"; LedgerManifest.entry_id := id;
     LedgerManifest.outcome_digest := bytes_digest outcome; LedgerManifest.inputs := input_digests inputs |}.

Definition write_input (temporary : string) (f : string * list Z) : prog entries () :=
  let path := "inputs" :: parts f.1 in
  _ ← ensure_dirs [temporary] (removelast path);
  write_new RegularFile (temporary :: removelast path) (List.last path "") f.2.

Definition write_entry (id : string) (outcome : list Z) (inputs : inputs_t) : prog entries () :=
  let temporary := temporary_name id in
  _ ← write_new RegularFile [temporary] "outcome.json" outcome;
  _ ← op_for inputs () (fun f _ => write_input temporary f);
  manifest ← pure (encode (ledger_manifest id outcome inputs));
  _ ← write_new RegularFile [temporary] "manifest.json" manifest;
  _ ← sync_all;
  _ ← rename_dir temporary id;
  sync_all.

(** The part of [persist] that is done under the lock. *)
Definition persist_locked (root id : string) (outcome : list Z) (inputs : inputs_t) : prog entries LedgerReceipt :=
  let receipt replay := {| LedgerReceipt.entry_id := id; LedgerReceipt.path := path_join root id; LedgerReceipt.replay := replay |} in
  found ← read (fun d => Ok (present id d));
  if found : bool then _ ← verify_existing outcome id; mret (receipt true) else
  _ ← create_dir [] (temporary_name id);
  write_result ← attempt (write_entry id outcome inputs);
  _ ← (if write_result is Err _ then ignoring (remove_dir_all (temporary_name id)) else mret ());
  _ ← pure write_result;
  mret (receipt false).

Definition acquire_lock (name : string) : prog entries () :=
  r ← attempt (calls_at [] (fun d =>
        match get name d with None => Ok (set name (RegularFile []) d) | Some _ => Err (Io already_exists) end));
  match r with
  | Ok _ => mret ()
  | Err (Io _) => raise (Io "ledger entry is locked")
  | Err e => raise e
  end.

Definition persist (linked : option entries) (workspace : entries) (root : string) (result : Protocol.RecoveryResult)
  : prog Spot LedgerReceipt :=
  _ ← create_dir_all;
  outcome ← pure (encode result);
  inputs ← pure (input_files linked workspace);
  let inputs := sort_by_key fst inputs in
  let id := entry_id outcome inputs in
  inside (
    found ← read (fun d => Ok (present id d));
    if found : bool then
      _ ← verify_existing outcome id;
      mret {| LedgerReceipt.entry_id := id; LedgerReceipt.path := path_join root id; LedgerReceipt.replay := true |}
    else
    _ ← acquire_lock (lock_name id);
    guarded (persist_locked root id outcome inputs) (Folders.remove_file [] (lock_name id))).
End Ledger.

(** * Properties *)

Section Laws.
Context `{OsErrorText, DirectoryErrorText, NotEmptyText, LinkTargets, WorkspaceFiles.NotDirectoryText}.
Context `{SerdeErrorText, JsonText, Sha256, Hex, !ToValue Protocol.RecoveryResult, !ToValue LedgerManifest}.
Variable through_link : string -> result Error (list Z).
Abbreviation entries := (list (string * Node)).
Implicit Types d : entries.

Lemma lock_not_id id : lock_name id <> id.
Proof. intros He%(f_equal str_len). unfold lock_name in He. rewrite !str_len_app in He. unfold str_len in He. cbn in He. lia. Qed.
Lemma temporary_not_id id : temporary_name id <> id.
Proof. intros He%(f_equal str_len). unfold temporary_name in He. rewrite !str_len_app in He. unfold str_len in He. cbn in He. lia. Qed.
Lemma lock_not_temporary id : lock_name id <> temporary_name id.
Proof. intros He%(f_equal str_len). unfold lock_name, temporary_name in He. rewrite !str_len_app in He. unfold str_len in He. cbn in He. lia. Qed.

(** ** What is written *)

Lemma triple_ensure_dirs t base dirs files P : indifferent t P ->
  htriple (fun d => have files d /\ P d) (ensure_dirs (t :: base) dirs) (fun _ d => have files d /\ P d) P.
Proof.
  intros Ha. revert base. induction dirs as [|x dirs IH]; intros base; cbn [ensure_dirs].
  - eapply htriple_weaken; [apply (htriple_ret () (fun _ d => have files d /\ P d) P)|done|done].
  - eapply triple_bind; [by apply triple_ensure|]. intros ?. apply (IH (base ++ [x])).
Qed.

Definition input_path (f : string * list Z) : list string * Node := ("inputs" :: parts f.1, RegularFile f.2).
Definition below (t : string) (files : list (list string * Node)) : list (list string * Node) := prod_map (cons t) id <$> files.

Lemma triple_write_input t f files P : indifferent t P ->
  htriple (fun d => have files d /\ P d) (write_input t f)
    (fun _ d => have (prod_map (cons t) id (input_path f) :: files) d /\ P d) P.
Proof.
  intros Ha. unfold write_input. eapply triple_bind; [by apply triple_ensure_dirs|]. intros ?.
  assert (removelast ("inputs" :: parts f.1) ++ [List.last ("inputs" :: parts f.1) ""] = "inputs" :: parts f.1) as Hp
    by (symmetry; by apply List.app_removelast_last).
  eapply htriple_weaken; [by apply triple_write_new|intros ? d; cbn beta; by rewrite Hp|done].
Qed.

(** The files of an entry. *)
Definition entry_files (id : string) (outcome : list Z) (inputs : inputs_t) (manifest : list Z) : list (list string * Node) :=
  (["manifest.json"], RegularFile manifest) :: rev (input_path <$> inputs) ++ [(["outcome.json"], RegularFile outcome)].
Definition whole (id : string) (outcome : list Z) (inputs : inputs_t) d : Prop :=
  exists manifest, encode (ledger_manifest id outcome inputs) = Ok manifest /\
    have (below id (entry_files id outcome inputs manifest)) d.

Lemma have_moved from to files d d' node : from <> to -> Forall (fun f => f.1 <> []) files ->
  have (below from files) d -> get from d = Some node -> d' = set to node (del from d) -> have (below to files) d'.
Proof.
  intros Hne Hpaths Hh Hn ->. unfold below, have in *. rewrite Forall_fmap in *.
  eapply Forall_impl; [apply Forall_and; exact (conj Hh Hpaths)|]. intros [q n] [[Hq Hf] Hq0]. split; [|done].
  cbn [prod_map fst snd compose] in *. rewrite find_cons in * by done. by rewrite get_set_eq, <- Hn.
Qed.

Lemma have_same id files d d' : get id d' = get id d -> have (below id files) d -> have (below id files) d'.
Proof.
  intros Hg. unfold below, have. rewrite !Forall_fmap. intros Hh. eapply Forall_impl; [exact Hh|]. intros [q n] [Hq Hf]. split; [|done].
  cbn [prod_map fst snd compose] in *. destruct q; cbn [find] in *; by rewrite Hg.
Qed.

Lemma entry_paths id outcome inputs manifest : Forall (fun f => f.1 <> []) (entry_files id outcome inputs manifest).
Proof.
  constructor; [done|]. apply Forall_app. split; [|by constructor]. apply Forall_rev, Forall_fmap. by induction inputs; constructor.
Qed.

(** ** Crashes *)

(** The entry is as it was, or it has been made; all else is as it was. *)
Section Crash.
Variables (d0 : entries) (id : string) (outcome : list Z) (inputs : inputs_t).
Definition untouched d : Prop := elsewhere [lock_name id; temporary_name id] d0 d.
Definition recorded d : Prop :=
  elsewhere [lock_name id; temporary_name id; id] d0 d /\ get id d0 = None /\ whole id outcome inputs d.
Definition settled d : Prop := untouched d \/ recorded d.

Lemma untouched_id d : untouched d -> get id d = get id d0.
Proof.
  intros Hu. apply Hu. rewrite !not_elem_of_cons. split_and!; [..|apply not_elem_of_nil];
    apply not_eq_sym; [apply lock_not_id|apply temporary_not_id].
Qed.
Lemma untouched_temporary : indifferent (temporary_name id) untouched.
Proof. intros d n Hd. apply elsewhere_set; [set_solver|done]. Qed.
Lemma untouched_del name d : name ∈ [lock_name id; temporary_name id] -> untouched d -> untouched (del name d).
Proof. apply elsewhere_del. Qed.
Lemma settled_del name d : name ∈ [lock_name id; temporary_name id] ->
  (untouched d -> untouched (del name d)) /\ (recorded d -> recorded (del name d)).
Proof.
  intros Hin. split; [by apply untouched_del|]. intros (He & Hn & m & Hm & Hw). split_and!; [|done|].
  - apply elsewhere_del; [set_solver|done].
  - exists m. split; [done|]. eapply have_same; [|done]. apply get_del_ne. intros ->.
    pose proof (lock_not_id id). pose proof (temporary_not_id id). set_solver.
Qed.

Lemma triple_release name P : (forall d, P d -> P (del name d)) -> htriple P (Folders.remove_file [] name) (fun _ => P) P.
Proof.
  intros HP. apply triple_system; [|done|done]. intros d d' Hd Hc. cbn [at_path] in Hc.
  destruct (get name d) as [n|]; [|done]. destruct (as_folder n); [done|]. injection Hc as <-. by apply HP.
Qed.

Definition written (files : list (list string * Node)) d : Prop := have (below (temporary_name id) files) d /\ untouched d.

Lemma written_untouched files {A} (m : prog entries A) (Q : A -> entries -> Prop) :
  htriple (written files) m Q untouched -> htriple (written files) m Q settled.
Proof. intros Hm. eapply htriple_weaken; [exact Hm|done|by left]. Qed.

Lemma written_file files rest x bytes :
  htriple (written files) (write_new RegularFile (temporary_name id :: rest) x bytes)
    (fun _ => written ((rest ++ [x], RegularFile bytes) :: files)) settled.
Proof. 
  apply written_untouched.
  exact (triple_write_new RegularFile (temporary_name id) rest x bytes (below _ files) _ (fun _ => eq_refl) untouched_temporary).
 Qed.

Lemma written_input files f :
  htriple (written files) (write_input (temporary_name id) f) (fun _ => written (input_path f :: files)) settled.
Proof. apply written_untouched. exact (triple_write_input (temporary_name id) f (below _ files) _ untouched_temporary). Qed.

Lemma triple_write_entry : get id d0 = None \/ get id d0 = Some SymbolicLink ->
  htriple untouched (write_entry id outcome inputs) (fun _ => recorded) settled.
Proof.
  intros Hid. unfold write_entry. eapply triple_bind.
  { eapply htriple_strengthen; [apply (written_file [] [])|]. intros d Hd. split; [constructor|done]. }
  intros ?. eapply triple_bind.
  { change ([([] ++ ["outcome.json"], RegularFile outcome)]) with (rev (input_path <$> []) ++ [(["outcome.json"], RegularFile outcome)]).
    apply (triple_for inputs () (fun f _ => write_input (temporary_name id) f)
      (fun pre _ => holds (written (rev (input_path <$> pre) ++ [(["outcome.json"], RegularFile outcome)])))).
    intros pre f post [] _. rewrite fmap_app, rev_app_distr. apply written_input. }
  intros ?. eapply triple_bind; [apply triple_pure_to; intros d Hd; left; apply Hd|].
  intros manifest. apply triple_pre. intros Hm. eapply triple_bind; [apply written_file|].
  intros ?. eapply triple_bind; [apply triple_sync_to; intros d Hd; left; apply Hd|].
  intros ?. eapply (triple_bind _ _ _ (fun _ => holds recorded)); [|intros ?; apply triple_sync_to; by right].
  apply triple_system; [|intros d Hd; left; apply Hd|intros ? d Hd; left; apply Hd].
  intros d d' [Hh Hu] Hc. apply bind_Ok in Hc as (node & Hn & Hc). apply ok_or_Ok in Hn.
  rewrite (untouched_id _ Hu) in Hc. destruct Hid as [Hid|Hid]; rewrite Hid in Hc; [|done]. injection Hc as <-.
  split_and!; [|done|].
  - apply elsewhere_set; [set_solver|]. apply elsewhere_del; [set_solver|]. intros x Hx. apply Hu. set_solver.
  - exists manifest. split; [done|]. eapply (have_moved _ _ _ d _ node); [apply temporary_not_id|apply entry_paths|exact Hh|done..].
Qed.

Lemma settled_same d d' : settled d -> (forall x, (x ∉ [lock_name id; temporary_name id]) -> get x d' = get x d) -> settled d'.
Proof.
  intros Hs He. destruct (conj (lock_not_id id) (temporary_not_id id)) as [Hl Ht].
  destruct Hs as [Hu|(Hu & Hn & m & Hm & Hw)]; [left|right].
  - intros x Hx. rewrite He by done. by apply Hu.
  - split_and!; [|done|].
    + intros x Hx. rewrite He by set_solver. by apply Hu.
    + exists m. split; [done|]. eapply have_same; [|done]. apply He. set_solver.
Qed.

Lemma triple_cleanup : htriple settled (ignoring (remove_dir_all (temporary_name id))) (fun _ => settled) settled.
Proof.
  apply triple_ignoring, triple_system; [|done|].
  - intros d d' Hd Hc. destruct (get (temporary_name id) d) as [n|]; [|done]. destruct (as_folder n); [|done]. injection Hc as <-.
    eapply settled_same; [done|]. intros x Hx. apply get_del_ne. set_solver.
  - intros n d Hd. destruct (get (temporary_name id) d ≫= as_folder); [|done].
    eapply settled_same; [done|]. intros x Hx. apply get_set_ne. set_solver.
Qed.

(** What a receipt says. *)
Definition receipted (receipt : LedgerReceipt) d : Prop :=
  if LedgerReceipt.replay receipt then untouched d /\ read_outcome through_link id d0 = Ok outcome else recorded d.
Lemma receipted_settled receipt d : receipted receipt d -> settled d.
Proof. unfold receipted. destruct (LedgerReceipt.replay receipt); [intros [Hu _]; by left|by right]. Qed.

Lemma triple_verify root :
  htriple untouched (_ ← verify_existing through_link outcome id;
    mret {| LedgerReceipt.entry_id := id; LedgerReceipt.path := path_join root id; LedgerReceipt.replay := true |})
    receipted settled.
Proof.
  eapply triple_bind; [apply triple_read_to; intros d Hd; left; exact Hd|].
  intros ? s [Hv Hs]. apply bind_Ok in Hv as (stored & Hr & Hv).
  destruct (bool_decide (stored = outcome)) eqn:E; [|done]. apply bool_decide_eq_true in E. subst stored.
  split; [exact Hs|]. unfold read_outcome in *. by rewrite (untouched_id _ Hs) in Hr.
Qed.

Lemma not_present d : untouched d -> present id d = false -> get id d0 = None \/ get id d0 = Some SymbolicLink.
Proof.
  intros Hu. unfold present. rewrite (untouched_id _ Hu). destruct (get id d0) as [[]|]; try done; [by right|by left].
Qed.

Lemma triple_persist_locked root :
  htriple untouched (persist_locked through_link root id outcome inputs) receipted settled.
Proof.
  unfold persist_locked. eapply triple_bind; [apply triple_read_to; intros d Hd; left; exact Hd|].
  intros [] s [[= Hp] Hs]; [by apply triple_verify|]. pose proof (not_present _ Hs Hp) as Hid. clear Hp. revert s Hs.
  change (htriple untouched (_ ← create_dir [] (temporary_name id); write_result ← attempt (write_entry id outcome inputs);
    _ ← (if write_result is Err _ then ignoring (remove_dir_all (temporary_name id)) else mret ());
    _ ← pure write_result;
    mret {| LedgerReceipt.entry_id := id; LedgerReceipt.path := path_join root id; LedgerReceipt.replay := false |}) receipted settled).
  eapply (triple_bind _ _ _ (fun _ => holds untouched)).
  { apply triple_system; [|by left|by left]. intros d d' Hd Hc. cbn [at_path] in Hc. destruct (get _ d); [done|].
    injection Hc as <-. by apply untouched_temporary. }
  intros ?. eapply triple_bind; [apply triple_attempt, triple_write_entry, Hid|]. intros [u|e].
  - intros s Hs. exact Hs.
  - eapply triple_bind; [apply triple_cleanup|]. intros ? s Hs. exact Hs.
Qed.

Lemma triple_persist_entry root :
  htriple untouched (found ← read (fun d => Ok (present id d));
    if found : bool then
      _ ← verify_existing through_link outcome id;
      mret {| LedgerReceipt.entry_id := id; LedgerReceipt.path := path_join root id; LedgerReceipt.replay := true |}
    else
    _ ← acquire_lock (lock_name id);
    guarded (persist_locked through_link root id outcome inputs) (Folders.remove_file [] (lock_name id))) receipted settled.
Proof.
  eapply triple_bind; [apply triple_read_to; intros d Hd; left; exact Hd|].
  intros [] s [_ Hs]; [by apply triple_verify|]. revert s Hs. eapply (triple_bind _ _ _ (fun _ => holds untouched)).
  { eapply (triple_bind _ _ _ (fun _ => holds untouched)).
    - eapply htriple_weaken; [apply (triple_attempt _ untouched (fun _ => untouched) untouched)|intros [] d Hd; exact Hd|by left].
      apply triple_system; [|done|done]. intros d d' Hd Hc. cbn [at_path] in Hc. destruct (get _ d); [done|]. injection Hc as <-.
      apply elsewhere_set; [set_solver|done].
    - intros [u|[] ] s Hs; first [exact Hs|left; exact Hs]. }
  intros ?. apply triple_guarded; [apply triple_persist_locked| |apply triple_release|apply receipted_settled].
  - intros receipt. apply triple_release. unfold receipted. intros d Hd. assert (lock_name id ∈ [lock_name id; temporary_name id]) by set_solver.
    destruct (LedgerReceipt.replay receipt); [destruct Hd; split; [by apply untouched_del|done]|by apply settled_del].
  - intros d Hd. eapply settled_same; [done|]. intros x Hx. apply get_del_ne. set_solver.
Qed.
End Crash.

(** ** Without faults *)

Definition files_in (frags : inputs_t) : entries := prod_map id RegularFile <$> frags.
Definition fragment_inputs (frags : inputs_t) : inputs_t := prod_map (String.append "fragments/") id <$> frags.

(** The tree of an entry whose fragments are these. *)
Definition inputs_tree (frags : inputs_t) : entries := if frags is [] then [] else [("fragments", Folder (files_in frags))].
Definition written_tree (outcome : list Z) (frags : inputs_t) : entries :=
  ("outcome.json", RegularFile outcome) :: (if frags is [] then [] else [("inputs", Folder (inputs_tree frags))]).
Definition entry_tree (outcome manifest registry : list Z) (frags : inputs_t) : Node :=
  Folder [("outcome.json", RegularFile outcome);
          ("inputs", Folder (inputs_tree frags ++ [("registry.json", RegularFile registry)]));
          ("manifest.json", RegularFile manifest)].

(** A name without a slash. *)
Definition plain_name (name : string) : Prop := parts name = [name].

Lemma parts_fragment name : plain_name name -> parts ("fragments/" +:+ name) = ["fragments"; name].
Proof. intros Hp. change ("fragments/" +:+ name) with ("fragments" +:+ "/" +:+ name). by rewrite parts_join, Hp. Qed.

Lemma get_files x frags : x ∉ frags.*1 -> get x (files_in frags) = None.
Proof. intros Hx. apply get_None. unfold files_in. by rewrite <- list_fmap_compose. Qed.

Section Writing.
Variables (a : entries) (t : string) (outcome : list Z).
Hypothesis Ha : get t a = None.

Lemma leads_entry : leads [t] (fun l => a ++ [(t, Folder l)]).
Proof. exact (leads_last t [] a _ Ha leads_here). Qed.
Lemma leads_inputs : leads [t; "inputs"] (fun l => a ++ [(t, Folder [("outcome.json", RegularFile outcome); ("inputs", Folder l)])]).
Proof. exact (leads_last t ["inputs"] a _ Ha (leads_last "inputs" [] [("outcome.json", RegularFile outcome)] _ eq_refl leads_here)). Qed.
Lemma leads_fragments : leads [t; "inputs"; "fragments"]
  (fun l => a ++ [(t, Folder [("outcome.json", RegularFile outcome); ("inputs", Folder [("fragments", Folder l)])])]).
Proof.
  exact (leads_last t ["inputs"; "fragments"] a _ Ha (leads_last "inputs" ["fragments"] [("outcome.json", RegularFile outcome)] _ eq_refl
    (leads_last "fragments" [] [] _ eq_refl leads_here))).
Qed.

Lemma calm_ensure_inputs frags :
  ensure_dir [t] "inputs" (calm (a ++ [(t, Folder (written_tree outcome frags))]))
  = (Ok (), calm (a ++ [(t, Folder [("outcome.json", RegularFile outcome); ("inputs", Folder (inputs_tree frags))])])).
Proof.
  destruct frags as [|f frags]; [by apply (calm_ensure_new [t] _ "inputs" [_] leads_entry)|].
  by apply (calm_ensure_there [t] _ "inputs" [_; _] (inputs_tree (f :: frags)) leads_entry).
Qed.
Lemma calm_ensure_fragments frags :
  ensure_dir [t; "inputs"] "fragments"
    (calm (a ++ [(t, Folder [("outcome.json", RegularFile outcome); ("inputs", Folder (inputs_tree frags))])]))
  = (Ok (), calm (a ++ [(t, Folder [("outcome.json", RegularFile outcome); ("inputs", Folder [("fragments", Folder (files_in frags))])])])).
Proof.
  destruct frags as [|f frags]; [by apply (calm_ensure_new _ _ "fragments" [] leads_inputs)|].
  by apply (calm_ensure_there _ _ "fragments" [_] (files_in (f :: frags)) leads_inputs).
Qed.

Lemma calm_write_fragment frags name data : plain_name name -> name ∉ frags.*1 ->
  write_input t ("fragments/" +:+ name, data) (calm (a ++ [(t, Folder (written_tree outcome frags))]))
  = (Ok (), calm (a ++ [(t, Folder (written_tree outcome (frags ++ [(name, data)])))])).
Proof.
  intros Hp Hn. unfold write_input. cbn [fst snd]. rewrite parts_fragment by done. cbn [removelast List.last ensure_dirs app].
  assert ((_ ← ensure_dir [t] "inputs"; _ ← ensure_dir [t; "inputs"] "fragments"; mret () : prog entries ())
      (calm (a ++ [(t, Folder (written_tree outcome frags))]))
    = (Ok (), calm (a ++ [(t, Folder [("outcome.json", RegularFile outcome); ("inputs", Folder [("fragments", Folder (files_in frags))])])]))) as Hd.
  { rewrite (run_bind _ _ _ _ _ (calm_ensure_inputs frags)). by rewrite (run_bind _ _ _ _ _ (calm_ensure_fragments frags)). }
  rewrite (run_bind _ _ _ _ _ Hd).
  rewrite (calm_write_new RegularFile _ _ name data (files_in frags) leads_fragments) by by apply get_files.
  unfold written_tree, inputs_tree, files_in. rewrite fmap_app. by destruct frags.
Qed.

Lemma calm_write_registry frags registry :
  write_input t ("registry.json", registry) (calm (a ++ [(t, Folder (written_tree outcome frags))]))
  = (Ok (), calm (a ++ [(t, Folder [("outcome.json", RegularFile outcome);
                                    ("inputs", Folder (inputs_tree frags ++ [("registry.json", RegularFile registry)]))])])).
Proof.
  unfold write_input. cbn [fst snd]. change (parts "registry.json") with ["registry.json"]. cbn [removelast List.last ensure_dirs app].
  assert ((_ ← ensure_dir [t] "inputs"; mret () : prog entries ()) (calm (a ++ [(t, Folder (written_tree outcome frags))]))
    = (Ok (), calm (a ++ [(t, Folder [("outcome.json", RegularFile outcome); ("inputs", Folder (inputs_tree frags))])]))) as Hd
    by by rewrite (run_bind _ _ _ _ _ (calm_ensure_inputs frags)).
  rewrite (run_bind _ _ _ _ _ Hd).
  rewrite (calm_write_new RegularFile _ _ "registry.json" registry (inputs_tree frags) leads_inputs); [done|by destruct frags].
Qed.

(** The inputs, in the order they are written. *)
Lemma calm_write_inputs todo frags registry : Forall plain_name (todo.*1) -> NoDup ((frags ++ todo).*1) ->
  op_for (fragment_inputs todo ++ [("registry.json", registry)]) () (fun f _ => write_input t f)
    (calm (a ++ [(t, Folder (written_tree outcome frags))]))
  = (Ok (), calm (a ++ [(t, Folder [("outcome.json", RegularFile outcome);
       ("inputs", Folder (inputs_tree (frags ++ todo) ++ [("registry.json", RegularFile registry)]))])])).
Proof.
  revert frags. induction todo as [|[name data] todo IH]; intros frags Hp Hd.
  - cbn [fragment_inputs fmap list_fmap app op_for]. rewrite (run_bind _ _ _ _ _ (calm_write_registry frags registry)). by rewrite app_nil_r.
  - inversion_clear Hp as [|?? Hname Hp']. cbn [fst] in Hname.
    rewrite fmap_app in Hd. pose proof Hd as (_ & Hnew & _)%NoDup_app.
    change (fragment_inputs ((name, data) :: todo)) with (("fragments/" +:+ name, data) :: fragment_inputs todo). cbn [app op_for].
    rewrite (run_bind _ _ _ _ _ (calm_write_fragment frags name data Hname (fun Hin => Hnew _ Hin (list_elem_of_here _ _)))).
    rewrite (IH (frags ++ [(name, data)]) Hp'); [by rewrite <- app_assoc|]. by rewrite <- app_assoc, fmap_app.
Qed.
End Writing.

(** ** The snapshot, sorted *)

Lemma input_files_shape linked workspace files : input_files linked workspace = Ok files ->
  exists registry frags listed, files = ("registry.json", registry) :: fragment_inputs frags /\
    WorkspaceFiles.read_dir linked (entry "fragments" workspace) = Ok listed /\ files_in frags = listed.
Proof.
  unfold input_files. intros Hf. apply bind_Ok in Hf as (registry & _ & Hf). apply bind_Ok in Hf as (listed & Hl & Hf).
  apply bind_Ok in Hf as ([files' n] & Hf & [= <-]). exists registry.
  cut (exists frags, files' = ("registry.json", registry) :: fragment_inputs frags /\ files_in frags = listed).
  { intros (frags & ? & ?). by exists frags, listed. }
  refine (for_each_inv (fun pre st => exists frags, st.1 = ("registry.json", registry) :: fragment_inputs frags /\ files_in frags = pre)
    input_file listed _ (files', n) Hf _ _); [by exists []|].
  intros pre [name node] post [fs c] [fs' c'] -> (frags & Hfs & Hpre) Hb. cbn [fst] in *. unfold input_file in Hb. cbn [snd fst] in Hb.
  destruct (10000 <? c + 1); [done|]. destruct node as [data| | |]; try done. destruct (1048576 <? vec_len data); [done|].
  apply bind_Ok in Hb as (name' & Hn%ok_or_Ok & [= <- _]). unfold from_utf8 in Hn. destruct (utf8_valid _); [|done].
  rewrite string_of_bytes_of_string in Hn. injection Hn as <-. exists (frags ++ [(name, data)]).
  unfold fragment_inputs, files_in in *. by rewrite !fmap_app, Hfs, Hpre.
Qed.

Lemma sorted_inputs registry frags : exists frags',
  sort_by_key fst (("registry.json", registry) :: fragment_inputs frags) = fragment_inputs frags' ++ [("registry.json", registry)] /\
  frags' ≡ₚ frags.
Proof.
  pose proof (sort_by_key_perm fst (fragment_inputs frags)) as Hp.
  apply Permutation_map_inv in Hp as (frags' & Hs & Hp). exists frags'. split; [|by symmetry].
  change (sort_by_key fst (?x :: ?l)) with (sort_insert fst x (sort_by_key fst l)). rewrite Hs.
  change (List.map _ frags') with (fragment_inputs frags'). clear. induction frags' as [|f frags' IH]; [done|].
  change (sort_insert fst ("registry.json", registry) (fragment_inputs (f :: frags')))
    with (prod_map (String.append "fragments/") id f :: sort_insert fst ("registry.json", registry) (fragment_inputs frags')).
  by rewrite IH.
Qed.

(** ** A whole run *)

Section Run.
Variables (d0 : entries) (root id : string) (outcome registry manifest : list Z) (frags : inputs_t).
Abbreviation inputs := (fragment_inputs frags ++ [("registry.json", registry)]).
Abbreviation tree := (entry_tree outcome manifest registry frags).
Hypothesis Hid : get id d0 = None.
Hypothesis Hmanifest : encode (ledger_manifest id outcome inputs) = Ok manifest.

Lemma calm_write_entry a : get (temporary_name id) a = None -> get id a = None ->
  Forall plain_name (frags.*1) -> NoDup (frags.*1) ->
  write_entry id outcome inputs (calm (a ++ [(temporary_name id, Folder [])])) = (Ok (), calm (a ++ [(id, tree)])).
Proof.
  intros Ht Ha Hp Hd. unfold write_entry.
  rewrite (run_bind _ _ _ _ _ (calm_write_new RegularFile _ _ "outcome.json" outcome [] (leads_entry a _ Ht) eq_refl)).
  rewrite (run_bind _ _ _ _ _ (calm_write_inputs a _ outcome Ht frags [] registry Hp Hd)).
  rewrite (run_bind _ _ _ _ _ (run_pure _ manifest _ Hmanifest)).
  rewrite (run_bind _ _ _ _ _ (calm_write_new RegularFile _ _ "manifest.json" manifest
    [("outcome.json", RegularFile outcome); ("inputs", Folder (inputs_tree frags ++ [("registry.json", RegularFile registry)]))] (leads_entry a _ Ht) eq_refl)).
  rewrite (run_bind _ _ _ _ _ (calm_sync _)).
  rewrite (run_bind _ _ _ _ _ (calm_move _ _ _ a (temporary_not_id id) Ht Ha)). apply calm_sync.
Qed.

Lemma calm_persist_locked a : get (temporary_name id) a = None -> get id a = None ->
  Forall plain_name (frags.*1) -> NoDup (frags.*1) ->
  persist_locked through_link root id outcome inputs (calm a)
  = (Ok {| LedgerReceipt.entry_id := id; LedgerReceipt.path := path_join root id; LedgerReceipt.replay := false |},
     calm (a ++ [(id, tree)])).
Proof.
  intros Ht Ha Hp Hd. unfold persist_locked.
  assert (present id a = false) as Hn by (unfold present; by rewrite Ha).
  rewrite (run_bind _ _ _ _ _ (run_read _ false (calm a) (f_equal Ok Hn))). cbn iota.
  assert (create_dir [] (temporary_name id) (calm a) = (Ok (), calm (a ++ [(temporary_name id, Folder [])]))) as Hc.
  { apply (calm_calls [] (fun l => l)); [apply leads_here|]. by rewrite Ht, set_new. }
  rewrite (run_bind _ _ _ _ _ Hc).
  rewrite (run_bind _ _ _ _ _ (calm_attempt _ _ (Ok ()) _ (calm_write_entry a Ht Ha Hp Hd))). done.
Qed.

Lemma calm_persist_entry : get (temporary_name id) d0 = None -> get (lock_name id) d0 = None ->
  Forall plain_name (frags.*1) -> NoDup (frags.*1) ->
  (found ← read (fun d => Ok (present id d));
    if found : bool then
      _ ← verify_existing through_link outcome id;
      mret {| LedgerReceipt.entry_id := id; LedgerReceipt.path := path_join root id; LedgerReceipt.replay := true |}
    else
    _ ← acquire_lock (lock_name id);
    guarded (persist_locked through_link root id outcome inputs) (Folders.remove_file [] (lock_name id))) (calm d0)
  = (Ok {| LedgerReceipt.entry_id := id; LedgerReceipt.path := path_join root id; LedgerReceipt.replay := false |},
     calm (d0 ++ [(id, tree)])).
Proof.
  intros Ht Hl Hp Hd. assert (present id d0 = false) as Hn by (unfold present; by rewrite Hid).
  rewrite (run_bind _ _ _ _ _ (run_read _ false (calm d0) (f_equal Ok Hn))). cbn iota.
  assert (acquire_lock (lock_name id) (calm d0) = (Ok (), calm (d0 ++ [(lock_name id, RegularFile [])]))) as Ha.
  { unfold acquire_lock. match goal with |- (attempt ?m ≫= _) _ = _ =>
      assert (m (calm d0) = (Ok (), calm (d0 ++ [(lock_name id, RegularFile [])]))) as Hm end.
    { apply (calm_calls [] (fun l => l)); [apply leads_here|]. by rewrite Hl, set_new. }
    by rewrite (run_bind _ _ _ _ _ (calm_attempt _ _ (Ok ()) _ Hm)). }
  rewrite (run_bind _ _ _ _ _ Ha).
  pose proof (lock_not_id id) as Hni. pose proof (lock_not_temporary id) as Hnt.
  assert (forall x n, x <> lock_name id -> get x d0 = None -> get x (d0 ++ [(lock_name id, n)]) = None) as Hget.
  { intros x n Hx Hn'. rewrite get_app, Hn'. cbn [get]. by rewrite bool_decide_eq_false_2. }
  eapply (calm_guarded _ _ _ (Ok _)); [apply calm_persist_locked; [by apply Hget|by apply Hget|done|done]|].
  apply (calm_calls [] (fun l => l)); [apply leads_here|].
  rewrite get_app, (get_last _ _ _ Hl). cbn [as_folder tree_node]. rewrite del_app, del_last by done.
  unfold del. cbn [List.filter fst]. by rewrite bool_decide_eq_false_2.
Qed.

(** An entry that is there, with this outcome. *)
Lemma replay_entry d l (rest : prog entries LedgerReceipt) : get id d = Some (Folder l) -> get "outcome.json" l = Some (RegularFile outcome) ->
  (found ← read (fun d => Ok (present id d));
    if found : bool then
      _ ← verify_existing through_link outcome id;
      mret {| LedgerReceipt.entry_id := id; LedgerReceipt.path := path_join root id; LedgerReceipt.replay := true |}
    else rest) (calm d)
  = (Ok {| LedgerReceipt.entry_id := id; LedgerReceipt.path := path_join root id; LedgerReceipt.replay := true |}, calm d).
Proof.
  intros Hd Ho. assert (present id d = true) as Hn by (unfold present; by rewrite Hd).
  rewrite (run_bind _ _ _ _ _ (run_read _ true (calm d) (f_equal Ok Hn))). cbn iota.
  assert (verify_existing through_link outcome id (calm d) = (Ok (), calm d)) as Hv.
  { apply run_read. cbn [content]. unfold read_outcome. rewrite Hd, Ho. cbn [mbind result_bind]. by rewrite bool_decide_eq_true_2. }
  by rewrite (run_bind _ _ _ _ _ Hv).
Qed.
End Run.

Lemma run_entered {A} (m : prog entries A) fs d :
  inside m (Build_Disk fs (Directory d)) = ((m (Build_Disk fs d)).1, Build_Disk (fates (m (Build_Disk fs d)).2) (Directory (content (m (Build_Disk fs d)).2))).
Proof. unfold inside, mbind, op_bind, read, reads, zoom. simpl. by destruct (m (Build_Disk fs d)). Qed.

Section Persist.
Variables (result : Protocol.RecoveryResult) (outcome : list Z) (linked : option entries) (workspace : entries) (files : inputs_t).
Hypothesis Houtcome : encode result = Ok outcome.
Hypothesis Hfiles : input_files linked workspace = Ok files.
Abbreviation id := (entry_id outcome (sort_by_key fst files)).

(** The ledger at a path, made when it is not there. *)
Definition opens_as (p : Spot) d : Prop := p = Directory d \/ (p = Nothing /\ d = []).

Lemma run_persist root fs p d0 : opens_as p d0 ->
  let body := (found ← read (fun d => Ok (present id d));
    if found : bool then
      _ ← verify_existing through_link outcome id;
      mret {| LedgerReceipt.entry_id := id; LedgerReceipt.path := path_join root id; LedgerReceipt.replay := true |}
    else
    _ ← acquire_lock (lock_name id);
    guarded (persist_locked through_link root id outcome (sort_by_key fst files)) (Folders.remove_file [] (lock_name id))) in
  persist through_link linked workspace root result (Build_Disk fs p) =
  match create_dir_all (Build_Disk fs p) with
  | (Ok _, s) => ((body (Build_Disk (fates s) d0)).1, Build_Disk (fates (body (Build_Disk (fates s) d0)).2) (Directory (content (body (Build_Disk (fates s) d0)).2)))
  | (Err e, s) => (Err e, s)
  end.
Proof.
  intros Hp body. unfold persist. unfold mbind at 1, op_bind at 1. destruct (create_dir_all _) as [[[]|e] [fs' p']] eqn:Ec; [|done].
  rewrite (run_bind _ _ _ _ _ (run_pure _ outcome _ Houtcome)), (run_bind _ _ _ _ _ (run_pure _ files _ Hfiles)).
  assert (p' = Directory d0) as -> by (destruct Hp as [->|[-> ->]]; unfold create_dir_all, system in Ec; cbn [fates content] in Ec;
    destruct fs as [|[] fs]; cbn in Ec; congruence).
  apply run_entered.
Qed.
End Persist.

(** C24: Recording a recovery is atomic whatever fails.  For every sequence of system calls
    that go through, break or stop the process, the entry named by the digest of the
    outcome and its inputs is afterwards as it was, or it was not there and is complete:
    the outcome, the manifest and every input file under their names.  Only the lock and
    the temporary directory of that entry can be left besides, and a receipt is given only
    when the entry is complete or, for a replay, already held this outcome. *)
Theorem ledger_entry_whole result outcome linked workspace files root fs p d0 :
  encode result = Ok outcome -> input_files linked workspace = Ok files -> opens_as p d0 ->
  let inputs := sort_by_key fst files in
  let id := entry_id outcome inputs in
  let '(r, s') := persist through_link linked workspace root result (Build_Disk fs p) in
  (content s' = p \/ exists d, content s' = Directory d /\ settled d0 id outcome inputs d) /\
  (forall receipt, r = Ok receipt -> exists d, content s' = Directory d /\ receipted d0 id outcome inputs receipt d).
Proof.
  intros Ho Hf Hp inputs id. rewrite (run_persist _ _ _ _ _ Ho Hf root fs p d0 Hp).
  destruct (create_dir_all (Build_Disk fs p)) as [[u|e] [fs' p']] eqn:Ec; cbn [fates content].
  - pose proof (triple_persist_entry d0 id outcome inputs root (Build_Disk fs' d0) (elsewhere_self _ d0)) as Ht.
    fold inputs. fold id. destruct ((read _ ≫= _) (Build_Disk fs' d0)) as [[receipt|e] s]; cbn [fst snd content].
    + split; [right; eexists; split; [done|by eapply receipted_settled]|]. intros receipt' [= <-]. by eexists.
    + split; [right; by eexists|done].
  - split; [left|done]. unfold create_dir_all, system in Ec. cbn [fates content] in Ec.
    destruct fs as [|[] fs], p; cbn in Ec; by simplify_eq.
Qed.

(** On a machine that does not fail, recording a recovery that is not there adds exactly
    one entry to the ledger, the outcome, every fragment file and the registry as they are
    and the manifest, and leaves no lock and no temporary directory; recording it again
    reports a replay and changes nothing. *)
Theorem ledger_persist_then_replay result outcome linked workspace files listed root d0 manifest :
  encode result = Ok outcome -> input_files linked workspace = Ok files ->
  WorkspaceFiles.read_dir linked (entry "fragments" workspace) = Ok listed ->
  Forall plain_name (listed.*1) -> NoDup (listed.*1) ->
  let inputs := sort_by_key fst files in
  let id := entry_id outcome inputs in
  encode (ledger_manifest id outcome inputs) = Ok manifest ->
  get id d0 = None -> get (temporary_name id) d0 = None -> get (lock_name id) d0 = None ->
  let receipt replay := {| LedgerReceipt.entry_id := id; LedgerReceipt.path := path_join root id; LedgerReceipt.replay := replay |} in
  exists registry frags, let d1 := d0 ++ [(id, entry_tree outcome manifest registry frags)] in
    files_in frags ≡ₚ listed /\ In ("registry.json", registry) files /\
    persist through_link linked workspace root result (calm (Directory d0)) = (Ok (receipt false), calm (Directory d1)) /\
    persist through_link linked workspace root result (calm (Directory d1)) = (Ok (receipt true), calm (Directory d1)).
Proof.
  intros Ho Hf Hl Hplain Hnd inputs id Hm Hid Ht Hk receipt.
  destruct (input_files_shape _ _ _ Hf) as (registry & frags & listed' & -> & Hl' & <-). rewrite Hl in Hl'. injection Hl' as ->.
  destruct (sorted_inputs registry frags) as (frags' & Hsort & Hperm).
  assert ((files_in frags).*1 = frags.*1) as Hfst by (unfold files_in; by rewrite <- list_fmap_compose).
  rewrite Hfst, <- Hperm in Hplain, Hnd. exists registry, frags'.
  subst inputs. unfold receipt, id in *. clear receipt id.
  split_and!; [by apply Permutation_map|by left|..]; rewrite (run_persist _ _ _ _ _ Ho Hf root [] (Directory _) _ (or_introl eq_refl));
    cbn [create_dir_all system fates content tail]; rewrite Hsort in *.
  - by rewrite (calm_persist_entry d0 root _ outcome registry manifest frags' Hid Hm Ht Hk Hplain Hnd).
  - by erewrite replay_entry; [..|by rewrite get_last|done].
Qed.

(** ** What the ledger does not notice *)

Definition fragment_workspace (registry : list Z) (frags : inputs_t) : entries :=
  [("registry.json", RegularFile registry); ("fragments", Folder (files_in frags))].

Lemma input_file_Ok name data fs c : utf8 name -> vec_len data <= 1048576 -> c + 1 <= 10000 ->
  input_file (name, RegularFile data) (fs, c) = Ok (fs ++ [("fragments/" +:+ name, data)], c + 1).
Proof.
  intros Hu Hd Hc. unfold input_file. cbn [fst snd]. destruct (Z.ltb_spec 10000 (c + 1)); [lia|].
  destruct (Z.ltb_spec 1048576 (vec_len data)); [lia|]. by rewrite from_utf8_bytes.
Qed.

Lemma snapshot linked registry frags : vec_len registry <= 131072 -> Forall (fun f => utf8 f.1 /\ vec_len f.2 <= 1048576) frags ->
  vec_len frags <= 10000 ->
  input_files linked (fragment_workspace registry frags) = Ok (("registry.json", registry) :: fragment_inputs frags).
Proof.
  intros Hr Hf Hn. unfold input_files.
  change (entry "registry.json" (fragment_workspace registry frags)) with (Some (RegularFile registry)).
  change (entry "fragments" (fragment_workspace registry frags)) with (Some (Folder (files_in frags))).
  cbn iota beta. destruct (Z.ltb_spec 131072 (vec_len registry)); [lia|]. cbn [mbind result_bind WorkspaceFiles.read_dir].
  cut (forall done, vec_len done + vec_len frags <= 10000 ->
    for_each (files_in frags) (("registry.json", registry) :: fragment_inputs done, vec_len done) input_file
    = Ok (("registry.json", registry) :: fragment_inputs (done ++ frags), vec_len (done ++ frags))).
  { intros Hc. specialize (Hc [] ltac:(unfold vec_len in *; cbn in *; lia)). change (vec_len []) with 0 in Hc. cbn [fragment_inputs fmap list_fmap app] in Hc. by rewrite Hc. }
  clear Hn. induction Hf as [|[name data] frags [Hname Hdata] _ IH]; intros done Hn; [by rewrite app_nil_r|].
  unfold vec_len in Hn. cbn [length] in Hn. cbn [files_in fmap list_fmap for_each prod_map id fst snd] in *.
  rewrite input_file_Ok by (first [done|unfold vec_len; lia]). cbn [mbind result_bind].
  specialize (IH (done ++ [(name, data)])). rewrite <- app_assoc in IH. cbn [app] in IH.
  replace (vec_len (done ++ [(name, data)])) with (vec_len done + 1) in IH by (unfold vec_len; rewrite length_app; cbn [length]; lia).
  unfold fragment_inputs in *. rewrite fmap_app in IH. apply IH. unfold vec_len. lia.
Qed.

(** C27: The name of an entry does not determine its inputs: their names and contents are
    hashed one after the other without their lengths.  When a workspace with two fragment
    files has been recorded, another workspace, whose one fragment file has the first's
    contents, the second's name and the second's contents in it, is reported as a replay of
    that entry if its outcome is the same, and its file is not kept. *)
Theorem ledger_replays_other_inputs result outcome root registry x y linked :
  TotalValue LedgerManifest -> encode result = Ok outcome ->
  vec_len registry <= 131072 -> vec_len x + vec_len y <= 1048559 ->
  let two := fragment_workspace registry [("a.json", x); ("b.json", y)] in
  let one := fragment_workspace registry [("a.json", x ++ bytes_of_string "fragments/b.json" ++ [0] ++ y)] in
  exists id manifest, let receipt replay := {| LedgerReceipt.entry_id := id; LedgerReceipt.path := path_join root id; LedgerReceipt.replay := replay |} in
    let ledger := Directory [(id, entry_tree outcome manifest registry [("a.json", x); ("b.json", y)])] in
    persist through_link linked two root result (calm Nothing) = (Ok (receipt false), calm ledger) /\
    persist through_link linked one root result (calm ledger) = (Ok (receipt true), calm ledger).
Proof.
  intros Htotal Ho Hr Hxy two one. assert (0 <= vec_len x /\ 0 <= vec_len y) by (unfold vec_len; lia).
  assert (input_files linked two = Ok (("registry.json", registry) :: fragment_inputs [("a.json", x); ("b.json", y)])) as Htwo.
  { apply snapshot; [done| |done]. repeat constructor; cbn [snd]; lia. }
  assert (input_files linked one = Ok (("registry.json", registry) :: fragment_inputs [("a.json", x ++ bytes_of_string "fragments/b.json" ++ [0] ++ y)])) as Hone.
  { apply snapshot; [done| |done]. repeat constructor. cbn [snd]. unfold vec_len in *. rewrite !length_app. cbn [length bytes_of_string]. lia. }
  set (id := entry_id outcome (sort_by_key fst (("registry.json", registry) :: fragment_inputs [("a.json", x); ("b.json", y)]))).
  assert (entry_id outcome (sort_by_key fst (("registry.json", registry) :: fragment_inputs [("a.json", x ++ bytes_of_string "fragments/b.json" ++ [0] ++ y)])) = id) as Hid.
  { assert (forall z, sort_by_key fst (("registry.json", registry) :: fragment_inputs [("a.json", z)])
      = [("fragments/a.json", z); ("registry.json", registry)]) as -> by done.
    unfold id, entry_id. f_equal. f_equal.
    replace (sort_by_key fst (("registry.json", registry) :: fragment_inputs [("a.json", x); ("b.json", y)]))
      with [("fragments/a.json", x); ("fragments/b.json", y); ("registry.json", registry)] by done.
    unfold identity_bytes. rewrite !bind_cons. cbn [fst snd]. by rewrite <- !app_assoc. }
  destruct (Htotal (ledger_manifest id outcome (sort_by_key fst (("registry.json", registry) :: fragment_inputs [("a.json", x); ("b.json", y)])))) as [v Hv].
  exists id, (json_to_vec v). split.
  - rewrite (run_persist _ _ _ _ _ Ho Htwo root [] Nothing [] (or_intror (conj eq_refl eq_refl))).
    cbn [create_dir_all system fates content tail]. fold id.
    replace (sort_by_key fst (("registry.json", registry) :: fragment_inputs [("a.json", x); ("b.json", y)]))
      with (fragment_inputs [("a.json", x); ("b.json", y)] ++ [("registry.json", registry)]) by done.
    erewrite (calm_persist_entry [] root id outcome registry (json_to_vec v) [("a.json", x); ("b.json", y)]); try done.
    + apply encode_Ok. by exists v.
    + repeat constructor; cbn; by vm_compute.
    + repeat constructor; set_solver.
  - rewrite (run_persist _ _ _ _ _ Ho Hone root [] (Directory _) _ (or_introl eq_refl)).
    cbn [create_dir_all system fates content tail]. rewrite Hid.
    by erewrite (replay_entry root id outcome); [..|cbn [get]; by rewrite bool_decide_eq_true_2|done].
Qed.

(** A process that stops after it took the lock leaves it, and nothing removes it: the
    recovery is not recorded again. *)
Theorem killed_ledger_is_locked result outcome linked workspace files root d0 n :
  encode result = Ok outcome -> input_files linked workspace = Ok files ->
  let id := entry_id outcome (sort_by_key fst files) in
  get id d0 = None -> get (lock_name id) d0 = None ->
  let left := d0 ++ [(lock_name id, RegularFile [])] in
  persist through_link linked workspace root result (Build_Disk [Goes; Goes; Stops n] (Directory d0)) = (Err Stopped, calm (Directory left)) /\
  persist through_link linked workspace root result (calm (Directory left)) = (Err (Raised (Io "ledger entry is locked")), calm (Directory left)).
Proof.
  intros Ho Hf id Hid Hk left.
  assert (get id left = None) as Hid'.
  { unfold left. rewrite get_app, Hid. cbn [get]. rewrite bool_decide_eq_false_2; [done|apply lock_not_id]. }
  split; rewrite (run_persist _ _ _ _ _ Ho Hf root _ (Directory _) _ (or_introl eq_refl)); cbn [create_dir_all system fates content tail]; fold id.
  - unfold mbind, op_bind, read, reads, present. cbn [content map_err]. rewrite Hid. cbn iota.
    unfold acquire_lock, attempt, calls_at, system, mbind, op_bind. cbn [fates content tail at_path].
    rewrite Hk. cbn iota beta. rewrite set_new by done. fold left.
    unfold guarded, persist_locked, attempt, mbind, op_bind, read, reads, present. cbn [content map_err fates mret op_ret].
    by rewrite Hid'.
  - unfold mbind, op_bind, read, reads, present. cbn [content map_err]. rewrite Hid'. cbn iota.
    unfold acquire_lock, attempt, calls_at, system, mbind, op_bind. cbn [fates content tail at_path].
    assert (get (lock_name id) left = Some (RegularFile [])) as Hk' by by apply get_last.
    by rewrite Hk'.
Qed.
End Laws.

Module LedgerWitness.
#[local] Existing Instances Toy.sha Toy.hexi Protocol.ProtocolWitness.error_text Protocol.ProtocolWitness.text
  WorkspaceWitness.os_errors WorkspaceWitness.not_directory.
#[local] Instance directory_errors : DirectoryErrorText := {| is_a_directory := "is a directory"; Disk.not_a_directory := "not a directory" |}.
#[local] Instance not_empty_text : NotEmptyText := "directory not empty".
#[local] Instance links : LinkTargets := fun _ => false.
#[local] Instance serialise_result : ToValue Protocol.RecoveryResult := fun r =>
  match r with
  | Protocol.Refused _ message => Some (Object [("refused", String message)])
  | Protocol.Certified _ _ _ => None
  end.
#[local] Instance serialise_ledger_manifest : ToValue LedgerManifest := fun m =>
  Some (Object [("version", String (LedgerManifest.version m)); ("entry_id", String (LedgerManifest.entry_id m));
    ("outcome_digest", String (LedgerManifest.outcome_digest m));
    ("inputs", Array ((fun i => Object [("path", String (InputDigest.path i)); ("sha256", String (InputDigest.sha256 i));
       ("bytes", Number (PosInt (InputDigest.bytes i)))]) <$> LedgerManifest.inputs m))]).
Definition nowhere : string -> result Error (list Z) := fun _ => Err (Io not_found).

Definition refusal : Protocol.RecoveryResult := Protocol.Refused RefusalCode.InsufficientEvidence "too little".
Definition outcome : list Z := match encode refusal with Ok bytes => bytes | Err _ => [] end.
Definition evidence : list (string * Node) := fragment_workspace [7] [("b.json", [2]); ("a.json", [1])].
Definition files : inputs_t := [("registry.json", [7]); ("fragments/b.json", [2]); ("fragments/a.json", [1])].
Abbreviation id := (entry_id outcome (sort_by_key fst files)).
Definition manifest : list Z :=
  match encode (ledger_manifest id outcome (sort_by_key fst files)) with Ok bytes => bytes | Err _ => [] end.
Definition old : list (string * Node) := [("older", Folder [])].

Lemma encoded : encode refusal = Ok outcome.
Proof. vm_compute. reflexivity. Qed.
Lemma manifest_encoded : encode (ledger_manifest id outcome (sort_by_key fst files)) = Ok manifest.
Proof. vm_compute. reflexivity. Qed.
Lemma fragments_read : input_files None evidence = Ok files.
Proof. vm_compute. reflexivity. Qed.
Lemma free : get id old = None /\ get (temporary_name id) old = None /\ get (lock_name id) old = None.
Proof. vm_compute. done. Qed.

Lemma fragment_names_differ : NoDup ([("b.json", RegularFile [2]); ("a.json", RegularFile [1])].*1).
Proof. apply (bool_decide_unpack _). vm_compute. done. Qed.

(** The write of the manifest breaks half way: nothing is left. *)
Definition breaking : list Fate := replicate 14 Goes ++ [Breaks "disk full" 3].
Lemma broken : persist nowhere None evidence "ledger" refusal (Build_Disk breaking (Directory old))
  = (Err (Raised (Io "disk full")), calm (Directory old)).
Proof. vm_compute. reflexivity. Qed.

Lemma ledger_entry_whole_witness :
  exists d, content (persist nowhere None evidence "ledger" refusal (Build_Disk breaking (Directory old))).2 = Directory d /\
    settled old id outcome (sort_by_key fst files) d.
Proof.
  pose proof (ledger_entry_whole nowhere refusal outcome None evidence files "ledger" breaking (Directory old) old
    encoded fragments_read (or_introl eq_refl)) as Hw. rewrite broken in *. cbn [snd content].
  destruct Hw as [[_|Hd] _]; [|exact Hd]. exists old. split; [done|]. left. apply elsewhere_self.
Defined.

Lemma ledger_persist_then_replay_witness : exists registry frags, files_in frags ≡ₚ [("b.json", RegularFile [2]); ("a.json", RegularFile [1])] /\
  (persist nowhere None evidence "ledger" refusal (calm (Directory old))).2 = calm (Directory (old ++ [(id, entry_tree outcome manifest registry frags)])).
Proof.
  destruct free as (Hid & Ht & Hk).
  assert (Forall plain_name ([("b.json", RegularFile [2]); ("a.json", RegularFile [1])].*1)) as Hplain by (repeat constructor).
  pose proof (ledger_persist_then_replay nowhere refusal outcome None evidence files [("b.json", RegularFile [2]); ("a.json", RegularFile [1])]
    "ledger" old manifest encoded fragments_read eq_refl Hplain fragment_names_differ manifest_encoded Hid Ht Hk) as (registry & frags & Hp & _ & Hrun & _).
  exists registry, frags. split; [exact Hp|]. rewrite Hrun. reflexivity.
Defined.

Lemma ledger_replays_other_inputs_witness : exists ledger,
  (persist nowhere None (fragment_workspace [7] [("a.json", [1]); ("b.json", [2])]) "ledger" refusal (calm Nothing)).2 = calm ledger /\
  is_err (persist nowhere None (fragment_workspace [7] [("a.json", [1] ++ bytes_of_string "fragments/b.json" ++ [0] ++ [2])]) "ledger" refusal (calm ledger)).1 = false.
Proof.
  destruct (ledger_replays_other_inputs nowhere refusal outcome "ledger" [7] [1] [2] None) as (i & m & Hfirst & Hsecond);
    [intros x; by eexists|exact encoded|done|done|].
  eexists. split; [by rewrite Hfirst|]. by rewrite Hsecond.
Defined.
End LedgerWitness.
