(* ===== verification/Lifecycle.v ===== *)
(** src/lifecycle.rs: a program installed under a prefix, and removed from it again, on a
    machine that fails ([Disk]).

    The state is the directory that the parent of the prefix leads to.  Files have their
    mode; that of directories is not kept, and permissions do not make a call fail. *)
From stdpp Require Import pretty.
From S2P Require Import Prelude Effects FileTree External Json Core Model Canonical Text WorkspaceFiles Disk Folders.
From S2P Require Operations.

Definition MAX_INSTALL_FILE_BYTES : Z := 256 * 1024 * 1024.

(** [env!("CARGO_PKG_VERSION")] *)
Definition CARGO_PKG_VERSION : string := "0.1.0-rc.3".

Module ImplementationStatus.
Inductive ImplementationStatus := Implemented | Partial | NotImplemented.
End ImplementationStatus.

Module ValidationStatus.
Inductive ValidationStatus := Tested | PartiallyTested | Untested.
End ValidationStatus.

Module SupportStatus.
Inductive SupportStatus := Supported | Experimental | Unsupported.
End SupportStatus.

Module CompatibilityStatusDefinitions.
Record CompatibilityStatusDefinitions := { implementation : string; validation : string; support : string }.
End CompatibilityStatusDefinitions.

Module CompatibilityProfile.
Record CompatibilityProfile := {
  id : string;
  platform : string;
  architecture : string;
  components : list string;
  transport : string;
  implementation : ImplementationStatus.ImplementationStatus;
  validation : ValidationStatus.ValidationStatus;
  support : SupportStatus.SupportStatus;
  evidence : list string;
  limitations : list string;
}.
End CompatibilityProfile.

Module CompatibilityManifest.
Record CompatibilityManifest := {
  version : string;
  product_version : string;
  rust_version : string;
  status_definitions : CompatibilityStatusDefinitions.CompatibilityStatusDefinitions;
  configuration_versions : list string;
  recovery_protocols : list string;
  profiles : list CompatibilityProfile.CompatibilityProfile;
}.
End CompatibilityManifest.

Module InstalledFile.
Record InstalledFile := { relative_path : string; sha256 : string; mode : Z }.
End InstalledFile.

Module InstallManifest.
Record InstallManifest := { version : string; product_version : string; files : list InstalledFile.InstalledFile }.
End InstallManifest.

Module InstallReceipt.
Record InstallReceipt := { prefix : string; product_version : string; installed_files : Z }.
End InstallReceipt.

Module UninstallReceipt.
Record UninstallReceipt := { prefix : string; removed_files : Z; removed_prefix : bool }.
End UninstallReceipt.

Abbreviation CompatibilityProfile := CompatibilityProfile.CompatibilityProfile.
Abbreviation CompatibilityManifest := CompatibilityManifest.CompatibilityManifest.
Abbreviation InstalledFile := InstalledFile.InstalledFile.
Abbreviation InstallManifest := InstallManifest.InstallManifest.
Abbreviation InstallReceipt := InstallReceipt.InstallReceipt.
Abbreviation UninstallReceipt := UninstallReceipt.UninstallReceipt.

Definition invalid (message : string) : Error := InvalidEvidence message.

(** ** The profiles *)

Definition profile (id platform architecture : string) (components : list string) (transport : string)
  (implementation : ImplementationStatus.ImplementationStatus) (validation : ValidationStatus.ValidationStatus)
  (support : SupportStatus.SupportStatus) (evidence limitations : list string) : CompatibilityProfile :=
  {| CompatibilityProfile.id := id; CompatibilityProfile.platform := platform;
     CompatibilityProfile.architecture := architecture; CompatibilityProfile.components := components;
     CompatibilityProfile.transport := transport; CompatibilityProfile.implementation := implementation;
     CompatibilityProfile.validation := validation; CompatibilityProfile.support := support;
     CompatibilityProfile.evidence := evidence; CompatibilityProfile.limitations := limitations |}.

Definition profiles : list CompatibilityProfile := [
  profile "macos-arm64-control-plane" "macos" "aarch64"
    ["control-plane"; "filesystem-v1"; "operations-v1"]
    "local-filesystem" ImplementationStatus.Implemented ValidationStatus.Tested SupportStatus.Supported
    ["scripts/ci-local.sh"; "tests/p4_product_readiness.rs"]
    ["requires the Rust 1.97.0 locked dependency graph"];
  profile "macos-arm64-p2-local-state" "macos" "aarch64"
    ["postgresql-18"; "minio-s3-api"; "redis-stream-8.8"]
    "trusted-loopback" ImplementationStatus.Implemented ValidationStatus.Tested SupportStatus.Supported
    ["tests/p2_stateful.rs"; "docs/P2_STATEFUL_RECOVERY.md"]
    ["writers must be quiesced"; "no cross-backend transaction"];
  profile "macos-arm64-docker-activation" "macos" "aarch64"
    ["oci-distribution-v2"; "docker-engine-29"]
    "local-docker-daemon" ImplementationStatus.Implemented ValidationStatus.Tested SupportStatus.Supported
    ["tests/p3_activation.rs"; "docs/P3_ISOLATED_ACTIVATION.md"]
    ["single host"; "Docker daemon and host kernel are trusted"];
  profile "macos-arm64-kind-kubernetes-activation" "macos" "aarch64"
    ["kubernetes-1.36"; "kubectl-1.36"; "kind-0.32"]
    "local-kind-cluster" ImplementationStatus.Implemented ValidationStatus.PartiallyTested SupportStatus.Experimental
    ["tests/p3_activation.rs"; "docs/P3_ISOLATED_ACTIVATION.md"]
    ["control objects and switching are tested"; "NetworkPolicy enforcement is not tested"];
  profile "linux-arm64-control-plane" "linux-gnu" "aarch64"
    ["control-plane"]
    "local-container" ImplementationStatus.Implemented ValidationStatus.Tested SupportStatus.Experimental
    ["scripts/ci-linux-matrix.sh"; "docs/LINUX_MATRIX.md"]
    ["tested in a clean Debian-based Linux container on an arm64 Docker host"; "production distribution and kernel combinations remain unverified"];
  profile "linux-x86_64-control-plane" "linux-gnu" "x86_64"
    ["control-plane"]
    "emulated-local-container" ImplementationStatus.Implemented ValidationStatus.PartiallyTested SupportStatus.Experimental
    ["scripts/ci-linux-matrix.sh"; "docs/LINUX_MATRIX.md"]
    ["built and executed under Docker amd64 emulation on an arm64 host"; "native x86_64 hardware and production distribution combinations remain unverified"];
  profile "aws-al2023-arm64-control-plane" "amazon-linux-2023" "aarch64"
    ["control-plane"]
    "native-ec2" ImplementationStatus.Implemented ValidationStatus.Tested SupportStatus.Supported
    ["docs/AWS_COMPATIBILITY.md"]
    ["validated on ami-053d8df569ac57bbb, t4g.medium, and kernel 6.1.177-224.371.amzn2023.aarch64"; "other AMIs, kernels, and instance families are not implied"];
  profile "aws-al2023-x86_64-control-plane" "amazon-linux-2023" "x86_64"
    ["control-plane"]
    "native-ec2" ImplementationStatus.Implemented ValidationStatus.Tested SupportStatus.Supported
    ["docs/AWS_COMPATIBILITY.md"]
    ["validated on ami-062a8901a5ddcf280, t3.medium, and kernel 6.1.177-224.371.amzn2023.x86_64"; "other AMIs, kernels, and instance families are not implied"];
  profile "aws-managed-state-eu-west-1" "amazon-linux-2023" "aarch64"
    ["rds-postgresql-18.3"; "amazon-s3"; "elasticache-redis-7.1"]
    "private-tls-and-https" ImplementationStatus.Implemented ValidationStatus.Tested SupportStatus.Supported
    ["tests/aws_compatibility.rs"; "docs/AWS_COMPATIBILITY.md"]
    ["eu-west-1 provider profile only"; "writers must be quiesced"; "no cross-backend transaction"; "ElastiCache server-authenticated TLS and AUTH are trusted without client certificates"];
  profile "aws-eks-1.36-vpc-cni" "amazon-eks" "aarch64"
    ["kubernetes-1.36"; "eks-platform-eks.9"; "vpc-cni-1.22.4"; "networkpolicy-strict"]
    "authenticated-kubernetes-api" ImplementationStatus.Implemented ValidationStatus.Tested SupportStatus.Supported
    ["tests/aws_compatibility.rs"; "docs/AWS_COMPATIBILITY.md"]
    ["one AL2023_ARM_64_STANDARD t4g.medium node"; "EKS control plane, VPC CNI, admission, IAM, and cluster administrators remain trusted"];
  profile "generic-s3-compatible-https" "provider-managed" "provider-dependent"
    ["s3-compatible-object-store"]
    "https" ImplementationStatus.Implemented ValidationStatus.PartiallyTested SupportStatus.Experimental
    ["tests/p2_stateful.rs"]
    ["only the MinIO S3 API fixture is tested"; "provider-specific behavior is unverified"];
  profile "other-production-kubernetes-enforcing-cni" "linux-gnu" "provider-dependent"
    ["kubernetes-1.36"; "networkpolicy-enforcing-cni"]
    "authenticated-kubernetes-api" ImplementationStatus.Implemented ValidationStatus.PartiallyTested SupportStatus.Experimental
    ["tests/p3_activation.rs"; "docs/AWS_COMPATIBILITY.md"]
    ["the exact EKS and VPC CNI profile is validated"; "no other provider or CNI is implied"];
  profile "integrated-recovery-to-activation" "macos" "aarch64"
    ["reconstruction"; "postgresql-18"; "minio-s3-api"; "redis-stream-8.8"; "oci-distribution-v2"; "kubernetes-1.36"; "public-reference-cli"]
    "mixed-local" ImplementationStatus.Implemented ValidationStatus.Tested SupportStatus.Experimental
    ["tests/reference_workflow.rs"; "docs/QUICKSTART.md"]
    ["the packaged finite-state candidate is health-checked as an artifact and is not a generated HTTP server"; "kind control objects are tested but NetworkPolicy enforcement is not"; "rollback evidence must be retained until operator acceptance"];
  profile "generic-remote-postgresql-or-redis" "provider-managed" "provider-dependent"
    ["postgresql"; "redis-stream"]
    "authenticated-tls" ImplementationStatus.Implemented ValidationStatus.PartiallyTested SupportStatus.Experimental
    ["tests/aws_compatibility.rs"; "docs/P2_STATEFUL_RECOVERY.md"]
    ["only the exact AWS managed-state profile is supported"; "other providers, versions, certificate policies, and authentication modes require retained evidence"]].

(** [CompatibilityManifest::default] *)
Definition compatibility_default : CompatibilityManifest :=
  {| CompatibilityManifest.version := "compatibility-v2";
     CompatibilityManifest.product_version := CARGO_PKG_VERSION;
     CompatibilityManifest.rust_version := "1.97.0";
     CompatibilityManifest.status_definitions :=
       {| CompatibilityStatusDefinitions.implementation := "implemented means the bounded code path exists; partial means only part of the named profile exists; not_implemented means it does not exist";
          CompatibilityStatusDefinitions.validation := "tested means retained evidence exercises the exact profile; partially_tested means only named boundaries were exercised; untested means no retained execution evidence exists";
          CompatibilityStatusDefinitions.support := "supported means defects are accepted for the exact profile; experimental permits evaluation without that commitment; unsupported must be refused" |};
     CompatibilityManifest.configuration_versions := ["operations-config-v0-migratable"; "operations-config-v1"];
     CompatibilityManifest.recovery_protocols := ["fsm-v1"; "service-v1"];
     CompatibilityManifest.profiles := profiles |}.

(** ** Files with modes *)

#[warnings="-register-all"]
Inductive Item :=
| PlainFile (mode : Z) (contents : list Z)
| Dir (entries : list (string * Item))
| Link
| OtherItem.

#[export] Instance item_node : TreeNode Item := {|
  folder := Dir;
  as_folder n := match n with Dir l => Some l | _ => None end;
  as_folder_folder _ := eq_refl;
|}.
Abbreviation items := (list (string * Item)).

(** The directory and the files that [InstallGuard] has. *)
Module Staged.
Record Staged := { disk : items; files : list (list string * string) }.
End Staged.

(** ** Paths *)

(** [Path::parent] and [Path::file_name] *)
Definition parent_of (path : string) : option (list Component) :=
  match last (components path) with
  | None | Some RootDir => None
  | Some _ => Some (removelast (components path))
  end.
Definition file_name (path : string) : option string :=
  match last (components path) with Some (Normal name) => Some name | _ => None end.

Definition validate_relative (value : string) : result Error () :=
  if str_is_empty value || (128 <? str_len value) || String.prefix "/" value
     || existsb (fun c => match c with ParentDir | CurDir => true | _ => false end) (components value)
  then Err (invalid "installation manifest path is invalid") else Ok ().

(** The names of a relative path. *)
Definition names_of (path : string) : list string :=
  components path ≫= fun c => match c with Normal name => [name] | _ => [] end.

Section Lifecycle.
Context `{OsErrorText, DirectoryErrorText, NotEmptyText, LinkTargets, SerdeErrorText, JsonText, Sha256, Hex}.
Context `{!ToValue CompatibilityManifest, !ToValue Operations.OperationsConfig.OperationsConfig}.
Context `{!ToValue InstallManifest, !FromSlice InstallManifest}.

(** The process: the bits that its umask clears, its number and the file it runs, found
    by [current_exe]. *)
Variables (umask pid : Z) (executable : result Error (option Item)).

(** What [symlink_metadata] shows at the parent, and whether something is at a path that
    does not end in a name. *)
Variables (parent_item : list Component -> option Item) (found_elsewhere : string -> bool).

(** Paths below the prefix that lead through a symbolic link: what is there, and removing
    it. *)
Variables (through_link : list string -> option Item) (remove_through_link : list string -> result Error ()).

Definition present (name : string) (d : items) : bool :=
  match get name d with None => false | Some Link => link_exists name | Some _ => true end.

(** [validate_directory] *)
Definition real_directory (item : option Item) : result Error () :=
  match item with
  | None => Err (Io not_found)
  | Some (Dir _) => Ok ()
  | Some _ => Err (invalid "installation parent must be a real directory")
  end.
Definition validate_parent (parent : list Component) : result Error () :=
  real_directory (match parent with [] => None | _ => parent_item parent end).

Definition read_regular (item : option Item) (max : Z) : result Error (list Z) :=
  match item with
  | None => Err (Io not_found)
  | Some (PlainFile _ bytes) =>
      if max <? vec_len bytes then Err (invalid "installation file is invalid or exceeds its byte bound") else Ok bytes
  | Some _ => Err (invalid "installation file is invalid or exceeds its byte bound")
  end.

(** A new file with this mode. *)
Definition new_file (mode : Z) (bytes : list Z) : Item := PlainFile (Z.land mode (Z.lnot umask)) bytes.

(** [set_permissions] of a directory. *)
Definition set_permissions {D} : prog D () := system untorn Ok.

(** *** Installing *)

Definition on_disk {A} (m : prog items A) : prog Staged.Staged A :=
  zoom Staged.disk (fun d s => {| Staged.disk := d; Staged.files := Staged.files s |}) m.
Definition push_file (path : list string) (name : string) : prog Staged.Staged () :=
  writes (fun s => Build_Disk (fates s)
    {| Staged.disk := Staged.disk (content s); Staged.files := Staged.files (content s) ++ [(path, name)] |}).

(** [Drop for InstallGuard] when it is not committed. *)
Definition drop_guard (root : string) (files : list (list string * string)) : prog items () :=
  _ ← op_for (rev files) () (fun f _ => ignoring (Folders.remove_file f.1 f.2));
  _ ← ignoring (remove_dir [root] "bin");
  _ ← ignoring (remove_dir [root] "share");
  ignoring (remove_dir [] root).
Definition with_guard {A} (root : string) (body : prog Staged.Staged A) : prog items A := fun s =>
  let '(r, s') := body (Build_Disk (fates s) {| Staged.disk := content s; Staged.files := [] |}) in
  let s'' := Build_Disk (fates s') (Staged.disk (content s')) in
  match r with
  | Ok a => (Ok a, s'')
  | Err Stopped => (Err Stopped, s'')
  | Err (Raised e) => (_ ← drop_guard root (Staged.files (content s')); raise e) s''
  end.

(** A payload: its directory, its name, its bytes and its mode. *)
Abbreviation payload := (string * string * list Z * Z)%type.
Definition installed_file (p : payload) : InstalledFile :=
  let '(dir, name, bytes, mode) := p in
  {| InstalledFile.relative_path := dir +:+ "/" +:+ name; InstalledFile.sha256 := bytes_digest bytes; InstalledFile.mode := mode |}.
Definition write_payload (staging : string) (p : payload) (files : list InstalledFile)
  : prog Staged.Staged (list InstalledFile) :=
  let '(dir, name, bytes, mode) := p in
  _ ← push_file [staging; dir] name;
  _ ← on_disk (write_new (new_file mode) [staging; dir] name bytes);
  mret (files ++ [installed_file p]).

Definition payloads (executable_bytes compatibility config : list Z) : list payload :=
  [("bin", "anasemble", executable_bytes, 493); ("share", "compatibility-v2.json", compatibility, 420);
   ("share", "operations-config-v1.json", config, 420)].
Definition install_manifest (files : list InstalledFile) : InstallManifest :=
  {| InstallManifest.version := "install-manifest-v1"; InstallManifest.product_version := CARGO_PKG_VERSION;
     InstallManifest.files := files |}.

(** What is done while the guard is there, up to the move. *)
Definition fill_staging (staging : string) : prog Staged.Staged InstallManifest :=
  _ ← set_permissions;
  _ ← on_disk (create_dir [staging] "bin");
  _ ← on_disk (create_dir [staging] "share");
  executable ← pure executable;
  executable_bytes ← pure (read_regular executable MAX_INSTALL_FILE_BYTES);
  compatibility ← pure (encode compatibility_default);
  config ← pure (encode Operations.OperationsConfig.default);
  files ← op_for (payloads executable_bytes compatibility config) [] (write_payload staging);
  let manifest := install_manifest files in
  _ ← push_file [staging] "install-manifest-v1.json";
  bytes ← pure (encode manifest);
  _ ← on_disk (write_new (new_file 420) [staging] "install-manifest-v1.json" bytes);
  _ ← sync_all;
  mret manifest.

Definition staging_name (name : string) : string := "." +:+ name +:+ ".anasemble-install-" +:+ pretty pid.

(** [prefix.try_exists()] *)
Definition try_exists (prefix : string) (d : items) : result Error bool :=
  match file_name prefix with
  | Some name =>
      match get name d with
      | Some (PlainFile _ _ | OtherItem) => if ends_with 47 prefix then Err (Io Disk.not_a_directory) else Ok true
      | _ => Ok (present name d)
      end
  | None => Ok (found_elsewhere prefix)
  end.

Definition install (prefix : string) : prog items InstallReceipt :=
  exists_ ← read (try_exists prefix);
  if exists_ : bool then raise (invalid "installation prefix already exists") else
  parent ← pure (ok_or (parent_of prefix) (invalid "installation prefix requires a parent"));
  _ ← pure (validate_parent parent);
  name ← pure (ok_or (name ← file_name prefix; from_utf8 (bytes_of_string name))
                     (invalid "installation prefix requires a UTF-8 name"));
  let staging := staging_name name in
  stale ← read (fun d => Ok (present staging d));
  if stale : bool then raise (invalid "stale installation staging directory requires operator action") else
  _ ← create_dir [] staging;
  with_guard staging (
    manifest ← fill_staging staging;
    _ ← on_disk (rename_dir staging name);
    _ ← sync_all;
    mret {| InstallReceipt.prefix := prefix; InstallReceipt.product_version := InstallManifest.product_version manifest;
            InstallReceipt.installed_files := vec_len (InstallManifest.files manifest) + 1 |}).

(** *** Removing *)

(** [validate_exact_entries] of a directory that is there. *)
Definition validate_exact_entries (item : option Item) (expected : list string) : result Error () :=
  entries ← ok_or (item ≫= as_folder) (Io not_found);
  actual ← collect_results (fun e => ok_or (from_utf8 (bytes_of_string e.1)) (invalid "installation contains a non-UTF-8 entry")) entries;
  if negb (bool_decide (sort_by_key id actual = sort_by_key id expected))
  then Err (invalid "installation topology differs from its owned manifest") else Ok ().

(** Whether a path leads through a link, from a directory. *)
Fixpoint crosses_link (path : list string) (d : items) : bool :=
  match path with
  | name :: (_ :: _) as rest =>
      match get name d with Some Link => true | Some (Dir l) => crosses_link rest l | _ => false end
  | _ => false
  end.

(** A path below the prefix: a slash at the end is for directories only. *)
Definition lookup (path : string) (d : items) : result Error (option Item) :=
  let names := names_of path in
  let item := if crosses_link names d then through_link names else Folders.find names d in
  if ends_with 47 path
  then match item with
       | Some (PlainFile _ _ | OtherItem) => Err (Io Disk.not_a_directory)
       | Some Link => Ok (through_link names)
       | _ => Ok item
       end
  else Ok item.

(** The checks on one file of the manifest, [d] being the prefix. *)
Definition verify_file (d : items) (file : InstalledFile) : result Error () :=
  _ ← validate_relative (InstalledFile.relative_path file);
  item ← lookup (InstalledFile.relative_path file) d;
  bytes ← read_regular item MAX_INSTALL_FILE_BYTES;
  if negb (bool_decide (bytes_digest bytes = InstalledFile.sha256 file))
  then Err (invalid "installed file changed; uninstallation refused") else
  match item with
  | Some (PlainFile mode _) =>
      if negb (Z.land mode 511 =? InstalledFile.mode file)
      then Err (invalid "installed file mode changed; uninstallation refused") else Ok ()
  | _ => Ok ()
  end.

(** All the checks, and the manifest. *)
Definition verify (name : string) (parent : items) : result Error InstallManifest :=
  _ ← real_directory (get name parent);
  _ ← validate_exact_entries (get name parent) ["bin"; "install-manifest-v1.json"; "share"];
  let d := default [] (get name parent ≫= as_folder) in
  _ ← real_directory (get "bin" d);
  _ ← real_directory (get "share" d);
  _ ← validate_exact_entries (get "bin" d) ["anasemble"];
  _ ← validate_exact_entries (get "share" d) ["compatibility-v2.json"; "operations-config-v1.json"];
  manifest_bytes ← read_regular (get "install-manifest-v1.json" d) 65536;
  manifest ← ok_or (from_slice (T := InstallManifest) manifest_bytes) (Model.Json serde_error_text);
  if negb (bool_decide (InstallManifest.version manifest = "install-manifest-v1"))
     || negb (vec_len (InstallManifest.files manifest) =? 3)
     || negb (bool_decide (InstallManifest.product_version manifest = CARGO_PKG_VERSION))
  then Err (invalid "installation manifest is unsupported") else
  _ ← for_each (InstallManifest.files manifest) () (fun file _ => verify_file d file);
  Ok manifest.

Definition remove_installed (name : string) (file : InstalledFile) : prog items () :=
  let path := InstalledFile.relative_path file in
  let names := names_of path in
  outside ← read (fun parent => Ok (crosses_link names (default [] (get name parent ≫= as_folder))));
  if outside : bool then system untorn (fun d => _ ← remove_through_link names; Ok d) else
  if ends_with 47 path then raise (Io Disk.not_a_directory) else
  Folders.remove_file (name :: removelast names) (List.last names "").

(** For a prefix that is [name] in the directory [parent]. *)
Definition uninstall (prefix : string) (parent : list Component) (name : string) : prog items UninstallReceipt :=
  manifest ← read (verify name);
  _ ← op_for (InstallManifest.files manifest) () (fun file _ => remove_installed name file);
  _ ← Folders.remove_file [name] "install-manifest-v1.json";
  _ ← remove_dir [name] "bin";
  _ ← remove_dir [name] "share";
  _ ← remove_dir [] name;
  _ ← (match parent with [] => raise (Io not_found) | _ => sync_all end);
  mret {| UninstallReceipt.prefix := prefix; UninstallReceipt.removed_files := 4; UninstallReceipt.removed_prefix := true |}.
End Lifecycle.

(** * Properties *)

(** The bits of a mode that a umask leaves are all of them if it clears none. *)
Lemma land_kept mode umask : Z.land mode umask = 0 -> Z.land mode (Z.lnot umask) = mode.
Proof.
  intros Hu. apply Z.bits_inj'. intros n Hn. apply (f_equal (fun x => Z.testbit x n)) in Hu.
  rewrite Z.bits_0, Z.land_spec in Hu. rewrite Z.land_spec, Z.lnot_spec by done.
  destruct (Z.testbit mode n), (Z.testbit umask n); done.
Qed.
Lemma land_kept_iff mode umask : Z.land mode (Z.lnot umask) = mode <-> Z.land mode umask = 0.
Proof.
  split; [|apply land_kept]. intros Hu. apply Z.bits_inj'. intros n Hn. apply (f_equal (fun x => Z.testbit x n)) in Hu.
  rewrite Z.land_spec, Z.lnot_spec in Hu by done. rewrite Z.bits_0, Z.land_spec.
  destruct (Z.testbit mode n), (Z.testbit umask n); done.
Qed.
Lemma land_sub a b c : Z.land a b = a -> Z.land b c = 0 -> Z.land a c = 0.
Proof. intros <- Hc. by rewrite <- Z.land_assoc, Hc, Z.land_0_r. Qed.

Section Laws.
Context `{OsErrorText, DirectoryErrorText, NotEmptyText, LinkTargets, SerdeErrorText, JsonText, Sha256, Hex}.
Context `{!ToValue CompatibilityManifest, !ToValue Operations.OperationsConfig.OperationsConfig}.
Context `{!ToValue InstallManifest, !FromSlice InstallManifest}.
Variables (umask pid : Z) (executable : result Error (option Item)).
Variables (parent_item : list Component -> option Item) (found_elsewhere : string -> bool).
Variables (through_link : list string -> option Item) (remove_through_link : list string -> result Error ()).
Implicit Types d : items.
Abbreviation file := (new_file umask).
Abbreviation fill := (fill_staging umask executable).
Abbreviation install := (install umask pid executable parent_item found_elsewhere).
Abbreviation uninstall := (uninstall through_link remove_through_link).
Abbreviation staging_name := (staging_name pid).

Lemma staging_not_name name : staging_name name <> name.
Proof.
  intros He%(f_equal str_len). unfold Lifecycle.staging_name in He. rewrite !str_len_app in He.
  pose proof (str_len_nonneg (pretty pid)). change (str_len ".") with 1 in He. change (str_len ".anasemble-install-") with 19 in He. lia.
Qed.

(** ** What an installation is *)

Definition installed_tree (executable_bytes compatibility config manifest : list Z) : items :=
  [("bin", Dir [("anasemble", file 493 executable_bytes)]);
   ("share", Dir [("compatibility-v2.json", file 420 compatibility); ("operations-config-v1.json", file 420 config)]);
   ("install-manifest-v1.json", file 420 manifest)].
Definition the_manifest (executable_bytes compatibility config : list Z) : InstallManifest :=
  install_manifest (installed_file <$> payloads executable_bytes compatibility config).

(** This tree holds the running program and the manifests of this version. *)
Definition complete (tree : items) : Prop :=
  exists item executable_bytes compatibility config manifest,
    executable = Ok item /\ read_regular item MAX_INSTALL_FILE_BYTES = Ok executable_bytes /\
    encode compatibility_default = Ok compatibility /\ encode Operations.OperationsConfig.default = Ok config /\
    encode (the_manifest executable_bytes compatibility config) = Ok manifest /\
    tree = installed_tree executable_bytes compatibility config manifest.

(** ** The staging directory *)

Section Staging.
Variables (a : items) (staging : string).
Hypothesis Ha : get staging a = None.

Lemma leads_staging : leads [staging] (fun l => a ++ [(staging, Dir l)]).
Proof. exact (leads_last staging [] a _ Ha leads_here). Qed.
Lemma leads_bin : leads [staging; "bin"] (fun l => a ++ [(staging, Dir [("bin", Dir l); ("share", Dir [])])]).
Proof. exact (leads_last staging ["bin"] a _ Ha (leads_mid "bin" [] [] [("share", Dir [])] _ eq_refl leads_here)). Qed.
Lemma leads_share b : leads [staging; "share"] (fun l => a ++ [(staging, Dir [("bin", Dir b); ("share", Dir l)])]).
Proof. exact (leads_last staging ["share"] a _ Ha (leads_last "share" [] [("bin", Dir b)] _ eq_refl leads_here)). Qed.

Lemma calm_on_disk {A} (m : prog items A) d fs r d' :
  m (calm d) = (r, calm d') ->
  on_disk m (calm {| Staged.disk := d; Staged.files := fs |}) = (r, calm {| Staged.disk := d'; Staged.files := fs |}).
Proof. intros Hm. unfold on_disk, zoom. cbn [fates content Staged.disk]. by rewrite Hm. Qed.

Lemma calm_create path g x l : leads path g -> get x l = None ->
  create_dir path x (calm (g l)) = (Ok (), calm (g (l ++ [(x, Dir [])]))).
Proof. intros Hg Hx. apply (calm_calls path g _ l); [done|]. by rewrite Hx, set_new. Qed.

(** One payload. *)
Lemma calm_payload dir name bytes mode files d d' fs :
  write_new (file mode) [staging; dir] name bytes (calm d) = (Ok (), calm d') ->
  write_payload umask staging (dir, name, bytes, mode) files (calm {| Staged.disk := d; Staged.files := fs |})
  = (Ok (files ++ [installed_file (dir, name, bytes, mode)]), calm {| Staged.disk := d'; Staged.files := fs ++ [([staging; dir], name)] |}).
Proof.
  intros Hw. unfold write_payload, mbind, op_bind. unfold push_file at 1, writes. cbn [fates content Staged.disk Staged.files].
  by rewrite (calm_on_disk _ _ _ _ _ Hw).
Qed.

Lemma calm_fill item executable_bytes compatibility config manifest :
  executable = Ok item -> read_regular item MAX_INSTALL_FILE_BYTES = Ok executable_bytes ->
  encode compatibility_default = Ok compatibility -> encode Operations.OperationsConfig.default = Ok config ->
  encode (the_manifest executable_bytes compatibility config) = Ok manifest ->
  exists fs, fill staging (calm {| Staged.disk := a ++ [(staging, Dir [])]; Staged.files := [] |})
  = (Ok (the_manifest executable_bytes compatibility config),
     calm {| Staged.disk := a ++ [(staging, Dir (installed_tree executable_bytes compatibility config manifest))]; Staged.files := fs |}).
Proof.
  intros Hi He Hc Ho Hm. unfold fill_staging. rewrite (run_bind _ _ _ _ _ (calm_sync _)).
  rewrite (run_bind _ _ _ _ _ (calm_on_disk _ _ _ _ _ (calm_create _ _ "bin" [] leads_staging eq_refl))).
  rewrite (run_bind _ _ _ _ _ (calm_on_disk _ _ _ _ _ (calm_create _ _ "share" [("bin", Dir [])] leads_staging eq_refl))).
  rewrite (run_bind _ _ _ _ _ (run_pure _ item _ Hi)), (run_bind _ _ _ _ _ (run_pure _ executable_bytes _ He)).
  rewrite (run_bind _ _ _ _ _ (run_pure _ compatibility _ Hc)), (run_bind _ _ _ _ _ (run_pure _ config _ Ho)).
  assert (exists fs, op_for (payloads executable_bytes compatibility config) [] (write_payload umask staging)
      (calm {| Staged.disk := a ++ [(staging, Dir [("bin", Dir []); ("share", Dir [])])]; Staged.files := [] |})
    = (Ok (installed_file <$> payloads executable_bytes compatibility config),
       calm {| Staged.disk := a ++ [(staging, Dir [("bin", Dir [("anasemble", file 493 executable_bytes)]);
                 ("share", Dir [("compatibility-v2.json", file 420 compatibility); ("operations-config-v1.json", file 420 config)])])];
               Staged.files := fs |})) as [fs Hloop].
  { eexists. unfold payloads at 1. cbn [op_for].
    rewrite (run_bind _ _ _ _ _ (calm_payload "bin" _ _ _ _ _ _ _ (calm_write_new (file 493) _ _ "anasemble" executable_bytes [] leads_bin eq_refl))).
    rewrite (run_bind _ _ _ _ _ (calm_payload "share" _ _ _ _ _ _ _
      (calm_write_new (file 420) _ _ "compatibility-v2.json" compatibility [] (leads_share [("anasemble", file 493 executable_bytes)]) eq_refl))).
    rewrite (run_bind _ _ _ _ _ (calm_payload "share" _ _ _ _ _ _ _
      (calm_write_new (file 420) _ _ "operations-config-v1.json" config [("compatibility-v2.json", file 420 compatibility)]
         (leads_share [("anasemble", file 493 executable_bytes)]) eq_refl))). reflexivity. }
  rewrite (run_bind _ _ _ _ _ Hloop). cbv zeta. change (install_manifest _) with (the_manifest executable_bytes compatibility config).
  unfold push_file at 1, writes. unfold mbind at 1, op_bind at 1. cbn [fates content Staged.disk Staged.files].
  rewrite (run_bind _ _ _ _ _ (run_pure _ manifest _ Hm)).
  rewrite (run_bind _ _ _ _ _ (calm_on_disk _ _ _ _ _ (calm_write_new (file 420) _ _ "install-manifest-v1.json" manifest
    [("bin", Dir [("anasemble", file 493 executable_bytes)]);
     ("share", Dir [("compatibility-v2.json", file 420 compatibility); ("operations-config-v1.json", file 420 config)])] leads_staging eq_refl))).
  eexists. by rewrite (run_bind _ _ _ _ _ (calm_sync _)).
Qed.
End Staging.

(** ** What a success says *)

Lemma run_pure_Ok {D A} (r : result Error A) (s : Disk D) a s' : pure r s = (Ok a, s') -> r = Ok a /\ s' = s.
Proof. unfold pure, lift. destruct r; [|done]. by intros [= -> ->]. Qed.

Lemma payloads_files staging ps files s files' s' :
  op_for ps files (write_payload umask staging) s = (Ok files', s') -> files' = files ++ (installed_file <$> ps).
Proof.
  revert files s. induction ps as [|[[[dir name] bytes] mode] ps IH]; intros files s; cbn [op_for].
  - intros [= <- _]. by rewrite app_nil_r.
  - intros (files1 & s1 & Hw & Hr)%run_bind_Ok. apply IH in Hr. unfold write_payload in Hw.
    apply run_bind_Ok in Hw as (? & ? & _ & Hw). apply run_bind_Ok in Hw as (? & ? & _ & Hw). injection Hw as <- _.
    by rewrite Hr, <- app_assoc.
Qed.

Lemma fill_inputs staging s m s' : fill staging s = (Ok m, s') ->
  exists item executable_bytes compatibility config manifest,
    executable = Ok item /\ read_regular item MAX_INSTALL_FILE_BYTES = Ok executable_bytes /\
    encode compatibility_default = Ok compatibility /\ encode Operations.OperationsConfig.default = Ok config /\
    encode (the_manifest executable_bytes compatibility config) = Ok manifest.
Proof.
  unfold fill_staging. intros (? & ? & _ & Hr)%run_bind_Ok. apply run_bind_Ok in Hr as (? & ? & _ & Hr).
  apply run_bind_Ok in Hr as (? & ? & _ & Hr). apply run_bind_Ok in Hr as (item & ? & [Hi _]%run_pure_Ok & Hr).
  apply run_bind_Ok in Hr as (exe & ? & [He _]%run_pure_Ok & Hr). apply run_bind_Ok in Hr as (compat & ? & [Hc _]%run_pure_Ok & Hr).
  apply run_bind_Ok in Hr as (config & ? & [Ho _]%run_pure_Ok & Hr). apply run_bind_Ok in Hr as (files & ? & Hf%payloads_files & Hr).
  cbv zeta in Hr. apply run_bind_Ok in Hr as (? & ? & _ & Hr). apply run_bind_Ok in Hr as (manifest & ? & [Hm _]%run_pure_Ok & _).
  subst files. by exists item, exe, compat, config, manifest.
Qed.

Lemma steady_push {path name} : steady (push_file path name).
Proof. by intros s a s' [= <- <-]. Qed.
Lemma steady_fill staging : steady (fill staging).
Proof.
  unfold fill_staging, on_disk, set_permissions. steady_steps; try apply steady_calls; try apply steady_write_new; try apply steady_push.
  unfold write_payload, on_disk. destruct x as [[[dir name] bytes] mode]. steady_steps; [apply steady_push|apply steady_write_new].
Qed.

(** What a finished staging directory holds, whatever the calls did. *)
Lemma fill_exact a staging fs m s' : get staging a = None ->
  fill staging (Build_Disk fs {| Staged.disk := a ++ [(staging, Dir [])]; Staged.files := [] |}) = (Ok m, s') ->
  exists tree, complete tree /\ Staged.disk (content s') = a ++ [(staging, Dir tree)].
Proof.
  intros Ha Hr. destruct (fill_inputs _ _ _ _ Hr) as (item & exe & compat & config & manifest & Hi & He & Hc & Ho & Hm).
  exists (installed_tree exe compat config manifest). split; [by exists item, exe, compat, config, manifest|].
  destruct (calm_fill a staging Ha item exe compat config manifest Hi He Hc Ho Hm) as [files Hcalm].
  apply steady_fill in Hr. cbn [content] in Hr. rewrite Hcalm in Hr. by injection Hr as _ <-.
Qed.

(** ** Crashes *)

Section Crash.
Variables (d0 : items) (staging : string).

Definition beside d : Prop := elsewhere [staging] d0 d.
Definition guarding (s : Staged.Staged) : Prop :=
  beside (Staged.disk s) /\ Forall (fun f => exists rest, f.1 = staging :: rest) (Staged.files s).

Lemma beside_staging : indifferent staging beside.
Proof. intros d n Hd. apply elsewhere_set; [set_solver|done]. Qed.

Lemma keeps_on_disk {A} (m : prog items A) :
  htriple beside m (fun _ => beside) beside -> keeps (holds guarding) (on_disk m).
Proof.
  intros Hm [fs s] [Hs Hf]. specialize (Hm (Build_Disk fs (Staged.disk s)) Hs). unfold on_disk, zoom. cbn [fates content].
  destruct (m (Build_Disk fs (Staged.disk s))) as [[a|e] s']; by split.
Qed.
Lemma keeps_push rest name : keeps (holds guarding) (push_file (staging :: rest) name).
Proof. intros s [Hs Hf]. split; [done|]. cbn. apply Forall_app. split; [done|]. repeat constructor. by exists rest. Qed.
Lemma keeps_system torn : (forall n s, torn n s = s) -> keeps (holds guarding) (system torn Ok).
Proof. intros Ht. apply triple_system; [by intros s s' Hs [= <-]|done|]. intros n s Hs. by rewrite Ht. Qed.
Lemma keeps_pure {A} (r : result Error A) : keeps (holds guarding) (pure r).
Proof. apply keeps_lift. Qed.

Lemma keeps_write mode rest name bytes :
  keeps (holds guarding) (on_disk (write_new (file mode) (staging :: rest) name bytes)).
Proof. apply keeps_on_disk, triple_write_any; [done|exact beside_staging]. Qed.
Lemma keeps_fill : keeps (holds guarding) (fill staging).
Proof.
  unfold fill_staging, set_permissions.
  repeat (apply keeps_bind; [first [by apply keeps_system|apply keeps_pure|apply keeps_on_disk, triple_calls, beside_staging
    |apply keeps_write|apply (keeps_push [])|apply keeps_for; intros [[[dir name] bytes] mode] files]|intros ?]); [|apply keeps_ret].
  unfold write_payload. apply keeps_bind; [apply (keeps_push [dir])|intros ?]. apply keeps_bind; [apply keeps_write|intros ?]. apply keeps_ret.
Qed.

(** The guard's destructor changes nothing but the staging directory. *)
Lemma triple_drop files (P : items -> Prop) : indifferent staging P -> (forall d, P d -> P (del staging d)) ->
  Forall (fun f : list string * string => exists rest, f.1 = staging :: rest) files ->
  htriple P (drop_guard staging files) (fun _ => P) P.
Proof.
  intros Hi Hd Hf. unfold drop_guard.
  assert (keeps (holds P) (ignoring (remove_dir [] staging))) as Hroot.
  { apply triple_ignoring, triple_system; [|done|done]. intros d d' HP Hc. cbn [at_path] in Hc.
    destruct (get staging d) as [n|]; [|done]. destruct (as_folder n) as [[|]|]; try done. injection Hc as <-. by apply Hd. }
  apply keeps_bind; [|intros _; apply keeps_bind; [|intros _; apply keeps_bind; [|intros _; exact Hroot]]];
    [|by apply triple_ignoring, triple_calls..].
  apply (triple_for (rev files) () (fun f _ => ignoring (Folders.remove_file f.1 f.2)) (fun _ _ => holds P)).
  intros pre f post [] Hl. apply Forall_rev in Hf. rewrite Hl in Hf. apply Forall_app in Hf as [_ Hf].
  inversion_clear Hf as [|?? [rest Hrest] _]. rewrite Hrest. by apply triple_ignoring, triple_calls.
Qed.

(** Installed under [name], besides the staging directory. *)
Definition put (name : string) (tree : items) d : Prop :=
  get name d0 = None /\ complete tree /\ elsewhere [staging] (d0 ++ [(name, Dir tree)]) d.
Definition outcome (name : string) d : Prop := beside d \/ exists tree, put name tree d.

Lemma outcome_staging name : indifferent staging (outcome name).
Proof.
  intros d n [Hb|(tree & Hn & Hc & He)]; [left; by apply beside_staging|right].
  exists tree. split_and!; [done|done|]. apply elsewhere_set; [set_solver|done].
Qed.
Lemma outcome_del name d : outcome name d -> outcome name (del staging d).
Proof.
  intros [Hb|(tree & Hn & Hc & He)]; [left|right]; [apply elsewhere_del; [set_solver|done]|].
  exists tree. split_and!; [done|done|]. apply elsewhere_del; [set_solver|done].
Qed.

Definition rest_of_install (prefix name : string) : prog Staged.Staged InstallReceipt :=
  manifest ← fill staging;
  _ ← on_disk (rename_dir staging name);
  _ ← sync_all;
  mret {| InstallReceipt.prefix := prefix; InstallReceipt.product_version := InstallManifest.product_version manifest;
          InstallReceipt.installed_files := vec_len (InstallManifest.files manifest) + 1 |}.

Definition pushed (s : Staged.Staged) : Prop := Forall (fun f => exists rest, f.1 = staging :: rest) (Staged.files s).

Lemma triple_rest prefix name : get staging d0 = None -> get name d0 = None \/ get name d0 = Some Link -> staging <> name ->
  htriple (fun s => s = {| Staged.disk := d0 ++ [(staging, Dir [])]; Staged.files := [] |}) (rest_of_install prefix name)
    (fun _ s => exists tree, get name d0 = None /\ complete tree /\ Staged.disk s = d0 ++ [(name, Dir tree)])
    (fun s => outcome name (Staged.disk s) /\ pushed s).
Proof.
  intros Hst Hname Hne. unfold rest_of_install.
  eapply (triple_bind _ _ _ (fun _ => holds (fun s => guarding s /\ exists tree, complete tree /\ Staged.disk s = d0 ++ [(staging, Dir tree)]))).
  { intros [fs s] Hs. unfold holds in Hs. cbn [content] in Hs. subst s.
    assert (holds guarding (Build_Disk fs {| Staged.disk := d0 ++ [(staging, Dir [])]; Staged.files := [] |})) as Hg.
    { split; [|constructor]. cbn. intros x Hx. rewrite get_app. cbn [get]. rewrite bool_decide_eq_false_2 by set_solver. by destruct (get x d0). }
    pose proof (keeps_fill _ Hg) as Hk. destruct (fill staging _) as [[m|e] s'] eqn:E.
    - split; [exact Hk|]. by eapply fill_exact.
    - destruct Hk. split; [by left|done]. }
  intros ?. eapply (triple_bind _ _ _ (fun _ => holds (fun s => pushed s /\ exists tree, get name d0 = None /\ complete tree /\ Staged.disk s = d0 ++ [(name, Dir tree)]))).
  { intros [fs s] [[Hb Hf] (tree & Hc & Hd)]. unfold on_disk, zoom. cbn [fates content] in *.
    assert (htriple (fun d => d = d0 ++ [(staging, Dir tree)]) (rename_dir staging name)
      (fun _ d => get name d0 = None /\ d = d0 ++ [(name, Dir tree)]) (outcome name)) as Ht.
    { apply triple_system; [|intros d ->; left; by rewrite <- Hd|intros ? d ->; left; by rewrite <- Hd].
      intros d d' -> Hr. rewrite get_last in Hr by done. cbn [ok_or mbind result_bind] in Hr. rewrite get_app in Hr.
      destruct Hname as [Hn|Hn]; rewrite Hn in Hr; [|done]. cbn [get] in Hr. rewrite bool_decide_eq_false_2 in Hr by done.
      injection Hr as <-. by rewrite del_last, set_new. }
    specialize (Ht (Build_Disk fs (Staged.disk s)) Hd). destruct (rename_dir staging name _) as [[u|e] s'].
    - destruct Ht as [Hn Hs']. split; [exact Hf|]. by exists tree.
    - split; [exact Ht|exact Hf]. }
  intros ?. eapply triple_bind; [apply triple_sync_to|].
  - intros s (Hf & tree & Hn & Hc & Hd). split; [|done]. right. exists tree. split_and!; [done..|]. by rewrite Hd.
  - intros ? s (Hf & Hd). exact Hd.
Qed.

Lemma triple_with_guard {A} (body : prog Staged.Staged A) d (Q : A -> items -> Prop) name :
  htriple (fun s => s = {| Staged.disk := d; Staged.files := [] |}) body (fun a s => Q a (Staged.disk s)) (fun s => outcome name (Staged.disk s) /\ pushed s) ->
  htriple (fun d' => d' = d) (with_guard staging body) Q (outcome name).
Proof.
  intros Hb [fs d'] Hd. unfold holds in Hd. cbn [content] in Hd. subst d'. unfold with_guard. cbn [fates content].
  specialize (Hb (Build_Disk fs {| Staged.disk := d; Staged.files := [] |}) eq_refl). destruct (body _) as [[a|[e|] ] s']; [exact Hb| |apply Hb].
  destruct Hb as [Ho Hf].
  pose proof (triple_drop (Staged.files (content s')) (outcome name) (outcome_staging name) (outcome_del name) Hf (Build_Disk (fates s') (Staged.disk (content s'))) Ho) as Hdrop.
  unfold mbind, op_bind. destruct (drop_guard _ _ _) as [[u|f] s'']; exact Hdrop.
Qed.
End Crash.

(** Installing, on a machine that fails. *)
Definition installs prefix d0 d : Prop :=
  exists name tree, file_name prefix = Some name /\ get name d0 = None /\ complete tree /\ d = d0 ++ [(name, Dir tree)].
Definition interrupted prefix d0 d : Prop :=
  exists staging, beside d0 staging d \/ exists name tree, file_name prefix = Some name /\ put d0 staging name tree d.
Lemma triple_install prefix d0 : htriple (fun d => d = d0) (install prefix) (fun _ => installs prefix d0) (interrupted prefix d0).
Proof.
  unfold installs, interrupted. assert (exists staging, beside d0 staging d0 \/ exists name tree, file_name prefix = Some name /\ put d0 staging name tree d0) as Hno
    by (exists ""; left; apply elsewhere_self).
  assert (forall d, d = d0 -> exists staging, beside d0 staging d \/ exists name tree, file_name prefix = Some name /\ put d0 staging name tree d) as Hno'
    by by intros d ->.
  unfold Lifecycle.install. eapply triple_bind; [exact (triple_read_at _ d0 _ Hno)|].
  intros found. apply triple_pre. intros Hfound. destruct found; [intros s Hs; by apply Hno'|].
  eapply triple_bind; [exact (triple_pure_to _ (fun d => d = d0) _ Hno')|]. intros parent. apply triple_pre. intros _.
  eapply triple_bind; [exact (triple_pure_to _ (fun d => d = d0) _ Hno')|]. intros u. apply triple_pre. intros _.
  eapply triple_bind; [exact (triple_pure_to _ (fun d => d = d0) _ Hno')|]. intros name. apply triple_pre. intros Hname.
  eapply triple_bind; [exact (triple_read_at _ d0 _ Hno)|]. intros stale. apply triple_pre. intros _.
  destruct stale; [intros s Hs; by apply Hno'|]. cbv zeta.
  apply ok_or_Ok in Hname. destruct (file_name prefix) as [name'|] eqn:Hfile; [|done]. cbn [mbind option_bind] in Hname.
  assert (name' = name) as ->.
  { unfold from_utf8 in Hname. destruct (utf8_valid _); [|done]. rewrite string_of_bytes_of_string in Hname. congruence. }
  assert (get name d0 = None \/ get name d0 = Some Link) as Hn.
  { unfold try_exists, present in Hfound. rewrite Hfile in Hfound. destruct (get name d0) as [[]|]; try done; [|by right| |by left];
      by destruct (ends_with 47 prefix). }
  clear Hfound.
  eapply (triple_bind _ _ _ (fun _ => holds (fun d => get (staging_name name) d0 = None /\ d = d0 ++ [(staging_name name, Dir [])]))).
  { apply (triple_system _ _ (fun d => d = d0) (fun d => get (staging_name name) d0 = None /\ d = d0 ++ [(staging_name name, Dir [])]) _);
      [|exact Hno'|intros ?; exact Hno']. intros d d' -> Hc. cbn [at_path] in Hc.
    destruct (get (staging_name name) d0) eqn:E; [done|]. injection Hc as <-. split; [done|]. by apply set_new. }
  intros ?. apply (htriple_prop _ _ (fun d => d = d0 ++ [(staging_name name, Dir [])])). intros Hst.
  eapply htriple_weaken;
    [exact (triple_with_guard d0 _ _ _
      (fun _ d => exists tree, get name d0 = None /\ complete tree /\ d = d0 ++ [(name, Dir tree)]) name (triple_rest d0 _ prefix name Hst Hn (staging_not_name name)))|..].
  - intros receipt d (tree & Hg & Hc & Hd). by exists name, tree.
  - intros d [Hb|(tree & Hp)]; exists (staging_name name); [by left|right; by exists name, tree].
Qed.


(** ** Removing what was installed *)

Section Removal.
Variables (executable_bytes compatibility config manifest : list Z).
Abbreviation tree := (installed_tree executable_bytes compatibility config manifest).
Abbreviation files := (installed_file <$> payloads executable_bytes compatibility config).
Hypothesis Hexe : vec_len executable_bytes <= MAX_INSTALL_FILE_BYTES.
Hypothesis Hcompatibility : vec_len compatibility <= MAX_INSTALL_FILE_BYTES.
Hypothesis Hconfig : vec_len config <= MAX_INSTALL_FILE_BYTES.
Hypothesis Hmanifest : vec_len manifest <= 65536.
Hypothesis Hparse : from_slice (T := InstallManifest) manifest = Some (the_manifest executable_bytes compatibility config).

Lemma verify_file_at dir name bytes mode : Z.land mode 511 = mode -> vec_len bytes <= MAX_INSTALL_FILE_BYTES ->
  validate_relative (dir +:+ "/" +:+ name) = Ok () ->
  lookup through_link (dir +:+ "/" +:+ name) tree = Ok (Some (file mode bytes)) ->
  verify_file through_link tree (installed_file (dir, name, bytes, mode)) =
  if Z.land mode umask =? 0 then Ok () else Err (invalid "installed file mode changed; uninstallation refused").
Proof.
  intros Hmode Hb Hv Hl. unfold verify_file. cbn [installed_file InstalledFile.relative_path InstalledFile.sha256 InstalledFile.mode].
  rewrite Hv, Hl. cbn [mbind result_bind]. unfold new_file, read_regular. destruct (Z.ltb_spec MAX_INSTALL_FILE_BYTES (vec_len bytes)); [lia|].
  cbn [mbind result_bind]. rewrite bool_decide_eq_true_2 by done. cbn [negb].
  rewrite <- Z.land_assoc, (Z.land_comm (Z.lnot umask)), Z.land_assoc, Hmode.
  destruct (Z.eqb_spec (Z.land mode umask) 0) as [Hk|Hk]; [by rewrite land_kept, Z.eqb_refl|].
  destruct (Z.eqb_spec (Z.land mode (Z.lnot umask)) mode) as [He|]; [|done]. by apply land_kept_iff in He.
Qed.

Lemma verify_files : for_each files () (fun f _ => verify_file through_link tree f) =
  if Z.land 493 umask =? 0 then Ok () else Err (invalid "installed file mode changed; uninstallation refused").
Proof.
  cbn [payloads fmap list_fmap for_each].
  rewrite (verify_file_at "bin" "anasemble" executable_bytes 493), (verify_file_at "share" "compatibility-v2.json" compatibility 420),
    (verify_file_at "share" "operations-config-v1.json" config 420); [|done..].
  destruct (Z.eqb_spec (Z.land 493 umask) 0) as [Hk|]; [|done]. cbn [mbind result_bind].
  rewrite (land_sub 420 493 umask eq_refl Hk). reflexivity.
Qed.

Lemma verify_installed a name : get name a = None ->
  verify through_link name (a ++ [(name, Dir tree)]) =
  if Z.land 493 umask =? 0 then Ok (the_manifest executable_bytes compatibility config)
  else Err (invalid "installed file mode changed; uninstallation refused").
Proof.
  intros Ha. unfold verify. rewrite get_last by done. cbn [real_directory mbind result_bind option_bind as_folder item_node default from_option id].
  replace (validate_exact_entries (Some (Dir tree)) ["bin"; "install-manifest-v1.json"; "share"]) with (@Ok Error () ()) by done.
  cbn [mbind result_bind].
  change (get "bin" tree) with (Some (Dir [("anasemble", file 493 executable_bytes)])).
  change (get "share" tree) with (Some (Dir [("compatibility-v2.json", file 420 compatibility); ("operations-config-v1.json", file 420 config)])).
  change (get "install-manifest-v1.json" tree) with (Some (file 420 manifest)).
  cbn [real_directory mbind result_bind].
  replace (validate_exact_entries (Some (Dir [("anasemble", file 493 executable_bytes)])) ["anasemble"]) with (@Ok Error () ()) by done.
  replace (validate_exact_entries (Some (Dir [("compatibility-v2.json", file 420 compatibility); ("operations-config-v1.json", file 420 config)]))
    ["compatibility-v2.json"; "operations-config-v1.json"]) with (@Ok Error () ()) by done.
  cbn [mbind result_bind]. unfold new_file at 1, read_regular. destruct (Z.ltb_spec 65536 (vec_len manifest)); [lia|].
  cbn [mbind result_bind]. rewrite Hparse. cbn [ok_or mbind result_bind].
  change (InstallManifest.files (the_manifest executable_bytes compatibility config)) with files.
  rewrite verify_files. destruct (Z.land 493 umask =? 0); reflexivity.
Qed.

Lemma remove_installed_file a name dir file_ bytes mode fs d :
  names_of (dir +:+ "/" +:+ file_) = [dir; file_] -> ends_with 47 (dir +:+ "/" +:+ file_) = false ->
  get name d = Some (Dir a) -> crosses_link [dir; file_] a = false ->
  remove_installed remove_through_link name (installed_file (dir, file_, bytes, mode)) (Build_Disk fs d)
  = Folders.remove_file [name; dir] file_ (Build_Disk fs d).
Proof.
  intros Hn He Hg Hl. unfold remove_installed. cbn [installed_file InstalledFile.relative_path]. rewrite Hn.
  assert (read (fun parent => Ok (crosses_link [dir; file_] (default [] (get name parent ≫= as_folder)))) (Build_Disk fs d)
    = (Ok false, Build_Disk fs d)) as Hr.
  { apply run_read. cbn [content]. rewrite Hg. cbn [mbind option_bind as_folder item_node default from_option id]. by rewrite Hl. }
  rewrite (run_bind _ _ _ _ _ Hr). cbn iota. by rewrite He.
Qed.
Lemma calm_remove_installed a name dir file_ bytes mode l l' (g : items -> items) :
  names_of (dir +:+ "/" +:+ file_) = [dir; file_] -> ends_with 47 (dir +:+ "/" +:+ file_) = false ->
  get name (g l) = Some (Dir a) -> crosses_link [dir; file_] a = false -> leads [name; dir] g ->
  get file_ l = Some (file mode bytes) -> l' = del file_ l ->
  remove_installed remove_through_link name (installed_file (dir, file_, bytes, mode)) (calm (g l)) = (Ok (), calm (g l')).
Proof.
  intros Hn He Hg Hl Hlead Hf ->. rewrite (remove_installed_file a) by done. by apply (calm_remove _ _ _ _ (file mode bytes)).
Qed.

(** The steps of an uninstallation. *)
Lemma calm_removal d0 name : get name d0 = None ->
  (_ ← op_for files () (fun file _ => remove_installed remove_through_link name file);
   _ ← Folders.remove_file [name] "install-manifest-v1.json";
   _ ← remove_dir [name] "bin";
   _ ← remove_dir [name] "share";
   remove_dir [] name) (calm (d0 ++ [(name, Dir tree)])) = (Ok (), calm d0).
Proof.
  intros Hn. set (m := ("install-manifest-v1.json", file 420 manifest)).
  set (c := ("compatibility-v2.json", file 420 compatibility)). set (o := ("operations-config-v1.json", file 420 config)).
  assert (leads [name] (fun l => d0 ++ [(name, Dir l)])) as Hroot by exact (leads_last name [] d0 _ Hn leads_here).
  assert (leads [name; "bin"] (fun l => d0 ++ [(name, Dir [("bin", Dir l); ("share", Dir [c; o]); m])])) as Hbin
    by exact (leads_last name ["bin"] d0 _ Hn (leads_mid "bin" [] [] _ _ eq_refl leads_here)).
  assert (leads [name; "share"] (fun l => d0 ++ [(name, Dir [("bin", Dir []); ("share", Dir l); m])])) as Hshare
    by exact (leads_last name ["share"] d0 _ Hn (leads_mid "share" [] [("bin", Dir [])] _ _ eq_refl leads_here)).
  assert (op_for files () (fun file _ => remove_installed remove_through_link name file) (calm (d0 ++ [(name, Dir tree)]))
    = (Ok (), calm (d0 ++ [(name, Dir [("bin", Dir []); ("share", Dir []); m])]))) as Hfiles.
  { cbn [payloads fmap list_fmap op_for]. assert (forall x, get name (d0 ++ [(name, x)]) = Some x) as Hget by (intros x; by apply get_last).
    rewrite (run_bind _ _ _ _ _ (calm_remove_installed tree name "bin" "anasemble" executable_bytes 493 [("anasemble", file 493 executable_bytes)] [] _
      eq_refl eq_refl (Hget _) eq_refl Hbin eq_refl eq_refl)).
    rewrite (run_bind _ _ _ _ _ (calm_remove_installed [("bin", Dir []); ("share", Dir [c; o]); m] name "share" "compatibility-v2.json" compatibility 420 [c; o] [o] _
      eq_refl eq_refl (Hget _) eq_refl Hshare eq_refl eq_refl)).
    by rewrite (run_bind _ _ _ _ _ (calm_remove_installed [("bin", Dir []); ("share", Dir [o]); m] name "share" "operations-config-v1.json" config 420 [o] [] _
      eq_refl eq_refl (Hget _) eq_refl Hshare eq_refl eq_refl)). }
  rewrite (run_bind _ _ _ _ _ Hfiles).
  rewrite (run_bind _ _ _ _ _ (calm_remove _ _ "install-manifest-v1.json" [("bin", Dir []); ("share", Dir []); m] (file 420 manifest) Hroot eq_refl eq_refl)).
  rewrite (run_bind _ _ _ _ _ (calm_remove_dir _ _ "bin" [("bin", Dir []); ("share", Dir [])] Hroot eq_refl)).
  rewrite (run_bind _ _ _ _ _ (calm_remove_dir _ _ "share" [("share", Dir [])] Hroot eq_refl)).
  rewrite (calm_remove_dir [] (fun l => l) name _ leads_here) by (by apply get_last). by rewrite del_last.
Qed.

Definition removed prefix : UninstallReceipt :=
  {| UninstallReceipt.prefix := prefix; UninstallReceipt.removed_files := 4; UninstallReceipt.removed_prefix := true |}.

(** Uninstalling what is installed; a parent without components cannot be opened. *)
Lemma calm_uninstall prefix parent d0 name : get name d0 = None ->
  uninstall prefix parent name (calm (d0 ++ [(name, Dir tree)])) =
  if Z.land 493 umask =? 0
  then (match parent with [] => Err (Raised (Io not_found)) | _ => Ok (removed prefix) end, calm d0)
  else (Err (Raised (invalid "installed file mode changed; uninstallation refused")), calm (d0 ++ [(name, Dir tree)])).
Proof.
  intros Hn. unfold Lifecycle.uninstall. unfold mbind at 1, op_bind at 1. unfold read at 1, reads. cbn [content].
  rewrite (verify_installed d0 name Hn). destruct (Z.land 493 umask =? 0); [|done]. cbn [map_err].
  change (InstallManifest.files (the_manifest executable_bytes compatibility config)) with files.
  pose proof (calm_removal d0 name Hn) as Hr.
  apply run_bind_Ok in Hr as (u1 & s1 & H1' & Hr). rewrite (run_bind _ _ _ _ _ H1').
  apply run_bind_Ok in Hr as (u2 & s2 & H2' & Hr). rewrite (run_bind _ _ _ _ _ H2').
  apply run_bind_Ok in Hr as (u3 & s3 & H3' & Hr). rewrite (run_bind _ _ _ _ _ H3').
  apply run_bind_Ok in Hr as (u4 & s4 & H4' & Hr). rewrite (run_bind _ _ _ _ _ H4').
  rewrite (run_bind _ _ _ _ _ Hr). by destruct parent.
Qed.
End Removal.

(** The encoded manifests are as small as the source expects. *)
Definition sizes_fit : Prop :=
  (forall bytes, encode compatibility_default = Ok bytes -> vec_len bytes <= MAX_INSTALL_FILE_BYTES) /\
  (forall bytes, encode Operations.OperationsConfig.default = Ok bytes -> vec_len bytes <= MAX_INSTALL_FILE_BYTES) /\
  (forall exe compat config bytes, encode (the_manifest exe compat config) = Ok bytes -> vec_len bytes <= 65536).

Lemma complete_parts tree : SerdeLaws InstallManifest -> sizes_fit -> complete tree ->
  exists exe compat config manifest, tree = installed_tree exe compat config manifest /\
    vec_len exe <= MAX_INSTALL_FILE_BYTES /\ vec_len compat <= MAX_INSTALL_FILE_BYTES /\
    vec_len config <= MAX_INSTALL_FILE_BYTES /\ vec_len manifest <= 65536 /\
    from_slice (T := InstallManifest) manifest = Some (the_manifest exe compat config).
Proof.
  intros Hserde (Hc & Ho & Hm) (item & exe & compat & config & manifest & _ & He & Hec & Heo & Hem & ->).
  exists exe, compat, config, manifest. split_and!; [done| |by apply Hc|by apply Ho|by eapply Hm|by apply from_slice_encode].
  unfold read_regular in He. destruct item as [[]|]; try done. destruct (Z.ltb_spec MAX_INSTALL_FILE_BYTES (vec_len contents)); [done|].
  by injection He as <-.
Qed.

(** C26: Uninstalling undoes installing: it restores exactly what the directory held before,
    if the umask of the installing process clears none of the bits 0755.  Under any other
    umask, such as 027 or 077, what has just been installed is refused as changed, because
    the manifest records the mode that was asked for, and it stays. *)
Theorem uninstall_undoes_install prefix parent d0 receipt s' : SerdeLaws InstallManifest -> sizes_fit -> parent <> [] ->
  install prefix (calm d0) = (Ok receipt, s') ->
  exists name, file_name prefix = Some name /\ get name (content s') <> None /\
    uninstall prefix parent name (calm (content s')) =
    if Z.land 493 umask =? 0 then (Ok (removed prefix), calm d0)
    else (Err (Raised (invalid "installed file mode changed; uninstallation refused")), calm (content s')).
Proof.
  intros Hserde Hsizes Hparent Hrun.
  pose proof (triple_install prefix d0 (calm d0) eq_refl) as Ht. rewrite Hrun in Ht. destruct Ht as (name & tree & Hf & Hn & Hc & Hd).
  destruct (complete_parts tree Hserde Hsizes Hc) as (exe & compat & config & manifest & -> & H1' & H2' & H3' & H4' & Hp).
  exists name. split; [done|]. unfold holds in Hd. rewrite Hd. split; [by rewrite get_last|].
  rewrite (calm_uninstall exe compat config manifest) by done. by destruct parent.
Qed.

(** An uninstallation that stops after it has removed a file cannot be completed: what
    is left is refused by every later uninstallation, whose check wants the files to be
    there, and by every installation under that prefix, and neither changes anything. *)
Theorem interrupted_uninstall_is_stuck prefix parent d0 tree name n : SerdeLaws InstallManifest -> sizes_fit ->
  complete tree -> Z.land 493 umask = 0 -> get name d0 = None -> file_name prefix = Some name ->
  exists left, get name left <> None /\
    uninstall prefix parent name (Build_Disk [Goes; Stops n] (d0 ++ [(name, Dir tree)])) = (Err Stopped, calm left) /\
    uninstall prefix parent name (calm left)
    = (Err (Raised (invalid "installation topology differs from its owned manifest")), calm left) /\
    install prefix (calm left) = (Err (Raised (invalid "installation prefix already exists")), calm left).
Proof.
  intros Hserde Hsizes Hc Hu Hn Hf. destruct (complete_parts tree Hserde Hsizes Hc) as (exe & compat & config & manifest & -> & H1' & H2' & H3' & H4' & Hp).
  set (share := ("share", Dir [("compatibility-v2.json", file 420 compat); ("operations-config-v1.json", file 420 config)])).
  set (m := ("install-manifest-v1.json", file 420 manifest)).
  assert (forall x, get name (d0 ++ [(name, x)]) = Some x) as Hget by (intros x; by apply get_last).
  exists (d0 ++ [(name, Dir [("bin", Dir []); share; m])]). split_and!; [by rewrite Hget|..].
  - unfold Lifecycle.uninstall. unfold mbind at 1, op_bind at 1. unfold read at 1, reads. cbn [content].
    rewrite (verify_installed exe compat config manifest) by done. rewrite Hu. cbn [map_err Z.eqb].
    apply run_bind_Err. change (InstallManifest.files _) with (installed_file <$> payloads exe compat config).
    cbn [payloads fmap list_fmap op_for].
    assert (leads [name; "bin"] (fun l => d0 ++ [(name, Dir [("bin", Dir l); share; m])])) as Hbin
      by exact (leads_last name ["bin"] d0 _ Hn (leads_mid "bin" [] [] _ _ eq_refl leads_here)).
    assert (remove_installed remove_through_link name (installed_file ("bin", "anasemble", exe, 493))
        (Build_Disk [Goes; Stops n] (d0 ++ [(name, Dir (installed_tree exe compat config manifest))]))
      = (Ok (), Build_Disk [Stops n] (d0 ++ [(name, Dir [("bin", Dir []); share; m])]))) as Hfirst.
    { rewrite (remove_installed_file (installed_tree exe compat config manifest)) by first [done|apply Hget].
      exact (goes_calls _ _ _ [("anasemble", file 493 exe)] [] [Stops n] Hbin eq_refl). }
    rewrite (run_bind _ _ _ _ _ Hfirst). apply run_bind_Err.
    rewrite (remove_installed_file [("bin", Dir []); share; m]) by first [done|apply Hget]. apply stops_calls.
  - apply run_bind_Err. unfold read, reads. cbn [content]. unfold verify. rewrite Hget. reflexivity.
  - unfold Lifecycle.install. erewrite run_bind by (apply (run_read _ true); cbn [content]; unfold try_exists, present; by rewrite Hf, Hget).
    done.
Qed.
End Laws.

Module LifecycleWitness.
#[local] Existing Instances Toy.sha Toy.hexi Toy.sha_laws Toy.hex_laws ToyJson.text Protocol.ProtocolWitness.error_text WorkspaceWitness.os_errors.
#[local] Instance directory_errors : DirectoryErrorText := {| is_a_directory := "is a directory"; Disk.not_a_directory := "not a directory" |}.
#[local] Instance not_empty_text : NotEmptyText := "directory not empty".
#[local] Instance links : LinkTargets := fun _ => false.
#[local] Instance serialise_compatibility : ToValue CompatibilityManifest := fun m =>
  Some (Object [("version", String (CompatibilityManifest.version m))]).
#[local] Instance serialise_config : ToValue Operations.OperationsConfig.OperationsConfig := fun c =>
  Some (Object [("version", String (Operations.OperationsConfig.version c))]).
#[local] Instance serialise_manifest : ToValue InstallManifest := fun m =>
  Some (Object [("version", String (InstallManifest.version m)); ("product_version", String (InstallManifest.product_version m));
    ("files", Array ((fun f => Object [("relative_path", String (InstalledFile.relative_path f));
       ("sha256", String (InstalledFile.sha256 f)); ("mode", Number (PosInt (InstalledFile.mode f)))]) <$> InstallManifest.files m))]).

Definition file_of_value (v : json) : option InstalledFile :=
  match v with
  | Object [("relative_path", String p); ("sha256", String s); ("mode", Number (PosInt n))] =>
      Some {| InstalledFile.relative_path := p; InstalledFile.sha256 := s; InstalledFile.mode := n |}
  | _ => None
  end.
Definition manifest_of_value (v : json) : option InstallManifest :=
  match v with
  | Object [("version", String version); ("product_version", String product); ("files", Array files)] =>
      l ← mapM file_of_value files;
      Some {| InstallManifest.version := version; InstallManifest.product_version := product; InstallManifest.files := l |}
  | _ => None
  end.
#[local] Instance parse_manifest : FromSlice InstallManifest := ToyJson.from_text manifest_of_value.
#[local] Instance manifest_laws : SerdeLaws InstallManifest.
Proof.
  apply ToyJson.from_text_laws. intros [version product files] v [= <-]. cbn.
  assert (mapM file_of_value ((fun f => Object [("relative_path", String (InstalledFile.relative_path f));
    ("sha256", String (InstalledFile.sha256 f)); ("mode", Number (PosInt (InstalledFile.mode f)))]) <$> files) = Some files) as Hm.
  { induction files as [|[p s n] files IH]; [done|]. cbn. cbn in IH. by rewrite IH. }
  cbn in Hm. by rewrite Hm.
Qed.

Lemma small : sizes_fit.
Proof.
  split_and!; [by intros bytes [= <-]..|]. intros exe compat config bytes [= <-].
  pose proof (proj1 (bytes_digest_hex exe)) as He. pose proof (proj1 (bytes_digest_hex compat)) as Hc.
  pose proof (proj1 (bytes_digest_hex config)) as Ho. unfold the_manifest, payloads, installed_file. cbn [fmap list_fmap].
  change ("bin" +:+ "/" +:+ "anasemble") with "bin/anasemble".
  change ("share" +:+ "/" +:+ "compatibility-v2.json") with "share/compatibility-v2.json".
  change ("share" +:+ "/" +:+ "operations-config-v1.json") with "share/operations-config-v1.json".
  revert He Hc Ho. generalize (bytes_digest exe), (bytes_digest compat), (bytes_digest config). intros e c o He Hc Ho.
  rewrite <- bytes_of_string_length in He, Hc, Ho. unfold vec_len. cbn. repeat (rewrite length_app; cbn [length]). lia.
Qed.

Definition running : result Error (option Item) := Ok (Some (PlainFile 493 [127; 69; 76; 70])).
Definition above : list Component -> option Item := fun _ => Some (Dir []).
Definition nothing : string -> bool := fun _ => false.
Definition no_link : list string -> option Item := fun _ => None.
Definition no_removal : list string -> result Error () := fun _ => Err (Io not_found).
Definition opt : items := [("other", Dir [])].

(** The disk is full when the configuration is written: the guard removes everything. *)
Definition full_disk : list Fate := replicate 13 Goes ++ [Breaks "no space left on device" 2].
Lemma full : install 18 7 running above nothing "/opt/anasemble" (Build_Disk full_disk opt)
  = (Err (Raised (Io "no space left on device")), calm opt).
Proof. vm_compute. reflexivity. Qed.

Lemma installed_receipt : exists receipt d,
  install 18 7 running above nothing "/opt/anasemble" (calm opt) = (Ok receipt, calm d) /\ InstallReceipt.installed_files receipt = 4.
Proof. do 2 eexists. split; [vm_compute; reflexivity|reflexivity]. Qed.
Lemma uninstall_undoes_install_witness :
  exists d, uninstall no_link no_removal "/opt/anasemble" [RootDir; Normal "opt"] "anasemble" (calm d) = (Ok (removed "/opt/anasemble"), calm opt) /\
    get "anasemble" d <> None.
Proof.
  destruct installed_receipt as (receipt & d & Hrun & _).
  destruct (uninstall_undoes_install 18 7 running above nothing no_link no_removal "/opt/anasemble" [RootDir; Normal "opt"] opt receipt (calm d)
    manifest_laws small ltac:(done) Hrun) as (name & Hf & Hthere & Hun).
  injection Hf as <-. exists d. split; [exact Hun|exact Hthere].
Defined.

Definition whole_tree : items :=
  installed_tree 18 [127; 69; 76; 70]
    (match encode compatibility_default with Ok b => b | Err _ => [] end)
    (match encode Operations.OperationsConfig.default with Ok b => b | Err _ => [] end)
    (match encode (the_manifest [127; 69; 76; 70] (match encode compatibility_default with Ok b => b | Err _ => [] end)
       (match encode Operations.OperationsConfig.default with Ok b => b | Err _ => [] end)) with Ok b => b | Err _ => [] end).
Lemma whole_tree_complete : complete 18 running whole_tree.
Proof. do 5 eexists. split_and!; reflexivity. Qed.

Lemma interrupted_uninstall_is_stuck_witness : exists left,
  uninstall no_link no_removal "/opt/anasemble" [RootDir; Normal "opt"] "anasemble" (calm left)
  = (Err (Raised (invalid "installation topology differs from its owned manifest")), calm left) /\ get "anasemble" left <> None.
Proof.
  destruct (interrupted_uninstall_is_stuck 18 7 running above nothing no_link no_removal "/opt/anasemble" [RootDir; Normal "opt"] opt whole_tree "anasemble" 0
    manifest_laws small whole_tree_complete eq_refl eq_refl eq_refl) as (left & Hthere & _ & Hun & _).
  exists left. split; [exact Hun|exact Hthere].
Defined.
End LifecycleWitness.
