(* ===== verification/KeyFiles.v ===== *)
(** src/fragments.rs, its key files: a signing key written to a new file that only its owner
    can read, and read again. *)
From S2P Require Import Prelude Effects FileTree External Json Core Model Canonical Disk Folders Lifecycle.
From S2P Require Import Fragments.

Section KeyFiles.
Context `{OsErrorText, DirectoryErrorText, NotEmptyText, SerdeErrorText, JsonText, Sha256, Hex, Hmac, Ed25519, Jiff}.
Context `{!ToValue SigningKeyFile.SigningKeyFile, !FromSlice SigningKeyFile.SigningKeyFile}.
Abbreviation SigningKeyFile := SigningKeyFile.SigningKeyFile.

(** The process's umask and the 32 bytes it draws. *)
Variables (umask : Z) (random : list Z).

(** The file is created with mode 0600. *)
Definition write_secret_new (name : string) (data : list Z) : prog items () := write_new (new_file umask 384) [] name data.

Definition create_signing_key (name key_id created_at : string) : prog items () :=
  file ← pure (new_signing_key random key_id created_at);
  data ← pure (encode file);
  write_secret_new name data.

(** By a process the mode of the file lets read it. *)
Definition read_signing_key (file : option Item) : result Error SigningKeyFile :=
  match file with
  | None => Err (Io not_found)
  | Some (PlainFile mode bytes) =>
      if 4096 <? vec_len bytes then Err (InvalidRegistry "signing key must be a bounded regular file") else
      if negb (Z.land mode 63 =? 0) then Err (InvalidRegistry "signing key permissions must exclude group and other") else
      key ← ok_or (from_slice (T := SigningKeyFile) bytes) (InvalidRegistry ("signing key is invalid: " +:+ serde_error_text));
      _ ← validate_signing_key key;
      Ok key
  | Some _ => Err (InvalidRegistry "signing key must be a bounded regular file")
  end.

Lemma new_key_valid `{!HexLaws} key_id created_at t : length random = 32%nat -> Forall is_byte random ->
  validate_key_id key_id = Ok () -> parse_time created_at "signing key created_at" = Ok t ->
  validate_signing_key {| SigningKeyFile.version := "ed25519-key-v1"; SigningKeyFile.key_id := key_id;
    SigningKeyFile.secret_key_hex := hex_encode random; SigningKeyFile.public_key_hex := hex_encode (ed_public random);
    SigningKeyFile.created_at := created_at |} = Ok ().
Proof.
  intros Hl Hb Hid Ht. unfold validate_signing_key.
  cbn [SigningKeyFile.version SigningKeyFile.key_id SigningKeyFile.created_at SigningKeyFile.secret_key_hex SigningKeyFile.public_key_hex].
  rewrite (bool_decide_eq_true_2 ("ed25519-key-v1" = "ed25519-key-v1")) by done. rewrite Hid, Ht. cbn [negb mbind result_bind ok_or].
  rewrite hex_decode_encode by done. cbn [ok_or mbind result_bind].
  rewrite (proj2 (try_into_array_Some 32 _ random)) by done. cbn [ok_or mbind result_bind].
  by rewrite bool_decide_eq_true_2.
Qed.

(** Whatever the umask takes away, the modes of a key that was created keep the group and
    the others out: its owner reads it (if the umask leaves the owner that), and it is the
    key of the bytes drawn. *)
Theorem created_key_is_read `{!HexLaws, !SerdeLaws SigningKeyFile} name key_id created_at d0 s :
  length random = 32%nat -> Forall is_byte random ->
  (forall key bytes, encode (T := SigningKeyFile) key = Ok bytes -> vec_len bytes <= 4096) ->
  create_signing_key name key_id created_at (calm d0) = (Ok (), s) ->
  exists key, new_signing_key random key_id created_at = Ok key /\ read_signing_key (get name (content s)) = Ok key /\
    (forall x, x <> name -> get x (content s) = get x d0).
Proof.
  intros Hl Hb Hsize Hr. unfold create_signing_key in Hr. apply run_bind_Ok in Hr as (key & s1 & [Hk ->]%run_pure_Ok & Hr).
  apply run_bind_Ok in Hr as (bytes & s2 & [He ->]%run_pure_Ok & Hr). exists key. split; [done|].
  unfold write_secret_new in Hr. destruct (get name d0) as [n|] eqn:Hn.
  { exfalso. revert Hr. unfold write_new, calls_at, system, mbind, op_bind. cbn [fates content at_path]. by rewrite Hn. }
  rewrite (calm_write_new (new_file umask 384) [] (fun l => l) name bytes d0 leads_here Hn) in Hr. injection Hr as <-. cbn [content].
  split; [|intros x Hx; rewrite get_app; cbn [get]; rewrite bool_decide_eq_false_2 by done; by destruct (get x d0)].
  rewrite get_last by done. unfold new_file, read_signing_key.
  destruct (Z.ltb_spec 4096 (vec_len bytes)); [by specialize (Hsize _ _ He); lia|].
  rewrite <- Z.land_assoc, (Z.land_comm (Z.lnot umask)), Z.land_assoc. cbn [Z.land Z.eqb negb Pos.land Pos.Ndouble Z.of_N].
  rewrite (from_slice_encode _ _ He). cbn [ok_or mbind result_bind].
  unfold new_signing_key in Hk. apply bind_Ok in Hk as ([] & Hid & Hk). apply bind_Ok in Hk as (t & Ht & [= <-]).
  pose proof (new_key_valid key_id created_at t Hl Hb Hid Ht) as Hv. by rewrite Hv.
Qed.
End KeyFiles.
