(* ===== verification/Activation.v ===== *)
(** src/activation.rs, what its parts share and the sandbox: isolation policies, operator
    approvals, validation of names, images and arguments, the calls of the docker command
    and [DockerSandbox].  The world outside is a state [D] with the two commands the
    program runs and the clock; files are those of a healthy disk. *)
From stdpp Require Import pretty.
From S2P Require Import Prelude Effects External Json Core Model Canonical Text.

Definition MAX_DOCKER_OUTPUT : Z := 1048576.
Definition MAX_ARGUMENTS : Z := 128.
Definition MAX_ARGUMENT_BYTES : Z := 16384.

Module IsolationPolicy.
Record IsolationPolicy := {
  cpu_millis : Z;
  memory_bytes : Z;
  pids : Z;
  wall_time_ms : Z;
  output_bytes : Z;
  writable_tmpfs_bytes : Z;
  linux_capabilities : list string;
  network_egress_allowlist : list string;
}.
End IsolationPolicy.

Module SecretReference.
Record SecretReference := { id : string; source_file : string; mount_path : string }.
End SecretReference.

Module SandboxRequest.
Record SandboxRequest := {
  image : string;
  command : list string;
  policy : IsolationPolicy.IsolationPolicy;
}.
End SandboxRequest.

Module SandboxReceipt.
Record SandboxReceipt := {
  image : string;
  exit_code : Z;
  stdout : list Z;
  stderr : list Z;
  timed_out : bool;
  policy_sha256 : string;
}.
End SandboxReceipt.

Module OperatorApproval.
Record OperatorApproval := {
  version : string;
  plan_sha256 : string;
  artifact_sha256 : string;
  operator_key_id : string;
  approved_at : string;
  signature : string;
}.
End OperatorApproval.

Module ApprovalPayload.
Record ApprovalPayload := {
  version : string;
  plan_sha256 : string;
  artifact_sha256 : string;
  operator_key_id : string;
  approved_at : string;
}.
End ApprovalPayload.

Module ApprovalPolicy.
Record ApprovalPolicy := {
  operator_keys : btree_map string (list Z);
  not_before : string;
  not_after : string;
}.
End ApprovalPolicy.

Abbreviation IsolationPolicy := IsolationPolicy.IsolationPolicy.
Abbreviation SecretReference := SecretReference.SecretReference.
Abbreviation SandboxRequest := SandboxRequest.SandboxRequest.
Abbreviation SandboxReceipt := SandboxReceipt.SandboxReceipt.
Abbreviation OperatorApproval := OperatorApproval.OperatorApproval.
Abbreviation ApprovalPayload := ApprovalPayload.ApprovalPayload.
Abbreviation ApprovalPolicy := ApprovalPolicy.ApprovalPolicy.

Definition invalid (message : string) : Error := InvalidEvidence message.
Definition backend (error : string) : Error := InvalidEvidence ("activation backend error: " +:+ error).
Definition interrupted (point : string) : Error := Io ("injected interruption " +:+ point).

(** The texts of errors that only end up in messages. *)
Class ActivationErrorText := {
  int_error : string; time_error : string; key_error : string; hex_error : string;
}.

(** ** Validation *)

Definition validate_label (value : string) : result Error () :=
  if str_is_empty value || (64 <? str_len value)
     || negb (all (fun byte => is_ascii_alphanumeric byte || contains byte [46; 95; 45]) (bytes_of_string value))
  then Err (invalid "identifier is empty, too long, or unsafe") else Ok ().

Definition validate_digest `{Hex} (value : string) : result Error () :=
  if negb (str_len value =? 64)
     || match hex_decode value with Some bytes => negb (vec_len bytes =? 32) | None => true end
  then Err (invalid "expected a SHA-256 digest") else Ok ().

Definition validate_immutable_image `{Hex} (image : string) : result Error () :=
  match rsplit_once_str "@sha256:" image with
  | Some (_, digest) => validate_digest digest
  | None => Err (invalid "container image must use an immutable sha256 digest")
  end.

Definition validate_arguments (args : list string) : result Error () :=
  if bool_decide (args = []) || (MAX_ARGUMENTS <? vec_len args)
     || (MAX_ARGUMENT_BYTES <? foldr (fun value total => str_len value + total) 0 args)
     || any (fun value => str_is_empty value || contains 0 (bytes_of_string value)) args
  then Err (invalid "container command is empty or exceeds argument bounds") else Ok ().

Definition supported_capabilities : list string :=
  ["CHOWN"; "DAC_OVERRIDE"; "FOWNER"; "KILL"; "NET_BIND_SERVICE"; "SETGID"; "SETUID"].

(** [IsolationPolicy::validate] *)
Definition validate_policy (self : IsolationPolicy) : result Error () :=
  if negb (in_range 10 4000 (IsolationPolicy.cpu_millis self))
     || negb (in_range (16 * 1024 * 1024) (2 * 1024 * 1024 * 1024) (IsolationPolicy.memory_bytes self))
     || negb (in_range 1 512 (IsolationPolicy.pids self))
     || negb (in_range 10 300000 (IsolationPolicy.wall_time_ms self))
     || negb (in_range 1 MAX_DOCKER_OUTPUT (IsolationPolicy.output_bytes self))
     || negb (in_range (1024 * 1024) (256 * 1024 * 1024) (IsolationPolicy.writable_tmpfs_bytes self))
  then Err (invalid "isolation resource policy is outside supported bounds") else
  if negb (bool_decide (IsolationPolicy.network_egress_allowlist self = []))
  then Err (invalid "the Docker profile supports only an empty network egress allowlist") else
  if 16 <? vec_len (IsolationPolicy.linux_capabilities self)
  then Err (invalid "capability allowlist exceeds sixteen entries") else
  if any (fun capability => negb (contains capability supported_capabilities)) (IsolationPolicy.linux_capabilities self)
  then Err (invalid "capability allowlist contains an unsupported capability") else Ok ().

(** ** Approvals *)

Section Approvals.
Context `{SerdeErrorText, JsonText, Sha256, Hex, Ed25519, Jiff, ActivationErrorText}.
Context `{!ToValue ApprovalPayload}.

Definition approval_payload (approval : OperatorApproval) : result Error (list Z) :=
  encode {| ApprovalPayload.version := OperatorApproval.version approval;
            ApprovalPayload.plan_sha256 := OperatorApproval.plan_sha256 approval;
            ApprovalPayload.artifact_sha256 := OperatorApproval.artifact_sha256 approval;
            ApprovalPayload.operator_key_id := OperatorApproval.operator_key_id approval;
            ApprovalPayload.approved_at := OperatorApproval.approved_at approval |}.

(** [ApprovalPolicy::verify] *)
Definition verify_approval (self : ApprovalPolicy) (approval : OperatorApproval)
  (plan_sha256 artifact_sha256 : string) : result Error () :=
  let keys := ApprovalPolicy.operator_keys self in
  if bool_decide (keys = []) || (64 <? vec_len keys)
  then Err (invalid "operator trust policy must contain one to sixty-four keys") else
  _ ← for_each keys.*1 () (fun key_id _ => validate_label key_id);
  if negb (bool_decide (OperatorApproval.version approval = "operator-approval-v1"))
     || negb (bool_decide (OperatorApproval.plan_sha256 approval = plan_sha256))
     || negb (bool_decide (OperatorApproval.artifact_sha256 approval = artifact_sha256))
  then Err (invalid "operator approval does not bind the activation plan") else
  _ ← validate_digest plan_sha256;
  _ ← validate_digest artifact_sha256;
  approved_at ← ok_or (ts_from_str (OperatorApproval.approved_at approval)) (backend time_error);
  not_before ← ok_or (ts_from_str (ApprovalPolicy.not_before self)) (backend time_error);
  not_after ← ok_or (ts_from_str (ApprovalPolicy.not_after self)) (backend time_error);
  if (approved_at <? not_before) || (not_after <? approved_at) || (not_after <? not_before)
  then Err (invalid "operator approval is outside its trusted time window") else
  key ← ok_or (bt_get (OperatorApproval.operator_key_id approval) keys)
              (invalid "operator approval key is not trusted");
  if negb (ed_key_ok key) then Err (backend key_error) else
  signature_bytes ← ok_or (hex_decode (OperatorApproval.signature approval)) (backend hex_error);
  if negb (vec_len signature_bytes =? 64) then Err (invalid "operator approval signature length is invalid") else
  payload ← approval_payload approval;
  if ed_verify key payload signature_bytes then Ok () else Err (invalid "operator approval signature is invalid").
End Approvals.

(** ** The world outside *)

Module Output.
Record Output := { success : bool; stdout : list Z; stderr : list Z }.
End Output.
Abbreviation Output := Output.Output.

(** Running the docker command to its end, and the clock, in nanoseconds. *)
Class Docker (D : Type) := {
  docker_command : list string -> op D string Output;
  instant_now : D -> Z;
  thread_sleep : Z -> D -> D;
}.

Inductive PathEntry := FileEntry (mode : Z) (bytes : list Z) | FolderEntry | LinkEntry.

Record Machine (D : Type) := { daemon : D; files : gmap string PathEntry }.
Arguments daemon {D} _.
Arguments files {D} _.
Arguments Build_Machine {D} _ _.

(** [Path::canonicalize] of a path. *)
Class Canonicalize := canonicalize : gmap string PathEntry -> string -> result string string.

(** A value whose destructor is [release], run whatever the outcome is. *)
Definition guarded {S A} (body : op S Error A) (release : op S Error ()) : op S Error A := fun s =>
  let '(r, s) := body s in let '(_, s) := release s in (r, s).

(** What to do about an error, with the store as the failure left it. *)
Definition on_error {S A} (body : op S Error A) (handler : Error -> op S Error A) : op S Error A := fun s =>
  match body s with
  | (Ok a, s) => (Ok a, s)
  | (Err e, s) => handler e s
  end.

Section World.
Context {D : Type} `{Docker D}.
Context `{ActivationErrorText}.
Abbreviation act A := (op (Machine D) Error A).

Definition docker_output (args : list string) : act Output := fun m =>
  let '(r, d) := docker_command args (daemon m) in (map_err Io r, Build_Machine d (files m)).

Definition output_len (output : Output) : Z :=
  saturating_add_u64 (vec_len (Output.stdout output)) (vec_len (Output.stderr output)).

Definition docker_raw (args : list string) : act Output :=
  output ← docker_output args;
  if MAX_DOCKER_OUTPUT <? output_len output then fail (invalid "Docker output exceeded 1 MiB") else
  if negb (Output.success output)
  then fail (invalid ("Docker operation failed: " +:+ trim (from_utf8_lossy (Output.stderr output)))) else
  mret output.

Definition docker (args : list string) : act () := _ ← docker_raw args; mret ().
Definition docker_bytes (args : list string) : act (list Z) :=
  output ← docker_raw args;
  if MAX_DOCKER_OUTPUT <? vec_len (Output.stdout output) then fail (invalid "Docker output exceeded 1 MiB") else
  mret (Output.stdout output).
Definition docker_text (args : list string) : act string :=
  bytes ← docker_bytes args;
  lift (ok_or (from_utf8 bytes) (invalid "Docker returned non-UTF-8 output")).

Definition container_exists (name : string) : act bool :=
  status ← docker_output ["container"; "inspect"; name];
  mret (Output.success status).

Definition label_template (label : string) : string :=
  "{{index .Config.Labels " +:+ string_of_bytes [34] +:+ label +:+ string_of_bytes [34] +:+ "}}".

Definition container_label (name label : string) : act (option string) :=
  found ← container_exists name;
  if negb found then mret None else
  value ← docker_text ["inspect"; "--format"; label_template label; name];
  let value := trim value in
  mret (if negb (str_is_empty value) && negb (bool_decide (value = "<no value>")) then Some value else None).

Definition container_image (name : string) : act (option string) :=
  found ← container_exists name;
  if negb found then mret None else
  value ← docker_text ["inspect"; "--format"; "{{.Config.Image}}"; name];
  mret (Some (trim value)).

Definition inspect_bool (name template : string) : act bool :=
  value ← docker_text ["inspect"; "--format"; template; name];
  let value := trim value in
  if bool_decide (value = "true") then mret true else
  if bool_decide (value = "false") then mret false else
  fail (invalid "Docker inspect returned an invalid boolean").

Definition inspect_i64 (name template : string) : act Z :=
  value ← docker_text ["inspect"; "--format"; template; name];
  lift (ok_or (parse_i64 (trim value)) (backend int_error)).

Definition remove_if_exists (name : string) : act () :=
  found ← container_exists name;
  if found : bool then docker ["rm"; "--force"; name] else mret ().

(** [unique_name], with the process and the time of the call. *)
Definition unique_name (prefix : string) (pid nanosecond : Z) : string :=
  prefix +:+ "-" +:+ pretty pid +:+ "-" +:+ pretty nanosecond.

(** [ContainerGuard::drop] *)
Definition drop_container (name : string) : act () :=
  if String.prefix "anasemble-sandbox-" name
  then _ ← docker_output ["rm"; "--force"; name]; mret () else mret ().

Definition now : act Z := fun m => (Ok (instant_now (daemon m)), m).
Definition sleep (milliseconds : Z) : act () := fun m =>
  (Ok (), Build_Machine (thread_sleep (milliseconds * 1000000) (daemon m)) (files m)).

(** ** The sandbox *)

Section Sandbox.
Context `{SerdeErrorText, JsonText, Sha256, Hex, !ToValue IsolationPolicy}.

(** The options of both [create] commands that the policy sets, before and after the
    file system's. *)
Definition limit_args (policy : IsolationPolicy) : list string :=
  ["--read-only"; "--cap-drop"; "ALL"; "--security-opt"; "no-new-privileges";
   "--pids-limit"; pretty (IsolationPolicy.pids policy);
   "--memory"; pretty (IsolationPolicy.memory_bytes policy);
   "--memory-swap"; pretty (IsolationPolicy.memory_bytes policy);
   "--cpus"; thousandths (IsolationPolicy.cpu_millis policy);
   "--tmpfs"; "/tmp:rw,noexec,nosuid,nodev,size=" +:+ pretty (IsolationPolicy.writable_tmpfs_bytes policy)].
Definition capability_args (policy : IsolationPolicy) : list string :=
  IsolationPolicy.linux_capabilities policy ≫= fun capability => ["--cap-add"; capability].

Definition sandbox_args (request : SandboxRequest) (name : string) : list string :=
  let policy := SandboxRequest.policy request in
  ["create"; "--name"; name; "--network"; "none"] ++ limit_args policy
  ++ ["--log-opt"; "max-size=1m"; "--log-opt"; "max-file=1"] ++ capability_args policy
  ++ [SandboxRequest.image request] ++ SandboxRequest.command request.

(** The loop that waits for the container, [None] when [fuel] turns are not enough. *)
Fixpoint await_exit (fuel : nat) (name : string) (deadline : Z) : act (option (Z * bool)) :=
  match fuel with
  | O => mret None
  | S fuel =>
      running ← inspect_bool name "{{.State.Running}}";
      if negb running then
        exit_code ← inspect_i64 name "{{.State.ExitCode}}"; mret (Some (exit_code, false))
      else
        time ← now;
        if deadline <=? time then
          _ ← docker ["kill"; name];
          exit_code ← inspect_i64 name "{{.State.ExitCode}}"; mret (Some (exit_code, true))
        else _ ← sleep 20; await_exit fuel name deadline
  end.

(** One turn for every 20 ms, and two. *)
Definition sandbox_fuel (policy : IsolationPolicy) : nat :=
  Z.to_nat (IsolationPolicy.wall_time_ms policy / 20 + 2).

(** What [DockerSandbox::run] does while the container is there. *)
Definition sandbox_body (request : SandboxRequest) (name : string) : act (option (Z * bool * Output)) :=
  let policy := SandboxRequest.policy request in
  _ ← docker ["start"; name];
  start ← now;
  outcome ← await_exit (sandbox_fuel policy) name (start + IsolationPolicy.wall_time_ms policy * 1000000);
  match outcome with
  | None => mret None
  | Some outcome =>
      logs ← docker_raw ["logs"; name];
      if IsolationPolicy.output_bytes policy <? output_len logs
      then fail (invalid "sandbox output exceeded the configured byte bound") else
      mret (Some (outcome, logs))
  end.

Definition sandbox_run (request : SandboxRequest) (pid nanosecond : Z) : act (option SandboxReceipt) :=
  _ ← lift (validate_policy (SandboxRequest.policy request));
  _ ← lift (validate_immutable_image (SandboxRequest.image request));
  _ ← lift (validate_arguments (SandboxRequest.command request));
  let name := unique_name "anasemble-sandbox" pid nanosecond in
  _ ← docker (sandbox_args request name);
  finished ← guarded (sandbox_body request name) (drop_container name);
  match finished with
  | None => mret None
  | Some (exit_code, timed_out, logs) =>
      policy_sha256 ← lift (digest (SandboxRequest.policy request));
      mret (Some {| SandboxReceipt.image := SandboxRequest.image request;
                    SandboxReceipt.exit_code := exit_code;
                    SandboxReceipt.stdout := Output.stdout logs;
                    SandboxReceipt.stderr := Output.stderr logs;
                    SandboxReceipt.timed_out := timed_out;
                    SandboxReceipt.policy_sha256 := policy_sha256 |})
  end.
End Sandbox.
End World.

(** Handlers, on views. *)
Section Views.
Context {S V : Type} (look : S -> V).

Lemma takes_on_error {A} (p : op S Error A) h v e w r x :
  takes look p v (Err e) w -> takes look (h e) w r x -> takes look (on_error p h) v r x.
Proof.
  intros Hp Hk s Hs. destruct (Hp s Hs) as (s1 & Hr & Hs1). destruct (Hk s1 Hs1) as (s2 & Hr2 & Hs2).
  exists s2. split; [|done]. unfold on_error. by rewrite Hr.
Qed.
Lemma takes_on_error_Ok {A} (p : op S Error A) h v a w :
  takes look p v (Ok a) w -> takes look (on_error p h) v (Ok a) w.
Proof. intros Hp s Hs. destruct (Hp s Hs) as (s1 & Hr & Hs1). exists s1. split; [|done]. unfold on_error. by rewrite Hr. Qed.
End Views.
