(* ===== verification/Containers.v ===== *)
(** src/activation.rs, Docker: deployments of certified images with their lease, stage,
    rollback and failed containers ([DockerOrchestrator]), and the registry that images
    are packaged for and published in ([DockerRegistry], the import into kind). *)
From stdpp Require Import pretty.
From S2P Require Import Prelude Effects FileTree External Json Core Model Canonical Text Activation.
From S2P Require Stateful.

Module RegistryReceipt.
Record RegistryReceipt := {
  repository : string;
  immutable_image : string;
  manifest_sha256 : string;
  activation_plan_sha256 : string;
  candidate_sha256 : string;
  binding_sha256 : string;
}.
Definition with_binding (d : string) (r : RegistryReceipt) : RegistryReceipt :=
  {| repository := repository r; immutable_image := immutable_image r; manifest_sha256 := manifest_sha256 r;
     activation_plan_sha256 := activation_plan_sha256 r; candidate_sha256 := candidate_sha256 r; binding_sha256 := d |}.
End RegistryReceipt.

Module ArtifactPackageRequest.
Record ArtifactPackageRequest := {
  base_image : string;
  local_image : string;
  repository : string;
  tag : string;
  activation_plan : Stateful.ActivationPlan;
  candidate : list Z;
  service_manifest : list Z;
}.
End ArtifactPackageRequest.

Module HealthProbe.
Record HealthProbe := { command : list string; attempts : Z; interval_ms : Z }.
End HealthProbe.

Module DeploymentSpec.
Record DeploymentSpec := {
  version : string;
  service : string;
  artifact : RegistryReceipt.RegistryReceipt;
  command : list string;
  isolation : IsolationPolicy;
  secrets : list SecretReference;
  health : HealthProbe.HealthProbe;
}.
End DeploymentSpec.

Module ActivationReceipt.
Record ActivationReceipt := {
  service : string;
  plan_sha256 : string;
  immutable_image : string;
  operator_key_id : string;
  secret_reference_ids : list string;
  internal_network : string;
  rollback_available : bool;
  idempotent : bool;
}.
End ActivationReceipt.

Inductive ActivationFailurePoint :=
| NoFailure
| AfterStageHealthy
| AfterActiveStopped
| AfterActiveRenamed
| AfterStageReady
| AfterServiceSwitched.
#[export] Instance ActivationFailurePoint_eq_dec : EqDecision ActivationFailurePoint.
Proof. solve_decision. Defined.

Abbreviation RegistryReceipt := RegistryReceipt.RegistryReceipt.
Abbreviation ArtifactPackageRequest := ArtifactPackageRequest.ArtifactPackageRequest.
Abbreviation HealthProbe := HealthProbe.HealthProbe.
Abbreviation DeploymentSpec := DeploymentSpec.DeploymentSpec.
Abbreviation ActivationReceipt := ActivationReceipt.ActivationReceipt.

Module DeploymentNames.
Record DeploymentNames := {
  active : string; stage : string; rollback : string; failed : string; lease : string; network : string;
}.
End DeploymentNames.
Abbreviation DeploymentNames := DeploymentNames.DeploymentNames.

Definition deployment_names `{Hex} (service plan : string) : result Error DeploymentNames :=
  _ ← validate_label service;
  _ ← validate_digest plan;
  let short := String.substring 0 12 plan in
  Ok {| DeploymentNames.active := "anasemble-" +:+ service +:+ "-active";
        DeploymentNames.stage := "anasemble-" +:+ service +:+ "-stage-" +:+ short;
        DeploymentNames.rollback := "anasemble-" +:+ service +:+ "-rollback";
        DeploymentNames.failed := "anasemble-" +:+ service +:+ "-failed";
        DeploymentNames.lease := "anasemble-" +:+ service +:+ "-lease";
        DeploymentNames.network := "anasemble-" +:+ service +:+ "-network" |}.

Definition receipt (spec : DeploymentSpec) (approval : OperatorApproval) (rollback_available idempotent : bool)
  : ActivationReceipt :=
  {| ActivationReceipt.service := DeploymentSpec.service spec;
     ActivationReceipt.plan_sha256 := RegistryReceipt.activation_plan_sha256 (DeploymentSpec.artifact spec);
     ActivationReceipt.immutable_image := RegistryReceipt.immutable_image (DeploymentSpec.artifact spec);
     ActivationReceipt.operator_key_id := OperatorApproval.operator_key_id approval;
     ActivationReceipt.secret_reference_ids := SecretReference.id <$> DeploymentSpec.secrets spec;
     ActivationReceipt.internal_network := "anasemble-" +:+ DeploymentSpec.service spec +:+ "-network";
     ActivationReceipt.rollback_available := rollback_available;
     ActivationReceipt.idempotent := idempotent |}.

Section Containers.
Context {D : Type} `{Docker D, Canonicalize, OsErrorText}.
Context `{SerdeErrorText, JsonText, Sha256, Hex, Ed25519, Jiff, ActivationErrorText}.
Context `{!ToValue ApprovalPayload, !ToValue RegistryReceipt}.
Abbreviation act A := (op (Machine D) Error A).

(** ** Validation *)

(** [SecretReference::validate] *)
Definition validate_secret (self : SecretReference) : act () :=
  _ ← lift (validate_label (SecretReference.id self));
  let mount := SecretReference.mount_path self in
  if negb (String.prefix "/run/secrets/" mount) || (256 <? str_len mount) || contains_str ".." mount || has_control mount
  then fail (invalid "secret mount path must be below /run/secrets") else
  metadata ← reads (fun m => match files m !! SecretReference.source_file self with
                             | Some entry => Ok entry
                             | None => Err (Io not_found)
                             end);
  match metadata with
  | FileEntry mode bytes =>
      if negb (Z.land mode 63 =? 0) || (vec_len bytes =? 0) || (65536 <? vec_len bytes)
      then fail (invalid "secret source must be a non-empty owner-only regular file up to 64 KiB") else mret ()
  | _ => fail (invalid "secret source must be a non-empty owner-only regular file up to 64 KiB")
  end.

Definition validate_health (health : HealthProbe) (message : string) : result Error () :=
  if (HealthProbe.attempts health =? 0) || (120 <? HealthProbe.attempts health)
     || (10000 <? HealthProbe.interval_ms health)
  then Err (invalid message) else Ok ().

(** The body of the loop over the secrets. *)
Definition validate_secrets (secret : SecretReference) (st : list string * list string)
  : act (list string * list string) :=
  _ ← validate_secret secret;
  if contains (SecretReference.id secret) st.1 || contains (SecretReference.mount_path secret) st.2
  then fail (invalid "secret references must have unique IDs and mounts") else
  mret (SecretReference.id secret :: st.1, SecretReference.mount_path secret :: st.2).

(** The checks of [validate_deployment] that do not read files. *)
Definition validate_spec (spec : DeploymentSpec) : result Error () :=
  let artifact := DeploymentSpec.artifact spec in
  if negb (bool_decide (DeploymentSpec.version spec = "docker-deployment-v1"))
  then Err (invalid "deployment version is unsupported") else
  _ ← validate_label (DeploymentSpec.service spec);
  _ ← validate_digest (RegistryReceipt.activation_plan_sha256 artifact);
  _ ← validate_digest (RegistryReceipt.candidate_sha256 artifact);
  _ ← validate_digest (RegistryReceipt.manifest_sha256 artifact);
  _ ← validate_digest (RegistryReceipt.binding_sha256 artifact);
  _ ← validate_immutable_image (RegistryReceipt.immutable_image artifact);
  if negb (ends_with_str ("@sha256:" +:+ RegistryReceipt.manifest_sha256 artifact) (RegistryReceipt.immutable_image artifact))
  then Err (invalid "deployment artifact digest is inconsistent") else
  d ← digest (RegistryReceipt.with_binding "" artifact);
  if negb (bool_decide (d = RegistryReceipt.binding_sha256 artifact))
  then Err (invalid "deployment artifact binding is invalid") else
  _ ← validate_arguments (DeploymentSpec.command spec);
  _ ← validate_policy (DeploymentSpec.isolation spec);
  _ ← validate_health (DeploymentSpec.health spec) "health probe bounds are invalid";
  _ ← validate_arguments (HealthProbe.command (DeploymentSpec.health spec));
  if 32 <? vec_len (DeploymentSpec.secrets spec) then Err (invalid "secret reference count exceeds 32") else Ok ().

Definition validate_deployment (spec : DeploymentSpec) : act () :=
  _ ← lift (validate_spec spec);
  _ ← op_for (DeploymentSpec.secrets spec) ([], []) validate_secrets;
  mret ().

(** ** Containers *)

Definition mount_args (secret : SecretReference) : act (list string) :=
  source ← reads (fun m => map_err Io (canonicalize (files m) (SecretReference.source_file secret)));
  mret ["--mount"; "type=bind,src=" +:+ source +:+ ",dst=" +:+ SecretReference.mount_path secret +:+ ",readonly"].

Definition staged_args (spec : DeploymentSpec) (name : string) (mounts : list string) : list string :=
  ["create"; "--name"; name;
   "--label"; "anasemble.plan=" +:+ RegistryReceipt.activation_plan_sha256 (DeploymentSpec.artifact spec);
   "--label"; "anasemble.service=" +:+ DeploymentSpec.service spec;
   "--network"; "anasemble-" +:+ DeploymentSpec.service spec +:+ "-network"]
  ++ limit_args (DeploymentSpec.isolation spec) ++ ["--log-driver"; "none"]
  ++ capability_args (DeploymentSpec.isolation spec) ++ mounts
  ++ [RegistryReceipt.immutable_image (DeploymentSpec.artifact spec)] ++ DeploymentSpec.command spec.

Definition create_staged_container (spec : DeploymentSpec) (name : string) : act () :=
  mounts ← op_for (DeploymentSpec.secrets spec) []
             (fun secret args => more ← mount_args secret; mret (args ++ more));
  docker (staged_args spec name mounts).

(** The attempts left, the last one without a pause after it. *)
Fixpoint wait_attempts (attempts : nat) (name : string) (probe : HealthProbe) : act () :=
  match attempts with
  | O => fail (invalid "staged deployment failed its bounded health gate")
  | S rest =>
      on_error (docker (["exec"; name] ++ HealthProbe.command probe)) (fun _ =>
        _ ← (if bool_decide (rest = 0%nat) then mret () else sleep (HealthProbe.interval_ms probe));
        wait_attempts rest name probe)
  end.
Definition wait_healthy (name : string) (probe : HealthProbe) : act () :=
  wait_attempts (Z.to_nat (HealthProbe.attempts probe)) name probe.

Definition lease_args (name plan image : string) : list string :=
  ["create"; "--name"; name; "--label"; "anasemble.plan=" +:+ plan; "--network"; "none"; image; "/bin/true"].

Definition acquire_lease (name plan image : string) : act bool :=
  found ← container_exists name;
  if found : bool then
    label ← container_label name "anasemble.plan";
    if bool_decide (label = Some plan) then mret false
    else fail (invalid "another activation lease owns the service")
  else _ ← docker (lease_args name plan image); mret true.

Definition ensure_internal_network (name service : string) : act () :=
  output ← docker_output ["network"; "inspect"; name];
  if Output.success output then
    internal ← docker_text ["network"; "inspect"; "--format"; "{{.Internal}}"; name];
    if negb (bool_decide (trim internal = "true"))
    then fail (invalid "service network exists without internal egress isolation") else mret ()
  else docker ["network"; "create"; "--internal"; "--label"; "anasemble.service=" +:+ service; name].

Definition stop_if_running (name : string) : act () :=
  running ← inspect_bool name "{{.State.Running}}";
  if running : bool then docker ["stop"; "--time"; "5"; name] else mret ().

(** ** [DockerOrchestrator] *)

(** From the point where the stage is known to be healthy. *)
Definition switch (spec : DeploymentSpec) (approval : OperatorApproval) (names : DeploymentNames)
  (failure : ActivationFailurePoint) : act ActivationReceipt :=
  let active := DeploymentNames.active names in
  let rollback := DeploymentNames.rollback names in
  had_active ← container_exists active;
  _ ← (if had_active : bool then
         _ ← stop_if_running active;
         if bool_decide (failure = AfterActiveStopped)
         then fail (interrupted "after active container stopped") else
         found ← container_exists rollback;
         if negb found then docker ["rename"; active; rollback] else mret ()
       else mret ());
  if bool_decide (failure = AfterActiveRenamed)
  then fail (interrupted "after active container renamed for rollback") else
  found ← container_exists active;
  if found : bool then fail (invalid "activation target unexpectedly exists") else
  _ ← docker ["rename"; DeploymentNames.stage names; active];
  running ← inspect_bool active "{{.State.Running}}";
  _ ← (if negb running then docker ["start"; active] else mret ());
  _ ← remove_if_exists (DeploymentNames.lease names);
  rollback_available ← (if had_active : bool then mret true else container_exists rollback);
  mret (receipt spec approval rollback_available false).

(** Creating and starting the stage, when it is not there. *)
Definition make_stage (spec : DeploymentSpec) (names : DeploymentNames) : act () :=
  let stage := DeploymentNames.stage names in
  found ← container_exists stage;
  if found : bool then mret () else
  _ ← create_staged_container spec stage;
  _ ← docker ["start"; stage];
  on_error (wait_healthy stage (DeploymentSpec.health spec)) (fun error =>
    _ ← remove_if_exists stage;
    _ ← remove_if_exists (DeploymentNames.lease names);
    fail error).

Definition activate_with_failure (policy : ApprovalPolicy) (spec : DeploymentSpec) (approval : OperatorApproval)
  (failure : ActivationFailurePoint) : act ActivationReceipt :=
  let artifact := DeploymentSpec.artifact spec in
  let plan := RegistryReceipt.activation_plan_sha256 artifact in
  _ ← validate_deployment spec;
  _ ← lift (verify_approval policy approval plan (RegistryReceipt.binding_sha256 artifact));
  names ← lift (deployment_names (DeploymentSpec.service spec) plan);
  _ ← ensure_internal_network (DeploymentNames.network names) (DeploymentSpec.service spec);
  lease_created ← acquire_lease (DeploymentNames.lease names) ("activate:" +:+ plan)
                    (RegistryReceipt.immutable_image artifact);
  active_plan ← container_label (DeploymentNames.active names) "anasemble.plan";
  if bool_decide (active_plan = Some plan) then
    _ ← remove_if_exists (DeploymentNames.stage names);
    _ ← remove_if_exists (DeploymentNames.lease names);
    rollback_available ← container_exists (DeploymentNames.rollback names);
    mret (receipt spec approval rollback_available true)
  else
  stale ← (found ← container_exists (DeploymentNames.rollback names);
           if negb found then mret false else
           staged ← container_exists (DeploymentNames.stage names); mret (negb staged));
  if stale : bool then
    _ ← (if lease_created : bool then remove_if_exists (DeploymentNames.lease names) else mret ());
    fail (invalid "stale rollback container requires commit or rollback")
  else
  _ ← make_stage spec names;
  if bool_decide (failure = AfterStageHealthy) then fail (interrupted "after staged health passed") else
  switch spec approval names failure.

Definition activate (policy : ApprovalPolicy) (spec : DeploymentSpec) (approval : OperatorApproval)
  : act ActivationReceipt := activate_with_failure policy spec approval NoFailure.

Definition rollback (service plan_sha256 : string) : act () :=
  names ← lift (deployment_names service plan_sha256);
  let active := DeploymentNames.active names in
  found ← container_exists (DeploymentNames.rollback names);
  if negb found then fail (invalid "deployment rollback is unavailable") else
  image ← container_image active;
  active_image ← lift (ok_or image (invalid "active deployment image is unavailable"));
  _ ← acquire_lease (DeploymentNames.lease names) ("rollback:" +:+ plan_sha256) active_image;
  found ← container_exists active;
  _ ← (if found : bool then
         _ ← stop_if_running active;
         _ ← remove_if_exists (DeploymentNames.failed names);
         docker ["rename"; active; DeploymentNames.failed names]
       else mret ());
  _ ← docker ["rename"; DeploymentNames.rollback names; active];
  _ ← docker ["start"; active];
  remove_if_exists (DeploymentNames.lease names).

Definition commit (service plan_sha256 : string) : act () :=
  names ← lift (deployment_names service plan_sha256);
  label ← container_label (DeploymentNames.active names) "anasemble.plan";
  if negb (bool_decide (label = Some plan_sha256))
  then fail (invalid "cannot commit a different active deployment") else
  image ← container_image (DeploymentNames.active names);
  active_image ← lift (ok_or image (invalid "active deployment image is unavailable"));
  _ ← acquire_lease (DeploymentNames.lease names) ("commit:" +:+ plan_sha256) active_image;
  _ ← remove_if_exists (DeploymentNames.rollback names);
  _ ← remove_if_exists (DeploymentNames.failed names);
  remove_if_exists (DeploymentNames.lease names).
End Containers.
