(* ===== verification/ArtifactRegistry.v ===== *)
(** src/activation.rs, images: packaging a certified candidate into an image, publishing it
    in an OCI registry under an immutable digest ([DockerRegistry]) and importing it into
    a kind node. *)
From stdpp Require Import pretty.
From S2P Require Import Prelude Effects FileTree External Json Core Model Canonical Text Activation Containers.
From S2P Require Stateful.

(** Running [docker save] into another docker command: the output of that one and whether
    the first one succeeded. *)
Class DockerPipe (D : Type) := docker_pipe : list string -> list string -> op D string (Output * bool).

Definition validate_local_image (image : string) : result Error () :=
  if str_is_empty image || (255 <? str_len image) || contains_str "@" image || has_control image
  then Err (invalid "local artifact image name is invalid") else Ok ().

(** [DockerRegistry::connect] *)
Definition connect (endpoint : string) : result Error string :=
  if str_is_empty endpoint || (253 <? str_len endpoint) || contains_str "/" endpoint || has_control endpoint
  then Err (invalid "OCI registry endpoint is invalid") else Ok endpoint.

Section Registry.
Context {D : Type} `{Docker D, DockerPipe D, OsErrorText}.
Context `{SerdeErrorText, JsonText, Sha256, Hex, ActivationErrorText}.
Context `{!ToValue RegistryReceipt, !ToValue Stateful.ActivationPlan, !FromSlice (list string)}.
Abbreviation act A := (op (Machine D) Error A).

(** ** Files *)

Definition on_files {A} (call : gmap string PathEntry -> result Error A * gmap string PathEntry) : act A := fun m =>
  let '(r, f) := call (files m) in (r, Build_Machine (daemon m) f).

Definition create_dir (path : string) : act () := on_files (fun f =>
  match f !! path with
  | None => (Ok (), <[path := FolderEntry]> f)
  | Some _ => (Err (Io already_exists), f)
  end).
Definition set_permissions (path : string) (mode : Z) : act () := on_files (fun f =>
  match f !! path with
  | None => (Err (Io not_found), f)
  | Some (FileEntry _ bytes) => (Ok (), <[path := FileEntry mode bytes]> f)
  | Some _ => (Ok (), f)
  end).
Definition write_public_payload (path : string) (bytes : list Z) : act () := on_files (fun f =>
  match f !! path with
  | None => (Ok (), <[path := FileEntry 420 bytes]> f)   (* 0o644 *)
  | Some _ => (Err (Io already_exists), f)
  end).
(** Removals whose outcome is ignored. *)
Definition remove_file (path : string) : act () := on_files (fun f =>
  (Ok (), match f !! path with Some (FileEntry _ _) | Some LinkEntry => delete path f | _ => f end)).
Definition remove_dir (path : string) : act () := on_files (fun f =>
  (Ok (), match f !! path with
          | Some FolderEntry =>
              if bool_decide (filter (fun kv => String.prefix (path +:+ "/") kv.1 = true) f = ∅)
              then delete path f else f
          | _ => f
          end)).

(** ** Publishing *)

(** The attempts to push that are left, and the last error. *)
Fixpoint push_attempts (left_ : nat) (target : string) (last_error : option string) : act (bool * option string) :=
  match left_ with
  | O => mret (false, last_error)
  | S rest =>
      pushed ← Stateful.outcome (docker ["push"; target]);
      match pushed with
      | Ok _ => mret (true, last_error)
      | Err error =>
          _ ← (if bool_decide (rest = 0%nat) then mret () else sleep 100);
          push_attempts rest target (Some (fmt error))
      end
  end.

Definition image_label (label image : string) : act string :=
  docker_text ["image"; "inspect"; "--format"; label_template label; image].

Definition bound_receipt (endpoint repository immutable_image manifest_sha256 : string)
  (plan : Stateful.ActivationPlan) : result Error RegistryReceipt :=
  let receipt := {| RegistryReceipt.repository := endpoint +:+ "/" +:+ repository;
                    RegistryReceipt.immutable_image := immutable_image;
                    RegistryReceipt.manifest_sha256 := manifest_sha256;
                    RegistryReceipt.activation_plan_sha256 := Stateful.ActivationPlan.plan_sha256 plan;
                    RegistryReceipt.candidate_sha256 := Stateful.ActivationPlan.candidate_sha256 plan;
                    RegistryReceipt.binding_sha256 := "" |} in
  d ← digest receipt;
  Ok (RegistryReceipt.with_binding d receipt).

Definition publish (endpoint local_image repository tag : string) (plan : Stateful.ActivationPlan)
  : act RegistryReceipt :=
  _ ← lift (Stateful.validate_activation_plan plan);
  _ ← lift (validate_label repository);
  _ ← lift (validate_label tag);
  image_plan ← image_label "anasemble.plan" local_image;
  image_candidate ← image_label "anasemble.candidate" local_image;
  if negb (bool_decide (trim image_plan = Stateful.ActivationPlan.plan_sha256 plan))
     || negb (bool_decide (trim image_candidate = Stateful.ActivationPlan.candidate_sha256 plan))
  then fail (invalid "local artifact labels do not bind the activation plan and candidate") else
  let target := endpoint +:+ "/" +:+ repository +:+ ":" +:+ tag in
  _ ← docker ["tag"; local_image; target];
  '(pushed, last_error) ← push_attempts 20 target None;
  if negb pushed
  then fail (invalid ("OCI registry push exhausted its bounded retry budget: " +:+
                      from_option id "unknown Docker failure" last_error)) else
  output ← docker_text ["image"; "inspect"; "--format"; "{{json .RepoDigests}}"; target];
  digests ← lift (ok_or (from_slice (T := list string) (bytes_of_string (trim output))) (backend serde_error_text));
  let prefix := endpoint +:+ "/" +:+ repository +:+ "@sha256:" in
  immutable_image ← lift (ok_or (List.find (String.prefix prefix) digests)
                                (invalid "registry push did not produce an immutable digest"));
  manifest_sha256 ← lift (ok_or (snd <$> rsplit_once_str "sha256:" immutable_image)
                                (invalid "registry digest is malformed"));
  _ ← lift (validate_digest manifest_sha256);
  lift (bound_receipt endpoint repository immutable_image manifest_sha256 plan).

(** ** Packaging *)

Definition image_exists (image : string) : act bool :=
  output ← docker_output ["image"; "inspect"; image];
  if MAX_DOCKER_OUTPUT <? output_len output then fail (invalid "Docker image inspection exceeded 1 MiB") else
  mret (Output.success output).

(** What [PackageGuard::drop] does about the container, and about the files. *)
Definition drop_package_container (container : string) : act () :=
  _ ← docker_output ["rm"; "--force"; container]; mret ().
Definition drop_package_files (root : string) : act () :=
  _ ← remove_file (path_join root "candidate.json");
  _ ← remove_file (path_join root "service.json");
  remove_dir root.

Definition commit_args (plan : Stateful.ActivationPlan) (container local_image : string) : list string :=
  ["commit"; "--change"; "LABEL anasemble.plan=" +:+ Stateful.ActivationPlan.plan_sha256 plan;
   "--change"; "LABEL anasemble.candidate=" +:+ Stateful.ActivationPlan.candidate_sha256 plan;
   container; local_image].

(** What is done while the container is there. *)
Definition package_container (endpoint root container : string) (request : ArtifactPackageRequest)
  : act RegistryReceipt :=
  let plan := ArtifactPackageRequest.activation_plan request in
  let local_image := ArtifactPackageRequest.local_image request in
  _ ← docker ["cp"; path_join root "candidate.json"; container +:+ ":/candidate.json"];
  _ ← docker ["cp"; path_join root "service.json"; container +:+ ":/service.json"];
  _ ← docker (commit_args plan container local_image);
  publish endpoint local_image (ArtifactPackageRequest.repository request) (ArtifactPackageRequest.tag request) plan.

(** The two [unique_name]s are of one process, at two times. *)
Definition package_and_publish (endpoint temp_dir : string) (pid first second : Z) (request : ArtifactPackageRequest)
  : act RegistryReceipt :=
  _ ← lift (validate_immutable_image (ArtifactPackageRequest.base_image request));
  _ ← lift (validate_local_image (ArtifactPackageRequest.local_image request));
  if bool_decide (ArtifactPackageRequest.candidate request = [])
     || (16 * 1024 * 1024 <? vec_len (ArtifactPackageRequest.candidate request))
     || bool_decide (ArtifactPackageRequest.service_manifest request = [])
     || (65536 <? vec_len (ArtifactPackageRequest.service_manifest request))
  then fail (invalid "artifact payload is empty or exceeds its byte bound") else
  found ← image_exists (ArtifactPackageRequest.local_image request);
  if found : bool then fail (invalid "local artifact image already exists") else
  let root := path_join temp_dir (unique_name "anasemble-package" pid first) in
  let container := unique_name "anasemble-package" pid second in
  _ ← create_dir root;
  _ ← set_permissions root 448;   (* 0o700 *)
  guarded
    (_ ← write_public_payload (path_join root "candidate.json") (ArtifactPackageRequest.candidate request);
     _ ← write_public_payload (path_join root "service.json") (ArtifactPackageRequest.service_manifest request);
     _ ← docker ["create"; "--name"; container; ArtifactPackageRequest.base_image request; "/bin/true"];
     guarded (package_container endpoint root container request) (drop_package_container container))
    (drop_package_files root).

(** ** Importing into kind *)

Definition import_args (node platform : string) : list string :=
  ["exec"; "-i"; node; "ctr"; "--namespace=k8s.io"; "images"; "import"; "--platform"; platform; "--digests"; "-"].

Definition pipe (first second : list string) : act (Output * bool) := fun m =>
  let '(r, d) := docker_pipe first second (daemon m) in (map_err Io r, Build_Machine d (files m)).

Definition import_image_into_kind_node (image node platform : string) : act () :=
  _ ← lift (validate_immutable_image image);
  _ ← lift (validate_label node);
  if negb (contains platform ["linux/arm64"; "linux/amd64"])
  then fail (invalid "kind import platform is unsupported") else
  '(import, saved) ← pipe ["save"; image] (import_args node platform);
  if negb saved || negb (Output.success import)
  then fail (invalid ("kind image import failed: " +:+ trim (from_utf8_lossy (Output.stderr import)))) else
  digest ← lift (ok_or (snd <$> rsplit_once "@" image) (invalid "kind import image digest is malformed"));
  listed ← docker_output ["exec"; node; "ctr"; "--namespace=k8s.io"; "images"; "list"; "--quiet"];
  if negb (Output.success listed) || (MAX_DOCKER_OUTPUT <? output_len listed)
  then fail (invalid "kind image inventory failed") else
  inventory ← lift (ok_or (from_utf8 (Output.stdout listed)) (invalid "kind image inventory is not UTF-8"));
  imported ← lift (ok_or (List.find (fun reference => String.prefix "import-" reference && ends_with_str digest reference)
                                    (lines inventory))
                         (invalid "kind import did not retain the OCI manifest digest"));
  tagged ← docker_output ["exec"; node; "ctr"; "--namespace=k8s.io"; "images"; "tag"; imported; image];
  if negb (Output.success tagged) || (MAX_DOCKER_OUTPUT <? output_len tagged)
  then fail (invalid ("kind image reference binding failed: " +:+ trim (from_utf8_lossy (Output.stderr tagged)))) else
  mret ().
End Registry.
