(* ===== verification/Kubernetes.v ===== *)
(** src/activation.rs, Kubernetes: deployments whose commit point is the selector of a
    Service ([KubernetesOrchestrator]).  A cluster is what the kubectl command does
    ([Kubectl], on a state of any type); its objects are JSON values. *)
From stdpp Require Import pretty.
From S2P Require Import Prelude Effects External Json Core Model Canonical Text Activation Containers.
From S2P Require Stateful.

Module KubernetesSecretReference.
Record KubernetesSecretReference := { id : string; secret_name : string; secret_key : string; mount_path : string }.
End KubernetesSecretReference.

Module KubernetesDeploymentSpec.
Record KubernetesDeploymentSpec := {
  version : string;
  namespace : string;
  service : string;
  artifact : RegistryReceipt;
  command : list string;
  isolation : IsolationPolicy;
  secrets : list KubernetesSecretReference.KubernetesSecretReference;
  health : HealthProbe;
  service_port : Z;
  container_port : Z;
}.
End KubernetesDeploymentSpec.

Module KubernetesOrchestrator.
Record KubernetesOrchestrator := { context : string; approval_policy : ApprovalPolicy }.
End KubernetesOrchestrator.

Abbreviation KubernetesSecretReference := KubernetesSecretReference.KubernetesSecretReference.
Abbreviation KubernetesDeploymentSpec := KubernetesDeploymentSpec.KubernetesDeploymentSpec.
Abbreviation KubernetesOrchestrator := KubernetesOrchestrator.KubernetesOrchestrator.

(** Running kubectl to its end, with this text on its standard input if any. *)
Class Kubectl (D : Type) := kubectl_command : list string -> option (list Z) -> op D string Output.

(** ** JSON *)

(** [serde_json::json!] of an object; [Value::pointer] along names that are not numbers. *)
Definition obj (members : list (string * json)) : json := Object (bt_from_list members).
Fixpoint pointer (path : list string) (v : json) : option json :=
  match path with
  | [] => Some v
  | name :: path => match v with Object members => v ← bt_get name members; pointer path v | _ => None end
  end.
Definition pointer_str (path : list string) (v : json) : option string := pointer path v ≫= as_str.
Definition num (n : Z) : json := Number (number_from_u64 n).
Definition strings (l : list string) : json := Array (String <$> l).

Definition active_plan_path : list string := ["metadata"; "annotations"; "anasemble.active-plan"].
Definition rollback_plan_path : list string := ["metadata"; "annotations"; "anasemble.rollback-plan"].

(** ** Validation *)

(** The characters of a name: hyphens neither first nor last. *)
Fixpoint kube_bytes (index : nat) (bytes : list Z) : bool :=
  match bytes with
  | [] => true
  | byte :: rest =>
      (is_ascii_lowercase byte || is_ascii_digit byte
       || ((byte =? 45) && (0 <? Z.of_nat index) && negb (bool_decide (rest = []))))
      && kube_bytes (index + 1) rest
  end.
Definition validate_kube_name (value : string) : result Error () :=
  if str_is_empty value || (63 <? str_len value) || negb (kube_bytes 0 (bytes_of_string value))
  then Err (invalid "Kubernetes name is invalid") else Ok ().

(** The body of the loop over the secrets. *)
Definition validate_kube_secret (secret : KubernetesSecretReference) (ids : list string) : result Error (list string) :=
  _ ← validate_kube_name (KubernetesSecretReference.id secret);
  _ ← validate_kube_name (KubernetesSecretReference.secret_name secret);
  _ ← validate_kube_name (KubernetesSecretReference.secret_key secret);
  if contains (KubernetesSecretReference.id secret) ids
     || negb (String.prefix "/run/secrets/" (KubernetesSecretReference.mount_path secret))
     || contains_str ".." (KubernetesSecretReference.mount_path secret)
  then Err (invalid "Kubernetes secret reference is invalid") else
  Ok (KubernetesSecretReference.id secret :: ids).

(** The deployment without secrets that is validated as one for Docker. *)
Definition docker_spec (spec : KubernetesDeploymentSpec) : DeploymentSpec :=
  {| DeploymentSpec.version := "docker-deployment-v1";
     DeploymentSpec.service := KubernetesDeploymentSpec.service spec;
     DeploymentSpec.artifact := KubernetesDeploymentSpec.artifact spec;
     DeploymentSpec.command := KubernetesDeploymentSpec.command spec;
     DeploymentSpec.isolation := KubernetesDeploymentSpec.isolation spec;
     DeploymentSpec.secrets := [];
     DeploymentSpec.health := KubernetesDeploymentSpec.health spec |}.

Section Kubernetes.
Context {D : Type} `{Kubectl D}.
Context `{SerdeErrorText, JsonText, Sha256, Hex, Ed25519, Jiff, ActivationErrorText}.
Context `{!ToValue ApprovalPayload, !ToValue RegistryReceipt, !ToValue json, !FromSlice json}.
Abbreviation act A := (op D Error A).
Implicit Types (self : KubernetesOrchestrator) (spec : KubernetesDeploymentSpec).

Definition validate_kubernetes_deployment spec : result Error () :=
  if negb (bool_decide (KubernetesDeploymentSpec.version spec = "kubernetes-deployment-v1"))
  then Err (invalid "Kubernetes deployment version is unsupported") else
  _ ← validate_kube_name (KubernetesDeploymentSpec.namespace spec);
  _ ← validate_kube_name (KubernetesDeploymentSpec.service spec);
  _ ← validate_arguments (KubernetesDeploymentSpec.command spec);
  _ ← validate_policy (KubernetesDeploymentSpec.isolation spec);
  if (KubernetesDeploymentSpec.service_port spec =? 0) || (KubernetesDeploymentSpec.container_port spec =? 0)
  then Err (invalid "Kubernetes service ports must be non-zero") else
  _ ← validate_health (KubernetesDeploymentSpec.health spec) "Kubernetes health bounds are invalid";
  _ ← validate_arguments (HealthProbe.command (KubernetesDeploymentSpec.health spec));
  if 32 <? vec_len (KubernetesDeploymentSpec.secrets spec) then Err (invalid "Kubernetes secret count exceeds 32") else
  _ ← for_each (KubernetesDeploymentSpec.secrets spec) [] validate_kube_secret;
  validate_spec (docker_spec spec).

Definition new (context : string) (approval_policy : ApprovalPolicy) : result Error KubernetesOrchestrator :=
  _ ← validate_kube_name context;
  Ok {| KubernetesOrchestrator.context := context; KubernetesOrchestrator.approval_policy := approval_policy |}.

(** ** kubectl *)

Definition kubectl (args : list string) (input : option (list Z)) : act Output := fun d =>
  let '(r, d) := kubectl_command args input d in (map_err Io r, d).

(** What is done about an output that is too long or a failure. *)
Definition checked (output : Output) (too_long failed : string) : act () :=
  if MAX_DOCKER_OUTPUT <? output_len output then fail (invalid too_long) else
  if negb (Output.success output)
  then fail (invalid (failed +:+ trim (from_utf8_lossy (Output.stderr output)))) else mret ().

Definition kube self (args : list string) : act () :=
  output ← kubectl (["--context"; KubernetesOrchestrator.context self] ++ args) None;
  checked output "Kubernetes output exceeded 1 MiB" "Kubernetes operation failed: ".

Definition kube_input self (args : list string) (value : json) : act () :=
  payload ← lift (encode value);
  output ← kubectl (["--context"; KubernetesOrchestrator.context self] ++ args) (Some payload);
  checked output "Kubernetes output exceeded 1 MiB" "Kubernetes apply failed: ".
Definition kube_apply self (value : json) : act () := kube_input self ["apply"; "-f"; "-"] value.
Definition kube_create self (value : json) : act () := kube_input self ["create"; "-f"; "-"] value.

Definition kube_json_optional self (namespace kind name : string) : act (option json) :=
  output ← kubectl ["--context"; KubernetesOrchestrator.context self; "get"; kind; name; "-n"; namespace;
                    "--ignore-not-found=true"; "-o"; "json"] None;
  if negb (Output.success output)
  then fail (invalid ("Kubernetes read failed: " +:+ trim (from_utf8_lossy (Output.stderr output)))) else
  if MAX_DOCKER_OUTPUT <? output_len output then fail (invalid "Kubernetes object exceeded 1 MiB") else
  if bool_decide (Output.stdout output = []) then mret None else
  value ← lift (ok_or (from_slice (T := json) (Output.stdout output)) (Model.Json serde_error_text));
  mret (Some value).
Definition kube_json self (namespace kind name : string) : act json :=
  value ← kube_json_optional self namespace kind name;
  lift (ok_or value (invalid "Kubernetes object does not exist")).

Definition kube_patch self (namespace kind name : string) (patch : json) : act () :=
  kube self ["patch"; kind; name; "-n"; namespace; "--type=merge"; "-p"; string_of_bytes (json_to_vec patch)].
Definition kube_delete self (namespace kind name : string) : act () :=
  kube self ["delete"; kind; name; "-n"; namespace; "--ignore-not-found=true"; "--wait=true"; "--timeout=30s"].

(** ** Objects *)

Definition lease_object (namespace lease holder : string) : json :=
  obj [("apiVersion", String "coordination.k8s.io/v1"); ("kind", String "Lease");
       ("metadata", obj [("name", String lease); ("namespace", String namespace)]);
       ("spec", obj [("holderIdentity", String holder)])].

Definition network_policy spec : json :=
  obj [("apiVersion", String "networking.k8s.io/v1"); ("kind", String "NetworkPolicy");
       ("metadata", obj [("name", String (KubernetesDeploymentSpec.service spec +:+ "-deny-egress"));
                         ("namespace", String (KubernetesDeploymentSpec.namespace spec))]);
       ("spec", obj [("podSelector", obj [("matchLabels",
                        obj [("anasemble.service", String (KubernetesDeploymentSpec.service spec))])]);
                     ("policyTypes", strings ["Egress"]); ("egress", Array [])])].

Definition plan_label (plan : string) : string := String.substring 0 63 plan.
Definition plan_labels (service plan : string) : json :=
  obj [("anasemble.service", String service); ("anasemble.plan", String (plan_label plan))].

Definition service_object spec (rollback_plan : option string) : json :=
  let plan := RegistryReceipt.activation_plan_sha256 (KubernetesDeploymentSpec.artifact spec) in
  let service := KubernetesDeploymentSpec.service spec in
  obj [("apiVersion", String "v1"); ("kind", String "Service");
       ("metadata", obj [("name", String service); ("namespace", String (KubernetesDeploymentSpec.namespace spec));
          ("annotations", obj (("anasemble.active-plan", String plan) ::
             match rollback_plan with
             | Some value => [("anasemble.rollback-plan", String value)]
             | None => []
             end))]);
       ("spec", obj [("selector", plan_labels service plan);
          ("ports", Array [obj [("name", String "http"); ("port", num (KubernetesDeploymentSpec.service_port spec));
                                ("targetPort", num (KubernetesDeploymentSpec.container_port spec))]])])].

Definition secret_volume (secret : KubernetesSecretReference) : json :=
  obj [("name", String ("secret-" +:+ KubernetesSecretReference.id secret));
       ("secret", obj [("secretName", String (KubernetesSecretReference.secret_name secret));
          ("items", Array [obj [("key", String (KubernetesSecretReference.secret_key secret));
                                ("path", String "value")]])])].
Definition secret_mount (secret : KubernetesSecretReference) : json :=
  obj [("name", String ("secret-" +:+ KubernetesSecretReference.id secret));
       ("mountPath", String (KubernetesSecretReference.mount_path secret));
       ("subPath", String "value"); ("readOnly", Bool true)].

Definition resources (isolation : IsolationPolicy) : json :=
  let amounts := obj [("cpu", String (pretty (IsolationPolicy.cpu_millis isolation) +:+ "m"));
                      ("memory", String (pretty (IsolationPolicy.memory_bytes isolation)))] in
  obj [("requests", amounts); ("limits", amounts)].

Definition container_object spec : json :=
  let isolation := KubernetesDeploymentSpec.isolation spec in
  let health := KubernetesDeploymentSpec.health spec in
  let mounts := (secret_mount <$> KubernetesDeploymentSpec.secrets spec)
                ++ [obj [("name", String "tmp"); ("mountPath", String "/tmp")]] in
  obj [("name", String "candidate");
       ("image", String (RegistryReceipt.immutable_image (KubernetesDeploymentSpec.artifact spec)));
       ("imagePullPolicy", String "IfNotPresent");
       ("command", strings (KubernetesDeploymentSpec.command spec));
       ("ports", Array [obj [("containerPort", num (KubernetesDeploymentSpec.container_port spec))]]);
       ("resources", resources isolation);
       ("securityContext", obj [("allowPrivilegeEscalation", Bool false); ("readOnlyRootFilesystem", Bool true);
          ("capabilities", obj [("drop", strings ["ALL"]);
                                ("add", strings (IsolationPolicy.linux_capabilities isolation))])]);
       ("volumeMounts", Array mounts);
       ("readinessProbe", obj [("exec", obj [("command", strings (HealthProbe.command health))]);
          ("periodSeconds", num (Z.max (HealthProbe.interval_ms health / 1000) 1));
          ("failureThreshold", num (HealthProbe.attempts health))])].

Definition deployment_object spec (name : string) : json :=
  let plan := RegistryReceipt.activation_plan_sha256 (KubernetesDeploymentSpec.artifact spec) in
  let labels := plan_labels (KubernetesDeploymentSpec.service spec) plan in
  let volumes := (secret_volume <$> KubernetesDeploymentSpec.secrets spec)
    ++ [obj [("name", String "tmp"); ("emptyDir", obj [("medium", String "Memory");
         ("sizeLimit", String (pretty (IsolationPolicy.writable_tmpfs_bytes (KubernetesDeploymentSpec.isolation spec))))])]] in
  obj [("apiVersion", String "apps/v1"); ("kind", String "Deployment");
       ("metadata", obj [("name", String name); ("namespace", String (KubernetesDeploymentSpec.namespace spec));
                         ("labels", labels)]);
       ("spec", obj [("replicas", num 1); ("strategy", obj [("type", String "Recreate")]);
          ("selector", obj [("matchLabels", labels)]);
          ("template", obj [("metadata", obj [("labels", labels)]);
             ("spec", obj [("automountServiceAccountToken", Bool false);
                ("securityContext", obj [("runAsNonRoot", Bool true); ("runAsUser", num 65534);
                   ("runAsGroup", num 65534); ("seccompProfile", obj [("type", String "RuntimeDefault")])]);
                ("containers", Array [container_object spec]); ("volumes", Array volumes)])])])].

Definition apply_network_policy self spec : act () := kube_apply self (network_policy spec).
Definition apply_deployment self spec (name : string) : act () := kube_apply self (deployment_object spec name).

Definition kube_receipt spec (approval : OperatorApproval) (rollback_available idempotent : bool) : ActivationReceipt :=
  {| ActivationReceipt.service := KubernetesDeploymentSpec.service spec;
     ActivationReceipt.plan_sha256 := RegistryReceipt.activation_plan_sha256 (KubernetesDeploymentSpec.artifact spec);
     ActivationReceipt.immutable_image := RegistryReceipt.immutable_image (KubernetesDeploymentSpec.artifact spec);
     ActivationReceipt.operator_key_id := OperatorApproval.operator_key_id approval;
     ActivationReceipt.secret_reference_ids := KubernetesSecretReference.id <$> KubernetesDeploymentSpec.secrets spec;
     ActivationReceipt.internal_network := "networkpolicy/" +:+ KubernetesDeploymentSpec.service spec +:+ "-deny-egress";
     ActivationReceipt.rollback_available := rollback_available;
     ActivationReceipt.idempotent := idempotent |}.

(** ** Operations *)

Definition lease_name (service : string) : string := service +:+ "-anasemble-lease".
Definition stage_name (service plan : string) : string := service +:+ "-stage-" +:+ String.substring 0 12 plan.

Definition is_plan_active self (namespace service plan_sha256 : string) : act bool :=
  _ ← lift (validate_kube_name namespace);
  _ ← lift (validate_kube_name service);
  _ ← lift (validate_digest plan_sha256);
  value ← kube_json_optional self namespace "service" service;
  mret (bool_decide (value ≫= pointer_str active_plan_path = Some plan_sha256)).

(** The lease of an activation: its own, or a new one. *)
Definition activation_lease self spec (holder : string) : act () :=
  let namespace := KubernetesDeploymentSpec.namespace spec in
  let lease := lease_name (KubernetesDeploymentSpec.service spec) in
  value ← kube_json_optional self namespace "lease" lease;
  match value ≫= pointer_str ["spec"; "holderIdentity"] with
  | Some existing =>
      if negb (bool_decide (existing = holder))
      then fail (invalid "another Kubernetes activation lease owns the service") else mret ()
  | None =>
      on_error (kube_create self (lease_object namespace lease holder))
        (fun _ => fail (invalid "Kubernetes activation lease acquisition raced"))
  end.

Definition saturating_mul_u64 (a b : Z) : Z := Z.min (a * b) u64_max.
Definition rollout_timeout (health : HealthProbe) : Z :=
  Z.min (Z.max (saturating_mul_u64 (HealthProbe.attempts health) (HealthProbe.interval_ms health) / 1000) 1) 300.

Definition uncertain (plan error observation_error : string) : Error :=
  ExternalStateUncertain
    ("Kubernetes Service update outcome is uncertain; preserve restored state and reconcile plan " +:+ plan +:+ ": " +:+
     error +:+ "; observation failed: " +:+ observation_error).

(** From the creation of the stage to the switch of the Service. *)
Definition stage_and_switch self spec (approval : OperatorApproval) (failure : ActivationFailurePoint)
  (current_plan : option string) : act ActivationReceipt :=
  let namespace := KubernetesDeploymentSpec.namespace spec in
  let service := KubernetesDeploymentSpec.service spec in
  let plan := RegistryReceipt.activation_plan_sha256 (KubernetesDeploymentSpec.artifact spec) in
  let deployment := stage_name service plan in
  let rollback_available := match current_plan with Some _ => true | None => false end in
  _ ← apply_network_policy self spec;
  _ ← apply_deployment self spec deployment;
  _ ← kube self ["rollout"; "status"; "deployment"; deployment; "-n"; namespace;
                 "--timeout=" +:+ pretty (rollout_timeout (KubernetesDeploymentSpec.health spec)) +:+ "s"];
  if bool_decide (failure = AfterStageReady) then fail (interrupted "after Kubernetes stage became ready") else
  applied ← Stateful.outcome (kube_apply self (service_object spec current_plan));
  match applied with
  | Err error =>
      observed ← Stateful.outcome (is_plan_active self namespace service plan);
      match observed with
      | Ok true => mret (kube_receipt spec approval rollback_available false)
      | Ok false => fail error
      | Err observation_error => fail (uncertain plan (fmt error) (fmt observation_error))
      end
  | Ok _ =>
      if bool_decide (failure = AfterServiceSwitched)
      then fail (interrupted "after Kubernetes Service selector switched") else
      _ ← Stateful.outcome (kube_delete self namespace "lease" (lease_name service));
      mret (kube_receipt spec approval rollback_available false)
  end.

Definition activate_with_failure self spec (approval : OperatorApproval) (failure : ActivationFailurePoint)
  : act ActivationReceipt :=
  let artifact := KubernetesDeploymentSpec.artifact spec in
  let namespace := KubernetesDeploymentSpec.namespace spec in
  let service := KubernetesDeploymentSpec.service spec in
  let plan := RegistryReceipt.activation_plan_sha256 artifact in
  _ ← lift (validate_kubernetes_deployment spec);
  _ ← lift (verify_approval (KubernetesOrchestrator.approval_policy self) approval plan
                            (RegistryReceipt.binding_sha256 artifact));
  _ ← activation_lease self spec ("activate:" +:+ plan);
  current ← kube_json_optional self namespace "service" service;
  let current_plan := current ≫= pointer_str active_plan_path in
  _ ← lift (match current_plan with Some plan => validate_digest plan | None => Ok () end);
  if bool_decide (current_plan = Some plan) then
    _ ← kube_delete self namespace "lease" (lease_name service);
    mret (kube_receipt spec approval
            (bool_decide (is_Some (current ≫= pointer_str rollback_plan_path))) true)
  else stage_and_switch self spec approval failure current_plan.

Definition activate self spec (approval : OperatorApproval) : act ActivationReceipt :=
  activate_with_failure self spec approval NoFailure.

(** Whether the lease of an activation is that of the plan to roll back or commit. *)
Definition may_take_over (holder existing : string) : bool :=
  let requested_plan := match strip_prefix "rollback:" holder with
                        | Some plan => Some plan
                        | None => strip_prefix "commit:" holder
                        end in
  match requested_plan with
  | Some plan => bool_decide (existing = "activate:" +:+ plan)
  | None => false
  end.

Definition acquire_operation_lease self (namespace lease holder : string) : act () :=
  value ← kube_json_optional self namespace "lease" lease;
  held ← (match value with
          | None => mret false
          | Some value =>
              existing ← lift (ok_or (pointer_str ["spec"; "holderIdentity"] value)
                                     (invalid "Kubernetes operation lease holder is invalid"));
              if bool_decide (existing = holder) then mret true else
              if may_take_over holder existing
              then _ ← kube_delete self namespace "lease" lease; mret false
              else fail (invalid "another Kubernetes operation owns the service")
          end);
  if held : bool then mret () else
  on_error (kube_create self (lease_object namespace lease holder))
    (fun _ => fail (invalid "Kubernetes operation lease acquisition raced")).

Definition rollback_patch (service plan : string) : json :=
  obj [("spec", obj [("selector", plan_labels service plan)]);
       ("metadata", obj [("annotations", obj [("anasemble.active-plan", String plan);
                                              ("anasemble.rollback-plan", Null)])])].

Definition rollback self (namespace service : string) : act () :=
  _ ← lift (validate_kube_name namespace);
  _ ← lift (validate_kube_name service);
  current ← kube_json self namespace "service" service;
  rollback ← lift (ok_or (pointer_str rollback_plan_path current) (invalid "Kubernetes rollback is unavailable"));
  current_plan ← lift (ok_or (pointer_str active_plan_path current) (invalid "Kubernetes active plan is unavailable"));
  _ ← lift (validate_digest rollback);
  _ ← lift (validate_digest current_plan);
  _ ← acquire_operation_lease self namespace (lease_name service) ("rollback:" +:+ current_plan);
  _ ← kube_patch self namespace "service" service (rollback_patch service rollback);
  kube_delete self namespace "lease" (lease_name service).

Definition commit_patch : json :=
  obj [("metadata", obj [("annotations", obj [("anasemble.rollback-plan", Null)])])].

Definition commit self (namespace service : string) : act () :=
  _ ← lift (validate_kube_name namespace);
  _ ← lift (validate_kube_name service);
  current ← kube_json self namespace "service" service;
  current_plan ← lift (ok_or (pointer_str active_plan_path current) (invalid "Kubernetes active plan is unavailable"));
  _ ← lift (validate_digest current_plan);
  _ ← acquire_operation_lease self namespace (lease_name service) ("commit:" +:+ current_plan);
  _ ← (match pointer_str rollback_plan_path current with
       | Some rollback =>
           _ ← lift (validate_digest rollback);
           _ ← kube_delete self namespace "deployment" (stage_name service rollback);
           kube_patch self namespace "service" service commit_patch
       | None => mret ()
       end);
  kube_delete self namespace "lease" (lease_name service).
End Kubernetes.
