(* ===== verification/Reference.v ===== *)
(** src/reference.rs: the workflow that composes the parts: a bundle of the state of three
    backends is prepared; a recovery is run, the bundle is restored, the candidate is
    packaged, published and activated, with the way back when a step fails; a completed
    recovery is rolled back or committed by its receipt.  Theorems in [ReferenceSafety]. *)
From S2P Require Import Prelude Effects FileTree External Json Core Model Canonical Text Activation Containers Stateful.
From S2P Require Fragments Protocol Service Lifecycle KeyFiles ArtifactRegistry Kubernetes Postgres ObjectStore Redis Sandbox.

Definition MAX_CONFIG_BYTES : Z := 65536.
Definition MAX_BUNDLE_BYTES : Z := 192 * 1024 * 1024.

Module PostgresReference.
Record PostgresReference := {
  connection_file : string; tls_ca_file : option string; source_schema : string; target_schema : string }.
End PostgresReference.

Module S3Reference.
Record S3Reference := {
  endpoint : string; region : string; bucket : string;
  access_key_file : string; secret_key_file : string; session_token_file : option string;
  source_prefix : string; target_prefix : string }.
End S3Reference.

Module RedisReference.
Record RedisReference := { url_file : string; source_stream : string; target_stream : string }.
End RedisReference.

Module KindImport.
Record KindImport := { node : string; platform : string }.
End KindImport.

Module ArtifactReference.
Record ArtifactReference := {
  base_image : string; local_image : string; registry_endpoint : string; repository : string; tag : string;
  kind_import : option KindImport.KindImport }.
End ArtifactReference.

Module KubernetesReference.
Record KubernetesReference := {
  context : string; namespace : string; service : string; command : list string; health_command : list string;
  health_attempts : Z; health_interval_ms : Z; service_port : Z; container_port : Z;
  secrets : list Kubernetes.KubernetesSecretReference.KubernetesSecretReference }.
End KubernetesReference.

Module OperatorReference.
Record OperatorReference := { signing_key : string; not_before : string; not_after : string; approved_at : string }.
End OperatorReference.

Module ReferenceRecoveryConfig.
Record ReferenceRecoveryConfig := {
  version : string;
  workspace : string;
  service_manifest : string;
  postgres : PostgresReference.PostgresReference;
  s3 : S3Reference.S3Reference;
  redis : RedisReference.RedisReference;
  artifact : ArtifactReference.ArtifactReference;
  kubernetes : KubernetesReference.KubernetesReference;
  operator : OperatorReference.OperatorReference;
  isolation : IsolationPolicy;
}.
End ReferenceRecoveryConfig.

Module ReferenceStateBundle.
Record ReferenceStateBundle := {
  version : string;
  service_manifest_sha256 : string;
  postgres : StateSnapshot;
  s3 : StateSnapshot;
  redis : StateSnapshot;
  bundle_sha256 : string;
}.
Definition with_digest (d : string) (b : ReferenceStateBundle) : ReferenceStateBundle :=
  {| version := version b; service_manifest_sha256 := service_manifest_sha256 b; postgres := postgres b; s3 := s3 b;
     redis := redis b; bundle_sha256 := d |}.
End ReferenceStateBundle.

Module ReferenceRecoveryReceipt.
Record ReferenceRecoveryReceipt := {
  version : string;
  config_sha256 : string;
  activation_plan : ActivationPlan;
  postgres : RestoreReceipt;
  s3 : RestoreReceipt;
  redis : RestoreReceipt;
  artifact : RegistryReceipt;
  activation : ActivationReceipt;
  receipt_sha256 : string;
}.
Definition with_digest (d : string) (r : ReferenceRecoveryReceipt) : ReferenceRecoveryReceipt :=
  {| version := version r; config_sha256 := config_sha256 r; activation_plan := activation_plan r; postgres := postgres r;
     s3 := s3 r; redis := redis r; artifact := artifact r; activation := activation r; receipt_sha256 := d |}.
End ReferenceRecoveryReceipt.

Abbreviation Config := ReferenceRecoveryConfig.ReferenceRecoveryConfig.
Abbreviation Bundle := ReferenceStateBundle.ReferenceStateBundle.
Abbreviation Receipt := ReferenceRecoveryReceipt.ReferenceRecoveryReceipt.
Abbreviation Item := Lifecycle.Item.

(** What the workflow acts on: the three backends, the machine with its Docker daemon and
    the cluster. *)
Module World.
Record World (P O R D K : Type) := { postgres : P; objects : O; streams : R; machine : Machine D; cluster : K }.
Arguments postgres {P O R D K}.
Arguments objects {P O R D K}.
Arguments streams {P O R D K}.
Arguments machine {P O R D K}.
Arguments cluster {P O R D K}.
End World.

(** How the adapters are connected to their backends. *)
Class Connections (P O R : Type) := {
  connect_postgres : string -> string -> result Error (TransactionalStateAdapter P);
  connect_postgres_tls : string -> string -> list Z -> result Error (TransactionalStateAdapter P);
  connect_s3 : string -> string -> string -> string -> string -> option string -> string ->
    result Error (TransactionalStateAdapter O);
  connect_redis : string -> string -> result Error (TransactionalStateAdapter R);
}.

(** The adapters of [Postgres], [ObjectStore] and [Redis], over the clients of their
    crates. *)
Section Adapters.
Context {P O R : Type} `{UrlLib, Postgres.Postgres P, ObjectStore.ObjectStore O, Redis.Redis R}.
Context `{SerdeErrorText, JsonText, Sha256, Hex}.
Context `{!ToValue StateSchema, !ToValue (list StateItem), !ToValue StateSnapshot, !ToValue MigrationPlan}.
Context `{!ToVec Postgres.PgSchema.PgSchema, !FromSlice Postgres.PgSchema.PgSchema}.
Context `{!ToVec Redis.RedisEntry.RedisEntry, !FromSlice Redis.RedisEntry.RedisEntry}.
Context `{!ToVec Redis.RedisGroup.RedisGroup, !FromSlice Redis.RedisGroup.RedisGroup}.
Variables (open_postgres open_redis : string -> result string ()).
Variables (Cert Roots : Type) (certificates : list Z -> option (list Cert)) (empty : Roots)
  (add_root : Cert -> Roots -> option Roots) (configured : bool)
  (open_tls : Roots -> string -> result string ()) (set_timeouts : () -> result string ()).
Variable build : string -> string -> string -> string -> string -> bool -> option string -> result Error ().

Definition adapters : Connections P O R := {|
  connect_postgres connection schema :=
    '(_, schema) ← Postgres.connect open_postgres connection schema; Ok (Postgres.postgres_adapter schema);
  connect_postgres_tls connection schema ca_pem :=
    '(_, schema) ← Postgres.connect_tls certificates empty add_root configured open_tls set_timeouts connection schema ca_pem;
    Ok (Postgres.postgres_adapter schema);
  connect_s3 endpoint region bucket access secret token prefix :=
    '(_, prefix) ← ObjectStore.connect_with_token (build endpoint region bucket access secret) endpoint prefix token;
    Ok (ObjectStore.s3_adapter prefix);
  connect_redis url stream :=
    '(_, stream) ← Redis.connect open_redis url stream; Ok (Redis.redis_adapter stream);
|}.
End Adapters.

(** Acting on one part of the world. *)
Definition within {W S A} (get : W -> S) (set : S -> W -> W) (m : op S Error A) : op W Error A := fun w =>
  let '(r, s) := m (get w) in (r, set s w).

Definition failing {W A} (m : op W Error A) : op W (fault Error) A := fun w =>
  let '(r, w) := m w in (map_err Fails r, w).

Definition failures (outcomes : list (result Error ())) : list string :=
  omap (fun o => match o with Ok _ => None | Err error => Some (fmt error) end) outcomes.
Definition rollback_failure (original : Error) (outcomes : list (result Error ())) : Error :=
  match failures outcomes with
  | [] => invalid (fmt original +:+ "; completed reverse-order rollback")
  | failed => invalid (fmt original +:+ "; rollback failures require operator action: " +:+ join "; " failed)
  end.

(** What is known before the backends are planned for. *)
Module Ready.
Record Ready (P O R : Type) := {
  service_sha256 : string;
  recovery : Protocol.RecoveryResult;
  candidate : list Z;
  service_bytes : list Z;
  registry : string;
  key : Fragments.SigningKeyFile.SigningKeyFile;
  orchestrator : Kubernetes.KubernetesOrchestrator.KubernetesOrchestrator;
  postgres : TransactionalStateAdapter P;
  s3 : TransactionalStateAdapter O;
  redis : TransactionalStateAdapter R;
}.
Arguments service_sha256 {P O R}.
Arguments recovery {P O R}.
Arguments candidate {P O R}.
Arguments service_bytes {P O R}.
Arguments registry {P O R}.
Arguments key {P O R}.
Arguments orchestrator {P O R}.
Arguments postgres {P O R}.
Arguments s3 {P O R}.
Arguments redis {P O R}.
End Ready.
Abbreviation Ready := Ready.Ready.

Section Reference.
Context {P O R D K : Type} `{!Connections P O R, !Docker D, !ArtifactRegistry.DockerPipe D, !Kubernetes.Kubectl K}.
Context `{OsErrorText, ActivationErrorText, SerdeErrorText, JsonText, Sha256, Hex, Hmac, Ed25519, Jiff}.
Context `{Sandbox.WasmEncoder, Sandbox.Wasmi}.
Context `{!ToValue FragmentContent.FragmentContent, !ToValue Fragments.UnsignedEnvelope}.
Context `{!ToValue Fragments.Envelope.Envelope, !ToValue Candidate.Candidate, !ToValue Protocol.Certificate}.
Context `{!ToValue Service.ServiceManifest, !ToValue (list FragmentContent.FragmentContent)}.
Context `{!ToValue StateSchema, !ToValue (list StateItem), !ToValue StateSnapshot, !ToValue MigrationPlan}.
Context `{!ToValue ActivationPlan, !ToValue RegistryReceipt, !ToValue ApprovalPayload, !ToValue json, !FromSlice json}.
Context `{!FromSlice (list string), !FromSlice Fragments.SigningKeyFile.SigningKeyFile, !FromSlice Service.ServiceManifest}.
Context `{!ToValue Config, !FromSlice Config, !ToValue Bundle, !FromSlice Bundle, !ToValue Receipt, !FromSlice Receipt}.
Implicit Types (config : Config) (bundle : Bundle) (receipt : Receipt).

(** The files of the operator and the workspaces, which do not change meanwhile; the
    temporary directory, the process and the times of [unique_name]. *)
Variables (file_at : string -> option Item) (workspace_at : string -> Protocol.Workspace).
Variables (temp_dir : string) (pid first second : Z).

Abbreviation World := (World.World P O R D K).
Abbreviation act A := (op World Error A).

Definition set_postgres (s : P) (w : World) : World :=
  World.Build_World _ _ _ _ _ s (World.objects w) (World.streams w) (World.machine w) (World.cluster w).
Definition set_objects (s : O) (w : World) : World :=
  World.Build_World _ _ _ _ _ (World.postgres w) s (World.streams w) (World.machine w) (World.cluster w).
Definition set_streams (s : R) (w : World) : World :=
  World.Build_World _ _ _ _ _ (World.postgres w) (World.objects w) s (World.machine w) (World.cluster w).
Definition set_machine (m : Machine D) (w : World) : World :=
  World.Build_World _ _ _ _ _ (World.postgres w) (World.objects w) (World.streams w) m (World.cluster w).
Definition set_cluster (k : K) (w : World) : World :=
  World.Build_World _ _ _ _ _ (World.postgres w) (World.objects w) (World.streams w) (World.machine w) k.

Definition on_postgres {A} (m : op P Error A) : act A := within World.postgres set_postgres m.
Definition on_objects {A} (m : op O Error A) : act A := within World.objects set_objects m.
Definition on_streams {A} (m : op R Error A) : act A := within World.streams set_streams m.
Definition on_machine {A} (m : op (Machine D) Error A) : act A := within World.machine set_machine m.
Definition on_cluster {A} (m : op K Error A) : act A := within World.cluster set_cluster m.

(** ** Files *)

Definition read_regular (path : string) (maximum : Z) (private : bool) (label : string) : result Error (list Z) :=
  match file_at path with
  | None => Err (Io not_found)
  | Some (Lifecycle.PlainFile mode bytes) =>
      if (vec_len bytes =? 0) || (maximum <? vec_len bytes) || (private && negb (Z.land mode 63 =? 0))
      then Err (invalid (label +:+ " is not a valid bounded regular file")) else Ok bytes
  | Some _ => Err (invalid (label +:+ " is not a valid bounded regular file"))
  end.

Definition read_secret_string (path : string) : result Error string :=
  bytes ← read_regular path 4096 true "credential reference";
  value ← ok_or (from_utf8 bytes) (invalid "credential reference is not UTF-8");
  let value := trim value in
  if str_is_empty value || has_control value
  then Err (invalid "credential reference is empty or contains control bytes") else Ok value.

Definition read_json {T} `{!FromSlice T} (bytes : list Z) : result Error T :=
  ok_or (from_slice bytes) (Model.Json serde_error_text).

(** ** Validation *)

Definition validate_config config : result Error () :=
  if negb (bool_decide (ReferenceRecoveryConfig.version config = "reference-recovery-config-v1"))
  then Err (invalid "reference recovery configuration version is unsupported") else
  _ ← validate_policy (ReferenceRecoveryConfig.isolation config);
  let kubernetes := ReferenceRecoveryConfig.kubernetes config in
  if (KubernetesReference.health_attempts kubernetes =? 0) || (300 <? KubernetesReference.health_attempts kubernetes)
     || (KubernetesReference.health_interval_ms kubernetes =? 0)
     || (60000 <? KubernetesReference.health_interval_ms kubernetes)
  then Err (invalid "reference health policy is outside supported bounds") else Ok ().

Definition validate_bundle bundle : result Error () :=
  if negb (bool_decide (ReferenceStateBundle.version bundle = "reference-state-bundle-v1"))
     || str_is_empty (ReferenceStateBundle.bundle_sha256 bundle)
  then Err (invalid "reference state bundle version or digest is invalid") else
  d ← digest (ReferenceStateBundle.with_digest "" bundle);
  if negb (bool_decide (d = ReferenceStateBundle.bundle_sha256 bundle))
  then Err (invalid "reference state bundle digest is invalid") else Ok ().

Definition validate_receipt_integrity receipt : result Error () :=
  if negb (bool_decide (ReferenceRecoveryReceipt.version receipt = "reference-recovery-receipt-v1"))
     || str_is_empty (ReferenceRecoveryReceipt.receipt_sha256 receipt)
  then Err (invalid "reference recovery receipt version or digest is invalid") else
  d ← digest (ReferenceRecoveryReceipt.with_digest "" receipt);
  if negb (bool_decide (d = ReferenceRecoveryReceipt.receipt_sha256 receipt))
  then Err (invalid "reference recovery receipt digest is invalid") else
  let plan := ReferenceRecoveryReceipt.activation_plan receipt in
  let artifact := ReferenceRecoveryReceipt.artifact receipt in
  let activation := ReferenceRecoveryReceipt.activation receipt in
  _ ← validate_activation_plan plan;
  d ← digest (RegistryReceipt.with_binding "" artifact);
  if negb (bool_decide (d = RegistryReceipt.binding_sha256 artifact))
     || negb (bool_decide (RegistryReceipt.activation_plan_sha256 artifact = ActivationPlan.plan_sha256 plan))
     || negb (bool_decide (ActivationReceipt.plan_sha256 activation = ActivationPlan.plan_sha256 plan))
     || negb (bool_decide (ActivationReceipt.immutable_image activation = RegistryReceipt.immutable_image artifact))
  then Err (invalid "reference recovery artifact or activation binding is invalid") else Ok ().

Definition expected_rollback (backend : BackendKind) (target : string) : string :=
  match backend with
  | PostgreSql => target +:+ "_anasemble_rollback"
  | S3Compatible => "anasemble-rollback/" +:+ bytes_digest (bytes_of_string target) +:+ "/"
  | RedisStream => target +:+ ":anasemble:rollback"
  end.

(** The body of the loop of [validate_receipt] over the backends. *)
Definition validate_state (states : list ActivationStateBinding.ActivationStateBinding)
  (expected : BackendKind * string * RestoreReceipt) : result Error () :=
  let '(backend, target, state_receipt) := expected in
  binding ← ok_or (List.find (fun b => bool_decide (ActivationStateBinding.backend b = backend)) states)
                  (invalid "reference recovery receipt is missing a state binding");
  if negb (bool_decide (RestoreReceipt.backend state_receipt = backend))
     || negb (bool_decide (RestoreReceipt.target_resource state_receipt = target))
     || negb (bool_decide (ActivationStateBinding.resource binding = target))
     || negb (bool_decide (RestoreReceipt.snapshot_sha256 state_receipt = ActivationStateBinding.snapshot_sha256 binding))
     || negb (bool_decide (RestoreReceipt.migration_sha256 state_receipt = ActivationStateBinding.migration_sha256 binding))
  then Err (invalid "reference recovery state receipt binding is invalid") else
  if negb (str_is_empty (RestoreReceipt.rollback_token state_receipt))
     && negb (bool_decide (RestoreReceipt.rollback_token state_receipt = expected_rollback backend target))
  then Err (invalid "reference recovery rollback token is invalid") else Ok ().

Definition expected_states config receipt : list (BackendKind * string * RestoreReceipt) :=
  [(PostgreSql, PostgresReference.target_schema (ReferenceRecoveryConfig.postgres config), ReferenceRecoveryReceipt.postgres receipt);
   (S3Compatible, S3Reference.target_prefix (ReferenceRecoveryConfig.s3 config), ReferenceRecoveryReceipt.s3 receipt);
   (RedisStream, RedisReference.target_stream (ReferenceRecoveryConfig.redis config), ReferenceRecoveryReceipt.redis receipt)].

Definition validate_receipt config receipt : result Error () :=
  _ ← validate_receipt_integrity receipt;
  _ ← for_each (expected_states config receipt) () (fun expected _ =>
        validate_state (ActivationPlan.states (ReferenceRecoveryReceipt.activation_plan receipt)) expected);
  if negb (bool_decide (ActivationReceipt.service (ReferenceRecoveryReceipt.activation receipt)
                        = KubernetesReference.service (ReferenceRecoveryConfig.kubernetes config)))
  then Err (invalid "reference recovery activation service is invalid") else Ok ().

(** ** Reading *)

Definition read_config (path : string) : result Error Config :=
  bytes ← read_regular path MAX_CONFIG_BYTES false "reference configuration";
  config ← read_json bytes;
  _ ← validate_config config;
  Ok config.
Definition read_bundle (path : string) : result Error Bundle :=
  bytes ← read_regular path MAX_BUNDLE_BYTES true "reference state bundle";
  bundle ← read_json bytes;
  _ ← validate_bundle bundle;
  Ok bundle.
Definition read_receipt (path : string) : result Error Receipt :=
  bytes ← read_regular path MAX_CONFIG_BYTES true "reference recovery receipt";
  receipt ← read_json bytes;
  _ ← validate_receipt_integrity receipt;
  Ok receipt.
Definition read_service config : result Error Service.ServiceManifest :=
  bytes ← read_regular (ReferenceRecoveryConfig.service_manifest config) MAX_CONFIG_BYTES false "service manifest";
  service ← read_json bytes;
  _ ← Service.validate service;
  Ok service.

(** ** Adapters *)

Definition postgres_adapter config : result Error (TransactionalStateAdapter P) :=
  let reference := ReferenceRecoveryConfig.postgres config in
  connection ← read_secret_string (PostgresReference.connection_file reference);
  match PostgresReference.tls_ca_file reference with
  | Some path =>
      ca ← read_regular path MAX_CONFIG_BYTES false "PostgreSQL TLS CA bundle";
      connect_postgres_tls connection (PostgresReference.source_schema reference) ca
  | None => connect_postgres connection (PostgresReference.source_schema reference)
  end.

Definition s3_adapter config : result Error (TransactionalStateAdapter O) :=
  let reference := ReferenceRecoveryConfig.s3 config in
  session_token ← (match S3Reference.session_token_file reference with
                   | Some path => token ← read_secret_string path; Ok (Some token)
                   | None => Ok None
                   end);
  access ← read_secret_string (S3Reference.access_key_file reference);
  secret ← read_secret_string (S3Reference.secret_key_file reference);
  connect_s3 (S3Reference.endpoint reference) (S3Reference.region reference) (S3Reference.bucket reference)
             access secret session_token (S3Reference.source_prefix reference).

Definition redis_adapter config : result Error (TransactionalStateAdapter R) :=
  let reference := ReferenceRecoveryConfig.redis config in
  url ← read_secret_string (RedisReference.url_file reference);
  connect_redis url (RedisReference.source_stream reference).

(** ** Preparation *)

Definition prepare config : act Bundle :=
  _ ← lift (validate_config config);
  service ← lift (read_service config);
  postgres ← lift (postgres_adapter config);
  s3 ← lift (s3_adapter config);
  redis ← lift (redis_adapter config);
  service_manifest_sha256 ← lift (digest service);
  postgres_snapshot ← on_postgres (snapshot _ postgres);
  s3_snapshot ← on_objects (snapshot _ s3);
  redis_snapshot ← on_streams (snapshot _ redis);
  let bundle := {| ReferenceStateBundle.version := "reference-state-bundle-v1";
                   ReferenceStateBundle.service_manifest_sha256 := service_manifest_sha256;
                   ReferenceStateBundle.postgres := postgres_snapshot;
                   ReferenceStateBundle.s3 := s3_snapshot;
                   ReferenceStateBundle.redis := redis_snapshot;
                   ReferenceStateBundle.bundle_sha256 := "" |} in
  d ← lift (digest bundle);
  mret (ReferenceStateBundle.with_digest d bundle).

(** ** Recovery *)

(** Runs the rollbacks in order, each whatever became of the ones before, and fails. *)
Definition undo {A} (error : Error) (rollbacks : list (act ())) : act A :=
  outcomes ← op_for rollbacks [] (fun rollback done => o ← outcome rollback; mret (done ++ [o]));
  fail (rollback_failure error outcomes).

Definition kubernetes_spec config (artifact : RegistryReceipt) : Kubernetes.KubernetesDeploymentSpec.KubernetesDeploymentSpec :=
  let kubernetes := ReferenceRecoveryConfig.kubernetes config in
  {| Kubernetes.KubernetesDeploymentSpec.version := "kubernetes-deployment-v1";
     Kubernetes.KubernetesDeploymentSpec.namespace := KubernetesReference.namespace kubernetes;
     Kubernetes.KubernetesDeploymentSpec.service := KubernetesReference.service kubernetes;
     Kubernetes.KubernetesDeploymentSpec.artifact := artifact;
     Kubernetes.KubernetesDeploymentSpec.command := KubernetesReference.command kubernetes;
     Kubernetes.KubernetesDeploymentSpec.isolation := ReferenceRecoveryConfig.isolation config;
     Kubernetes.KubernetesDeploymentSpec.secrets := KubernetesReference.secrets kubernetes;
     Kubernetes.KubernetesDeploymentSpec.health :=
       {| HealthProbe.command := KubernetesReference.health_command kubernetes;
          HealthProbe.attempts := KubernetesReference.health_attempts kubernetes;
          HealthProbe.interval_ms := KubernetesReference.health_interval_ms kubernetes |};
     Kubernetes.KubernetesDeploymentSpec.service_port := KubernetesReference.service_port kubernetes;
     Kubernetes.KubernetesDeploymentSpec.container_port := KubernetesReference.container_port kubernetes |}.

(** Up to the connection of the adapters; the recovery may unwind. *)
Definition ready config bundle : result (fault Error) (Ready P O R) :=
  _ ← fails (validate_config config);
  _ ← fails (validate_bundle bundle);
  service ← fails (read_service config);
  service_sha256 ← fails (digest service);
  if negb (bool_decide (service_sha256 = ReferenceStateBundle.service_manifest_sha256 bundle))
  then Err (Fails (invalid "service manifest differs from the prepared state bundle")) else
  recovery ← or_panic (Protocol.run (workspace_at (ReferenceRecoveryConfig.workspace config)));
  fails (
    candidate ← (match recovery with
                 | Protocol.Certified candidate _ _ => encode candidate
                 | Protocol.Refused _ _ => Err (invalid "reference recovery did not certify a candidate")
                 end);
    service_bytes ← encode service;
    registry ← ArtifactRegistry.connect (ArtifactReference.registry_endpoint (ReferenceRecoveryConfig.artifact config));
    key ← KeyFiles.read_signing_key (file_at (OperatorReference.signing_key (ReferenceRecoveryConfig.operator config)));
    public_key ← ok_or (hex_decode (Fragments.SigningKeyFile.public_key_hex key)) (invalid "operator public key is not hex");
    public_key ← ok_or (try_into_array 32 public_key) (invalid "operator public key length is invalid");
    orchestrator ← Kubernetes.new (KubernetesReference.context (ReferenceRecoveryConfig.kubernetes config))
      {| ApprovalPolicy.operator_keys := [(Fragments.SigningKeyFile.key_id key, public_key)];
         ApprovalPolicy.not_before := OperatorReference.not_before (ReferenceRecoveryConfig.operator config);
         ApprovalPolicy.not_after := OperatorReference.not_after (ReferenceRecoveryConfig.operator config) |};
    postgres ← postgres_adapter config;
    s3 ← s3_adapter config;
    redis ← redis_adapter config;
    Ok {| Ready.service_sha256 := service_sha256; Ready.recovery := recovery; Ready.candidate := candidate;
          Ready.service_bytes := service_bytes; Ready.registry := registry; Ready.key := key;
          Ready.orchestrator := orchestrator; Ready.postgres := postgres; Ready.s3 := s3; Ready.redis := redis |}).

Definition operator_approval config (key : Fragments.SigningKeyFile.SigningKeyFile) (plan : ActivationPlan)
  (artifact : RegistryReceipt) (signature : string) : OperatorApproval :=
  {| OperatorApproval.version := "operator-approval-v1"; OperatorApproval.plan_sha256 := ActivationPlan.plan_sha256 plan;
     OperatorApproval.artifact_sha256 := RegistryReceipt.binding_sha256 artifact;
     OperatorApproval.operator_key_id := Fragments.SigningKeyFile.key_id key;
     OperatorApproval.approved_at := OperatorReference.approved_at (ReferenceRecoveryConfig.operator config);
     OperatorApproval.signature := signature |}.

Definition package_request config (ready : Ready P O R) (plan : ActivationPlan) : ArtifactPackageRequest :=
  let artifact := ReferenceRecoveryConfig.artifact config in
  {| ArtifactPackageRequest.base_image := ArtifactReference.base_image artifact;
     ArtifactPackageRequest.local_image := ArtifactReference.local_image artifact;
     ArtifactPackageRequest.repository := ArtifactReference.repository artifact;
     ArtifactPackageRequest.tag := ArtifactReference.tag artifact;
     ArtifactPackageRequest.activation_plan := plan;
     ArtifactPackageRequest.candidate := Ready.candidate ready;
     ArtifactPackageRequest.service_manifest := Ready.service_bytes ready |}.

(** From the binding of the plan to the activation, each failure being followed by the
    rollbacks [back], save when the outcome of the activation is not known. *)
Definition activate_restored config (ready : Ready P O R) (states : list (StateSnapshot * MigrationPlan))
  (back : list (act ())) : act (ActivationPlan * RegistryReceipt * ActivationReceipt) :=
  plan ← on_error (lift (bind_activation_plan (Ready.recovery ready) (Ready.service_sha256 ready) states))
                  (fun error => undo error back);
  artifact ← on_error (on_machine (ArtifactRegistry.package_and_publish (Ready.registry ready) temp_dir pid first second
                                     (package_request config ready plan)))
                      (fun error => undo error back);
  _ ← (match ArtifactReference.kind_import (ReferenceRecoveryConfig.artifact config) with
       | Some import =>
           on_error (on_machine (ArtifactRegistry.import_image_into_kind_node (RegistryReceipt.immutable_image artifact)
                                   (KindImport.node import) (KindImport.platform import)))
                    (fun error => undo error back)
       | None => mret ()
       end);
  let spec := kubernetes_spec config artifact in
  let approval := operator_approval config (Ready.key ready) plan artifact in
  signature ← on_error (lift (payload ← approval_payload (approval "");
                              Fragments.sign_detached_with_key_file payload (Ready.key ready)))
                       (fun error => undo error back);
  activation ← on_error (on_cluster (Kubernetes.activate (Ready.orchestrator ready) spec (approval signature)))
                 (fun error => match error with ExternalStateUncertain _ => fail error | _ => undo error back end);
  mret (plan, artifact, activation).

Definition seal_receipt config (plan : ActivationPlan) (postgres s3 redis : RestoreReceipt) (artifact : RegistryReceipt)
  (activation : ActivationReceipt) : result Error Receipt :=
  config_sha256 ← digest config;
  let receipt := {| ReferenceRecoveryReceipt.version := "reference-recovery-receipt-v1";
                    ReferenceRecoveryReceipt.config_sha256 := config_sha256;
                    ReferenceRecoveryReceipt.activation_plan := plan;
                    ReferenceRecoveryReceipt.postgres := postgres; ReferenceRecoveryReceipt.s3 := s3;
                    ReferenceRecoveryReceipt.redis := redis; ReferenceRecoveryReceipt.artifact := artifact;
                    ReferenceRecoveryReceipt.activation := activation; ReferenceRecoveryReceipt.receipt_sha256 := "" |} in
  d ← digest receipt;
  Ok (ReferenceRecoveryReceipt.with_digest d receipt).

(** From the plans to the receipt. *)
Definition restore_and_activate config bundle (ready : Ready P O R) : act Receipt :=
  let postgres := Ready.postgres ready in
  let s3 := Ready.s3 ready in
  let redis := Ready.redis ready in
  let '(postgres_snapshot, s3_snapshot, redis_snapshot) :=
    (ReferenceStateBundle.postgres bundle, ReferenceStateBundle.s3 bundle, ReferenceStateBundle.redis bundle) in
  postgres_plan ← on_postgres (Stateful.plan _ postgres postgres_snapshot
                                 (PostgresReference.target_schema (ReferenceRecoveryConfig.postgres config)));
  s3_plan ← on_objects (Stateful.plan _ s3 s3_snapshot (S3Reference.target_prefix (ReferenceRecoveryConfig.s3 config)));
  redis_plan ← on_streams (Stateful.plan _ redis redis_snapshot
                             (RedisReference.target_stream (ReferenceRecoveryConfig.redis config)));
  postgres_receipt ← on_postgres (restore _ postgres postgres_snapshot postgres_plan);
  let back := [on_postgres (rollback _ postgres postgres_receipt)] in
  s3_receipt ← on_error (on_objects (restore _ s3 s3_snapshot s3_plan)) (fun error => undo error back);
  let back := on_objects (rollback _ s3 s3_receipt) :: back in
  redis_receipt ← on_error (on_streams (restore _ redis redis_snapshot redis_plan)) (fun error => undo error back);
  let back := on_streams (rollback _ redis redis_receipt) :: back in
  '(plan, artifact, activation) ← activate_restored config ready
    [(postgres_snapshot, postgres_plan); (s3_snapshot, s3_plan); (redis_snapshot, redis_plan)] back;
  lift (seal_receipt config plan postgres_receipt s3_receipt redis_receipt artifact activation).

Definition recover_and_activate config bundle : op World (fault Error) Receipt :=
  ready ← lift (ready config bundle);
  failing (restore_and_activate config bundle ready).

(** ** Rollback and commit *)

(** An orchestrator without operator keys, which approves nothing. *)
Definition reference_orchestrator config : result Error Kubernetes.KubernetesOrchestrator.KubernetesOrchestrator :=
  Kubernetes.new (KubernetesReference.context (ReferenceRecoveryConfig.kubernetes config))
    {| ApprovalPolicy.operator_keys := [];
       ApprovalPolicy.not_before := OperatorReference.not_before (ReferenceRecoveryConfig.operator config);
       ApprovalPolicy.not_after := OperatorReference.not_after (ReferenceRecoveryConfig.operator config) |}.

Definition bound_receipt config receipt : result Error () :=
  _ ← validate_config config;
  _ ← validate_receipt config receipt;
  d ← digest config;
  if negb (bool_decide (ReferenceRecoveryReceipt.config_sha256 receipt = d))
  then Err (invalid "recovery receipt does not bind this configuration") else Ok ().

Definition rollback_recovery config receipt : act () :=
  _ ← lift (bound_receipt config receipt);
  orchestrator ← lift (reference_orchestrator config);
  _ ← on_cluster (Kubernetes.rollback orchestrator (KubernetesReference.namespace (ReferenceRecoveryConfig.kubernetes config))
                    (KubernetesReference.service (ReferenceRecoveryConfig.kubernetes config)));
  postgres ← lift (postgres_adapter config);
  s3 ← lift (s3_adapter config);
  redis ← lift (redis_adapter config);
  redis_outcome ← outcome (on_streams (rollback _ redis (ReferenceRecoveryReceipt.redis receipt)));
  s3_outcome ← outcome (on_objects (rollback _ s3 (ReferenceRecoveryReceipt.s3 receipt)));
  postgres_outcome ← outcome (on_postgres (rollback _ postgres (ReferenceRecoveryReceipt.postgres receipt)));
  match failures [redis_outcome; s3_outcome; postgres_outcome] with
  | [] => mret ()
  | errors => fail (invalid ("one or more state rollbacks failed: " +:+ join "; " errors))
  end.

Definition commit_recovery config receipt : act () :=
  _ ← lift (bound_receipt config receipt);
  postgres ← lift (postgres_adapter config);
  s3 ← lift (s3_adapter config);
  redis ← lift (redis_adapter config);
  _ ← on_postgres (verify_receipt _ postgres (ReferenceRecoveryReceipt.postgres receipt));
  _ ← on_objects (verify_receipt _ s3 (ReferenceRecoveryReceipt.s3 receipt));
  _ ← on_streams (verify_receipt _ redis (ReferenceRecoveryReceipt.redis receipt));
  _ ← on_postgres (commit _ postgres (ReferenceRecoveryReceipt.postgres receipt));
  _ ← on_objects (commit _ s3 (ReferenceRecoveryReceipt.s3 receipt));
  _ ← on_streams (commit _ redis (ReferenceRecoveryReceipt.redis receipt));
  orchestrator ← lift (reference_orchestrator config);
  on_cluster (Kubernetes.commit orchestrator (KubernetesReference.namespace (ReferenceRecoveryConfig.kubernetes config))
                (KubernetesReference.service (ReferenceRecoveryConfig.kubernetes config))).
End Reference.
