(* ===== verification/ActivationSafety.v ===== *)
(** src/activation.rs, Docker: what deployments, interruptions and rollbacks leave on a
    daemon that does what its commands are documented to do ([DockerLaws]) and has no
    other client meanwhile. *)
From stdpp Require Import pretty fin_maps.
From S2P Require Import Prelude Effects FileTree External Json Core Model Canonical Text Activation Containers.
From S2P Require Stateful.

(** * The daemon *)

(** A container: its image, its label anasemble.plan and whether it runs. *)
Module Container.
Record Container := { image : string; plan : string; running : bool }.
Definition set_running (b : bool) (c : Container) : Container :=
  {| image := image c; plan := plan c; running := b |}.
End Container.
Abbreviation Container := Container.Container.

(** The containers, and the networks with whether they are internal. *)
Abbreviation view_t := (gmap string Container * gmap string bool)%type.

Class DockerView (D : Type) := {
  view : D -> view_t;
  startable : string -> bool;                (* images there are and whose containers start *)
  healthy : string -> list string -> bool;   (* images in which a command succeeds *)
}.

Definition line (text : string) : Output :=
  {| Output.success := true; Output.stdout := bytes_of_string text ++ [10]; Output.stderr := [] |}.
Definition succeeded (o : Output) : Prop := Output.success o = true /\ output_len o <= MAX_DOCKER_OUTPUT.

(** A command that gives such an output and leaves this view. *)
Definition gives {D} `{Docker D, DockerView D} (args : list string) (d : D) (P : Output -> Prop) (v : view_t) : Prop :=
  exists o d', docker_command args d = (Ok o, d') /\ P o /\ view d' = v.

Class DockerLaws (D : Type) `{Docker D, DockerView D} : Prop := {
  run_container_inspect : forall d name,
    gives ["container"; "inspect"; name] d
      (fun o => Output.success o = bool_decide (is_Some ((view d).1 !! name))) (view d);
  run_inspect_plan : forall d name c, (view d).1 !! name = Some c ->
    gives ["inspect"; "--format"; label_template "anasemble.plan"; name] d (fun o => o = line (Container.plan c)) (view d);
  run_inspect_image : forall d name c, (view d).1 !! name = Some c ->
    gives ["inspect"; "--format"; "{{.Config.Image}}"; name] d (fun o => o = line (Container.image c)) (view d);
  run_inspect_running : forall d name c, (view d).1 !! name = Some c ->
    gives ["inspect"; "--format"; "{{.State.Running}}"; name] d
      (fun o => o = line (if Container.running c then "true" else "false")) (view d);
  run_start : forall d name c, (view d).1 !! name = Some c -> startable (Container.image c) = true ->
    gives ["start"; name] d succeeded (<[name := Container.set_running true c]> (view d).1, (view d).2);
  run_stop : forall d name c, (view d).1 !! name = Some c ->
    gives ["stop"; "--time"; "5"; name] d succeeded (<[name := Container.set_running false c]> (view d).1, (view d).2);
  run_rename : forall d from to c, (view d).1 !! from = Some c -> (view d).1 !! to = None ->
    gives ["rename"; from; to] d succeeded (<[to := c]> (delete from (view d).1), (view d).2);
  run_rm : forall d name, is_Some ((view d).1 !! name) ->
    gives ["rm"; "--force"; name] d succeeded (delete name (view d).1, (view d).2);
  run_exec : forall d name c command, (view d).1 !! name = Some c -> Container.running c = true ->
    healthy (Container.image c) command = true ->
    gives (["exec"; name] ++ command) d succeeded (view d);
  run_exec_fails : forall d name c command, (view d).1 !! name = Some c ->
    healthy (Container.image c) command = false ->
    gives (["exec"; name] ++ command) d (fun o => Output.success o = false /\ output_len o <= MAX_DOCKER_OUTPUT) (view d);
  view_sleep : forall n d, view (thread_sleep n d) = view d;
  run_create_lease : forall d name plan image, (view d).1 !! name = None -> String.prefix "-" image = false ->
    startable image = true ->
    gives (lease_args name plan image) d succeeded
      (<[name := {| Container.image := image; Container.plan := plan; Container.running := false |}]> (view d).1, (view d).2);
  run_create_staged : forall d name spec sources, (view d).1 !! name = None ->
    let artifact := DeploymentSpec.artifact spec in
    String.prefix "-" (RegistryReceipt.immutable_image artifact) = false ->
    startable (RegistryReceipt.immutable_image artifact) = true ->
    validate_policy (DeploymentSpec.isolation spec) = Ok () ->
    is_Some ((view d).2 !! ("anasemble-" +:+ DeploymentSpec.service spec +:+ "-network")) ->
    Forall (fun source => String.prefix "type=bind,src=" source = true) sources ->
    gives (staged_args spec name (sources ≫= fun source => ["--mount"; source])) d succeeded
      (<[name := {| Container.image := RegistryReceipt.immutable_image artifact;
                    Container.plan := RegistryReceipt.activation_plan_sha256 artifact;
                    Container.running := false |}]> (view d).1, (view d).2);
  run_network_inspect : forall d name,
    gives ["network"; "inspect"; name] d
      (fun o => Output.success o = bool_decide (is_Some ((view d).2 !! name))) (view d);
  run_network_internal : forall d name internal, (view d).2 !! name = Some internal ->
    gives ["network"; "inspect"; "--format"; "{{.Internal}}"; name] d
      (fun o => o = line (if internal : bool then "true" else "false")) (view d);
  run_network_create : forall d name service, (view d).2 !! name = None ->
    gives ["network"; "create"; "--internal"; "--label"; "anasemble.service=" +:+ service; name] d succeeded
      ((view d).1, <[name := true]> (view d).2);
}.

(** Text that a line of output gives back. *)
Definition clean (text : string) : Prop :=
  text <> "" /\ str_len text <= 300 /\ Forall (fun b => is_ascii_graphic b = true) (bytes_of_string text).

Lemma clean_line text : clean text ->
  from_utf8 (Output.stdout (line text)) = Some (string_of_bytes (bytes_of_string text ++ [10])) /\
  trim (string_of_bytes (bytes_of_string text ++ [10])) = text /\
  output_len (line text) <= MAX_DOCKER_OUTPUT /\ vec_len (Output.stdout (line text)) <= MAX_DOCKER_OUTPUT.
Proof.
  intros (Hne & Hlen & Hg). assert (vec_len (bytes_of_string text ++ [10]) <= 301) as Hv.
  { unfold vec_len. rewrite length_app, Nat2Z.inj_add, bytes_of_string_length. simpl. lia. }
  split_and!.
  - unfold from_utf8, line. cbn [Output.stdout]. rewrite ascii_utf8; [done|]. apply Forall_app. split; [|by repeat constructor].
    eapply Forall_impl; [exact Hg|]. unfold is_ascii_graphic, in_range. intros b Hb. simpl in Hb. lia.
  - by apply trim_line.
  - unfold output_len, line. cbn [Output.stdout Output.stderr]. unfold saturating_add_u64, MAX_DOCKER_OUTPUT in *.
    change (vec_len []) with 0. lia.
  - unfold line, MAX_DOCKER_OUTPUT. cbn [Output.stdout]. lia.
Qed.

Section Runs.
Context {D : Type} `{Docker D, !DockerView D, !DockerLaws D, Canonicalize, OsErrorText}.
Context `{SerdeErrorText, JsonText, Sha256, Hex, Ed25519, Jiff, ActivationErrorText}.
Context `{!ToValue ApprovalPayload, !ToValue RegistryReceipt}.
Variable (f : gmap string PathEntry).
Abbreviation act A := (op (Machine D) Error A).
Implicit Types (v w : view_t).

(** From one view to another, with this result; the files stay as they are. *)
Definition look (m : Machine D) : view_t * gmap string PathEntry := (view (daemon m), files m).
Definition goes {A} (p : act A) v (r : result Error A) w : Prop := takes look p (v, f) r (w, f).

Lemma goes_run {A} (p : act A) v r w : goes p v r w <->
  forall d, view d = v -> exists d', p (Build_Machine d f) = (r, Build_Machine d' f) /\ view d' = w.
Proof.
  split; intros Hp.
  - intros d Hd. destruct (Hp (Build_Machine d f)) as ([d' f'] & Hr & [= Hw ->]); [by rewrite <- Hd|]. by exists d'.
  - intros [d f'] [= Hd ->]. destruct (Hp d Hd) as (d' & Hr & Hw). exists (Build_Machine d' f). split; [done|].
    by rewrite <- Hw.
Qed.

Lemma goes_ret {A} (a : A) v : goes (mret a) v (Ok a) v.
Proof. apply takes_ret. Qed.
Lemma goes_lift {A} (r : result Error A) v : goes (lift r) v r v.
Proof. apply takes_lift. Qed.
Lemma goes_fail {A} e v : goes (fail e : act A) v (Err e) v.
Proof. apply takes_fail. Qed.
Lemma goes_bind {A B} (p : act A) (k : A -> act B) v a w r x :
  goes p v (Ok a) w -> goes (k a) w r x -> goes (p ≫= k) v r x.
Proof. apply takes_bind. Qed.
Lemma goes_bind_Err {A B} (p : act A) (k : A -> act B) v e w :
  goes p v (Err e) w -> goes (p ≫= k) v (Err e) w.
Proof. apply takes_bind_Err. Qed.
Lemma goes_on_error {A} (p : act A) h v e w r x :
  goes p v (Err e) w -> goes (h e) w r x -> goes (on_error p h) v r x.
Proof. apply takes_on_error. Qed.
Lemma goes_on_error_Ok {A} (p : act A) h v a w : goes p v (Ok a) w -> goes (on_error p h) v (Ok a) w.
Proof. apply takes_on_error_Ok. Qed.
Lemma goes_outcome {A} (p : act A) v r w : goes p v r w -> goes (Stateful.outcome p) v (Ok r) w.
Proof. apply Stateful.takes_outcome. Qed.

(** ** Commands *)

Lemma goes_output args v w (P : Output -> Prop) (d : D) :
  view d = v -> gives args d P w ->
  exists o d', docker_output args (Build_Machine d f) = (Ok o, Build_Machine d' f) /\ P o /\ view d' = w.
Proof.
  intros Hd (o & d' & Hr & Ho & Hd'). exists o, d'. split; [|done]. unfold docker_output. cbn [daemon files]. by rewrite Hr.
Qed.

Lemma goes_docker args v w : (forall d, view d = v -> gives args d succeeded w) -> goes (docker args) v (Ok ()) w.
Proof.
  intros Hg. apply goes_run. intros d Hd.
  destruct (goes_output _ _ _ _ d Hd (Hg d Hd)) as (o & d' & Hr & [Hs Hl] & Hd'). exists d'. split; [|done]. unfold docker, docker_raw. rewrite (run_bind _ _ _ o (Build_Machine d' f)); [done|].
  rewrite (run_bind _ _ _ _ _ Hr), (proj2 (Z.ltb_ge _ _)) by done. by rewrite Hs.
Qed.

Lemma goes_text args v text : clean text ->
  (forall d, view d = v -> gives args d (fun o => o = line text) v) ->
  goes (docker_text args) v (Ok (string_of_bytes (bytes_of_string text ++ [10]))) v.
Proof.
  intros Hc Hg. apply goes_run. intros d Hd. destruct (goes_output _ _ _ _ d Hd (Hg d Hd)) as (o & d' & Hr & -> & Hd').
  destruct (clean_line text Hc) as (Hu & _ & Hl & Hv). exists d'. split; [|done].
  unfold docker_text, docker_bytes, docker_raw.
  rewrite (run_bind _ _ _ (Output.stdout (line text)) (Build_Machine d' f)); [by rewrite Hu|].
  rewrite (run_bind _ _ _ (line text) (Build_Machine d' f)).
  - by rewrite (proj2 (Z.ltb_ge _ _)).
  - rewrite (run_bind _ _ _ _ _ Hr), (proj2 (Z.ltb_ge _ _)) by done. done.
Qed.

Lemma goes_docker_fails args v :
  (forall d, view d = v -> gives args d (fun o => Output.success o = false /\ output_len o <= MAX_DOCKER_OUTPUT) v) ->
  forall d, view d = v -> exists e d', docker args (Build_Machine d f) = (Err e, Build_Machine d' f) /\ view d' = v.
Proof.
  intros Hg d Hd. destruct (goes_output _ _ _ _ d Hd (Hg d Hd)) as (o & d' & Hr & [Hs Hl] & Hd').
  eexists _, d'. split; [|done]. unfold docker, docker_raw.
  erewrite run_bind_Err; [done|]. rewrite (run_bind _ _ _ _ _ Hr), (proj2 (Z.ltb_ge _ _)) by done. by rewrite Hs.
Qed.

Lemma goes_exists name v : goes (container_exists name) v (Ok (bool_decide (is_Some (v.1 !! name)))) v.
Proof.
  apply goes_run. intros d Hd. destruct (goes_output _ v _ _ d Hd (run_container_inspect d name)) as (o & d' & Hr & Ho & Hd').
  subst v. exists d'. split; [|done]. unfold container_exists. rewrite (run_bind _ _ _ _ _ Hr). by rewrite Ho.
Qed.

Lemma goes_exists_Some name v c : v.1 !! name = Some c -> goes (container_exists name) v (Ok true) v.
Proof. intros Hc. rewrite <- (bool_decide_eq_true_2 (is_Some (v.1 !! name))) by by eexists. apply goes_exists. Qed.
Lemma goes_exists_None name v : v.1 !! name = None -> goes (container_exists name) v (Ok false) v.
Proof.
  intros Hc. rewrite <- (bool_decide_eq_false_2 (is_Some (v.1 !! name))) by (rewrite Hc; by intros [? ?]).
  apply goes_exists.
Qed.

Lemma graphic_not_no_value text : clean text -> text <> "<no value>".
Proof.
  intros (_ & _ & Hg) ->. vm_compute in Hg. do 3 apply Forall_inv_tail in Hg. by apply Forall_inv in Hg.
Qed.

Lemma goes_label name v c : v.1 !! name = Some c -> clean (Container.plan c) ->
  goes (container_label name "anasemble.plan") v (Ok (Some (Container.plan c))) v.
Proof.
  intros Hc Hp. unfold container_label. eapply goes_bind; [by eapply goes_exists_Some|]. cbn [negb].
  eapply goes_bind; [apply (goes_text _ v (Container.plan c)); [done|]|].
  - intros d Hd. subst v. by apply run_inspect_plan.
  - destruct (clean_line _ Hp) as (_ & -> & _). pose proof (graphic_not_no_value _ Hp) as Hn.
    rewrite (bool_decide_eq_false_2 _ Hn). assert (str_is_empty (Container.plan c) = false) as ->; [|apply goes_ret].
    destruct Hp as [Hne _]. unfold str_is_empty. apply Z.eqb_neq. unfold str_len. by destruct (Container.plan c).
Qed.
Lemma goes_label_None name v label : v.1 !! name = None -> goes (container_label name label) v (Ok None) v.
Proof. intros Hc. unfold container_label. eapply goes_bind; [by eapply goes_exists_None|]. apply goes_ret. Qed.

Lemma goes_image name v c : v.1 !! name = Some c -> clean (Container.image c) ->
  goes (container_image name) v (Ok (Some (Container.image c))) v.
Proof.
  intros Hc Hp. unfold container_image. eapply goes_bind; [by eapply goes_exists_Some|]. cbn [negb].
  eapply goes_bind; [apply (goes_text _ v (Container.image c)); [done|]|].
  - intros d Hd. subst v. by apply run_inspect_image.
  - destruct (clean_line _ Hp) as (_ & -> & _). apply goes_ret.
Qed.

Lemma clean_bool (b : bool) : clean (if b then "true" else "false").
Proof. destruct b; (split; [done|split; [vm_compute; discriminate|]]); vm_compute; repeat constructor. Qed.

Lemma goes_running name v c : v.1 !! name = Some c ->
  goes (inspect_bool name "{{.State.Running}}") v (Ok (Container.running c)) v.
Proof.
  intros Hc. unfold inspect_bool. eapply goes_bind;
    [apply (goes_text _ v (if Container.running c then "true" else "false")); [apply clean_bool|]|].
  - intros d Hd. subst v. by apply run_inspect_running.
  - destruct (clean_line _ (clean_bool (Container.running c))) as (_ & -> & _).
    destruct (Container.running c); apply goes_ret.
Qed.

Lemma goes_remove name v : goes (remove_if_exists name) v (Ok ()) (delete name v.1, v.2).
Proof.
  unfold remove_if_exists. destruct (v.1 !! name) as [c|] eqn:Hc.
  - eapply goes_bind; [by eapply goes_exists_Some|]. apply goes_docker. intros d Hd. subst v. apply run_rm. by eexists.
  - eapply goes_bind; [by eapply goes_exists_None|]. rewrite delete_id by done. destruct v. apply goes_ret.
Qed.

(** ** Deployments *)

Section Deployment.
Variables (policy : ApprovalPolicy) (spec : DeploymentSpec) (approval : OperatorApproval).
Variables (names : DeploymentNames) (old : Container).
Abbreviation artifact := (DeploymentSpec.artifact spec).
Abbreviation plan := (RegistryReceipt.activation_plan_sha256 artifact).
Abbreviation image := (RegistryReceipt.immutable_image artifact).
Abbreviation active := (DeploymentNames.active names).
Abbreviation stage := (DeploymentNames.stage names).
Abbreviation previous := (DeploymentNames.rollback names).
Abbreviation failed := (DeploymentNames.failed names).
Abbreviation lease := (DeploymentNames.lease names).
Abbreviation network := (DeploymentNames.network names).

(** The container of the deployment, and those that stand for the leases. *)
Definition deployed : Container :=
  {| Container.image := image; Container.plan := plan; Container.running := true |}.
Definition lease_of (holder from : string) : Container :=
  {| Container.image := from; Container.plan := holder; Container.running := false |}.

Abbreviation health_command := (HealthProbe.command (DeploymentSpec.health spec)).

(** A deployment that is valid, approved and whose image starts. *)
Record deployable : Prop := {
  deployable_valid : forall v, goes (validate_deployment spec) v (Ok ()) v;
  deployable_approved : verify_approval policy approval plan (RegistryReceipt.binding_sha256 artifact) = Ok ();
  deployable_names : deployment_names (DeploymentSpec.service spec) plan = Ok names;
  deployable_files : Forall (fun s => is_err (canonicalize f (SecretReference.source_file s)) = false)
                            (DeploymentSpec.secrets spec);
  deployable_plan : clean plan /\ str_len plan = 64;
  deployable_image : clean image /\ String.prefix "-" image = false;
  deployable_starts : startable image = true;
  deployable_policy : validate_policy (DeploymentSpec.isolation spec) = Ok ();
  deployable_attempts : 1 <= HealthProbe.attempts (DeploymentSpec.health spec);
}.
Hypothesis (Hdeploy : deployable).

Lemma names_distinct :
  NoDup [active; stage; previous; failed; lease] /\ network = "anasemble-" +:+ DeploymentSpec.service spec +:+ "-network".
Proof.
  pose proof (deployable_names Hdeploy) as Hn. unfold deployment_names in Hn. inv_ok. injection Hn as <-.
  split; [|done]. cbn [DeploymentNames.active DeploymentNames.stage DeploymentNames.rollback DeploymentNames.failed
    DeploymentNames.lease]. clear. generalize (DeploymentSpec.service spec) as service. intros service.
  assert (forall x y, String.prefix "-" x = true -> ("anasemble-" +:+ service +:+ x) = ("anasemble-" +:+ service +:+ y) -> x = y) as Hinj.
  { intros x y _ Heq. apply app_inj_l in Heq. by apply app_inj_l in Heq. }
  repeat (apply NoDup_cons; split; [|]); [| | | | |constructor];
    rewrite ?elem_of_cons, ?elem_of_nil; intros Hin;
    repeat (destruct Hin as [Heq|Hin]; [apply Hinj in Heq; [discriminate Heq|reflexivity]|]); exact Hin.
Qed.

Lemma clean_holder verb : Forall (fun b => is_ascii_graphic b = true) (bytes_of_string verb) -> str_len verb <= 20 ->
  clean (verb +:+ plan).
Proof.
  intros Hg Hl. destruct (deployable_plan Hdeploy) as [(Hne & _ & Hp) Hlen]. split_and!.
  - intros Hn. apply (f_equal str_len) in Hn. rewrite str_len_app in Hn. pose proof (str_len_nonneg verb).
    change (str_len "") with 0 in Hn. lia.
  - rewrite str_len_app. lia.
  - rewrite string_app_bytes. by apply Forall_app.
Qed.

Lemma goes_network v : v.2 !! network <> Some false ->
  goes (ensure_internal_network network (DeploymentSpec.service spec)) v (Ok ()) (v.1, <[network := true]> v.2).
Proof.
  intros Hn. apply goes_run. intros d Hd. destruct (goes_output _ v _ _ d Hd (run_network_inspect d network)) as (o & d1 & Hr & Ho & Hd1).
  unfold ensure_internal_network. rewrite (run_bind _ _ _ _ _ Hr), Ho, Hd. rewrite Hd in Hd1.
  destruct (v.2 !! network) as [internal|] eqn:E.
  - rewrite bool_decide_eq_true_2 by by eexists. destruct internal; [|done].
    assert (goes (docker_text ["network"; "inspect"; "--format"; "{{.Internal}}"; network]) v
              (Ok (string_of_bytes (bytes_of_string "true" ++ [10]))) v) as Htext.
    { apply goes_text; [exact (clean_bool true)|]. intros d0 <-. by apply (run_network_internal d0 network true). }
    destruct (proj1 (goes_run _ _ _ _) Htext d1 Hd1) as (d2 & Hr2 & Hd2).
    exists d2. rewrite (run_bind _ _ _ _ _ Hr2). destruct (clean_line _ (clean_bool true)) as (_ & -> & _).
    split; [done|]. rewrite Hd2, insert_id by done. by destruct v.
  - rewrite bool_decide_eq_false_2 by by intros [? ?].
    revert d1 Hd1 Hr. enough (goes (docker ["network"; "create"; "--internal"; "--label"; "anasemble.service=" +:+ DeploymentSpec.service spec; network]) v (Ok ()) (v.1, <[network := true]> v.2)) as Hnew by (intros d1 Hd1 _; by apply (proj1 (goes_run _ _ _ _) Hnew)).
    apply goes_docker.
    intros d0 <-. by apply run_network_create.
Qed.

(** Acquiring a lease that is free or held for the same purpose already. *)
Lemma goes_lease v holder from :
  clean holder -> String.prefix "-" from = false -> startable from = true ->
  v.1 !! lease = None \/ v.1 !! lease = Some (lease_of holder from) ->
  exists b, goes (acquire_lease lease holder from) v (Ok b) (<[lease := lease_of holder from]> v.1, v.2).
Proof.
  intros Hc Hf Hst [Hl|Hl].
  - exists true. unfold acquire_lease. eapply goes_bind; [by eapply goes_exists_None|].
    eapply goes_bind; [|apply goes_ret]. apply goes_docker. intros d <-. by apply run_create_lease.
  - exists false. unfold acquire_lease. eapply goes_bind; [by eapply goes_exists_Some|].
    eapply goes_bind; [by eapply goes_label|]. cbn. rewrite bool_decide_eq_true_2 by done.
    rewrite insert_id by done. destruct v. apply goes_ret.
Qed.

Lemma goes_mounts v : exists sources, Forall (fun source => String.prefix "type=bind,src=" source = true) sources /\
  goes (op_for (DeploymentSpec.secrets spec) []
          (fun secret args => more ← mount_args secret; mret (args ++ more))) v
       (Ok (sources ≫= fun source => ["--mount"; source])) v.
Proof.
  enough (forall secrets args, Forall (fun s => is_err (canonicalize f (SecretReference.source_file s)) = false) secrets ->
    exists sources, Forall (fun source => String.prefix "type=bind,src=" source = true) sources /\ goes (op_for secrets args (fun secret args => more ← mount_args secret; mret (args ++ more))) v
       (Ok (args ++ (sources ≫= fun source => ["--mount"; source]))) v) as Hgen
    by apply (Hgen _ [] (deployable_files Hdeploy)).
  induction secrets as [|s secrets IH]; intros args Hall; cbn [op_for].
  - exists []. split; [constructor|]. rewrite app_nil_r. apply goes_ret.
  - apply Forall_cons in Hall as [Hs Hall]. destruct (canonicalize f (SecretReference.source_file s)) as [path|e] eqn:Hp; [|done].
    set (more := ["--mount"; "type=bind,src=" +:+ path +:+ ",dst=" +:+ SecretReference.mount_path s +:+ ",readonly"]).
    destruct (IH (args ++ more) Hall) as (sources & Hsrc & Hrest). exists (List.nth 1 more "" :: sources).
    split; [constructor; [apply prefix_of_app|exact Hsrc]|].
    eapply goes_bind; [|rewrite bind_cons, (app_assoc args); exact Hrest].
    eapply goes_bind; [|apply goes_ret]. apply goes_run. intros d Hd. exists d. split; [|done].
    unfold mount_args, reads, mbind, op_bind. cbn. by rewrite Hp.
Qed.

(** Creating the stage and starting it. *)
Lemma goes_create v : v.1 !! stage = None -> is_Some (v.2 !! network) ->
  goes (create_staged_container spec stage) v (Ok ()) (<[stage := Container.set_running false deployed]> v.1, v.2).
Proof.
  intros Hs Hn. destruct (goes_mounts v) as (sources & Hsrc & Hm). rewrite (proj2 names_distinct) in Hn.
  unfold create_staged_container. eapply goes_bind; [exact Hm|]. apply goes_docker. intros d <-.
  by apply run_create_staged; [|apply Hdeploy..| |].
Qed.

Lemma goes_start v name c : v.1 !! name = Some c -> startable (Container.image c) = true ->
  goes (docker ["start"; name]) v (Ok ()) (<[name := Container.set_running true c]> v.1, v.2).
Proof. intros Hc Hs. apply goes_docker. intros d <-. by apply run_start. Qed.

Lemma goes_start_stage v :
  goes (docker ["start"; stage]) (<[stage := Container.set_running false deployed]> v.1, v.2) (Ok ())
    (<[stage := deployed]> v.1, v.2).
Proof.
  rewrite <- (insert_insert_eq v.1 stage deployed (Container.set_running false deployed)).
  exact (goes_start (<[stage := Container.set_running false deployed]> v.1, v.2) stage
    (Container.set_running false deployed) (lookup_insert_eq _ _ _) (deployable_starts Hdeploy)).
Qed.

(** The stage that is made when there is none, if its image is healthy. *)
Lemma goes_new_stage v : v.1 !! stage = None -> is_Some (v.2 !! network) -> healthy image health_command = true ->
  goes (make_stage spec names) v (Ok ()) (<[stage := deployed]> v.1, v.2).
Proof.
  intros Hs Hn Hh. unfold make_stage. eapply goes_bind; [by eapply goes_exists_None|]. cbn iota.
  eapply goes_bind; [by apply goes_create|]. eapply goes_bind; [apply goes_start_stage|]. apply goes_on_error_Ok.
  unfold wait_healthy. pose proof (deployable_attempts Hdeploy) as Ha.
  destruct (Z.to_nat (HealthProbe.attempts (DeploymentSpec.health spec))) as [|n] eqn:En; [lia|].
  cbn [wait_attempts]. apply goes_on_error_Ok, goes_docker. intros d Hd. rewrite <- Hd.
  apply run_exec with deployed; [|done|done]. rewrite Hd. apply lookup_insert_eq.
Qed.

(** A stage that is found there is not looked at. *)
Lemma goes_old_stage v c : v.1 !! stage = Some c -> goes (make_stage spec names) v (Ok ()) v.
Proof. intros Hs. unfold make_stage. eapply goes_bind; [by eapply goes_exists_Some|]. apply goes_ret. Qed.

Lemma goes_stop v name b c : v.1 !! name = Some (Container.set_running b c) ->
  goes (stop_if_running name) v (Ok ()) (<[name := Container.set_running false c]> v.1, v.2).
Proof.
  intros Hc. unfold stop_if_running. eapply goes_bind; [by eapply goes_running|]. destruct b; cbn [Container.running].
  - apply goes_docker. intros d <-. apply (run_stop d name _ Hc).
  - rewrite insert_id by done. destruct v. apply goes_ret.
Qed.

Lemma goes_rename v from to c : v.1 !! from = Some c -> v.1 !! to = None ->
  goes (docker ["rename"; from; to]) v (Ok ()) (<[to := c]> (delete from v.1), v.2).
Proof. intros Hf Ht. apply goes_docker. intros d <-. by apply run_rename. Qed.

(** ** Switching *)

Abbreviation own_lease := (lease_of ("activate:" +:+ plan) image).
Abbreviation others base v := (forall k, k ∉ [active; stage; previous; lease] -> v.1 !! k = base !! k).

(** An activation is under way: the deployment that was active is, or is kept for the
    rollback, and nothing but the containers of the service has changed. *)
Record midway (base : gmap string Container) v : Prop := {
  midway_lease : v.1 !! lease = None \/ v.1 !! lease = Some own_lease;
  midway_network : v.2 !! network <> Some false;
  midway_old :
    (exists b, v.1 !! active = Some (Container.set_running b old) /\ v.1 !! previous = None /\
       (v.1 !! stage = None \/ exists b', v.1 !! stage = Some (Container.set_running b' deployed))) \/
    (v.1 !! active = None /\ v.1 !! previous = Some (Container.set_running false old) /\
     exists b', v.1 !! stage = Some (Container.set_running b' deployed));
  midway_others : others base v;
}.

(** It is done. *)
Record switched (base : gmap string Container) v : Prop := {
  switched_active : v.1 !! active = Some deployed;
  switched_previous : v.1 !! previous = Some (Container.set_running false old);
  switched_stage : v.1 !! stage = None;
  switched_lease : v.1 !! lease = None;
  switched_network : v.2 !! network <> Some false;
  switched_others : others base v;
}.

(** Looking up, knowing that the names differ. *)
Lemma names_ne :
  active <> stage /\ active <> previous /\ active <> failed /\ active <> lease /\ stage <> previous /\
  stage <> failed /\ stage <> lease /\ previous <> failed /\ previous <> lease /\ failed <> lease.
Proof.
  destruct names_distinct as [Hnd _]. rewrite !NoDup_cons in Hnd.
  rewrite !elem_of_cons in Hnd. split_and!; intros Heq; destruct Hnd as (Hn1 & Hn2 & Hn3 & Hn4 & _); naive_solver.
Qed.
Ltac names_tac :=
  pose proof names_ne as (? & ? & ? & ? & ? & ? & ? & ? & ? & ?); cbn [fst snd];
  repeat first [rewrite lookup_insert_eq | rewrite lookup_delete_eq
               |rewrite lookup_insert_ne by congruence | rewrite lookup_delete_ne by congruence]; try done.
Ltac others_tac He :=
  intros k Hk; rewrite !elem_of_cons in Hk; cbn [fst snd];
  repeat first [rewrite lookup_insert_ne by naive_solver | rewrite lookup_delete_ne by naive_solver];
  apply He; rewrite !elem_of_cons; naive_solver.

(** From the renamed stage to the end. *)
Definition finish (had_active : bool) : act ActivationReceipt :=
  found ← container_exists active;
  if found : bool then fail (invalid "activation target unexpectedly exists") else
  _ ← docker ["rename"; stage; active];
  running ← inspect_bool active "{{.State.Running}}";
  _ ← (if negb running then docker ["start"; active] else mret ());
  _ ← remove_if_exists lease;
  rollback_available ← (if had_active : bool then mret true else container_exists previous);
  mret (receipt spec approval rollback_available false).

Lemma goes_finish base v b had_active :
  v.1 !! active = None -> v.1 !! previous = Some (Container.set_running false old) ->
  v.1 !! stage = Some (Container.set_running b deployed) -> v.2 !! network <> Some false -> others base v ->
  exists w, goes (finish had_active) v (Ok (receipt spec approval true false)) w /\ switched base w.
Proof.
  intros Ha Hp Hs Hn He. set (w := (delete lease (<[active := deployed]> (delete stage v.1)), v.2) : view_t).
  exists w. split.
  - unfold finish. eapply goes_bind; [by eapply goes_exists_None|]. cbn iota.
    eapply goes_bind; [by eapply goes_rename|]. eapply goes_bind; [eapply goes_running, lookup_insert_eq|].
    apply goes_bind with () (<[active := deployed]> (delete stage v.1), v.2).
    + destruct b; cbn [Container.running Container.set_running negb]; [apply goes_ret|].
      rewrite <- (insert_insert_eq (delete stage v.1) active deployed (Container.set_running false deployed)).
      exact (goes_start (<[active := Container.set_running false deployed]> (delete stage v.1), v.2) active
        (Container.set_running false deployed) (lookup_insert_eq _ _ _) (deployable_starts Hdeploy)).
    + eapply goes_bind; [apply goes_remove|]. fold w. destruct had_active.
      * eapply goes_bind; [apply goes_ret|]. apply goes_ret.
      * eapply goes_bind; [eapply goes_exists_Some|apply goes_ret]. unfold w. names_tac.
  - split; unfold w; [names_tac..|done|]. others_tac He.
Qed.

Lemma switch_eq failure : switch spec approval names failure =
  (had_active ← container_exists active;
   _ ← (if had_active : bool then
          _ ← stop_if_running active;
          if bool_decide (failure = AfterActiveStopped)
          then fail (interrupted "after active container stopped") else
          found ← container_exists previous;
          if negb found then docker ["rename"; active; previous] else mret ()
        else mret ());
   if bool_decide (failure = AfterActiveRenamed)
   then fail (interrupted "after active container renamed for rollback") else finish had_active).
Proof. done. Qed.

Lemma goes_switch base v b failure :
  midway base v -> v.1 !! stage = Some (Container.set_running b deployed) ->
  exists r w, goes (switch spec approval names failure) v r w /\
    match r with
    | Ok receipt => receipt = Containers.receipt spec approval true false /\ switched base w
    | Err _ => failure <> NoFailure /\ midway base w
    end.
Proof.
  intros [Hl Hn Hold He] Hs. rewrite switch_eq. destruct Hold as [(b' & Ha & Hp & _)|(Ha & Hp & _)].
  - set (v1 := (<[active := Container.set_running false old]> v.1, v.2) : view_t).
    assert (others base v1) as He1 by (unfold v1; others_tac He).
    destruct (decide (failure = AfterActiveStopped)) as [->|Hstop].
    { exists (Err (interrupted "after active container stopped")), v1. split.
      - eapply goes_bind; [by eapply goes_exists_Some|]. unfold mbind at 1. eapply goes_bind_Err.
        eapply goes_bind; [by eapply goes_stop|]. apply goes_fail.
      - split; [done|]. split; [by unfold v1; names_tac|done| |done]. left. exists false. unfold v1.
        split_and!; [by names_tac..|]. right. exists b. by names_tac. }
    set (v2 := (<[previous := Container.set_running false old]> (delete active v1.1), v1.2) : view_t).
    assert (others base v2) as He2 by (unfold v2; others_tac He1).
    destruct (decide (failure = AfterActiveRenamed)) as [->|Hren].
    { exists (Err (interrupted "after active container renamed for rollback")), v2. split.
      - eapply goes_bind; [by eapply goes_exists_Some|].
        eapply goes_bind; [|apply goes_fail]. eapply goes_bind; [by eapply goes_stop|]. cbn iota.
        eapply goes_bind; [eapply goes_exists_None; unfold v1; by names_tac|].
        apply goes_rename; unfold v1; by names_tac.
      - split; [done|]. split; [unfold v2, v1; by names_tac|done| |done]. right. unfold v2, v1.
        split_and!; [by names_tac..|]. exists b. by names_tac. }
    destruct (goes_finish base v2 b true) as (w & Hw & Hsw);
      [unfold v2, v1; by names_tac..|done|done|].
    exists (Ok (receipt spec approval true false)), w. split; [|done].
    eapply goes_bind; [by eapply goes_exists_Some|]. rewrite (bool_decide_eq_false_2 _ Hren).
    eapply goes_bind; [|exact Hw]. eapply goes_bind; [by eapply goes_stop|]. rewrite (bool_decide_eq_false_2 _ Hstop).
    eapply goes_bind; [eapply goes_exists_None; unfold v1; by names_tac|].
    apply goes_rename; unfold v1; by names_tac.
  - destruct (decide (failure = AfterActiveRenamed)) as [->|Hren].
    { exists (Err (interrupted "after active container renamed for rollback")), v. split.
      - eapply goes_bind; [by eapply goes_exists_None|]. eapply goes_bind; [apply goes_ret|]. apply goes_fail.
      - split; [done|]. split; [done..| |done]. right. split_and!; [done..|by exists b]. }
    destruct (goes_finish base v b false) as (w & Hw & Hsw); [done..|].
    exists (Ok (receipt spec approval true false)), w. split; [|done].
    eapply goes_bind; [by eapply goes_exists_None|]. eapply goes_bind; [apply goes_ret|].
    by rewrite (bool_decide_eq_false_2 _ Hren).
Qed.

Hypothesis (Hold : clean (Container.plan old)) (Hother : Container.plan old <> plan).

(** The checks, the network and the lease with which every attempt begins. *)
Lemma goes_opening v r w failure (v1 := (<[lease := own_lease]> v.1, <[network := true]> v.2) : view_t) :
  v.1 !! lease = None \/ v.1 !! lease = Some own_lease -> v.2 !! network <> Some false ->
  (forall lease_created, goes
    (active_plan ← container_label active "anasemble.plan";
     if bool_decide (active_plan = Some plan) then
       _ ← remove_if_exists stage;
       _ ← remove_if_exists lease;
       rollback_available ← container_exists previous;
       mret (receipt spec approval rollback_available true)
     else
     stale ← (found ← container_exists previous;
              if negb found then mret false else
              staged ← container_exists stage; mret (negb staged));
     if stale : bool then
       _ ← (if lease_created : bool then remove_if_exists lease else mret ());
       fail (invalid "stale rollback container requires commit or rollback")
     else
     _ ← make_stage spec names;
     if bool_decide (failure = AfterStageHealthy) then fail (interrupted "after staged health passed") else
     switch spec approval names failure) v1 r w) ->
  goes (activate_with_failure policy spec approval failure) v r w.
Proof.
  intros Hl Hn Hrest. unfold activate_with_failure.
  eapply goes_bind; [apply (deployable_valid Hdeploy)|].
  rewrite (deployable_approved Hdeploy). eapply goes_bind; [apply goes_lift|].
  rewrite (deployable_names Hdeploy). eapply goes_bind; [apply goes_lift|].
  eapply goes_bind; [by apply goes_network|].
  destruct (goes_lease (v.1, <[network := true]> v.2) ("activate:" +:+ plan) image) as [created Hc];
    [apply clean_holder; [vm_compute; by repeat constructor|vm_compute; discriminate]
    |exact (proj2 (deployable_image Hdeploy))|apply Hdeploy|exact Hl|].
  eapply goes_bind; [exact Hc|]. apply Hrest.
Qed.

(** The view after the opening is as far as the one before it. *)
Lemma midway_opening base v :
  midway base v -> midway base (<[lease := own_lease]> v.1, <[network := true]> v.2).
Proof.
  intros [Hl Hn Hp He]. split; [right; by names_tac|cbn; by rewrite lookup_insert_eq| |others_tac He].
  destruct Hp as [(b & Ha & Hb & Hs)|(Ha & Hb & Hs)]; [left; exists b|right]; split_and!; by names_tac.
Qed.

(** What the opening found does not end the attempt when it is midway. *)
Lemma goes_middle base v1 v2 r w lease_created (rest : act ActivationReceipt) :
  midway base v1 -> goes (make_stage spec names) v1 (Ok ()) v2 -> goes rest v2 r w ->
  goes (active_plan ← container_label active "anasemble.plan";
     if bool_decide (active_plan = Some plan) then
       _ ← remove_if_exists stage;
       _ ← remove_if_exists lease;
       rollback_available ← container_exists previous;
       mret (receipt spec approval rollback_available true)
     else
     stale ← (found ← container_exists previous;
              if negb found then mret false else
              staged ← container_exists stage; mret (negb staged));
     if stale : bool then
       _ ← (if lease_created : bool then remove_if_exists lease else mret ());
       fail (invalid "stale rollback container requires commit or rollback")
     else
     _ ← make_stage spec names; rest) v1 r w.
Proof.
  intros [_ _ Hp _] Hstage Hrest. destruct Hp as [(b & Ha & Hb & _)|(Ha & Hb & b & Hs)].
  - eapply goes_bind; [by eapply goes_label|]. rewrite bool_decide_eq_false_2 by by intros [= ?].
    eapply goes_bind; [eapply goes_bind; [by eapply goes_exists_None|apply goes_ret]|]. cbn iota.
    by eapply goes_bind.
  - eapply goes_bind; [by eapply goes_label_None|]. rewrite bool_decide_eq_false_2 by done.
    eapply goes_bind; [eapply goes_bind; [by eapply goes_exists_Some|]; eapply goes_bind; [by eapply goes_exists_Some|apply goes_ret]|].
    cbn iota. by eapply goes_bind.
Qed.

(** One attempt, interrupted or not. *)
Lemma activation_attempt base v failure :
  midway base v -> (v.1 !! stage = None -> healthy image health_command = true) ->
  exists r w, goes (activate_with_failure policy spec approval failure) v r w /\
    match r with
    | Ok receipt => receipt = Containers.receipt spec approval true false /\ switched base w
    | Err _ => failure <> NoFailure /\ midway base w
    end.
Proof.
  intros Hm Hhealthy. pose proof (midway_opening base v Hm) as Hm1.
  set (v1 := (<[lease := own_lease]> v.1, <[network := true]> v.2) : view_t) in *.
  (* the stage, made or found *)
  assert (exists b, let v2 := (<[stage := Container.set_running b deployed]> v1.1, v1.2) : view_t in
    goes (make_stage spec names) v1 (Ok ()) v2 /\ midway base v2) as (b & Hstage & Hm2).
  { assert (v1.1 !! stage = v.1 !! stage) as Hsame by (unfold v1; by names_tac).
    destruct Hm1 as [Hl Hn Hp He].
    assert (forall b, midway base (<[stage := Container.set_running b deployed]> v1.1, v1.2)) as Hmid.
    { intros b. split; [cbn [fst snd]; names_tac|done| |others_tac He].
      destruct Hp as [(b' & Ha & Hb & _)|(Ha & Hb & _)]; [left; exists b'|right]; split_and!; try by names_tac.
      - right. exists b. by names_tac.
      - exists b. by names_tac. }
    destruct (v.1 !! stage) as [c|] eqn:Hs.
    - assert (exists b, c = Container.set_running b deployed) as [b ->].
      { rewrite Hsame in Hp. destruct Hp as [(_ & _ & _ & [Hx|[b Hx]])|(_ & _ & b & Hx)]; [done|exists b; congruence..]. }
      exists b. split; [|apply Hmid]. rewrite insert_id by done. destruct v1 as [v11 v12] eqn:Ev1.
      eapply goes_old_stage. exact Hsame.
    - exists true. split; [|apply Hmid]. apply goes_new_stage; [done| |by apply Hhealthy]. eexists. apply lookup_insert_eq. }
  set (v2 := (<[stage := Container.set_running b deployed]> v1.1, v1.2) : view_t) in *.
  assert (v2.1 !! stage = Some (Container.set_running b deployed)) as Hs2 by apply lookup_insert_eq.
  destruct (decide (failure = AfterStageHealthy)) as [->|Hafter].
  - exists (Err (interrupted "after staged health passed")), v2. split; [|done].
    apply goes_opening; [apply Hm|apply Hm|]. intros created. fold v1.
    apply (goes_middle base v1 v2); [done..|]. rewrite bool_decide_eq_true_2 by done. apply goes_fail.
  - destruct (goes_switch base v2 b failure Hm2 Hs2) as (r & w & Hw & Hres). exists r, w. split; [|done].
    apply goes_opening; [apply Hm|apply Hm|]. intros created. fold v1.
    apply (goes_middle base v1 v2); [done..|]. by rewrite bool_decide_eq_false_2.
Qed.

(** An attempt after the activation is done changes nothing. *)
Lemma activation_repeated base v failure :
  switched base v -> exists w,
    goes (activate_with_failure policy spec approval failure) v (Ok (receipt spec approval true true)) w /\ switched base w.
Proof.
  intros [Ha Hp Hs Hl Hn He]. set (v1 := (<[lease := own_lease]> v.1, <[network := true]> v.2) : view_t).
  set (w := (delete lease (delete stage v1.1), v1.2) : view_t). exists w. split.
  - apply goes_opening; [by left|done|]. intros created. fold v1.
    eapply goes_bind; [eapply goes_label; [unfold v1; by names_tac|exact (proj1 (deployable_plan Hdeploy))]|].
    rewrite bool_decide_eq_true_2 by done. eapply goes_bind; [apply goes_remove|].
    eapply goes_bind; [apply goes_remove|].
    eapply goes_bind; [eapply goes_exists_Some; unfold v1; by names_tac|]. apply goes_ret.
  - split; unfold w, v1; [by names_tac..| |others_tac He]. cbn. by rewrite lookup_insert_eq.
Qed.

(** Interrupted attempts, one after the other. *)
Definition attempts (failures : list ActivationFailurePoint) : act () :=
  op_for failures () (fun failure _ =>
    _ ← Stateful.outcome (activate_with_failure policy spec approval failure); mret ()).

Lemma attempts_midway base failures : forall v,
  healthy image health_command = true -> midway base v \/ switched base v ->
  exists w, goes (attempts failures) v (Ok ()) w /\ (midway base w \/ switched base w).
Proof.
  induction failures as [|failure failures IH]; intros v Hh Hv; [exists v; split; [apply goes_ret|done]|].
  assert (exists r w, goes (activate_with_failure policy spec approval failure) v r w /\
            (midway base w \/ switched base w)) as (r & w & Hw & Hnext).
  { destruct Hv as [Hm|Hs].
    - destruct (activation_attempt base v failure Hm (fun _ => Hh)) as (r & w & Hw & Hres). exists r, w.
      split; [done|]. destruct r; destruct Hres; [by right|by left].
    - destruct (activation_repeated base v failure Hs) as (w & Hw & Hsw). eexists _, w. split; [exact Hw|by right]. }
  destruct (IH w Hh Hnext) as (w' & Hw' & Hfin). exists w'. split; [|done].
  unfold attempts. cbn [op_for]. eapply goes_bind; [|exact Hw'].
  eapply goes_bind; [by apply goes_outcome|]. apply goes_ret.
Qed.

(** C19: activating a deployment over an active one can be interrupted at every point it
    declares, any number of times: each time the deployment that was active still exists,
    active or kept for the rollback, no other container has changed, and activating again
    completes, with the new deployment active and running, the old one kept stopped for
    the rollback, and neither stage nor lease left. *)
Theorem docker_activation_resumable base v failures :
  healthy image health_command = true -> midway base v \/ switched base v ->
  exists w, goes (attempts failures) v (Ok ()) w /\ (midway base w \/ switched base w) /\
    exists idempotent x,
      goes (activate policy spec approval) w (Ok (receipt spec approval true idempotent)) x /\ switched base x.
Proof.
  intros Hh Hv. destruct (attempts_midway base failures v Hh Hv) as (w & Hw & Hnext). exists w. split_and!; [done..|].
  unfold activate. destruct Hnext as [Hm|Hs].
  - destruct (activation_attempt base w NoFailure Hm (fun _ => Hh)) as (r & x & Hx & Hres). exists false, x.
    destruct r as [r|e]; [|by destruct Hres]. by destruct Hres as [-> Hsw].
  - destruct (activation_repeated base w NoFailure Hs) as (x & Hx & Hsw). by exists true, x.
Qed.

(** ** The health gate *)

(** Every attempt of the probe fails. *)
Lemma goes_unhealthy probe v c : v.1 !! stage = Some c ->
  healthy (Container.image c) (HealthProbe.command probe) = false ->
  goes (wait_healthy stage probe) v (Err (invalid "staged deployment failed its bounded health gate")) v.
Proof.
  intros Hc Hu. unfold wait_healthy. induction (Z.to_nat (HealthProbe.attempts probe)) as [|n IH]; cbn [wait_attempts].
  - apply goes_fail.
  - apply goes_run. intros d Hd. destruct (goes_docker_fails (["exec"; stage] ++ HealthProbe.command probe) v) with (d := d)
      as (e & d1 & Hr & Hd1); [|done|].
    { intros d0 <-. by apply (run_exec_fails d0 stage c). }
    unfold on_error. rewrite Hr.
    assert (goes (_ ← (if bool_decide (n = 0%nat) then mret () else sleep (HealthProbe.interval_ms probe));
              wait_attempts n stage probe) v (Err (invalid "staged deployment failed its bounded health gate")) v) as Hrest.
    { eapply goes_bind; [|exact IH]. destruct (bool_decide _); [apply goes_ret|].
      apply goes_run. intros d0 Hd0. eexists. split; [done|]. by rewrite view_sleep. }
    by apply (proj1 (goes_run _ _ _ _) Hrest).
Qed.

(** The health gate of a Docker activation stands between making the stage and going
    live, not between finding one and going live. An image whose probe fails is refused,
    with its stage and lease removed and the active deployment as it was; but when an
    attempt was killed before its gate had decided, the next attempt finds the stage that
    one left, does not probe it, and makes the unhealthy deployment active. *)
Theorem docker_gate_only_when_staging base v :
  healthy image health_command = false -> midway base v ->
  (v.1 !! stage = None -> goes (activate policy spec approval) v
     (Err (invalid "staged deployment failed its bounded health gate"))
     (delete lease (delete stage v.1), <[network := true]> v.2)) /\
  (v.1 !! stage <> None -> exists w,
     goes (activate policy spec approval) v (Ok (receipt spec approval true false)) w /\ switched base w).
Proof.
  intros Hu Hm. split.
  - intros Hs. pose proof (midway_opening base v Hm) as Hm1. apply goes_opening; [apply Hm|apply Hm|]. intros created.
    set (v1 := (<[lease := own_lease]> v.1, <[network := true]> v.2) : view_t) in *.
    assert (v1.1 !! stage = None) as Hs1 by (unfold v1; by names_tac).
    destruct Hm1 as [_ _ [(b & Ha & Hp & _)|(_ & _ & b & Hb)] _]; [|congruence].
    eapply goes_bind; [by eapply goes_label|]. rewrite bool_decide_eq_false_2 by by intros [= ?].
    eapply goes_bind; [eapply goes_bind; [by eapply goes_exists_None|apply goes_ret]|]. cbn iota.
    apply goes_bind_Err. unfold make_stage. eapply goes_bind; [by eapply goes_exists_None|]. cbn iota.
    eapply goes_bind; [apply goes_create; [done|eexists; apply lookup_insert_eq]|].
    eapply goes_bind; [apply goes_start_stage|].
    eapply goes_on_error; [eapply goes_unhealthy; [apply lookup_insert_eq|exact Hu]|].
    eapply goes_bind; [apply goes_remove|]. eapply goes_bind; [apply goes_remove|]. cbn [fst snd].
    replace (delete lease (delete stage v.1)) with (delete lease (delete stage (<[stage := deployed]> v1.1)));
      [apply goes_fail|].
    unfold v1. apply map_eq. intros k. destruct (decide (k = lease)); [subst k; by names_tac|].
    destruct (decide (k = stage)); [subst k; by names_tac|]. by names_tac.
  - intros Hs. destruct (activation_attempt base v NoFailure Hm) as (r & w & Hw & Hres); [done|]. exists w.
    destruct r as [r|e]; destruct Hres as [Hr Hsw]; [|done]. by subst r.
Qed.

(** ** Rollback *)

(** The plan only names the stage. *)
Lemma names_of_plan other : validate_digest other = Ok () ->
  exists names', deployment_names (DeploymentSpec.service spec) other = Ok names' /\
    DeploymentNames.active names' = active /\ DeploymentNames.rollback names' = previous /\
    DeploymentNames.failed names' = failed /\ DeploymentNames.lease names' = lease.
Proof.
  intros Ho. pose proof (deployable_names Hdeploy) as Hn. unfold deployment_names in *.
  destruct (validate_label _); [|done]. destruct (validate_digest plan); [|done]. cbn in Hn. injection Hn as Hn.
  rewrite Ho. cbn. eexists. split; [done|]. by rewrite <- Hn.
Qed.

(** C23: rolling back a deployment that was activated over another puts the old container
    back, running under the active name, keeps the rejected one stopped, releases the
    lease and leaves every other container alone. *)
Theorem docker_rollback_restores base v :
  switched base v -> startable (Container.image old) = true ->
  exists w, goes (rollback (DeploymentSpec.service spec) plan) v (Ok ()) w /\
    w.1 !! active = Some (Container.set_running true old) /\
    w.1 !! failed = Some (Container.set_running false deployed) /\
    w.1 !! previous = None /\ w.1 !! stage = None /\ w.1 !! lease = None /\
    (forall k, k ∉ [active; stage; previous; lease; failed] -> w.1 !! k = base !! k).
Proof.
  intros [Ha Hp Hs Hl Hn He] Hstart. pose proof (deployable_image Hdeploy) as [Hi Hdash].
  set (held := <[lease := lease_of ("rollback:" +:+ plan) image]> v.1).
  set (kept := <[failed := Container.set_running false deployed]>
                 (delete active (delete failed (<[active := Container.set_running false deployed]> held)))).
  exists (delete lease (<[active := Container.set_running true old]>
    (<[active := Container.set_running false old]> (delete previous kept))), v.2). split.
  - unfold rollback. rewrite (deployable_names Hdeploy). eapply goes_bind; [apply goes_lift|].
    eapply goes_bind; [by eapply goes_exists_Some|]. cbn [negb].
    eapply goes_bind; [by eapply goes_image|]. eapply goes_bind; [apply goes_lift|].
    destruct (goes_lease v ("rollback:" +:+ plan) image) as [created Hc];
      [apply clean_holder; [vm_compute; by repeat constructor|vm_compute; discriminate]|done|apply Hdeploy|by left|].
    eapply goes_bind; [exact Hc|]. fold held.
    eapply goes_bind; [eapply goes_exists_Some; unfold held; by names_tac|]. cbn iota.
    eapply goes_bind.
    { eapply goes_bind; [apply (goes_stop _ active true deployed); unfold held; by names_tac|].
      eapply goes_bind; [apply goes_remove|]. apply goes_rename; unfold held; by names_tac. }
    eapply goes_bind; [apply (goes_rename _ previous active (Container.set_running false old)); unfold held; by names_tac|].
    eapply goes_bind; [apply (goes_start _ active (Container.set_running false old)); [apply lookup_insert_eq|done]|].
    exact (goes_remove lease (<[active := Container.set_running true old]>
      (<[active := Container.set_running false old]> (delete previous kept)), v.2)).
  - unfold kept, held. split_and!; [by names_tac..|]. others_tac He.
Qed.

(** A Docker rollback that is killed between its two renames cannot be repaired by the
    orchestrator. Until someone renames a container by hand no deployment is active, and
    every further rollback and commit of the service, and the activation of every
    deployment, is refused and changes no container. *)
Theorem docker_rollback_strands v owner other :
  v.1 !! active = None -> v.1 !! previous = Some old ->
  v.1 !! lease = Some (lease_of ("rollback:" +:+ owner) (Container.image deployed)) -> clean ("rollback:" +:+ owner) ->
  v.2 !! network <> Some false -> validate_digest other = Ok () ->
  goes (rollback (DeploymentSpec.service spec) other) v (Err (invalid "active deployment image is unavailable")) v /\
  goes (commit (DeploymentSpec.service spec) other) v (Err (invalid "cannot commit a different active deployment")) v /\
  goes (activate policy spec approval) v (Err (invalid "another activation lease owns the service"))
    (v.1, <[network := true]> v.2).
Proof.
  intros Ha Hp Hl Hc Hn Ho. destruct (names_of_plan other Ho) as (names' & Hn' & Hna & Hnp & Hnf & Hnl). split_and!.
  - unfold rollback. rewrite Hn'. eapply goes_bind; [apply goes_lift|]. rewrite Hna, Hnp.
    eapply goes_bind; [by eapply goes_exists_Some|]. cbn [negb].
    eapply goes_bind; [eapply goes_bind; [by eapply goes_exists_None|apply goes_ret]|].
    eapply goes_bind_Err, goes_lift.
  - unfold commit. rewrite Hn'. eapply goes_bind; [apply goes_lift|]. rewrite Hna.
    eapply goes_bind; [by eapply goes_label_None|]. rewrite bool_decide_eq_false_2 by done. apply goes_fail.
  - unfold activate, activate_with_failure. eapply goes_bind; [apply (deployable_valid Hdeploy)|].
    rewrite (deployable_approved Hdeploy). eapply goes_bind; [apply goes_lift|].
    rewrite (deployable_names Hdeploy). eapply goes_bind; [apply goes_lift|].
    eapply goes_bind; [by apply goes_network|]. eapply goes_bind_Err. unfold acquire_lease.
    eapply goes_bind; [by eapply goes_exists_Some|]. cbn iota.
    eapply goes_bind; [by eapply goes_label|]. cbn [Container.plan lease_of].
    rewrite bool_decide_eq_false_2 by (intros [= Heq]). apply goes_fail.
Qed.
End Deployment.
End Runs.

(** * A daemon *)

Module ToyDocker.
(** It keeps what can be seen of it and nothing else; a container runs every command
    but ["false"]. *)
Definition Daemon := view_t.

Fixpoint drop_chars (n : nat) (s : string) : string :=
  match n, s with S n, String.String _ s => drop_chars n s | _, _ => s end.

(** The image that stands after the options of a creation. *)
Fixpoint image_after (args : list string) : string :=
  match args with
  | [] => ""
  | a :: rest =>
      if negb (String.prefix "-" a) then a else
      if bool_decide (a = "--read-only") then image_after rest else
      match rest with [] => "" | _ :: rest => image_after rest end
  end.

Definition done_with (v : view_t) : result string Output * view_t :=
  (Ok {| Output.success := true; Output.stdout := []; Output.stderr := [] |}, v).
Definition refused (v : view_t) : result string Output * view_t :=
  (Ok {| Output.success := false; Output.stdout := []; Output.stderr := [] |}, v).
Definition answer (found : bool) (v : view_t) := if found then done_with v else refused v.

(** What the daemon does with the words after the command's name. *)
Definition with_container (name : string) (v : view_t) (k : Container -> result string Output * view_t) :=
  match v.1 !! name with Some c => k c | None => refused v end.
Definition inspect (template name : string) (v : view_t) :=
  with_container name v (fun c =>
    (Ok (line (if bool_decide (template = label_template "anasemble.plan") then Container.plan c else
               if bool_decide (template = "{{.Config.Image}}") then Container.image c else
               if Container.running c then "true" else "false")), v)).
Definition create (name label : string) (args : list string) (v : view_t) :=
  match v.1 !! name with
  | Some _ => refused v
  | None => done_with (<[name := {| Container.image := image_after args; Container.plan := drop_chars 15 label;
                                    Container.running := false |}]> v.1, v.2)
  end.
Definition set_state (b : bool) (name : string) (v : view_t) :=
  with_container name v (fun c => done_with (<[name := Container.set_running b c]> v.1, v.2)).
Definition network (args : list string) (v : view_t) :=
  match args with
  | [_; name] => answer (bool_decide (is_Some (v.2 !! name))) v
  | [_; _; _; name] =>
      match v.2 !! name with
      | Some internal => (Ok (line (if internal : bool then "true" else "false")), v)
      | None => refused v
      end
  | [_; _; _; _; name] => done_with (v.1, <[name := true]> v.2)
  | _ => refused v
  end.
Definition rename (from to : string) (v : view_t) :=
  with_container from v (fun c =>
    match v.1 !! to with Some _ => refused v | None => done_with (<[to := c]> (delete from v.1), v.2) end).
Definition exec (name : string) (command : list string) (v : view_t) :=
  with_container name v (fun c => answer (Container.running c && negb (bool_decide (command = ["false"]))) v).

Definition command (args : list string) (v : view_t) : result string Output * view_t :=
  match args with
  | verb :: rest =>
      if bool_decide (verb = "network") then network rest v else
      if bool_decide (verb = "exec") then match rest with name :: c => exec name c v | _ => refused v end else
      match rest with
      | [name] => set_state true name v
      | [a; name] =>
          if bool_decide (verb = "rename") then rename a name v else
          if bool_decide (verb = "rm") then done_with (delete name v.1, v.2) else
          answer (bool_decide (is_Some (v.1 !! name))) v
      | [a; b; name] => if bool_decide (verb = "inspect") then inspect b name v else set_state false name v
      | _ :: name :: _ :: label :: args => create name label args v
      | _ => refused v
      end
  | _ => refused v
  end.

#[export] Instance docker_calls : Docker Daemon := {|
  docker_command := command; instant_now := fun _ => 0; thread_sleep := fun _ v => v |}.
#[export] Instance docker_view : DockerView Daemon := {|
  view := fun v => v; startable := fun _ => true; healthy := fun _ command => negb (bool_decide (command = ["false"])) |}.

Lemma succeeded_ok : succeeded {| Output.success := true; Output.stdout := []; Output.stderr := [] |}.
Proof. by split; vm_compute. Qed.

Lemma image_after_pairs option args rest :
  String.prefix "-" option = true -> option <> "--read-only" ->
  image_after ((args ≫= fun value => [option; value]) ++ rest) = image_after rest.
Proof.
  intros Hp Hn. induction args as [|a args IH]; [done|]. rewrite bind_cons. cbn [app image_after]. rewrite Hp.
  cbn [negb]. by rewrite bool_decide_eq_false_2.
Qed.

Lemma image_after_staged policy sources image args : String.prefix "-" image = false ->
  image_after (["--network"; "none"] ++ limit_args policy ++ ["--log-driver"; "none"] ++ capability_args policy ++
               (sources ≫= fun source => ["--mount"; source]) ++ [image] ++ args) = image.
Proof.
  intros Hi.
  transitivity (image_after (capability_args policy ++ (sources ≫= fun source => ["--mount"; source]) ++ [image] ++ args)).
  - unfold limit_args. by cbn [app image_after].
  - unfold capability_args. rewrite image_after_pairs by done. rewrite image_after_pairs by done. cbn [app image_after].
    by rewrite Hi.
Qed.

Ltac verbs := repeat first [rewrite bool_decide_eq_true_2 by done | rewrite bool_decide_eq_false_2 by done].
Ltac responds := eexists _, _; split; [reflexivity|split; [first [exact succeeded_ok|done]|done]].

#[export] Instance docker_laws : DockerLaws Daemon.
Proof.
  split; intros; unfold gives; cbn -[image_after staged_args lease_args String.prefix drop_chars] in *; verbs.
  - unfold answer. destruct (bool_decide (is_Some (d.1 !! name))); responds.
  - unfold inspect, with_container. rewrite H. verbs. responds.
  - unfold inspect, with_container. rewrite H. verbs. responds.
  - unfold inspect, with_container. rewrite H. verbs. responds.
  - unfold set_state, with_container. rewrite H. responds.
  - unfold set_state, with_container. rewrite H. responds.
  - unfold rename, with_container. rewrite H, H0. responds.
  - responds.
  - unfold exec, with_container. rewrite H, H0, H1. responds.
  - unfold exec, with_container. rewrite H, H0, andb_false_r. by eexists _, _.
  - done.
  - unfold lease_args. cbn -[image_after String.prefix]. verbs. unfold create. rewrite H.
    replace (image_after _) with image; [responds|]. cbn -[String.prefix]. change (String.prefix "-" "--network") with true.
    cbn -[String.prefix]. by rewrite H0.
  - unfold staged_args. cbn -[image_after String.prefix]. verbs. unfold create. rewrite H.
    replace (image_after _) with (RegistryReceipt.immutable_image (DeploymentSpec.artifact spec)); [responds|].
    symmetry. exact (image_after_staged (DeploymentSpec.isolation spec) sources _ (DeploymentSpec.command spec) H0).
  - unfold answer. destruct (bool_decide (is_Some (d.2 !! name))); responds.
  - rewrite H. responds.
  - responds.
Qed.
End ToyDocker.

(** * Witnesses *)

Module ActivationWitness.
#[local] Existing Instances Toy.sha Toy.hexi Toy.ed Toy.jiff ToyJson.text.
#[local] Existing Instances ToyDocker.docker_calls ToyDocker.docker_view ToyDocker.docker_laws.
#[local] Instance error_text : SerdeErrorText := "json".
#[local] Instance os_errors : OsErrorText := {| not_found := "not found"; already_exists := "exists" |}.
#[local] Instance texts : ActivationErrorText :=
  {| int_error := "int"; time_error := "time"; key_error := "key"; hex_error := "hex" |}.
#[local] Instance resolve : Canonicalize := fun _ path => Ok path.
#[local] Instance serialise_approval : ToValue ApprovalPayload := fun p => Some (String (ApprovalPayload.plan_sha256 p)).
#[local] Instance serialise_artifact : ToValue RegistryReceipt := fun r => Some (String (RegistryReceipt.immutable_image r)).

Definition sha_of (n : Z) : string := hex_encode (sha256 [n]).
Definition unbound : RegistryReceipt := {|
  RegistryReceipt.repository := "registry/app";
  RegistryReceipt.immutable_image := "registry/app@sha256:" +:+ sha_of 3;
  RegistryReceipt.manifest_sha256 := sha_of 3;
  RegistryReceipt.activation_plan_sha256 := sha_of 1;
  RegistryReceipt.candidate_sha256 := sha_of 2;
  RegistryReceipt.binding_sha256 := "";
|}.
Definition artifact : RegistryReceipt :=
  match digest unbound with Ok d => RegistryReceipt.with_binding d unbound | Err _ => unbound end.

Definition spec (probe : string) : DeploymentSpec := {|
  DeploymentSpec.version := "docker-deployment-v1";
  DeploymentSpec.service := "orders";
  DeploymentSpec.artifact := artifact;
  DeploymentSpec.command := ["serve"];
  DeploymentSpec.isolation := {|
    IsolationPolicy.cpu_millis := 500; IsolationPolicy.memory_bytes := 33554432; IsolationPolicy.pids := 32;
    IsolationPolicy.wall_time_ms := 1000; IsolationPolicy.output_bytes := 1024;
    IsolationPolicy.writable_tmpfs_bytes := 1048576; IsolationPolicy.linux_capabilities := ["SETUID"];
    IsolationPolicy.network_egress_allowlist := [] |};
  DeploymentSpec.secrets := [{| SecretReference.id := "token"; SecretReference.source_file := "/etc/token";
                                SecretReference.mount_path := "/run/secrets/token" |}];
  DeploymentSpec.health := {| HealthProbe.command := [probe]; HealthProbe.attempts := 3; HealthProbe.interval_ms := 10 |};
|}.

Definition unsigned : OperatorApproval := {|
  OperatorApproval.version := "operator-approval-v1";
  OperatorApproval.plan_sha256 := sha_of 1;
  OperatorApproval.artifact_sha256 := RegistryReceipt.binding_sha256 artifact;
  OperatorApproval.operator_key_id := "ops";
  OperatorApproval.approved_at := "20";
  OperatorApproval.signature := "";
|}.
Definition approval : OperatorApproval := {|
  OperatorApproval.version := "operator-approval-v1";
  OperatorApproval.plan_sha256 := sha_of 1;
  OperatorApproval.artifact_sha256 := RegistryReceipt.binding_sha256 artifact;
  OperatorApproval.operator_key_id := "ops";
  OperatorApproval.approved_at := "20";
  OperatorApproval.signature :=
    match approval_payload unsigned with Ok payload => hex_encode (ed_sign [9] payload) | Err _ => "" end;
|}.
Definition policy : ApprovalPolicy := {|
  ApprovalPolicy.operator_keys := [("ops", ed_public [9])];
  ApprovalPolicy.not_before := "10"; ApprovalPolicy.not_after := "30";
|}.
Definition disk : gmap string PathEntry := <["/etc/token" := FileEntry 384 [1; 2; 3]]> ∅.

Definition names : DeploymentNames := {|
  DeploymentNames.active := "anasemble-orders-active";
  DeploymentNames.stage := "anasemble-orders-stage-" +:+ String.substring 0 12 (sha_of 1);
  DeploymentNames.rollback := "anasemble-orders-rollback";
  DeploymentNames.failed := "anasemble-orders-failed";
  DeploymentNames.lease := "anasemble-orders-lease";
  DeploymentNames.network := "anasemble-orders-network";
|}.
Definition old : Container :=
  {| Container.image := "registry/app@sha256:" +:+ sha_of 4; Container.plan := sha_of 5; Container.running := true |}.

(** The old deployment runs and nothing else does; the same with a stage that a killed
    attempt left; and after the activation. *)
Definition before : view_t := (<["anasemble-orders-active" := old]> ∅, ∅).
Definition staged (probe : string) : view_t :=
  (<["anasemble-orders-lease" := lease_of ("activate:" +:+ sha_of 1) (RegistryReceipt.immutable_image artifact)]>
     (<[DeploymentNames.stage names := deployed (spec probe)]> before.1), <["anasemble-orders-network" := true]> ∅).
Definition after (probe : string) : view_t :=
  (<["anasemble-orders-active" := deployed (spec probe)]>
     (<["anasemble-orders-rollback" := Container.set_running false old]> ∅), <["anasemble-orders-network" := true]> ∅).

Lemma clean_digest n : existsb (Z.eqb n) [1; 3; 4; 5] = true -> clean (sha_of n) /\ clean ("registry/app@sha256:" +:+ sha_of n).
Proof.
  intros Hn. apply existsb_exists in Hn as (x & Hx & ->%Z.eqb_eq). simpl in Hx.
  destruct Hx as [<-|[<-|[<-|[<-|[]]]]]; (split; (split; [done|split; [vm_compute; discriminate|]]));
    vm_compute; repeat constructor.
Qed.

Lemma names_are probe : deployment_names (DeploymentSpec.service (spec probe))
  (RegistryReceipt.activation_plan_sha256 (DeploymentSpec.artifact (spec probe))) = Ok names.
Proof. by vm_compute. Qed.
Lemma approved : verify_approval policy approval (sha_of 1) (RegistryReceipt.binding_sha256 artifact) = Ok ().
Proof. by vm_compute. Qed.
Lemma valid_spec probe : probe = "true" \/ probe = "false" -> validate_spec (spec probe) = Ok ().
Proof. intros [->| ->]; by vm_compute. Qed.

Lemma is_deployable probe : probe = "true" \/ probe = "false" -> deployable disk policy (spec probe) approval names.
Proof.
  intros Hp. split.
  - intros v. apply goes_run. intros d Hd. exists d. split; [|done]. unfold validate_deployment. by rewrite (valid_spec probe Hp).
  - exact approved.
  - apply names_are.
  - by constructor.
  - split; [by apply (clean_digest 1)|by vm_compute].
  - split; [|by vm_compute]. replace (RegistryReceipt.immutable_image _) with ("registry/app@sha256:" +:+ sha_of 3) by by vm_compute.
    by apply (clean_digest 3).
  - done.
  - by vm_compute.
  - by vm_compute.
Qed.

Lemma old_clean : clean (Container.plan old).
Proof. by apply (clean_digest 5). Qed.
Lemma old_differs probe : Container.plan old <> RegistryReceipt.activation_plan_sha256 (DeploymentSpec.artifact (spec probe)).
Proof. by vm_compute. Qed.

Lemma before_midway probe : midway (spec probe) names old before.1 before.
Proof.
  split; [by left|done| |done]. left. exists true. split_and!; [done..|]. by left.
Qed.
Lemma staged_midway probe : midway (spec probe) names old before.1 (staged probe).
Proof.
  split; [by right|done| |].
  - left. exists true. split_and!; [done..|]. right. by exists true.
  - intros k Hk. unfold staged. cbn [fst]. rewrite !elem_of_cons in Hk.
    by rewrite !lookup_insert_ne by (intros <-; apply Hk; vm_compute; tauto).
Qed.
Lemma after_switched probe : switched (spec probe) names old before.1 (after probe).
Proof.
  split; [done..|]. intros k Hk. unfold after, before. cbn [fst]. rewrite !elem_of_cons in Hk.
  by rewrite !lookup_insert_ne by (intros <-; apply Hk; vm_compute; tauto).
Qed.

(** Three interrupted attempts, one at each point. *)
Lemma docker_activation_resumable_witness : exists w,
  goes disk (attempts policy (spec "true") approval [AfterStageHealthy; AfterActiveStopped; AfterActiveRenamed])
    before (Ok ()) w /\
  (midway (spec "true") names old before.1 w \/ switched (spec "true") names old before.1 w) /\
  exists idempotent x,
    goes disk (activate policy (spec "true") approval) w (Ok (receipt (spec "true") approval true idempotent)) x /\
    switched (spec "true") names old before.1 x.
Proof.
  exact (docker_activation_resumable disk policy (spec "true") approval names old
    (is_deployable "true" (or_introl eq_refl)) old_clean (old_differs "true") before.1 before
    [AfterStageHealthy; AfterActiveStopped; AfterActiveRenamed] eq_refl (or_introl (before_midway "true"))).
Defined.

Lemma docker_gate_only_when_staging_witness : exists w,
  goes disk (activate policy (spec "false") approval) (staged "false") (Ok (receipt (spec "false") approval true false)) w /\
  switched (spec "false") names old before.1 w.
Proof.
  apply (docker_gate_only_when_staging disk policy (spec "false") approval names old
    (is_deployable "false" (or_intror eq_refl)) old_clean (old_differs "false") before.1 (staged "false") eq_refl
    (staged_midway "false")).
  discriminate.
Defined.

Lemma docker_rollback_restores_witness : exists w,
  goes disk (rollback "orders" (sha_of 1)) (after "true") (Ok ()) w /\
  w.1 !! "anasemble-orders-active" = Some old.
Proof.
  destruct (docker_rollback_restores disk policy (spec "true") approval names old
    (is_deployable "true" (or_introl eq_refl)) before.1 (after "true")
    (after_switched "true") eq_refl) as (w & Hw & Ha & _).
  exists w. split; [exact Hw|exact Ha].
Defined.

Lemma docker_rollback_strands_witness :
  let v := (<["anasemble-orders-rollback" := Container.set_running false old]>
             (<["anasemble-orders-lease" := lease_of ("rollback:" +:+ sha_of 1) (RegistryReceipt.immutable_image artifact)]>
               (<["anasemble-orders-failed" := Container.set_running false (deployed (spec "true"))]> ∅)),
            <["anasemble-orders-network" := true]> ∅) : view_t in
  goes disk (rollback "orders" (sha_of 1)) v (Err (invalid "active deployment image is unavailable")) v.
Proof.
  intros v. apply (docker_rollback_strands disk policy (spec "true") approval names (Container.set_running false old)
    (is_deployable "true" (or_introl eq_refl)) v (sha_of 1) (sha_of 1) eq_refl eq_refl eq_refl).
  - apply (clean_holder disk policy (spec "true") approval names (is_deployable "true" (or_introl eq_refl)) "rollback:");
      [vm_compute; repeat constructor|vm_compute; discriminate].
  - discriminate.
  - vm_compute. reflexivity.
Defined.
End ActivationWitness.
