(* ===== verification/KubernetesSafety.v ===== *)
(** src/activation.rs, Kubernetes: what activations, rollbacks and commits leave in a
    cluster whose kubectl does what its commands are documented to do ([ClusterLaws])
    and that has no other client meanwhile. *)
From stdpp Require Import pretty fin_maps.
From S2P Require Import Prelude Effects External Json Core Model Canonical Text Activation Containers Kubernetes.
From S2P Require Stateful ActivationSafety.

(** * The cluster *)

(** The plans that the annotations of a Service name. *)
Module Annotations.
Record Annotations := { active : option string; previous : option string }.
End Annotations.
Abbreviation Annotations := Annotations.Annotations.

(** The holders of the leases, the annotations of the Services and the images of the
    Deployments, by namespace and name. *)
Module Cluster.
Record Cluster := {
  leases : gmap (string * string) string;
  services : gmap (string * string) Annotations;
  deployments : gmap (string * string) string;
}.
Definition set_leases l c := {| leases := l; services := services c; deployments := deployments c |}.
Definition set_services s c := {| leases := leases c; services := s; deployments := deployments c |}.
Definition set_deployments d c := {| leases := leases c; services := services c; deployments := d |}.
End Cluster.
Abbreviation Cluster := Cluster.Cluster.
Implicit Types c w : Cluster.

Class ClusterView (D : Type) := {
  cluster : D -> Cluster;
  rolls_out : string -> bool;   (* images whose Deployments become ready in time *)
}.

(** A command that gives such an output and leaves this cluster. *)
Definition replies {D} `{Kubectl D, ClusterView D} (args : list string) (input : option (list Z)) (d : D)
  (P : Output -> Prop) (w : Cluster) : Prop :=
  exists o d', kubectl_command args input d = (Ok o, d') /\ P o /\ cluster d' = w.

Definition succeeded (o : Output) : Prop := Output.success o = true /\ output_len o <= MAX_DOCKER_OUTPUT.
Definition refused (o : Output) : Prop := Output.success o = false /\ output_len o <= MAX_DOCKER_OUTPUT.

(** An object of which the pointers give these strings, or none. *)
Definition shows `{FromSlice json} (paths : list (list string * option string)) (o : Output) : Prop :=
  succeeded o /\ Output.stdout o <> [] /\ exists v, from_slice (T := json) (Output.stdout o) = Some v /\
  Forall (fun p => pointer_str p.1 v = p.2) paths.
Definition shows_nothing (o : Output) : Prop := succeeded o /\ Output.stdout o = [].

Definition short (s : string) : Prop := str_len s <= 1000.
Definition short_opt (s : option string) : Prop := match s with Some s => short s | None => True end.
Definition get_args (context kind name namespace : string) : list string :=
  ["--context"; context; "get"; kind; name; "-n"; namespace; "--ignore-not-found=true"; "-o"; "json"].
Definition delete_args (context kind name namespace : string) : list string :=
  ["--context"; context; "delete"; kind; name; "-n"; namespace; "--ignore-not-found=true"; "--wait=true"; "--timeout=30s"].
Definition patch_args (context name namespace text : string) : list string :=
  ["--context"; context; "patch"; "service"; name; "-n"; namespace; "--type=merge"; "-p"; text].

Class ClusterLaws (D : Type) `{Kubectl D, ClusterView D, JsonText, FromSlice json} : Prop := {
  run_get_lease : forall d context ns name,
    match Cluster.leases (cluster d) !! (ns, name) with
    | Some holder => short holder ->
        replies (get_args context "lease" name ns) None d
          (shows [(["spec"; "holderIdentity"], Some holder)]) (cluster d)
    | None => replies (get_args context "lease" name ns) None d shows_nothing (cluster d)
    end;
  run_get_service : forall d context ns name,
    match Cluster.services (cluster d) !! (ns, name) with
    | Some s => short_opt (Annotations.active s) -> short_opt (Annotations.previous s) ->
        replies (get_args context "service" name ns) None d
          (shows [(active_plan_path, Annotations.active s); (rollback_plan_path, Annotations.previous s)]) (cluster d)
    | None => replies (get_args context "service" name ns) None d shows_nothing (cluster d)
    end;
  run_create_lease : forall d context ns name holder, Cluster.leases (cluster d) !! (ns, name) = None ->
    replies ["--context"; context; "create"; "-f"; "-"] (Some (json_to_vec (lease_object ns name holder))) d succeeded
      (Cluster.set_leases (<[(ns, name) := holder]> (Cluster.leases (cluster d))) (cluster d));
  run_delete_lease : forall d context ns name,
    replies (delete_args context "lease" name ns) None d succeeded
      (Cluster.set_leases (delete (ns, name) (Cluster.leases (cluster d))) (cluster d));
  run_delete_deployment : forall d context ns name,
    replies (delete_args context "deployment" name ns) None d succeeded
      (Cluster.set_deployments (delete (ns, name) (Cluster.deployments (cluster d))) (cluster d));
  run_apply_policy : forall d context spec,
    replies ["--context"; context; "apply"; "-f"; "-"] (Some (json_to_vec (network_policy spec))) d succeeded (cluster d);
  run_apply_deployment : forall d context spec name,
    replies ["--context"; context; "apply"; "-f"; "-"] (Some (json_to_vec (deployment_object spec name))) d succeeded
      (Cluster.set_deployments (<[(KubernetesDeploymentSpec.namespace spec, name) :=
         RegistryReceipt.immutable_image (KubernetesDeploymentSpec.artifact spec)]> (Cluster.deployments (cluster d))) (cluster d));
  run_rollout : forall d context ns name seconds image, Cluster.deployments (cluster d) !! (ns, name) = Some image ->
    replies ["--context"; context; "rollout"; "status"; "deployment"; name; "-n"; ns; "--timeout=" +:+ pretty (A := Z) seconds +:+ "s"]
      None d (if rolls_out image then succeeded else refused) (cluster d);
  run_apply_service : forall d context spec plan,
    replies ["--context"; context; "apply"; "-f"; "-"] (Some (json_to_vec (service_object spec (Some plan)))) d succeeded
      (Cluster.set_services (<[(KubernetesDeploymentSpec.namespace spec, KubernetesDeploymentSpec.service spec) :=
         {| Annotations.active := Some (RegistryReceipt.activation_plan_sha256 (KubernetesDeploymentSpec.artifact spec));
            Annotations.previous := Some plan |}]> (Cluster.services (cluster d))) (cluster d));
  run_patch_rollback : forall d context ns name active plan,
    Cluster.services (cluster d) !! (ns, name) =
      Some {| Annotations.active := active; Annotations.previous := Some plan |} ->
    replies (patch_args context name ns (string_of_bytes (json_to_vec (rollback_patch name plan)))) None d succeeded
      (Cluster.set_services (<[(ns, name) := {| Annotations.active := Some plan; Annotations.previous := None |}]>
        (Cluster.services (cluster d))) (cluster d));
  run_patch_commit : forall d context ns name active plan,
    Cluster.services (cluster d) !! (ns, name) =
      Some {| Annotations.active := active; Annotations.previous := plan |} ->
    replies (patch_args context name ns (string_of_bytes (json_to_vec commit_patch))) None d succeeded
      (Cluster.set_services (<[(ns, name) := {| Annotations.active := active; Annotations.previous := None |}]>
        (Cluster.services (cluster d))) (cluster d));
}.

(** A [Value] serialises as itself. *)
Class ValueItself `{!ToValue json} : Prop := to_value_itself : forall v : json, to_value v = Some v.

Section Runs.
Context {D : Type} `{Kubectl D, !ClusterView D}.
Context `{SerdeErrorText, JsonText, Sha256, Hex, Ed25519, Jiff, ActivationErrorText}.
Context `{!ToValue ApprovalPayload, !ToValue RegistryReceipt, !ToValue json, !FromSlice json}.
Context `{!ClusterLaws D, !ValueItself}.
Abbreviation act A := (op D Error A).
Abbreviation goes := (takes cluster).
Implicit Types (self : KubernetesOrchestrator) (spec : KubernetesDeploymentSpec).

Lemma goes_kubectl args input c w (P : Output -> Prop) (d : D) :
  cluster d = c -> replies args input d P w -> exists o d', kubectl args input d = (Ok o, d') /\ P o /\ cluster d' = w.
Proof. intros Hd (o & d' & Hr & Ho & Hd'). exists o, d'. split; [|done]. unfold kubectl. by rewrite Hr. Qed.

Lemma goes_checked (o : Output) too_long failed c : succeeded o -> goes (checked o too_long failed : act ()) c (Ok ()) c.
Proof.
  intros [Hs Hl]. unfold checked. rewrite (proj2 (Z.ltb_ge _ _)), Hs by done. apply takes_ret.
Qed.

Lemma goes_kube self args c w :
  (forall d, cluster d = c -> replies (["--context"; KubernetesOrchestrator.context self] ++ args) None d succeeded w) ->
  goes (kube self args) c (Ok ()) w.
Proof.
  intros Hg d Hd. destruct (goes_kubectl _ _ _ _ _ d Hd (Hg d Hd)) as (o & d' & Hr & Ho & Hd').
  unfold kube. rewrite (run_bind _ _ _ _ _ Hr). by apply goes_checked.
Qed.

Lemma kube_errs self args c w :
  (forall d, cluster d = c -> replies (["--context"; KubernetesOrchestrator.context self] ++ args) None d refused w) ->
  errs cluster (kube self args) c w.
Proof.
  intros Hg d Hd. destruct (goes_kubectl _ _ _ _ _ d Hd (Hg d Hd)) as (o & d' & Hr & [Hs Hl] & Hd').
  unfold kube. rewrite (run_bind _ _ _ _ _ Hr). unfold checked. rewrite (proj2 (Z.ltb_ge _ _)), Hs by done.
  by eexists _, _.
Qed.

Lemma goes_input self args v c w :
  (forall d, cluster d = c ->
     replies (["--context"; KubernetesOrchestrator.context self] ++ args) (Some (json_to_vec v)) d succeeded w) ->
  goes (kube_input self args v) c (Ok ()) w.
Proof.
  intros Hg d Hd. destruct (goes_kubectl _ _ _ _ _ d Hd (Hg d Hd)) as (o & d' & Hr & Ho & Hd').
  unfold kube_input. rewrite (run_bind_lift _ _ _ (json_to_vec v)).
  - rewrite (run_bind _ _ _ _ _ Hr). by apply goes_checked.
  - apply encode_Ok. exists v. split; [apply to_value_itself|done].
Qed.

Lemma goes_get_nothing self ns kind name c :
  (forall d, cluster d = c -> replies (get_args (KubernetesOrchestrator.context self) kind name ns) None d shows_nothing c) ->
  goes (kube_json_optional self ns kind name) c (Ok None) c.
Proof.
  intros Hg d Hd. destruct (goes_kubectl _ _ _ _ _ d Hd (Hg d Hd)) as (o & d' & Hr & ([Hs Hl] & Hn) & Hd').
  unfold kube_json_optional. rewrite (run_bind _ _ _ _ _ Hr), Hs. cbn [negb]. rewrite (proj2 (Z.ltb_ge _ _)) by done.
  rewrite bool_decide_eq_true_2 by done. by exists d'.
Qed.

(** Reading an object, and going on with what its pointers give. *)
Lemma get_run self ns kind name paths c d :
  (forall d, cluster d = c -> replies (get_args (KubernetesOrchestrator.context self) kind name ns) None d (shows paths) c) ->
  cluster d = c -> exists v d', kube_json_optional self ns kind name d = (Ok (Some v), d') /\ cluster d' = c /\
    Forall (fun p => pointer_str p.1 v = p.2) paths.
Proof.
  intros Hg Hd.
  destruct (goes_kubectl _ _ _ _ _ d Hd (Hg d Hd)) as (o & d' & Hr & ([Hs Hl] & Hn & v & Hv & Hp) & Hd').
  exists v, d'. split; [|done]. unfold kube_json_optional. rewrite (run_bind _ _ _ _ _ Hr), Hs. cbn [negb].
  rewrite (proj2 (Z.ltb_ge _ _)) by done. rewrite bool_decide_eq_false_2 by done. by rewrite Hv.
Qed.

Lemma goes_get {A} self ns kind name paths c (k : option json -> act A) r w :
  (forall d, cluster d = c -> replies (get_args (KubernetesOrchestrator.context self) kind name ns) None d (shows paths) c) ->
  (forall v, Forall (fun p => pointer_str p.1 v = p.2) paths -> goes (k (Some v)) c r w) ->
  goes (kube_json_optional self ns kind name ≫= k) c r w.
Proof.
  intros Hg Hk d Hd. destruct (get_run self ns kind name paths c d Hg Hd) as (v & d' & Hr & Hd' & Hp).
  destruct (Hk v Hp d' Hd') as (d2 & Hr2 & Hd2). exists d2. split; [|done]. by rewrite (run_bind _ _ _ _ _ Hr).
Qed.

(** ** Leases *)

Abbreviation lease_key ns service := (ns, lease_name service).
Abbreviation hold k holder c := (Cluster.set_leases (<[k := holder]> (Cluster.leases c)) c).
Abbreviation release k c := (Cluster.set_leases (delete k (Cluster.leases c)) c).

Lemma goes_create_lease self ns name holder c : Cluster.leases c !! (ns, name) = None ->
  goes (kube_create self (lease_object ns name holder)) c (Ok ()) (hold (ns, name) holder c).
Proof. intros Hc. apply goes_input. intros d <-. by apply run_create_lease. Qed.
Lemma goes_delete_lease self ns name c : goes (kube_delete self ns "lease" name) c (Ok ()) (release (ns, name) c).
Proof. apply goes_kube. intros d <-. apply run_delete_lease. Qed.

Lemma goes_get_lease {A} self ns name holder c (k : option json -> act A) r w :
  Cluster.leases c !! (ns, name) = Some holder -> short holder ->
  (forall v, pointer_str ["spec"; "holderIdentity"] v = Some holder -> goes (k (Some v)) c r w) ->
  goes (kube_json_optional self ns "lease" name ≫= k) c r w.
Proof.
  intros Hc Hs Hk. eapply goes_get.
  - intros d <-. pose proof (run_get_lease d (KubernetesOrchestrator.context self) ns name) as Hr. rewrite Hc in Hr. by apply Hr.
  - intros v Hv. apply Forall_inv in Hv. by apply Hk.
Qed.
Lemma goes_no_lease self ns name c : Cluster.leases c !! (ns, name) = None ->
  goes (kube_json_optional self ns "lease" name) c (Ok None) c.
Proof.
  intros Hc. apply goes_get_nothing. intros d <-.
  pose proof (run_get_lease d (KubernetesOrchestrator.context self) ns name) as Hr. by rewrite Hc in Hr.
Qed.

Lemma goes_get_service {A} self ns name s c (k : option json -> act A) r w :
  Cluster.services c !! (ns, name) = Some s -> short_opt (Annotations.active s) -> short_opt (Annotations.previous s) ->
  (forall v, pointer_str active_plan_path v = Annotations.active s ->
     pointer_str rollback_plan_path v = Annotations.previous s -> goes (k (Some v)) c r w) ->
  goes (kube_json_optional self ns "service" name ≫= k) c r w.
Proof.
  intros Hc Ha Hp Hk. eapply goes_get.
  - intros d <-. pose proof (run_get_service d (KubernetesOrchestrator.context self) ns name) as Hr. rewrite Hc in Hr.
    by apply Hr.
  - intros v Hv. inversion_clear Hv as [|? ? Hv1 Hv2]. apply Forall_inv in Hv2. by apply Hk.
Qed.

(** Reading it when it has to be there. *)
Lemma goes_read_service {A} self ns name s c (k : json -> act A) r w :
  Cluster.services c !! (ns, name) = Some s -> short_opt (Annotations.active s) -> short_opt (Annotations.previous s) ->
  (forall v, pointer_str active_plan_path v = Annotations.active s ->
     pointer_str rollback_plan_path v = Annotations.previous s -> goes (k v) c r w) ->
  goes (kube_json self ns "service" name ≫= k) c r w.
Proof.
  intros Hc Ha Hp Hk. apply takes_assoc. eapply goes_get_service; [done..|]. intros v Hva Hvp.
  eapply takes_bind; [apply takes_lift|]. by apply Hk.
Qed.

Lemma goes_activation_lease self spec holder c (k := lease_key (KubernetesDeploymentSpec.namespace spec) (KubernetesDeploymentSpec.service spec)) :
  Cluster.leases c !! k = None -> goes (activation_lease self spec holder) c (Ok ()) (hold k holder c).
Proof.
  intros Hc. unfold activation_lease. eapply takes_bind; [by apply goes_no_lease|]. apply takes_on_error_Ok.
  by apply goes_create_lease.
Qed.
Lemma goes_activation_lease_held self spec holder existing c :
  Cluster.leases c !! lease_key (KubernetesDeploymentSpec.namespace spec) (KubernetesDeploymentSpec.service spec) = Some existing ->
  short existing ->
  goes (activation_lease self spec holder) c
    (if bool_decide (existing = holder) then Ok () else Err (invalid "another Kubernetes activation lease owns the service")) c.
Proof.
  intros Hc Hs. unfold activation_lease. eapply goes_get_lease; [done..|]. intros v Hv. cbn [mbind option_bind]. rewrite Hv.
  destruct (bool_decide _); [apply takes_ret|apply takes_fail].
Qed.

Lemma goes_operation_lease self ns name holder c :
  match Cluster.leases c !! (ns, name) with
  | Some existing => short existing /\ existing <> holder /\ may_take_over holder existing = true
  | None => True
  end ->
  goes (acquire_operation_lease self ns name holder) c (Ok ()) (hold (ns, name) holder c).
Proof.
  intros Hc. unfold acquire_operation_lease. destruct (Cluster.leases c !! (ns, name)) as [existing|] eqn:Hl.
  - destruct Hc as (Hs & Hne & Ht). eapply goes_get_lease; [done..|]. intros v Hv.
    apply takes_bind with false (release (ns, name) c).
    + rewrite Hv. eapply takes_bind; [apply takes_lift|]. rewrite bool_decide_eq_false_2, Ht by done.
      eapply takes_bind; [apply goes_delete_lease|]. apply takes_ret.
    + apply takes_on_error_Ok.
      replace (hold (ns, name) holder c) with (hold (ns, name) holder (release (ns, name) c))
        by (unfold Cluster.set_leases; cbn; by rewrite insert_delete_eq).
      apply goes_create_lease, lookup_delete_eq.
  - eapply takes_bind; [by apply goes_no_lease|]. eapply takes_bind; [apply takes_ret|]. cbn iota.
    apply takes_on_error_Ok. by apply goes_create_lease.
Qed.
Lemma goes_operation_lease_refused self ns name holder existing c :
  Cluster.leases c !! (ns, name) = Some existing -> short existing -> existing <> holder ->
  may_take_over holder existing = false ->
  goes (acquire_operation_lease self ns name holder) c (Err (invalid "another Kubernetes operation owns the service")) c.
Proof.
  intros Hl Hs Hne Ht. unfold acquire_operation_lease. eapply goes_get_lease; [done..|]. intros v Hv.
  apply takes_bind_Err. rewrite Hv. eapply takes_bind; [apply takes_lift|]. rewrite bool_decide_eq_false_2, Ht by done.
  apply takes_fail.
Qed.

Lemma take_over verb current plan : verb = "rollback:" \/ verb = "commit:" ->
  may_take_over (verb +:+ current) ("activate:" +:+ plan) = bool_decide (plan = current) /\
  ("activate:" +:+ plan <> verb +:+ current).
Proof.
  intros Hv. unfold may_take_over. split; [|by destruct Hv as [->| ->]].
  assert (bool_decide ("activate:" +:+ plan = "activate:" +:+ current) = bool_decide (plan = current)) as Heq.
  { apply bool_decide_ext. split; [apply app_inj_l|congruence]. }
  destruct Hv as [->| ->]; rewrite <- Heq.
  - by rewrite strip_prefix_app.
  - replace (strip_prefix "rollback:" ("commit:" +:+ current)) with (@None string) by done. by rewrite strip_prefix_app.
Qed.

(** ** Deployments *)

Abbreviation plan_of spec := (RegistryReceipt.activation_plan_sha256 (KubernetesDeploymentSpec.artifact spec)).
Abbreviation image_of spec := (RegistryReceipt.immutable_image (KubernetesDeploymentSpec.artifact spec)).

(** A deployment that is valid and approved. *)
Record deployable self spec approval : Prop := {
  deployable_valid : validate_kubernetes_deployment spec = Ok ();
  deployable_approved : verify_approval (KubernetesOrchestrator.approval_policy self) approval (plan_of spec)
    (RegistryReceipt.binding_sha256 (KubernetesDeploymentSpec.artifact spec)) = Ok ();
}.

Lemma deployable_facts self spec approval : deployable self spec approval ->
  validate_kube_name (KubernetesDeploymentSpec.namespace spec) = Ok () /\
  validate_kube_name (KubernetesDeploymentSpec.service spec) = Ok () /\ validate_digest (plan_of spec) = Ok ().
Proof.
  intros [Hv _]. unfold validate_kubernetes_deployment in Hv. inv_ok.
  repeat match goal with x : () |- _ => destruct x end. split_and!; [done..|].
  unfold validate_spec in *. inv_ok. repeat match goal with x : () |- _ => destruct x end. done.
Qed.

Lemma digest_length p : validate_digest p = Ok () -> str_len p = 64.
Proof. unfold validate_digest. destruct (str_len p =? 64) eqn:E; [|done]. intros _. by apply Z.eqb_eq. Qed.

(** What every activation begins with. *)
Lemma goes_validated self spec approval failure c r w : deployable self spec approval ->
  goes (_ ← activation_lease self spec ("activate:" +:+ plan_of spec);
        value ← kube_json_optional self (KubernetesDeploymentSpec.namespace spec) "service" (KubernetesDeploymentSpec.service spec);
        let current_plan := value ≫= pointer_str active_plan_path in
        _ ← lift (match current_plan with Some plan => validate_digest plan | None => Ok () end);
        if bool_decide (current_plan = Some (plan_of spec)) then
          _ ← kube_delete self (KubernetesDeploymentSpec.namespace spec) "lease" (lease_name (KubernetesDeploymentSpec.service spec));
          mret (kube_receipt spec approval (bool_decide (is_Some (value ≫= pointer_str rollback_plan_path))) true)
        else stage_and_switch self spec approval failure current_plan) c r w ->
  goes (activate_with_failure self spec approval failure) c r w.
Proof.
  intros [Hv Ha] Hrest. unfold activate_with_failure. eapply takes_bind; [rewrite Hv; apply takes_lift|].
  eapply takes_bind; [rewrite Ha; apply takes_lift|]. exact Hrest.
Qed.

Section Deployment.
Variables (self : KubernetesOrchestrator) (spec : KubernetesDeploymentSpec) (approval : OperatorApproval) (current : string).
Abbreviation ns := (KubernetesDeploymentSpec.namespace spec).
Abbreviation service := (KubernetesDeploymentSpec.service spec).
Abbreviation plan := (plan_of spec).
Abbreviation lease := (lease_key ns service).
Hypothesis (Hdeploy : deployable self spec approval).
Hypothesis (Hcurrent : validate_digest current = Ok ()) (Hother : current <> plan).

Lemma plan_short verb : str_len verb <= 100 -> short (verb +:+ plan).
Proof.
  intros Hl. destruct (deployable_facts _ _ _ Hdeploy) as (_ & _ & Hp%digest_length). unfold short. rewrite str_len_app. lia.
Qed.
Lemma current_short : short current.
Proof. unfold short. rewrite (digest_length _ Hcurrent). lia. Qed.

Definition digest_opt (p : option string) : Prop := match p with Some p => validate_digest p = Ok () | None => True end.
Lemma digest_opt_short p : digest_opt p -> short_opt p.
Proof. destruct p as [p|]; [|done]. cbn. intros Hp%digest_length. unfold short. lia. Qed.

(** The stage of the plan, in a cluster where its Deployment was applied. *)
Definition staged c : Cluster :=
  Cluster.set_deployments (<[(ns, stage_name service plan) := image_of spec]> (Cluster.deployments c)) c.
Definition switched c : Cluster :=
  Cluster.set_services (<[(ns, service) := {| Annotations.active := Some plan; Annotations.previous := Some current |}]>
    (Cluster.services c)) c.

Lemma goes_staging {A} (k : () -> act A) c r w :
  rolls_out (image_of spec) = true -> goes (k ()) (staged c) r w ->
  goes (_ ← apply_network_policy self spec; _ ← apply_deployment self spec (stage_name service plan);
        kube self ["rollout"; "status"; "deployment"; stage_name service plan; "-n"; ns;
                   "--timeout=" +:+ pretty (rollout_timeout (KubernetesDeploymentSpec.health spec)) +:+ "s"] ≫= k) c r w.
Proof.
  intros Hr Hk. apply takes_bind with () c; [apply goes_input; intros d <-; apply run_apply_policy|].
  apply takes_bind with () (staged c); [apply goes_input; intros d <-; apply run_apply_deployment|].
  eapply takes_bind; [|exact Hk]. apply goes_kube. intros d Hd. rewrite <- Hd.
  pose proof (run_rollout d (KubernetesOrchestrator.context self) ns (stage_name service plan)
    (rollout_timeout (KubernetesDeploymentSpec.health spec)) (image_of spec)) as Hrun.
  rewrite Hr in Hrun. apply Hrun. rewrite Hd. apply lookup_insert_eq.
Qed.

(** Taking the lease of the activation, or finding it taken for the same plan. *)
Lemma goes_own_lease c :
  Cluster.leases c !! lease = None \/ Cluster.leases c !! lease = Some ("activate:" +:+ plan) ->
  goes (activation_lease self spec ("activate:" +:+ plan)) c (Ok ()) (hold lease ("activate:" +:+ plan) c).
Proof.
  intros [Hl|Hl]; [by apply goes_activation_lease|].
  pose proof (goes_activation_lease_held self spec ("activate:" +:+ plan) ("activate:" +:+ plan) c Hl
    ltac:(by apply plan_short)) as Hheld.
  rewrite bool_decide_eq_true_2 in Hheld by done. unfold Cluster.set_leases. rewrite insert_id by done. by destruct c.
Qed.

(** Activating over a current plan, to its end or to the interruption after the switch. *)
Lemma goes_activation previous failure c :
  failure = NoFailure \/ failure = AfterServiceSwitched -> rolls_out (image_of spec) = true -> digest_opt previous ->
  Cluster.leases c !! lease = None ->
  Cluster.services c !! (ns, service) = Some {| Annotations.active := Some current; Annotations.previous := previous |} ->
  let w := switched (staged (hold lease ("activate:" +:+ plan) c)) in
  goes (activate_with_failure self spec approval failure) c
    (if bool_decide (failure = NoFailure) then Ok (kube_receipt spec approval true false)
     else Err (interrupted "after Kubernetes Service selector switched"))
    (if bool_decide (failure = NoFailure) then release lease w else w).
Proof.
  intros Hf Hr Hp Hl Hs w. apply goes_validated; [done|]. eapply takes_bind; [by apply goes_activation_lease|].
  eapply goes_get_service; [exact Hs|exact current_short|by apply digest_opt_short|]. intros v Hva _.
  cbn [Annotations.active] in Hva. cbn [mbind option_bind]. rewrite Hva. cbv zeta.
  eapply takes_bind; [rewrite Hcurrent; apply takes_lift|]. rewrite bool_decide_eq_false_2 by congruence.
  unfold stage_and_switch. apply (goes_staging (fun _ => _)); [done|].
  rewrite (bool_decide_eq_false_2 (failure = AfterStageReady)) by (by destruct Hf as [->| ->]).
  apply takes_bind with (Ok ()) w; [apply Stateful.takes_outcome, goes_input; intros d Hd|].
  { unfold w, switched. rewrite <- Hd. apply run_apply_service. }
  destruct Hf as [->| ->]; cbn.
  - eapply takes_bind; [apply Stateful.takes_outcome, goes_delete_lease|]. apply takes_ret.
  - apply takes_fail.
Qed.

(** The cluster after the switch, with the lease released or not. *)
Definition live c : Prop :=
  Cluster.services c !! (ns, service) = Some {| Annotations.active := Some plan; Annotations.previous := Some current |} /\
  (Cluster.leases c !! lease = None \/ Cluster.leases c !! lease = Some ("activate:" +:+ plan)).

Lemma goes_operation verb c : verb = "rollback:" \/ verb = "commit:" -> live c ->
  goes (acquire_operation_lease self ns (lease_name service) (verb +:+ plan)) c (Ok ()) (hold lease (verb +:+ plan) c).
Proof.
  intros Hv [_ Hl]. apply goes_operation_lease. destruct (take_over verb plan plan Hv) as [Ht Hne].
  destruct Hl as [->| ->]; [done|]. split_and!; [by apply plan_short|done|]. rewrite Ht. by apply bool_decide_eq_true_2.
Qed.

Lemma goes_rollback c : live c ->
  goes (rollback self ns service) c (Ok ())
    (Cluster.set_services (<[(ns, service) := {| Annotations.active := Some current; Annotations.previous := None |}]>
      (Cluster.services c)) (release lease c)).
Proof.
  intros Hlive. destruct (deployable_facts _ _ _ Hdeploy) as (Hn & Hsn & Hp). pose proof Hlive as [Hs _].
  unfold rollback. eapply takes_bind; [rewrite Hn; apply takes_lift|]. eapply takes_bind; [rewrite Hsn; apply takes_lift|].
  eapply goes_read_service; [exact Hs|exact (plan_short "" ltac:(by vm_compute))|exact current_short|]. intros v Ha Hb.
  rewrite Ha, Hb. cbn [Annotations.active Annotations.previous]. do 2 (eapply takes_bind; [apply takes_lift|]).
  eapply takes_bind; [rewrite Hcurrent; apply takes_lift|]. eapply takes_bind; [rewrite Hp; apply takes_lift|].
  eapply takes_bind; [apply goes_operation; [by left|done]|].
  set (w := hold lease ("rollback:" +:+ plan) c).
  apply takes_bind with () (Cluster.set_services (<[(ns, service) :=
    {| Annotations.active := Some current; Annotations.previous := None |}]> (Cluster.services w)) w).
  - apply goes_kube. intros d Hd. rewrite <- Hd. apply (run_patch_rollback d _ ns service (Some plan)). by rewrite Hd.
  - match goal with |- takes _ _ _ _ ?x => replace x with (release lease (Cluster.set_services (<[(ns, service) :=
      {| Annotations.active := Some current; Annotations.previous := None |}]> (Cluster.services w)) w)) end;
      [apply goes_delete_lease|].
    unfold w, Cluster.set_leases, Cluster.set_services. cbn. by rewrite delete_insert_eq.
Qed.

Lemma goes_commit c : live c ->
  goes (commit self ns service) c (Ok ())
    (Cluster.set_services (<[(ns, service) := {| Annotations.active := Some plan; Annotations.previous := None |}]>
      (Cluster.services c))
      (Cluster.set_deployments (delete (ns, stage_name service current) (Cluster.deployments c)) (release lease c))).
Proof.
  intros Hlive. destruct (deployable_facts _ _ _ Hdeploy) as (Hn & Hsn & Hp). pose proof Hlive as [Hs _].
  unfold commit. eapply takes_bind; [rewrite Hn; apply takes_lift|]. eapply takes_bind; [rewrite Hsn; apply takes_lift|].
  eapply goes_read_service; [exact Hs|exact (plan_short "" ltac:(by vm_compute))|exact current_short|]. intros v Ha Hb.
  rewrite Ha, Hb. cbn [Annotations.active Annotations.previous]. eapply takes_bind; [apply takes_lift|].
  eapply takes_bind; [rewrite Hp; apply takes_lift|]. eapply takes_bind; [apply goes_operation; [by right|done]|].
  set (w := hold lease ("commit:" +:+ plan) c).
  set (w1 := Cluster.set_deployments (delete (ns, stage_name service current) (Cluster.deployments w)) w).
  apply takes_bind with () (Cluster.set_services (<[(ns, service) :=
    {| Annotations.active := Some plan; Annotations.previous := None |}]> (Cluster.services w1)) w1).
  - eapply takes_bind; [rewrite Hcurrent; apply takes_lift|].
    apply takes_bind with () w1; [apply goes_kube; intros d Hd; unfold w1; rewrite <- Hd; apply run_delete_deployment|].
    apply goes_kube. intros d Hd. rewrite <- Hd. apply (run_patch_commit d _ ns service (Some plan) (Some current)).
    by rewrite Hd.
  - match goal with |- takes _ _ _ _ ?x => replace x with (release lease (Cluster.set_services (<[(ns, service) :=
      {| Annotations.active := Some plan; Annotations.previous := None |}]> (Cluster.services w1)) w1)) end;
      [apply goes_delete_lease|].
    unfold w1, w, Cluster.set_leases, Cluster.set_services, Cluster.set_deployments. cbn. by rewrite delete_insert_eq.
Qed.

(** Activating once more. *)
Lemma goes_again failure c : live c ->
  goes (activate_with_failure self spec approval failure) c (Ok (kube_receipt spec approval true true)) (release lease c).
Proof.
  intros [Hs Hl]. apply goes_validated; [done|]. destruct (deployable_facts _ _ _ Hdeploy) as (_ & _ & Hp).
  set (w := hold lease ("activate:" +:+ plan) c). eapply takes_bind; [by apply goes_own_lease|]. fold w.
  eapply goes_get_service; [exact Hs|exact (plan_short "" ltac:(by vm_compute))|exact current_short|]. intros v Ha Hb.
    cbn [Annotations.active Annotations.previous] in *. cbn [mbind option_bind]. rewrite Ha, Hb. cbv zeta.
    eapply takes_bind; [rewrite Hp; apply takes_lift|]. rewrite bool_decide_eq_true_2 by done.
    replace (release lease c) with (release lease w)
      by (unfold w, Cluster.set_leases; cbn; by rewrite delete_insert_eq).
    eapply takes_bind; [apply goes_delete_lease|]. apply takes_ret.
Qed.


(** An activation whose Deployment does not become ready ends in an error, with its
    lease held. *)
Lemma failed_rollout previous c :
  rolls_out (image_of spec) = false -> digest_opt previous ->
  Cluster.leases c !! lease = None \/ Cluster.leases c !! lease = Some ("activate:" +:+ plan) ->
  Cluster.services c !! (ns, service) = Some {| Annotations.active := Some current; Annotations.previous := previous |} ->
  errs cluster (activate self spec approval) c (staged (hold lease ("activate:" +:+ plan) c)).
Proof.
  intros Hr Hp Hl Hs. set (w := hold lease ("activate:" +:+ plan) c).
  assert (errs cluster (stage_and_switch self spec approval NoFailure (Some current)) w (staged w)) as Hstage.
  { unfold stage_and_switch.
    apply errs_bind with () w; [apply goes_input; intros d Hd; rewrite <- Hd; apply run_apply_policy|].
    apply errs_bind with () (staged w);
      [apply goes_input; intros d Hd; unfold staged; rewrite <- Hd; apply run_apply_deployment|].
    apply errs_bind_Err, kube_errs. intros d Hd. rewrite <- Hd.
    pose proof (run_rollout d (KubernetesOrchestrator.context self) ns (stage_name service plan)
      (rollout_timeout (KubernetesDeploymentSpec.health spec)) (image_of spec)) as Hrun.
    rewrite Hr in Hrun. apply Hrun. rewrite Hd. apply lookup_insert_eq. }
  eapply errs_bind; [rewrite (deployable_valid _ _ _ Hdeploy); apply takes_lift|].
  eapply errs_bind; [rewrite (deployable_approved _ _ _ Hdeploy); apply takes_lift|].
  eapply errs_bind; [by apply goes_own_lease|]. fold w. intros d Hd.
  destruct (get_run self ns "service" service [(active_plan_path, Some current); (rollback_plan_path, previous)] w d)
    as (v & d1 & Hr1 & Hd1 & Hv); [|done|].
  { intros d0 Hd0. pose proof (run_get_service d0 (KubernetesOrchestrator.context self) ns service) as Hget.
    rewrite Hd0 in Hget. change (Cluster.services w) with (Cluster.services c) in Hget. rewrite Hs in Hget.
    apply Hget; [exact current_short|by apply digest_opt_short]. }
  apply Forall_inv in Hv. cbn [fst snd] in Hv. rewrite (run_bind _ _ _ _ _ Hr1). cbn [mbind option_bind]. rewrite Hv.
  cbv zeta. rewrite (run_bind_lift _ _ _ () Hcurrent), bool_decide_eq_false_2 by congruence. by apply Hstage.
Qed.

(** A Kubernetes activation whose Deployment does not become ready in time returns an
    error and keeps its lease, which nothing but a later success of the same plan releases.
    Until then the Service stays on its plan, but neither rolling it back nor committing
    it nor activating any other plan is possible: each is refused and changes nothing. *)
Theorem kubernetes_failed_rollout_blocks rejected c (w := staged (hold lease ("activate:" +:+ plan) c)) :
  rolls_out (image_of spec) = false -> validate_digest rejected = Ok () -> Cluster.leases c !! lease = None ->
  Cluster.services c !! (ns, service) =
    Some {| Annotations.active := Some current; Annotations.previous := Some rejected |} ->
  errs cluster (activate self spec approval) c w /\ errs cluster (activate self spec approval) w w /\
  goes (rollback self ns service) w (Err (invalid "another Kubernetes operation owns the service")) w /\
  goes (commit self ns service) w (Err (invalid "another Kubernetes operation owns the service")) w /\
  forall other approval', deployable self other approval' -> KubernetesDeploymentSpec.namespace other = ns ->
    KubernetesDeploymentSpec.service other = service -> plan_of other <> plan ->
    goes (activate self other approval') w (Err (invalid "another Kubernetes activation lease owns the service")) w.
Proof.
  intros Hr Hrej Hl Hs. split; [apply (failed_rollout (Some rejected)); [exact Hr|exact Hrej|by left|exact Hs]|].
  assert (Cluster.leases w !! lease = Some ("activate:" +:+ plan)) as Hlw by apply lookup_insert_eq.
  destruct (deployable_facts _ _ _ Hdeploy) as (Hn & Hsn & Hp).
  assert (short ("activate:" +:+ plan)) as Hshort by by apply plan_short.
  assert (forall verb, verb = "rollback:" \/ verb = "commit:" ->
    goes (acquire_operation_lease self ns (lease_name service) (verb +:+ current)) w
      (Err (invalid "another Kubernetes operation owns the service")) w) as Hrefused.
  { intros verb Hv. destruct (take_over verb current plan Hv) as [Ht Hne].
    eapply goes_operation_lease_refused; [exact Hlw|done|done|]. rewrite Ht. by apply bool_decide_eq_false_2. }
  split_and!.
  - replace w with (staged (hold lease ("activate:" +:+ plan) w)) at 2.
    + eapply (failed_rollout (Some rejected)); [exact Hr|exact Hrej|by right|exact Hs].
    + unfold w, staged, Cluster.set_deployments, Cluster.set_leases. cbn. by rewrite !insert_insert_eq.
  - unfold rollback. eapply takes_bind; [rewrite Hn; apply takes_lift|]. eapply takes_bind; [rewrite Hsn; apply takes_lift|].
    eapply goes_read_service; [exact Hs|exact current_short|by apply (digest_opt_short (Some rejected))|]. intros v Ha Hb.
    rewrite Ha, Hb. cbn [Annotations.active Annotations.previous]. do 2 (eapply takes_bind; [apply takes_lift|]).
    eapply takes_bind; [rewrite Hrej; apply takes_lift|]. eapply takes_bind; [rewrite Hcurrent; apply takes_lift|].
    apply takes_bind_Err, Hrefused. by left.
  - unfold commit. eapply takes_bind; [rewrite Hn; apply takes_lift|]. eapply takes_bind; [rewrite Hsn; apply takes_lift|].
    eapply goes_read_service; [exact Hs|exact current_short|by apply (digest_opt_short (Some rejected))|]. intros v Ha Hb.
    rewrite Ha. cbn [Annotations.active Annotations.previous]. eapply takes_bind; [apply takes_lift|].
    eapply takes_bind; [rewrite Hcurrent; apply takes_lift|]. apply takes_bind_Err, Hrefused. by right.
  - intros other approval' Hother' Hns Hsvc Hne. apply goes_validated; [done|]. apply takes_bind_Err.
    pose proof (goes_activation_lease_held self other ("activate:" +:+ plan_of other) ("activate:" +:+ plan) w) as Hheld.
    rewrite Hns, Hsvc in Hheld. specialize (Hheld Hlw Hshort). rewrite bool_decide_eq_false_2 in Hheld; [exact Hheld|].
    intros Heq. apply app_inj_l in Heq. congruence.
Qed.
End Deployment.
End Runs.

(** * A cluster *)

Module ToyCluster.
#[export] Instance value_itself : ToValue json := fun v => Some v.
#[export] Instance read_value : FromSlice json := ToyJson.from_text Some.
#[local] Existing Instance ToyJson.text.

Lemma read_back v : from_slice (json_to_vec v) = Some v.
Proof. unfold from_slice, read_value, ToyJson.from_text, json_to_vec, ToyJson.text. by rewrite ToyJson.of_text_tokens. Qed.

Definition out (bytes : list Z) : Output := {| Output.success := true; Output.stdout := bytes; Output.stderr := [] |}.
Definition replied (bytes : list Z) c : result string Output * Cluster := (Ok (out bytes), c).
Definition failed c : result string Output * Cluster :=
  (Ok {| Output.success := false; Output.stdout := []; Output.stderr := [] |}, c).

(** What is shown of an object: what the program asks for. *)
Definition show_lease (holder : string) : list Z :=
  json_to_vec (obj [("spec", obj [("holderIdentity", String holder)])]).
Definition annotation (key : string) (value : option string) : list (string * json) :=
  match value with Some value => [(key, String value)] | None => [] end.
Definition show_service (s : Annotations) : list Z :=
  json_to_vec (obj [("metadata", obj [("annotations", Object
    (annotation "anasemble.active-plan" (Annotations.active s) ++
     annotation "anasemble.rollback-plan" (Annotations.previous s)))])]).

Definition image_in (v : json) : option string :=
  match pointer ["spec"; "template"; "spec"; "containers"] v with
  | Some (Array (container :: _)) => pointer_str ["image"] container
  | _ => None
  end.

(** An object that is created or applied. *)
Definition written (v : json) c : result string Output * Cluster :=
  match pointer_str ["kind"] v, pointer_str ["metadata"; "namespace"] v, pointer_str ["metadata"; "name"] v with
  | Some kind, Some ns, Some name =>
      if bool_decide (kind = "Lease") then
        match Cluster.leases c !! (ns, name), pointer_str ["spec"; "holderIdentity"] v with
        | None, Some holder => replied [] (Cluster.set_leases (<[(ns, name) := holder]> (Cluster.leases c)) c)
        | _, _ => failed c
        end else
      if bool_decide (kind = "Service") then
        replied [] (Cluster.set_services (<[(ns, name) :=
          {| Annotations.active := pointer_str active_plan_path v;
             Annotations.previous := pointer_str rollback_plan_path v |}]> (Cluster.services c)) c) else
      if bool_decide (kind = "Deployment") then
        match image_in v with
        | Some image => replied [] (Cluster.set_deployments (<[(ns, name) := image]> (Cluster.deployments c)) c)
        | None => failed c
        end else replied [] c
  | _, _, _ => failed c
  end.

Definition removed (kind name ns : string) c : result string Output * Cluster :=
  replied [] (if bool_decide (kind = "lease") then Cluster.set_leases (delete (ns, name) (Cluster.leases c)) c
              else Cluster.set_deployments (delete (ns, name) (Cluster.deployments c)) c).
Definition shown (kind name ns : string) c : result string Output * Cluster :=
  replied (if bool_decide (kind = "lease")
           then match Cluster.leases c !! (ns, name) with Some holder => show_lease holder | None => [] end
           else match Cluster.services c !! (ns, name) with Some s => show_service s | None => [] end) c.

(** A patch with the selector goes back to the previous plan. *)
Definition patched (name ns text : string) c : result string Output * Cluster :=
  match Cluster.services c !! (ns, name) with
  | Some s =>
      let active := if bool_decide (bytes_of_string text !! 1%nat = Some 2) then Annotations.previous s else Annotations.active s in
      replied [] (Cluster.set_services (<[(ns, name) := {| Annotations.active := active; Annotations.previous := None |}]>
        (Cluster.services c)) c)
  | None => failed c
  end.

(** The images named so become ready. *)
Definition ready (image : string) : bool := String.prefix "registry/app@" image.

#[export] Instance calls : Kubectl Cluster := fun args input c =>
  match input, args with
  | Some payload, _ => match from_slice (T := json) payload with Some v => written v c | None => failed c end
  | None, [_; _; verb; _; _; name; _; ns; _] =>
      match Cluster.deployments c !! (ns, name) with
      | Some image => if ready image then replied [] c else failed c
      | None => failed c
      end
  | None, [_; _; verb; kind; name; _; ns; a; b; d] =>
      if bool_decide (verb = "get") then (if bool_decide (b = "-o") then shown kind name ns c else failed c) else
      if bool_decide (verb = "delete") then removed kind name ns c else patched name ns d c
  | None, _ => failed c
  end.
#[export] Instance the_view : ClusterView Cluster := {| cluster := fun c => c; rolls_out := ready |}.

Lemma out_ok bytes : vec_len bytes <= MAX_DOCKER_OUTPUT -> succeeded (out bytes).
Proof.
  intros Hl. split; [done|]. unfold output_len, out, saturating_add_u64. cbn [Output.stdout Output.stderr].
  change (vec_len []) with 0. lia.
Qed.

Lemma written_out args v c w : written v c = replied [] w ->
  replies args (Some (json_to_vec v)) c succeeded w.
Proof. intros Hw. exists (out []), w. unfold kubectl_command, calls. rewrite read_back. split; [exact Hw|]. split; [by apply out_ok|done]. Qed.

(** The length of what is shown. *)
Lemma tokens_object members : vec_len (ToyJson.to_tokens (Object members)) =
  2 + foldr (fun kv n => 1 + str_len kv.1 + vec_len (ToyJson.to_tokens kv.2) + n) 0 members.
Proof.
  unfold vec_len. cbn [ToyJson.to_tokens length]. rewrite !Nat2Z.inj_succ.
  enough (Z.of_nat (length ((fix go l := match l with [] => [] | kv :: l' =>
      ToyJson.string_tokens kv.1 ++ ToyJson.to_tokens kv.2 ++ go l' end) members)) =
    foldr (fun kv n => 1 + str_len kv.1 + Z.of_nat (length (ToyJson.to_tokens kv.2)) + n) 0 members) by lia.
  induction members as [|kv l IH]; [done|]. cbn [foldr]. rewrite <- IH. unfold ToyJson.string_tokens. cbn [app length].
  rewrite !length_app, Nat2Z.inj_succ, !Nat2Z.inj_add, bytes_of_string_length. lia.
Qed.
Lemma tokens_string x : vec_len (ToyJson.to_tokens (String x)) = 2 + str_len x.
Proof.
  unfold vec_len. cbn [ToyJson.to_tokens ToyJson.string_tokens length].
  rewrite !Nat2Z.inj_succ, bytes_of_string_length. lia.
Qed.

Lemma show_lease_length holder : short holder -> vec_len (show_lease holder) <= 2000.
Proof.
  intros Hs. unfold show_lease, obj, json_to_vec, ToyJson.text. cbn [bt_from_list foldl bt_insert fst snd].
  rewrite !tokens_object. cbn [foldr fst snd]. rewrite !tokens_object. cbn [foldr fst snd]. rewrite tokens_string.
  unfold short in Hs. change (str_len "spec") with 4. change (str_len "holderIdentity") with 14. lia.
Qed.
Lemma annotation_length key value : short_opt value ->
  foldr (fun kv n => 1 + str_len kv.1 + vec_len (ToyJson.to_tokens kv.2) + n) 0 (annotation key value) <= 1003 + str_len key.
Proof.
  intros Hs. destruct value as [value|]; cbn [annotation foldr fst snd].
  - rewrite tokens_string. cbn in Hs. unfold short in Hs. lia.
  - pose proof (str_len_nonneg key). lia.
Qed.
Lemma show_service_length s : short_opt (Annotations.active s) -> short_opt (Annotations.previous s) ->
  vec_len (show_service s) <= 3000.
Proof.
  intros Ha Hp. unfold show_service, obj, json_to_vec, ToyJson.text. cbn [bt_from_list foldl bt_insert fst snd].
  rewrite !tokens_object. cbn [foldr fst snd]. rewrite !tokens_object. cbn [foldr fst snd]. rewrite tokens_object.
  pose proof (annotation_length "anasemble.active-plan" _ Ha) as Hla.
  pose proof (annotation_length "anasemble.rollback-plan" _ Hp) as Hlp.
  destruct s as [[a|] [r|]]; cbn [Annotations.active Annotations.previous annotation app foldr fst snd] in *;
  change (str_len "metadata") with 8; change (str_len "annotations") with 11;
  change (str_len "anasemble.active-plan") with 21 in *; change (str_len "anasemble.rollback-plan") with 23 in *; lia.
Qed.

Lemma written_lease ns name holder c : Cluster.leases c !! (ns, name) = None ->
  written (lease_object ns name holder) c = replied [] (Cluster.set_leases (<[(ns, name) := holder]> (Cluster.leases c)) c).
Proof.
  intros Hc. transitivity (match Cluster.leases c !! (ns, name) with
    | None => replied [] (Cluster.set_leases (<[(ns, name) := holder]> (Cluster.leases c)) c) | _ => failed c end);
    [reflexivity|by rewrite Hc].
Qed.
Lemma written_deployment spec name c : written (deployment_object spec name) c =
  replied [] (Cluster.set_deployments (<[(KubernetesDeploymentSpec.namespace spec, name) :=
    RegistryReceipt.immutable_image (KubernetesDeploymentSpec.artifact spec)]> (Cluster.deployments c)) c).
Proof. reflexivity. Qed.
Lemma written_service spec plan c : written (service_object spec (Some plan)) c =
  replied [] (Cluster.set_services (<[(KubernetesDeploymentSpec.namespace spec, KubernetesDeploymentSpec.service spec) :=
    {| Annotations.active := Some (RegistryReceipt.activation_plan_sha256 (KubernetesDeploymentSpec.artifact spec));
       Annotations.previous := Some plan |}]> (Cluster.services c)) c).
Proof. reflexivity. Qed.
Lemma written_policy spec c : written (network_policy spec) c = replied [] c.
Proof. reflexivity. Qed.
Lemma patch_kinds name plan :
  bytes_of_string (string_of_bytes (json_to_vec (rollback_patch name plan))) !! 1%nat = Some 2 /\
  bytes_of_string (string_of_bytes (json_to_vec commit_patch)) !! 1%nat = Some 1.
Proof. by split. Qed.

#[export] Instance laws : ClusterLaws Cluster.
Proof.
  split; intros.
  - unfold replies. cbn [cluster the_view]. destruct (Cluster.leases d !! (ns, name)) as [holder|] eqn:E; [intros Hs; exists (out (show_lease holder)), d|exists (out []), d].
    all: (split; [unfold kubectl_command, calls, get_args, shown; by rewrite E|]).
    + split; [|done]. pose proof (show_lease_length holder Hs). split; [apply out_ok; unfold MAX_DOCKER_OUTPUT; lia|].
      split; [done|]. eexists. split; [apply read_back|]. by constructor.
    + split; [|done]. split; [by apply out_ok|done].
  - unfold replies. cbn [cluster the_view]. destruct (Cluster.services d !! (ns, name)) as [s|] eqn:E; [intros Ha Hp; exists (out (show_service s)), d|exists (out []), d].
    all: (split; [unfold kubectl_command, calls, get_args, shown; by rewrite E|]).
    + split; [|done]. pose proof (show_service_length s Ha Hp). split; [apply out_ok; unfold MAX_DOCKER_OUTPUT; lia|].
      split; [done|]. eexists. split; [apply read_back|]. by destruct s as [[a|] [r|]]; repeat constructor.
    + split; [|done]. split; [by apply out_ok|done].
  - by apply written_out, written_lease.
  - eexists (out []), _. split; [reflexivity|]. split; [by apply out_ok|done].
  - eexists (out []), _. split; [reflexivity|]. split; [by apply out_ok|done].
  - apply written_out, written_policy.
  - apply written_out, written_deployment.
  - unfold replies. cbn [cluster the_view] in *. unfold kubectl_command, calls. rewrite H. destruct (ready image) eqn:E; unfold rolls_out, the_view; rewrite E.
    + exists (out []). eexists. split; [done|]. split; [by apply out_ok|done].
    + eexists _, _. split; [done|]. split; [by split|done].
  - apply written_out, written_service.
  - unfold replies. cbn [cluster the_view] in *. unfold kubectl_command, calls, patch_args, patched. rewrite H. exists (out []). eexists. split; [reflexivity|].
    split; [by apply out_ok|]. rewrite bool_decide_eq_true_2 by apply (patch_kinds name plan). done.
  - unfold replies. cbn [cluster the_view] in *. unfold kubectl_command, calls, patch_args, patched. rewrite H. exists (out []). eexists. split; [reflexivity|].
    split; [by apply out_ok|]. done.
Qed.
End ToyCluster.

(** * Witnesses *)

Module KubernetesWitness.
Import ActivationSafety.ActivationWitness.
#[local] Existing Instances Toy.sha Toy.hexi Toy.ed Toy.jiff ToyJson.text ToyCluster.value_itself ToyCluster.read_value.
#[local] Existing Instances ToyCluster.calls ToyCluster.the_view ToyCluster.laws.
#[local] Existing Instances error_text os_errors texts serialise_approval serialise_artifact.
#[local] Instance itself : ValueItself.
Proof. done. Qed.

(** An image that becomes ready and one that does not, with the approvals of both. *)
Definition unbound (registry : string) : RegistryReceipt := {|
  RegistryReceipt.repository := registry;
  RegistryReceipt.immutable_image := registry +:+ "@sha256:" +:+ sha_of 3;
  RegistryReceipt.manifest_sha256 := sha_of 3;
  RegistryReceipt.activation_plan_sha256 := sha_of 1;
  RegistryReceipt.candidate_sha256 := sha_of 2;
  RegistryReceipt.binding_sha256 := "";
|}.
Definition artifact (registry : string) : RegistryReceipt :=
  match digest (unbound registry) with
  | Ok d => RegistryReceipt.with_binding d (unbound registry)
  | Err _ => unbound registry
  end.
Definition spec (registry : string) : KubernetesDeploymentSpec := {|
  KubernetesDeploymentSpec.version := "kubernetes-deployment-v1";
  KubernetesDeploymentSpec.namespace := "shop";
  KubernetesDeploymentSpec.service := "orders";
  KubernetesDeploymentSpec.artifact := artifact registry;
  KubernetesDeploymentSpec.command := ["serve"];
  KubernetesDeploymentSpec.isolation := DeploymentSpec.isolation (ActivationSafety.ActivationWitness.spec "true");
  KubernetesDeploymentSpec.secrets := [{| KubernetesSecretReference.id := "token";
    KubernetesSecretReference.secret_name := "orders-token"; KubernetesSecretReference.secret_key := "token";
    KubernetesSecretReference.mount_path := "/run/secrets/token" |}];
  KubernetesDeploymentSpec.health := {| HealthProbe.command := ["true"]; HealthProbe.attempts := 3; HealthProbe.interval_ms := 10 |};
  KubernetesDeploymentSpec.service_port := 80;
  KubernetesDeploymentSpec.container_port := 8080;
|}.
Definition approval_of (registry signature : string) : OperatorApproval := {|
  OperatorApproval.version := "operator-approval-v1";
  OperatorApproval.plan_sha256 := sha_of 1;
  OperatorApproval.artifact_sha256 := RegistryReceipt.binding_sha256 (artifact registry);
  OperatorApproval.operator_key_id := "ops";
  OperatorApproval.approved_at := "20";
  OperatorApproval.signature := signature;
|}.
Definition approval (registry : string) : OperatorApproval := approval_of registry
  match approval_payload (approval_of registry "") with Ok payload => hex_encode (ed_sign [9] payload) | Err _ => "" end.
Definition self : KubernetesOrchestrator :=
  {| KubernetesOrchestrator.context := "prod"; KubernetesOrchestrator.approval_policy := policy |}.
Definition before : Cluster := {|
  Cluster.leases := ∅;
  Cluster.services := <[("shop", "orders") := {| Annotations.active := Some (sha_of 5); Annotations.previous := Some (sha_of 6) |}]> ∅;
  Cluster.deployments := ∅;
|}.

Lemma good_deployable : deployable self (spec "registry/app") (approval "registry/app").
Proof. split; vm_compute; reflexivity. Qed.
Lemma bad_deployable : deployable self (spec "registry/bad") (approval "registry/bad").
Proof. split; vm_compute; reflexivity. Qed.
Lemma plan_digests : validate_digest (sha_of 5) = Ok () /\ validate_digest (sha_of 6) = Ok ().
Proof. split; vm_compute; reflexivity. Qed.
Lemma differs registry : sha_of 5 <> RegistryReceipt.activation_plan_sha256 (KubernetesDeploymentSpec.artifact (spec registry)).
Proof. by vm_compute. Qed.

Lemma good_ready : rolls_out (RegistryReceipt.immutable_image (KubernetesDeploymentSpec.artifact (spec "registry/app"))) = true.
Proof. vm_compute. reflexivity. Qed.
Lemma bad_unready : rolls_out (RegistryReceipt.immutable_image (KubernetesDeploymentSpec.artifact (spec "registry/bad"))) = false.
Proof. vm_compute. reflexivity. Qed.


Lemma kubernetes_failed_rollout_blocks_witness : exists w,
  errs cluster (activate self (spec "registry/bad") (approval "registry/bad")) before w /\
  takes cluster (rollback self "shop" "orders") w (Err (invalid "another Kubernetes operation owns the service")) w.
Proof.
  destruct (kubernetes_failed_rollout_blocks self (spec "registry/bad") (approval "registry/bad") (sha_of 5) bad_deployable
    (proj1 plan_digests) (differs "registry/bad") (sha_of 6) before bad_unready (proj2 plan_digests) eq_refl eq_refl)
    as (He & _ & Hr & _).
  eexists. split; [exact He|exact Hr].
Defined.
End KubernetesWitness.
