(* ===== verification/ReferenceSafety.v ===== *)
(** src/reference.rs: a recovery that fails gives the backends back what they had, or keeps
    what undoes it; one that completes gives a receipt that is accepted and can be rolled
    back.  The workflow is proved against what an adapter promises ([undoable],
    [describes]); those of [Postgres], [ObjectStore] and [Redis] keep the second promise. *)
From S2P Require Import Prelude Effects FileTree External Json Core Model Canonical Text Activation Containers Stateful Reference.
From S2P Require Fragments Protocol Service Lifecycle KeyFiles ArtifactRegistry Kubernetes Postgres ObjectStore Redis Sandbox.
From S2P Require StatefulSafety.

(** * Triples whose second postcondition is on the error as well *)

Section Ends.
Context {S E : Type}.
Implicit Types P : S -> Prop.

Definition ends {A} P (m : op S E A) (Q : A -> S -> Prop) (R : E -> S -> Prop) : Prop :=
  forall s, P s -> match m s with (Ok a, s') => Q a s' | (Err e, s') => R e s' end.

Lemma ends_compose {A B} P (m : op S E A) (f : A -> op S E B) M Q R :
  ends P m M R -> (forall a, ends (M a) (f a) Q R) -> ends P (m ≫= f) Q R.
Proof.
  intros Hm Hf s Hs. specialize (Hm s Hs). unfold mbind, op_bind. destruct (m s) as [[a|e] s']; [by apply Hf|done].
Qed.
Lemma ends_conseq {A} P P' (m : op S E A) Q Q' R R' :
  (forall s, P' s -> P s) -> (forall a s, Q a s -> Q' a s) -> (forall e s, R e s -> R' e s) ->
  ends P m Q R -> ends P' m Q' R'.
Proof. intros HP HQ HR Hm s Hs. specialize (Hm s (HP s Hs)). destruct (m s) as [[] ?]; eauto. Qed.
Lemma ends_lift {A} P (r : result E A) : ends P (lift r) (fun _ => P) (fun e s => r = Err e /\ P s).
Proof. intros s Hs. by destruct r. Qed.
Lemma ends_ret {A} (a : A) P (Q : A -> S -> Prop) R : (forall s, P s -> Q a s) -> ends P (mret a) Q R.
Proof. intros HQ s Hs. by apply HQ. Qed.

(** Operations that return, one after the other. *)
Fixpoint all_go P (ms : list (op S E ())) (Q : S -> Prop) : Prop :=
  match ms with
  | [] => forall s, P s -> Q s
  | m :: ms => exists M : S -> Prop, ends P m (fun _ => M) (fun _ _ => False) /\ all_go M ms Q
  end.
End Ends.

Section Errors.
Context {S : Type}.

Lemma ends_on_error {A} (P : S -> Prop) (m : op S Error A) handler M Q R :
  ends P m Q M -> (forall e, ends (M e) (handler e) Q R) -> ends P (on_error m handler) Q R.
Proof.
  intros Hm Hh s Hs. specialize (Hm s Hs). unfold on_error. destruct (m s) as [[a|e] s']; [done|by apply Hh].
Qed.
End Errors.

(** * The contracts of an adapter *)

Section Contracts.
Context {S V : Type} (look : S -> V).

(** The rollback by this receipt is possible, and gives the view [v]. *)
Definition undone_by (ad : TransactionalStateAdapter S) (receipt : RestoreReceipt) (v : V) (s : S) : Prop :=
  forall t, look t = look s -> exists t', rollback S ad receipt t = (Ok (), t') /\ look t' = v.

(** Planning reads; a restoration that fails leaves the view, one that succeeds can be
    undone. *)
Record undoable (ad : TransactionalStateAdapter S) (v : V) : Prop := {
  plan_reads snap target : ends (fun s => look s = v) (plan S ad snap target) (fun _ s => look s = v) (fun _ s => look s = v);
  restore_undoable snap p : ends (fun s => look s = v) (restore S ad snap p) (fun r => undone_by ad r v) (fun _ s => look s = v);
}.
End Contracts.

(** Plans and receipts name the backend and the target, receipts what was restored and
    the rollback resource of the target, if any. *)
Record describes `{SerdeErrorText, JsonText, Sha256, Hex, !ToValue StateSnapshot, !ToValue MigrationPlan} {S}
  (kind : BackendKind) (ad : TransactionalStateAdapter S) : Prop := {
  plan_describes snap target s p s' : plan S ad snap target s = (Ok p, s') ->
    MigrationPlan.target_resource p = target /\ MigrationPlan.backend p = kind;
  restore_describes snap p s r s' : restore S ad snap p s = (Ok r, s') ->
    exists token, Stateful.receipt snap p token = Ok r /\
      (token = "" \/ token = expected_rollback kind (MigrationPlan.target_resource p));
}.

Record describing `{SerdeErrorText, JsonText, Sha256, Hex, !ToValue StateSnapshot, !ToValue MigrationPlan} {P O R}
  (c : Connections P O R) : Prop := {
  postgres_described connection schema ad : connect_postgres connection schema = Ok ad -> describes PostgreSql ad;
  postgres_tls_described connection schema ca ad : connect_postgres_tls connection schema ca = Ok ad -> describes PostgreSql ad;
  s3_described endpoint region bucket access secret token prefix ad :
    connect_s3 endpoint region bucket access secret token prefix = Ok ad -> describes S3Compatible ad;
  redis_described url stream ad : connect_redis url stream = Ok ad -> describes RedisStream ad;
}.

Record undoing {P O R VP VO VR} (c : Connections P O R) (lookp : P -> VP) (looko : O -> VO) (lookr : R -> VR)
  (vp : VP) (vo : VO) (vr : VR) : Prop := {
  postgres_undoable connection schema ad : connect_postgres connection schema = Ok ad -> undoable lookp ad vp;
  postgres_tls_undoable connection schema ca ad : connect_postgres_tls connection schema ca = Ok ad -> undoable lookp ad vp;
  s3_undoable endpoint region bucket access secret token prefix ad :
    connect_s3 endpoint region bucket access secret token prefix = Ok ad -> undoable looko ad vo;
  redis_undoable url stream ad : connect_redis url stream = Ok ad -> undoable lookr ad vr;
}.

(** * The adapters keep the second contract *)

Section Adapters.
Context {P O R : Type} `{UrlLib, Postgres.Postgres P, ObjectStore.ObjectStore O, Redis.Redis R}.
Context `{SerdeErrorText, JsonText, Sha256, Hex}.
Context `{!ToValue StateSchema, !ToValue (list StateItem), !ToValue StateSnapshot, !ToValue MigrationPlan}.
Context `{!ToVec Postgres.PgSchema.PgSchema, !FromSlice Postgres.PgSchema.PgSchema}.
Context `{!ToVec Redis.RedisEntry.RedisEntry, !FromSlice Redis.RedisEntry.RedisEntry}.
Context `{!ToVec Redis.RedisGroup.RedisGroup, !FromSlice Redis.RedisGroup.RedisGroup}.

Lemma run_lift_Ok {S E A B} (r : result E A) (f : A -> op S E B) s b s' :
  (lift r ≫= f) s = (Ok b, s') -> exists a, r = Ok a /\ f a s = (Ok b, s').
Proof. unfold mbind, op_bind, lift. destruct r as [a|e]; [|done]. by exists a. Qed.

Lemma postgres_describes schema : describes PostgreSql (Postgres.postgres_adapter (S := P) schema).
Proof.
  split; cbn [plan restore Postgres.postgres_adapter].
  - intros snap target s p s' Hp. unfold lift, Postgres.plan in Hp. injection Hp as Hp _. inv_ok. by injection Hp as <-.
  - intros snap p s r s' Hr. unfold Postgres.restore in Hr. cbv zeta in Hr.
    repeat (apply run_lift_Ok in Hr as (? & _ & Hr)). apply run_bind_Ok in Hr as (found & s1 & _ & Hr).
    apply run_lift_Ok in Hr as (r' & Hr' & Hr). apply run_bind_Ok in Hr as ([[]|e] & s2 & _ & Hr).
    + injection Hr as <- _. eexists. split; [exact Hr'|]. destruct found; [by right|by left].
    + by apply run_bind_Ok in Hr as (? & ? & _ & ?).
Qed.

Lemma s3_describes own : describes S3Compatible (ObjectStore.s3_adapter (S := O) own).
Proof.
  split; cbn [plan restore ObjectStore.s3_adapter].
  - intros snap target s p s' Hp. unfold lift, ObjectStore.plan in Hp. injection Hp as Hp _. inv_ok. by injection Hp as <-.
  - intros snap p s r s' Hr. unfold ObjectStore.restore in Hr. cbv zeta in Hr. apply run_lift_Ok in Hr as (? & _ & Hr).
    apply run_bind_Ok in Hr as (stale & s1 & _ & Hr). destruct (negb _); [done|].
    apply run_bind_Ok in Hr as (previous & s2 & _ & Hr). apply run_bind_Ok in Hr as (u & s3 & _ & Hr).
    apply run_bind_Ok in Hr as ([[]|e] & s4 & _ & Hr).
    + unfold lift in Hr. injection Hr as Hr _. eexists. split; [exact Hr|by right].
    + by apply run_bind_Ok in Hr as (? & ? & _ & ?).
Qed.

Lemma redis_describes stream : describes RedisStream (Redis.redis_adapter (S := R) stream).
Proof.
  split; cbn [plan restore Redis.redis_adapter].
  - intros snap target s p s' Hp. unfold lift, Redis.plan in Hp. injection Hp as Hp _. inv_ok. by injection Hp as <-.
  - intros snap p s r s' Hr. unfold Redis.restore in Hr. apply run_bind_Ok in Hr as (r' & s1 & Hs & Hr).
    apply run_bind_Ok in Hr as ([[]|e] & s2 & _ & Hr); [injection Hr as <- _|by apply run_bind_Ok in Hr as (? & ? & _ & ?)].
    unfold Redis.stage_and_swap in Hs. cbv zeta in Hs. repeat (apply run_lift_Ok in Hs as (? & _ & Hs)).
    apply run_bind_Ok in Hs as (? & ? & _ & Hs). apply run_bind_Ok in Hs as (? & ? & _ & Hs). destruct (_ || _); [done|].
    repeat (apply run_bind_Ok in Hs as (? & ? & _ & Hs)). unfold lift in Hs. injection Hs as Hs _.
    eexists. split; [exact Hs|]. destruct (negb _); [by right|by left].
Qed.

(** A target that was not there before leaves no rollback resource, and then PostgreSQL's
    and Redis's adapters have no way back: what was restored stays. *)
Theorem fresh_target_stays r : RestoreReceipt.rollback_token r = "" ->
  (forall schema s, rollback P (Postgres.postgres_adapter schema) r s = (Err (invalid "PostgreSQL rollback is unavailable"), s)) /\
  (forall stream s, rollback R (Redis.redis_adapter stream) r s = (Err (invalid "Redis rollback is unavailable"), s)).
Proof.
  intros Hr. split; intros name s; cbn [rollback Postgres.postgres_adapter Redis.redis_adapter].
  - unfold Postgres.rollback. by rewrite Hr, orb_true_r.
  - unfold Redis.rollback. by rewrite Hr, orb_true_r.
Qed.

(** So the connections of the program give adapters that do. *)
Lemma adapters_describe open_postgres open_redis Cert Roots certificates empty add_root configured open_tls set_timeouts build :
  describing (adapters (P := P) (O := O) (R := R) open_postgres open_redis Cert Roots certificates empty add_root configured
                       open_tls set_timeouts build).
Proof.
  split; cbn [connect_postgres connect_postgres_tls connect_s3 connect_redis adapters]; intros * Hc;
    apply bind_Ok in Hc as ([u name] & _ & Hc); injection Hc as <-.
  - apply postgres_describes.
  - apply postgres_describes.
  - apply s3_describes.
  - apply redis_describes.
Qed.
End Adapters.

(** * What the steps that complete give *)

(** Goes through the run of a sequence that returned. *)
Ltac run_inv Hr :=
  repeat match type of Hr with
  | (_ ≫= _) _ = (Ok _, _) => apply run_bind_Ok in Hr as (? & ? & ? & Hr)
  | (match ?x with (_, _) => _ end) _ = _ => destruct x
  | (if ?b then _ else _) _ = (Ok _, _) => destruct b eqn:?; try discriminate Hr
  end.

Lemma run_guarded_Ok {S A} (body : op S Error A) release s a s' :
  guarded body release s = (Ok a, s') -> exists s1, body s = (Ok a, s1).
Proof. unfold guarded. destruct (body s) as [r s1]. intros Hr. exists s1. destruct (release s1). by injection Hr as -> _. Qed.

Section Steps.
Context {D K : Type} `{!Docker D, !ArtifactRegistry.DockerPipe D, !Kubernetes.Kubectl K}.
Context `{OsErrorText, ActivationErrorText, SerdeErrorText, JsonText, Sha256, Hex, Ed25519, Jiff}.
Context `{!ToValue RegistryReceipt, !ToValue ActivationPlan, !FromSlice (list string)}.
Context `{!ToValue ApprovalPayload, !ToValue json, !FromSlice json}.

(** The artifact that is published is that of the plan, and its digest is bound. *)
Lemma published_artifact endpoint temp_dir pid first second request m r m' :
  ArtifactRegistry.package_and_publish (D := D) endpoint temp_dir pid first second request m = (Ok r, m') ->
  digest (RegistryReceipt.with_binding "" r) = Ok (RegistryReceipt.binding_sha256 r) /\
  RegistryReceipt.activation_plan_sha256 r = ActivationPlan.plan_sha256 (ArtifactPackageRequest.activation_plan request).
Proof.
  intros Hr. unfold ArtifactRegistry.package_and_publish in Hr. cbv zeta in Hr. run_inv Hr.
  apply run_guarded_Ok in Hr as (m1 & Hr). run_inv Hr. apply run_guarded_Ok in Hr as (m2 & Hr).
  unfold ArtifactRegistry.package_container in Hr. cbv zeta in Hr. run_inv Hr.
  unfold ArtifactRegistry.publish in Hr. cbv zeta in Hr. run_inv Hr.
  unfold lift, ArtifactRegistry.bound_receipt in Hr. injection Hr as Hr _. inv_ok. by injection Hr as <-.
Qed.

(** The receipt of an activation is that of the deployment asked for. *)
Lemma activated_receipt self spec approval k r k' :
  Kubernetes.activate (D := K) self spec approval k = (Ok r, k') ->
  exists available idempotent, r = Kubernetes.kube_receipt spec approval available idempotent.
Proof.
  intros Hr. unfold Kubernetes.activate, Kubernetes.activate_with_failure in Hr. cbv zeta in Hr. run_inv Hr.
  - injection Hr as <- _. by eexists _, _.
  - unfold Kubernetes.stage_and_switch in Hr. cbv zeta in Hr. run_inv Hr.
    match type of Hr with (match ?x with _ => _ end) _ = _ => destruct x as [?|?] end; run_inv Hr.
    + injection Hr as <- _. by eexists _, _.
    + match type of Hr with (match ?x with _ => _ end) _ = _ => destruct x as [[]|?] end; try discriminate Hr.
      injection Hr as <- _. by eexists _, _.
Qed.
End Steps.

(** * The workflow *)

Section Workflow.
Context {P O R D K : Type} `{c : !Connections P O R, !Docker D, !ArtifactRegistry.DockerPipe D, !Kubernetes.Kubectl K}.
Context `{OsErrorText, ActivationErrorText, SerdeErrorText, JsonText, Sha256, Hex, Hmac, Ed25519, Jiff}.
Context `{Sandbox.WasmEncoder, Sandbox.Wasmi}.
Context `{!ToValue FragmentContent.FragmentContent, !ToValue Fragments.UnsignedEnvelope}.
Context `{!ToValue Fragments.Envelope.Envelope, !ToValue Candidate.Candidate, !ToValue Protocol.Certificate}.
Context `{!ToValue Service.ServiceManifest, !ToValue (list FragmentContent.FragmentContent)}.
Context `{!ToValue StateSchema, !ToValue (list StateItem), !ToValue StateSnapshot, !ToValue MigrationPlan}.
Context `{!ToValue ActivationPlan, !ToValue RegistryReceipt, !ToValue ApprovalPayload, !ToValue json, !FromSlice json}.
Context `{!FromSlice (list string), !FromSlice Fragments.SigningKeyFile.SigningKeyFile, !FromSlice Service.ServiceManifest}.
Context `{!ToValue Config, !FromSlice Config, !ToValue Bundle, !FromSlice Bundle, !ToValue Receipt, !FromSlice Receipt}.
Variables (file_at : string -> option Item) (workspace_at : string -> Protocol.Workspace).
Variables (temp_dir : string) (pid first second : Z).
Implicit Types (config : Config) (bundle : Bundle) (receipt : Receipt).
Abbreviation World := (World.World P O R D K).
Abbreviation recover_and_activate := (recover_and_activate file_at workspace_at temp_dir pid first second).
Abbreviation restore_and_activate := (restore_and_activate temp_dir pid first second).
Abbreviation activate_restored := (activate_restored temp_dir pid first second).

(** ** One part of the world at a time *)

Definition parts (p : P -> Prop) (o : O -> Prop) (r : R -> Prop) (w : World) : Prop :=
  p (World.postgres w) /\ o (World.objects w) /\ r (World.streams w).

Lemma ends_postgres {A} (m : op P Error A) p q e o r : ends p m q e ->
  ends (parts p o r) (on_postgres m) (fun a => parts (q a) o r) (fun x => parts (e x) o r).
Proof.
  intros Hm w (Hp & Ho & Hr). specialize (Hm _ Hp). unfold on_postgres, within. by destruct (m (World.postgres w)) as [[] ?].
Qed.
Lemma ends_objects {A} (m : op O Error A) p o q e r : ends o m q e ->
  ends (parts p o r) (on_objects m) (fun a => parts p (q a) r) (fun x => parts p (e x) r).
Proof.
  intros Hm w (Hp & Ho & Hr). specialize (Hm _ Ho). unfold on_objects, within. by destruct (m (World.objects w)) as [[] ?].
Qed.
Lemma ends_streams {A} (m : op R Error A) p o r q e : ends r m q e ->
  ends (parts p o r) (on_streams m) (fun a => parts p o (q a)) (fun x => parts p o (e x)).
Proof.
  intros Hm w (Hp & Ho & Hr). specialize (Hm _ Hr). unfold on_streams, within. by destruct (m (World.streams w)) as [[] ?].
Qed.
Lemma ends_machine {A} (m : op (Machine D) Error A) p o r : ends (parts p o r) (on_machine m) (fun _ => parts p o r) (fun _ => parts p o r).
Proof. intros w Hw. unfold on_machine, within. by destruct (m (World.machine w)) as [[] ?]. Qed.
Lemma ends_cluster {A} (m : op K Error A) p o r : ends (parts p o r) (on_cluster m) (fun _ => parts p o r) (fun _ => parts p o r).
Proof. intros w Hw. unfold on_cluster, within. by destruct (m (World.cluster w)) as [[] ?]. Qed.

(** ** Undoing *)

Definition undone (error : Error) : Error := invalid (fmt error +:+ "; completed reverse-order rollback").

Lemma failures_none n : failures (replicate n (Ok ())) = [].
Proof. induction n as [|n IH]; [done|exact IH]. Qed.

Lemma undo_outcomes (ms : list (op World Error ())) Q : forall M n, all_go M ms Q ->
  ends M (op_for ms (replicate n (Ok ())) (fun rollback done => o ← outcome rollback; mret (done ++ [o])))
    (fun outcomes w => outcomes = replicate (n + length ms) (Ok ()) /\ Q w) (fun (_ : Error) _ => False).
Proof.
  induction ms as [|m ms IH]; intros M n Hms; cbn [op_for length].
  - intros w Hw. cbn. rewrite Nat.add_0_r. split; [done|by apply Hms].
  - destruct Hms as (M' & Hm & Hms). intros w Hw. specialize (Hm w Hw). unfold mbind at 1, op_bind.
    unfold mbind at 1, op_bind, outcome. destruct (m w) as [[[]|e] w']; [|done]. cbn [mret op_ret].
    rewrite <- replicate_S_end. specialize (IH M' (S n) Hms w' Hm). by rewrite Nat.add_succ_r.
Qed.

Lemma ends_undo {A} error (ms : list (op World Error ())) M Q : all_go M ms Q ->
  ends M (undo (A := A) error ms) (fun _ _ => False) (fun e w => e = undone error /\ Q w).
Proof.
  intros Hms. unfold undo. eapply ends_compose.
  - eapply ends_conseq; [..|exact (undo_outcomes ms Q M 0 Hms)]; [done|intros a w Ha; exact Ha|by intros e w []].
  - intros outcomes w [-> HQ]. cbn. unfold rollback_failure. by rewrite failures_none.
Qed.

(** A step whose failure is followed by the rollbacks. *)
Lemma ends_or_undo {A} (m : op World Error A) back p o r Q : all_go (parts p o r) back Q ->
  ends (parts p o r) m (fun _ => parts p o r) (fun _ => parts p o r) ->
  ends (parts p o r) (on_error m (fun error => undo error back)) (fun _ => parts p o r)
    (fun e w => exists error, e = undone error /\ Q w).
Proof.
  intros Hback Hm. eapply ends_on_error; [exact Hm|]. intros e. cbv beta.
  eapply ends_conseq; [..|exact (ends_undo e back _ Q Hback)]; [done|by intros a w []|]. intros e' w [-> HQ]. by exists e.
Qed.

Lemma ends_lift_parts {A} (res : result Error A) p o r :
  ends (parts p o r) (lift res) (fun _ => parts p o r) (fun _ => parts p o r).
Proof. intros w Hw. by destruct res. Qed.

Lemma activate_ends config (ready : Ready P O R) states back p o r Q : all_go (parts p o r) back Q ->
  ends (parts p o r) (activate_restored config ready states back) (fun _ => parts p o r)
    (fun e w => (exists error, e = undone error /\ Q w) \/ (exists m, e = ExternalStateUncertain m) /\ parts p o r w).
Proof.
  intros Hback. pose proof (fun A m => ends_or_undo (A := A) m back p o r Q Hback) as Hstep.
  unfold Reference.activate_restored.
  assert (forall A (m : op World Error A) q, ends (parts p o r) m q (fun e w => exists error, e = undone error /\ Q w) ->
    ends (parts p o r) m q (fun e w => (exists error, e = undone error /\ Q w) \/
      (exists m, e = ExternalStateUncertain m) /\ parts p o r w)) as Hleft.
  { intros A m q Hm. eapply ends_conseq; [..|exact Hm]; [done..|]. intros e w He. by left. }
  eapply ends_compose; [apply Hleft, Hstep, ends_lift_parts|]. intros plan. cbv beta.
  eapply ends_compose; [apply Hleft, Hstep, ends_machine|]. intros artifact. cbv beta.
  eapply (ends_compose _ _ _ (fun _ => parts p o r)).
  { destruct (ArtifactReference.kind_import _); [apply Hleft, Hstep, ends_machine|by apply ends_ret]. }
  intros _. cbv zeta beta. eapply ends_compose; [apply Hleft, Hstep, ends_lift_parts|]. intros signature. cbv beta.
  eapply (ends_compose _ _ _ (fun _ => parts p o r)); [|intros activation; by apply ends_ret].
  eapply ends_on_error; [apply ends_cluster|]. intros e. cbv beta.
  assert (ends (parts p o r) (undo e back) (fun _ : ActivationReceipt => parts p o r)
    (fun e w => (exists error, e = undone error /\ Q w) \/ (exists m, e = ExternalStateUncertain m) /\ parts p o r w)) as Hundo.
  { eapply ends_conseq; [..|exact (ends_undo e back _ Q Hback)]; [done|by intros a w []|]. intros e' w [-> HQ]. left. by exists e. }
  destruct e; try exact Hundo. intros w Hw. right. split; [by eexists|done].
Qed.

(** ** The receipt of a recovery that completes *)

Lemma run_or_undo_Ok {A} (m : op World Error A) (handler : Error -> op World Error A) w a w' :
  on_error m handler w = (Ok a, w') -> (forall e w1, handler e w1 <> (Ok a, w')) -> m w = (Ok a, w').
Proof. unfold on_error. destruct (m w) as [[b|e] w1]; [by intros [= -> ->]|]. intros Hr Hne. by destruct (Hne e w1). Qed.
Lemma undo_not_Ok {A} e (back : list (op World Error ())) w (a : A) w' : undo e back w <> (Ok a, w').
Proof. unfold undo, mbind, op_bind. by destruct (op_for _ _ _ w) as [[] ?]. Qed.
Lemma run_within_Ok {S A} (get : World -> S) set (m : op S Error A) w a w' :
  within get set m w = (Ok a, w') -> exists s', m (get w) = (Ok a, s').
Proof. unfold within. destruct (m (get w)) as [r s1]. intros [= -> _]. by exists s1. Qed.

Lemma activate_facts config (ready : Ready P O R) states back w plan artifact activation w' :
  activate_restored config ready states back w = (Ok (plan, artifact, activation), w') ->
  bind_activation_plan (Ready.recovery ready) (Ready.service_sha256 ready) states = Ok plan /\
  digest (RegistryReceipt.with_binding "" artifact) = Ok (RegistryReceipt.binding_sha256 artifact) /\
  RegistryReceipt.activation_plan_sha256 artifact = ActivationPlan.plan_sha256 plan /\
  ActivationReceipt.plan_sha256 activation = ActivationPlan.plan_sha256 plan /\
  ActivationReceipt.immutable_image activation = RegistryReceipt.immutable_image artifact /\
  ActivationReceipt.service activation = KubernetesReference.service (ReferenceRecoveryConfig.kubernetes config).
Proof.
  unfold Reference.activate_restored. intros Hr. cbv zeta in Hr.
  apply run_bind_Ok in Hr as (plan' & w1 & Hplan & Hr). apply run_bind_Ok in Hr as (artifact' & w2 & Hart & Hr).
  apply run_bind_Ok in Hr as (u & w3 & _ & Hr). apply run_bind_Ok in Hr as (signature & w4 & _ & Hr).
  apply run_bind_Ok in Hr as (activation' & w5 & Hact & Hr). injection Hr as -> -> -> _.
  apply run_or_undo_Ok in Hplan; [|intros; apply undo_not_Ok]. unfold lift in Hplan. injection Hplan as Hplan _.
  apply run_or_undo_Ok in Hart; [|intros; apply undo_not_Ok]. apply run_within_Ok in Hart as (m' & Hart).
  apply published_artifact in Hart as [Hbind Hsha].
  apply run_or_undo_Ok in Hact; [|intros [] ?; solve [apply undo_not_Ok|done]]. apply run_within_Ok in Hact as (k' & Hact).
  apply activated_receipt in Hact as (available & idempotent & ->). by split_and!.
Qed.

(** What is known of the state that a recovery restored. *)
Record state_facts (kind : BackendKind) (snap : StateSnapshot) (target : string) (p : MigrationPlan) (r : RestoreReceipt) : Prop := {
  state_plan : MigrationPlan.target_resource p = target /\ MigrationPlan.backend p = kind;
  state_receipt : exists token, Stateful.receipt snap p token = Ok r /\ (token = "" \/ token = expected_rollback kind target);
}.

Lemma validate_plan_backend snap p : validate_plan snap p = Ok () -> MigrationPlan.backend p = StateSchema.backend (StateSnapshot.schema snap).
Proof. unfold validate_plan. intros Hp. inv_ok. by split_bools. Qed.

Lemma bound_backend snap p b : StatefulSafety.bound (snap, p) b ->
  ActivationStateBinding.backend b = MigrationPlan.backend p /\ ActivationStateBinding.resource b = MigrationPlan.target_resource p.
Proof.
  intros [Hp Hk _ _ _]. cbn [fst snd] in Hp. rewrite (validate_plan_backend _ _ Hp). unfold binding_key, StatefulSafety.identity_of in Hk.
  by injection Hk.
Qed.

Lemma validate_state_Ok l snap p r kind target b :
  b ∈ l -> StatefulSafety.bound (snap, p) b -> state_facts kind snap target p r ->
  (forall b', b' ∈ l -> ActivationStateBinding.backend b' = kind -> b' = b) ->
  validate_state l (kind, target, r) = Ok ().
Proof.
  intros Hin Hb [[Htarget Hkind] (token & Hr & Htoken)] Huniq. destruct (bound_backend _ _ _ Hb) as [Hbk Hres].
  unfold validate_state. assert (List.find (fun b => bool_decide (ActivationStateBinding.backend b = kind)) l = Some b) as ->.
  { destruct (List.find _ l) as [b'|] eqn:Hfind.
    - apply find_some in Hfind as [Hin' Hk%bool_decide_eq_true]. f_equal. apply Huniq; [by apply list_elem_of_In|done].
    - apply find_none with (x := b) in Hfind; [|by apply list_elem_of_In]. apply bool_decide_eq_false in Hfind. congruence. }
  destruct Hb as [_ _ _ Hs Hm]. cbn [fst snd] in Hs, Hm. unfold Stateful.receipt in Hr. rewrite Hs, Hm in Hr. injection Hr as <-.
  cbn [ok_or mbind result_bind RestoreReceipt.backend RestoreReceipt.target_resource RestoreReceipt.snapshot_sha256
       RestoreReceipt.migration_sha256 RestoreReceipt.rollback_token].
  rewrite !bool_decide_eq_true_2 by congruence. cbn [negb orb].
  destruct Htoken as [->|Htoken]; [done|]. rewrite (bool_decide_eq_true_2 _ Htoken). by rewrite andb_false_r.
Qed.

(** Three states of three backends, bound. *)
Lemma states_validated ps pp pr pt ss sp sr st rs rp rr rt bs :
  state_facts PostgreSql ps pt pp pr -> state_facts S3Compatible ss st sp sr -> state_facts RedisStream rs rt rp rr ->
  Forall2 StatefulSafety.bound [(ps, pp); (ss, sp); (rs, rp)] bs ->
  for_each [(PostgreSql, pt, pr); (S3Compatible, st, sr); (RedisStream, rt, rr)] ()
    (fun expected _ => validate_state (sort_by_key binding_key bs) expected) = Ok ().
Proof.
  intros Hp Hs Hr Hbound. repeat (apply Forall2_cons_inv_l in Hbound as (? & ? & ? & Hbound & ->)).
  apply Forall2_nil_inv_l in Hbound as ->. destruct (state_plan _ _ _ _ _ Hp) as [_ Hkp], (state_plan _ _ _ _ _ Hs) as [_ Hks],
    (state_plan _ _ _ _ _ Hr) as [_ Hkr].
  repeat match goal with Hb : StatefulSafety.bound _ _ |- _ => destruct (bound_backend _ _ _ Hb) as [? _]; revert Hb end. intros Hb1 Hb2 Hb3.
  match goal with |- context [sort_by_key _ ?l] => set (bs := l) end.
  pose proof (sort_by_key_perm binding_key bs) as Hperm.
  assert (forall k b, (forall b', b' ∈ bs -> ActivationStateBinding.backend b' = k -> b' = b) ->
    forall b', b' ∈ sort_by_key binding_key bs -> ActivationStateBinding.backend b' = k -> b' = b) as Huniq
    by (intros k b Hu b' Hin; rewrite Hperm in Hin; by apply Hu).
  cbn [for_each].
  rewrite (validate_state_Ok (sort_by_key binding_key bs) ps pp pr PostgreSql pt _ ltac:(rewrite Hperm; left) Hb1 Hp)
    by (apply Huniq; unfold bs; intros b' Hin; rewrite !elem_of_cons, elem_of_nil in Hin; intuition congruence).
  cbn [mbind result_bind].
  rewrite (validate_state_Ok (sort_by_key binding_key bs) ss sp sr S3Compatible st _ ltac:(rewrite Hperm; right; left) Hb2 Hs)
    by (apply Huniq; unfold bs; intros b' Hin; rewrite !elem_of_cons, elem_of_nil in Hin; intuition congruence).
  cbn [mbind result_bind].
  by rewrite (validate_state_Ok (sort_by_key binding_key bs) rs rp rr RedisStream rt _ ltac:(rewrite Hperm; right; right; left) Hb3 Hr)
    by (apply Huniq; unfold bs; intros b' Hin; rewrite !elem_of_cons, elem_of_nil in Hin; intuition congruence).
Qed.

(** What is restored is described by the plans and the receipts. *)
Lemma restored_facts {S} (ad : TransactionalStateAdapter S) kind snap target s p s1 s2 r s3 : describes kind ad ->
  plan S ad snap target s = (Ok p, s1) -> restore S ad snap p s2 = (Ok r, s3) -> state_facts kind snap target p r.
Proof.
  intros Hd Hp Hr. apply (plan_describes _ _ Hd) in Hp as [Htarget Hkind]. apply (restore_describes _ _ Hd) in Hr as (token & Hr & Ht).
  split; [done|]. exists token. by rewrite Htarget in Ht.
Qed.

Lemma restore_facts config bundle (ready : Ready P O R) w receipt w' :
  describes PostgreSql (Ready.postgres ready) -> describes S3Compatible (Ready.s3 ready) ->
  describes RedisStream (Ready.redis ready) -> restore_and_activate config bundle ready w = (Ok receipt, w') ->
  exists pp sp rp pr sr rr plan artifact activation,
    state_facts PostgreSql (ReferenceStateBundle.postgres bundle) (PostgresReference.target_schema (ReferenceRecoveryConfig.postgres config)) pp pr /\
    state_facts S3Compatible (ReferenceStateBundle.s3 bundle) (S3Reference.target_prefix (ReferenceRecoveryConfig.s3 config)) sp sr /\
    state_facts RedisStream (ReferenceStateBundle.redis bundle) (RedisReference.target_stream (ReferenceRecoveryConfig.redis config)) rp rr /\
    (exists back w1 w2, activate_restored config ready
      [(ReferenceStateBundle.postgres bundle, pp); (ReferenceStateBundle.s3 bundle, sp); (ReferenceStateBundle.redis bundle, rp)]
      back w1 = (Ok (plan, artifact, activation), w2)) /\
    seal_receipt config plan pr sr rr artifact activation = Ok receipt.
Proof.
  intros Hdp Hds Hdr. unfold Reference.restore_and_activate. intros Hr. cbv zeta in Hr.
  apply run_bind_Ok in Hr as (pp & w1 & Hpp & Hr). apply run_bind_Ok in Hr as (sp & w2 & Hsp & Hr).
  apply run_bind_Ok in Hr as (rp & w3 & Hrp & Hr). apply run_bind_Ok in Hr as (pr & w4 & Hpr & Hr).
  apply run_bind_Ok in Hr as (sr & w5 & Hsr & Hr). apply run_bind_Ok in Hr as (rr & w6 & Hrr & Hr).
  apply run_bind_Ok in Hr as ([[plan artifact] activation] & w7 & Hact & Hr). unfold lift in Hr. injection Hr as Hr _.
  apply run_or_undo_Ok in Hsr; [|intros; apply undo_not_Ok]. apply run_or_undo_Ok in Hrr; [|intros; apply undo_not_Ok].
  apply run_within_Ok in Hpp as (? & Hpp), Hsp as (? & Hsp), Hrp as (? & Hrp), Hpr as (? & Hpr), Hsr as (? & Hsr), Hrr as (? & Hrr).
  exists pp, sp, rp, pr, sr, rr, plan, artifact, activation.
  split; [exact (restored_facts _ _ _ _ _ _ _ _ _ _ Hdp Hpp Hpr)|]. split; [exact (restored_facts _ _ _ _ _ _ _ _ _ _ Hds Hsp Hsr)|].
  split; [exact (restored_facts _ _ _ _ _ _ _ _ _ _ Hdr Hrp Hrr)|]. split; [by eexists _, _, _|done].
Qed.

(** The receipt is accepted. *)
Lemma receipt_accepted `{!Sha256Laws, !HexLaws} config bundle (ready : Ready P O R) w receipt w' :
  validate_config config = Ok () ->
  describes PostgreSql (Ready.postgres ready) -> describes S3Compatible (Ready.s3 ready) ->
  describes RedisStream (Ready.redis ready) -> restore_and_activate config bundle ready w = (Ok receipt, w') ->
  bound_receipt config receipt = Ok ().
Proof.
  intros Hconfig Hdp Hds Hdr Hr.
  destruct (restore_facts _ _ _ _ _ _ Hdp Hds Hdr Hr) as (pp & sp & rp & pr & sr & rr & plan & artifact & activation &
    Hp & Hs & Hrd & (back & w1 & w2 & Hact) & Hseal). clear Hr.
  apply activate_facts in Hact as (Hplan & Hart & Hartp & Hactp & Himg & Hsvc).
  apply StatefulSafety.bind_plan_Ok in Hplan as (candidate & l & certificate & v & bs & dc & dk & d & _ & Hm & _ & _ & Hnil & Hn & Hf &
    Hnd & Hc & Hk & Hd & Hplan).
  pose proof (StatefulSafety.plan_accepted _ _ _ _ _ _ Hf Hnd Hnil Hn (require_digest_digest _ _ Hc) (require_digest_digest _ _ Hk) Hm Hd) as Hvalid.
  cbv zeta in Hvalid. rewrite <- Hplan in Hvalid. pose proof (states_validated _ _ _ _ _ _ _ _ _ _ _ _ _ Hp Hs Hrd Hf) as Hstates.
  apply (f_equal ActivationPlan.states) in Hplan. cbn [ActivationPlan.with_digest ActivationPlan.states] in Hplan.
  unfold seal_receipt in Hseal. apply bind_Ok in Hseal as (dcfg & Hcfg & Hseal). cbv zeta in Hseal.
  apply bind_Ok in Hseal as (dr & Hdr' & Hseal). injection Hseal as <-.
  assert (str_is_empty dr = false) as Hne.
  { apply digest_bytes in Hdr' as (bytes & _ & ->). destruct (bytes_digest_hex bytes) as [Hl _]. unfold str_is_empty. by rewrite Hl. }
  unfold bound_receipt. rewrite Hconfig. cbn [mbind result_bind]. unfold validate_receipt, validate_receipt_integrity, expected_states.
  unfold ReferenceRecoveryReceipt.with_digest.
  cbn [ReferenceRecoveryReceipt.version ReferenceRecoveryReceipt.config_sha256 ReferenceRecoveryReceipt.activation_plan
       ReferenceRecoveryReceipt.postgres ReferenceRecoveryReceipt.s3 ReferenceRecoveryReceipt.redis ReferenceRecoveryReceipt.artifact
       ReferenceRecoveryReceipt.activation ReferenceRecoveryReceipt.receipt_sha256].
  rewrite Hne, Hdr'. rewrite (bool_decide_eq_true_2 ("reference-recovery-receipt-v1" = _)) by done. cbn [negb orb mbind result_bind].
  rewrite bool_decide_eq_true_2 by done. cbn [negb]. rewrite Hvalid. cbn [mbind result_bind]. rewrite Hart. cbn [mbind result_bind].
  rewrite !bool_decide_eq_true_2 by congruence. cbn [negb orb mbind result_bind]. rewrite Hplan, Hstates. cbn [mbind result_bind].
  rewrite Hcfg. cbn [mbind result_bind]. by rewrite bool_decide_eq_true_2.
Qed.

(** ** What the backends have *)

Section Views.
Context {VP VO VR : Type} (lookp : P -> VP) (looko : O -> VO) (lookr : R -> VR) (vp : VP) (vo : VO) (vr : VR).

Definition held : World -> Prop := parts (fun s => lookp s = vp) (fun s => looko s = vo) (fun s => lookr s = vr).

Section Undo.
Variables (postgres : TransactionalStateAdapter P) (s3 : TransactionalStateAdapter O) (redis : TransactionalStateAdapter R).

(** Everything is restored, and the receipts undo it. *)
Definition restored (rp ro rr : RestoreReceipt) : World -> Prop :=
  parts (undone_by lookp postgres rp vp) (undone_by looko s3 ro vo) (undone_by lookr redis rr vr).

Lemma undone_ends {S V} (look : S -> V) ad r v :
  ends (undone_by look ad r v) (rollback S ad r) (fun _ s => look s = v) (fun _ _ => False).
Proof. intros s Hs. by destruct (Hs s eq_refl) as (s' & -> & Hv). Qed.

Lemma back_postgres rp o r : all_go (parts (undone_by lookp postgres rp vp) o r) [on_postgres (rollback _ postgres rp)]
  (parts (fun s => lookp s = vp) o r).
Proof.
  cbn [all_go]. eexists. split; [|done]. eapply ends_conseq; [..|apply ends_postgres, (undone_ends lookp)]; [done|done|].
  by intros e w (? & _).
Qed.
Lemma back_objects rp ro r : all_go (parts (undone_by lookp postgres rp vp) (undone_by looko s3 ro vo) r)
  [on_objects (rollback _ s3 ro); on_postgres (rollback _ postgres rp)]
  (parts (fun s => lookp s = vp) (fun s => looko s = vo) r).
Proof.
  cbn [all_go]. eexists. split; [|apply (back_postgres rp (fun s => looko s = vo) r)].
  eapply ends_conseq; [..|apply ends_objects, (undone_ends looko)]; [done|done|]. by intros e w (_ & ? & _).
Qed.
Lemma back_streams rp ro rr : all_go (restored rp ro rr)
  [on_streams (rollback _ redis rr); on_objects (rollback _ s3 ro); on_postgres (rollback _ postgres rp)] held.
Proof.
  cbn [all_go]. eexists. split; [|apply (back_objects rp ro (fun s => lookr s = vr))].
  eapply ends_conseq; [..|apply ends_streams, (undone_ends lookr)]; [done|done|]. by intros e w (_ & _ & ?).
Qed.
End Undo.

(** How a recovery can end without a receipt while what was restored stays. *)
Definition unsealed_end config rp ro rr (e : Error) : Prop :=
  (exists m, e = ExternalStateUncertain m) \/
  exists plan artifact activation, seal_receipt config plan rp ro rr artifact activation = Err e.

Lemma restore_ends config bundle (ready : Ready P O R) :
  undoable lookp (Ready.postgres ready) vp -> undoable looko (Ready.s3 ready) vo -> undoable lookr (Ready.redis ready) vr ->
  let restored := restored (Ready.postgres ready) (Ready.s3 ready) (Ready.redis ready) in
  ends held (restore_and_activate config bundle ready)
    (fun receipt => restored (ReferenceRecoveryReceipt.postgres receipt) (ReferenceRecoveryReceipt.s3 receipt)
                             (ReferenceRecoveryReceipt.redis receipt))
    (fun e w => held w \/ exists rp ro rr, restored rp ro rr w /\ unsealed_end config rp ro rr e).
Proof.
  intros Hp Ho Hr restored'. unfold Reference.restore_and_activate. cbv zeta.
  eapply ends_compose; [eapply ends_conseq; [..|apply ends_postgres, (plan_reads _ _ _ Hp)]; [done|done|by left]|]. intros pp. cbv beta.
  eapply ends_compose; [eapply ends_conseq; [..|apply ends_objects, (plan_reads _ _ _ Ho)]; [done|done|by left]|]. intros op_. cbv beta.
  eapply ends_compose; [eapply ends_conseq; [..|apply ends_streams, (plan_reads _ _ _ Hr)]; [done|done|by left]|]. intros rp_. cbv beta.
  eapply ends_compose; [eapply ends_conseq; [..|apply ends_postgres, (restore_undoable _ _ _ Hp)]; [done|done|by left]|].
  intros rp. cbv beta. eapply ends_compose.
  { eapply ends_on_error; [apply ends_objects, (restore_undoable _ _ _ Ho)|]. intros e. cbv beta.
    eapply ends_conseq; [..|apply ends_undo, back_postgres]; [done|by intros a w []|]. intros e' w [_ Hw]. by left. }
  intros ro. cbv beta. eapply ends_compose.
  { eapply ends_on_error; [apply ends_streams, (restore_undoable _ _ _ Hr)|]. intros e. cbv beta.
    eapply ends_conseq; [..|apply ends_undo, back_objects]; [done|by intros a w []|]. intros e' w [_ Hw]. by left. }
  intros rr. cbv beta. eapply ends_compose.
  { eapply ends_conseq; [..|eapply activate_ends, back_streams]; [done|intros a w Hw; exact Hw|].
    intros e w [(e0 & _ & Hw)|[Hm Hw]]; [by left|]. right. exists rp, ro, rr. split; [done|by left]. }
  intros [[plan artifact] activation]. cbv beta. intros w Hw. unfold lift.
  destruct (seal_receipt config plan rp ro rr artifact activation) as [receipt|e] eqn:Hseal.
  - unfold seal_receipt in Hseal. inv_ok. by injection Hseal as <-.
  - right. exists rp, ro, rr. split; [done|]. right. by exists plan, artifact, activation.
Qed.

(** ** A recovery that fails *)

Abbreviation postgres_adapter := (postgres_adapter file_at).
Abbreviation s3_adapter := (s3_adapter file_at).
Abbreviation redis_adapter := (redis_adapter file_at).

Lemma ready_adapters config bundle rd : ready file_at workspace_at config bundle = Ok rd ->
  postgres_adapter config = Ok (Ready.postgres rd) /\ s3_adapter config = Ok (Ready.s3 rd) /\
  redis_adapter config = Ok (Ready.redis rd).
Proof.
  unfold ready. intros Hr. inv_ok. unfold fails, map_err in Hr. destruct (_ ← _; _) as [rd'|] eqn:Hrd in Hr; [|done].
  injection Hr as ->. inv_ok. by injection Hrd as <-.
Qed.

Lemma adapters_undoable config postgres s3 redis : undoing c lookp looko lookr vp vo vr ->
  postgres_adapter config = Ok postgres -> s3_adapter config = Ok s3 -> redis_adapter config = Ok redis ->
  undoable lookp postgres vp /\ undoable looko s3 vo /\ undoable lookr redis vr.
Proof.
  intros Hu Hp Hs Hr. unfold Reference.postgres_adapter in Hp. apply bind_Ok in Hp as (connection & _ & Hp).
  unfold Reference.s3_adapter in Hs. apply bind_Ok in Hs as (token & _ & Hs). apply bind_Ok in Hs as (access & _ & Hs).
  apply bind_Ok in Hs as (secret & _ & Hs). apply bind_Ok in Hr as (url & _ & Hr). split_and!.
  - destruct (PostgresReference.tls_ca_file _); [apply bind_Ok in Hp as (ca & _ & Hp)|].
    + by eapply postgres_tls_undoable.
    + by eapply postgres_undoable.
  - by eapply s3_undoable.
  - by eapply redis_undoable.
Qed.


(** ** A recovery that completes *)

Lemma adapters_described config postgres s3 redis : describing c ->
  postgres_adapter config = Ok postgres -> s3_adapter config = Ok s3 -> redis_adapter config = Ok redis ->
  describes PostgreSql postgres /\ describes S3Compatible s3 /\ describes RedisStream redis.
Proof.
  intros Hd Hp Hs Hr. unfold Reference.postgres_adapter in Hp. apply bind_Ok in Hp as (connection & _ & Hp).
  unfold Reference.s3_adapter in Hs. apply bind_Ok in Hs as (token & _ & Hs). apply bind_Ok in Hs as (access & _ & Hs).
  apply bind_Ok in Hs as (secret & _ & Hs). apply bind_Ok in Hr as (url & _ & Hr). split_and!.
  - destruct (PostgresReference.tls_ca_file _); [apply bind_Ok in Hp as (ca & _ & Hp)|].
    + by eapply postgres_tls_described.
    + by eapply postgres_described.
  - by eapply s3_described.
  - by eapply redis_described.
Qed.

Lemma ready_config config bundle rd : ready file_at workspace_at config bundle = Ok rd ->
  validate_config config = Ok () /\ exists orchestrator, reference_orchestrator config = Ok orchestrator.
Proof.
  unfold ready. intros Hr. apply bind_Ok in Hr as ([] & Hconfig & Hr). unfold fails, map_err in Hconfig.
  destruct (validate_config config) as [[]|]; [|done]. split; [done|]. inv_ok.
  unfold fails, map_err in Hr. destruct (_ ← _; _) as [rd'|] eqn:Hrd in Hr; [|done]. inv_ok. unfold reference_orchestrator.
  match goal with Hn : Kubernetes.new _ _ = Ok _ |- _ => unfold Kubernetes.new in Hn; apply bind_Ok in Hn as (u & Hname & _) end.
  unfold Kubernetes.new. rewrite Hname. by eexists.
Qed.

(** The rollbacks of [rollback_recovery] are those of a failed recovery. *)
Lemma recovery_rollback_runs config postgres s3 redis receipt orchestrator w t :
  bound_receipt config receipt = Ok () -> reference_orchestrator config = Ok orchestrator ->
  postgres_adapter config = Ok postgres -> s3_adapter config = Ok s3 -> redis_adapter config = Ok redis ->
  restored postgres s3 redis (ReferenceRecoveryReceipt.postgres receipt) (ReferenceRecoveryReceipt.s3 receipt)
           (ReferenceRecoveryReceipt.redis receipt) w ->
  lookp (World.postgres t) = lookp (World.postgres w) -> looko (World.objects t) = looko (World.objects w) ->
  lookr (World.streams t) = lookr (World.streams w) ->
  match Kubernetes.rollback orchestrator (KubernetesReference.namespace (ReferenceRecoveryConfig.kubernetes config))
          (KubernetesReference.service (ReferenceRecoveryConfig.kubernetes config)) (World.cluster t) with
  | (Ok _, k) => exists t', rollback_recovery file_at config receipt t = (Ok (), t') /\ held t' /\ World.cluster t' = k
  | (Err e, k) => rollback_recovery file_at config receipt t = (Err e, set_cluster k t)
  end.
Proof.
  intros Hb Ho Hp Hs Hr (Hrp & Hro & Hrr) Hvp Hvo Hvr. unfold rollback_recovery.
  rewrite (run_bind_lift _ _ _ _ Hb), (run_bind_lift _ _ _ _ Ho).
  destruct (Kubernetes.rollback _ _ _ _) as [[u|e] k] eqn:Hk.
  2:{ apply run_bind_Err. unfold on_cluster, within. by rewrite Hk. }
  erewrite (run_bind _ _ _ u (set_cluster k t)) by (unfold on_cluster, within; by rewrite Hk).
  rewrite (run_bind_lift _ _ _ _ Hp), (run_bind_lift _ _ _ _ Hs), (run_bind_lift _ _ _ _ Hr).
  destruct (Hrr _ Hvr) as (sr & Hsr & Hvsr). destruct (Hro _ Hvo) as (so & Hso & Hvso). destruct (Hrp _ Hvp) as (sp & Hsp & Hvsp).
  set (t0 := set_cluster k t). set (t1 := set_streams sr t0). set (t2 := set_objects so t1). exists (set_postgres sp t2).
  rewrite (run_bind _ _ t0 (Ok ()) t1) by (unfold outcome, on_streams, within; cbn [World.streams set_cluster t0]; by rewrite Hsr).
  rewrite (run_bind _ _ t1 (Ok ()) t2) by (unfold outcome, on_objects, within; cbn [World.objects set_streams set_cluster t0 t1]; by rewrite Hso).
  rewrite (run_bind _ _ t2 (Ok ()) (set_postgres sp t2)) by
    (unfold outcome, on_postgres, within; cbn [World.postgres set_objects set_streams set_cluster t0 t1 t2]; by rewrite Hsp).
  split; [done|]. by split_and!.
Qed.


(** ** Committing *)

(** Nothing is retired, in a backend or in the cluster, unless all three backends verify
    what was restored. *)
Theorem commit_checks_first config receipt postgres s3 redis w r w' :
  let rp := ReferenceRecoveryReceipt.postgres receipt in
  let ro := ReferenceRecoveryReceipt.s3 receipt in
  let rr := ReferenceRecoveryReceipt.redis receipt in
  postgres_adapter config = Ok postgres -> s3_adapter config = Ok s3 -> redis_adapter config = Ok redis ->
  ends (fun s => lookp s = vp) (verify_receipt P postgres rp) (fun _ s => lookp s = vp) (fun _ s => lookp s = vp) ->
  ends (fun s => looko s = vo) (verify_receipt O s3 ro) (fun _ s => looko s = vo) (fun _ s => looko s = vo) ->
  ends (fun s => lookr s = vr) (verify_receipt R redis rr) (fun _ s => lookr s = vr) (fun _ s => lookr s = vr) ->
  held w -> commit_recovery file_at config receipt w = (r, w') ->
  (exists e, r = Err e /\ held w' /\ World.cluster w' = World.cluster w) \/
  ((verify_receipt P postgres rp (World.postgres w)).1 = Ok () /\ (verify_receipt O s3 ro (World.objects w)).1 = Ok () /\
   (verify_receipt R redis rr (World.streams w)).1 = Ok ()).
Proof.
  intros rp ro rr Hp Hs Hr Hvp Hvo Hvr (Hwp & Hwo & Hwr). unfold commit_recovery. intros Hrun.
  destruct (bound_receipt config receipt) as [[]|e];
    [|change ((Err e, w) = (r, w')) in Hrun; injection Hrun as <- <-; left; by exists e].
  rewrite (run_bind_lift _ _ _ _ eq_refl), (run_bind_lift _ _ _ _ Hp), (run_bind_lift _ _ _ _ Hs), (run_bind_lift _ _ _ _ Hr) in Hrun.
  specialize (Hvp _ Hwp). specialize (Hvo _ Hwo). specialize (Hvr _ Hwr). fold rp in Hrun. fold ro in Hrun. fold rr in Hrun.
  assert (forall S A B get set (m : op S Error A) (k : A -> op World Error B) w1, (within get set m ≫= k) w1 =
    match m (get w1) with (Ok a, s) => k a (set s w1) | (Err e, s) => (Err e, set s w1) end) as Hwithin.
  { intros S A B get set m k w1. unfold mbind, op_bind, within. by destruct (m (get w1)) as [[] ?]. }
  unfold on_postgres, on_objects, on_streams in Hrun. rewrite Hwithin in Hrun.
  destruct (verify_receipt P postgres rp (World.postgres w)) as [[[]|e] sp]; [|injection Hrun as <- <-; left; exists e; by split_and!].
  rewrite Hwithin in Hrun. cbn [World.objects set_postgres] in Hrun.
  destruct (verify_receipt O s3 ro (World.objects w)) as [[[]|e] so]; [|injection Hrun as <- <-; left; exists e; by split_and!].
  rewrite Hwithin in Hrun. cbn [World.streams set_objects set_postgres] in Hrun.
  destruct (verify_receipt R redis rr (World.streams w)) as [[[]|e] sr]; [|injection Hrun as <- <-; left; exists e; by split_and!].
  by right.
Qed.
End Views.
End Workflow.

(** * Witnesses *)

Module ReferenceWitness.
#[local] Existing Instances Toy.sha Toy.sha_laws Toy.hexi Toy.hex_laws Toy.hmac Toy.ed Toy.jiff.
#[local] Existing Instances Sandbox.ToyWasm.encoder Sandbox.ToyWasm.wasmi.
#[local] Existing Instances Protocol.ProtocolWitness.error_text Protocol.ProtocolWitness.text.
#[local] Existing Instances Protocol.ProtocolWitness.serialise_content Protocol.ProtocolWitness.serialise_unsigned.
#[local] Existing Instances Protocol.ProtocolWitness.serialise_envelope Protocol.ProtocolWitness.serialise_candidate.
#[local] Existing Instances Protocol.ProtocolWitness.serialise_contents.
#[local] Instance os_errors : OsErrorText := {| not_found := "not found"; already_exists := "exists" |}.
#[local] Instance texts : ActivationErrorText :=
  {| int_error := "int"; time_error := "time"; key_error := "key"; hex_error := "hex" |}.

(** What the types are written as. *)
#[local] Instance serialise_schema : ToValue StateSchema := fun s => Some (String (StateSchema.resource s)).
#[local] Instance serialise_items : ToValue (list StateItem) := fun _ => Some (String "items").
#[local] Instance serialise_snapshot : ToValue StateSnapshot := fun s => Some (String (StateSchema.resource (StateSnapshot.schema s))).
#[local] Instance serialise_migration : ToValue MigrationPlan := fun p => Some (String (MigrationPlan.target_resource p)).
#[local] Instance serialise_certificate : ToValue Protocol.Certificate := fun c =>
  Some (Object [("service_manifest_digest", from_option String Null (Protocol.service_manifest_digest c))]).
#[local] Instance serialise_plan : ToValue ActivationPlan := fun p => Some (String (ActivationPlan.candidate_sha256 p)).
#[local] Instance serialise_artifact : ToValue RegistryReceipt := fun r => Some (String (RegistryReceipt.immutable_image r)).
#[local] Instance serialise_approval : ToValue ApprovalPayload := fun p => Some (String (ApprovalPayload.plan_sha256 p)).
#[local] Instance serialise_manifest : ToValue Service.ServiceManifest := fun m => Some (String (Service.component m)).
#[local] Instance serialise_config : ToValue Config := fun x => Some (String (ReferenceRecoveryConfig.workspace x)).
#[local] Instance serialise_bundle : ToValue Bundle := fun b => Some (String (ReferenceStateBundle.service_manifest_sha256 b)).
#[local] Instance serialise_receipt : ToValue Receipt := fun r => Some (String (ReferenceRecoveryReceipt.config_sha256 r)).
#[local] Instance itself : ToValue json := fun v => Some v.

Definition sha_of (n : Z) : string := hex_encode (sha256 [n]).

(** The service, its recovery and the operator's key. *)
Definition service : Service.ServiceManifest := {|
  Service.version := "service-v1"; Service.component := "door"; Service.interface_version := "1";
  Service.http := {| Service.endpoints := [{| Service.method := Service.Get; Service.path := "/open";
    Service.request_schema_sha256 := sha_of 1; Service.response_schema_sha256 := sha_of 2 |}] |};
  Service.effects := []; Service.state_dependencies := [];
  Service.limits := {| Service.request_bytes := 1024; Service.response_bytes := 1024; Service.wall_time_ms := 1000;
                       Service.concurrent_requests := 1 |};
|}.
Definition workspace : Protocol.Workspace :=
  let w := Protocol.ProtocolWitness.workspace in
  let r := Protocol.ProtocolWitness.registry in
  {| Protocol.read_registry := Ok (Protocol.Registry.Build_Registry (Protocol.Registry.component r)
       (Protocol.Registry.interface_version r) (Protocol.Registry.grammar r) (Protocol.Registry.required_domains r)
       (Protocol.Registry.trusted_issuers r) (Protocol.Registry.loss_oracle r) (Protocol.Registry.resource_limits r)
       (Protocol.Registry.experiment r) (Protocol.Registry.evidence_window r) (Some service));
     Protocol.read_fragments := Protocol.read_fragments w; Protocol.attest_absence := Protocol.attest_absence w |}.
Definition key : Fragments.SigningKeyFile.SigningKeyFile := {|
  Fragments.SigningKeyFile.version := "ed25519-key-v1"; Fragments.SigningKeyFile.key_id := "ops";
  Fragments.SigningKeyFile.secret_key_hex := hex_encode (replicate 32 9);
  Fragments.SigningKeyFile.public_key_hex := hex_encode (ed_public (replicate 32 9));
  Fragments.SigningKeyFile.created_at := "2026" |}.
#[local] Instance read_manifest : FromSlice Service.ServiceManifest := fun _ => Some service.
#[local] Instance read_key : FromSlice Fragments.SigningKeyFile.SigningKeyFile := fun _ => Some key.
#[local] Instance read_names : FromSlice (list string) := fun bytes => Some [string_of_bytes bytes].
Definition file_at (path : string) : option Item :=
  if bool_decide (path = "/c/secret") then Some (Lifecycle.PlainFile 384 (bytes_of_string "secret")) else
  if bool_decide (path = "/c/service.json") || bool_decide (path = "/c/key") then Some (Lifecycle.PlainFile 384 [1]) else None.

(** A backend is the list of what it had, newest first. *)
Definition toy (kind : BackendKind) : TransactionalStateAdapter (list string) := {|
  discover := fail (invalid "not asked"); snapshot := fail (invalid "not asked");
  plan := fun snap target => lift (Ok {|
    MigrationPlan.version := "state-migration-v1"; MigrationPlan.backend := kind;
    MigrationPlan.source_schema_sha256 := StateSnapshot.schema_sha256 snap; MigrationPlan.target_resource := target;
    MigrationPlan.operations := ["push"]; MigrationPlan.rollback_strategy := "pop" |});
  restore := fun snap p s =>
    match Stateful.receipt snap p (expected_rollback kind (MigrationPlan.target_resource p)) with
    | Ok r => (Ok r, StateSchema.resource (StateSnapshot.schema snap) :: s)
    | Err e => (Err e, s)
    end;
  verify := fun _ _ => mret (); rollback := fun _ s => (Ok (), tail s); verify_receipt := fun _ => mret (); commit := fun _ => mret ();
|}.
#[local] Instance connections : Connections (list string) (list string) (list string) := {|
  connect_postgres _ _ := Ok (toy PostgreSql); connect_postgres_tls _ _ _ := Ok (toy PostgreSql);
  connect_s3 _ _ _ _ _ _ _ := Ok (toy S3Compatible); connect_redis _ _ := Ok (toy RedisStream);
|}.
Lemma toy_undoable kind v : undoable (fun s => s) (toy kind) v.
Proof.
  split; [by intros snap target s ->|]. intros snap p s ->. cbn [restore toy].
  destruct (Stateful.receipt snap p _) as [r|e]; [|done]. intros t ->. by eexists.
Qed.
Lemma toy_describes kind : describes kind (toy kind).
Proof.
  split; cbn [plan restore toy]; [by intros snap target s p s' [= <- _]|]. intros snap p s r s' Hr.
  destruct (Stateful.receipt snap p _) as [r'|e] eqn:Hreceipt; [|done]. injection Hr as <- _.
  eexists. split; [exact Hreceipt|by right].
Qed.
Lemma undoing_toy vp vo vr : undoing connections (fun s => s) (fun s => s) (fun s => s) vp vo vr.
Proof. split; intros * [= <-]; apply toy_undoable. Qed.
Lemma describing_toy : describing connections.
Proof. split; intros * [= <-]; apply toy_describes. Qed.

(** A daemon that keeps the labels of the last commit, and a cluster where the service
    runs another plan, whose rollouts succeed or not. *)
Definition said (text : string) : Output := {| Output.success := true; Output.stdout := bytes_of_string text; Output.stderr := [] |}.
Definition failed : Output := {| Output.success := false; Output.stdout := []; Output.stderr := [] |}.
#[local] Instance docker : Docker (string * string) := {|
  docker_command args d :=
    match args with
    | ["image"; "inspect"; _] => (Ok failed, d)
    | ["image"; "inspect"; _; template; _] =>
        (Ok (said (if bool_decide (template = label_template "anasemble.plan") then d.1 else
                   if bool_decide (template = label_template "anasemble.candidate") then d.2 else
                   "registry/app@sha256:" +:+ sha_of 3)), d)
    | ["commit"; _; plan; _; candidate; _; _] =>
        (Ok (said ""), (from_option id "" (strip_prefix "LABEL anasemble.plan=" plan),
                        from_option id "" (strip_prefix "LABEL anasemble.candidate=" candidate)))
    | _ => (Ok (said ""), d)
    end;
  instant_now _ := 0; thread_sleep _ d := d;
|}.
#[local] Instance pipe : ArtifactRegistry.DockerPipe (string * string) := fun _ _ d => (Ok (failed, false), d).
#[local] Instance read_object : FromSlice json := fun _ => Some (Kubernetes.obj [("metadata", Kubernetes.obj
  [("annotations", Kubernetes.obj [("anasemble.active-plan", String (sha_of 5)); ("anasemble.rollback-plan", String (sha_of 6))])])]).
#[local] Instance kubectl : Kubernetes.Kubectl bool := fun args _ rolls =>
  (Ok (if contains "rollout" args && negb rolls then failed else
       if contains "get" args && contains "service" args then said "x" else said ""), rolls).

(** A configuration and a bundle. *)
Definition config : Config := {|
  ReferenceRecoveryConfig.version := "reference-recovery-config-v1"; ReferenceRecoveryConfig.workspace := "/w";
  ReferenceRecoveryConfig.service_manifest := "/c/service.json";
  ReferenceRecoveryConfig.postgres := {| PostgresReference.connection_file := "/c/secret"; PostgresReference.tls_ca_file := None;
    PostgresReference.source_schema := "app"; PostgresReference.target_schema := "app_next" |};
  ReferenceRecoveryConfig.s3 := {| S3Reference.endpoint := "https://store"; S3Reference.region := "r"; S3Reference.bucket := "b";
    S3Reference.access_key_file := "/c/secret"; S3Reference.secret_key_file := "/c/secret"; S3Reference.session_token_file := None;
    S3Reference.source_prefix := "app/"; S3Reference.target_prefix := "next/" |};
  ReferenceRecoveryConfig.redis := {| RedisReference.url_file := "/c/secret"; RedisReference.source_stream := "app";
    RedisReference.target_stream := "next" |};
  ReferenceRecoveryConfig.artifact := {| ArtifactReference.base_image := "base@sha256:" +:+ sha_of 4;
    ArtifactReference.local_image := "app"; ArtifactReference.registry_endpoint := "registry"; ArtifactReference.repository := "app";
    ArtifactReference.tag := "next"; ArtifactReference.kind_import := None |};
  ReferenceRecoveryConfig.kubernetes := {| KubernetesReference.context := "prod"; KubernetesReference.namespace := "shop";
    KubernetesReference.service := "orders"; KubernetesReference.command := ["serve"]; KubernetesReference.health_command := ["true"];
    KubernetesReference.health_attempts := 3; KubernetesReference.health_interval_ms := 10; KubernetesReference.service_port := 80;
    KubernetesReference.container_port := 8080; KubernetesReference.secrets := [] |};
  ReferenceRecoveryConfig.operator := {| OperatorReference.signing_key := "/c/key"; OperatorReference.not_before := "10";
    OperatorReference.not_after := "30"; OperatorReference.approved_at := "20" |};
  ReferenceRecoveryConfig.isolation := {|
    IsolationPolicy.cpu_millis := 500; IsolationPolicy.memory_bytes := 33554432; IsolationPolicy.pids := 32;
    IsolationPolicy.wall_time_ms := 1000; IsolationPolicy.output_bytes := 1024; IsolationPolicy.writable_tmpfs_bytes := 1048576;
    IsolationPolicy.linux_capabilities := []; IsolationPolicy.network_egress_allowlist := [] |};
|}.
Definition copy_of (backend : BackendKind) (resource : string) : StateSnapshot :=
  let s := unsealed {| StateSchema.backend := backend; StateSchema.resource := resource; StateSchema.definition := "{}";
                       StateSchema.invariants := [] |} "copied" [] in
  match seal_snapshot s with Ok s => s | Err _ => s end.
Definition unsealed_bundle : Bundle := {|
  ReferenceStateBundle.version := "reference-state-bundle-v1";
  ReferenceStateBundle.service_manifest_sha256 := match digest service with Ok d => d | Err _ => "" end;
  ReferenceStateBundle.postgres := copy_of PostgreSql "app"; ReferenceStateBundle.s3 := copy_of S3Compatible "app/";
  ReferenceStateBundle.redis := copy_of RedisStream "app"; ReferenceStateBundle.bundle_sha256 := "" |}.
Definition bundle : Bundle :=
  ReferenceStateBundle.with_digest (match digest unsealed_bundle with Ok d => d | Err _ => "" end) unsealed_bundle.
Definition before (rolls : bool) : World.World (list string) (list string) (list string) (string * string) bool :=
  World.Build_World _ _ _ _ _ ["rows"] ["objects"] ["entries"] (Build_Machine ("", "") ∅) rolls.
Definition recover (rolls : bool) := recover_and_activate file_at (fun _ => workspace) "/tmp" 7 1 2 config bundle (before rolls).

Lemma completes : exists receipt w', recover true = (Ok receipt, w').
Proof. eexists _, _. vm_compute. reflexivity. Qed.
Lemma fails_to_roll_out : exists e w', recover false = (Err e, w').
Proof. eexists _, _. vm_compute. reflexivity. Qed.


(** The roll-out fails: all three backends have what they had. *)
Example rolled_back_on_failure : exists e w', recover false = (Err e, w') /\
  World.postgres w' = ["rows"] /\ World.objects w' = ["objects"] /\ World.streams w' = ["entries"].
Proof. eexists _, _. split; [vm_compute; reflexivity|by vm_compute]. Qed.
Example restored_on_success : exists receipt w', recover true = (Ok receipt, w') /\
  World.postgres w' = ["app"; "rows"] /\ World.objects w' = ["app/"; "objects"] /\ World.streams w' = ["app"; "entries"].
Proof. eexists _, _. split; [vm_compute; reflexivity|by vm_compute]. Qed.

Lemma orchestrated orchestrator : reference_orchestrator config = Ok orchestrator ->
  (Kubernetes.rollback orchestrator "shop" "orders" true).1 = Ok ().
Proof. intros [= <-]. vm_compute. reflexivity. Qed.
Lemma cluster_stays : World.cluster (recover true).2 = true.
Proof. vm_compute. reflexivity. Qed.

End ReferenceWitness.
