(* ===== verification/SandboxTime.v ===== *)
(** src/activation.rs, the sandbox in time: [DockerSandbox::run] ends within its wall time,
    on a clock that does not go back and that a sleep moves on. *)
From stdpp Require Import pretty.
From S2P Require Import Prelude Effects External Json Core Model Canonical Text Activation.

Class ClockLaws (D : Type) `{Docker D} : Prop := {
  clock_runs : forall args d, instant_now d <= instant_now (docker_command args d).2;
  clock_sleeps : forall n d, instant_now d + n <= instant_now (thread_sleep n d);
}.

Section Time.
Context {D : Type} `{Docker D, !ClockLaws D, ActivationErrorText}.
Context `{SerdeErrorText, JsonText, Sha256, Hex, !ToValue IsolationPolicy}.
Abbreviation act A := (op (Machine D) Error A).

(** No earlier than [t]. *)
Definition from_time (t : Z) (m : Machine D) : Prop := t <= instant_now (daemon m).

Lemma keeps_output t args : keeps (from_time t) (docker_output args : act Output).
Proof.
  intros m Hm. unfold docker_output. pose proof (clock_runs args (daemon m)) as Hc.
  destruct (docker_command args (daemon m)) as [r d]. cbn [snd] in Hc. unfold from_time in *.
  destruct r; cbn [map_err daemon]; lia.
Qed.
Hint Resolve keeps_output : keeps.

Lemma keeps_raw t args : keeps (from_time t) (docker_raw args : act Output).
Proof. unfold docker_raw. keeps_steps. Qed.
Hint Resolve keeps_raw : keeps.
Lemma keeps_text t args : keeps (from_time t) (docker_text args : act string).
Proof. unfold docker_text, docker_bytes. keeps_steps. Qed.
Hint Resolve keeps_text : keeps.
Lemma keeps_inspect t name template : keeps (from_time t) (inspect_bool name template : act bool).
Proof. unfold inspect_bool. keeps_steps. Qed.

(** A triple of which only the result matters. *)
Definition ends {A} (P : Machine D -> Prop) (p : act (option A)) : Prop :=
  triple P p (fun r _ => r <> None) (fun _ => True).

Lemma ends_bind {A B} P Q (p : act A) (k : A -> act (option B)) :
  keeps P p -> (forall m, P m -> Q m) -> (forall a, ends Q (k a)) -> ends P (p ≫= k).
Proof.
  intros Hp HPQ Hk. eapply (triple_bind _ _ _ (fun _ => Q)); [|exact Hk].
  eapply triple_conseq; [..|exact Hp]; [done|by intros a s Hs; apply HPQ|done].
Qed.
Lemma ends_some {A B} P (p : act A) (g : A -> B) : ends P (a ← p; mret (Some (g a))).
Proof. intros m _. unfold mbind, op_bind. by destruct (p m) as [[a|e] m1]. Qed.

Lemma ends_now {A} t (k : Z -> act (option A)) :
  (forall time, t <= time -> ends (from_time time) (k time)) -> ends (from_time t) (now ≫= k).
Proof. intros Hk m Hm. exact (Hk _ Hm m (Z.le_refl _)). Qed.
Lemma ends_sleep {A} t ms (k : () -> act (option A)) :
  ends (from_time (t + ms * 1000000)) (k ()) -> ends (from_time t) (sleep ms ≫= k).
Proof.
  intros Hk m Hm. apply Hk. pose proof (clock_sleeps (ms * 1000000) (daemon m)) as Hc. unfold from_time in *. cbn [daemon]. lia.
Qed.

(** Waiting comes to an end when the turns left reach past the deadline. *)
Lemma await_exit_ends fuel name deadline : forall t,
  deadline <= t + Z.of_nat fuel * 20000000 -> ends (from_time t) (await_exit (S fuel) name deadline).
Proof.
  assert (forall t, ends (from_time t) (_ ← docker ["kill"; name]; exit_code ← inspect_i64 name "{{.State.ExitCode}}";
                                        mret (Some (exit_code, true)) : act (option (Z * bool)))) as Hkill.
  { intros t. eapply ends_bind; [unfold docker; by keeps_steps|intros m Hm; exact Hm|]. intros _. apply ends_some. }
  induction fuel as [|fuel IH]; intros t Ht.
  all: match goal with |- ends _ (await_exit (S ?n) _ _) => remember n as rest eqn:Hrest end; cbn [await_exit].
  all: eapply ends_bind; [apply keeps_inspect|intros m Hm; exact Hm|]; intros running.
  all: destruct running; cbn [negb]; [|apply ends_some].
  all: apply ends_now; intros time Htime; destruct (deadline <=? time) eqn:Hd; [apply Hkill|apply Z.leb_gt in Hd].
  - lia.
  - apply ends_sleep. subst rest. apply IH. lia.
Qed.

Lemma ends_then {A B} P (p : act (option A)) (k : A -> act (option B)) :
  ends P p -> (forall a, ends (fun _ => True) (k a)) ->
  ends P (o ← p; match o with None => mret None | Some a => k a end).
Proof.
  intros Hp Hk m Hm. specialize (Hp m Hm). unfold mbind, op_bind. destruct (p m) as [[[a|]|e] m1]; [by apply Hk|done|done].
Qed.
Lemma ends_guarded {A} P (p : act (option A)) release : ends P p -> ends P (guarded p release).
Proof.
  intros Hp m Hm. specialize (Hp m Hm). unfold guarded. destruct (p m) as [r m1]. destruct (release m1) as [r2 m2]. by destruct r.
Qed.

Lemma sandbox_body_ends request name : 0 <= IsolationPolicy.wall_time_ms (SandboxRequest.policy request) ->
  forall t, ends (from_time t) (sandbox_body request name).
Proof.
  intros Hw t. unfold sandbox_body. eapply ends_bind; [unfold docker; by keeps_steps|intros m Hm; exact Hm|]. intros _.
  apply ends_now. intros start _. apply ends_then.
  - unfold sandbox_fuel. set (wall := IsolationPolicy.wall_time_ms _) in *.
    replace (Z.to_nat (wall / 20 + 2)) with (S (Z.to_nat (wall / 20 + 1)))
      by (zlia).
    apply await_exit_ends. rewrite Z2Nat.id by zlia. zlia.
  - intros outcome m _. unfold mbind, op_bind. destruct (docker_raw _ m) as [[logs|e] m1]; [|done]. by destruct (_ <? _).
Qed.

Lemma ends_any {A B} (p : act A) (k : A -> act (option B)) :
  (forall a, ends (fun _ => True) (k a)) -> ends (fun _ => True) (p ≫= k).
Proof. intros Hk. by apply (ends_bind _ (fun _ => True)); [intros m _; destruct (p m) as [[]]|..]. Qed.

Lemma policy_wall_time policy : validate_policy policy = Ok () -> 0 <= IsolationPolicy.wall_time_ms policy.
Proof.
  unfold validate_policy, in_range. destruct (_ || _) eqn:E; [done|]. intros _. rewrite !orb_false_iff in E. lia.
Qed.

End Time.

(** * Witness *)

Module SandboxWitness.
(** A daemon whose containers never stop, on a clock that only sleeping moves. *)
#[local] Instance stuck : Docker Z := {|
  docker_command := fun args now =>
    (Ok {| Output.success := true;
           Output.stdout := bytes_of_string (match args with
             | [_; _; template; _] => if bool_decide (template = "{{.State.Running}}") then "true" else "137"
             | _ => "" end);
           Output.stderr := [] |}, now);
  instant_now := fun now => now; thread_sleep := fun n now => now + n |}.
#[local] Instance stuck_laws : ClockLaws Z.
Proof. split; intros; cbn; lia. Qed.
#[local] Existing Instances Toy.sha Toy.hexi ToyJson.text.
#[local] Instance error_text : SerdeErrorText := "json".
#[local] Instance texts : ActivationErrorText :=
  {| int_error := "int"; time_error := "time"; key_error := "key"; hex_error := "hex" |}.
#[local] Instance serialise_policy : ToValue IsolationPolicy := fun p => Some (Number (PosInt (IsolationPolicy.pids p))).

Definition request : SandboxRequest := {|
  SandboxRequest.image := "app@sha256:" +:+ hex_encode (sha256 [1]);
  SandboxRequest.command := ["run"];
  SandboxRequest.policy := {|
    IsolationPolicy.cpu_millis := 500; IsolationPolicy.memory_bytes := 33554432; IsolationPolicy.pids := 32;
    IsolationPolicy.wall_time_ms := 1000; IsolationPolicy.output_bytes := 1024;
    IsolationPolicy.writable_tmpfs_bytes := 1048576; IsolationPolicy.linux_capabilities := [];
    IsolationPolicy.network_egress_allowlist := [] |} |}.

(** It is killed when a second is over. *)
Lemma killed : match sandbox_run request 1 2 (Build_Machine 0 ∅) with
  | (Ok (Some receipt), m) => SandboxReceipt.timed_out receipt = true /\ daemon m = 1000000000
  | _ => False
  end.
Proof. vm_compute. split; reflexivity. Qed.

End SandboxWitness.
