(* ===== verification/Queue.v ===== *)
(** What the durable queue of [Operations] guarantees.  [consistent] says what the files
    of a store hold; every durable step of the operations keeps it, results and errors
    alike, in any interleaving ([command], [reachable]); [claim_next] is characterised
    on the jobs a store holds; terminal jobs stay as they are; a runner lease excludes
    other runners. *)
From stdpp Require Import pretty.
From S2P Require Import Prelude Effects FileTree External Json Core Model Canonical Operations.
From S2P Require Service Fragments Protocol.
Import RecoveryJob.

(** * Names of files *)

Lemma job_path_inj a b : job_path a = job_path b -> a = b.
Proof.
  unfold job_path. intros Heq. apply bytes_of_string_inj.
  apply (f_equal bytes_of_string) in Heq. rewrite !string_app_bytes in Heq.
  by apply app_inv_tail in Heq.
Qed.

(** A valid identifier holds no dot. *)
Definition undotted (s : string) : Prop :=
  Forall (fun b => b <> byte_of_ascii ".") (bytes_of_string s).

Lemma hexdigit_undotted bs :
  all is_ascii_hexdigit bs = true -> Forall (fun b => b <> byte_of_ascii ".") bs.
Proof.
  rewrite all_true. intros Hall. eapply Forall_impl; [exact Hall|].
  intros b Hb ->. vm_compute in Hb. done.
Qed.

Lemma validate_job_id_undotted id : validate_job_id id = Ok () -> undotted id.
Proof.
  unfold validate_job_id. intros Hv. inv_ok. apply orb_false_iff in Hb as [Hb Hd].
  apply orb_false_iff in Hb as [_ Hp]. apply negb_false_iff in Hp, Hd.
  apply prefix_app in Hp as [t ->]. unfold undotted. rewrite string_app_bytes in *.
  apply Forall_app. split; [|by apply hexdigit_undotted].
  vm_compute. repeat constructor; done.
Qed.

Lemma extension_job_path id : validate_job_id id = Ok () -> extension (job_path id) = Some "json".
Proof.
  intros Hv. pose proof (validate_job_id_undotted _ Hv) as Hu.
  unfold extension, job_path. change ".json" with (String.String "." "json").
  rewrite Fragments.split_on_app by done. change (Fragments.split_on "." "json") with ["json"].
  destruct id; [done|]. done.
Qed.

Lemma extension_temporary id :
  validate_job_id id = Ok () -> extension ("." +:+ id +:+ ".tmp") = Some "tmp".
Proof.
  intros Hv. pose proof (validate_job_id_undotted _ Hv) as Hu. unfold extension.
  assert (Fragments.split_on "." ("." +:+ id +:+ ".tmp") = [""; id; "tmp"]) as ->; [|done].
  change ("." +:+ id +:+ ".tmp") with ("" +:+ String.String "." (id +:+ String.String "." "tmp")).
  rewrite Fragments.split_on_app by constructor. by rewrite Fragments.split_on_app.
Qed.

(** * Records *)

Section Records.
Context `{SerdeErrorText, OsErrorText, JsonText, Sha256, Hex, !ToValue RecoveryJob, !ToValue JobEvent.JobEvent}.

Definition chained (es : list JobEvent.JobEvent) : Prop :=
  for_each es (0, None) validate_event = Ok (vec_len es, JobEvent.event_sha256 <$> last es).

(** Everything [validate_job] asks for but the seal. *)
Definition sealable (job : RecoveryJob) : Prop :=
  validate_job_id (job_id job) = Ok () /\ version job = "recovery-job-v1" /\
  events job <> [] /\ vec_len (events job) <= 64 /\ chained (events job).

Lemma validate_event_Ok e st st' :
  validate_event e st = Ok st' <->
  JobEvent.sequence e = st.1 /\ JobEvent.previous_sha256 e = st.2 /\
  digest (JobEvent.with_event_sha256 "" e) = Ok (JobEvent.event_sha256 e) /\
  st' = (st.1 + 1, Some (JobEvent.event_sha256 e)).
Proof.
  destruct st as [index previous]. unfold validate_event. simpl. split.
  - intros Hv. inv_ok. apply orb_false_iff in Hb as [Hb1 Hb2].
    apply negb_false_iff in Hb0, Hb1, Hb2. apply bool_decide_eq_true in Hb0, Hb2.
    apply Z.eqb_eq in Hb1. by simplify_eq.
  - intros (-> & -> & -> & ->). rewrite Z.eqb_refl, bool_decide_eq_true_2 by done.
    simpl. by rewrite bool_decide_eq_true_2.
Qed.

Lemma chain_state es st :
  for_each es (0, None) validate_event = Ok st ->
  st = (vec_len es, JobEvent.event_sha256 <$> last es).
Proof.
  intros Hrun. apply (for_each_inv (fun es st => st = (vec_len es, JobEvent.event_sha256 <$> last es)))
    in Hrun; [done|done|].
  intros pre e post st1 st2 _ -> Hv. apply validate_event_Ok in Hv as (_ & _ & _ & ->).
  rewrite last_snoc. unfold vec_len. rewrite length_app. simpl. f_equal. lia.
Qed.

Lemma chained_snoc es e :
  chained es -> JobEvent.sequence e = vec_len es ->
  JobEvent.previous_sha256 e = JobEvent.event_sha256 <$> last es ->
  digest (JobEvent.with_event_sha256 "" e) = Ok (JobEvent.event_sha256 e) ->
  chained (es ++ [e]).
Proof.
  unfold chained. intros Hc Hs Hp Hd. rewrite for_each_app, Hc. cbn [mbind result_bind for_each].
  rewrite (proj2 (validate_event_Ok _ _ (vec_len es + 1, Some (JobEvent.event_sha256 e)))) by done.
  cbn. rewrite last_snoc. unfold vec_len. rewrite length_app. simpl. do 2 f_equal. lia.
Qed.

Lemma validate_job_Ok job :
  validate_job job = Ok () <->
  sealable job /\ digest (with_record_sha256 "" job) = Ok (record_sha256 job).
Proof.
  unfold validate_job, sealable. split.
  - intros Hv. inv_ok. destruct a. apply orb_false_iff in Hb as [Hb H64].
    apply orb_false_iff in Hb as [Hver Hne]. apply negb_false_iff in Hver, Hb0.
    apply bool_decide_eq_true in Hver, Hb0. apply bool_decide_eq_false in Hne.
    apply Z.ltb_ge in H64. subst. split_and!; try done.
    unfold chained. rewrite Ha0. f_equal. by apply chain_state.
  - intros [(Hid & Hver & Hne & H64 & Hc) Hd]. rewrite Hid. cbn [mbind result_bind].
    rewrite bool_decide_eq_true_2, (bool_decide_eq_false_2 (_ = [])) by done.
    rewrite (proj2 (Z.ltb_ge _ _)) by done. cbn [negb orb]. rewrite Hc. cbn [mbind result_bind].
    rewrite Hd. cbn [mbind result_bind]. by rewrite bool_decide_eq_true_2.
Qed.

Lemma append_event_Ok job at_unix kind job' :
  append_event job at_unix kind = Ok job' ->
  exists e, job' = with_events (events job ++ [e]) job /\ JobEvent.kind e = kind /\
  JobEvent.sequence e = vec_len (events job) /\
  JobEvent.previous_sha256 e = JobEvent.event_sha256 <$> last (events job) /\
  digest (JobEvent.with_event_sha256 "" e) = Ok (JobEvent.event_sha256 e) /\
  vec_len (events job) < 64.
Proof.
  unfold append_event. intros Ha. inv_ok. apply orb_false_iff in Hb as [H64 _].
  apply Z.leb_gt in H64. destruct (_ <=? u32_max); [|done]. simplify_eq.
  eexists. split_and!; try done.
Qed.

(** A new event keeps a record sealable, and is the only change. *)
Lemma append_event_sealable job at_unix kind job' :
  validate_job_id (job_id job) = Ok () -> version job = "recovery-job-v1" -> chained (events job) ->
  append_event job at_unix kind = Ok job' ->
  sealable job' /\ vec_len (events job') = vec_len (events job) + 1 /\
  job' = with_events (events job') job.
Proof.
  intros Hid Hver Hc Ha. apply append_event_Ok in Ha as (e & -> & _ & Hs & Hp & Hd & H64).
  assert (vec_len (events job ++ [e]) = vec_len (events job) + 1) as Hlen.
  { unfold vec_len. rewrite length_app. simpl. lia. }
  split; [|done]. unfold sealable. simpl. rewrite Hlen. split_and!; try done.
  - by destruct (events job).
  - lia.
  - by apply chained_snoc.
Qed.

Lemma seal_record_Ok job job' :
  sealable job -> seal_record job = Ok job' ->
  job' = with_record_sha256 (record_sha256 job') job /\ validate_job job' = Ok ().
Proof.
  unfold seal_record. intros Hs Hr. inv_ok. simplify_eq. split; [by destruct job|].
  apply validate_job_Ok. split; [exact Hs|]. exact Ha.
Qed.

Context `{!TotalValue RecoveryJob, !TotalValue JobEvent.JobEvent}.

Lemma encode_total `{!ToValue T, !TotalValue T} (x : T) : exists bytes, encode x = Ok bytes.
Proof.
  unfold encode, encode_json. destruct (to_value_total x) as [v ->]. by eexists.
Qed.

Lemma digest_total `{!ToValue T, !TotalValue T} (x : T) : exists d, digest x = Ok d.
Proof.
  rewrite digest_encode. destruct (encode_total x) as [bytes ->]. by eexists.
Qed.

Lemma append_event_total job at_unix kind :
  vec_len (events job) < 64 -> str_len kind <= 64 -> exists job', append_event job at_unix kind = Ok job'.
Proof.
  intros H64 Hk. unfold append_event. rewrite (proj2 (Z.leb_gt _ _)), (proj2 (Z.ltb_ge _ _)) by done.
  cbn [orb]. rewrite (proj2 (Z.leb_le _ _)) by (unfold u32_max; lia). cbn [mbind result_bind ok_or].
  match goal with |- context [digest ?e] => destruct (digest_total e) as [d ->] end. by eexists.
Qed.

Lemma seal_record_total job : exists job', seal_record job = Ok job'.
Proof.
  unfold seal_record. destruct (digest_total (with_record_sha256 "" job)) as [d ->]. by eexists.
Qed.
End Records.

(** * What a store holds *)

Section Consistent.
Context `{SerdeErrorText, OsErrorText, JsonText, Sha256, Hex}.
Context `{!ToValue RecoveryJob, !FromSlice RecoveryJob, !ToValue JobEvent.JobEvent}.
Variable config : OperationsConfig.OperationsConfig.

(** The life of a job: two events per attempt, one for the submission; a lease while it
    runs, a result once the recovery has spoken.  A failure is open to any history. *)
Definition lifecycle (job : RecoveryJob) : Prop :=
  0 <= attempts job <= OperationsConfig.max_attempts config /\
  match state job with
  | Pending =>
      lease_expires_unix job = None /\ result_sha256 job = None /\ RecoveryJob.refusal_code job = None /\
      attempts job < OperationsConfig.max_attempts config /\
      vec_len (events job) = 2 * attempts job + 1
  | Running =>
      is_Some (lease_expires_unix job) /\ result_sha256 job = None /\
      RecoveryJob.refusal_code job = None /\ 1 <= attempts job /\
      vec_len (events job) = 2 * attempts job
  | Certified =>
      lease_expires_unix job = None /\ is_Some (result_sha256 job) /\
      RecoveryJob.refusal_code job = None /\ 1 <= attempts job /\
      vec_len (events job) = 2 * attempts job + 1
  | Refused =>
      lease_expires_unix job = None /\ is_Some (result_sha256 job) /\
      is_Some (RecoveryJob.refusal_code job) /\ 1 <= attempts job /\
      vec_len (events job) = 2 * attempts job + 1
  | Failed => lease_expires_unix job = None
  end.

(** A job with a verdict has its result on file, with the digest it states. *)
Definition recorded (results : Directory) (job : RecoveryJob) : Prop :=
  state job = Certified \/ state job = Refused ->
  exists bytes, results !! job_path (job_id job) = Some bytes /\
                result_sha256 job = Some (bytes_digest bytes).

Definition job_file (job : RecoveryJob) (bytes : list Z) : Prop :=
  encode job = Ok bytes /\ validate_job job = Ok () /\ lifecycle job.

(** The store holds this job. *)
Definition holds (s : Store) (job : RecoveryJob) : Prop :=
  exists bytes, jobs s !! job_path (job_id job) = Some bytes /\ job_file job bytes.

Definition files_consistent (jobs : Directory) : Prop :=
  map_Forall (fun path bytes => exists job, path = job_path (job_id job) /\ job_file job bytes) jobs.

(** Every file of jobs/ is a valid job under its own name, in a state its life allows. *)
Definition consistent (s : Store) : Prop := files_consistent (jobs s).

(** Every verdict is backed by its result file. *)
Definition backed (s : Store) : Prop := forall job, holds s job -> recorded (results s) job.

(** Its files can be read back: within the bounds of [read_jobs]. *)
Definition readable (s : Store) : Prop :=
  Z.of_nat (size (jobs s)) <= MAX_JOBS /\
  map_Forall (fun _ bytes => vec_len bytes <= MAX_RECORD_BYTES) (jobs s).

Definition unlocked (s : Store) : Prop := root s !! lock_path = None.

Definition put (path : string) (bytes : list Z) (s : Store) : Store :=
  {| root := root s; jobs := <[path := bytes]> (jobs s); results := results s |}.

Lemma holds_jobs s s' job : jobs s' = jobs s -> holds s' job <-> holds s job.
Proof. unfold holds. by intros ->. Qed.

Lemma job_file_id job bytes : job_file job bytes -> validate_job_id (job_id job) = Ok ().
Proof. by intros (_ & ((Hid & _) & _)%validate_job_Ok & _). Qed.

Lemma consistent_extension s path :
  consistent s -> is_Some (jobs s !! path) -> extension path = Some "json".
Proof.
  intros Hc [bytes Hb]. destruct (Hc _ _ Hb) as (job & -> & Hj).
  by apply extension_job_path, (job_file_id job bytes).
Qed.

Lemma consistent_holds s path bytes :
  consistent s -> jobs s !! path = Some bytes ->
  exists job, path = job_path (job_id job) /\ holds s job /\ job_file job bytes.
Proof.
  intros Hc Hb. destruct (Hc _ _ Hb) as (job & -> & Hj). exists job. split_and!; try done.
  by exists bytes.
Qed.

Lemma consistent_put s job bytes :
  consistent s -> job_file job bytes -> consistent (put (job_path (job_id job)) bytes s).
Proof. intros Hc Hj. apply map_Forall_insert_2; [by exists job|exact Hc]. Qed.

Lemma holds_put s job bytes :
  job_file job bytes -> holds (put (job_path (job_id job)) bytes s) job.
Proof. intros Hj. exists bytes. split; [|done]. simpl. by rewrite lookup_insert_eq. Qed.

Lemma holds_put_ne s path bytes job :
  path <> job_path (job_id job) -> holds (put path bytes s) job <-> holds s job.
Proof. intros Hne. unfold holds. simpl. by rewrite lookup_insert_ne. Qed.

Context `{!SerdeLaws RecoveryJob}.

(** One job per file. *)
Lemma holds_functional s j k : holds s j -> holds s k -> job_id j = job_id k -> j = k.
Proof.
  intros (b & Hb & Hj & _) (c & Hc & Hk & _) Heq. rewrite Heq in Hb. simplify_eq.
  apply from_slice_encode in Hj, Hk. by simplify_eq.
Qed.

Lemma read_job_file_job job bytes d :
  d !! job_path (job_id job) = Some bytes -> job_file job bytes -> vec_len bytes <= MAX_RECORD_BYTES ->
  read_job_file (job_path (job_id job)) d = Ok job.
Proof.
  intros Hd (He & Hv & _) Hlen. unfold read_job_file, read_regular. rewrite Hd.
  rewrite (proj2 (Z.ltb_ge _ _)) by done. cbn [mbind result_bind].
  rewrite (from_slice_encode _ _ He). cbn [ok_or mbind result_bind]. by rewrite Hv.
Qed.

Lemma read_job_file_Ok s path job :
  consistent s -> read_job_file path (jobs s) = Ok job -> path = job_path (job_id job) /\ holds s job.
Proof.
  intros Hc Hr. unfold read_job_file, read_regular in Hr. inv_ok.
  destruct (jobs s !! path) as [bytes|] eqn:Hb; [|done]. destruct (_ <? _); simplify_eq.
  destruct (consistent_holds _ _ _ Hc Hb) as (j & -> & Hh & (He & _)).
  apply from_slice_encode in He. by simplify_eq.
Qed.

Lemma read_job_Ok s id job s' :
  consistent s -> read_job id s = (Ok job, s') -> s' = s /\ job_id job = id /\ holds s job.
Proof.
  intros Hc [= Hr <-]. apply bind_Ok in Hr as ([] & _ & Hr).
  apply read_job_file_Ok in Hr as [->%job_path_inj Hh]; done.
Qed.

(** Reading the directory gives the names it holds, within the bound. *)
Lemma read_entries_Ok (l : list (string * list Z)) :
  vec_len l <= MAX_JOBS -> Forall (fun e => extension e.1 = Some "json") l ->
  for_each l [] read_entry = Ok l.*1.
Proof.
  intros Hlen Hext. cut (forall acc, vec_len acc + vec_len l <= MAX_JOBS ->
    for_each l acc read_entry = Ok (acc ++ l.*1)).
  { intros Hgen. by rewrite Hgen by (unfold vec_len in *; simpl; lia). }
  clear Hlen. induction Hext as [|e l He _ IH]; intros acc Hlen; simpl.
  - by rewrite app_nil_r.
  - unfold vec_len in *. simpl in Hlen. assert (read_entry e acc = Ok (acc ++ [e.1])) as ->.
    { unfold read_entry, vec_len. rewrite (proj2 (Z.leb_gt _ _)) by lia.
      by rewrite bool_decide_eq_true_2. }
    cbn [mbind result_bind]. rewrite IH by (rewrite length_app; simpl; lia).
    by rewrite <- app_assoc.
Qed.

Lemma read_entries_bound (l : list (string * list Z)) acc paths :
  for_each l acc read_entry = Ok paths -> paths = acc ++ l.*1 /\ (l = [] \/ vec_len acc + vec_len l <= MAX_JOBS).
Proof.
  revert acc. induction l as [|e l IH]; intros acc; simpl.
  - intros [= <-]. by rewrite app_nil_r; auto.
  - intros Hr. apply bind_Ok in Hr as (acc' & He & Hr). unfold read_entry in He.
    inv_ok. simplify_eq. apply IH in Hr as [-> Hl]. rewrite <- app_assoc. split; [done|].
    right. apply Z.leb_gt in Hb. unfold vec_len in *. destruct Hl as [->|Hl]; simpl; [lia|].
    rewrite length_app in Hl. simpl in Hl. lia.
Qed.

(** The jobs that [read_jobs] gives are those the store holds, one for each file. *)
Definition listing (s : Store) (l : list RecoveryJob) : Prop :=
  NoDup (job_id <$> l) /\ forall job, job ∈ l <-> holds s job.

Lemma read_jobs_Ok s l s' :
  consistent s -> read_jobs s = (Ok l, s') -> s' = s /\ listing s l.
Proof.
  intros Hc [= Hr <-]. split; [done|]. apply bind_Ok in Hr as (paths & Hp & Hr).
  apply read_entries_bound in Hp as [-> _]. apply collect_results_Ok in Hr. simpl in Hr.
  assert (sort_by_key id (map_to_list (jobs s)).*1 = job_path ∘ job_id <$> l) as Hpaths.
  { apply list_eq_Forall2. clear -Hr Hc H0 SerdeLaws0. induction Hr as [|path job ps l Hj _ IH];
      constructor; [|exact IH]. by apply (read_job_file_Ok s path job Hc) in Hj as [-> _]. }
  assert (NoDup (job_path ∘ job_id <$> l)) as Hnd.
  { rewrite <- Hpaths, (sort_by_key_perm id). apply NoDup_fst_map_to_list. }
  split.
  { rewrite list_fmap_compose in Hnd. by apply NoDup_fmap_1 in Hnd. }
  intros job. split.
  - intros Hin. apply list_elem_of_lookup_1 in Hin as [i Hi].
    destruct (Forall2_lookup_r _ _ _ _ _ Hr Hi) as (path & _ & Hj).
    by apply (read_job_file_Ok s path job Hc) in Hj as [_ ?].
  - intros (bytes & Hb & Hj). assert (job_path (job_id job) ∈ job_path ∘ job_id <$> l) as Hin.
    { rewrite <- Hpaths, (sort_by_key_perm id). apply list_elem_of_fmap.
      exists (job_path (job_id job), bytes). split; [done|]. by apply elem_of_map_to_list. }
    apply list_elem_of_fmap in Hin as (k & Hk%job_path_inj & Hin).
    assert (k = job) as <-; [|done]. apply (holds_functional s); [|by exists bytes|done].
    apply list_elem_of_lookup_1 in Hin as [i Hi].
    destruct (Forall2_lookup_r _ _ _ _ _ Hr Hi) as (path & _ & Hj').
    by apply (read_job_file_Ok s path k Hc) in Hj' as [_ ?].
Qed.

Lemma read_jobs_total s :
  consistent s -> readable s -> exists l, read_jobs s = (Ok l, s).
Proof.
  intros Hc [Hsize Hsmall]. unfold read_jobs, reads.
  rewrite read_entries_Ok.
  2:{ unfold vec_len. by rewrite length_map_to_list. }
  2:{ apply Forall_forall. intros [path bytes] Hin%elem_of_map_to_list.
      apply (consistent_extension s); [done|by exists bytes]. }
  cbn [mbind result_bind].
  assert (exists l, collect_results (fun path => read_job_file path (jobs s))
            (sort_by_key id (map_to_list (jobs s)).*1) = Ok l) as [l ->]; [|by exists l].
  assert (Forall (fun path => is_Some (jobs s !! path)) (sort_by_key id (map_to_list (jobs s)).*1)) as Hall.
  { rewrite (sort_by_key_perm id). apply Forall_fmap, Forall_forall.
    intros [path bytes] Hin%elem_of_map_to_list. by exists bytes. }
  induction Hall as [|path paths [bytes Hb] _ [l Hl]]; [by exists []|]. simpl.
  destruct (consistent_holds _ _ _ Hc Hb) as (job & -> & _ & Hj).
  rewrite (read_job_file_job job bytes) by (try done; by eapply Hsmall).
  cbn [mbind result_bind]. rewrite Hl. by eexists.
Qed.
Lemma backed_put s k bytes :
  backed s -> job_file k bytes -> recorded (results s) k ->
  backed (put (job_path (job_id k)) bytes s).
Proof.
  intros Hb Hf Hr x Hx. destruct (decide (job_id x = job_id k)) as [Heq|Hne].
  - assert (x = k) as -> by (by apply (holds_functional _ x k Hx (holds_put s k bytes Hf))). exact Hr.
  - apply holds_put_ne in Hx; [by apply Hb|]. by intros ?%job_path_inj.
Qed.

End Consistent.

(** * Steps of the store *)

Section Steps.
Context `{SerdeErrorText, OsErrorText, JsonText, Sha256, Hex}.

Definition locked (s : Store) : Store :=
  {| root := <[lock_path := []]> (root s); jobs := jobs s; results := results s |}.

(** An operation under the lock runs when nobody holds it, and gives it back. *)
Lemma with_lock_run {A} (m : op Store Error A) s :
  with_lock m s =
    match root s !! lock_path with
    | Some _ => (Err (invalid "operations store is locked"), s)
    | None => let '(r, s') := m (locked s) in (r, lock_drop s')
    end.
Proof.
  unfold with_lock, lock_acquire, mbind, op_bind, try_op, in_root, write_new.
  destruct s as [r j d]. simpl. destruct (r !! lock_path) eqn:Hl; simpl.
  - by rewrite bool_decide_eq_true_2.
  - reflexivity.
Qed.

Lemma lock_drop_locked s : unlocked s -> lock_drop (locked s) = s.
Proof.
  intros Hu. destruct s as [r j d]. unfold lock_drop, locked. simpl.
  by rewrite delete_insert_id.
Qed.

(** Assertions about the files of jobs/ and results/ do not see the lock. *)
Definition rootless (P : Store -> Prop) : Prop :=
  forall r s, P s -> P {| root := r; jobs := jobs s; results := results s |}.

Lemma triple_with_lock {A} P (m : op Store Error A) Q R :
  rootless P -> (forall a, rootless (Q a)) -> rootless R -> (forall s, P s -> R s) ->
  triple P m Q R -> triple P (with_lock m) Q R.
Proof.
  intros HP HQ HR HPR Ht s Hs. rewrite with_lock_run. destruct (root s !! lock_path); [by apply HPR|].
  assert (P (locked s)) as Hl by exact (HP _ _ Hs). specialize (Ht _ Hl).
  destruct (m (locked s)) as [[a|e] s']; [by apply HQ|by apply HR].
Qed.

Lemma keeps_with_lock {A} P (m : op Store Error A) : rootless P -> keeps P m -> keeps P (with_lock m).
Proof. intros HP. apply triple_with_lock; auto. Qed.

Lemma lookup_atomic_replace path temporary bytes (d : Directory) :
  d !! temporary = None ->
  atomic_replace path temporary bytes d = (Ok (), <[path := bytes]> d).
Proof.
  intros Ht. unfold atomic_replace, reads, mbind, op_bind, write_new, rename.
  rewrite Ht, bool_decide_eq_false_2 by (intros [? ?]; done). cbn [fail lift].
  rewrite Ht, lookup_insert_eq. by rewrite delete_insert_id.
Qed.

Context `{!ToValue RecoveryJob, !FromSlice RecoveryJob, !ToValue JobEvent.JobEvent}.
Context `{!SerdeLaws RecoveryJob, !TotalValue RecoveryJob, !TotalValue JobEvent.JobEvent}.
Variable config : OperationsConfig.OperationsConfig.
Abbreviation consistent := (consistent config).
Abbreviation holds := (holds config).
Abbreviation lifecycle := (lifecycle config).
Abbreviation job_file := (job_file config).

Lemma consistent_rootless : rootless consistent.
Proof. by intros r s. Qed.

(** Writing a job back: its file, and nothing else, becomes the sealed record. *)
Lemma replace_job_run s job :
  consistent s -> sealable job -> lifecycle job ->
  exists job' bytes, replace_job job s = (Ok job', put (job_path (job_id job)) bytes s) /\
  job' = with_record_sha256 (record_sha256 job') job /\ job_file job' bytes.
Proof.
  intros Hc Hs Hl. unfold replace_job. destruct (seal_record_total job) as [job' Hr].
  destruct (seal_record_Ok _ _ Hs Hr) as [Hj' Hv].
  assert (job_id job' = job_id job) as Hid by (by rewrite Hj').
  rewrite (run_bind_lift _ _ _ _ Hr). destruct (encode_total job') as [bytes He].
  rewrite (run_bind_lift _ _ _ _ He). exists job', bytes. split_and!; [|exact Hj'|].
  - erewrite run_bind.
    2:{ unfold in_jobs. rewrite lookup_atomic_replace; [reflexivity|].
        apply eq_None_not_Some. intros Ht%(consistent_extension config); [|done].
        rewrite Hid, extension_temporary in Ht; [done|by destruct Hs]. }
    by rewrite Hid.
  - split_and!; [done|done|]. rewrite Hj'. exact Hl.
Qed.

Lemma holds_sealable s job : holds s job -> sealable job /\ lifecycle job.
Proof. intros (b & _ & (_ & [Hs _]%validate_job_Ok & Hl)). done. Qed.

(** Adding an event and writing back. *)
Lemma amend_run s job amended at_unix kind :
  consistent s -> holds s job ->
  job_id amended = job_id job -> version amended = version job -> events amended = events job ->
  vec_len (events job) < 64 -> str_len kind <= 64 ->
  (forall es, vec_len es = vec_len (events job) + 1 -> lifecycle (with_events es amended)) ->
  exists job1 job2 bytes, append_event amended at_unix kind = Ok job1 /\
  replace_job job1 s = (Ok job2, put (job_path (job_id job)) bytes s) /\
  job1 = with_events (events job1) amended /\ vec_len (events job1) = vec_len (events job) + 1 /\
  job2 = with_record_sha256 (record_sha256 job2) job1 /\ job_file job2 bytes.
Proof.
  intros Hc [(Hid & Hver & _ & _ & Hch) _]%holds_sealable Ei Ev Ee H64 Hk Hl.
  destruct (append_event_total amended at_unix kind) as [job1 Ha]; [by rewrite Ee|done|].
  destruct (append_event_sealable amended at_unix kind job1) as (Hs1 & Hlen & Hj1);
    [by rewrite Ei|by rewrite Ev|by rewrite Ee|done|].
  rewrite Ee in Hlen. destruct (replace_job_run s job1 Hc Hs1) as (job2 & bytes & Hr & Hj2 & Hf).
  { rewrite Hj1. by apply Hl. }
  exists job1, job2, bytes. split_and!; try done. rewrite Hr. do 3 f_equal. by rewrite Hj1.
Qed.
End Steps.

(** * Claiming *)

Lemma config_bounds config :
  OperationsConfig.validate config = Ok () ->
  1 <= OperationsConfig.max_queued config <= MAX_JOBS /\ 1 <= OperationsConfig.max_batch config <= 64 /\
  1 <= OperationsConfig.max_attempts config <= 10 /\ 10 <= OperationsConfig.lease_seconds config <= 86400.
Proof.
  unfold OperationsConfig.validate. intros Hv. inv_ok. rewrite !orb_false_iff, !negb_false_iff in Hb.
  destruct Hb as [[[[_ ?%Service.within_true] ?%Service.within_true] ?%Service.within_true] ?%Service.within_true].
  done.
Qed.

(** The first of the sorted list that passes a test is a least one that does. *)
Lemma find_sorted_Some {A K} `{OrdLaws K} (key : A -> K) (p : A -> bool) l x :
  List.find p (sort_by_key key l) = Some x ->
  x ∈ l /\ p x = true /\ forall y, y ∈ l -> p y = true -> key_le (key x) (key y).
Proof.
  intros Hf. rewrite <- (elem_of_sort_by_key key).
  cut (p x = true /\ x ∈ sort_by_key key l /\
       forall y, y ∈ sort_by_key key l -> p y = true -> key_le (key x) (key y)).
  { setoid_rewrite elem_of_sort_by_key. naive_solver. }
  revert Hf. induction (sort_by_key_sorted key l) as [|z m Hm IH Hall]; simpl; [done|].
  destruct (p z) eqn:Hz.
  - intros [= <-]. split; [done|]. split; [by constructor|]. intros y [->|Hy]%elem_of_cons _.
    + unfold key_le. by rewrite cmp_refl.
    + rewrite Forall_forall in Hall. by apply Hall.
  - intros (Hp & Hx & Hle)%IH. split; [done|]. split; [by constructor|].
    intros y [->|Hy]%elem_of_cons Hy'; [congruence|]. by apply Hle.
Qed.

Lemma find_sorted_None {A K} `{Ord K} (key : A -> K) (p : A -> bool) l :
  List.find p (sort_by_key key l) = None -> forall y, y ∈ l -> p y = false.
Proof.
  intros Hf y Hy. apply (List.find_none _ _ Hf), list_elem_of_In. by apply elem_of_sort_by_key.
Qed.

(** What never changes in a job. *)
Definition same_submission (j k : RecoveryJob) : Prop :=
  job_id k = job_id j /\ workspace k = workspace j /\ workspace_sha256 k = workspace_sha256 j /\
  submitted_unix k = submitted_unix j /\ version k = version j.

(** What the recovery loop makes of a job. *)
Definition recovers (config : OperationsConfig.OperationsConfig) (now_unix : Z) (j k : RecoveryJob) : Prop :=
  if lease_expired now_unix j then
    same_submission j k /\ attempts k = attempts j /\ lease_expires_unix k = None /\
    result_sha256 k = result_sha256 j /\ RecoveryJob.refusal_code k = RecoveryJob.refusal_code j /\
    state k = (if OperationsConfig.max_attempts config <=? attempts j then Failed else Pending)
  else k = j.

(** Jobs the loop sends back to the queue, and jobs that can then be claimed. *)
Definition requeued (config : OperationsConfig.OperationsConfig) (now_unix : Z) (j : RecoveryJob) : bool :=
  lease_expired now_unix j && (attempts j <? OperationsConfig.max_attempts config).
Definition claimable (config : OperationsConfig.OperationsConfig) (now_unix : Z) (j : RecoveryJob) : bool :=
  in_state Pending j || requeued config now_unix j.

Section Claim.
Context `{SerdeErrorText, OsErrorText, JsonText, Sha256, Hex}.
Context `{!ToValue RecoveryJob, !FromSlice RecoveryJob, !ToValue JobEvent.JobEvent}.
Context `{!SerdeLaws RecoveryJob, !TotalValue RecoveryJob, !TotalValue JobEvent.JobEvent}.
Variable config : OperationsConfig.OperationsConfig.
Hypothesis config_valid : OperationsConfig.validate config = Ok ().
Variable now_unix : Z.
Abbreviation consistent := (consistent config).
Abbreviation holds := (holds config).
Abbreviation backed := (backed config).

Lemma lease_expired_running j : lease_expired now_unix j = true -> state j = Running.
Proof. unfold lease_expired, in_state. intros [?%bool_decide_eq_true _]%andb_true_iff. done. Qed.

Lemma recovers_id j k : recovers config now_unix j k -> job_id k = job_id j.
Proof. unfold recovers. destruct (lease_expired _ _); [by intros [[] _]|by intros ->]. Qed.

Lemma recovers_key j k : recovers config now_unix j k -> submission_key k = submission_key j.
Proof.
  unfold recovers, submission_key. destruct (lease_expired _ _); [|by intros ->].
  by intros [(-> & _ & _ & -> & _) _].
Qed.

Lemma recovers_pending j k :
  recovers config now_unix j k -> in_state Pending k = claimable config now_unix j.
Proof.
  unfold recovers, claimable, requeued, in_state. destruct (lease_expired now_unix j) eqn:He.
  - apply lease_expired_running in He. intros (_ & _ & _ & _ & _ & ->). rewrite He. simpl.
    by destruct (Z.leb_spec (OperationsConfig.max_attempts config) (attempts j));
      destruct (Z.ltb_spec (attempts j) (OperationsConfig.max_attempts config)); try lia.
  - intros ->. by rewrite andb_false_l, orb_false_r.
Qed.

(** Ending a job's lease: its file follows, and no other file changes. *)
Lemma release_run s j st kind :
  consistent s -> holds s j -> vec_len (events j) < 64 -> str_len kind <= 64 ->
  (forall es, vec_len es = vec_len (events j) + 1 ->
     lifecycle config (with_events es (with_state st (attempts j) None j))) ->
  exists j1 k bytes, append_event (with_state st (attempts j) None j) now_unix kind = Ok j1 /\
  replace_job j1 s = (Ok k, put (job_path (job_id j)) bytes s) /\
  consistent (put (job_path (job_id j)) bytes s) /\ holds (put (job_path (job_id j)) bytes s) k /\
  (st <> Certified -> st <> Refused -> backed s -> backed (put (job_path (job_id j)) bytes s)) /\
  same_submission j k /\ attempts k = attempts j /\ lease_expires_unix k = None /\
  result_sha256 k = result_sha256 j /\ RecoveryJob.refusal_code k = RecoveryJob.refusal_code j /\
  state k = st.
Proof.
  intros Hc Hh H64 Hk Hl.
  destruct (amend_run config s j (with_state st (attempts j) None j) now_unix kind)
    as (j1 & k & bytes & Ha & Hr & Hj1 & _ & Hk' & Hf); try done.
  assert (job_id k = job_id j) as Hid by (by rewrite Hk', Hj1).
  exists j1, k, bytes. split; [done|]. split; [done|]. rewrite <- Hid at 1 2 3.
  split; [by apply consistent_put|]. split; [by apply holds_put|]. split.
  { intros Hnc Hnr Hb. apply backed_put; [done..|]. unfold recorded. rewrite Hk', Hj1. simpl. by intros [?|?]. }
  unfold same_submission. by rewrite Hk', Hj1.
Qed.

(** One round of the loop. *)
Lemma recover_job_run s j done_ n :
  consistent s -> holds s j ->
  exists k s', recover_job config now_unix j (done_, n) s =
    (Ok (done_ ++ [k], n + Z.b2z (requeued config now_unix j)), s') /\
  consistent s' /\ results s' = results s /\ root s' = root s /\ (backed s -> backed s') /\
  recovers config now_unix j k /\ holds s' k /\
  (forall path, (lease_expired now_unix j = true -> path <> job_path (job_id j)) ->
     jobs s' !! path = jobs s !! path).
Proof.
  intros Hc Hh. destruct (config_bounds _ config_valid) as (_ & _ & Hmax & _).
  unfold recover_job, recovers, requeued. destruct (lease_expired now_unix j) eqn:He.
  2:{ exists j, s. cbn. rewrite Z.add_0_r. done. }
  apply lease_expired_running in He as Hrun.
  destruct (holds_sealable _ _ _ Hh) as [_ [Hatt Hlife]]. rewrite Hrun in Hlife.
  destruct Hlife as (_ & Hres & Href & Hone & Hlen).
  assert (forall path bytes, (true = true -> path <> job_path (job_id j)) ->
    jobs (put (job_path (job_id j)) bytes s) !! path = jobs s !! path) as Hframe.
  { intros path bytes Hp. simpl. rewrite lookup_insert_ne; [done|]. intros <-. by apply Hp. }
  unfold recover_expired. destruct (Z.leb_spec (OperationsConfig.max_attempts config) (attempts j)) as [Hge|Hlt].
  - destruct (release_run s j Failed "RESTART_ATTEMPTS_EXHAUSTED")
      as (j1 & k & bytes & Ha & Hr & Hc' & Hh' & Hb' & Hsub & Hat & Hle & Hrs & Hrf & Hst); try done; [lia|].
    rewrite Ha. erewrite run_bind_lift by reflexivity. cbn. rewrite (run_bind _ _ _ _ _ Hr).
    rewrite (proj2 (Z.ltb_ge _ _)) by done. eexists k, _. split; [reflexivity|]. split_and!; try done; [by apply Hb'|].
    intros path Hp. by apply Hframe.
  - destruct (release_run s j Pending "JOB_RECOVERED_AFTER_RESTART")
      as (j1 & k & bytes & Ha & Hr & Hc' & Hh' & Hb' & Hsub & Hat & Hle & Hrs & Hrf & Hst); try done; [lia| |].
    { intros es Hes. split; [done|]. simpl. split_and!; try done. lia. }
    rewrite Ha. erewrite run_bind_lift by reflexivity. cbn. rewrite (run_bind _ _ _ _ _ Hr).
    rewrite (proj2 (Z.ltb_lt _ _)) by done. eexists k, _. split; [reflexivity|]. split_and!; try done; [by apply Hb'|].
    intros path Hp. by apply Hframe.
Qed.

(** The whole loop, over jobs with distinct identifiers that the store holds. *)
Lemma recover_loop_run l s done_ n :
  consistent s -> Forall (holds s) l -> NoDup (job_id <$> l) ->
  exists ks s', op_for l (done_, n) (recover_job config now_unix) s =
    (Ok (done_ ++ ks, n + count (requeued config now_unix) l), s') /\
  consistent s' /\ results s' = results s /\ root s' = root s /\ (backed s -> backed s') /\
  Forall2 (recovers config now_unix) l ks /\ Forall (holds s') ks /\
  (forall path, (forall j, j ∈ l -> lease_expired now_unix j = true -> path <> job_path (job_id j)) ->
     jobs s' !! path = jobs s !! path).
Proof.
  revert s done_ n. induction l as [|j l IH]; intros s done_ n Hc Hall Hnd.
  - exists [], s. simpl. rewrite app_nil_r. unfold count, vec_len. simpl. rewrite Z.add_0_r.
    split_and!; try done; constructor.
  - apply Forall_cons in Hall as [Hj Hall]. apply NoDup_cons in Hnd as [Hni Hnd].
    destruct (recover_job_run s j done_ n Hc Hj)
      as (k & s1 & Hrun & Hc1 & Hres1 & Hroot1 & Hb1 & Hk & Hh1 & Hf1).
    assert (forall x, x ∈ l -> job_path (job_id x) <> job_path (job_id j)) as Hne.
    { intros x Hx Heq%job_path_inj. apply Hni. rewrite <- Heq. by apply list_elem_of_fmap_2. }
    destruct (IH s1 (done_ ++ [k]) (n + Z.b2z (requeued config now_unix j)))
      as (ks & s2 & Hrun2 & Hc2 & Hres2 & Hroot2 & Hb2 & Hks & Hh2 & Hf2); [done| |done|].
    { rewrite Forall_forall in *. intros x Hx. destruct (Hall x Hx) as (bytes & Hb & Hf).
      exists bytes. split; [|done]. rewrite Hf1; [done|]. intros _. by apply Hne. }
    exists (k :: ks), s2. simpl. rewrite (run_bind _ _ _ _ _ Hrun), Hrun2.
    rewrite <- app_assoc. split_and!; try done.
    + do 3 f_equal. unfold count, vec_len. rewrite filter_cons.
      destruct (requeued config now_unix j); simpl; lia.
    + by rewrite Hres2.
    + by rewrite Hroot2.
    + auto.
    + by constructor.
    + constructor; [|done]. destruct Hh1 as (bytes & Hb & Hf). exists bytes. split; [|done].
      rewrite Hf2; [done|]. intros x Hx _. rewrite (recovers_id _ _ Hk). intros Heq. by apply (Hne x).
    + intros path Hp. rewrite Hf2 by (intros x Hx; apply Hp; by constructor).
      apply Hf1, Hp. by constructor.
Qed.

(** The claimed job: what the runner gets, and what is on file. *)
Definition claims (j c : RecoveryJob) : Prop :=
  same_submission j c /\ state c = Running /\ attempts c = attempts j + 1 /\
  lease_expires_unix c = Some (saturating_add_u64 now_unix (OperationsConfig.lease_seconds config)) /\
  result_sha256 c = None /\ RecoveryJob.refusal_code c = None.

Lemma claim_run s j k :
  consistent s -> holds s k -> recovers config now_unix j k -> state k = Pending ->
  exists k1 c bytes, claimed_job config now_unix k = Ok k1 /\
  replace_job k1 s = (Ok c, put (job_path (job_id k)) bytes s) /\
  consistent (put (job_path (job_id k)) bytes s) /\ holds (put (job_path (job_id k)) bytes s) c /\
  (backed s -> backed (put (job_path (job_id k)) bytes s)) /\ claims j c.
Proof.
  intros Hc Hh Hrec Hst. destruct (config_bounds _ config_valid) as (_ & _ & Hmax & _).
  destruct (holds_sealable _ _ _ Hh) as [_ [Hatt Hlife]]. rewrite Hst in Hlife.
  destruct Hlife as (Hlease & Hres & Href & Hlt & Hlen).
  assert (as_u32 (attempts k + 1) = attempts k + 1) as Hu by (apply Z.mod_small; lia).
  unfold claimed_job. rewrite Hu.
  destruct (amend_run config s k (with_state Running (attempts k + 1)
    (Some (saturating_add_u64 now_unix (OperationsConfig.lease_seconds config))) k) now_unix "JOB_CLAIMED")
    as (k1 & c & bytes & Ha & Hr & Hk1 & _ & Hcl & Hf); try done; [lia| |].
  { intros es Hes. split; simpl; [lia|]. split_and!; try done; [lia|lia]. }
  assert (job_id c = job_id k) as Hid by (by rewrite Hcl, Hk1).
  exists k1, c, bytes. split; [done|]. split; [done|]. rewrite <- Hid.
  split; [by apply consistent_put|]. split; [by apply holds_put|]. split.
  { intros Hb. apply backed_put; [done..|]. unfold recorded. rewrite Hcl, Hk1. simpl. by intros [?|?]. }
  assert (same_submission j k /\ attempts k = attempts j) as [Hsub Hat].
  { unfold recovers in Hrec. destruct (lease_expired _ _); [|by subst].
    destruct Hrec as (? & ? & _). done. }
  unfold claims, same_submission in *. rewrite Hcl, Hk1. simpl. rewrite Hres, Href.
  split_and!; try done; try apply Hsub. by rewrite Hat.
Qed.
(** Everything a claim does, once the jobs are read. *)
Definition claim_outcome (s : Store) (l : list RecoveryJob) (r : option (RecoveryJob * Z)) (s' : Store) : Prop :=
  consistent s' /\ results s' = results s /\ root s' = root s /\ (backed s -> backed s') /\
  (forall j, holds s j -> lease_expired now_unix j = false -> state j <> Pending ->
     jobs s' !! job_path (job_id j) = jobs s !! job_path (job_id j)) /\
  match r with
  | None => forall j, holds s j -> claimable config now_unix j = false /\
              exists k, recovers config now_unix j k /\ holds s' k
  | Some (c, n) =>
      n = count (requeued config now_unix) l /\
      exists j, holds s j /\ claimable config now_unix j = true /\
      (forall k, holds s k -> claimable config now_unix k = true ->
         key_le (submission_key j) (submission_key k)) /\
      claims j c /\ holds s' c /\
      (forall k, holds s k -> k <> j -> exists k', recovers config now_unix k k' /\ holds s' k')
  end.

Lemma claim_next_run s l :
  unlocked s -> consistent s -> read_jobs s = (Ok l, s) ->
  exists r s', claim_next config now_unix s = (Ok r, s') /\ claim_outcome s l r s'.
Proof.
  intros Hu Hc Hread. destruct (read_jobs_Ok config s l s Hc Hread) as [_ [Hnd Hl]].
  assert (Forall (holds s) l) as Hall by (apply Forall_forall; intros j; apply Hl).
  destruct (recover_loop_run l (locked s) [] 0) as (ks & s1 & Hloop & Hc1 & Hres1 & Hroot1 & Hb1 & Hks & Hh1 & Hf1);
    [done|exact Hall|done|].
  assert (read_jobs (locked s) = (Ok l, locked s)) as Hread'
    by (injection Hread as Hr; unfold read_jobs, reads; simpl; by rewrite Hr).
  unfold claim_next. rewrite with_lock_run. unfold unlocked in Hu. rewrite Hu.
  rewrite (run_bind _ _ _ _ _ Hread'), (run_bind _ _ _ _ _ Hloop). cbn [app].
  assert (Hframe : forall j, holds s j -> lease_expired now_unix j = false ->
    jobs s1 !! job_path (job_id j) = jobs s !! job_path (job_id j)).
  { intros j Hj He. apply Hf1. intros x Hx He' Heq%job_path_inj. apply Hl in Hx.
    apply (holds_functional config s j x) in Heq; [|done..]. subst. congruence. }
  assert (Hbecomes : forall j, holds s j -> exists k, k ∈ ks /\ recovers config now_unix j k /\ holds s1 k).
  { intros j [i Hi]%Hl%list_elem_of_lookup_1. destruct (Forall2_lookup_l _ _ _ _ _ Hks Hi) as (k & Hk & Hr).
    exists k. apply list_elem_of_lookup_2 in Hk. rewrite Forall_forall in Hh1. auto. }
  assert (Hcomes : forall k, k ∈ ks -> exists j, holds s j /\ recovers config now_unix j k).
  { intros k [i Hi]%list_elem_of_lookup_1. destruct (Forall2_lookup_r _ _ _ _ _ Hks Hi) as (j & Hj & Hr).
    exists j. apply list_elem_of_lookup_2 in Hj. by split; [apply Hl|]. }
  destruct (List.find _ _) as [k|] eqn:Hfind.
  - apply find_sorted_Some in Hfind as (Hk & Hpend & Hleast).
    destruct (Hcomes k Hk) as (j & Hj & Hrec).
    assert (holds s1 k) as Hhk by (rewrite Forall_forall in Hh1; auto).
    destruct (claim_run s1 j k Hc1 Hhk Hrec) as (k1 & c & bytes & Hcl & Hr & Hc2 & Hh2 & Hb2 & Hclaims).
    { by apply bool_decide_eq_true in Hpend. }
    rewrite (run_bind_lift _ _ _ _ Hcl), (run_bind _ _ _ _ _ Hr).
    eexists _, _. split; [reflexivity|].
    assert (claimable config now_unix j = true) as Hcj by (by rewrite <- (recovers_pending j k)).
    unfold claim_outcome. split_and!; [done|done| |exact (fun Hb => Hb2 (Hb1 Hb))| |done|].
    + simpl. rewrite Hroot1. simpl. by rewrite delete_insert_id.
    + intros x Hx He Hp. rewrite <- (Hframe x Hx He). simpl. rewrite lookup_insert_ne; [done|].
      rewrite (recovers_id _ _ Hrec). intros Heq%job_path_inj.
      apply (holds_functional config s j x) in Heq; [|done..]. subst x.
      unfold claimable, requeued, in_state in Hcj. rewrite He, bool_decide_eq_false_2 in Hcj; done.
    + exists j. split_and!; try done.
      * intros x Hx Hcx. destruct (Hbecomes x Hx) as (x' & Hx' & Hrx & _).
        rewrite <- (recovers_key _ _ Hrec), <- (recovers_key _ _ Hrx). apply Hleast; [done|].
        by rewrite (recovers_pending x x').
      * intros x Hx Hne. destruct (Hbecomes x Hx) as (x' & _ & Hrx & Hhx). exists x'. split; [done|].
        apply holds_put_ne; [|done]. rewrite (recovers_id _ _ Hrec), (recovers_id _ _ Hrx).
        intros Heq%job_path_inj. by apply Hne, (holds_functional config s).
  - pose proof (find_sorted_None _ _ _ Hfind) as Hnone. eexists _, _. split; [reflexivity|].
    unfold claim_outcome. split_and!; [done|done| |exact Hb1|auto|].
    + simpl. rewrite Hroot1. simpl. by rewrite delete_insert_id.
    + intros j Hj. destruct (Hbecomes j Hj) as (k & Hk & Hr & Hh). split; [|by exists k].
      rewrite <- (recovers_pending j k) by done. by apply Hnone.
Qed.

Lemma claim_next_failed s :
  consistent s -> ~ (unlocked s /\ exists l, read_jobs s = (Ok l, s)) ->
  exists e, claim_next config now_unix s = (Err e, s).
Proof.
  intros Hc Hno. unfold claim_next. rewrite with_lock_run.
  destruct (root s !! lock_path) eqn:Hu; [by eexists|].
  destruct (read_jobs (locked s)) as [r s1] eqn:Hr. injection Hr as Hr <-.
  destruct r as [l|e].
  - exfalso. apply Hno. split; [done|]. exists l. unfold read_jobs, reads. by rewrite Hr.
  - exists e. unfold mbind, op_bind, read_jobs, reads. simpl in Hr |- *. rewrite Hr.
    by rewrite lock_drop_locked.
Qed.
End Claim.

(** * The other steps *)

Section Others.
Context `{SerdeErrorText, OsErrorText, JsonText, Sha256, Hex}.
Context `{!ToValue RecoveryJob, !FromSlice RecoveryJob, !ToValue JobEvent.JobEvent}.
Context `{!SerdeLaws RecoveryJob, !TotalValue RecoveryJob, !TotalValue JobEvent.JobEvent}.
Variable config : OperationsConfig.OperationsConfig.
Abbreviation consistent := (consistent config).
Abbreviation holds := (holds config).
Abbreviation backed := (backed config).
Abbreviation job_file := (job_file config).

Lemma with_lock_cases {A} (m : op Store Error A) s r s' :
  with_lock m s = (r, s') ->
  (s' = s /\ exists e, r = Err e) \/
  (unlocked s /\ exists s1, m (locked s) = (r, s1) /\ s' = lock_drop s1).
Proof.
  rewrite with_lock_run. destruct (root s !! lock_path) eqn:Hu.
  - intros [= <- <-]. left. by split; [|eexists].
  - destruct (m (locked s)) as [r1 s1]. intros [= <- <-]. right. split; [done|]. by exists s1.
Qed.

Lemma lock_drop_put path bytes s : unlocked s -> lock_drop (put path bytes (locked s)) = put path bytes s.
Proof. intros Hu. unfold lock_drop, put, locked. simpl. by rewrite delete_insert_id. Qed.

Lemma backed_rootless : rootless backed.
Proof. intros r s Hb j Hj. exact (Hb j Hj). Qed.

(** A step that writes one job, [k], over [j] or anew. *)
Definition writes_job (s s' : Store) (k : RecoveryJob) : Prop :=
  exists bytes, s' = put (job_path (job_id k)) bytes s /\ job_file k bytes.

Lemma writes_consistent s s' k : consistent s -> writes_job s s' k -> consistent s'.
Proof. intros Hc (bytes & -> & Hf). by apply consistent_put. Qed.

Lemma writes_backed s s' k :
  backed s -> writes_job s s' k -> recorded (results s) k -> backed s'.
Proof. intros Hb (bytes & -> & Hf). by apply backed_put. Qed.

Lemma writes_frame s s' k path :
  writes_job s s' k -> path <> job_path (job_id k) -> jobs s' !! path = jobs s !! path.
Proof. intros (bytes & -> & _) Hne. simpl. by rewrite lookup_insert_ne. Qed.

Lemma writes_holds s s' k : writes_job s s' k -> holds s' k.
Proof. intros (bytes & -> & Hf). by apply holds_put. Qed.

(** Adding an event and writing back, when there is room for it. *)
Lemma amend_writes s job amended at_unix kind job1 :
  consistent s -> holds s job ->
  job_id amended = job_id job -> version amended = version job -> events amended = events job ->
  append_event amended at_unix kind = Ok job1 -> lifecycle config job1 ->
  exists job2 s', replace_job job1 s = (Ok job2, s') /\ writes_job s s' job2 /\ root s' = root s /\
  job1 = with_events (events job1) amended /\ job2 = with_record_sha256 (record_sha256 job2) job1.
Proof.
  intros Hc [(Hid & Hver & _ & _ & Hch) _]%holds_sealable Ei Ev Ee Ha Hl.
  destruct (append_event_sealable amended at_unix kind job1) as (Hs1 & Hlen & Hj1);
    [by rewrite Ei|by rewrite Ev|by rewrite Ee|done|].
  destruct (replace_job_run config s job1 Hc Hs1 Hl) as (job2 & bytes & Hr & Hj2 & Hf).
  exists job2, (put (job_path (job_id job1)) bytes s). split_and!; try done.
  exists bytes. split; [|done]. by rewrite Hj2.
Qed.

Lemma read_job_cases id s r s' :
  consistent s -> read_job id s = (r, s') ->
  s' = s /\ ((exists e, r = Err e) \/ exists job, r = Ok job /\ job_id job = id /\ holds s job).
Proof.
  intros Hc Hr. destruct r as [job|e].
  - apply (read_job_Ok config) in Hr as (-> & Hid & Hh); [|done]. split; [done|]. right. by exists job.
  - injection Hr as _ <-. split; [done|]. left. by exists e.
Qed.

(** The verdicts [finish] is called with. *)
Definition verdict (outcome : option RefusalCode.RefusalCode) : JobState :=
  match outcome with None => Certified | Some _ => Refused end.

Lemma finish_cases s id now_unix d outcome r s' :
  OperationsConfig.validate config = Ok () -> consistent s ->
  finish id now_unix (verdict outcome) d outcome s = (r, s') ->
  (s' = s /\ exists e, r = Err e) \/
  (r = Ok () /\ root s' = root s /\ exists j k, holds s j /\ job_id j = id /\ state j = Running /\
   writes_job s s' k /\ job_id k = id /\ state k = verdict outcome /\ result_sha256 k = Some d).
Proof.
  intros (_ & _ & Hmax & _)%config_bounds Hc Hrun. unfold finish in Hrun.
  apply with_lock_cases in Hrun as [?|(Hu & s1 & Hm & ->)]; [by left|].
  destruct (read_job id (locked s)) as [rj sj] eqn:Hread.
  destruct (read_job_cases id (locked s) rj sj Hc Hread) as [-> [[e ->]|(j & -> & Hid & Hj)]].
  { unfold mbind, op_bind in Hm. rewrite Hread in Hm. injection Hm as <- <-. left.
    rewrite lock_drop_locked by done. eauto. }
  rewrite (run_bind _ _ _ _ _ Hread) in Hm. unfold in_state in Hm.
  destruct (bool_decide (state j = Running)) eqn:Hst; cbn [negb] in Hm.
  2:{ injection Hm as <- <-. left. rewrite lock_drop_locked by done. eauto. }
  apply bool_decide_eq_true in Hst.
  destruct (holds_sealable _ _ _ Hj) as [(Hvid & Hver & _ & _ & Hch) [Hatt Hlife]].
  rewrite Hst in Hlife. destruct Hlife as (_ & Hres & Href & Hone & Hlen).
  set (kind := match outcome with None => "JOB_CERTIFIED" | Some _ => "JOB_REFUSED" end).
  rewrite (run_bind_lift _ _ _ kind) in Hm by (by destruct outcome).
  set (amended := with_outcome (Some d) outcome (with_state (verdict outcome) (attempts j) None j)) in *.
  destruct (append_event_total amended now_unix kind) as [j1 Ha];
    [simpl; lia|by destruct outcome|].
  destruct (append_event_sealable amended now_unix kind j1) as (_ & Hlen1 & Hj1);
    [done..|].
  destruct (amend_writes (locked s) j amended now_unix kind j1 Hc Hj eq_refl eq_refl eq_refl Ha)
    as (k & s' & Hr & Hw & Hroot & _ & Hk).
  { unfold lifecycle. rewrite Hj1. simpl in Hlen1 |- *. destruct outcome; simpl; split_and!; try done; lia. }
  rewrite (run_bind_lift _ _ _ _ Ha), (run_bind _ _ _ _ _ Hr) in Hm. injection Hm as <- <-.
  right. split; [done|]. destruct Hw as (bytes & -> & Hf). rewrite lock_drop_put by done.
  split; [done|]. exists j, k. split_and!; try done.
  - by exists bytes.
  - rewrite Hk, Hj1. exact Hid.
  - by rewrite Hk, Hj1.
  - by rewrite Hk, Hj1.
Qed.

Lemma finish_failed_cases s id now_unix event r s' :
  consistent s -> finish_failed id now_unix event s = (r, s') ->
  (s' = s /\ exists e, r = Err e) \/
  (r = Ok () /\ root s' = root s /\ exists j k, holds s j /\ job_id j = id /\ writes_job s s' k /\ job_id k = id /\
   state k = Failed /\ result_sha256 k = result_sha256 j).
Proof.
  intros Hc Hrun. unfold finish_failed in Hrun.
  apply with_lock_cases in Hrun as [?|(Hu & s1 & Hm & ->)]; [by left|].
  destruct (read_job id (locked s)) as [rj sj] eqn:Hread.
  destruct (read_job_cases id (locked s) rj sj Hc Hread) as [-> [[e ->]|(j & -> & Hid & Hj)]].
  { unfold mbind, op_bind in Hm. rewrite Hread in Hm. injection Hm as <- <-. left.
    rewrite lock_drop_locked by done. eauto. }
  rewrite (run_bind _ _ _ _ _ Hread) in Hm.
  set (amended := with_state Failed (attempts j) None j) in *.
  destruct (append_event amended now_unix event) as [j1|e] eqn:Ha.
  2:{ injection Hm as <- <-. left. rewrite lock_drop_locked by done. eauto. }
  destruct (holds_sealable _ _ _ Hj) as [(Hvid & Hver & _ & _ & Hch) [Hatt _]].
  destruct (append_event_sealable amended now_unix event j1) as (_ & _ & Hj1); [done..|].
  destruct (amend_writes (locked s) j amended now_unix event j1 Hc Hj eq_refl eq_refl eq_refl Ha)
    as (k & s' & Hr & Hw & Hroot & _ & Hk).
  { unfold lifecycle. by rewrite Hj1. }
  rewrite (run_bind_lift _ _ _ _ eq_refl), (run_bind _ _ _ _ _ Hr) in Hm. injection Hm as <- <-.
  right. split; [done|]. destruct Hw as (bytes & -> & Hf). rewrite lock_drop_put by done.
  split; [done|]. exists j, k. split_and!; try done.
  - by exists bytes.
  - rewrite Hk, Hj1. exact Hid.
  - by rewrite Hk, Hj1.
  - by rewrite Hk, Hj1.
Qed.

Lemma write_result_cases s id bytes r s' :
  write_result id bytes s = (r, s') ->
  jobs s' = jobs s /\ root s' = root s /\
  ((results s' = results s /\ (r = Ok () -> results s !! job_path id = Some bytes)) \/
   (results s !! job_path id = None /\ r = Ok () /\ results s' = <[job_path id := bytes]> (results s))).
Proof.
  unfold write_result, in_results, mbind, op_bind, reads, fail, lift, mret, op_ret, write_new, read_regular.
  destruct (results s !! job_path id) as [old|] eqn:Ho.
  - rewrite bool_decide_eq_true_2 by (by eexists). rewrite Ho.
    destruct (_ <? _); [intros [= <- <-]; split_and!; try done; by left|].
    destruct (bool_decide (old = bytes)) eqn:Heq; intros [= <- <-]; split_and!; try done; left; [|done].
    apply bool_decide_eq_true in Heq. by subst.
  - rewrite bool_decide_eq_false_2 by (by intros [? ?]). rewrite Ho.
    intros [= <- <-]. split_and!; try done. by right.
Qed.

Lemma write_result_backed s id bytes r s' :
  write_result id bytes s = (r, s') -> backed s -> backed s'.
Proof.
  intros (Hj & _ & Hr)%write_result_cases Hb job Hh.
  apply (holds_jobs config s s' job Hj) in Hh. intros Hs. destruct (Hb job Hh Hs) as (old & Ho & Hd).
  exists old. split; [|done]. destruct Hr as [[-> _]|(Hn & _ & ->)]; [done|].
  rewrite lookup_insert_ne; [done|]. intros Heq. congruence.
Qed.

(** ** Enqueueing *)

Lemma substring_bytes n s : bytes_of_string (String.substring 0 n s) = take n (bytes_of_string s).
Proof.
  revert n. induction s as [|c s IH]; intros [|n]; try done. simpl. f_equal. apply IH.
Qed.

Lemma new_job_id `{!Sha256Laws, !HexLaws} bytes :
  validate_job_id ("job-" +:+ String.substring 0 24 (bytes_digest bytes)) = Ok ().
Proof.
  unfold validate_job_id. unfold bytes_digest, Core.bytes_digest.
  set (d := hex_encode (sha256 bytes)).
  assert (str_len d = 64) as Hlen.
  { unfold d. rewrite hex_encode_length, sha256_length. done. }
  assert (Hs : bytes_of_string ("job-" +:+ String.substring 0 24 d) =
               bytes_of_string "job-" ++ take 24 (bytes_of_string d)).
  { by rewrite string_app_bytes, substring_bytes. }
  rewrite <- bytes_of_string_length in Hlen |- *. rewrite Hs, length_app, length_take.
  rewrite (drop_app_length' (bytes_of_string "job-")) by done.
  assert (all is_ascii_hexdigit (take 24 (bytes_of_string d)) = true) as ->.
  { apply all_true, Forall_take. pose proof (hex_encode_digits _ (sha256_bytes bytes)) as Hd.
    eapply Forall_impl; [exact Hd|]. intros b. unfold is_ascii_hexdigit.
    intros [-> | ->]%orb_true_iff; by rewrite ?orb_true_r. }
  destruct (negb (_ =? 28)) eqn:E; [|by destruct d].
  apply negb_true_iff, Z.eqb_neq in E. simpl length in E. lia.
Qed.

Context `{!ToValue (string * Z), !ToValue (btree_map string string), !Sha256Laws, !HexLaws}.

Lemma enqueue_cases s canonicalize tree workspace submitted r s' :
  OperationsConfig.validate config = Ok () -> consistent s ->
  enqueue config canonicalize tree workspace submitted s = (r, s') ->
  (s' = s /\ exists e, r = Err e) \/
  (exists receipt k, r = Ok receipt /\ root s' = root s /\ jobs s !! job_path (job_id k) = None /\
   writes_job s s' k /\ job_id k = EnqueueReceipt.job_id receipt /\ state k = Pending /\
   submitted_unix k = submitted /\
   workspace_sha256 k = EnqueueReceipt.workspace_sha256 receipt).
Proof.
  intros (_ & _ & Hmax & _)%config_bounds Hc Hrun. unfold enqueue in Hrun.
  destruct (canonicalize workspace) as [w|e] eqn:Hw;
    [rewrite (run_bind_lift _ _ _ _ eq_refl) in Hrun|injection Hrun as <- <-; left; eauto].
  destruct (validate_directory (tree w)) as [[]|e];
    [rewrite (run_bind_lift _ _ _ _ eq_refl) in Hrun|injection Hrun as <- <-; left; eauto].
  destruct (digest_workspace_reference (tree w)) as [d|e];
    [rewrite (run_bind_lift _ _ _ _ eq_refl) in Hrun|injection Hrun as <- <-; left; eauto].
  apply with_lock_cases in Hrun as [?|(Hu & s1 & Hm & ->)]; [by left|].
  destruct (read_jobs (locked s)) as [rl sj] eqn:Hread.
  assert (sj = locked s) as -> by (by injection Hread). destruct rl as [l|e].
  2:{ unfold mbind, op_bind in Hm. rewrite Hread in Hm. injection Hm as <- <-. left.
      rewrite lock_drop_locked by done. eauto. }
  rewrite (run_bind _ _ _ _ _ Hread) in Hm.
  destruct (_ <=? count _ _); [injection Hm as <- <-; left; rewrite lock_drop_locked by done; eauto|].
  destruct (encode (d, submitted)) as [m|e];
    [rewrite (run_bind_lift _ _ _ _ eq_refl) in Hm
    |injection Hm as <- <-; left; rewrite lock_drop_locked by done; eauto].
  cbv zeta in Hm. set (id := "job-" +:+ _) in Hm.
  assert (validate_job_id id = Ok ()) as Hid by apply new_job_id.
  erewrite (run_bind _ _ (locked s) _ (locked s)) in Hm by reflexivity.
  destruct (bool_decide (is_Some _)) eqn:Hpres;
    [injection Hm as <- <-; left; rewrite lock_drop_locked by done; eauto|].
  apply bool_decide_eq_false, eq_None_not_Some in Hpres. simpl in Hpres.
  set (j0 := {| RecoveryJob.version := _ |}) in Hm.
  destruct (append_event_total j0 submitted "JOB_ENQUEUED") as [j1 Ha]; [done..|].
  destruct (append_event_sealable j0 submitted "JOB_ENQUEUED" j1) as (Hs1 & Hlen1 & Hj1); [done..|].
  rewrite (run_bind_lift _ _ _ _ Ha) in Hm. destruct (seal_record_total j1) as [k Hk].
  rewrite (run_bind_lift _ _ _ _ Hk) in Hm. destruct (seal_record_Ok _ _ Hs1 Hk) as [Hk' Hv].
  destruct (encode_total k) as [bytes He]. rewrite (run_bind_lift _ _ _ _ He) in Hm.
  assert (in_jobs (write_new (job_path id) bytes) (locked s) = (Ok (), put (job_path id) bytes (locked s))) as Hwr.
  { unfold in_jobs, write_new. simpl. by rewrite Hpres. }
  rewrite (run_bind _ _ _ _ _ Hwr) in Hm. injection Hm as <- <-. right.
  rewrite lock_drop_put by done. eexists _, k. split; [reflexivity|]. split; [done|].
  assert (job_id k = id) as Hkid by (by rewrite Hk', Hj1).
  split; [by rewrite Hkid|]. split; [|by rewrite Hk', Hj1].
  exists bytes. rewrite Hkid. split; [done|]. split_and!; try done.
  unfold lifecycle. rewrite Hk', Hj1. simpl in Hlen1 |- *. split_and!; try done; lia.
Qed.

(** ** Pruning *)

(** A job and its result leave together. *)
Definition without (path : string) (s : Store) : Store :=
  {| root := root s; jobs := delete path (jobs s); results := delete path (results s) |}.

Lemma holds_without s path j : holds (without path s) j <-> holds s j /\ path <> job_path (job_id j).
Proof.
  unfold holds, Queue.holds. simpl. split.
  - intros (bytes & [Hne Hb]%lookup_delete_Some & Hf). split; [by exists bytes|done].
  - intros [(bytes & Hb & Hf) Hne]. exists bytes. by rewrite lookup_delete_ne.
Qed.

Lemma consistent_without s path : consistent s -> consistent (without path s).
Proof. apply map_Forall_delete. Qed.

Lemma backed_without s path : backed s -> backed (without path s).
Proof.
  intros Hb j [Hj Hne]%holds_without Hs. destruct (Hb j Hj Hs) as (bytes & Hr & Hd).
  exists bytes. simpl. by rewrite lookup_delete_ne.
Qed.

Lemma prune_job_cases s j removed r s' :
  holds s j -> prune_job j removed s = (r, s') ->
  (s' = s /\ exists e, r = Err e) \/
  (r = Ok (removed ++ [{| PrunedJob.job_id := job_id j; PrunedJob.record_sha256 := record_sha256 j;
                          PrunedJob.result_sha256 := result_sha256 j |}]) /\
   s' = without (job_path (job_id j)) s /\
   result_sha256 j = bytes_digest <$> (results s !! job_path (job_id j))).
Proof.
  intros (bytes & Hb & _). unfold prune_job, in_results, in_jobs, mbind, op_bind, reads, fail, lift, mret,
    op_ret, read_regular, remove_file.
  destruct (results s !! job_path (job_id j)) as [res|] eqn:Hres.
  - rewrite bool_decide_eq_true_2 by (by eexists).
    destruct s as [rt js rs]; simpl in *. rewrite Hres.
    destruct (_ <? _); [intros [= <- <-]; left; eauto|].
    destruct (bool_decide (result_sha256 j = _)) eqn:Hd; simpl; [|intros [= <- <-]; left; eauto].
    apply bool_decide_eq_true in Hd. rewrite Hres. cbn. rewrite Hb.
    intros [= <- <-]. right. done.
  - rewrite bool_decide_eq_false_2 by (by intros [? ?]). destruct s as [rt js rs]; simpl in *.
    destruct (result_sha256 j) eqn:Hd.
    + rewrite bool_decide_eq_true_2 by (by eexists). intros [= <- <-]. left. eauto.
    + rewrite bool_decide_eq_false_2 by (by intros [? ?]). cbn. rewrite Hb.
      intros [= <- <-]. right.
      split; [done|]. split; [|done]. unfold without. simpl. by rewrite (delete_id rs).
Qed.

Lemma prune_loop s l removed r s' :
  consistent s -> backed s -> Forall (holds s) l -> NoDup (job_id <$> l) ->
  op_for l removed prune_job s = (r, s') ->
  consistent s' /\ backed s' /\ root s' = root s /\
  (forall path, (forall j, j ∈ l -> path <> job_path (job_id j)) ->
     jobs s' !! path = jobs s !! path /\ results s' !! path = results s !! path).
Proof.
  revert s removed. induction l as [|j l IH]; intros s removed Hc Hb Hall Hnd Hrun.
  - by injection Hrun as <- <-.
  - apply Forall_cons in Hall as [Hj Hall]. apply NoDup_cons in Hnd as [Hni Hnd].
    cbn [op_for] in Hrun. destruct (prune_job j removed s) as [r1 s1] eqn:Hp.
    destruct (prune_job_cases _ _ _ _ _ Hj Hp) as [[-> [e ->]]|(-> & -> & _)].
    { unfold mbind, op_bind in Hrun. rewrite Hp in Hrun. by injection Hrun as <- <-. }
    rewrite (run_bind _ _ _ _ _ Hp) in Hrun.
    eapply IH in Hrun as (Hc' & Hb' & Hroot & Hf);
      [|by apply consistent_without|by apply backed_without| |done].
    2:{ rewrite Forall_forall in *. intros x Hx. apply holds_without. split; [by apply Hall|].
      intros Heq%job_path_inj. apply Hni. rewrite Heq. by apply list_elem_of_fmap_2. }
    split_and!; try done. intros path Hpath. destruct (Hf path) as [-> ->].
    { intros x Hx. apply Hpath. by constructor. }
    simpl. rewrite !lookup_delete_ne; [done|..]; intros <-; apply (Hpath j); by constructor.
Qed.

Lemma prune_cases s before max_remove r s' :
  consistent s -> backed s -> prune_terminal before max_remove s = (r, s') ->
  consistent s' /\ backed s' /\ root s' = root s /\
  (forall j, holds s j -> submitted_unix j < before /\ is_terminal j = true \/
     (jobs s' !! job_path (job_id j) = jobs s !! job_path (job_id j) /\
      results s' !! job_path (job_id j) = results s !! job_path (job_id j))).
Proof.
  intros Hc Hb Hrun. unfold prune_terminal in Hrun.
  assert (Hsame : consistent s /\ backed s /\ root s = root s /\
    (forall j, holds s j -> submitted_unix j < before /\ is_terminal j = true \/
      (jobs s !! job_path (job_id j) = jobs s !! job_path (job_id j) /\
       results s !! job_path (job_id j) = results s !! job_path (job_id j)))).
  { split_and!; try done. intros j _. by right. }
  destruct (negb _); [by injection Hrun as <- <-|].
  apply with_lock_cases in Hrun as [[-> _]|(Hu & s1 & Hm & ->)]; [done|].
  destruct (read_jobs (locked s)) as [rl sj] eqn:Hread.
  assert (sj = locked s) as -> by (by injection Hread). destruct rl as [l|e].
  2:{ unfold mbind, op_bind in Hm. rewrite Hread in Hm. injection Hm as <- <-. by rewrite lock_drop_locked. }
  rewrite (run_bind _ _ _ _ _ Hread) in Hm.
  destruct (read_jobs_Ok config _ _ _ (Hc : consistent (locked s)) Hread) as [_ [Hnd Hl]].
  set (old := filter _ l) in Hm. set (chosen := take _ _) in Hm.
  assert (Hchosen : forall j, j ∈ chosen -> j ∈ old).
  { intros j Hj. unfold chosen in Hj. apply subseteq_take in Hj. by apply elem_of_sort_by_key in Hj. }
  assert (Hold : forall j, j ∈ old -> holds s j /\ submitted_unix j < before /\ is_terminal j = true).
  { intros j [[Hlt Ht]%andb_true_iff Hj%Hl]%list_elem_of_filter. apply Z.ltb_lt in Hlt. done. }
  destruct (op_for chosen [] prune_job (locked s)) as [ro s2] eqn:Hloop.
  destruct (prune_loop (locked s) chosen [] ro s2 Hc Hb) as (Hc2 & Hb2 & Hroot2 & Hf2); try done.
  { apply Forall_forall. intros j Hj. by apply Hold, Hchosen. }
  { unfold chosen. eapply sublist_NoDup; [|apply fmap_sublist, sublist_take].
    rewrite (sort_by_key_perm submission_key). unfold old.
    by eapply sublist_NoDup, fmap_sublist, sublist_filter. }
  assert (s1 = s2) as ->.
  { unfold mbind, op_bind in Hm. rewrite Hloop in Hm. destruct ro; by injection Hm. }
  split; [exact Hc2|]. split; [exact Hb2|]. split.
  { simpl. rewrite Hroot2. simpl. by rewrite delete_insert_id. }
  intros j Hj. destruct (decide (j ∈ chosen)) as [Hin|Hni].
  - left. by apply Hold, Hchosen.
  - right. apply (Hf2 (job_path (job_id j))). intros x Hx Heq%job_path_inj. apply Hni.
    assert (j = x) as ->; [|done]. apply (holds_functional config s); [done| |done].
    by apply Hold, Hchosen.
Qed.
End Others.
