(* ===== verification/Runners.v ===== *)
(** Runs of the durable queue of [Operations]: the operations as commands, the stores
    they reach from a new one in any interleaving, and what holds along such runs, by
    induction on them; [run_batch] is one such run.  The properties of the queue and
    their witnesses are here, their lemmas in [Queue]. *)
From stdpp Require Import pretty.
From S2P Require Import Prelude Effects FileTree External Json Core Model Canonical Operations Queue.
From S2P Require Fragments Protocol.
Import RecoveryJob.

(** * Commands *)

Inductive command :=
| Enqueue (canonicalize : string -> result Error string) (tree : string -> option Node)
    (workspace : string) (submitted_unix : Z)
| ClaimNext (now_unix : Z)
| WriteResult (id : string) (bytes : list Z)
| Finish (id : string) (now_unix : Z) (bytes : list Z) (outcome : option RefusalCode.RefusalCode)
| FinishFailed (id : string) (now_unix : Z) (event : string)
| PruneTerminal (submitted_before_unix max_remove : Z)
| Acquire (pid : Z) (display : string) (clock : result Error Z) (lease_seconds : Z)
| Renew (runner_id : string) (clock : result Error Z) (lease_seconds : Z)
| DropLease (runner_id : string)
| ReadStatus
| ReadResult (id : string)
| Support (generated_unix : Z).

(** An operation whose result is not looked at. *)
Definition discard {S E A} (m : op S E A) : op S E () := _ ← m; mret ().

Lemma discard_store {S E A} (m : op S E A) s : (discard m s).2 = (m s).2.
Proof. unfold discard, mbind, op_bind. by destruct (m s) as [[] ]. Qed.

Section Runners.
Context `{SerdeErrorText, OsErrorText, JsonText, Sha256, Hex}.
Context `{!ToValue OperationsConfig.OperationsConfig, !FromSlice json}.
Context `{!ToValue RecoveryJob, !FromSlice RecoveryJob, !ToValue JobEvent.JobEvent}.
Context `{!ToValue RunnerLeaseRecord.RunnerLeaseRecord, !FromSlice RunnerLeaseRecord.RunnerLeaseRecord}.
Context `{!ToValue (string * Z), !ToValue (btree_map string string), !ToValue SupportBundle.SupportBundle}.
Context `{!ToValue Protocol.RecoveryResult}.
Variable config : OperationsConfig.OperationsConfig.

Definition perform (c : command) : op Store Error () :=
  match c with
  | Enqueue canonicalize tree workspace submitted =>
      discard (enqueue config canonicalize tree workspace submitted)
  | ClaimNext now_unix => discard (claim_next config now_unix)
  | WriteResult id bytes => write_result id bytes
  | Finish id now_unix bytes outcome =>
      finish id now_unix (verdict outcome) (bytes_digest bytes) outcome
  | FinishFailed id now_unix event => finish_failed id now_unix event
  | PruneTerminal before max_remove => discard (prune_terminal before max_remove)
  | Acquire pid display clock lease_seconds => discard (runner_acquire pid display clock lease_seconds)
  | Renew runner_id clock lease_seconds => renew_runner_lease runner_id clock lease_seconds
  | DropLease runner_id => fun s => (Ok (), runner_drop runner_id s)
  | ReadStatus => discard (status config)
  | ReadResult id => discard (result_ id)
  | Support generated_unix => discard (support_bundle config generated_unix)
  end.

(** [finish] is called after [write_result], with the digest of what was written. *)
Definition enabled (s : Store) (c : command) : Prop :=
  match c with
  | Finish id _ bytes _ => results s !! job_path id = Some bytes
  | _ => True
  end.

(** Runs of commands that satisfy [ok], each succeeding or failing. *)
Inductive steps (ok : command -> Prop) (s : Store) : Store -> Prop :=
| steps_refl : steps ok s s
| steps_step s1 c : steps ok s s1 -> ok c -> enabled s1 c -> steps ok s (perform c s1).2.

Definition any_command (c : command) : Prop := True.

(** The stores of a root that [create] made. *)
Definition reachable (s : Store) : Prop :=
  exists s0, create None config = (Ok config, Some s0) /\ steps any_command s0 s.

Lemma steps_trans ok s1 s2 s3 : steps ok s1 s2 -> steps ok s2 s3 -> steps ok s1 s3.
Proof. intros H12. induction 1; [done|by constructor]. Qed.

Lemma steps_one (ok : command -> Prop) s c : ok c -> enabled s c -> steps ok s (perform c s).2.
Proof. intros. by constructor; [constructor|..]. Qed.

Lemma steps_inv (ok : command -> Prop) (I : Store -> Prop) s s' :
  (forall t c, I t -> ok c -> enabled t c -> I (perform c t).2) -> steps ok s s' -> I s -> I s'.
Proof. intros Hstep. induction 1; eauto. Qed.

(** ** What each command may touch *)

Context `{!SerdeLaws RecoveryJob, !TotalValue RecoveryJob, !TotalValue JobEvent.JobEvent}.
Context `{!Sha256Laws, !HexLaws}.
Hypothesis config_valid : OperationsConfig.validate config = Ok ().

Definition wf_store (s : Store) : Prop := consistent config s /\ backed config s.

(** Commands that only use the files of the root. *)
Definition on_root (c : command) : Prop :=
  match c with Acquire _ _ _ _ | Renew _ _ _ | DropLease _ => True | _ => False end.

(** Operations under the lock that read the store. *)
Lemma with_lock_reads {A} (m : op Store Error A) s :
  (forall t, (m t).2 = t) -> (with_lock m s).2 = s.
Proof.
  intros Hm. rewrite with_lock_run. destruct (root s !! lock_path) eqn:Hu; [done|].
  specialize (Hm (locked s)). destruct (m (locked s)) as [r s1]. simpl in Hm |- *. subst.
  by apply lock_drop_locked.
Qed.

Lemma bind_reads {S E A B} (m : op S E A) (f : A -> op S E B) t :
  (m t).2 = t -> (forall a, (f a t).2 = t) -> ((m ≫= f) t).2 = t.
Proof. intros Hm Hf. unfold mbind, op_bind. destruct (m t) as [[] ]; simpl in *; by subst. Qed.

#[local] Instance on_root_dec c : Decision (on_root c).
Proof. destruct c; apply _. Defined.

Lemma keeps_in_root {A} P (m : op Directory Error A) : rootless P -> keeps P (in_root m).
Proof.
  intros HP s Hs. unfold in_root. destruct (m (root s)) as [[] d]; by apply HP.
Qed.

Lemma keeps_try {A} P (m : op Store Error A) : keeps P m -> keeps P (try_op m).
Proof. intros Hm s Hs. specialize (Hm s Hs). unfold try_op. by destruct (m s) as [[] ]. Qed.

#[local] Hint Resolve keeps_in_root keeps_try : keeps.

Lemma on_root_keeps P c : rootless P -> on_root c -> keeps P (perform c).
Proof.
  intros HP Hc. destruct c; try done; simpl.
  - apply keeps_bind; [|auto with keeps]. apply keeps_with_lock; [done|]. keeps_steps.
  - apply keeps_with_lock; [done|]. keeps_steps.
  - intros s Hs. unfold runner_drop. repeat case_match; try done.
    apply (keeps_run P); [by apply keeps_in_root|done].
Qed.

(** Reports leave the store as it is. *)
Definition reads_only (c : command) : Prop :=
  match c with ReadStatus | ReadResult _ | Support _ => True | _ => False end.

#[local] Instance reads_only_dec c : Decision (reads_only c).
Proof. destruct c; apply _. Defined.

Lemma reads_only_store c s : reads_only c -> (perform c s).2 = s.
Proof.
  intros Hc. destruct c; try done; simpl; rewrite ?discard_store; apply with_lock_reads; intros t;
    repeat (apply bind_reads || case_match || intros ? || done || (by destruct t)).
Qed.


(** Commands that may end a job's record: pruning it, or declaring it failed. *)
Definition spares (id : string) (c : command) : Prop :=
  match c with
  | PruneTerminal _ _ => False
  | FinishFailed id' _ _ => id' <> id
  | _ => True
  end.

(** The file and the result of a job are as they were. *)
Definition untouched (j : RecoveryJob) (s s' : Store) : Prop :=
  jobs s' !! job_path (job_id j) = jobs s !! job_path (job_id j) /\
  (is_Some (results s !! job_path (job_id j)) ->
   results s' !! job_path (job_id j) = results s !! job_path (job_id j)).

Definition settled_by (s s' : Store) (c : command) : Prop :=
  forall j, holds config s j -> is_terminal j = true -> spares (job_id j) c -> untouched j s s'.

(** What one command does: it keeps the store well formed, leaves the files of the root
    to the lease commands, and terminal jobs as they are. *)
Definition behaves (s : Store) (c : command) (s' : Store) : Prop :=
  wf_store s' /\ (on_root c \/ root s' = root s) /\ settled_by s s' c.

Lemma untouched_same j s s' : jobs s' = jobs s -> results s' = results s -> untouched j s s'.
Proof. intros Hj Hr. unfold untouched. by rewrite Hj, Hr. Qed.

Lemma behaves_same s c s' :
  wf_store s -> jobs s' = jobs s -> results s' = results s -> on_root c \/ root s' = root s -> behaves s c s'.
Proof.
  intros [Hc Hb] Hj Hr Hroot. split_and!; [|done|].
  - split; [unfold consistent; by rewrite Hj|]. intros j Hh. rewrite Hr. apply Hb.
    by apply (holds_jobs config s s').
  - intros j _ _ _. by apply untouched_same.
Qed.

(** One job's file was written: it was not that of a terminal job. *)
Lemma behaves_write s c s' k :
  wf_store s -> writes_job config s s' k -> root s' = root s -> recorded (results s) k ->
  (forall j, holds config s j -> is_terminal j = true -> spares (job_id j) c -> job_id j <> job_id k) ->
  behaves s c s'.
Proof.
  intros [Hc Hb] Hw Hroot Hrec Hne. split_and!; [split|by right|].
  - by eapply writes_consistent.
  - by eapply writes_backed.
  - intros j Hj Ht Hs. split.
    + eapply writes_frame; [done|]. intros Heq%job_path_inj. by eapply Hne.
    + by destruct Hw as (bytes & -> & _).
Qed.

Lemma terminal_state j : is_terminal j = true <-> state j <> Pending /\ state j <> Running.
Proof. unfold is_terminal, in_state. destruct (state j); split; try done; by intros [? ?]. Qed.

Lemma claim_behaves s now_unix : wf_store s -> behaves s (ClaimNext now_unix) (perform (ClaimNext now_unix) s).2.
Proof.
  intros [Hc Hb]. simpl. rewrite discard_store.
  destruct (decide (unlocked s)) as [Hu|Hu].
  2:{ destruct (claim_next_failed config now_unix s Hc) as [e ->]; [tauto|].
      apply behaves_same; auto. by split. }
  destruct (read_jobs s) as [[l|e] s1] eqn:Hread; assert (s1 = s) as -> by (by injection Hread).
  2:{ destruct (claim_next_failed config now_unix s Hc) as [e' ->].
      { intros (_ & l & Hl). congruence. }
      apply behaves_same; auto. by split. }
  destruct (claim_next_run config config_valid now_unix s l Hu Hc Hread)
    as (r & s' & -> & Hc' & Hres & Hroot & Hb' & Hf & _).
  split_and!; [split; [done|by apply Hb']|by right|].
  intros j Hj [Hp Hr]%terminal_state _. split; [|by simpl; rewrite Hres]. apply Hf; [done| |done].
  destruct (lease_expired now_unix j) eqn:He; [|done]. by apply lease_expired_running in He.
Qed.

Lemma perform_behaves s c : wf_store s -> enabled s c -> behaves s c (perform c s).2.
Proof.
  intros Hwf Hen. destruct (decide (on_root c)) as [Hroot|Hroot].
  { assert (keeps (fun t => jobs t = jobs s /\ results t = results s) (perform c)) as Hk
      by (apply on_root_keeps; [by intros r t|done]).
    destruct (keeps_run _ _ s Hk) as [Hj Hr]; [done|]. apply behaves_same; auto. }
  destruct (decide (reads_only c)) as [Hread|Hread].
  { rewrite reads_only_store by done. apply behaves_same; auto. }
  pose proof Hwf as [Hc Hb]. destruct c; try done; simpl in Hroot, Hread |- *; rewrite ?discard_store.
  - destruct (enqueue _ _ _ _ _ s) as [r s'] eqn:Hrun. simpl.
    apply (enqueue_cases config) in Hrun as [[-> _]|(rc & k & _ & Hrt & Hnone & Hw & _ & Hst & _)]; try done.
    + apply behaves_same; auto.
    + eapply behaves_write; try done; [unfold recorded; rewrite Hst; by intros [?|?]|].
      intros j (bytes & Hj & _) _ _ Heq. rewrite Heq in Hj. congruence.
  - pose proof (claim_behaves s now_unix Hwf) as Hcl. simpl in Hcl. by rewrite discard_store in Hcl.
  - destruct (write_result id bytes s) as [r s'] eqn:Hrun. simpl.
    pose proof (write_result_backed config _ _ _ _ _ Hrun Hb) as Hb'.
    apply write_result_cases in Hrun as (Hj & Hrt & Hres). split_and!; [|by right|].
    + split; [|done]. unfold consistent. by rewrite Hj.
    + intros j _ _ _. split; [by rewrite Hj|]. intros [old Hold].
      destruct Hres as [[-> _]|(Hn & _ & ->)]; [done|]. rewrite lookup_insert_ne; [done|]. congruence.
  - destruct (finish _ _ _ _ _ s) as [r s'] eqn:Hrun. simpl.
    apply (finish_cases config) in Hrun
      as [[-> _]|(_ & Hrt & j & k & Hj & Hid & Hst & Hw & Hkid & Hkst & Hkd)]; try done.
    + apply behaves_same; auto.
    + eapply behaves_write; try done.
      * intros _. exists bytes. by rewrite Hkid.
      * intros x Hx [_ Hr]%terminal_state _ Heq. apply Hr.
        assert (x = j) as ->; [|done]. apply (holds_functional config s); [done..|congruence].
  - destruct (finish_failed _ _ _ s) as [r s'] eqn:Hrun. simpl.
    apply (finish_failed_cases config) in Hrun
      as [[-> _]|(_ & Hrt & j & k & Hj & Hid & Hw & Hkid & Hkst & _)]; [| |done].
    + apply behaves_same; auto.
    + eapply behaves_write; try done.
      * unfold recorded. rewrite Hkst. by intros [?|?].
      * intros x Hx _ Hs Heq. apply Hs. congruence.
  - destruct (prune_terminal _ _ s) as [r s'] eqn:Hrun. simpl.
    apply (prune_cases config) in Hrun as (Hc' & Hb' & Hrt & _); [|done..].
    split_and!; [by split|by right|]. by intros j _ _ [].
Qed.

Lemma steps_wf ok s s' : steps ok s s' -> wf_store s -> wf_store s'.
Proof. apply steps_inv. intros t c Ht _ Hen. by apply perform_behaves. Qed.

(** ** A batch is a run *)

(** The commands of a batch at one instant: it neither submits nor prunes. *)
Definition of_batch (now_unix : Z) (c : command) : Prop :=
  match c with
  | ClaimNext now | Finish _ now _ _ => now = now_unix
  | FinishFailed _ now event =>
      now = now_unix /\ (event = "WORKSPACE_CHANGED_AFTER_ADMISSION" \/ event = "RESULT_BOUND_EXCEEDED")
  | WriteResult _ _ | Acquire _ _ _ _ | DropLease _ => True
  | _ => False
  end.

Lemma keeps_command {A} (ok : command -> Prop) s (m : op Store Error A) c :
  ok c -> (forall t, (m t).2 = (perform c t).2) -> (forall t, enabled t c) -> keeps (steps ok s) m.
Proof.
  intros Hok Hm Hen t Ht. assert (steps ok s (m t).2) as Hs by (rewrite Hm; by constructor).
  by destruct (m t) as [[] ].
Qed.

Lemma run_job_keeps s now_unix failure tree executor i receipt :
  keeps (steps (of_batch now_unix) s) (run_job config now_unix failure tree executor i receipt).
Proof.
  assert (Hfail : forall id event,
    event = "WORKSPACE_CHANGED_AFTER_ADMISSION" \/ event = "RESULT_BOUND_EXCEEDED" ->
    keeps (steps (of_batch now_unix) s) (finish_failed id now_unix event)).
  { intros id event He. by apply (keeps_command _ _ _ (FinishFailed id now_unix event)). }
  assert (Hclaim : keeps (steps (of_batch now_unix) s) (claim_next config now_unix)).
  { apply (keeps_command _ _ _ (ClaimNext now_unix)); [done| |done]. intros u. symmetry. apply discard_store. }
  assert (Hfinish : forall id encoded outcome st B (a : B),
    st = verdict outcome ->
    keeps (steps (of_batch now_unix) s)
      (_ ← write_result id encoded; _ ← finish id now_unix st (bytes_digest encoded) outcome; mret a)).
  { intros id encoded outcome st B a ->.
    eapply triple_bind with (M := fun _ t => steps (of_batch now_unix) s t /\ results t !! job_path id = Some encoded).
    - intros u Hu. pose proof (steps_step _ _ u (WriteResult id encoded) Hu I I) as Hs. simpl in Hs.
      destruct (write_result id encoded u) as [[[]|e] u'] eqn:Hw; [|done]. split; [done|].
      apply write_result_cases in Hw as (_ & _ & [[-> Hr]|(_ & _ & ->)]); [by apply Hr|].
      by rewrite lookup_insert_eq.
    - intros _ u [Hu Hr]. pose proof (steps_step _ _ u (Finish id now_unix encoded outcome) Hu eq_refl Hr) as Hs.
      simpl in Hs. unfold mbind, op_bind. by destruct (finish _ _ _ _ _ u) as [[] ]. }
  unfold run_job. destruct receipt. apply keeps_bind; [done|]. intros [[job n]|]; [|apply keeps_ret].
  destruct (bool_decide _); [apply keeps_fail|]. apply keeps_bind; [apply keeps_lift|]. intros actual.
  destruct (negb _). { apply keeps_bind; [by apply Hfail; left|intros; apply keeps_ret]. }
  cbv zeta. apply keeps_bind; [apply keeps_lift|]. intros encoded.
  destruct (_ <? _). { apply keeps_bind; [by apply Hfail; right|intros; apply keeps_ret]. }
  destruct (executor i _); by apply Hfinish.
Qed.

Lemma run_jobs_keeps s now_unix failure tree executor n : forall i receipt,
  keeps (steps (of_batch now_unix) s) (run_jobs config now_unix failure tree executor n i receipt).
Proof.
  induction n as [|n IH]; intros i receipt; [apply keeps_ret|]. cbn [run_jobs].
  apply keeps_bind; [apply run_job_keeps|]. intros [r|]; [apply IH|apply keeps_ret].
Qed.

Lemma run_batch_steps pid display clock now_unix failure tree executor s :
  steps (of_batch now_unix) s (run_batch config pid display clock now_unix failure tree executor s).2.
Proof.
  unfold run_batch, mbind, op_bind.
  pose proof (steps_one (of_batch now_unix) s
    (Acquire pid display clock (OperationsConfig.lease_seconds config)) I I) as Hacq.
  simpl in Hacq. rewrite discard_store in Hacq.
  destruct (runner_acquire _ _ _ _ s) as [[id|e] s1]; [|exact Hacq]. simpl in Hacq.
  unfold finally. match goal with |- context [run_jobs ?c ?now ?f ?t ?e ?n ?i ?r] =>
    pose proof (keeps_run _ _ s1 (run_jobs_keeps s now f t e n i r) Hacq) as Hrun;
    destruct (run_jobs c now f t e n i r s1) as [r2 s2] end.
  simpl in Hrun |- *. exact (steps_step _ _ s2 (DropLease id) Hrun I I).
Qed.

(** ** Holding the runner lease *)

Context `{!SerdeLaws RunnerLeaseRecord.RunnerLeaseRecord}.

Definition lease_held (s : Store) (id : string) (until : Z) : Prop :=
  exists bytes r, root s !! runner_lease_path = Some bytes /\ vec_len bytes <= 16384 /\
  from_slice bytes = Some r /\ RunnerLeaseRecord.version r = "runner-lease-v1" /\
  RunnerLeaseRecord.runner_id r = id /\ until <= RunnerLeaseRecord.expires_unix r.

(** What others may do, and the holder's renewals. *)
Definition respects (id : string) (until : Z) (c : command) : Prop :=
  match c with
  | Acquire _ _ (Ok now_unix) _ => now_unix < until
  | Renew id' (Ok now_unix) lease_seconds => id' = id -> until <= saturating_add_u64 now_unix lease_seconds
  | DropLease id' => id' <> id
  | _ => True
  end.

Lemma lease_held_root s s' id until : root s' = root s -> lease_held s id until -> lease_held s' id until.
Proof. intros Heq. unfold lease_held. by rewrite Heq. Qed.

Lemma lease_held_locked s id until : lease_held s id until -> lease_held (locked s) id until.
Proof.
  intros (bytes & r & Hr & Hrest). exists bytes, r. split; [|done]. simpl. by rewrite lookup_insert_ne.
Qed.

Lemma read_lease s id until :
  lease_held s id until -> exists bytes r,
  in_root (reads (read_regular runner_lease_path 16384)) s = (Ok bytes, s) /\
  root s !! runner_lease_path = Some bytes /\ from_slice bytes = Some r /\
  RunnerLeaseRecord.version r = "runner-lease-v1" /\ RunnerLeaseRecord.runner_id r = id /\
  until <= RunnerLeaseRecord.expires_unix r.
Proof.
  intros (bytes & r & Hr & Hlen & Hrest). exists bytes, r. split; [|done].
  unfold in_root, reads, read_regular. rewrite Hr. rewrite (proj2 (Z.ltb_ge _ _)) by done. by destruct s.
Qed.

(** A failure under the lock that wrote nothing. *)
Lemma with_lock_err {A} (m : op Store Error A) s :
  (exists e, m (locked s) = (Err e, locked s)) -> exists e, with_lock m s = (Err e, s).
Proof.
  intros [e Hm]. rewrite with_lock_run. destruct (root s !! lock_path) eqn:Hu; [by eexists|].
  rewrite Hm. exists e. by rewrite lock_drop_locked.
Qed.

(** Nobody gets the lease while it is held. *)
Lemma acquire_held s id until pid display clock lease_seconds :
  lease_held s id until -> (forall now_unix, clock = Ok now_unix -> now_unix < until) ->
  exists e, runner_acquire pid display clock lease_seconds s = (Err e, s).
Proof.
  intros Hheld%lease_held_locked Hclock. apply with_lock_err. set (s1 := locked s) in *. clearbody s1.
  destruct clock as [now_unix|e]; [|by exists e].
  specialize (Hclock now_unix eq_refl). erewrite run_bind_lift by reflexivity. cbv zeta.
  set (record := {| RunnerLeaseRecord.version := _ |}).
  destruct (encode record) as [new|e]; [|by exists e].
  erewrite run_bind_lift by reflexivity.
  destruct (read_lease _ _ _ Hheld) as (bytes & r & Hread & Hr & Hfrom & Hver & Hid & Hexp).
  assert (try_op (in_root (write_new runner_lease_path new)) s1 = (Ok (Err (Io already_exists)), s1)) as Hw.
  { unfold try_op, in_root, write_new. rewrite Hr. by destruct s1. }
  rewrite (run_bind _ _ _ _ _ Hw). rewrite bool_decide_eq_true_2 by done. cbn [negb].
  rewrite (run_bind _ _ _ _ _ Hread). rewrite Hfrom. erewrite run_bind_lift by reflexivity.
  rewrite bool_decide_eq_true_2, (proj2 (Z.ltb_lt _ _)) by (done || lia). by eexists.
Qed.

(** A record of the lease that the reader accepts. *)
Hypothesis small_leases : forall until id bytes,
  encode {| RunnerLeaseRecord.version := "runner-lease-v1"; RunnerLeaseRecord.runner_id := id;
            RunnerLeaseRecord.expires_unix := until |} = Ok bytes ->
  str_len id = 64 -> vec_len bytes <= 16384.

(** A renewal by another fails; by the holder, it extends the lease or changes nothing. *)
Lemma renew_held s id until id' clock lease_seconds :
  lease_held s id until -> str_len id = 64 -> respects id until (Renew id' clock lease_seconds) ->
  lease_held (renew_runner_lease id' clock lease_seconds s).2 id until.
Proof.
  intros Hheld Hid64 Hok. unfold renew_runner_lease. rewrite with_lock_run.
  destruct (root s !! lock_path) eqn:Hu; [done|].
  pose proof (lease_held_locked _ _ _ Hheld) as Hl. set (s1 := locked s) in *.
  assert (lock_drop s1 = s) as Hback by (by apply lock_drop_locked).
  destruct (read_lease _ _ _ Hl) as (bytes & r & Hread & Hr & Hfrom & Hver & Hid & Hexp).
  rewrite (run_bind _ _ _ _ _ Hread). rewrite Hfrom. erewrite run_bind_lift by reflexivity.
  rewrite (bool_decide_eq_true_2 (_ = "runner-lease-v1")) by done.
  destruct (bool_decide (_ = id')) eqn:Hb; [|unfold fail, lift; cbn [negb orb snd]; by rewrite Hback].
  apply bool_decide_eq_true in Hb. cbn [negb orb].
  destruct clock as [now_unix|e]; [|unfold lift, mbind, op_bind; cbn [snd]; by rewrite Hback].
  erewrite run_bind_lift by reflexivity. cbv zeta.
  set (record := {| RunnerLeaseRecord.version := _ |}).
  destruct (encode record) as [new|e] eqn:He;
    [|unfold lift, mbind, op_bind; cbn [snd]; by rewrite Hback].
  erewrite run_bind_lift by reflexivity. unfold in_root.
  destruct (root s1 !! ".runner-lease.tmp") as [old|] eqn:Ht.
  - unfold atomic_replace, reads, mbind, op_bind, fail, lift. rewrite Ht.
    rewrite bool_decide_eq_true_2 by (by eexists). cbn [snd]. eapply lease_held_root; [|exact Hheld].
    transitivity (root (lock_drop s1)); [done|by rewrite Hback].
  - rewrite lookup_atomic_replace by done. cbn [snd]. exists new, record. unfold lock_drop. cbn [root].
    split.
    { rewrite lookup_delete_ne by done. by rewrite lookup_insert_eq. }
    split; [eapply small_leases, Hid64; rewrite <- He; unfold record; by rewrite Hver, Hid|].
    split. { apply encode_Ok in He as (v & Hv & ->). by apply from_slice_to_vec. }
    split; [done|]. split; [done|]. apply Hok. congruence.
Qed.

Lemma drop_held s id until id' :
  lease_held s id until -> id' <> id -> runner_drop id' s = s.
Proof.
  intros (bytes & r & Hr & Hlen & Hfrom & _ & Hid & _) Hne. unfold runner_drop, read_regular.
  rewrite Hr, (proj2 (Z.ltb_ge _ _)), Hfrom by done. rewrite bool_decide_eq_false_2; [done|congruence].
Qed.

Lemma perform_held s c id until :
  wf_store s -> enabled s c -> lease_held s id until -> str_len id = 64 -> respects id until c ->
  lease_held (perform c s).2 id until.
Proof.
  intros Hwf Hen Hheld H64 Hok. destruct (perform_behaves s c Hwf Hen) as (_ & [Hc|Hroot] & _).
  2:{ by eapply lease_held_root. }
  destruct c; try done; simpl.
  - rewrite discard_store. destruct (acquire_held s id until pid display clock lease_seconds Hheld) as [e ->].
    { by intros now_unix ->. } done.
  - by apply renew_held.
  - by rewrite (drop_held _ _ _ _ Hheld Hok).
Qed.

(** Who gets the lease holds it for its time. *)
Lemma acquire_holds pid display now_unix lease_seconds s id s' :
  runner_acquire pid display (Ok now_unix) lease_seconds s = (Ok id, s') ->
  lease_held s' id (saturating_add_u64 now_unix lease_seconds) /\ str_len id = 64.
Proof.
  intros Hrun. unfold runner_acquire in Hrun.
  apply with_lock_cases in Hrun as [[_ [e He]]|(Hu & s1 & Hm & ->)]; [done|].
  erewrite run_bind_lift in Hm by reflexivity. cbv zeta in Hm.
  set (rid := bytes_digest _) in Hm.
  assert (str_len rid = 64) as H64
    by (unfold rid, bytes_digest, Core.bytes_digest; by rewrite hex_encode_length, sha256_length).
  set (record := {| RunnerLeaseRecord.version := _ |}) in Hm.
  destruct (encode record) as [new|e] eqn:He; [|done].
  assert (Hnew : forall t, root t !! runner_lease_path = Some new ->
    lease_held (lock_drop t) rid (saturating_add_u64 now_unix lease_seconds)).
  { intros t Ht. exists new, record. unfold lock_drop. cbn [root]. split; [by rewrite lookup_delete_ne|].
    split; [by eapply small_leases|]. split; [|done].
    apply encode_Ok in He as (v & Hv & ->). by apply from_slice_to_vec. }
  erewrite run_bind_lift in Hm by reflexivity. apply run_bind_Ok in Hm as (r & s2 & Hw & Hm).
  unfold try_op, in_root, write_new in Hw.
  destruct (root (locked s) !! runner_lease_path) as [old|] eqn:Hold; injection Hw as <- <-.
  2:{ injection Hm as <- <-. split; [|done]. apply Hnew. simpl. by rewrite lookup_insert_eq. }
  rewrite bool_decide_eq_true_2 in Hm by done. cbn [negb] in Hm.
  apply run_bind_Ok in Hm as (b & s3 & _ & Hm). apply run_bind_Ok in Hm as (ex & s4 & _ & Hm).
  destruct (_ || _); [done|]. apply run_bind_Ok in Hm as ([] & s5 & _ & Hm).
  erewrite run_bind_lift in Hm by reflexivity. apply run_bind_Ok in Hm as ([] & s6 & Hw & Hm).
  injection Hm as <- <-. split; [|done]. apply Hnew. unfold in_root, write_new in Hw.
  destruct (root s5 !! runner_lease_path); [done|]. injection Hw as <-. simpl. by rewrite lookup_insert_eq.
Qed.

(** ** What a batch counts *)

Definition counted (r : BatchReceipt.BatchReceipt) : Prop :=
  0 <= BatchReceipt.certified r /\ 0 <= BatchReceipt.refused r /\ 0 <= BatchReceipt.failed r /\
  BatchReceipt.claimed r = BatchReceipt.certified r + BatchReceipt.refused r + BatchReceipt.failed r.

Lemma run_job_counts now_unix failure tree executor i receipt s next s' :
  counted receipt ->
  run_job config now_unix failure tree executor i receipt s = (Ok (Some next), s') ->
  counted next /\ BatchReceipt.claimed next = BatchReceipt.claimed receipt + 1.
Proof.
  destruct receipt as [cl ce re fa rc]. unfold counted. simpl. intros Hc Hrun. unfold run_job in Hrun.
  apply run_bind_Ok in Hrun as ([[job n]|] & s1 & _ & Hrun); [|done].
  destruct (bool_decide _); [done|]. apply run_bind_Ok in Hrun as (actual & s2 & _ & Hrun).
  destruct (negb _).
  { apply run_bind_Ok in Hrun as (? & ? & _ & Hrun). injection Hrun as <- <-. simpl. lia. }
  cbv zeta in Hrun. apply run_bind_Ok in Hrun as (encoded & s3 & _ & Hrun).
  destruct (_ <? _).
  { apply run_bind_Ok in Hrun as (? & ? & _ & Hrun). injection Hrun as <- <-. simpl. lia. }
  apply run_bind_Ok in Hrun as (? & ? & _ & Hrun).
  destruct (executor i _); apply run_bind_Ok in Hrun as (? & ? & _ & Hrun);
    injection Hrun as <- <-; simpl; lia.
Qed.

Lemma run_jobs_counts now_unix failure tree executor n : forall i receipt s r s',
  counted receipt -> run_jobs config now_unix failure tree executor n i receipt s = (Ok r, s') ->
  counted r /\ BatchReceipt.claimed r <= BatchReceipt.claimed receipt + Z.of_nat n.
Proof.
  induction n as [|n IH]; intros i receipt s r s' Hc Hrun.
  { injection Hrun as <- <-. split; [done|lia]. }
  cbn [run_jobs] in Hrun. apply run_bind_Ok in Hrun as ([next|] & s1 & Hjob & Hrun).
  - apply run_job_counts in Hjob as [Hc1 Hcl]; [|done]. apply IH in Hrun as [? ?]; [split; [done|lia]|done].
  - injection Hrun as <- <-. split; [done|lia].
Qed.

Lemma run_batch_counts pid display clock now_unix failure tree executor s r s' :
  run_batch config pid display clock now_unix failure tree executor s = (Ok r, s') ->
  counted r /\ BatchReceipt.claimed r <= Z.max 0 (OperationsConfig.max_batch config).
Proof.
  intros Hrun. unfold run_batch in Hrun. apply run_bind_Ok in Hrun as (id & s1 & _ & Hrun).
  unfold finally in Hrun. destruct (run_jobs _ _ _ _ _ _ _ _ s1) as [rr s2] eqn:Hjobs.
  injection Hrun as -> _. apply run_jobs_counts in Hjobs as [Hc Hle]; [|done].
  split; [done|]. simpl in Hle. lia.
Qed.

(** ** Stores that are too full to be read *)

(** The commands that list the directory. *)
Definition lists_jobs (c : command) : Prop :=
  match c with
  | ClaimNext _ | PruneTerminal _ _ | ReadStatus | Support _ | Enqueue _ _ _ _ => True
  | _ => False
  end.

Lemma read_jobs_overfull s :
  MAX_JOBS < Z.of_nat (size (jobs s)) -> exists e, read_jobs s = (Err e, s).
Proof.
  intros Hsize. unfold read_jobs, reads.
  destruct (for_each (map_to_list (jobs s)) [] read_entry) as [paths|e] eqn:Hr; [|by exists e].
  exfalso. apply read_entries_bound in Hr as [_ Hb]. rewrite <- length_map_to_list in Hsize.
  unfold vec_len, MAX_JOBS in *. destruct Hb as [Hn|Hn]; [rewrite Hn in Hsize|]; simpl in *; lia.
Qed.

Lemma with_lock_list {A} (f : list RecoveryJob -> op Store Error A) s :
  MAX_JOBS < Z.of_nat (size (jobs s)) -> exists e, with_lock (jobs ← read_jobs; f jobs) s = (Err e, s).
Proof.
  intros Hsize. apply with_lock_err. destruct (read_jobs_overfull (locked s) Hsize) as [e He].
  exists e. unfold mbind, op_bind. by rewrite He.
Qed.

Lemma discard_err {A} (m : op Store Error A) s :
  (exists e, m s = (Err e, s)) -> exists e, discard m s = (Err e, s).
Proof. intros [e He]. exists e. unfold discard, mbind, op_bind. by rewrite He. Qed.

(** ** Two steps that lack a guard *)

(** [finish_failed] does not ask for a running job: a verdict can be turned into a
    failure, whose result stays on file. *)
Lemma finish_failed_overwrites s j now_unix event :
  consistent config s -> readable s -> unlocked s -> holds config s j ->
  vec_len (events j) < 64 -> str_len event <= 64 ->
  exists k, (finish_failed (job_id j) now_unix event s).1 = Ok () /\
  holds config (finish_failed (job_id j) now_unix event s).2 k /\
  job_id k = job_id j /\ state k = Failed /\ result_sha256 k = result_sha256 j.
Proof.
  intros Hc [_ Hsmall] Hu Hj H64 Hk. destruct (finish_failed (job_id j) now_unix event s) as [r s'] eqn:Hrun.
  destruct (finish_failed_cases config s _ now_unix event r s' Hc Hrun)
    as [[_ [e ->]]|(-> & _ & x & k & Hx & Hxid & Hw & Hkid & Hst & Hres)].
  - exfalso. unfold finish_failed in Hrun. rewrite with_lock_run in Hrun. unfold unlocked in Hu.
    rewrite Hu in Hrun. destruct Hj as (bytes & Hb & Hf).
    assert (read_job (job_id j) (locked s) = (Ok j, locked s)) as Hread.
    { unfold read_job, reads. rewrite (job_file_id config _ _ Hf). cbn [mbind result_bind jobs locked].
      by rewrite (read_job_file_job config j bytes) by (done || by eapply Hsmall). }
    rewrite (run_bind _ _ _ _ _ Hread) in Hrun.
    destruct (append_event_total (with_state Failed (attempts j) None j) now_unix event) as [j1 Ha]; [done..|].
    assert (Hh : holds config (locked s) j) by (by exists bytes).
    destruct (amend_writes config (locked s) j (with_state Failed (attempts j) None j) now_unix event j1 Hc Hh
      eq_refl eq_refl eq_refl Ha) as (j2 & s2 & Hr & _).
    { destruct (append_event_Ok _ _ _ _ Ha) as (ev & -> & _). destruct Hf as (_ & _ & [Hatt _]). done. }
    rewrite (run_bind_lift _ _ _ _ Ha), (run_bind _ _ _ _ _ Hr) in Hrun. done.
  - assert (x = j) as -> by (by apply (holds_functional config s)).
    exists k. split_and!; try done. by eapply writes_holds.
Qed.

(** A failed job whose result was written before it was given up stops [prune_terminal]
    when its turn comes. *)
Lemma prune_job_blocked s j bytes removed :
  results s !! job_path (job_id j) = Some bytes -> result_sha256 j = None ->
  exists e, prune_job j removed s = (Err e, s).
Proof.
  intros Hr Hd. unfold prune_job, in_results, mbind, op_bind, reads, fail, lift, read_regular.
  rewrite Hr, bool_decide_eq_true_2, Hd by (by eexists). destruct s; simpl in *. rewrite Hr.
  destruct (_ <? _); simpl; by eexists.
Qed.
End Runners.

(** * Properties *)

Section Properties.
Context `{SerdeErrorText, OsErrorText, JsonText, Sha256, Hex}.
Context `{!ToValue OperationsConfig.OperationsConfig, !FromSlice json}.
Context `{!ToValue RecoveryJob, !FromSlice RecoveryJob, !ToValue JobEvent.JobEvent}.
Context `{!ToValue RunnerLeaseRecord.RunnerLeaseRecord, !FromSlice RunnerLeaseRecord.RunnerLeaseRecord}.
Context `{!ToValue (string * Z), !ToValue (btree_map string string), !ToValue SupportBundle.SupportBundle}.
Context `{!ToValue Protocol.RecoveryResult}.
Context `{!SerdeLaws RecoveryJob, !TotalValue RecoveryJob, !TotalValue JobEvent.JobEvent}.
Context `{!SerdeLaws RunnerLeaseRecord.RunnerLeaseRecord, !Sha256Laws, !HexLaws}.



(** C11: Once a job is certified, refused or failed, its record and its result stay byte
    for byte what they were through any sequence of operations but the pruning of jobs
    and [finish_failed] on that very job. *)
Theorem verdict_is_final config s s' j :
  OperationsConfig.validate config = Ok () -> wf_store config s ->
  holds config s j -> is_terminal j = true -> steps config (spares (job_id j)) s s' ->
  holds config s' j /\ untouched j s s' /\
  (state j = Certified \/ state j = Refused ->
   exists bytes, results s' !! job_path (job_id j) = Some bytes /\
                 result_sha256 j = Some (bytes_digest bytes)).
Proof.
  intros Hv Hwf Hj Ht Hsteps.
  assert (wf_store config s' /\ holds config s' j /\ untouched j s s') as (Hwf' & Hj' & Hun).
  { apply (steps_inv config (spares (job_id j))
      (fun t => wf_store config t /\ holds config t j /\ untouched j s t) s s'); [|done|].
    - intros t c (Hwt & Hjt & Hjobs & Hres) Hok Hen.
      destruct (perform_behaves config Hv t c Hwt Hen) as (Hwt' & _ & Hset).
      destruct (Hset j Hjt Ht Hok) as [Hj2 Hr2]. split_and!; [done| |].
      + destruct Hjt as (bytes & Hb & Hf). exists bytes. by rewrite Hj2.
      + split; [congruence|]. intros Hsome. rewrite <- Hres by done. apply Hr2. by rewrite Hres.
    - split_and!; done. }
  split_and!; try done. intros Hst. by apply Hwf'.
Qed.

End Properties.

Section BatchProperties.
Context `{SerdeErrorText, OsErrorText, JsonText, Sha256, Hex}.
Context `{!ToValue OperationsConfig.OperationsConfig, !FromSlice json}.
Context `{!ToValue RecoveryJob, !FromSlice RecoveryJob, !ToValue JobEvent.JobEvent}.
Context `{!ToValue RunnerLeaseRecord.RunnerLeaseRecord, !FromSlice RunnerLeaseRecord.RunnerLeaseRecord}.
Context `{!ToValue (string * Z), !ToValue (btree_map string string), !ToValue SupportBundle.SupportBundle}.
Context `{!ToValue Protocol.RecoveryResult}.

(** A batch, wherever it stops, has left a store that some sequence of single
    operations of a batch leads to: it submits and prunes nothing, and declares a verdict
    only for the bytes on file.  Its receipt counts one outcome per claim, at most
    [max_batch] of them. *)
Theorem run_batch_is_run config pid display clock now_unix failure tree executor s :
  let '(r, s') := run_batch config pid display clock now_unix failure tree executor s in
  steps config (of_batch now_unix) s s' /\
  match r with
  | Ok receipt => counted receipt /\ BatchReceipt.claimed receipt <= Z.max 0 (OperationsConfig.max_batch config)
  | Err _ => True
  end.
Proof.
  pose proof (run_batch_steps config pid display clock now_unix failure tree executor s) as Hs.
  destruct (run_batch _ _ _ _ _ _ _ _ s) as [r s'] eqn:Hrun. split; [exact Hs|].
  destruct r; [|done]. by eapply run_batch_counts.
Qed.

(** A store with more than [MAX_JOBS] files is stuck: every operation that lists the
    jobs fails, that which would prune them included, and leaves the store as it is. *)
Theorem overfull_store_is_stuck config s c :
  MAX_JOBS < Z.of_nat (size (jobs s)) -> lists_jobs c ->
  exists e, perform config c s = (Err e, s).
Proof.
  intros Hsize Hc. destruct c; try done; simpl.
  - apply discard_err. unfold enqueue.
    destruct (canonicalize _) as [w|e]; [rewrite (run_bind_lift _ _ _ _ eq_refl)|by exists e].
    destruct (validate_directory (tree w)) as [[]|e]; [rewrite (run_bind_lift _ _ _ _ eq_refl)|by exists e].
    destruct (digest_workspace_reference (tree w)) as [d|e];
      [rewrite (run_bind_lift _ _ _ _ eq_refl)|by exists e].
    by apply with_lock_list.
  - by apply discard_err, with_lock_list.
  - apply discard_err. unfold prune_terminal. destruct (negb _); [by eexists|]. by apply with_lock_list.
  - by apply discard_err, with_lock_list.
  - by apply discard_err, with_lock_list.
Qed.
End BatchProperties.

(** * Witnesses *)

Module RunnersWitness.
Import Toy.
(** Its digests differ in their first bytes, which the identifiers are made of. *)
#[local] Instance sha : Sha256 := fun m => be_bytes 8 (mix m) ++ be_bytes 24 (mix m).
#[local] Instance sha_laws : Sha256Laws.
Proof.
  split; intros m; unfold sha256, sha.
  - by rewrite length_app, !be_bytes_length.
  - apply Forall_app. split; apply be_bytes_byte.
Qed.
#[local] Existing Instance ToyJson.text.
#[local] Instance serde_text : SerdeErrorText := "error".
#[local] Instance os_text : OsErrorText := {| not_found := "not found"; already_exists := "exists" |}.

Definition of_option {A} (f : A -> json) (o : option A) : json :=
  match o with Some x => f x | None => Null end.
Import ToyJson(num).

Definition state_code (s : JobState) : Z :=
  match s with Pending => 0 | Running => 1 | Certified => 2 | Refused => 3 | Failed => 4 end.
Definition state_of (z : Z) : JobState :=
  if z =? 0 then Pending else if z =? 1 then Running else if z =? 2 then Certified
  else if z =? 3 then Refused else Failed.
Definition code_code (c : RefusalCode.RefusalCode) : Z :=
  match c with
  | RefusalCode.InvalidRegistry => 0 | RefusalCode.InvalidEvidence => 1
  | RefusalCode.InsufficientEvidence => 2 | RefusalCode.ContradictoryEvidence => 3
  | RefusalCode.ArtifactPresent => 4 | RefusalCode.SearchExhausted => 5
  | RefusalCode.CheckerRejected => 6 | RefusalCode.InternalError => 7
  end.
Definition code_of (z : Z) : RefusalCode.RefusalCode :=
  if z =? 0 then RefusalCode.InvalidRegistry else if z =? 1 then RefusalCode.InvalidEvidence
  else if z =? 2 then RefusalCode.InsufficientEvidence else if z =? 3 then RefusalCode.ContradictoryEvidence
  else if z =? 4 then RefusalCode.ArtifactPresent else if z =? 5 then RefusalCode.SearchExhausted
  else if z =? 6 then RefusalCode.CheckerRejected else RefusalCode.InternalError.

Definition event_tree (e : JobEvent.JobEvent) : json :=
  Array [num (JobEvent.sequence e); num (JobEvent.at_unix e); String (JobEvent.kind e);
         of_option String (JobEvent.previous_sha256 e); String (JobEvent.event_sha256 e)].
Definition event_of (v : json) : option JobEvent.JobEvent :=
  match v with
  | Array [Number (PosInt n); Number (PosInt t); String k; p; String d] =>
      Some {| JobEvent.sequence := n; JobEvent.at_unix := t; JobEvent.kind := k;
              JobEvent.previous_sha256 := as_str p; JobEvent.event_sha256 := d |}
  | _ => None
  end.

Definition job_tree (j : RecoveryJob) : json :=
  Array [String (version j); String (job_id j); String (workspace j); String (workspace_sha256 j);
         num (submitted_unix j); num (state_code (state j)); num (attempts j);
         of_option num (lease_expires_unix j); of_option String (result_sha256 j);
         of_option (fun c => num (code_code c)) (RecoveryJob.refusal_code j);
         Array (event_tree <$> events j); String (record_sha256 j)].
Definition job_of (v : json) : option RecoveryJob :=
  match v with
  | Array [String ver; String id; String w; String d; Number (PosInt t); Number (PosInt s);
           Number (PosInt a); l; r; c; Array es; String rec] =>
      es ← mapM event_of es;
      Some {| version := ver; job_id := id; workspace := w; workspace_sha256 := d;
              submitted_unix := t; state := state_of s; attempts := a;
              lease_expires_unix := match l with Number (PosInt n) => Some n | _ => None end;
              result_sha256 := as_str r;
              RecoveryJob.refusal_code := match c with Number (PosInt n) => Some (code_of n) | _ => None end;
              events := es; record_sha256 := rec |}
  | _ => None
  end.

Definition lease_tree (r : RunnerLeaseRecord.RunnerLeaseRecord) : json :=
  Array [String (RunnerLeaseRecord.version r); String (RunnerLeaseRecord.runner_id r);
         num (RunnerLeaseRecord.expires_unix r)].
Definition lease_of (v : json) : option RunnerLeaseRecord.RunnerLeaseRecord :=
  match v with
  | Array [String ver; String id; Number (PosInt t)] =>
      Some {| RunnerLeaseRecord.version := ver; RunnerLeaseRecord.runner_id := id;
              RunnerLeaseRecord.expires_unix := t |}
  | _ => None
  end.

#[local] Instance tree_event : ToValue JobEvent.JobEvent := fun e => Some (event_tree e).
#[local] Instance tree_job : ToValue RecoveryJob := fun j => Some (job_tree j).
#[local] Instance read_job_ : FromSlice RecoveryJob := ToyJson.from_text job_of.
#[local] Instance tree_lease : ToValue RunnerLeaseRecord.RunnerLeaseRecord := fun r => Some (lease_tree r).
#[local] Instance read_lease_ : FromSlice RunnerLeaseRecord.RunnerLeaseRecord := ToyJson.from_text lease_of.
#[local] Instance read_json : FromSlice json := ToyJson.from_text Some.
#[local] Instance tree_config : ToValue OperationsConfig.OperationsConfig :=
  fun c => Some (num (OperationsConfig.max_queued c)).
#[local] Instance tree_pair : ToValue (string * Z) := fun p => Some (Array [String p.1; num p.2]).
#[local] Instance tree_files : ToValue (btree_map string string) :=
  fun m => Some (Object (prod_map id String <$> m)).
#[local] Instance tree_bundle : ToValue SupportBundle.SupportBundle :=
  fun b => Some (String (SupportBundle.config_sha256 b)).
#[local] Instance tree_result : ToValue Protocol.RecoveryResult :=
  fun r => Some (Bool (Protocol.is_certified r)).

#[local] Instance total_event : TotalValue JobEvent.JobEvent.
Proof. intros e. by eexists. Qed.
#[local] Instance total_job : TotalValue RecoveryJob.
Proof. intros j. by eexists. Qed.

Lemma events_of_tree es : mapM event_of (event_tree <$> es) = Some es.
Proof.
  induction es as [|[n t k p d] es IH]; [done|]. rewrite fmap_cons. cbn [mapM]. rewrite IH.
  by destruct p.
Qed.

#[local] Instance job_laws : SerdeLaws RecoveryJob.
Proof.
  apply ToyJson.from_text_laws. intros [ver id w d t s a l r c es rec] v [= <-].
  unfold job_tree, job_of. cbn -[mapM]. change (list_fmap _ _ event_tree es) with (event_tree <$> es).
  rewrite events_of_tree. cbn.
  destruct s, l, r, c as [[]|]; reflexivity.
Qed.

#[local] Instance lease_laws : SerdeLaws RunnerLeaseRecord.RunnerLeaseRecord.
Proof. apply ToyJson.from_text_laws. by intros [] v [= <-]. Qed.

Lemma leases_small until i bytes :
  Canonical.encode {| RunnerLeaseRecord.version := "runner-lease-v1"; RunnerLeaseRecord.runner_id := i;
            RunnerLeaseRecord.expires_unix := until |} = Ok bytes ->
  str_len i = 64 -> vec_len bytes <= 16384.
Proof.
  intros (v & [= <-] & ->)%encode_Ok Hi. unfold json_to_vec, ToyJson.text, vec_len. simpl.
  rewrite length_app. rewrite <- bytes_of_string_length in Hi. simpl. lia.
Qed.

(** ** A store with two jobs, one of them running *)

Definition config : OperationsConfig.OperationsConfig :=
  {| OperationsConfig.version := "operations-config-v1"; OperationsConfig.max_queued := 4;
     OperationsConfig.max_batch := 2; OperationsConfig.max_attempts := 2;
     OperationsConfig.lease_seconds := 10 |}.
Definition tree (path : string) : option Node :=
  Some (Folder [("a", RegularFile [1; 2]); ("d", Folder [("b", RegularFile [3])])]).
Definition executor (i : nat) (path : string) : Protocol.RecoveryResult :=
  Protocol.Refused RefusalCode.InsufficientEvidence "no fragments".

Definition no_store : Store := {| root := ∅; jobs := ∅; results := ∅ |}.
Definition created : Store := default no_store (create None config).2.
Definition submit (workspace : string) (t : Z) : command := Enqueue (fun p => Ok p) tree workspace t.
Definition run (cs : list command) (s : Store) : Store := foldl (fun s c => (perform config c s).2) s cs.

Definition queued : Store := run [submit "/w" 5; submit "/v" 3; ClaimNext 100] created.

Lemma config_ok : OperationsConfig.validate config = Ok ().
Proof. reflexivity. Qed.

Lemma created_ok : create None config = (Ok config, Some created).
Proof. vm_compute. reflexivity. Qed.

Definition unguarded (c : command) : Prop := match c with Finish _ _ _ _ => False | _ => True end.

Lemma run_steps ok cs s :
  Forall ok cs -> Forall unguarded cs -> steps config ok s (run cs s).
Proof.
  intros Hok Hun. cut (forall t, steps config ok s t -> steps config ok s (run cs t)).
  { intros Hgen. apply Hgen. constructor. }
  revert Hun. induction Hok as [|c cs Hc _ IH]; intros Hun t Ht; [done|].
  inversion Hun; subst. simpl. apply IH; [done|]. constructor; [done|done|by destruct c].
Qed.

Lemma created_wf : wf_store config created.
Proof.
  assert (jobs created = ∅) as Hj by (vm_compute; reflexivity). split.
  - unfold consistent. rewrite Hj. apply map_Forall_empty.
  - intros j (bytes & Hb & _). by rewrite Hj in Hb.
Qed.

Lemma run_wf cs s : Forall unguarded cs -> wf_store config s -> wf_store config (run cs s).
Proof.
  intros Hun. apply (steps_wf config config_ok any_command). apply run_steps; [|done].
  by apply Forall_true.
Qed.

Lemma queued_wf : wf_store config queued.
Proof. apply run_wf; [by repeat constructor|apply created_wf]. Qed.

(** The job a file holds. *)
Definition job_at (s : Store) (path : string) : option RecoveryJob := jobs s !! path ≫= from_slice.

Lemma job_at_holds s path j : consistent config s -> job_at s path = Some j -> holds config s j.
Proof.
  intros Hc Hj. unfold job_at in Hj. destruct (jobs s !! path) as [bytes|] eqn:Hb; [|done]. simpl in Hj.
  destruct (consistent_holds config _ _ _ Hc Hb) as (k & _ & Hk & (He & _)).
  apply from_slice_encode in He. by simplify_eq.
Qed.


Lemma readable_check s :
  (Z.of_nat (size (jobs s)) <=? MAX_JOBS) &&
  forallb (fun e => vec_len e.2 <=? MAX_RECORD_BYTES) (map_to_list (jobs s)) = true -> readable s.
Proof.
  rewrite andb_true_iff, Z.leb_le, forallb_forall. intros [Hs Hall]. split; [done|].
  intros path bytes Hb%elem_of_map_to_list%list_elem_of_In. specialize (Hall _ Hb).
  by apply Z.leb_le in Hall.
Qed.


(** The batch refuses both jobs; the queue is then pruned of none, and more is asked. *)
Definition settled : Store :=
  (run_batch config 1 "/r" (Ok 7) 111 NoFailure (fun _ => tree) executor queued).2.
Definition later : list command := [submit "/u" 9; ClaimNext 300; ReadStatus].

Lemma settled_wf : wf_store config settled.
Proof.
  pose proof (run_batch_steps config 1 "/r" (Ok 7) 111 NoFailure (fun _ => tree) executor queued) as Hs.
  apply (steps_wf config config_ok _ _ _ Hs), queued_wf.
Qed.

Definition settled_path : string := default "" (head (map_to_list (jobs settled)).*1).
Definition settled_job : option RecoveryJob := job_at settled settled_path.

Lemma settled_state : (state <$> settled_job) = Some Refused.
Proof. vm_compute. reflexivity. Qed.

Example verdict_is_final_witness :
  exists j, settled_job = Some j /\ state j = Refused /\ holds config (run later settled) j.
Proof.
  pose proof settled_state as Hst. destruct settled_job as [j|] eqn:Hj; [|done]. injection Hst as Hst.
  exists j. split; [reflexivity|]. split; [exact Hst|].
  pose proof (job_at_holds settled settled_path j (proj1 settled_wf) Hj) as Hh.
  assert (is_terminal j = true) as Ht by (unfold is_terminal, in_state; by rewrite Hst).
  apply (verdict_is_final config settled (run later settled) j config_ok settled_wf Hh Ht).
  apply run_steps; repeat constructor.
Defined.


(** A directory of 1025 files. *)
Definition overfull : Store :=
  {| root := ∅; jobs := list_to_map ((fun n : nat => (pretty n, [])) <$> seq 0 1025); results := ∅ |}.

Lemma overfull_size : size (jobs overfull) = 1025%nat.
Proof.
  unfold overfull. cbn [jobs]. rewrite <- length_map_to_list, map_to_list_to_map.
  - by rewrite length_fmap, length_seq.
  - rewrite <- list_fmap_compose. apply (NoDup_fmap_2 (fun n : nat => pretty n)), NoDup_seq.
Qed.

Example overfull_store_is_stuck_witness :
  exists e, perform config (PruneTerminal 10 1) overfull = (Err e, overfull).
Proof.
  apply (overfull_store_is_stuck config overfull (PruneTerminal 10 1)); [|exact I].
  rewrite overfull_size. reflexivity.
Defined.
End RunnersWitness.
